(* ===== verification/_CoqProject ===== *)
-Q . S2P
Prelude.v
Bytes.v
Utf8.v
Key.v
KeyLaws.v
CompositeKey.v
CompositeKeyLaws.v
KeyTheorems.v
Range.v
Digits.v
VarInt.v
DerivedKeys.v
Timestamp.v
Numeric.v
Persistence.v
Nebari.v
Document.v
Names.v
Time.v
TimeTheorems.v
Changes.v
KeyValue.v
KeyValueLaws.v
KeyValueSpec.v
KeyValueSystem.v
KeyValueTheorems.v
Schema.v
Permissions.v
View.v
Query.v
Integrity.v
Jobs.v
Transaction.v
Tasks.v
Vault.v
StoreDemo.v
VaultTheorems.v
ViewLaws.v
ViewBatch.v
ViewTheorems.v
TransactionLaws.v
TransactionSpec.v
TransactionTheorems.v
QueryLaws.v
IntegrityTheorems.v
TasksLaws.v
TasksTheorems.v
JobsTheorems.v
CompactionTheorems.v
Connection.v
Admin.v
Storage.v
ConnectionTheorems.v
DatabaseLaws.v
ViewSystem.v
AdminTheorems.v
StorageRegistry.v
PubSub.v
StorageSessions.v
StorageTheorems.v
StorageExamples.v
Backup.v
BackupTheorems.v
BackupPaths.v
Networking.v
Server.v
ServerTheorems.v
ServerLoop.v
Client.v
Remote.v
RemoteLaws.v
NetworkExamples.v
FilePaths.v
FilePathsTheorems.v
FileContents.v
FileContentsTheorems.v
Files.v
FilesTheorems.v
FilesLookup.v
FilesExamples.v
