(* ===== verification/Prelude.v ===== *)
(** * Verification of BonsaiDb

    BonsaiDb is a document database written in Rust.  A database holds
    collections of documents, views that index them, and a key-value store;
    all of it is kept in the ordered trees of the storage engine [nebari].  A
    storage holds databases, users and sessions; a server gives clients on the
    network access to a storage.  This library models the parts of
    [bonsaidb-core], [bonsaidb-macros], [bonsaidb-local], [bonsaidb-files],
    [bonsaidb-server] and [bonsaidb-client] that carry this logic and proves what makes them correct.

    ** The parts and the files that model them

    Data and keys:
    - [Prelude] (this file): results that are a value, an error or a panic
      ([res]); methods on [&mut self] as state passing that keeps the state on
      errors ([stm]); machine integers with their width and the overflow-check
      profile.
    - [Bytes], [Utf8], [Digits]: byte strings and their order, big-endian
      integers, UTF-8 as the standard library of Rust checks it, decimal
      numbers.
    - [Key], [KeyLaws]: the traits [Key] and [KeyEncoding] of [key.rs] as a
      record of operations ([key_ty]), the descriptions of keys, the contract
      of keys as the classes [KeyRoundTrip], [KeyOrdered], [KeyFixedLength] and
      [KeySequence], and the built-in keys with the instances they satisfy.
    - [CompositeKey], [CompositeKeyLaws], [KeyTheorems]: [CompositeKeyEncoder]
      and [CompositeKeyDecoder] with the three ways of handling null bytes, and
      the tuples built on them, proved against the classes of [Key].
    - [DerivedKeys]: the keys that [derive(Key)] of [bonsaidb-macros] generates
      for structs and enums.
    - [VarInt], [Time], [TimeTheorems]: variable-width integer keys
      ([key/varint.rs]) and the timestamps of limited resolution with their
      text and their keys ([key/time.rs]).
    - [Range]: ranges and query keys, their serialized form and prefix ranges
      ([connection.rs], [key.rs]).
    - [Document], [Names], [Changes]: ids of documents and their textual form
      ([document/id.rs]), names of collections, views and trees
      ([schema/names.rs], [views.rs]), and the list of changes stored with a
      transaction with its older formats ([transaction.rs],
      [database/compat.rs]).

    The key-value store:
    - [Timestamp], [Numeric], [Persistence]: its timestamps, numbers and
      persistence rules ([keyvalue/timestamp.rs], [keyvalue.rs], [config.rs]).
    - [KeyValue], [KeyValueLaws], [KeyValueSpec], [KeyValueSystem],
      [KeyValueTheorems]: [database/keyvalue.rs]: the state ([KeyValueState]),
      the commands, the threads that persist changed keys, the background
      worker, the loader of expirations, and the steps ([kv_step]) by which
      they interleave, each labelled with what happened ([KvEvent]).

    Documents and views:
    - [Nebari]: the interface of the storage engine, a class of operations and
      a class of laws, with an in-memory instance for examples.
    - [Schema], [Permissions]: revisions, stored documents, the registry of
      collections and views with its generation of ids ([schema/schematic.rs]);
      resource names, actions and sessions ([permissions/bonsai.rs],
      [connection.rs]).
    - [View], [ViewLaws], [ViewBatch], [ViewTheorems]: the mapper that keeps
      the trees of a view ([views/mapper.rs]).
    - [Transaction], [TransactionLaws], [TransactionSpec],
      [TransactionTheorems]: document transactions ([database.rs],
      [open_trees.rs]).
    - [Query], [QueryLaws]: reading documents, executed transactions and view
      entries ([database.rs]).
    - [Integrity], [IntegrityTheorems]: the scan that decides whether a view is
      rebuilt ([views/integrity_scanner.rs]).
    - [Jobs], [JobsTheorems], [CompactionTheorems]: the queue of jobs, their
      handles and the worker threads ([tasks/manager.rs] and the files below
      it), and compaction ([tasks/compactor.rs]).
    - [Tasks], [TasksLaws], [TasksTheorems]: the statuses kept in memory and
      the jobs run for views ([tasks.rs]), and with them the queries a client
      makes.
    - [ViewSystem]: the interleaving of the jobs of a view with transactions:
      the mapper round by round, and its integrity scans, each as one step.
    - [StoreDemo]: serializers, a collection and views for examples.

    Connections and files:
    - [Connection], [ConnectionTheorems]: the trait [LowLevelConnection] of
      [connection/lowlevel.rs] as a class, the typed operations above it
      ([connection.rs], [schema/collection.rs], [document/collection.rs]), the
      database as an instance, and the laws of a connection as a class.
    - [DatabaseLaws]: the database keeps the laws of a connection, with the
      jobs of all of its views.
    - [FilePaths], [FilePathsTheorems], [FileContents],
      [FileContentsTheorems], [Files], [FilesTheorems], [FilesLookup],
      [FilesExamples]: [bonsaidb-files]: paths and the keys they are listed
      by, the cursor over the blocks of a file and the buffered writer, the
      collections and views of files and blocks with the operations on files,
      and what they do on any connection that keeps the laws.

    Storage:
    - [Vault], [VaultTheorems]: encryption at rest ([vault.rs]): unsealing the
      vault, the storage of its keys and the payloads it encrypts.
    - [Admin], [AdminTheorems]: the collections of the administration database
      and the permissions of users ([admin/*.rs]).
    - [Storage], [StorageRegistry], [StorageSessions], [StorageTheorems],
      [StorageExamples]: [storage.rs] and [storage/token_authentication.rs]:
      the databases a storage knows, users, authentication by password and by
      token, and the sessions in use.
    - [PubSub]: topics and subscribers ([storage/pubsub.rs],
      [database/pubsub.rs]).
    - [Backup], [BackupTheorems], [BackupPaths]: backing up and restoring
      databases ([storage/backup.rs]), with directories as a place for backups.

    Server and clients:
    - [Networking]: payloads and the requests of the interface
      ([networking.rs], [api.rs]).
    - [Server], [ServerTheorems], [ServerLoop]: the connected clients, the
      handler of every request ([dispatch.rs], [server.rs],
      [connected_client.rs]), and as a step relation the loops of the
      connections with the workers that run requests and with shutdown.
    - [Client]: the worker of a client ([client.rs], [quic_worker.rs],
      [tungstenite_worker.rs]) as a step relation, for both transports.
    - [Remote], [RemoteLaws]: remote storages, databases,
      key-value stores and subscribers ([remote_database.rs]), and what a
      client and a server do together.
    - [NetworkExamples]: a server with a client.

    They interact as in the code: a transaction opens trees through [Nebari],
    reads and writes documents ([Schema]), generates ids with the [Key] of the
    collection, runs the mapper ([View]) for the eager views, records the
    changed documents for the lazy ones, and stores its [Changes]; the
    background job of a lazy view maps what is recorded; a query waits for that
    job and reads the entries; typed collections, files and the administration
    schema go through a connection; a storage keeps its databases and users as
    documents of its administration database; a handler of the server runs an
    operation of the storage or of a database for the session of its client.
    Components are proved against interfaces: the composite keys against the
    [Key] classes, the key-value store, the mapper, the transactions and the
    queries against [NebariLaws] and the laws of the serializers, typed
    collections, files, the storage and backups against [ConnectionLaws].
    [DatabaseLaws] gives these laws for a database and [RemoteLaws] for a
    remote database from those of the database behind the server.

    ** What the theorems show

    - Transactions: the results and the documents after a transaction are those
      of the commands applied in order to a map of documents
      ([spec_operations]), or the store is unchanged; views stay in step, and
      unique views are enforced.
    - Views: from a store in which documents are indexed as the view maps them
      except for the recorded ones ([view_synced]), the job of a view leaves
      such a store whatever its outcome, and nothing recorded when it succeeds,
      for every order in which its threads deliver their results; the status it
      records covers the transactions of its start, however transactions and
      integrity scans come between its rounds; a scan that no transaction
      interrupts establishes this state from any version, and an insert during
      a scan is shown to escape it.
    - Queries: a query returns exactly the mappings of the selected keys, and a
      reduction their reduction; updating a view before it ends; documents are
      read as they are stored, in order and within limits.
    - Jobs: the handles of a job are served when it completes, and all queued
      jobs complete unless one panics; one worker that compacts waits for ever.
    - Key-value store: every step of the concurrent system simulates the step
      of a flat map with expirations for the same event ([spec_step]): a
      command has its effect at the time of its clock, the worker expires what
      is due, the loader enters stored expirations, and staging, writing and
      finishing change nothing; the expiration queue is sorted
      and complete; commits write exactly what was staged; the worker is due in
      time; snapshots agree with the map.  Three theorems state behaviours that
      lose or delete data.
    - Keys: derived enums round-trip and are ordered, and can be described only
      under a stated condition; composite keys round-trip and keep the order of their members under
      stated conditions, and the cases where built-in keys do not; timestamps
      round-trip through their text and are ordered as keys; a serialized query
      selects the encodings of what it selects; prefix ranges are exact.
    - Connections: a pushed document is read back; [modify] is an atomic
      read-modify-write whatever other clients do, and ends when they let it.
    - Databases: a local database keeps the laws of a connection, the jobs of
      its views included, and so does a remote one.
    - Storage: creating and deleting a database are what they are on a map of
      names, and say why they fail; names outside the documented form that are
      accepted are stated; the registry of sessions holds exactly the sessions
      in use and gives no id twice; a challenge is answered only by who knows
      the token, and the password that was set is accepted as long as the user
      is not changed, all failures being named; a user has exactly the permissions
      of its groups and of the groups of its roles; encrypted trees and the
      vault are read back, the latter after a restart; a message that was
      published is received by the subscribers of its topic.
    - Backups: the documents and the keys of a database are those restored,
      for ids whose text can be parsed and namespaces without the marker of
      keys; examples show what happens to the others.
    - Server and clients: a request runs with the default session or one an
      earlier request of the client was granted; every response carries the
      id, the name and the session of a request that was received and what its
      handler returned; no more requests of a client run at once than
      configured; a request is answered at most once, and whenever the client
      is idle it has been; a remote call returns what the local one does.
    - Files: what is appended is read back at the end of the file and nowhere
      else; seeking, buffered writing and truncating do what they promise;
      listings return exactly the files of a path, recursive ones those below
      it with an exception that is stated exactly; a file is found at the path
      it was created with or moved to.
    - Names, ids, changes, schematic, numbers, persistence rules: round trips,
      injectivity of tree names, freshness of generated ids, agreement of
      indexes and of iterators, bounds of arithmetic.

    ** Bounds and fuel

    Loops that are not structural carry fuel that is shown to be enough where a
    theorem depends on it: the carry of a timestamp addition runs at most four
    times since a [u32] holds fewer than five seconds of nanoseconds; the
    hexadecimal printing of a 64-bit length has at most 16 digits and the
    decimal printing of an integer at most 40; removing expired keys takes at
    most one round per queued key; mapping invalidated documents takes at most
    one round per document, as each round takes away at least one; unescaping
    takes at most one round per byte; splitting a list into chunks takes at
    most one round per element; updating a view before a query runs the job at
    most as often as [update_loop_ends] states; reading a file takes at most
    one round per block and two more for each buffer, and as many buffers as
    there are bytes; truncating takes one round per block; [modify] has no
    bound, and ends by the first attempt that is not disturbed, as does the
    choice of a random id for a token; the search for the id of a subscriber or
    of a client makes one attempt more than there are entries.  [usize] is 64
    bits wide.

    ** What is not modelled

    The storage engine, serializers ([pot], [bincode], [transmog]), the digest,
    ciphers and key derivation, the hash of passwords, the relay of messages
    ([circulate]), the file system, the clock, the variable-width integers of
    [ordered_varint] and the decision of [actionable] whether permissions allow
    an action are parameters with their documented behaviour as laws.
    Compression and encryption of trees do not change their contents: the
    vault is modelled on its own, and documents as they are after decryption.

    The asynchronous interfaces repeat the blocking ones with [await]; the
    asynchronous reader and writer of files, which are state machines of their
    own, are not modelled.  On the server, a request is handled in one step;
    certificates and ACME, sockets, HTTP, and what the handlers of custom APIs
    and the hooks of a backend do are left out, as are on the client the
    WebAssembly transport and the task that reads a QUIC stream after its
    connection is lost.  The
    documents and the key-value store of a database behind a server are kept
    apart, though they share a transaction log, and its compaction is an
    argument.  The whole of a storage is backed up and restored by definitions
    whose theorems are about one database.  Of the macros only
    [derive(Key)] is modelled; command lines and the crates that only re-export
    are not. *)

From Stdlib Require Import ZArith Lia.
From stdpp Require Import base list option numbers.

Local Open Scope Z_scope.

(** ** Results, errors and panics

    A Rust function returning [Result<A, E>] either returns [Ok], returns
    [Err], or unwinds ([panic!], [unwrap] on [None], [todo!], a slice index out
    of range, ...).  The three outcomes are kept apart. *)

Inductive res (E A : Type) : Type :=
| Ok (a : A)
| Err (e : E)
| Panic.
Arguments Ok {E A} _.
Arguments Err {E A} _.
Arguments Panic {E A}.

#[export] Instance res_ret {E} : MRet (res E) := fun A a => Ok a.
#[export] Instance res_bind {E} : MBind (res E) := fun A B f m =>
  match m with Ok a => f a | Err e => Err e | Panic => Panic end.
#[export] Instance res_fmap {E} : FMap (res E) := fun A B f m =>
  match m with Ok a => Ok (f a) | Err e => Err e | Panic => Panic end.

(** [Result::map_err]. *)
Definition map_err {E F A} (f : E -> F) (m : res E A) : res F A :=
  match m with Ok a => Ok a | Err e => Err (f e) | Panic => Panic end.

(** [Option::ok_or]. *)
Definition ok_or {E A} (e : E) (o : option A) : res E A :=
  match o with Some a => Ok a | None => Err e end.

(** [Option::unwrap] / [Option::expect]. *)
Definition unwrap {E A} (o : option A) : res E A :=
  match o with Some a => Ok a | None => Panic end.

Definition is_ok {E A} (m : res E A) : bool :=
  match m with Ok _ => true | _ => false end.

(** [Result::ok]. *)
Definition res_ok {E A} (m : res E A) : option A :=
  match m with Ok a => Some a | _ => None end.

Lemma res_ok_Some {E A} (m : res E A) a : res_ok m = Some a -> m = Ok a.
Proof. destruct m; simpl; congruence. Qed.

Lemma bind_Ok_inv {E A B} (m : res E A) (f : A -> res E B) b :
  m ≫= f = Ok b -> exists a, m = Ok a /\ f a = Ok b.
Proof. destruct m; simpl; try discriminate; eauto. Qed.

Lemma fmap_Ok_inv {E A B} (m : res E A) (f : A -> B) b :
  f <$> m = Ok b -> exists a, m = Ok a /\ f a = b.
Proof. destruct m; simpl; intros H; try discriminate. inversion H; eauto. Qed.

Lemma map_err_Ok_inv {E F A} (f : E -> F) (m : res E A) a :
  map_err f m = Ok a -> m = Ok a.
Proof. destruct m; simpl; congruence. Qed.

Lemma unwrap_Ok_inv {E A} (o : option A) (a : A) :
  @unwrap E A o = Ok a -> o = Some a.
Proof. destruct o; simpl; congruence. Qed.

Lemma ok_or_Ok_inv {E A} (e : E) (o : option A) (a : A) :
  ok_or e o = Ok a -> o = Some a.
Proof. destruct o; simpl; congruence. Qed.

Lemma is_ok_Ok {E A} (m : res E A) : is_ok m = true -> exists a, m = Ok a.
Proof. destruct m; [eauto|done..]. Qed.

Lemma Ok_inj {E A} (a b : A) : @Ok E A a = Ok b -> a = b.
Proof. congruence. Qed.

(** Eliminates an equation one side of which is a variable. *)
Ltac subst_eq H :=
  match type of H with
  | ?x = ?y => first [subst x | subst y]
  end.

(** Takes apart a hypothesis saying that a monadic computation succeeded. *)
Ltac inv_res :=
  repeat match goal with
  | H : Ok _ = Ok _ |- _ => apply Ok_inj in H; try subst_eq H
  | H : Err _ = Ok _ |- _ => discriminate H
  | H : Panic = Ok _ |- _ => discriminate H
  | H : mret _ = Ok _ |- _ => apply Ok_inj in H; try subst_eq H
  | H : (_ ≫= _) = Ok _ |- _ =>
      apply bind_Ok_inv in H; destruct H as (? & ? & H)
  | H : (_ <$> _) = Ok _ |- _ =>
      apply fmap_Ok_inv in H; destruct H as (? & ? & H)
  | H : map_err _ _ = Ok _ |- _ => apply map_err_Ok_inv in H
  | H : unwrap _ = Ok _ |- _ => apply unwrap_Ok_inv in H
  | H : ok_or _ _ = Ok _ |- _ => apply ok_or_Ok_inv in H
  end.

(** ** Stateful computations

    A method on [&mut self] that returns a [Result]: the state is the one
    reached, also when the method returns early with an error. *)

Definition stm (S E A : Type) : Type := S -> res E A * S.

#[export] Instance stm_ret {S E} : MRet (stm S E) := fun A a s => (Ok a, s).
#[export] Instance stm_bind {S E} : MBind (stm S E) := fun A B f m s =>
  match m s with
  | (Ok a, s') => f a s'
  | (Err e, s') => (Err e, s')
  | (Panic, s') => (Panic, s')
  end.

Definition st_get {S E} : stm S E S := fun s => (Ok s, s).
Definition st_put {S E} (s : S) : stm S E unit := fun _ => (Ok tt, s).
Definition st_modify {S E} (f : S -> S) : stm S E unit := fun s => (Ok tt, f s).
Definition st_lift {S E A} (m : res E A) : stm S E A := fun s => (m, s).

Lemma stm_bind_Ok_inv {S E A B} (m : stm S E A) (f : A -> stm S E B) s b s' :
  (m ≫= f) s = (Ok b, s') -> exists a s1, m s = (Ok a, s1) /\ f a s1 = (Ok b, s').
Proof.
  unfold mbind, stm_bind. destruct (m s) as [[a|e|] s1] eqn:E1; try discriminate. eauto.
Qed.

Lemma stm_bind_run {S E A B} (m : stm S E A) (f : A -> stm S E B) s r s1 :
  m s = (r, s1) ->
  (m ≫= f) s = match r with Ok a => f a s1 | Err e => (Err e, s1) | Panic => (Panic, s1) end.
Proof. unfold mbind, stm_bind. by intros ->. Qed.

Lemma stm_bind_Ok {S E A B} (m : stm S E A) (f : A -> stm S E B) s a s1 :
  m s = (Ok a, s1) -> (m ≫= f) s = f a s1.
Proof. unfold mbind, stm_bind. by intros ->. Qed.

Lemma stm_bind_Err {S E A B} (m : stm S E A) (f : A -> stm S E B) s e s1 :
  m s = (Err e, s1) -> (m ≫= f) s = (Err e, s1).
Proof. unfold mbind, stm_bind. by intros ->. Qed.

(** Runs the first statement of a computation, leaving what it returned to be
    established. *)
Ltac stm_step := erewrite stm_bind_Ok; [|first [reflexivity | eassumption]]; cbv beta.

(** ** Machine integers

    An integer type of the source is a width and a signedness; values are
    mathematical integers in its range.  [overflow_checks] is the compilation
    profile: with checks on, arithmetic overflow panics; with checks off it
    wraps. *)

Record int_ty := IntTy { int_signed : bool; int_bits : Z }.

Definition u8 := IntTy false 8.
Definition u16 := IntTy false 16.
Definition u32 := IntTy false 32.
Definition u64 := IntTy false 64.
Definition u128 := IntTy false 128.
Definition i8 := IntTy true 8.
Definition i16 := IntTy true 16.
Definition i32 := IntTy true 32.
Definition i64 := IntTy true 64.
Definition i128 := IntTy true 128.
(** The platform word is taken to be 64 bits wide. *)
Definition usize := u64.
Definition isize := i64.

Definition int_min (t : int_ty) : Z :=
  if int_signed t then - 2 ^ (int_bits t - 1) else 0.
Definition int_max (t : int_ty) : Z :=
  if int_signed t then 2 ^ (int_bits t - 1) - 1 else 2 ^ int_bits t - 1.

Definition in_range (t : int_ty) (x : Z) : bool :=
  (int_min t <=? x) && (x <=? int_max t).

Definition wrap (t : int_ty) (x : Z) : Z :=
  let m := x `mod` 2 ^ int_bits t in
  if int_signed t && (2 ^ (int_bits t - 1) <=? m) then m - 2 ^ int_bits t else m.

Definition saturate (t : int_ty) (x : Z) : Z := Z.max (int_min t) (Z.min (int_max t) x).

Definition checked_add (t : int_ty) (x y : Z) : option Z :=
  if in_range t (x + y) then Some (x + y) else None.
Definition saturating_add (t : int_ty) (x y : Z) : Z := saturate t (x + y).
Definition saturating_sub (t : int_ty) (x y : Z) : Z := saturate t (x - y).
Definition wrapping_add (t : int_ty) (x y : Z) : Z := wrap t (x + y).
Definition wrapping_sub (t : int_ty) (x y : Z) : Z := wrap t (x - y).
(** [TryFrom] between integer types. *)
Definition try_from_int (t : int_ty) (x : Z) : option Z :=
  if in_range t x then Some x else None.

Class Profile := overflow_checks : bool.

(** The operators [+], [-] and [<<] of the source. *)
Definition op_add `{Profile} {E} (t : int_ty) (x y : Z) : res E Z :=
  if in_range t (x + y) then Ok (x + y)
  else if overflow_checks then Panic else Ok (wrap t (x + y)).
Definition op_sub `{Profile} {E} (t : int_ty) (x y : Z) : res E Z :=
  if in_range t (x - y) then Ok (x - y)
  else if overflow_checks then Panic else Ok (wrap t (x - y)).
Definition op_shl `{Profile} {E} (t : int_ty) (x n : Z) : res E Z :=
  if n <? int_bits t then Ok (wrap t (Z.shiftl x n))
  else if overflow_checks then Panic
  else Ok (wrap t (Z.shiftl x (n `mod` int_bits t))).

Definition int_ty_ok (t : int_ty) : Prop := 0 < int_bits t.

Lemma in_range_spec t x : in_range t x = true <-> int_min t <= x <= int_max t.
Proof. unfold in_range. rewrite andb_true_iff, !Z.leb_le. tauto. Qed.

Lemma pow2_half n : 0 < n -> 2 ^ n = 2 * 2 ^ (n - 1).
Proof.
  intros. replace n with (Z.succ (n - 1)) at 1 by lia. rewrite Z.pow_succ_r; lia.
Qed.

Lemma pow2_pos n : 0 <= n -> 0 < 2 ^ n.
Proof. intros. apply Z.pow_pos_nonneg; lia. Qed.

Lemma wrap_in_range t x : int_ty_ok t -> in_range t (wrap t x) = true.
Proof.
  unfold int_ty_ok, wrap, int_min, int_max. intros Hb.
  pose proof (pow2_half _ Hb). pose proof (pow2_pos (int_bits t - 1) ltac:(lia)).
  pose proof (Z.mod_pos_bound x (2 ^ int_bits t) ltac:(lia)).
  apply in_range_spec. unfold int_min, int_max.
  destruct (int_signed t); simpl; [|lia].
  destruct (Z.leb_spec (2 ^ (int_bits t - 1)) (x `mod` 2 ^ int_bits t)); lia.
Qed.

Lemma wrap_id t x : int_ty_ok t -> in_range t x = true -> wrap t x = x.
Proof.
  unfold int_ty_ok, wrap. intros Hb Hr. apply in_range_spec in Hr.
  unfold int_min, int_max in Hr.
  pose proof (pow2_half _ Hb). pose proof (pow2_pos (int_bits t - 1) ltac:(lia)).
  destruct (int_signed t); simpl.
  - destruct (Z.leb_spec 0 x).
    + rewrite Z.mod_small by lia.
      destruct (Z.leb_spec (2 ^ (int_bits t - 1)) x); lia.
    + assert (x `mod` 2 ^ int_bits t = x + 2 ^ int_bits t) as ->.
      { rewrite <- (Z.mod_small (x + 2 ^ int_bits t) (2 ^ int_bits t)) by lia.
        rewrite <- (Z_mod_plus_full x 1 (2 ^ int_bits t)). f_equal; lia. }
      destruct (Z.leb_spec (2 ^ (int_bits t - 1)) (x + 2 ^ int_bits t)); lia.
  - rewrite Z.mod_small; lia.
Qed.

Lemma saturate_in_range t x : int_ty_ok t -> in_range t (saturate t x) = true.
Proof.
  unfold int_ty_ok, saturate, int_min, int_max. intros Hb.
  pose proof (pow2_half _ Hb). pose proof (pow2_pos (int_bits t - 1) ltac:(lia)).
  apply in_range_spec. unfold int_min, int_max. destruct (int_signed t); lia.
Qed.

Lemma op_add_ok `{Profile} {E} t x y :
  in_range t (x + y) = true -> @op_add _ E t x y = Ok (x + y).
Proof. unfold op_add. now intros ->. Qed.

Lemma op_sub_ok `{Profile} {E} t x y :
  in_range t (x - y) = true -> @op_sub _ E t x y = Ok (x - y).
Proof. unfold op_sub. now intros ->. Qed.
