(* ===== verification/Bytes.v ===== *)
(** * Byte sequences

    [&[u8]], [Vec<u8>] and friends as lists of integers in [0, 256): the
    [memcmp] order that every storage tree sorts its keys by, slicing, and the
    big-endian conversions [to_be_bytes]/[from_be_bytes] of the integer types. *)

From Stdlib Require Import ZArith Lia.
From stdpp Require Import base list option numbers.
From S2P Require Import Prelude.

Local Open Scope Z_scope.

Abbreviation bytes := (list Z).

Definition byte_ok (b : Z) : Prop := 0 <= b < 256.
Definition bytes_ok (bs : bytes) : Prop := Forall byte_ok bs.
Definition byte_okb (b : Z) : bool := (0 <=? b) && (b <? 256).
Definition bytes_okb (bs : bytes) : bool := forallb byte_okb bs.

(** The length of a byte slice, as a [usize]. *)
Definition blen (bs : bytes) : Z := Z.of_nat (length bs).

(** [&bytes[a..b]]: panics unless [a <= b <= len]. *)
Definition slice {E} (bs : bytes) (a b : Z) : res E bytes :=
  if (0 <=? a) && (a <=? b) && (b <=? blen bs)
  then Ok (take (Z.to_nat (b - a)) (drop (Z.to_nat a) bs))
  else Panic.

(** ** The [memcmp] order *)

Fixpoint bytes_cmp (x y : bytes) : comparison :=
  match x, y with
  | [], [] => Eq
  | [], _ :: _ => Lt
  | _ :: _, [] => Gt
  | a :: x', b :: y' =>
      match a ?= b with Eq => bytes_cmp x' y' | c => c end
  end.

Definition bytes_leb (x y : bytes) : bool :=
  match bytes_cmp x y with Gt => false | _ => true end.
Definition bytes_ltb (x y : bytes) : bool :=
  match bytes_cmp x y with Lt => true | _ => false end.

(** Lexicographic combination of two comparisons. *)
Definition cmp_then (c d : comparison) : comparison :=
  match c with Eq => d | _ => c end.

Lemma cmp_then_Eq_r c : cmp_then c Eq = c.
Proof. now destruct c. Qed.

Lemma cmp_then_assoc c d e : cmp_then (cmp_then c d) e = cmp_then c (cmp_then d e).
Proof. now destruct c. Qed.

Lemma bytes_cmp_cons a x b y :
  bytes_cmp (a :: x) (b :: y) = cmp_then (a ?= b) (bytes_cmp x y).
Proof. simpl. now destruct (a ?= b). Qed.

Lemma bytes_cmp_refl x : bytes_cmp x x = Eq.
Proof. induction x as [|a x IH]; simpl; [done|]. now rewrite Z.compare_refl. Qed.

Lemma bytes_cmp_eq x y : bytes_cmp x y = Eq <-> x = y.
Proof.
  split; [|intros ->; apply bytes_cmp_refl].
  revert y. induction x as [|a x IH]; intros [|b y]; simpl; try done.
  destruct (Z.compare_spec a b); try done. intros ?; subst; f_equal; auto.
Qed.

Lemma bytes_cmp_antisym x y : bytes_cmp y x = CompOpp (bytes_cmp x y).
Proof.
  revert y. induction x as [|a x IH]; intros [|b y]; simpl; try done.
  rewrite (Z.compare_antisym a b). destruct (a ?= b); simpl; auto.
Qed.

Lemma bytes_cmp_trans x y z :
  bytes_cmp x y = Lt -> bytes_cmp y z = Lt -> bytes_cmp x z = Lt.
Proof.
  revert y z. induction x as [|a x IH]; intros [|b y] [|c z]; simpl; try done.
  destruct (Z.compare_spec a b); destruct (Z.compare_spec b c); try done;
    intros; subst.
  - rewrite Z.compare_refl. eauto.
  - now rewrite (proj2 (Z.compare_lt_iff _ _)).
  - now rewrite (proj2 (Z.compare_lt_iff _ _)).
  - rewrite (proj2 (Z.compare_lt_iff a c)); [done|lia].
Qed.

Lemma bytes_ltb_lt x y : bytes_ltb x y = true <-> bytes_cmp x y = Lt.
Proof. unfold bytes_ltb. destruct (bytes_cmp x y); intuition congruence. Qed.

Lemma bytes_leb_gt x y : bytes_leb x y = negb (bytes_ltb y x).
Proof.
  unfold bytes_leb, bytes_ltb. rewrite (bytes_cmp_antisym x y).
  now destruct (bytes_cmp x y).
Qed.

Lemma bytes_leb_refl x : bytes_leb x x = true.
Proof. unfold bytes_leb. now rewrite bytes_cmp_refl. Qed.

Lemma bytes_leb_total x y : bytes_leb x y = true \/ bytes_leb y x = true.
Proof.
  unfold bytes_leb. rewrite (bytes_cmp_antisym x y).
  destruct (bytes_cmp x y); simpl; auto.
Qed.

Lemma bytes_leb_trans x y z :
  bytes_leb x y = true -> bytes_leb y z = true -> bytes_leb x z = true.
Proof.
  unfold bytes_leb. destruct (bytes_cmp x y) eqn:E1; try done;
    destruct (bytes_cmp y z) eqn:E2; try done; intros _ _.
  - apply bytes_cmp_eq in E1 as ->. now rewrite E2.
  - apply bytes_cmp_eq in E1 as ->. now rewrite E2.
  - apply bytes_cmp_eq in E2 as ->. now rewrite E1.
  - now rewrite (bytes_cmp_trans _ _ _ E1 E2).
Qed.

#[export] Instance bytes_leb_po : TotalOrder (fun x y => bytes_leb x y = true).
Proof.
  repeat split.
  - intros x. apply bytes_leb_refl.
  - intros x y z. apply bytes_leb_trans.
  - intros x y. unfold bytes_leb. rewrite (bytes_cmp_antisym x y).
    destruct (bytes_cmp x y) eqn:E; simpl; try done.
    intros _ _. now apply bytes_cmp_eq.
  - intros x y. unfold strict, bytes_leb. rewrite (bytes_cmp_antisym x y).
    destruct (bytes_cmp x y) eqn:E; simpl; auto.
    right. left. now apply bytes_cmp_eq.
Qed.

(** Two sequences whose first parts have the same length compare part by
    part. *)
Lemma bytes_cmp_app_same_length x y a b :
  length x = length y ->
  bytes_cmp (x ++ a) (y ++ b) = cmp_then (bytes_cmp x y) (bytes_cmp a b).
Proof.
  revert y. induction x as [|p x IH]; intros [|q y]; simpl; try done.
  intros [= Hl]. destruct (p ?= q); simpl; auto.
Qed.

Lemma bytes_cmp_app_prefix x a b : bytes_cmp (x ++ a) (x ++ b) = bytes_cmp a b.
Proof. rewrite bytes_cmp_app_same_length by done. now rewrite bytes_cmp_refl. Qed.

Lemma bytes_cmp_prefix_lt x c s : bytes_cmp x (x ++ c :: s) = Lt.
Proof.
  rewrite <- (app_nil_r x) at 1. now rewrite bytes_cmp_app_prefix.
Qed.

(** ** Big-endian integers *)

Fixpoint to_be (n : nat) (x : Z) : bytes :=
  match n with
  | O => []
  | S m => (x / 2 ^ (8 * Z.of_nat m)) `mod` 256 :: to_be m x
  end.

Fixpoint from_be_acc (acc : Z) (bs : bytes) : Z :=
  match bs with [] => acc | b :: r => from_be_acc (acc * 256 + b) r end.
Definition from_be (bs : bytes) : Z := from_be_acc 0 bs.

Definition int_bytes (t : int_ty) : nat := Z.to_nat (int_bits t / 8).

(** [to_be_bytes] and [from_be_bytes]: two's complement, most significant byte
    first. *)
Definition to_be_bytes (t : int_ty) (x : Z) : bytes :=
  to_be (int_bytes t) (x `mod` 2 ^ int_bits t).
Definition from_be_bytes (t : int_ty) (bs : bytes) : Z := wrap t (from_be bs).

Lemma to_be_length n x : length (to_be n x) = n.
Proof. induction n; simpl; auto. Qed.

Lemma to_be_ok n x : bytes_ok (to_be n x).
Proof.
  induction n; simpl; constructor; auto. apply Z.mod_pos_bound. lia.
Qed.

Lemma pow2_8_succ m : 2 ^ (8 * Z.of_nat (S m)) = 256 * 2 ^ (8 * Z.of_nat m).
Proof.
  replace (8 * Z.of_nat (S m)) with (8 + 8 * Z.of_nat m) by lia.
  rewrite Z.pow_add_r by lia. done.
Qed.

Lemma from_be_acc_to_be n acc x :
  from_be_acc acc (to_be n x) = acc * 2 ^ (8 * Z.of_nat n) + x `mod` 2 ^ (8 * Z.of_nat n).
Proof.
  revert acc. induction n as [|n IH]; intros acc; cbn [to_be from_be_acc].
  - change (2 ^ (8 * Z.of_nat 0)) with 1. rewrite Z.mod_1_r. lia.
  - rewrite IH, pow2_8_succ.
    assert (0 < 2 ^ (8 * Z.of_nat n)) by (apply pow2_pos; lia).
    rewrite (Z.mul_comm 256), (Z.rem_mul_r x (2 ^ (8 * Z.of_nat n)) 256) by lia.
    ring.
Qed.

Lemma from_be_to_be n x : from_be (to_be n x) = x `mod` 2 ^ (8 * Z.of_nat n).
Proof. unfold from_be. rewrite from_be_acc_to_be. lia. Qed.

Lemma to_be_cmp n x y :
  0 <= x < 2 ^ (8 * Z.of_nat n) -> 0 <= y < 2 ^ (8 * Z.of_nat n) ->
  bytes_cmp (to_be n x) (to_be n y) = (x ?= y).
Proof.
  intros Hx Hy.
  assert (forall m, bytes_cmp (to_be m x) (to_be m y)
    = (x `mod` 2 ^ (8 * Z.of_nat m) ?= y `mod` 2 ^ (8 * Z.of_nat m))) as H.
  { clear. induction m as [|m IH]; cbn [to_be].
    - change (2 ^ (8 * Z.of_nat 0)) with 1. now rewrite !Z.mod_1_r.
    - rewrite bytes_cmp_cons, IH, pow2_8_succ.
      set (p := 2 ^ (8 * Z.of_nat m)).
      assert (0 < p) by (apply pow2_pos; lia).
      rewrite (Z.mul_comm 256), !(Z.rem_mul_r _ p 256) by lia.
      pose proof (Z.mod_pos_bound x p ltac:(lia)).
      pose proof (Z.mod_pos_bound y p ltac:(lia)).
      destruct (Z.compare_spec ((x / p) `mod` 256) ((y / p) `mod` 256)) as [E|E|E];
        cbn [cmp_then].
      + rewrite E. destruct (Z.compare_spec (x `mod` p) (y `mod` p)); symmetry;
          rewrite ?Z.compare_eq_iff, ?Z.compare_lt_iff, ?Z.compare_gt_iff; lia.
      + symmetry. apply Z.compare_lt_iff. nia.
      + symmetry. apply Z.compare_gt_iff. nia. }
  rewrite H, !Z.mod_small by lia. done.
Qed.

(** The integer types of the source have a whole number of bytes. *)
Definition byte_multiple (t : int_ty) : Prop :=
  0 < int_bits t /\ 8 * Z.of_nat (int_bytes t) = int_bits t.

Lemma byte_multiple_ok t : byte_multiple t -> int_ty_ok t.
Proof. now intros []. Qed.

Lemma to_be_bytes_length t x : length (to_be_bytes t x) = int_bytes t.
Proof. apply to_be_length. Qed.

Lemma from_to_be_bytes t x :
  byte_multiple t -> in_range t x = true -> from_be_bytes t (to_be_bytes t x) = x.
Proof.
  intros [Hp Hm] Hr. unfold from_be_bytes, to_be_bytes.
  rewrite from_be_to_be, Hm, Zmod_mod.
  rewrite <- (wrap_id t x) at 2 by done.
  unfold wrap. now rewrite Zmod_mod.
Qed.

Lemma in_range_unsigned t x :
  int_signed t = false -> in_range t x = true -> 0 <= x < 2 ^ int_bits t.
Proof.
  intros Hs Hr. apply in_range_spec in Hr. unfold int_min, int_max in Hr.
  rewrite Hs in Hr. lia.
Qed.

Lemma to_be_bytes_cmp t x y :
  byte_multiple t -> int_signed t = false ->
  in_range t x = true -> in_range t y = true ->
  bytes_cmp (to_be_bytes t x) (to_be_bytes t y) = (x ?= y).
Proof.
  intros [Hp Hm] Hs Hx Hy.
  apply (in_range_unsigned _ _ Hs) in Hx. apply (in_range_unsigned _ _ Hs) in Hy.
  unfold to_be_bytes. rewrite !Z.mod_small by lia.
  apply to_be_cmp; rewrite Hm; lia.
Qed.

(** ** Slices *)

Lemma blen_app x y : blen (x ++ y) = blen x + blen y.
Proof. unfold blen. rewrite length_app. lia. Qed.

Lemma blen_nonneg x : 0 <= blen x.
Proof. unfold blen. lia. Qed.

Lemma slice_app {E} x y z :
  @slice E (x ++ y ++ z) (blen x) (blen x + blen y) = Ok y.
Proof.
  unfold slice, blen. rewrite !length_app.
  assert ((0 <=? Z.of_nat (length x)) && (Z.of_nat (length x) <=? Z.of_nat (length x) + Z.of_nat (length y))
    && (Z.of_nat (length x) + Z.of_nat (length y) <=? Z.of_nat (length x + (length y + length z))) = true) as ->.
  { rewrite !andb_true_iff, !Z.leb_le. lia. }
  f_equal. replace (Z.to_nat _) with (length y) by lia.
  rewrite Nat2Z.id, drop_app_length. apply take_app_length.
Qed.

Lemma slice_all {E} x : @slice E x 0 (blen x) = Ok x.
Proof.
  pose proof (@slice_app E [] x []) as H. rewrite app_nil_r in H. exact H.
Qed.

(** ** A byte form of any countable type, for examples *)

Fixpoint bits (p : positive) : bytes :=
  match p with xH => [] | xO p => 0 :: bits p | xI p => 1 :: bits p end.
Fixpoint unbits (bs : bytes) : positive :=
  match bs with [] => xH | b :: bs => if b =? 0 then xO (unbits bs) else xI (unbits bs) end.
Lemma unbits_bits p : unbits (bits p) = p.
Proof. induction p; simpl; congruence. Qed.
