(* ===== verification/Utf8.v ===== *)
(** * UTF-8

    Rust's [char] and [str]: a string is the list of its scalar values, its
    bytes are their UTF-8 encoding, and [String::from_utf8] is the validating
    decoder.  The two facts the key encodings rest on are proved here: decoding
    inverts encoding, and the byte order of encodings is the code point order. *)

From Stdlib Require Import ZArith Lia.
From stdpp Require Import base list option numbers.
From S2P Require Import Prelude Bytes.

Local Open Scope Z_scope.

Definition char_max : Z := 0x10FFFF.

(** A Unicode scalar value. *)
Definition is_char (c : Z) : bool :=
  ((0 <=? c) && (c <? 0xD800)) || ((0xE000 <=? c) && (c <=? char_max)).

Definition is_str (s : list Z) : bool := forallb is_char s.

(** [char::encode_utf8]. *)
Definition encode_char (c : Z) : bytes :=
  if c <? 0x80 then [c]
  else if c <? 0x800 then [0xC0 + c / 64; 0x80 + c `mod` 64]
  else if c <? 0x10000 then
    [0xE0 + c / 4096; 0x80 + (c / 64) `mod` 64; 0x80 + c `mod` 64]
  else
    [0xF0 + c / 262144; 0x80 + (c / 4096) `mod` 64; 0x80 + (c / 64) `mod` 64;
     0x80 + c `mod` 64].

(** [str::as_bytes]. *)
Fixpoint as_bytes (s : list Z) : bytes :=
  match s with [] => [] | c :: r => encode_char c ++ as_bytes r end.

Definition is_cont (b : Z) : bool := (0x80 <=? b) && (b <? 0xC0).

(** [String::from_utf8]: rejects stray continuation bytes, overlong forms,
    surrogates and values past [char::MAX]. *)
Fixpoint from_utf8 (bs : bytes) : option (list Z) :=
  match bs with
  | [] => Some []
  | b0 :: r0 =>
    if b0 <? 0x80 then
      if 0 <=? b0 then cons b0 <$> from_utf8 r0 else None
    else if b0 <? 0xC2 then None
    else match r0 with
    | [] => None
    | b1 :: r1 =>
      if negb (is_cont b1) then None
      else if b0 <? 0xE0 then
        cons ((b0 - 0xC0) * 64 + (b1 - 0x80)) <$> from_utf8 r1
      else match r1 with
      | [] => None
      | b2 :: r2 =>
        if negb (is_cont b2) then None
        else if b0 <? 0xF0 then
          let c := (b0 - 0xE0) * 4096 + (b1 - 0x80) * 64 + (b2 - 0x80) in
          if (0x800 <=? c) && is_char c then cons c <$> from_utf8 r2 else None
        else match r2 with
        | [] => None
        | b3 :: r3 =>
          if negb (is_cont b3) then None
          else
            let c := (b0 - 0xF0) * 262144 + (b1 - 0x80) * 4096
                     + (b2 - 0x80) * 64 + (b3 - 0x80) in
            if (0x10000 <=? c) && is_char c then cons c <$> from_utf8 r3 else None
        end
      end
    end
  end.

Lemma is_char_spec c :
  is_char c = true <-> (0 <= c < 0xD800 \/ 0xE000 <= c <= 0x10FFFF).
Proof.
  unfold is_char, char_max.
  rewrite orb_true_iff, !andb_true_iff, !Z.leb_le, !Z.ltb_lt. tauto.
Qed.

(** Splits on the encoding's four length classes. *)
Ltac utf8_cases c :=
  unfold encode_char;
  destruct (Z.ltb_spec c 0x80);
  [| destruct (Z.ltb_spec c 0x800);
     [| destruct (Z.ltb_spec c 0x10000) ] ].

Ltac zdm := Z.div_mod_to_equations; lia.

Lemma encode_char_ok c : is_char c = true -> bytes_ok (encode_char c).
Proof.
  intros Hc%is_char_spec. unfold bytes_ok, byte_ok.
  utf8_cases c; repeat constructor; zdm.
Qed.

Ltac if_true := rewrite (proj2 (Z.ltb_lt _ _)) by zdm.
Ltac if_false := rewrite (proj2 (Z.ltb_ge _ _)) by zdm.

Lemma is_cont_ok b : 0 <= b < 64 -> is_cont (0x80 + b) = true.
Proof. intros. unfold is_cont. rewrite andb_true_iff, Z.leb_le, Z.ltb_lt. lia. Qed.

Lemma from_utf8_encode_char c r :
  is_char c = true -> from_utf8 (encode_char c ++ r) = cons c <$> from_utf8 r.
Proof.
  intros Hc. pose proof (proj1 (is_char_spec c) Hc) as H.
  assert (forall x, 0 <= x `mod` 64 < 64) as Hm by (intros; apply Z.mod_pos_bound; lia).
  utf8_cases c; cbn [app from_utf8].
  - if_true. now rewrite (proj2 (Z.leb_le _ _)) by lia.
  - do 2 if_false. rewrite is_cont_ok by auto. cbn [negb]. if_true.
    f_equal. f_equal. zdm.
  - do 2 if_false. rewrite is_cont_ok by auto. cbn [negb]. if_false.
    rewrite is_cont_ok by auto. cbn [negb]. if_true. cbv zeta.
    replace (_ * 4096 + _ * 64 + _) with c by zdm.
    rewrite Hc, (proj2 (Z.leb_le _ _)) by lia. done.
  - do 2 if_false. rewrite is_cont_ok by auto. cbn [negb]. if_false.
    rewrite is_cont_ok by auto. cbn [negb]. if_false.
    rewrite is_cont_ok by auto. cbn [negb]. cbv zeta.
    replace (_ * 262144 + _ * 4096 + _ * 64 + _) with c by zdm.
    rewrite Hc, (proj2 (Z.leb_le _ _)) by lia. done.
Qed.

Lemma from_utf8_as_bytes s : is_str s = true -> from_utf8 (as_bytes s) = Some s.
Proof.
  induction s as [|c s IH]; cbn [as_bytes is_str forallb]; [done|].
  rewrite andb_true_iff. intros [Hc Hs].
  rewrite from_utf8_encode_char by done. unfold is_str in IH. now rewrite IH.
Qed.

Lemma is_cont_spec b : is_cont b = true <-> 0x80 <= b < 0xC0.
Proof. unfold is_cont. rewrite andb_true_iff, Z.leb_le, Z.ltb_lt. tauto. Qed.

Lemma encode_char_decoded_2 b0 b1 :
  0xC2 <= b0 < 0xE0 -> is_cont b1 = true ->
  let c := (b0 - 0xC0) * 64 + (b1 - 0x80) in is_char c = true /\ encode_char c = [b0; b1].
Proof.
  intros H0 H1%is_cont_spec c. split; [apply is_char_spec; unfold c; lia|].
  utf8_cases c; unfold c in *; try lia. repeat f_equal; zdm.
Qed.
Lemma encode_char_decoded_3 b0 b1 b2 :
  0xE0 <= b0 < 0xF0 -> is_cont b1 = true -> is_cont b2 = true ->
  let c := (b0 - 0xE0) * 4096 + (b1 - 0x80) * 64 + (b2 - 0x80) in
  0x800 <= c -> encode_char c = [b0; b1; b2].
Proof.
  intros H0 H1%is_cont_spec H2%is_cont_spec c Hc.
  utf8_cases c; unfold c in *; try lia. repeat f_equal; zdm.
Qed.
Lemma encode_char_decoded_4 b0 b1 b2 b3 :
  0xF0 <= b0 -> is_cont b1 = true -> is_cont b2 = true -> is_cont b3 = true ->
  let c := (b0 - 0xF0) * 262144 + (b1 - 0x80) * 4096 + (b2 - 0x80) * 64 + (b3 - 0x80) in
  0x10000 <= c -> encode_char c = [b0; b1; b2; b3].
Proof.
  intros H0 H1%is_cont_spec H2%is_cont_spec H3%is_cont_spec c Hc.
  utf8_cases c; unfold c in *; try lia. repeat f_equal; zdm.
Qed.

(** Decoding accepts exactly the encodings of strings. *)
Lemma from_utf8_sound bs s : from_utf8 bs = Some s -> is_str s = true /\ as_bytes s = bs.
Proof.
  revert s. induction (well_founded_ltof _ (@length Z) bs) as [bs _ IH]. intros s.
  assert (forall c pre r s, bs = pre ++ r -> pre <> [] -> is_char c = true -> encode_char c = pre ->
    cons c <$> from_utf8 r = Some s -> is_str s = true /\ as_bytes s = bs) as Hstep.
  { intros c pre r s0 Hbs Hpre Hc He Hr. apply fmap_Some in Hr as (s1 & Hr & ->).
    destruct (IH r) with (s := s1) as [Hs Hb]; [|done|].
    - unfold ltof. rewrite Hbs, length_app. destruct pre; [done|simpl; lia].
    - split; [simpl; unfold is_str in *; by rewrite Hc, Hs|]. simpl. by rewrite He, Hb, Hbs. }
  destruct bs as [|b0 r0]; [intros [= <-]; done|]. cbn [from_utf8].
  destruct (Z.ltb_spec b0 0x80).
  { destruct (Z.leb_spec 0 b0); [|done]. apply (Hstep b0 [b0] r0); [done..| |].
    - apply is_char_spec. lia.
    - unfold encode_char. by rewrite (proj2 (Z.ltb_lt _ _)). }
  destruct (Z.ltb_spec b0 0xC2); [done|]. destruct r0 as [|b1 r1]; [done|].
  destruct (is_cont b1) eqn:E1; [|done]. simpl negb. cbn iota.
  destruct (Z.ltb_spec b0 0xE0).
  { destruct (encode_char_decoded_2 b0 b1) as [??]; [done..|].
    by apply (Hstep _ [b0; b1] r1). }
  destruct r1 as [|b2 r2]; [done|]. destruct (is_cont b2) eqn:E2; [|done]. simpl negb. cbn iota.
  destruct (Z.ltb_spec b0 0xF0).
  { cbv zeta. destruct (Z.leb_spec 0x800
      ((b0 - 0xE0) * 4096 + (b1 - 0x80) * 64 + (b2 - 0x80))); [|done].
    destruct (is_char _) eqn:Ec; [|done]. apply (Hstep _ [b0; b1; b2] r2); [done..|].
    by apply encode_char_decoded_3. }
  destruct r2 as [|b3 r3]; [done|]. destruct (is_cont b3) eqn:E3; [|done]. simpl negb. cbn iota.
  cbv zeta. destruct (Z.leb_spec 0x10000
      ((b0 - 0xF0) * 262144 + (b1 - 0x80) * 4096 + (b2 - 0x80) * 64 + (b3 - 0x80))); [|done].
  destruct (is_char _) eqn:Ec; [|done]. apply (Hstep _ [b0; b1; b2; b3] r3); [done..|].
  by apply encode_char_decoded_4.
Qed.

Lemma as_bytes_inj s t :
  is_str s = true -> is_str t = true -> as_bytes s = as_bytes t -> s = t.
Proof.
  intros Hs Ht He. apply (inj Some). rewrite <- from_utf8_as_bytes by done.
  rewrite He. by apply from_utf8_as_bytes.
Qed.

Lemma as_bytes_ok s : is_str s = true -> bytes_ok (as_bytes s).
Proof.
  induction s as [|c s IH]; cbn [as_bytes is_str forallb]; [constructor|].
  rewrite andb_true_iff. intros [Hc Hs].
  apply Forall_app. split; [by apply encode_char_ok|by apply IH].
Qed.

Lemma as_bytes_app s t : as_bytes (s ++ t) = as_bytes s ++ as_bytes t.
Proof. induction s as [|c s IH]; simpl; [done|]. now rewrite IH, app_assoc. Qed.

(** Two sequences whose leading bytes are ordered. *)
Lemma bytes_cmp_head_lt a x b y : a < b -> bytes_cmp (a :: x) (b :: y) = Lt.
Proof. intros H. simpl. now rewrite (proj2 (Z.compare_lt_iff a b)). Qed.

Lemma bytes_cmp_head_gt a x b y : b < a -> bytes_cmp (a :: x) (b :: y) = Gt.
Proof. intros H. simpl. now rewrite (proj2 (Z.compare_gt_iff a b)). Qed.

(** Comparing digit by digit is comparing the numbers. *)
Lemma compare_digits p a b a' b' :
  0 <= b < p -> 0 <= b' < p ->
  cmp_then (a ?= a') (b ?= b') = (a * p + b ?= a' * p + b').
Proof.
  intros. destruct (Z.compare_spec a a'); cbn [cmp_then]; symmetry.
  - subst. destruct (Z.compare_spec b b');
      rewrite ?Z.compare_eq_iff, ?Z.compare_lt_iff, ?Z.compare_gt_iff; lia.
  - apply Z.compare_lt_iff. nia.
  - apply Z.compare_gt_iff. nia.
Qed.

Lemma compare_offset k a b : (k + a ?= k + b) = (a ?= b).
Proof. apply Zcompare_plus_compat. Qed.

Lemma encode_char_cmp c d x y :
  is_char c = true -> is_char d = true ->
  bytes_cmp (encode_char c ++ x) (encode_char d ++ y)
  = cmp_then (c ?= d) (bytes_cmp x y).
Proof.
  intros Hc%is_char_spec Hd%is_char_spec.
  assert (forall x, 0 <= x `mod` 64 < 64) as Hm by (intros; apply Z.mod_pos_bound; lia).
  utf8_cases c; utf8_cases d; cbn [app].
  all: try (rewrite bytes_cmp_head_lt by zdm;
            now rewrite (proj2 (Z.compare_lt_iff c d)) by lia).
  all: try (rewrite bytes_cmp_head_gt by zdm;
            now rewrite (proj2 (Z.compare_gt_iff c d)) by lia).
  all: rewrite !bytes_cmp_cons, ?compare_offset.
  all: rewrite <- ?cmp_then_assoc, ?(compare_digits 64) by auto; f_equal; f_equal; zdm.
Qed.

(** The byte order of strings is the lexicographic order of their scalar
    values. *)
Lemma as_bytes_cmp s t :
  is_str s = true -> is_str t = true ->
  bytes_cmp (as_bytes s) (as_bytes t) = bytes_cmp s t.
Proof.
  revert t. induction s as [|c s IH]; intros [|d t]; cbn [as_bytes is_str forallb];
    rewrite ?andb_true_iff.
  - done.
  - intros _ [Hd _]. utf8_cases d; done.
  - intros [Hc _] _. utf8_cases c; done.
  - intros [Hc Hs] [Hd Ht]. rewrite encode_char_cmp, bytes_cmp_cons by done.
    f_equal. now apply IH.
Qed.
