(* ===== verification/Key.v ===== *)
(** * Keys: the [Key]/[KeyEncoding] traits and the built-in implementations

    [bonsaidb-core/src/key.rs].  A [key_ty] is one [impl Key for T]: its value
    type with the type's own order, and the trait's constants and functions.
    The contract of the trait (encode/decode are inverse, [LENGTH] is the
    length, byte order is value order) is stated as three classes, with an
    instance per implementation that satisfies it. *)

From Stdlib Require Import ZArith Lia String.
From stdpp Require Import base list option numbers gmap strings.
From S2P Require Import Prelude Bytes Utf8.

Local Open Scope Z_scope.

(** ** Errors *)

Inductive NextValueError := Unsupported | WouldWrap.

Inductive IoErrorKind := UnexpectedEof | InvalidData | InvalidInput.

(** [TimeError] of [key/time.rs]. *)
Inductive TimeError := DeltaNotRepresentable | InvalidValue.

(** The error types of the implementations.  [CompositeKeyError] boxes the
    error of a field; [IoErrorWith] carries the boxed payload given to
    [io::Error::new]. *)
Inductive KeyError :=
| IncorrectByteLength
| UnknownEnumVariant
| Utf8Error
| NonZeroIncorrectByteLength
| NonZeroValueIsZero
| TryFromIntError
| CompositeKeyFieldContainsNullByte
| TryFromSliceError
| KeyTimeError (error : TimeError)
| IoError (kind : IoErrorKind)
| IoErrorWith (kind : IoErrorKind) (payload : KeyError)
| CompositeKeyError (error : KeyError).

(** ** Byte sources *)

Inductive Cow := CowBorrowed (bs : bytes) | CowOwned (bs : bytes).

Inductive ByteSource :=
| Borrowed (bs : bytes)
| Ephemeral (bs : bytes)
| Owned (bs : bytes).

Definition into_borrowed (src : ByteSource) : Cow :=
  match src with
  | Borrowed bs => CowBorrowed bs
  | Ephemeral bs => CowOwned bs
  | Owned bs => CowOwned bs
  end.

Definition into_owned (src : ByteSource) : bytes :=
  match src with Borrowed bs => bs | Ephemeral bs => bs | Owned bs => bs end.

Definition as_ref (src : ByteSource) : bytes :=
  match src with Borrowed bs => bs | Ephemeral bs => bs | Owned bs => bs end.

Definition cow_bytes (c : Cow) : bytes :=
  match c with CowBorrowed bs => bs | CowOwned bs => bs end.

Lemma into_owned_as_ref src : into_owned src = as_ref src.
Proof. by destruct src. Qed.

Lemma into_borrowed_as_ref src : cow_bytes (into_borrowed src) = as_ref src.
Proof. by destruct src. Qed.

(** ** Descriptions: what [KeyEncoding::describe] reports to a visitor *)

Inductive KeyKind :=
| KUnit | KU8 | KU16 | KU32 | KU64 | KU128 | KUsize
| KI8 | KI16 | KI32 | KI64 | KI128 | KIsize
| KSigned | KUnsigned | KBool | KString | KBytes.

Inductive KeyAttibuteValue :=
| AttrU8 (v : Z) | AttrI8 (v : Z) | AttrU16 (v : Z) | AttrI16 (v : Z)
| AttrU32 (v : Z) | AttrI32 (v : Z) | AttrU64 (v : Z) | AttrI64 (v : Z)
| AttrU128 (v : Z) | AttrI128 (v : Z) | AttrUsize (v : Z) | AttrIsize (v : Z)
| AttrBool (b : bool)
| AttrStr (s : string)
| AttrBytes (bs : bytes).

Inductive CompositeKind := KOption | KResult | KTuple | KStruct (name : string).

(** One call on the [KeyVisitor]. *)
Inductive visit :=
| visit_type (kind : KeyKind)
| visit_composite (kind : CompositeKind) (count : nat)
| visit_composite_attribute (key : string) (value : KeyAttibuteValue).

(** ** The traits *)

Record key_ty := KeyTy {
  k_type : Type;
  (** the values of the Rust type, as a predicate on the model's carrier *)
  k_wf : k_type -> Prop;
  (** the Rust type's [Ord] *)
  k_cmp : k_type -> k_type -> comparison;
  LENGTH : option Z;
  describe : list visit;
  as_ord_bytes : k_type -> res KeyError bytes;
  CAN_OWN_BYTES : bool;
  from_ord_bytes : ByteSource -> res KeyError k_type;
  first_value : res NextValueError k_type;
  next_value : k_type -> res NextValueError k_type
}.

(** *** [KeyDescription]: what is reported, as a value *)

Inductive KeyDescription :=
| Basic (kind : KeyKind)
| Composite (description : CompositeKeyDescription)
| Other (name : string)
with CompositeKeyDescription := MkCompositeKeyDescription
    (kind : CompositeKind) (fields : list KeyDescription) (attributes : gmap string KeyAttibuteValue).

(** A composite key whose fields are still being reported, with the capacity of
    the vector of its fields; the last element of [KeyDescriber::stack] comes
    first. *)
Record OpenComposite := MkOpenComposite {
  oc_kind : CompositeKind;
  oc_fields : list KeyDescription;
  oc_attributes : gmap string KeyAttibuteValue;
  oc_capacity : nat
}.
Record KeyDescriber := MkKeyDescriber { kd_stack : list OpenComposite; kd_result : option KeyDescription }.
Definition describer_default : KeyDescriber := MkKeyDescriber [] None.

(** [Vec::push]: a full vector at least doubles, and never to less than four
    elements of this size. *)
Definition grown_capacity (capacity : nat) : nat := Nat.max 4 (2 * capacity).
Definition push_field (description : KeyDescription) (c : OpenComposite) : OpenComposite :=
  MkOpenComposite (oc_kind c) (oc_fields c ++ [description]) (oc_attributes c)
    (if decide (List.length (oc_fields c) = oc_capacity c) then grown_capacity (oc_capacity c) else oc_capacity c).

(** [KeyDescriber::record]. *)
Fixpoint record_description {E} (description : KeyDescription) (stack : list OpenComposite) (result : option KeyDescription)
    : res E KeyDescriber :=
  match stack with
  | c :: stack =>
      let c := push_field description c in
      if decide (List.length (oc_fields c) = oc_capacity c)
      then record_description (Composite (MkCompositeKeyDescription (oc_kind c) (oc_fields c) (oc_attributes c))) stack result
      else Ok (MkKeyDescriber (c :: stack) result)
  | [] => match result with None => Ok (MkKeyDescriber [] (Some description)) | Some _ => Panic end
  end.

(** [KeyVisitor for KeyDescriber]. *)
Definition describer_visit {E} (v : visit) (d : KeyDescriber) : res E KeyDescriber :=
  match v with
  | visit_type kind => record_description (Basic kind) (kd_stack d) (kd_result d)
  | visit_composite kind count => Ok (MkKeyDescriber (MkOpenComposite kind [] ∅ count :: kd_stack d) (kd_result d))
  | visit_composite_attribute key value =>
      match kd_stack d with
      | current :: stack =>
          Ok (MkKeyDescriber (MkOpenComposite (oc_kind current) (oc_fields current) (<[key := value]> (oc_attributes current))
            (oc_capacity current) :: stack) (kd_result d))
      | [] => Panic
      end
  end.
Fixpoint describer_run {E} (vs : list visit) (d : KeyDescriber) : res E KeyDescriber :=
  match vs with [] => Ok d | v :: vs => d ← describer_visit v d; describer_run vs d end.

(** [KeyDescription::for_encoding] and [KeyDescription::for_key]. *)
Definition for_encoding {E} (k : key_ty) : res E KeyDescription :=
  describer ← describer_run (describe k) describer_default;
  unwrap (kd_result describer).

(** [Key]'s provided [first_value]/[next_value]. *)
Definition default_first_value {A} : res NextValueError A := Err Unsupported.
Definition default_next_value {A} (_ : A) : res NextValueError A := Err Unsupported.

(** No Rust allocation is larger than [isize::MAX] bytes. *)
Definition alloc_ok (bs : bytes) : Prop := blen bs <= int_max isize.

(** The contract documented on [KeyEncoding] and [Key]. *)
Class KeyRoundTrip (k : key_ty) : Prop := {
  key_bytes_ok x bs : k_wf k x -> as_ord_bytes k x = Ok bs -> bytes_ok bs;
  key_roundtrip x bs src :
    k_wf k x -> as_ord_bytes k x = Ok bs -> alloc_ok bs -> as_ref src = bs ->
    from_ord_bytes k src = Ok x
}.

Class KeyFixedLength (k : key_ty) : Prop :=
  key_fixed_length n x bs :
    LENGTH k = Some n -> k_wf k x -> as_ord_bytes k x = Ok bs -> blen bs = n.

Class KeyOrdered (k : key_ty) : Prop :=
  key_ordered x y bx by' :
    k_wf k x -> k_wf k y ->
    as_ord_bytes k x = Ok bx -> as_ord_bytes k y = Ok by' ->
    bytes_cmp bx by' = k_cmp k x y.

Class KeySequence (k : key_ty) : Prop :=
  key_next_greater x y :
    k_wf k x -> next_value k x = Ok y -> k_wf k y /\ k_cmp k x y = Lt.

(** ** Byte containers: [Cow<[u8]>], [Vec<u8>], [ArcBytes], [CowBytes], [Bytes] *)

Definition key_cow_bytes : key_ty := {|
  k_type := bytes; k_wf := bytes_ok; k_cmp := bytes_cmp;
  LENGTH := None; describe := [visit_type KBytes];
  as_ord_bytes := Ok;
  CAN_OWN_BYTES := true;
  from_ord_bytes src := Ok (cow_bytes (into_borrowed src));
  first_value := default_first_value; next_value := default_next_value |}.

Definition key_vec : key_ty := {|
  k_type := bytes; k_wf := bytes_ok; k_cmp := bytes_cmp;
  LENGTH := None; describe := [visit_type KBytes];
  as_ord_bytes := Ok;
  CAN_OWN_BYTES := true;
  from_ord_bytes src := Ok (into_owned src);
  first_value := default_first_value; next_value := default_next_value |}.

(** [[u8; N]]. *)
Definition key_array (n : nat) : key_ty := {|
  k_type := bytes; k_wf bs := bytes_ok bs /\ List.length bs = n; k_cmp := bytes_cmp;
  LENGTH := Some (Z.of_nat n); describe := [visit_type KBytes];
  as_ord_bytes := Ok;
  CAN_OWN_BYTES := false;
  from_ord_bytes src :=
    if bool_decide (List.length (as_ref src) = n) then Ok (as_ref src)
    else Err IncorrectByteLength;
  first_value := default_first_value; next_value := default_next_value |}.

(** ** Strings *)

Definition from_utf8_res (bs : bytes) : res KeyError (list Z) :=
  ok_or Utf8Error (from_utf8 bs).

Definition key_string : key_ty := {|
  k_type := list Z; k_wf s := is_str s = true;
  k_cmp s t := bytes_cmp (as_bytes s) (as_bytes t);
  LENGTH := None; describe := [visit_type KString];
  as_ord_bytes s := Ok (as_bytes s);
  CAN_OWN_BYTES := true;
  from_ord_bytes src := from_utf8_res (into_owned src);
  first_value := default_first_value; next_value := default_next_value |}.

Definition key_cow_str : key_ty := {|
  k_type := list Z; k_wf s := is_str s = true;
  k_cmp s t := bytes_cmp (as_bytes s) (as_bytes t);
  LENGTH := None; describe := [visit_type KString];
  as_ord_bytes s := Ok (as_bytes s);
  CAN_OWN_BYTES := true;
  from_ord_bytes src :=
    match into_borrowed src with
    | CowBorrowed bs => from_utf8_res bs
    | CowOwned bs => from_utf8_res bs
    end;
  first_value := default_first_value; next_value := default_next_value |}.

(** ** [()] and [bool] *)

Definition key_unit : key_ty := {|
  k_type := unit; k_wf _ := True; k_cmp _ _ := Eq;
  LENGTH := Some 0; describe := [visit_type KUnit];
  as_ord_bytes _ := Ok [];
  CAN_OWN_BYTES := false;
  from_ord_bytes _ := Ok tt;
  first_value := default_first_value; next_value := default_next_value |}.

Definition bool_cmp (a b : bool) : comparison :=
  match a, b with
  | false, true => Lt | true, false => Gt | _, _ => Eq
  end.

Definition key_bool : key_ty := {|
  k_type := bool; k_wf _ := True; k_cmp := bool_cmp;
  LENGTH := Some 1; describe := [visit_type KBool];
  as_ord_bytes b := Ok (if b then [1] else [0]);
  CAN_OWN_BYTES := false;
  from_ord_bytes src :=
    match as_ref src with
    | [] => Ok false
    | b :: _ => if b =? 0 then Ok false else Ok true
    end;
  first_value := default_first_value; next_value := default_next_value |}.

(** ** Integers: [impl_key_for_primitive!] and [impl_key_for_nonzero_primitive!] *)

(** [&[u8]] to [[u8; N]]: [TryFromSliceError] unless the length is exact. *)
Definition try_into_array (e : KeyError) (n : nat) (bs : bytes) : res KeyError bytes :=
  if bool_decide (List.length bs = n) then Ok bs else Err e.

Definition key_primitive (t : int_ty) (kind : KeyKind) : key_ty := {|
  k_type := Z; k_wf x := in_range t x = true; k_cmp := Z.compare;
  LENGTH := Some (Z.of_nat (int_bytes t)); describe := [visit_type kind];
  as_ord_bytes x := Ok (to_be_bytes t x);
  CAN_OWN_BYTES := false;
  from_ord_bytes src :=
    bs ← try_into_array IncorrectByteLength (int_bytes t) (as_ref src);
    Ok (from_be_bytes t bs);
  first_value := Ok 0;
  next_value x := ok_or WouldWrap (checked_add t x 1) |}.

Definition key_u8 := key_primitive u8 KU8.
Definition key_u16 := key_primitive u16 KU16.
Definition key_u32 := key_primitive u32 KU32.
Definition key_u64 := key_primitive u64 KU64.
Definition key_u128 := key_primitive u128 KU128.
Definition key_i8 := key_primitive i8 KI8.
Definition key_i16 := key_primitive i16 KI16.
Definition key_i32 := key_primitive i32 KI32.
Definition key_i64 := key_primitive i64 KI64.
Definition key_i128 := key_primitive i128 KI128.

(** [NonZero*::new]. *)
Definition nonzero_new (x : Z) : option Z := if x =? 0 then None else Some x.

Definition nonzero_first_value : res NextValueError Z := unwrap (nonzero_new 1).

Definition key_nonzero (t : int_ty) (kind : KeyKind) : key_ty := {|
  k_type := Z; k_wf x := in_range t x = true /\ x <> 0; k_cmp := Z.compare;
  LENGTH := Some (Z.of_nat (int_bytes t)); describe := [visit_type kind];
  as_ord_bytes x := Ok (to_be_bytes t x);
  CAN_OWN_BYTES := false;
  from_ord_bytes src :=
    bs ← try_into_array NonZeroIncorrectByteLength (int_bytes t) (as_ref src);
    ok_or NonZeroValueIsZero (nonzero_new (from_be_bytes t bs));
  first_value := nonzero_first_value;
  next_value x :=
    y ← ok_or WouldWrap (checked_add t x 1);
    match nonzero_new y with Some z => Ok z | None => nonzero_first_value end |}.

(** ** [Option<T>] and [Result<T, E>] *)

Definition decode_skipping_first_byte (k : key_ty) (src : ByteSource)
  : res KeyError (k_type k) :=
  match src with
  | Borrowed bs => r ← slice bs 1 (blen bs); from_ord_bytes k (Borrowed r)
  | Ephemeral bs => r ← slice bs 1 (blen bs); from_ord_bytes k (Ephemeral r)
  | Owned bs =>
      if CAN_OWN_BYTES k then
        match bs with
        | [] => Panic
        | _ :: r => from_ord_bytes k (Owned r)
        end
      else r ← slice bs 1 (blen bs); from_ord_bytes k (Ephemeral r)
  end.

Definition option_cmp {A} (cmp : A -> A -> comparison) (x y : option A) : comparison :=
  match x, y with
  | None, None => Eq
  | None, Some _ => Lt
  | Some _, None => Gt
  | Some a, Some b => cmp a b
  end.

Definition key_option (k : key_ty) : key_ty := {|
  k_type := option (k_type k);
  k_wf x := match x with None => True | Some a => k_wf k a end;
  k_cmp := option_cmp (k_cmp k);
  LENGTH := match LENGTH k with Some n => Some (1 + n) | None => None end;
  describe := visit_composite KOption 1 :: describe k;
  as_ord_bytes x :=
    match x with
    | Some a => bs ← as_ord_bytes k a; Ok (1 :: bs)
    | None => Ok [0]
    end;
  CAN_OWN_BYTES := CAN_OWN_BYTES k;
  from_ord_bytes src :=
    match as_ref src with
    | [] => Ok None
    | b :: _ => if b =? 0 then Ok None else Some <$> decode_skipping_first_byte k src
    end;
  first_value := Some <$> first_value k;
  next_value x :=
    match x with Some a => Some <$> next_value k a | None => Ok None end |}.

Definition RESULT_OK : Z := 0.
Definition RESULT_ERR : Z := 1.

Definition result_cmp {A B} (ca : A -> A -> comparison) (cb : B -> B -> comparison)
    (x y : A + B) : comparison :=
  match x, y with
  | inl a, inl b => ca a b
  | inl _, inr _ => Lt
  | inr _, inl _ => Gt
  | inr a, inr b => cb a b
  end.

(** [Result<T, E>]: [inl] is [Ok], [inr] is [Err]. *)
Definition key_result (k e : key_ty) : key_ty := {|
  k_type := (k_type k + k_type e)%type;
  k_wf x := match x with inl a => k_wf k a | inr b => k_wf e b end;
  k_cmp := result_cmp (k_cmp k) (k_cmp e);
  LENGTH := None;
  describe := visit_composite KResult 2 :: describe k ++ describe e;
  as_ord_bytes x :=
    '(header, contents) ←
      match x with
      | inl a => bs ← as_ord_bytes k a; Ok (RESULT_OK, bs)
      | inr b => bs ← as_ord_bytes e b; Ok (RESULT_ERR, bs)
      end;
    Ok (header :: contents);
  CAN_OWN_BYTES := CAN_OWN_BYTES k || CAN_OWN_BYTES e;
  from_ord_bytes src :=
    match as_ref src with
    | b :: _ =>
        if b =? RESULT_OK then inl <$> decode_skipping_first_byte k src
        else inr <$> decode_skipping_first_byte e src
    | [] => inr <$> from_ord_bytes e src
    end;
  first_value := inl <$> first_value k;
  next_value x :=
    match x with
    | inl a => inl <$> next_value k a
    | inr b => inr <$> next_value e b
    end |}.

(** ** [OptionKeyV1<T>]: the encoding [Option<T>] had before *)

Definition key_option_v1 (k : key_ty) : key_ty := {|
  k_type := option (k_type k);
  k_wf x := match x with None => True | Some a => k_wf k a end;
  k_cmp := option_cmp (k_cmp k);
  LENGTH := LENGTH k;
  describe := visit_composite KOption 1 :: describe k;
  as_ord_bytes x :=
    match x with
    | Some a =>
        bs ← as_ord_bytes k a;
        match bs with [] => Panic | _ :: _ => Ok bs end
    | None => Ok []
    end;
  CAN_OWN_BYTES := false;
  from_ord_bytes src :=
    match as_ref src with
    | [] => Ok None
    | _ :: _ => a ← from_ord_bytes k src; Ok (Some a)
    end;
  first_value := a ← first_value k; Ok (Some a);
  next_value x :=
    match x with Some a => Some <$> next_value k a | None => Ok None end |}.
