(* ===== verification/KeyLaws.v ===== *)
(** * The built-in keys satisfy the [Key] contract

    An instance of [KeyRoundTrip], [KeyFixedLength], [KeyOrdered] and
    [KeySequence] for each implementation of [Key.v] that has the property, and
    the two places where an implementation does not: signed integers are not
    byte-ordered, and [Option] of a fixed-width key is not fixed-width. *)

From Stdlib Require Import ZArith Lia.
From stdpp Require Import base list option numbers gmap strings.
From S2P Require Import Prelude Bytes Utf8 Key.

Local Open Scope Z_scope.

Create HintDb key_laws.

(** ** Byte containers, strings, unit, bool *)

#[export] Instance key_cow_bytes_roundtrip : KeyRoundTrip key_cow_bytes.
Proof.
  split; simpl; intros; inv_res; [done|]. rewrite into_borrowed_as_ref. congruence.
Qed.

#[export] Instance key_vec_roundtrip : KeyRoundTrip key_vec.
Proof. split; simpl; intros; inv_res; [done|]. rewrite into_owned_as_ref. congruence. Qed.

#[export] Instance key_vec_ordered : KeyOrdered key_vec.
Proof. intros x y bx b_y; simpl; intros; by inv_res. Qed.

#[export] Instance key_cow_bytes_ordered : KeyOrdered key_cow_bytes.
Proof. intros x y bx b_y; simpl; intros; by inv_res. Qed.

#[export] Instance key_array_roundtrip n : KeyRoundTrip (key_array n).
Proof.
  split; simpl; intros x bs.
  - intros [??] ?. by inv_res.
  - intros src [? Hl] ? _ Hs. inv_res. by rewrite Hs, bool_decide_true.
Qed.

#[export] Instance key_array_fixed n : KeyFixedLength (key_array n).
Proof. intros m x bs; simpl. intros [= <-] [_ Hl] ?. inv_res. unfold blen. by rewrite Hl. Qed.

#[export] Instance key_array_ordered n : KeyOrdered (key_array n).
Proof. intros x y bx b_y; simpl; intros; by inv_res. Qed.

Lemma from_utf8_res_as_bytes s :
  is_str s = true -> from_utf8_res (as_bytes s) = Ok s.
Proof. intros. unfold from_utf8_res. by rewrite from_utf8_as_bytes. Qed.

#[export] Instance key_string_roundtrip : KeyRoundTrip key_string.
Proof.
  split; simpl; intros; inv_res; [by apply as_bytes_ok|].
  rewrite into_owned_as_ref, H2. by apply from_utf8_res_as_bytes.
Qed.

#[export] Instance key_string_ordered : KeyOrdered key_string.
Proof. intros x y bx b_y; simpl; intros; by inv_res. Qed.

#[export] Instance key_cow_str_roundtrip : KeyRoundTrip key_cow_str.
Proof.
  split; simpl; intros; inv_res; [by apply as_bytes_ok|].
  destruct src; simpl in *; subst; by apply from_utf8_res_as_bytes.
Qed.

#[export] Instance key_unit_roundtrip : KeyRoundTrip key_unit.
Proof. split; simpl; intros; inv_res; [constructor|by destruct x]. Qed.

#[export] Instance key_unit_fixed : KeyFixedLength key_unit.
Proof. intros m x bs; simpl. intros [= <-] _ ?. by inv_res. Qed.

#[export] Instance key_unit_ordered : KeyOrdered key_unit.
Proof. intros x y bx b_y; simpl; intros; by inv_res. Qed.

#[export] Instance key_bool_roundtrip : KeyRoundTrip key_bool.
Proof.
  split; simpl; intros; inv_res.
  - destruct x; repeat constructor; lia.
  - rewrite H2. by destruct x.
Qed.

#[export] Instance key_bool_fixed : KeyFixedLength key_bool.
Proof. intros m x bs; simpl. intros [= <-] _ ?. inv_res. by destruct x. Qed.

#[export] Instance key_bool_ordered : KeyOrdered key_bool.
Proof. intros x y bx b_y; simpl; intros; inv_res. by destruct x, y. Qed.

(** ** Integers *)

Lemma try_into_array_ok e n bs : length bs = n -> try_into_array e n bs = Ok bs.
Proof. intros. unfold try_into_array. by rewrite bool_decide_true. Qed.

Lemma key_primitive_decode t kind src x :
  byte_multiple t -> in_range t x = true -> as_ref src = to_be_bytes t x ->
  from_ord_bytes (key_primitive t kind) src = Ok x.
Proof.
  intros Ht Hr Hs. simpl. rewrite Hs.
  rewrite try_into_array_ok by apply to_be_bytes_length. simpl.
  by rewrite from_to_be_bytes.
Qed.

Lemma key_primitive_roundtrip t kind :
  byte_multiple t -> KeyRoundTrip (key_primitive t kind).
Proof.
  intros Ht. split; cbn [k_wf as_ord_bytes key_primitive]; intros; inv_res.
  - apply to_be_ok.
  - by apply key_primitive_decode.
Qed.

#[export] Instance key_primitive_fixed t kind : KeyFixedLength (key_primitive t kind).
Proof.
  intros m x bs; simpl. intros [= <-] _ ?. inv_res.
  unfold blen. by rewrite to_be_bytes_length.
Qed.

(** Big-endian encoding orders the unsigned integer types. *)
Lemma key_primitive_ordered t kind :
  byte_multiple t -> int_signed t = false -> KeyOrdered (key_primitive t kind).
Proof. intros Ht Hs x y bx b_y; simpl; intros; inv_res. by apply to_be_bytes_cmp. Qed.

#[export] Instance key_primitive_sequence t kind : KeySequence (key_primitive t kind).
Proof.
  intros x y; simpl. unfold checked_add. intros Hx H.
  destruct (in_range t (x + 1)) eqn:E; simpl in H; inv_res.
  split; [done|]. apply Z.compare_lt_iff. lia.
Qed.

Lemma byte_multiple_u8 : byte_multiple u8. Proof. by split. Qed.
Lemma byte_multiple_u16 : byte_multiple u16. Proof. by split. Qed.
Lemma byte_multiple_u32 : byte_multiple u32. Proof. by split. Qed.
Lemma byte_multiple_u64 : byte_multiple u64. Proof. by split. Qed.
Lemma byte_multiple_u128 : byte_multiple u128. Proof. by split. Qed.
Lemma byte_multiple_i8 : byte_multiple i8. Proof. by split. Qed.
Lemma byte_multiple_i16 : byte_multiple i16. Proof. by split. Qed.
Lemma byte_multiple_i32 : byte_multiple i32. Proof. by split. Qed.
Lemma byte_multiple_i64 : byte_multiple i64. Proof. by split. Qed.
Lemma byte_multiple_i128 : byte_multiple i128. Proof. by split. Qed.
#[export] Hint Resolve byte_multiple_u8 byte_multiple_u16 byte_multiple_u32
  byte_multiple_u64 byte_multiple_u128 byte_multiple_i8 byte_multiple_i16
  byte_multiple_i32 byte_multiple_i64 byte_multiple_i128 : key_laws.

#[export] Instance key_u8_roundtrip : KeyRoundTrip key_u8.
Proof. apply key_primitive_roundtrip; auto with key_laws. Qed.
#[export] Instance key_u8_fixed : KeyFixedLength key_u8.
Proof. apply key_primitive_fixed. Qed.
#[export] Instance key_u16_roundtrip : KeyRoundTrip key_u16.
Proof. apply key_primitive_roundtrip; auto with key_laws. Qed.
#[export] Instance key_u16_fixed : KeyFixedLength key_u16.
Proof. apply key_primitive_fixed. Qed.
#[export] Instance key_u32_roundtrip : KeyRoundTrip key_u32.
Proof. apply key_primitive_roundtrip; auto with key_laws. Qed.
#[export] Instance key_u32_fixed : KeyFixedLength key_u32.
Proof. apply key_primitive_fixed. Qed.
#[export] Instance key_u64_roundtrip : KeyRoundTrip key_u64.
Proof. apply key_primitive_roundtrip; auto with key_laws. Qed.
#[export] Instance key_u64_fixed : KeyFixedLength key_u64.
Proof. apply key_primitive_fixed. Qed.
#[export] Instance key_u128_roundtrip : KeyRoundTrip key_u128.
Proof. apply key_primitive_roundtrip; auto with key_laws. Qed.
#[export] Instance key_u128_fixed : KeyFixedLength key_u128.
Proof. apply key_primitive_fixed. Qed.
#[export] Instance key_i8_roundtrip : KeyRoundTrip key_i8.
Proof. apply key_primitive_roundtrip; auto with key_laws. Qed.
#[export] Instance key_i8_fixed : KeyFixedLength key_i8.
Proof. apply key_primitive_fixed. Qed.
#[export] Instance key_i16_roundtrip : KeyRoundTrip key_i16.
Proof. apply key_primitive_roundtrip; auto with key_laws. Qed.
#[export] Instance key_i16_fixed : KeyFixedLength key_i16.
Proof. apply key_primitive_fixed. Qed.
#[export] Instance key_i32_roundtrip : KeyRoundTrip key_i32.
Proof. apply key_primitive_roundtrip; auto with key_laws. Qed.
#[export] Instance key_i32_fixed : KeyFixedLength key_i32.
Proof. apply key_primitive_fixed. Qed.
#[export] Instance key_i64_roundtrip : KeyRoundTrip key_i64.
Proof. apply key_primitive_roundtrip; auto with key_laws. Qed.
#[export] Instance key_i64_fixed : KeyFixedLength key_i64.
Proof. apply key_primitive_fixed. Qed.
#[export] Instance key_i128_roundtrip : KeyRoundTrip key_i128.
Proof. apply key_primitive_roundtrip; auto with key_laws. Qed.
#[export] Instance key_i128_fixed : KeyFixedLength key_i128.
Proof. apply key_primitive_fixed. Qed.
#[export] Instance key_u8_ordered : KeyOrdered key_u8.
Proof. apply key_primitive_ordered; auto with key_laws. Qed.
#[export] Instance key_u16_ordered : KeyOrdered key_u16.
Proof. apply key_primitive_ordered; auto with key_laws. Qed.
#[export] Instance key_u32_ordered : KeyOrdered key_u32.
Proof. apply key_primitive_ordered; auto with key_laws. Qed.
#[export] Instance key_u64_ordered : KeyOrdered key_u64.
Proof. apply key_primitive_ordered; auto with key_laws. Qed.
#[export] Instance key_u128_ordered : KeyOrdered key_u128.
Proof. apply key_primitive_ordered; auto with key_laws. Qed.

Lemma nonzero_new_Some x y : nonzero_new x = Some y <-> x = y /\ x <> 0.
Proof.
  unfold nonzero_new. destruct (Z.eqb_spec x 0); split; intros; destruct_and?;
    simplify_eq; try done.
Qed.

Lemma nonzero_new_id x : x <> 0 -> nonzero_new x = Some x.
Proof. intros. by apply nonzero_new_Some. Qed.

Lemma key_nonzero_roundtrip t kind : byte_multiple t -> KeyRoundTrip (key_nonzero t kind).
Proof.
  intros Ht. split; simpl; intros; inv_res; [apply to_be_ok|].
  rewrite H2, try_into_array_ok by apply to_be_bytes_length. simpl.
  destruct H. by rewrite from_to_be_bytes, nonzero_new_id.
Qed.

#[export] Instance key_nonzero_fixed t kind : KeyFixedLength (key_nonzero t kind).
Proof.
  intros m x bs; simpl. intros [= <-] _ ?. inv_res.
  unfold blen. by rewrite to_be_bytes_length.
Qed.

Lemma key_nonzero_ordered t kind :
  byte_multiple t -> int_signed t = false -> KeyOrdered (key_nonzero t kind).
Proof.
  intros Ht Hs x y bx b_y; simpl; intros; inv_res. apply to_be_bytes_cmp; tauto.
Qed.

(** Going past [-1] skips zero. *)
Lemma key_nonzero_sequence t kind :
  1 <= int_max t -> KeySequence (key_nonzero t kind).
Proof.
  intros Hmax x y; simpl. unfold checked_add. intros [Hx Hz] H.
  destruct (in_range t (x + 1)) eqn:E; simpl in H; [|done].
  unfold nonzero_first_value in H.
  destruct (nonzero_new (x + 1)) eqn:N; inv_res.
  - apply nonzero_new_Some in N as [<- ?].
    split; [done|]. apply Z.compare_lt_iff. lia.
  - unfold nonzero_new in N. destruct (Z.eqb_spec (x + 1) 0); [|done].
    apply nonzero_new_Some in H as [<- ?].
    split; [|apply Z.compare_lt_iff; lia]. split; [|lia].
    apply in_range_spec in Hx. apply in_range_spec. lia.
Qed.

(** ** [Option] and [Result] *)

Lemma slice_tail {E} b r : @slice E (b :: r) 1 (blen (b :: r)) = Ok r.
Proof.
  pose proof (@slice_app E [b] r []) as H. rewrite app_nil_r in H.
  change (b :: r) with ([b] ++ r). rewrite blen_app. exact H.
Qed.

Lemma alloc_ok_tail b bs : alloc_ok (b :: bs) -> alloc_ok bs.
Proof. unfold alloc_ok, blen. simpl length. lia. Qed.

Lemma decode_skipping_first_byte_ok k `{KeyRoundTrip k} b bs x src :
  k_wf k x -> as_ord_bytes k x = Ok bs -> alloc_ok (b :: bs) ->
  as_ref src = b :: bs ->
  decode_skipping_first_byte k src = Ok x.
Proof.
  intros Hw Hb Ha%alloc_ok_tail Hs. destruct src as [l|l|l]; simpl in Hs; subst; cbn -[slice].
  - rewrite slice_tail. by eapply key_roundtrip.
  - rewrite slice_tail. by eapply key_roundtrip.
  - destruct (CAN_OWN_BYTES k); [by eapply key_roundtrip|].
    rewrite slice_tail. by eapply key_roundtrip.
Qed.

#[export] Instance key_option_roundtrip k `{KeyRoundTrip k} : KeyRoundTrip (key_option k).
Proof.
  split; cbn [k_wf as_ord_bytes from_ord_bytes key_option]; intros [a|] bs; intros.
  - inv_res. constructor; [unfold byte_ok; lia|by eapply key_bytes_ok].
  - inv_res. repeat constructor; lia.
  - intros. inv_res. rewrite H3. cbn [Z.eqb].
    by erewrite decode_skipping_first_byte_ok.
  - intros. inv_res. by rewrite H3.
Qed.

(** Only an [Option] of a variable-width key has the [LENGTH] it declares. *)
#[export] Instance key_option_variable_length k :
  TCEq (LENGTH k) None -> KeyFixedLength (key_option k).
Proof. intros Hk%TCEq_eq n x bs; simpl. by rewrite Hk. Qed.

#[export] Instance key_option_ordered k `{KeyOrdered k} : KeyOrdered (key_option k).
Proof.
  intros [a|] [b|] bx b_y; simpl; intros; inv_res; try done.
  cbn. by eapply key_ordered.
Qed.

#[export] Instance key_result_roundtrip k e `{KeyRoundTrip k, KeyRoundTrip e} :
  KeyRoundTrip (key_result k e).
Proof.
  split; cbn [k_wf as_ord_bytes from_ord_bytes key_result]; intros [a|b] bs; intros; inv_res.
  - constructor; [done|by eapply (key_bytes_ok (k:=k))].
  - constructor; [done|by eapply (key_bytes_ok (k:=e))].
  - rewrite H4. cbn [Z.eqb RESULT_OK].
    by erewrite decode_skipping_first_byte_ok.
  - rewrite H4. cbn [Z.eqb RESULT_OK RESULT_ERR].
    by erewrite decode_skipping_first_byte_ok.
Qed.

#[export] Instance key_result_variable_length k e : KeyFixedLength (key_result k e).
Proof. by intros n x bs. Qed.

#[export] Instance key_result_ordered k e `{KeyOrdered k, KeyOrdered e} :
  KeyOrdered (key_result k e).
Proof.
  intros x y bx b_y Hx Hy Bx By. simpl in *. inv_res.
  destruct x, y; simpl in *; inv_res; simpl; try done;
    first [by eapply (key_ordered (k:=k)) | by eapply (key_ordered (k:=e))].
Qed.

(** ** Descriptions *)

Lemma describer_run_app {E} vs ws d :
  describer_run (E:=E) (vs ++ ws) d = (d ← describer_run vs d; describer_run ws d).
Proof.
  revert d. induction vs as [|v vs IH]; intros d; [done|]. cbn [app describer_run].
  destruct (describer_visit v d) as [d'|e|]; cbn [mbind res_bind]; [apply IH|done..].
Qed.

(** Visits that record one description, wherever they are made. *)
Definition records (vs : list visit) (description : KeyDescription) : Prop :=
  forall E d, describer_run (E:=E) vs d = record_description description (kd_stack d) (kd_result d).
Class Described (k : key_ty) (description : KeyDescription) : Prop := described : records (describe k) description.

Lemma described_key {E} k description : Described k description -> for_encoding (E:=E) k = Ok description.
Proof. intros Hk. unfold for_encoding. by rewrite Hk. Qed.

Lemma records_type kind : records [visit_type kind] (Basic kind).
Proof. intros E d. cbn [describer_run describer_visit]. by destruct (record_description _ _ _). Qed.

(** Fields fill the composite that was opened last, which is then recorded. *)
Lemma push_field_short d c :
  (List.length (oc_fields c) < oc_capacity c)%nat ->
  push_field d c = MkOpenComposite (oc_kind c) (oc_fields c ++ [d]) (oc_attributes c) (oc_capacity c).
Proof. intros Hc. unfold push_field. by rewrite decide_False by lia. Qed.

Lemma records_fields {E} vss ds c stack result :
  Forall2 records vss ds -> vss <> [] -> (List.length (oc_fields c) + List.length vss = oc_capacity c)%nat ->
  describer_run (E:=E) (concat vss) (MkKeyDescriber (c :: stack) result) =
  record_description (Composite (MkCompositeKeyDescription (oc_kind c) (oc_fields c ++ ds) (oc_attributes c))) stack result.
Proof.
  intros Hvs. revert c. induction Hvs as [|vs d vss ds Hv Hvs IH]; intros c Hne Hlen; [done|].
  cbn [concat]. rewrite describer_run_app, Hv. cbn [kd_stack kd_result record_description List.length] in *.
  rewrite push_field_short by lia. cbn [oc_kind oc_fields oc_attributes oc_capacity]. rewrite List.length_app. cbn [List.length].
  destruct Hvs as [|v' d' vss ds Hv' Hvs].
  - rewrite decide_True by (cbn [List.length] in Hlen; lia).
    match goal with |- (_ ← ?m; _) = _ => by destruct m end.
  - rewrite decide_False by (cbn [List.length] in Hlen; lia). cbn [mbind res_bind].
    rewrite IH; [|done|cbn [oc_fields oc_capacity]; rewrite List.length_app; cbn [List.length] in *; lia].
    cbn [oc_kind oc_fields oc_attributes]. by rewrite <- app_assoc.
Qed.

(** A composite of at least one field, with its attributes reported first. *)
Lemma records_composite kind attributes vss ds :
  vss <> [] -> Forall2 records vss ds ->
  records (visit_composite kind (List.length vss) :: ((fun a => visit_composite_attribute a.1 a.2) <$> attributes) ++ concat vss)
    (Composite (MkCompositeKeyDescription kind ds (foldl (fun m a => <[a.1 := a.2]> m) ∅ attributes))).
Proof.
  intros Hne Hvs E d. cbn [describer_run describer_visit mbind res_bind].
  generalize (∅ : gmap string KeyAttibuteValue) as m. induction attributes as [|a attributes IH]; intros m.
  - cbn [fmap list_fmap app foldl]. rewrite (records_fields vss ds); [done..|]. cbn [oc_fields oc_capacity List.length]. lia.
  - cbn [fmap list_fmap app foldl describer_run describer_visit mbind res_bind kd_stack kd_result oc_kind oc_fields oc_attributes oc_capacity]. apply IH.
Qed.

Abbreviation composite_of kind ds := (Composite (MkCompositeKeyDescription kind ds ∅)).
Lemma records_plain kind vss ds :
  vss <> [] -> Forall2 records vss ds -> records (visit_composite kind (List.length vss) :: concat vss) (composite_of kind ds).
Proof. apply (records_composite kind []). Qed.

Lemma records_one kind vs d : records vs d -> records (visit_composite kind 1 :: vs) (composite_of kind [d]).
Proof. intros Hv. rewrite <- (app_nil_r vs). apply (records_plain kind [vs] [d]); [done|by repeat constructor]. Qed.
Lemma records_two kind vs ws d e : records vs d -> records ws e -> records (visit_composite kind 2 :: vs ++ ws) (composite_of kind [d; e]).
Proof. intros Hv Hw. rewrite <- (app_nil_r ws). apply (records_plain kind [vs; ws] [d; e]); [done|by repeat constructor]. Qed.

#[export] Instance key_option_described k d : Described k d -> Described (key_option k) (composite_of KOption [d]).
Proof. apply records_one. Qed.
#[export] Instance key_result_described k e d f :
  Described k d -> Described e f -> Described (key_result k e) (composite_of KResult [d; f]).
Proof. apply records_two. Qed.
#[export] Instance key_vec_described : Described key_vec (Basic KBytes).
Proof. apply records_type. Qed.
#[export] Instance key_string_described : Described key_string (Basic KString).
Proof. apply records_type. Qed.
#[export] Instance key_unit_described : Described key_unit (Basic KUnit).
Proof. apply records_type. Qed.
#[export] Instance key_bool_described : Described key_bool (Basic KBool).
Proof. apply records_type. Qed.
#[export] Instance key_primitive_described t kind : Described (key_primitive t kind) (Basic kind).
Proof. apply records_type. Qed.
