(* ===== verification/CompositeKey.v ===== *)
(** * Composite keys

    [CompositeKeyEncoder] and [CompositeKeyDecoder] of
    [bonsaidb-core/src/key.rs], the three ways of treating null bytes in
    variable-width fields, and the [Key] implementation of tuples on top of
    them.

    An encoding is the fields in order, each variable-width field followed by a
    null delimiter, and then the lengths of the variable-width fields from the
    last to the first, seven bits per byte. *)

From Stdlib Require Import ZArith Lia.
From stdpp Require Import base list option numbers.
From S2P Require Import Prelude Bytes Utf8 Key.

Local Open Scope Z_scope.

(** ** Null handling *)

Inductive NullHandling := EscapeNullBytes | AllowNullBytes | DenyNullBytes.

Fixpoint null_encode (bs : bytes) : bytes :=
  match bs with
  | [] => []
  | b :: r => if b =? 0 then 0 :: 0 :: null_encode r else b :: null_encode r
  end.

(** [bytecount::count(bytes, 0)]. *)
Definition count_nulls (bs : bytes) : nat := length (filter (fun b => b = 0) bs).

Definition handle_nulls (nh : NullHandling) (encoded : bytes) : res KeyError bytes :=
  match nh with
  | DenyNullBytes =>
      if existsb (fun b => b =? 0) encoded
      then Err (CompositeKeyError (IoErrorWith InvalidData CompositeKeyFieldContainsNullByte))
      else Ok encoded
  | AllowNullBytes => Ok encoded
  | EscapeNullBytes =>
      if (0 <? count_nulls encoded)%nat then Ok (null_encode encoded) else Ok encoded
  end.

(** [iter().enumerate().find_map(|(index, b)| (b == 0).then_some(index))]. *)
Fixpoint find_null (bs : bytes) : option nat :=
  match bs with
  | [] => None
  | b :: r => if b =? 0 then Some O else S <$> find_null r
  end.

(** The [loop] of [EscapeNullBytes::decode_nulls_if_needed]: [index] is the
    position of a null byte.  Each iteration removes one byte, so the number of
    bytes bounds the number of iterations. *)
Fixpoint unescape_loop (fuel : nat) (bs : bytes) (index : nat) : res KeyError bytes :=
  match fuel with
  | O => Panic
  | S fuel =>
      let next_index := S index in
      if bool_decide (bs !! next_index = Some 0) then
        let bs := delete index bs in
        match find_null (drop next_index bs) with
        | None => Ok bs
        | Some offset => unescape_loop fuel bs (next_index + offset)
        end
      else Panic (* todo!("error: unescaped null byte") *)
  end.

Definition decode_nulls_if_needed (nh : NullHandling) (encoded : ByteSource)
  : res KeyError ByteSource :=
  match nh with
  | DenyNullBytes => Ok encoded
  | AllowNullBytes => Ok encoded
  | EscapeNullBytes =>
      match find_null (as_ref encoded) with
      | None => Ok encoded
      | Some index =>
          let bs := into_owned encoded in
          bs' ← unescape_loop (length bs) bs index;
          Ok (Owned bs')
      end
  end.

(** ** The encoder *)

Record CompositeKeyEncoder := {
  enc_bytes : bytes;
  encoded_lengths : list Z;
  enc_null_handling : NullHandling
}.

(** [default()], [allowing_null_bytes()] and [denying_null_bytes()]. *)
Definition encoder_new (nh : NullHandling) : CompositeKeyEncoder :=
  {| enc_bytes := []; encoded_lengths := []; enc_null_handling := nh |}.

Definition is_none {A} (o : option A) : bool :=
  match o with None => true | Some _ => false end.

Definition encode (k : key_ty) (value : k_type k) (enc : CompositeKeyEncoder)
  : res KeyError CompositeKeyEncoder :=
  encoded ← map_err CompositeKeyError (as_ord_bytes k value);
  '(encoded, lengths) ←
    (if is_none (LENGTH k) then
       encoded ← handle_nulls (enc_null_handling enc) encoded;
       encoded_length ←
         ok_or (CompositeKeyError TryFromIntError) (try_from_int u16 (blen encoded));
       Ok (encoded, encoded_lengths enc ++ [encoded_length])
     else Ok (encoded, encoded_lengths enc));
  let buffer := enc_bytes enc ++ encoded in
  let buffer := if is_none (LENGTH k) then buffer ++ [0] else buffer in
  Ok {| enc_bytes := buffer; encoded_lengths := lengths;
        enc_null_handling := enc_null_handling enc |}.

(** The bytes [finish] pushes for one length. *)
Definition length_bytes (length : Z) : bytes :=
  if length <=? 0x7F then [length]
  else if length <=? 0x3FFF then
    [Z.shiftr length 7; Z.lor (Z.land length 0x7F) 0x80]
  else
    [Z.shiftr length 14; Z.lor (Z.land (Z.shiftr length 7) 0x7F) 0x80;
     Z.lor (Z.land length 0x7F) 0x80].

Definition encoder_finish (enc : CompositeKeyEncoder) : bytes :=
  fold_left (fun bs length => bs ++ length_bytes length)
    (rev (encoded_lengths enc)) (enc_bytes enc).

(** ** The decoder *)

Record CompositeKeyDecoder := {
  dec_bytes : ByteSource;
  dec_offset : Z;
  dec_end : Z;
  dec_null_handling : NullHandling
}.

(** [default_for], [allowing_null_bytes] and [denying_null_bytes]. *)
Definition decoder_new (nh : NullHandling) (src : ByteSource) : CompositeKeyDecoder :=
  {| dec_bytes := src; dec_offset := 0; dec_end := blen (as_ref src);
     dec_null_handling := nh |}.

Definition set_end (dec : CompositeKeyDecoder) (e : Z) : CompositeKeyDecoder :=
  {| dec_bytes := dec_bytes dec; dec_offset := dec_offset dec; dec_end := e;
     dec_null_handling := dec_null_handling dec |}.
Definition set_offset (dec : CompositeKeyDecoder) (o : Z) : CompositeKeyDecoder :=
  {| dec_bytes := dec_bytes dec; dec_offset := o; dec_end := dec_end dec;
     dec_null_handling := dec_null_handling dec |}.

Section Decoder.
Context `{Profile}.

(** The [for (index, byte) in iterator] loop of [decode] over the bytes from
    the tail: the length read and the index it ended at, if it ended. *)
Fixpoint length_loop (rev_bytes : bytes) (index length : Z)
  : res KeyError (option (Z * Z)) :=
  match rev_bytes with
  | [] => Ok None
  | byte :: rest =>
      part ← op_shl usize (Z.land byte 0x7f) (index * 7);
      let length := Z.lor length part in
      if Z.land byte 0x80 =? 0 then Ok (Some (length, index))
      else length_loop rest (index + 1) length
  end.

Definition read_length (dec : CompositeKeyDecoder) : res KeyError (Z * Z) :=
  window ← slice (as_ref (dec_bytes dec)) (dec_offset dec) (dec_end dec);
  found ← length_loop (rev window) 0 0;
  match found with
  | Some (length, index) => Ok (length, dec_end dec - index - 1)
  | None => Err (CompositeKeyError (IoError UnexpectedEof))
  end.

(** The field's bytes, as the source they are borrowed from. *)
Definition slice_source (src : ByteSource) (a b : Z) : res KeyError ByteSource :=
  match src with
  | Borrowed bs => r ← slice bs a b; Ok (Borrowed r)
  | Ephemeral bs => r ← slice bs a b; Ok (Ephemeral r)
  | Owned bs => r ← slice bs a b; Ok (Ephemeral r)
  end.

(** [decode] after the length of the field is known: the value and the new
    offset. *)
Definition decode_body (k : key_ty) (length : Z) (dec : CompositeKeyDecoder)
  : res KeyError (k_type k * Z) :=
  end_ ← op_add usize (dec_offset dec) length;
  if end_ <=? dec_end dec then
    src ← slice_source (dec_bytes dec) (dec_offset dec) end_;
    src ← (if is_none (LENGTH k)
           then decode_nulls_if_needed (dec_null_handling dec) src else Ok src);
    decoded ← map_err CompositeKeyError (from_ord_bytes k src);
    offset ← (if is_none (LENGTH k) then op_add usize end_ 1 else Ok end_);
    Ok (decoded, offset)
  else Err (CompositeKeyError (IoError UnexpectedEof)).

Definition decode_field (k : key_ty) (length : Z) (dec : CompositeKeyDecoder)
  : CompositeKeyDecoder * res KeyError (k_type k) :=
  match decode_body k length dec with
  | Ok (decoded, offset) => (set_offset dec offset, Ok decoded)
  | Err e => (dec, Err e)
  | Panic => (dec, Panic)
  end.

(** [decode::<T>]: the decoder is also advanced past the length when the field
    turns out to be invalid. *)
Definition decode (k : key_ty) (dec : CompositeKeyDecoder)
  : CompositeKeyDecoder * res KeyError (k_type k) :=
  match LENGTH k with
  | Some length => decode_field k length dec
  | None =>
      match read_length dec with
      | Ok (length, end_) => decode_field k length (set_end dec end_)
      | Err e => (dec, Err e)
      | Panic => (dec, Panic)
      end
  end.

Definition decoder_finish (dec : CompositeKeyDecoder) : res KeyError unit :=
  if dec_offset dec =? dec_end dec then Ok tt
  else Err (CompositeKeyError (IoError InvalidData)).

(** ** Tuples: [impl_key_for_tuple!]

    A tuple type is the list of its members' [Key] implementations (the macro
    is instantiated for one to eight). *)

Fixpoint tuple_type (ks : list key_ty) : Type :=
  match ks with [] => unit | k :: r => (k_type k * tuple_type r)%type end.

Fixpoint tuple_wf (ks : list key_ty) : tuple_type ks -> Prop :=
  match ks with
  | [] => fun _ => True
  | k :: r => fun v => k_wf k (fst v) /\ tuple_wf r (snd v)
  end.

Fixpoint tuple_cmp (ks : list key_ty) : tuple_type ks -> tuple_type ks -> comparison :=
  match ks with
  | [] => fun _ _ => Eq
  | k :: r => fun v w => cmp_then (k_cmp k (fst v) (fst w)) (tuple_cmp r (snd v) (snd w))
  end.

Fixpoint tuple_length (ks : list key_ty) : option Z :=
  match ks with
  | [] => Some 0
  | k :: r =>
      match LENGTH k, tuple_length r with
      | Some a, Some b => Some (a + b)
      | _, _ => None
      end
  end.

Fixpoint encode_fields (ks : list key_ty)
  : tuple_type ks -> CompositeKeyEncoder -> res KeyError CompositeKeyEncoder :=
  match ks with
  | [] => fun _ enc => Ok enc
  | k :: r => fun v enc => enc ← encode k (fst v) enc; encode_fields r (snd v) enc
  end.

Fixpoint decode_fields (ks : list key_ty)
  : CompositeKeyDecoder -> res KeyError (tuple_type ks * CompositeKeyDecoder) :=
  match ks with
  | [] => fun dec => Ok (tt, dec)
  | k :: r => fun dec =>
      let (dec, result) := decode k dec in
      v ← result;
      '(w, dec) ← decode_fields r dec;
      Ok ((v, w), dec)
  end.

Definition composite_as_ord_bytes (nh : NullHandling) (ks : list key_ty)
    (v : tuple_type ks) : res KeyError bytes :=
  enc ← encode_fields ks v (encoder_new nh);
  Ok (encoder_finish enc).

Definition composite_from_ord_bytes (nh : NullHandling) (ks : list key_ty)
    (src : ByteSource) : res KeyError (tuple_type ks) :=
  '(v, dec) ← decode_fields ks (decoder_new nh src);
  _ ← decoder_finish dec;
  Ok v.

Definition key_tuple (ks : list key_ty) : key_ty := {|
  k_type := tuple_type ks; k_wf := tuple_wf ks; k_cmp := tuple_cmp ks;
  LENGTH := tuple_length ks;
  describe := visit_composite KTuple (length ks) :: concat (map describe ks);
  as_ord_bytes := composite_as_ord_bytes EscapeNullBytes ks;
  CAN_OWN_BYTES := false;
  from_ord_bytes := composite_from_ord_bytes EscapeNullBytes ks;
  first_value := default_first_value; next_value := default_next_value |}.

End Decoder.
