(* ===== verification/CompositeKeyLaws.v ===== *)
(** * Composite keys decode to what was encoded, in the order of the tuples

    The layout of an encoding, the lemmas about null escaping and the length
    trailer, and from them: decoding inverts encoding for every tuple whose
    members keep the [Key] contract; the byte order is the tuple order whenever
    null bytes cannot be confused with delimiters. *)

From Stdlib Require Import ZArith Lia.
From stdpp Require Import base list option numbers.
From S2P Require Import Prelude Bytes Utf8 Key KeyLaws CompositeKey.

Local Open Scope Z_scope.

(** ** Null escaping *)

(** What the unescaping loop computes: pairs of nulls become one null, a lone
    null is an error ([None], the source's [todo!]). *)
Fixpoint unescape (bs : bytes) : option bytes :=
  match bs with
  | [] => Some []
  | b :: r =>
      if b =? 0 then
        match r with
        | c :: r' => if c =? 0 then cons 0 <$> unescape r' else None
        | [] => None
        end
      else cons b <$> unescape r
  end.

Lemma unescape_null_encode bs : unescape (null_encode bs) = Some bs.
Proof.
  induction bs as [|b bs IH]; [done|]. cbn [null_encode].
  destruct (Z.eqb_spec b 0) as [->|Hb]; cbn [unescape].
  - cbn. by rewrite IH.
  - by rewrite (proj2 (Z.eqb_neq b 0)), IH.
Qed.

Lemma find_null_None bs : find_null bs = None -> unescape bs = Some bs.
Proof.
  induction bs as [|b bs IH]; [done|]. cbn [find_null unescape].
  destruct (Z.eqb_spec b 0); [done|]. intros H.
  rewrite IH; [done|]. by destruct (find_null bs).
Qed.

Lemma find_null_Some bs i :
  find_null bs = Some i ->
  exists a b, bs = a ++ 0 :: b /\ length a = i /\
    (forall x, unescape (a ++ x) = app a <$> unescape x).
Proof.
  revert i. induction bs as [|b bs IH]; [done|]. cbn [find_null]. intros i.
  destruct (Z.eqb_spec b 0) as [->|Hb].
  - intros [= <-]. exists [], bs. repeat split. intros x. simpl.
    by destruct (unescape x).
  - destruct (find_null bs) as [j|]; [|done]. intros [= <-].
    destruct (IH j eq_refl) as (a & c & -> & <- & Ha).
    exists (b :: a), c. repeat split. intros x. cbn [app unescape].
    rewrite (proj2 (Z.eqb_neq b 0)), Ha by done. by destruct (unescape x).
Qed.

Lemma delete_middle {A} (a : list A) x b : delete (length a) (a ++ x :: b) = a ++ b.
Proof. induction a; simpl; [done|]. f_equal. done. Qed.

Lemma unescape_loop_spec fuel pre r :
  (length r < fuel)%nat ->
  unescape_loop fuel (pre ++ 0 :: r) (length pre) =
  match unescape (0 :: r) with Some u => Ok (pre ++ u) | None => Panic end.
Proof.
  revert pre r. induction fuel as [|fuel IH]; intros pre r Hf; [lia|].
  cbn [unescape_loop].
  assert ((pre ++ 0 :: r) !! S (length pre) = r !! 0%nat) as ->.
  { rewrite lookup_app_r by lia.
    by replace (S (length pre) - length pre)%nat with 1%nat by lia. }
  destruct r as [|c r]; [done|]. cbn [unescape Z.eqb lookup list_lookup].
  destruct (Z.eqb_spec c 0) as [->|Hc];
    [rewrite bool_decide_true by done | rewrite bool_decide_false by congruence; done].
  rewrite delete_middle.
  replace (S (length pre)) with (length (pre ++ [0])) by (rewrite length_app; simpl; lia).
  replace (pre ++ 0 :: r) with ((pre ++ [0]) ++ r) by by rewrite <- app_assoc.
  rewrite drop_app_length.
  destruct (find_null r) as [i|] eqn:Hn.
  - apply find_null_Some in Hn as (a & b & -> & <- & Ha).
    rewrite app_assoc, <- length_app, IH by (simpl in Hf; rewrite length_app in Hf; simpl in Hf; lia).
    rewrite Ha. destruct (unescape (0 :: b)) as [u|]; [|done].
    simpl. by rewrite <- !app_assoc.
  - rewrite (find_null_None _ Hn). simpl. by rewrite <- app_assoc.
Qed.

(** The loop never runs out of iterations: it computes [unescape]. *)
Lemma decode_nulls_escape src :
  match unescape (as_ref src) with
  | Some u => exists src', decode_nulls_if_needed EscapeNullBytes src = Ok src' /\ as_ref src' = u
  | None => decode_nulls_if_needed EscapeNullBytes src = Panic
  end.
Proof.
  unfold decode_nulls_if_needed. destruct (find_null (as_ref src)) as [i|] eqn:Hn.
  - apply find_null_Some in Hn as (a & b & Hs & <- & Ha).
    replace (into_owned src) with (a ++ 0 :: b) by (by rewrite into_owned_as_ref).
    cbv zeta. rewrite unescape_loop_spec by (rewrite length_app; simpl; lia).
    rewrite Hs, Ha. destruct (unescape (0 :: b)) as [u|]; simpl; eauto.
  - rewrite (find_null_None _ Hn). eauto.
Qed.

Lemma null_encode_id bs : existsb (fun b => b =? 0) bs = false -> null_encode bs = bs.
Proof.
  induction bs as [|b bs IH]; [done|]. simpl.
  destruct (Z.eqb_spec b 0); [done|]. intros. f_equal; auto.
Qed.

Lemma count_nulls_zero bs :
  (0 <? count_nulls bs)%nat = existsb (fun b => b =? 0) bs.
Proof.
  unfold count_nulls. induction bs as [|b bs IH]; [done|].
  rewrite filter_cons. simpl. destruct (Z.eqb_spec b 0).
  - by rewrite decide_True.
  - by rewrite decide_False.
Qed.

Lemma handle_nulls_escape bs : handle_nulls EscapeNullBytes bs = Ok (null_encode bs).
Proof.
  unfold handle_nulls. rewrite count_nulls_zero.
  destruct (existsb _ bs) eqn:E; [done|]. by rewrite null_encode_id.
Qed.

Lemma null_encode_length bs : (length bs <= length (null_encode bs))%nat.
Proof. induction bs as [|b bs IH]; simpl; [lia|]. destruct (b =? 0); simpl; lia. Qed.

Lemma null_encode_ok bs : bytes_ok bs -> bytes_ok (null_encode bs).
Proof.
  induction 1 as [|b bs Hb Hbs IH]; simpl; [constructor|].
  destruct (b =? 0); [constructor; [done|]; constructor; [done|]|constructor]; auto.
Qed.

Lemma handle_nulls_decode nh raw c src :
  handle_nulls nh raw = Ok c -> as_ref src = c ->
  exists src', decode_nulls_if_needed nh src = Ok src' /\ as_ref src' = raw.
Proof.
  destruct nh; intros Hh Hs.
  - rewrite handle_nulls_escape in Hh. inv_res.
    pose proof (decode_nulls_escape src) as H.
    by rewrite Hs, unescape_null_encode in H.
  - simpl in *. inv_res. eauto.
  - simpl in *. destruct (existsb _ raw); inv_res. eauto.
Qed.

Lemma handle_nulls_length nh raw c : handle_nulls nh raw = Ok c -> blen raw <= blen c.
Proof.
  unfold blen. destruct nh; intros Hh.
  - rewrite handle_nulls_escape in Hh. inv_res. pose proof (null_encode_length raw). lia.
  - simpl in *. inv_res. lia.
  - simpl in *. destruct (existsb _ raw); inv_res. lia.
Qed.

Lemma handle_nulls_ok nh raw c : handle_nulls nh raw = Ok c -> bytes_ok raw -> bytes_ok c.
Proof.
  destruct nh; intros Hh Hr.
  - rewrite handle_nulls_escape in Hh. inv_res. by apply null_encode_ok.
  - simpl in *. by inv_res.
  - simpl in *. destruct (existsb _ raw); by inv_res.
Qed.

(** ** The length trailer *)

Lemma land_7f x : Z.land x 0x7F = x `mod` 128.
Proof. change 0x7F with (Z.ones 7). by rewrite Z.land_ones. Qed.

Lemma lor_80 x : 0 <= x < 128 -> Z.lor x 0x80 = x + 128.
Proof.
  intros. rewrite <- Z.add_lor_land.
  assert (Z.land x 0x80 = 0) as ->; [|lia].
  apply Z.bits_inj'. intros n Hn. rewrite Z.land_spec, Z.bits_0.
  change 0x80 with (2 ^ 7). rewrite Z.pow2_bits_eqb by lia.
  destruct (Z.eqb_spec 7 n) as [<-|]; [|by rewrite andb_false_r].
  rewrite andb_true_r. rewrite Z.testbit_false by lia.
  by rewrite Z.div_small by lia.
Qed.

Lemma lor_shiftl a b n : 0 <= n -> 0 <= a < 2 ^ n -> Z.lor a (Z.shiftl b n) = a + b * 2 ^ n.
Proof.
  intros Hn Ha. rewrite <- Z.shiftl_mul_pow2, <- Z.add_lor_land by lia.
  assert (Z.land a (Z.shiftl b n) = 0) as ->; [|lia].
  apply Z.bits_inj'. intros m Hm. rewrite Z.land_spec, Z.bits_0, Z.shiftl_spec by lia.
  destruct (Z.lt_ge_cases m n).
  - rewrite (Z.testbit_neg_r b) by lia. apply andb_false_r.
  - rewrite (proj2 (Z.testbit_false a m ltac:(lia))); [done|].
    rewrite Z.div_small; [done|]. split; [lia|].
    eapply Z.lt_le_trans; [apply Ha|]. apply Z.pow_le_mono_r; lia.
Qed.

Lemma land_80_clear x : 0 <= x < 128 -> (Z.land x 0x80 =? 0) = true.
Proof.
  intros. apply Z.eqb_eq. pose proof (Z.add_lor_land x 0x80) as E.
  rewrite lor_80 in E by lia. lia.
Qed.

Lemma land_80_set x : 0 <= x < 128 -> (Z.land (x + 128) 0x80 =? 0) = false.
Proof.
  intros. rewrite <- lor_80 by lia. apply Z.eqb_neq.
  rewrite Z.land_lor_distr_l.
  assert (Z.land x 0x80 = 0) as -> by by apply Z.eqb_eq, land_80_clear. done.
Qed.

Section Laws.
Context `{Profile}.

(** A single step of the length loop, for in-range shifts. *)
Lemma length_loop_cons b rest index acc :
  0 <= b < 256 -> 0 <= index <= 7 -> 0 <= acc < 2 ^ (index * 7) ->
  length_loop (b :: rest) index acc =
  let acc' := acc + (b `mod` 128) * 2 ^ (index * 7) in
  if Z.land b 0x80 =? 0 then Ok (Some (acc', index))
  else length_loop rest (index + 1) acc'.
Proof.
  intros Hb Hi Ha. cbn [length_loop]. unfold op_shl.
  rewrite (proj2 (Z.ltb_lt _ _)) by (simpl; lia).
  cbn [mbind res_bind]. rewrite land_7f.
  pose proof (Z.mod_pos_bound b 128 ltac:(lia)).
  assert (2 ^ (index * 7) <= 2 ^ 49) by (apply Z.pow_le_mono_r; lia).
  assert (0 < 2 ^ (index * 7)) by (apply pow2_pos; lia).
  rewrite wrap_id.
  - rewrite lor_shiftl by lia. reflexivity.
  - done.
  - apply in_range_spec. change (int_min usize) with 0.
    change (int_max usize) with (2 ^ 64 - 1).
    rewrite Z.shiftl_mul_pow2 by lia.
    change (2 ^ 49) with 562949953421312 in *.
    change (2 ^ 64) with 18446744073709551616. nia.
Qed.

Lemma length_loop_trailer l tail :
  0 <= l < 65536 ->
  length_loop (rev (length_bytes l) ++ tail) 0 0 = Ok (Some (l, blen (length_bytes l) - 1)).
Proof.
  intros Hl. unfold length_bytes.
  assert (Z.shiftr l 7 = l / 128) as -> by by rewrite Z.shiftr_div_pow2.
  assert (Z.shiftr l 14 = l / 16384) as -> by by rewrite Z.shiftr_div_pow2.
  rewrite !land_7f.
  assert (forall x, 0 <= x `mod` 128 < 128) as Hm by (intros; apply Z.mod_pos_bound; lia).
  destruct (Z.leb_spec l 0x7F); [|destruct (Z.leb_spec l 0x3FFF)];
    rewrite ?lor_80 by auto; cbn [rev app].
  - rewrite length_loop_cons by (simpl; lia).
    cbv zeta. rewrite land_80_clear by lia. do 3 f_equal. zdm.
  - rewrite length_loop_cons by (specialize (Hm l); simpl; lia).
    cbv zeta. rewrite land_80_set by auto.
    rewrite length_loop_cons by (simpl; zdm).
    cbv zeta. rewrite land_80_clear by zdm. do 3 f_equal. simpl. zdm.
  - rewrite length_loop_cons by (specialize (Hm l); simpl; lia).
    cbv zeta. rewrite land_80_set by auto.
    rewrite length_loop_cons by (specialize (Hm (l / 128)); simpl; zdm).
    cbv zeta. rewrite land_80_set by auto.
    rewrite length_loop_cons by (simpl; zdm).
    cbv zeta. rewrite land_80_clear by zdm. do 3 f_equal. simpl. zdm.
Qed.
(** ** The layout of an encoding *)

Definition terminator (k : key_ty) : bytes := if is_none (LENGTH k) then [0] else [].
Definition field_lengths (k : key_ty) (c : bytes) : list Z :=
  if is_none (LENGTH k) then [blen c] else [].

(** [c] is what [encode] appends for [v], before the delimiter. *)
Definition field_content (nh : NullHandling) (k : key_ty) (v : k_type k) (c : bytes) : Prop :=
  exists raw, as_ord_bytes k v = Ok raw /\
    if is_none (LENGTH k) then handle_nulls nh raw = Ok c /\ 0 <= blen c < 65536
    else c = raw.

Fixpoint layout (nh : NullHandling) (ks : list key_ty)
  : tuple_type ks -> bytes -> list Z -> Prop :=
  match ks with
  | [] => fun _ body lens => body = [] /\ lens = []
  | k :: r => fun v body lens => exists c body' lens',
      field_content nh k (fst v) c /\ layout nh r (snd v) body' lens' /\
      body = c ++ terminator k ++ body' /\ lens = field_lengths k c ++ lens'
  end.

Lemma try_from_u16 x y : try_from_int u16 x = Some y -> x = y /\ 0 <= x < 65536.
Proof.
  unfold try_from_int. destruct (in_range u16 x) eqn:E; [|done]. intros [= <-].
  apply in_range_spec in E. change (int_min u16) with 0 in E.
  change (int_max u16) with 65535 in E. lia.
Qed.

Lemma encode_content k v enc enc' :
  encode k v enc = Ok enc' ->
  exists c, field_content (enc_null_handling enc) k v c /\
    enc' = {| enc_bytes := enc_bytes enc ++ c ++ terminator k;
              encoded_lengths := encoded_lengths enc ++ field_lengths k c;
              enc_null_handling := enc_null_handling enc |}.
Proof.
  unfold encode, field_content, terminator, field_lengths. intros He. inv_res.
  destruct (is_none (LENGTH k)); inv_res.
  - match goal with Hf : try_from_int _ _ = Some _ |- _ =>
      apply try_from_u16 in Hf as [<- Hf] end.
    eexists. split; [|by rewrite app_assoc]. eauto.
  - eexists. split; [eauto|]. by rewrite !app_nil_r.
Qed.

Lemma encode_fields_layout nh ks v enc enc' :
  enc_null_handling enc = nh -> encode_fields ks v enc = Ok enc' ->
  exists body lens, layout nh ks v body lens /\
    enc' = {| enc_bytes := enc_bytes enc ++ body;
              encoded_lengths := encoded_lengths enc ++ lens;
              enc_null_handling := nh |}.
Proof.
  revert enc. induction ks as [|k ks IH]; intros enc Hn; simpl.
  - intros He. inv_res. exists [], []. repeat split.
    rewrite !app_nil_r. by destruct enc'; simpl in *; subst.
  - intros He. apply bind_Ok_inv in He as (enc1 & H1 & H2).
    apply encode_content in H1 as (c & Hc & ->).
    apply IH in H2 as (body & lens & Hl & ->); [|done].
    rewrite Hn in Hc. do 2 eexists. split; [by exists c, body, lens|].
    simpl. by rewrite !app_assoc.
Qed.

Definition trailer (lens : list Z) : bytes := concat (map length_bytes (rev lens)).

Lemma fold_left_trailer ls acc :
  fold_left (fun bs length => bs ++ length_bytes length) ls acc
  = acc ++ concat (map length_bytes ls).
Proof.
  revert acc. induction ls as [|l ls IH]; intros acc; simpl; [by rewrite app_nil_r|].
  by rewrite IH, app_assoc.
Qed.

Lemma composite_layout nh ks v bs :
  composite_as_ord_bytes nh ks v = Ok bs ->
  exists body lens, layout nh ks v body lens /\ bs = body ++ trailer lens.
Proof.
  unfold composite_as_ord_bytes. intros He. apply bind_Ok_inv in He as (enc & He & Hf).
  apply (encode_fields_layout nh) in He as (body & lens & Hl & ->); [|done]. inv_res.
  exists body, lens. split; [done|]. unfold encoder_finish. by rewrite fold_left_trailer.
Qed.

Lemma trailer_cons l lens : trailer (l :: lens) = trailer lens ++ length_bytes l.
Proof. unfold trailer. simpl. rewrite map_app, concat_app. simpl. by rewrite app_nil_r. Qed.

(** ** Decoding inverts encoding *)

(** What a member of a composite key must satisfy. *)
Class CompositeField (k : key_ty) : Prop := {
  cf_roundtrip :: KeyRoundTrip k;
  cf_fixed_length :: KeyFixedLength k
}.

Lemma read_length_layout pre body lens l post dec :
  0 <= l < 65536 ->
  as_ref (dec_bytes dec) = pre ++ (body ++ trailer (l :: lens)) ++ post ->
  dec_offset dec = blen pre -> dec_end dec = blen pre + blen (body ++ trailer (l :: lens)) ->
  read_length dec = Ok (l, blen pre + blen (body ++ trailer lens)).
Proof.
  intros Hl Hb Ho He. unfold read_length. rewrite Hb, Ho, He, slice_app.
  cbn [mbind res_bind]. rewrite trailer_cons, app_assoc, rev_app_distr.
  rewrite length_loop_trailer by done. cbn [mbind res_bind].
  do 2 f_equal. rewrite (blen_app (body ++ trailer lens)). lia.
Qed.

Lemma slice_source_app src pre mid post :
  as_ref src = pre ++ mid ++ post ->
  exists src', slice_source src (blen pre) (blen pre + blen mid) = Ok src' /\ as_ref src' = mid.
Proof.
  intros Hs. destruct src as [bs|bs|bs]; simpl in Hs; subst; simpl;
    rewrite slice_app; simpl; eauto.
Qed.

Lemma usize_range x : 0 <= x <= int_max isize + 1 -> in_range usize x = true.
Proof.
  intros. apply in_range_spec. change (int_min usize) with 0.
  change (int_max usize) with 18446744073709551615.
  change (int_max isize) with 9223372036854775807 in *. lia.
Qed.

Lemma decode_field_layout k `{CompositeField k} dec v c pre post :
  k_wf k v -> field_content (dec_null_handling dec) k v c ->
  as_ref (dec_bytes dec) = pre ++ c ++ terminator k ++ post ->
  alloc_ok (as_ref (dec_bytes dec)) ->
  dec_offset dec = blen pre -> blen pre + blen c <= dec_end dec ->
  decode_field k (blen c) dec =
    (set_offset dec (blen pre + blen (c ++ terminator k)), Ok v).
Proof.
  intros Hv (raw & Hraw & Hc) Hb Ha Ho He.
  pose proof (blen_nonneg pre). pose proof (blen_nonneg c). pose proof (blen_nonneg post).
  assert (blen pre + blen c + blen (terminator k) <= int_max isize) as Ht.
  { unfold alloc_ok in Ha. rewrite Hb, !blen_app in Ha. lia. }
  unfold decode_field, decode_body. rewrite Ho.
  pose proof (blen_nonneg (terminator k)).
  rewrite op_add_ok by (apply usize_range; lia). cbn [mbind res_bind].
  rewrite (proj2 (Z.leb_le _ _)) by lia.
  destruct (slice_source_app _ _ _ _ Hb) as (src & -> & Hsrc). cbn [mbind res_bind].
  unfold terminator in *. destruct (is_none (LENGTH k)).
  - destruct Hc as [Hc _].
    pose proof (handle_nulls_length _ _ _ Hc).
    destruct (handle_nulls_decode _ _ _ _ Hc Hsrc) as (src' & -> & Hsrc').
    cbn [mbind res_bind].
    rewrite (key_roundtrip v raw src') by (unfold alloc_ok; try done; lia).
    cbn [map_err mbind res_bind]. rewrite op_add_ok by (apply usize_range; lia).
    cbn [mbind res_bind]. rewrite blen_app. change (blen [0]) with 1. by rewrite Z.add_assoc.
  - subst raw. cbn [mbind res_bind].
    rewrite (key_roundtrip v c src) by (unfold alloc_ok; try done; lia).
    cbn [map_err mbind res_bind]. by rewrite app_nil_r.
Qed.

Lemma decode_layout k `{CompositeField k} dec v c pre body lens post :
  k_wf k v -> field_content (dec_null_handling dec) k v c ->
  as_ref (dec_bytes dec)
    = pre ++ ((c ++ terminator k ++ body) ++ trailer (field_lengths k c ++ lens)) ++ post ->
  alloc_ok (as_ref (dec_bytes dec)) ->
  dec_offset dec = blen pre ->
  dec_end dec = blen pre + blen ((c ++ terminator k ++ body) ++ trailer (field_lengths k c ++ lens)) ->
  exists dec', decode k dec = (dec', Ok v) /\
    dec_bytes dec' = dec_bytes dec /\ dec_null_handling dec' = dec_null_handling dec /\
    dec_offset dec' = blen (pre ++ c ++ terminator k) /\
    dec_end dec' = blen (pre ++ c ++ terminator k) + blen (body ++ trailer lens).
Proof.
  intros Hv Hc Hb Ha Ho He. unfold decode. unfold field_lengths in *.
  assert (as_ref (dec_bytes dec) = pre ++ c ++ terminator k ++
    (body ++ trailer ((if is_none (LENGTH k) then [blen c] else []) ++ lens) ++ post)) as Hb'.
  { rewrite Hb. by rewrite <- !app_assoc. }
  destruct (LENGTH k) as [n|] eqn:HL; simpl is_none in *; cbn [app] in *.
  - assert (blen c = n) as <-.
    { destruct Hc as (raw & Hraw & Hc). rewrite HL in Hc. simpl in Hc. subst raw.
      by eapply (key_fixed_length (k:=k)). }
    rewrite (decode_field_layout k dec v c pre _ Hv Hc Hb' Ha Ho); [|rewrite !blen_app in He; 
      pose proof (blen_nonneg (terminator k)); pose proof (blen_nonneg body);
      pose proof (blen_nonneg (trailer lens)); lia].
    eexists. split; [done|]. simpl. rewrite He, !blen_app. repeat split; lia.
  - pose proof Hc as (raw & _ & Hlen). rewrite HL in Hlen. destruct Hlen as [_ Hlen].
    rewrite (read_length_layout _ _ _ _ _ _ Hlen Hb Ho He).
    rewrite (decode_field_layout k (set_end dec _) v c pre _ Hv Hc Hb' Ha Ho);
      [|simpl; rewrite !blen_app; 
      pose proof (blen_nonneg (terminator k)); pose proof (blen_nonneg body);
      pose proof (blen_nonneg (trailer lens)); lia].
    eexists. split; [done|]. simpl. rewrite !blen_app. repeat split; lia.
Qed.

Lemma decode_fields_layout ks dec v pre body lens post :
  Forall CompositeField ks -> tuple_wf ks v ->
  layout (dec_null_handling dec) ks v body lens ->
  as_ref (dec_bytes dec) = pre ++ (body ++ trailer lens) ++ post ->
  alloc_ok (as_ref (dec_bytes dec)) ->
  dec_offset dec = blen pre -> dec_end dec = blen pre + blen (body ++ trailer lens) ->
  exists dec', decode_fields ks dec = Ok (v, dec') /\ dec_offset dec' = dec_end dec'.
Proof.
  revert dec pre body lens post.
  induction ks as [|k ks IH]; intros dec pre body lens post Hks Hv Hl Hb Ha Ho He.
  - destruct v. destruct Hl as [-> ->]. simpl. exists dec. split; [done|].
    rewrite Ho, He. unfold trailer, blen. simpl. lia.
  - inversion Hks as [|? ? Hk Hks']; subst. destruct v as [v w], Hv as [Hv Hw].
    destruct Hl as (c & body' & lens' & Hc & Hl & -> & ->). cbn [decode_fields fst snd] in *.
    destruct (decode_layout k dec v c pre body' lens' post Hv Hc Hb Ha Ho He)
      as (dec' & -> & Hb' & Hn' & Ho' & He').
    cbn [mbind res_bind]. rewrite <- Hn' in Hl.
    assert (exists post', as_ref (dec_bytes dec') =
      (pre ++ c ++ terminator k) ++ (body' ++ trailer lens') ++ post') as [post' Hp].
    { rewrite Hb', Hb. unfold field_lengths. destruct (is_none (LENGTH k)); cbn [app].
      - exists (length_bytes (blen c) ++ post). rewrite trailer_cons. by rewrite <- !app_assoc.
      - exists post. by rewrite <- !app_assoc. }
    destruct (IH w dec' _ _ _ _ Hks' Hw Hl Hp) as (dec'' & -> & Hd); [by rewrite Hb'|done..|].
    cbn [mbind res_bind]. eauto.
Qed.

Lemma composite_roundtrip nh ks v bs src :
  Forall CompositeField ks -> tuple_wf ks v ->
  composite_as_ord_bytes nh ks v = Ok bs -> alloc_ok bs -> as_ref src = bs ->
  composite_from_ord_bytes nh ks src = Ok v.
Proof.
  intros Hks Hv He Ha Hs. apply composite_layout in He as (body & lens & Hl & ->).
  unfold composite_from_ord_bytes.
  destruct (decode_fields_layout ks (decoder_new nh src) v [] body lens [])
    as (dec' & -> & Hd); try done; simpl.
  - by rewrite app_nil_r.
  - by rewrite Hs.
  - by rewrite Hs.
  - unfold decoder_finish. by rewrite (proj2 (Z.eqb_eq _ _)).
Qed.

(** ** Byte order is tuple order *)

(** Neither sequence continues the other with a null byte. *)
Definition null_separated (x y : bytes) : Prop :=
  forall s, y <> x ++ 0 :: s /\ x <> y ++ 0 :: s.

Lemma null_separated_cons b x y : null_separated (b :: x) (b :: y) -> null_separated x y.
Proof. intros Hs s. destruct (Hs s) as [H1 H2]. split; intros ->; eauto. Qed.

(** A delimiter keeps the order of contents that are separated, escaped or not. *)
Lemma delimited_cmp (esc : bool) x y r s :
  bytes_ok x -> bytes_ok y -> null_separated x y ->
  let f := if esc then null_encode else (fun z => z) in
  bytes_cmp (f x ++ 0 :: r) (f y ++ 0 :: s) = cmp_then (bytes_cmp x y) (bytes_cmp r s).
Proof.
  intros Hx. revert y. induction Hx as [|a x Ha Hx IH]; intros y Hy Hs; destruct y as [|b y].
  - by destruct esc.
  - inversion Hy as [|? ? Hb _]; subst. unfold byte_ok in Hb.
    assert (b <> 0). { intros ->. by destruct (Hs y). }
    destruct esc; cbn [app null_encode]; [rewrite (proj2 (Z.eqb_neq b 0)) by done; cbn [app]|];
      rewrite bytes_cmp_head_lt by lia; done.
  - unfold byte_ok in Ha. assert (a <> 0). { intros ->. by destruct (Hs x). }
    destruct esc; cbn [app null_encode]; [rewrite (proj2 (Z.eqb_neq a 0)) by done; cbn [app]|];
      rewrite bytes_cmp_head_gt by lia; done.
  - inversion Hy as [|? ? Hb Hy']; subst. unfold byte_ok in *.
    destruct (Z.compare_spec a b) as [E|E|E].
    + subst. apply null_separated_cons in Hs. specialize (IH y Hy' Hs). rewrite bytes_cmp_cons, Z.compare_refl.
      cbn [cmp_then]. destruct esc; cbn [app null_encode] in *.
      * destruct (b =? 0); cbn [app]; rewrite ?bytes_cmp_cons, ?Z.compare_refl; cbn [cmp_then]; apply IH.
      * rewrite bytes_cmp_cons, Z.compare_refl. apply IH.
    + rewrite (bytes_cmp_head_lt a x b y) by done. cbn [cmp_then].
      destruct esc; cbn [app null_encode].
      * destruct (a =? 0); rewrite (proj2 (Z.eqb_neq b 0)) by lia; cbn [app];
          apply bytes_cmp_head_lt; lia.
      * by apply bytes_cmp_head_lt.
    + rewrite (bytes_cmp_head_gt a x b y) by done. cbn [cmp_then].
      destruct esc; cbn [app null_encode].
      * destruct (b =? 0); rewrite (proj2 (Z.eqb_neq a 0)) by lia; cbn [app];
          apply bytes_cmp_head_gt; lia.
      * by apply bytes_cmp_head_gt.
Qed.

Lemma handle_nulls_cmp nh x y cx cy r s :
  handle_nulls nh x = Ok cx -> handle_nulls nh y = Ok cy ->
  bytes_ok x -> bytes_ok y -> null_separated x y ->
  bytes_cmp (cx ++ 0 :: r) (cy ++ 0 :: s) = cmp_then (bytes_cmp x y) (bytes_cmp r s).
Proof.
  intros Hx Hy Ox Oy Hs. destruct nh.
  - rewrite handle_nulls_escape in Hx, Hy. inv_res. by apply (delimited_cmp true).
  - simpl in *. inv_res. by apply (delimited_cmp false).
  - simpl in *. destruct (existsb _ x), (existsb _ y); inv_res. by apply (delimited_cmp false).
Qed.

(** The variable-width members of [v] and [w] are pairwise separated. *)
Fixpoint fields_separated (ks : list key_ty) : tuple_type ks -> tuple_type ks -> Prop :=
  match ks with
  | [] => fun _ _ => True
  | k :: r => fun v w =>
      (LENGTH k = None -> forall x y, as_ord_bytes k (fst v) = Ok x ->
         as_ord_bytes k (fst w) = Ok y -> null_separated x y) /\
      fields_separated r (snd v) (snd w)
  end.

Class OrderedField (k : key_ty) : Prop := {
  of_field :: CompositeField k;
  of_ordered :: KeyOrdered k
}.

(** One member of a composite key, and what follows it. *)
Lemma field_cmp nh k `{OrderedField k} v w c d r s :
  k_wf k v -> k_wf k w ->
  field_content nh k v c -> field_content nh k w d ->
  (LENGTH k = None -> forall x y, as_ord_bytes k v = Ok x -> as_ord_bytes k w = Ok y ->
     null_separated x y) ->
  bytes_cmp (c ++ terminator k ++ r) (d ++ terminator k ++ s)
    = cmp_then (k_cmp k v w) (bytes_cmp r s) /\
  (k_cmp k v w = Eq -> c = d).
Proof.
  intros Hv Hw (x & Hx & Hc) (y & Hy & Hd) Hs. unfold terminator.
  pose proof (key_ordered _ _ _ _ Hv Hw Hx Hy) as Ho.
  destruct (LENGTH k) as [n|] eqn:HL; cbn [is_none] in *.
  - subst. rewrite <- Ho. split; [|by rewrite bytes_cmp_eq].
    apply bytes_cmp_app_same_length.
    pose proof (key_fixed_length n v x HL Hv Hx). pose proof (key_fixed_length n w y HL Hw Hy).
    unfold blen in *. lia.
  - destruct Hc as [Hc _], Hd as [Hd _]. rewrite <- Ho. split.
    + cbn [app]. apply (handle_nulls_cmp nh); [done|done| | |by apply Hs].
      * by eapply (key_bytes_ok (k:=k) v).
      * by eapply (key_bytes_ok (k:=k) w).
    + rewrite bytes_cmp_eq. intros ->. congruence.
Qed.

Lemma layout_cmp nh ks v w bv lv bw lw r s :
  Forall OrderedField ks -> tuple_wf ks v -> tuple_wf ks w ->
  layout nh ks v bv lv -> layout nh ks w bw lw -> fields_separated ks v w ->
  (lv = lw -> bytes_cmp r s = Eq) ->
  bytes_cmp (bv ++ r) (bw ++ s) = tuple_cmp ks v w.
Proof.
  revert bv lv bw lw. induction ks as [|k ks IH]; intros bv lv bw lw Hks Hv Hw Hlv Hlw Hs Hr.
  - destruct Hlv as [-> ->], Hlw as [-> ->]. by apply Hr.
  - inversion Hks as [|? ? Hk Hks']; subst. destruct v as [v v'], w as [w w'].
    destruct Hv as [Hv Hv'], Hw as [Hw Hw'], Hs as [Hs Hs'].
    destruct Hlv as (c & bv' & lv' & Hc & Hlv & -> & ->).
    destruct Hlw as (d & bw' & lw' & Hd & Hlw & -> & ->). simpl in *.
    destruct (field_cmp nh k v w c d (bv' ++ r) (bw' ++ s) Hv Hw Hc Hd Hs) as [Hcmp Heq].
    rewrite <- !app_assoc, Hcmp. destruct (k_cmp k v w) eqn:E; cbn [cmp_then]; try done.
    eapply IH; eauto. intros ->. apply Hr. by rewrite Heq.
Qed.

Lemma composite_order nh ks v w bv bw :
  Forall OrderedField ks -> tuple_wf ks v -> tuple_wf ks w ->
  composite_as_ord_bytes nh ks v = Ok bv -> composite_as_ord_bytes nh ks w = Ok bw ->
  fields_separated ks v w ->
  bytes_cmp bv bw = tuple_cmp ks v w.
Proof.
  intros Hks Hv Hw Hbv Hbw Hs.
  apply composite_layout in Hbv as (b1 & l1 & H1 & ->).
  apply composite_layout in Hbw as (b2 & l2 & H2 & ->).
  eapply layout_cmp; eauto. intros ->. apply bytes_cmp_refl.
Qed.

Lemma null_free_separated x y :
  existsb (fun b => b =? 0) x = false -> existsb (fun b => b =? 0) y = false ->
  null_separated x y.
Proof.
  intros Hx Hy s. split; intros ->; rewrite existsb_app in *; simpl in *;
    by rewrite orb_true_r in *.
Qed.

Lemma layout_deny_separated ks v w bv lv bw lw :
  layout DenyNullBytes ks v bv lv -> layout DenyNullBytes ks w bw lw -> fields_separated ks v w.
Proof.
  revert bv lv bw lw. induction ks as [|k ks IH]; intros bv lv bw lw; [done|].
  intros (c & bv' & lv' & (x & Hx & Hc) & Hlv & _) (d & bw' & lw' & (y & Hy & Hd) & Hlw & _).
  split; [|by eapply IH]. intros HL x' y' Hx' Hy'. rewrite HL in Hc, Hd.
  destruct Hc as [Hc _], Hd as [Hd _]. simpl in *.
  apply null_free_separated.
  - destruct (existsb _ x) eqn:E; congruence.
  - destruct (existsb _ y) eqn:E; congruence.
Qed.

End Laws.
