(* ===== verification/KeyTheorems.v ===== *)
(** * What the key encodings guarantee

    The main theorems about [bonsaidb-core/src/key.rs]: round trips and order
    of composite keys, of the integer keys and of nested keys, and the cases in
    which the documented guarantees do not hold. *)

From Stdlib Require Import ZArith Lia.
From stdpp Require Import base list option numbers.
From S2P Require Import Prelude Bytes Utf8 Key KeyLaws CompositeKey CompositeKeyLaws.

Local Open Scope Z_scope.

(** ** Tuples are keys again *)

Section Tuples.
Context `{Profile}.

Lemma layout_ok nh ks v body lens :
  Forall CompositeField ks -> tuple_wf ks v -> layout nh ks v body lens ->
  bytes_ok body /\ Forall (fun l => 0 <= l < 65536) lens.
Proof.
  revert body lens. induction ks as [|k ks IH]; intros body lens Hks Hv Hl.
  - destruct Hl as [-> ->]. split; constructor.
  - inversion Hks as [|? ? Hk Hks']; subst. destruct v as [v w], Hv as [Hv Hw].
    destruct Hl as (c & body' & lens' & (raw & Hraw & Hc) & Hl & -> & ->).
    destruct (IH w _ _ Hks' Hw Hl) as [Hb Hls].
    pose proof (key_bytes_ok _ _ Hv Hraw). unfold terminator, field_lengths.
    destruct (is_none (LENGTH k)); simpl in *.
    + destruct Hc as [Hc ?]. split; [|by constructor].
      apply Forall_app; split; [by eapply handle_nulls_ok|by constructor].
    + subst. split; [by apply Forall_app|done].
Qed.

Lemma length_bytes_ok l : 0 <= l < 65536 -> bytes_ok (length_bytes l).
Proof.
  intros Hl. unfold length_bytes.
  assert (Z.shiftr l 7 = l / 128) as -> by by rewrite Z.shiftr_div_pow2.
  assert (Z.shiftr l 14 = l / 16384) as -> by by rewrite Z.shiftr_div_pow2.
  assert (forall x, 0 <= x `mod` 128 < 128) as Hm by (intros; apply Z.mod_pos_bound; lia).
  rewrite !land_7f, !lor_80 by auto. unfold bytes_ok, byte_ok.
  destruct (Z.leb_spec l 0x7F); [|destruct (Z.leb_spec l 0x3FFF)];
    repeat constructor; zdm.
Qed.

Lemma trailer_ok lens : Forall (fun l => 0 <= l < 65536) lens -> bytes_ok (trailer lens).
Proof.
  induction 1 as [|l lens Hl Hls IH]; [constructor|].
  rewrite trailer_cons. apply Forall_app. split; [done|by apply length_bytes_ok].
Qed.

Lemma layout_fixed nh ks v body lens n :
  Forall CompositeField ks -> tuple_wf ks v -> layout nh ks v body lens ->
  tuple_length ks = Some n -> lens = [] /\ blen body = n.
Proof.
  revert body lens n. induction ks as [|k ks IH]; intros body lens n Hks Hv Hl Hn.
  - destruct Hl as [-> ->]. simplify_eq/=. by split.
  - inversion Hks as [|? ? Hk Hks']; subst. destruct v as [v w], Hv as [Hv Hw].
    destruct Hl as (c & body' & lens' & (raw & Hraw & Hc) & Hl & -> & ->). simpl in *.
    unfold terminator, field_lengths.
    destruct (LENGTH k) as [a|] eqn:Ha; [|done].
    destruct (tuple_length ks) as [b|] eqn:Hb; [|done]. simplify_eq/=.
    destruct (IH w _ _ b Hks' Hw Hl eq_refl) as [-> <-]. split; [done|].
    rewrite blen_app. pose proof (key_fixed_length a v raw Ha Hv Hraw). lia.
Qed.

#[export] Instance key_tuple_field ks : Forall CompositeField ks -> CompositeField (key_tuple ks).
Proof.
  intros Hks. split.
  - split; cbn [k_wf as_ord_bytes from_ord_bytes key_tuple].
    + intros v bs Hv Hb. apply composite_layout in Hb as (body & lens & Hl & ->).
      destruct (layout_ok _ _ _ _ _ Hks Hv Hl). apply Forall_app. split; [done|by apply trailer_ok].
    + intros v bs src. by apply composite_roundtrip.
  - intros n v bs; cbn [k_wf as_ord_bytes LENGTH key_tuple]. intros Hn Hv Hb.
    apply composite_layout in Hb as (body & lens & Hl & ->).
    destruct (layout_fixed _ _ _ _ _ _ Hks Hv Hl Hn) as [-> <-].
    rewrite blen_app. unfold trailer. simpl. unfold blen at 2. simpl. lia.
Qed.

End Tuples.

(** Discharges [Forall CompositeField]/[Forall OrderedField] of a concrete list. *)
Ltac solve_fields :=
  repeat first [ apply Forall_nil_2 | apply Forall_cons_2 ];
  try (split; [split|]; apply _).

Lemma ordered_composite ks : Forall OrderedField ks -> Forall CompositeField ks.
Proof. induction 1 as [|k ks [Hk _] _ IH]; by constructor. Qed.

#[export] Instance variable_length_fixed_vec : KeyFixedLength key_vec.
Proof. by intros n x bs. Qed.
#[export] Instance variable_length_fixed_string : KeyFixedLength key_string.
Proof. by intros n x bs. Qed.

(** The concrete composite key the witnesses use: [("bo\0", 7u32, [0, 1])]. *)
Definition sample_tys : list key_ty := [key_string; key_u32; key_vec].
Definition sample_tuple : tuple_type sample_tys := ([98; 111; 0], (7, ([0; 1], tt))).
Definition sample_bytes : bytes :=
  [98; 111; 0; 0; 0; 0; 0; 0; 7; 0; 0; 1; 0; 3; 4].

Lemma sample_fields : Forall OrderedField sample_tys.
Proof. solve_fields. Qed.

(** Discharges [bytes_ok] of a concrete list. *)
Ltac solve_bytes :=
  repeat first [ apply Forall_nil_2 | apply Forall_cons_2 ]; unfold byte_ok; lia.

Lemma sample_wf : tuple_wf sample_tys sample_tuple.
Proof. do 2 (split; [reflexivity|]). split; [solve_bytes|exact I]. Qed.

(** C24: decoding a composite key with [CompositeKeyDecoder] yields exactly the
    values that were encoded with [CompositeKeyEncoder], for every choice of
    null handling, every list of member types that keep the [Key] contract,
    every source of the bytes and both overflow-check profiles. *)
Theorem composite_key_roundtrip `{Profile} nh ks v bs src :
  Forall CompositeField ks -> tuple_wf ks v ->
  composite_as_ord_bytes nh ks v = Ok bs -> alloc_ok bs -> as_ref src = bs ->
  composite_from_ord_bytes nh ks src = Ok v.
Proof. apply composite_roundtrip. Qed.

Lemma composite_key_roundtrip_witness :
  composite_as_ord_bytes EscapeNullBytes sample_tys sample_tuple = Ok sample_bytes /\
  @composite_from_ord_bytes true EscapeNullBytes sample_tys (Owned sample_bytes) = Ok sample_tuple.
Proof.
  split; [vm_compute; reflexivity|].
  apply (@composite_key_roundtrip true EscapeNullBytes sample_tys sample_tuple sample_bytes).
  - apply ordered_composite, sample_fields.
  - apply sample_wf.
  - vm_compute; reflexivity.
  - unfold alloc_ok, blen. vm_compute. discriminate.
  - reflexivity.
Defined.

(** C26: the encodings of two composite keys compare, byte by byte, exactly as
    the tuples do, for all three null handlers, provided that the encoding of
    each member on its own keeps the order of its type (strings, bytes, unsigned
    and variable-width integers and the like do; fixed-width signed integers do
    not, and a composite key with one is not ordered), and that no variable-width
    member continues its counterpart with a null byte. *)
Theorem composite_key_order nh ks v w bv bw :
  Forall OrderedField ks -> tuple_wf ks v -> tuple_wf ks w ->
  composite_as_ord_bytes nh ks v = Ok bv -> composite_as_ord_bytes nh ks w = Ok bw ->
  fields_separated ks v w ->
  bytes_cmp bv bw = tuple_cmp ks v w.
Proof. apply composite_order. Qed.

Definition sample_tuple2 : tuple_type sample_tys := ([98; 111; 111], (3, ([2], tt))).
Definition sample_bytes2 : bytes := [98; 111; 111; 0; 0; 0; 0; 3; 2; 0; 1; 3].

Lemma composite_key_order_witness : bytes_cmp sample_bytes sample_bytes2 = Lt.
Proof.
  rewrite (composite_key_order EscapeNullBytes sample_tys sample_tuple sample_tuple2).
  - vm_compute; reflexivity.
  - apply sample_fields.
  - apply sample_wf.
  - do 2 (split; [reflexivity|]). split; [solve_bytes|exact I].
  - vm_compute; reflexivity.
  - vm_compute; reflexivity.
  - simpl. repeat split; intros; simplify_eq; try done.
Defined.

(** With [denying_null_bytes] the order holds for all pairs of keys that can
    be encoded at all: an encoder that accepts the values has excluded every
    confusion between content and delimiter. *)
Theorem deny_null_bytes_order ks v w bv bw :
  Forall OrderedField ks -> tuple_wf ks v -> tuple_wf ks w ->
  composite_as_ord_bytes DenyNullBytes ks v = Ok bv ->
  composite_as_ord_bytes DenyNullBytes ks w = Ok bw ->
  bytes_cmp bv bw = tuple_cmp ks v w.
Proof.
  intros Hks Hv Hw Hbv Hbw. eapply composite_order; eauto.
  apply composite_layout in Hbv as (b1 & l1 & H1 & _).
  apply composite_layout in Hbw as (b2 & l2 & H2 & _).
  by eapply layout_deny_separated.
Qed.

Lemma deny_null_bytes_order_witness :
  bytes_cmp [97; 0; 0; 0; 0; 9; 1; 0; 1; 1] [97; 97; 0; 0; 0; 0; 1; 1; 0; 1; 2] = Lt.
Proof.
  rewrite (deny_null_bytes_order sample_tys ([97], (9, ([1], tt))) ([97; 97], (1, ([1], tt)))).
  - vm_compute; reflexivity.
  - apply sample_fields.
  - do 2 (split; [reflexivity|]). split; [solve_bytes|exact I].
  - do 2 (split; [reflexivity|]). split; [solve_bytes|exact I].
  - vm_compute; reflexivity.
  - vm_compute; reflexivity.
Defined.

Lemma null_encode_app x y : null_encode (x ++ y) = null_encode x ++ null_encode y.
Proof.
  induction x as [|a x IH]; [done|]. cbn [app null_encode].
  rewrite IH. by destruct (a =? 0).
Qed.

Lemma escape_pair_layout x y bs :
  composite_as_ord_bytes EscapeNullBytes [key_vec; key_vec] (x, (y, tt)) = Ok bs ->
  exists rest, bs = null_encode x ++ 0 :: null_encode y ++ 0 :: rest.
Proof.
  intros He. apply composite_layout in He as (body & lens & Hl & ->).
  destruct Hl as (c & b1 & l1 & (r1 & Hr1 & Hc1 & _) & Hl & -> & _).
  destruct Hl as (d & b2 & l2 & (r2 & Hr2 & Hc2 & _) & [-> _] & -> & _).
  simpl in Hr1, Hr2. inv_res. rewrite handle_nulls_escape in Hc1, Hc2. inv_res.
  exists (trailer lens). unfold terminator. simpl. rewrite <- app_assoc. simpl.
  by rewrite <- app_assoc.
Qed.

(** Escaping null bytes does not preserve the order in general, although
    [EscapeNullBytes] is documented to: a pair whose first member is [p] sorts
    before one whose first member is [p] followed by a null byte, but its
    encoding compares greater whenever its second member starts with a non-null
    byte. *)
Theorem escape_null_bytes_misorders p b t s bx by' :
  0 < b ->
  composite_as_ord_bytes EscapeNullBytes [key_vec; key_vec] (p, (b :: t, tt)) = Ok bx ->
  composite_as_ord_bytes EscapeNullBytes [key_vec; key_vec] (p ++ [0], (s, tt)) = Ok by' ->
  tuple_cmp [key_vec; key_vec] (p, (b :: t, tt)) (p ++ [0], (s, tt)) = Lt /\
  bytes_cmp bx by' = Gt.
Proof.
  intros Hb Hx Hy. split.
  - cbn [tuple_cmp fst snd k_cmp key_vec]. by rewrite bytes_cmp_prefix_lt.
  - apply escape_pair_layout in Hx as (r1 & ->). apply escape_pair_layout in Hy as (r2 & ->).
    rewrite null_encode_app, <- app_assoc, bytes_cmp_app_prefix.
    cbn [null_encode Z.eqb app]. rewrite (proj2 (Z.eqb_neq b 0)) by lia. cbn [app].
    rewrite bytes_cmp_cons, Z.compare_refl. cbn [cmp_then].
    apply bytes_cmp_head_gt. lia.
Qed.

Lemma escape_null_bytes_misorders_witness :
  tuple_cmp [key_vec; key_vec] ([97], ([98], tt)) ([97; 0], ([97], tt)) = Lt /\
  bytes_cmp [97; 0; 98; 0; 1; 1] [97; 0; 0; 0; 97; 0; 1; 3] = Gt.
Proof.
  apply (escape_null_bytes_misorders [97] 98 [] [97]);
    [lia|vm_compute; reflexivity|vm_compute; reflexivity].
Defined.

(** The encoding of a signed integer orders negative values after all
    non-negative ones, for each signed width. *)
Theorem signed_keys_misordered t kind x y bx by' :
  byte_multiple t -> int_signed t = true ->
  in_range t x = true -> in_range t y = true -> x < 0 <= y ->
  as_ord_bytes (key_primitive t kind) x = Ok bx ->
  as_ord_bytes (key_primitive t kind) y = Ok by' ->
  k_cmp (key_primitive t kind) x y = Lt /\ bytes_cmp bx by' = Gt.
Proof.
  intros [Hp Hm] Hs Hx Hy Hxy. simpl. intros. inv_res.
  split; [apply Z.compare_lt_iff; lia|].
  apply in_range_spec in Hx, Hy. unfold int_min, int_max in *. rewrite Hs in *.
  pose proof (pow2_half _ Hp). pose proof (pow2_pos (int_bits t - 1) ltac:(lia)).
  unfold to_be_bytes. rewrite (Z.mod_small y) by lia.
  assert (x `mod` 2 ^ int_bits t = x + 2 ^ int_bits t) as ->.
  { rewrite <- (Z.mod_small (x + 2 ^ int_bits t) (2 ^ int_bits t)) by lia.
    rewrite <- (Z_mod_plus_full x 1 (2 ^ int_bits t)). f_equal; lia. }
  rewrite to_be_cmp by (rewrite Hm; lia). apply Z.compare_gt_iff. lia.
Qed.

Lemma signed_keys_misordered_witness :
  k_cmp key_i16 (-2) 5 = Lt /\ bytes_cmp [255; 254] [0; 5] = Gt.
Proof.
  apply (signed_keys_misordered i16 KI16 (-2) 5 [255; 254] [0; 5]);
    [by split|reflexivity|reflexivity|reflexivity|lia|reflexivity|reflexivity].
Defined.

(** [Option<T>] of a fixed-width [T] declares the length of [Some], but
    [None] takes a single byte: a tuple [(Option<u8>, u8)] holding [None] is
    encoded to two bytes that cannot be decoded again. *)
Theorem option_none_in_tuple_not_decodable `{Profile} x :
  in_range u8 x = true ->
  let k := key_tuple [key_option key_u8; key_u8] in
  as_ord_bytes k (None, (x, tt)) = Ok [0; x] /\
  forall src, as_ref src = [0; x] ->
    from_ord_bytes k src = Err (CompositeKeyError (IoError UnexpectedEof)).
Proof.
  intros Hx k.
  assert (to_be_bytes u8 x = [x]) as Ex.
  { apply (in_range_unsigned u8) in Hx; [|done]. unfold to_be_bytes.
    change (2 ^ int_bits u8) with 256 in *. rewrite (Z.mod_small x) by lia.
    change (int_bytes u8) with 1%nat. cbn [to_be]. change (2 ^ (8 * Z.of_nat 0)) with 1.
    by rewrite Z.div_1_r, Z.mod_small by lia. }
  split.
  - unfold k. cbn -[to_be_bytes]. rewrite Ex. done.
  - intros src Hs. unfold k. cbn [from_ord_bytes key_tuple].
    unfold composite_from_ord_bytes, decoder_new. rewrite Hs.
    by destruct src; simpl in Hs; subst.
Qed.

Lemma option_none_in_tuple_not_decodable_witness :
  as_ord_bytes (@key_tuple true [key_option key_u8; key_u8]) (None, (7, tt)) = Ok [0; 7] /\
  forall src, as_ref src = [0; 7] ->
    from_ord_bytes (@key_tuple true [key_option key_u8; key_u8]) src
      = Err (CompositeKeyError (IoError UnexpectedEof)).
Proof. apply (@option_none_in_tuple_not_decodable true 7). reflexivity. Defined.

(** The in-place unescaping loop of [EscapeNullBytes] always finishes
    within as many iterations as the field has bytes, and it computes the
    reference function [unescape]: the original bytes for every output of the
    encoder, and a panic exactly when a null byte is not doubled. *)
Theorem unescape_loop_correct src :
  (forall bs, as_ref src = null_encode bs ->
     exists src', decode_nulls_if_needed EscapeNullBytes src = Ok src' /\ as_ref src' = bs) /\
  (decode_nulls_if_needed EscapeNullBytes src = Panic <-> unescape (as_ref src) = None) /\
  (forall u, unescape (as_ref src) = Some u ->
     exists src', decode_nulls_if_needed EscapeNullBytes src = Ok src' /\ as_ref src' = u).
Proof.
  pose proof (decode_nulls_escape src) as Hd. repeat split.
  - intros bs Hs. by rewrite Hs, unescape_null_encode in Hd.
  - intros Hp. destruct (unescape _); [|done]. destruct Hd as (? & Hd & _). congruence.
  - intros Hn. by rewrite Hn in Hd.
  - intros u Hu. by rewrite Hu in Hd.
Qed.
