(* ===== verification/Range.v ===== *)
(** * Ranges and query keys

    The ranges of [bonsaidb-core/src/connection.rs], which name a part of a
    collection or of a view, their serialized form, and the prefix ranges of
    [bonsaidb-core/src/key.rs].  A [MaybeOwned] value is the value it derefs to,
    so that [BoundRef] and [RangeRef] are [Bound] and [Range]. *)

From Stdlib Require Import ZArith Lia.
From stdpp Require Import base list option numbers.
From S2P Require Import Prelude Bytes Utf8 Key KeyLaws.

Local Open Scope Z_scope.

Inductive Sort := Ascending | Descending.
Inductive AccessPolicy := UpdateBefore | UpdateAfter | NoUpdate.

(** ** Ranges *)

Inductive Bound (T : Type) :=
| Unbounded
| Included (v : T)
| Excluded (v : T).
Arguments Unbounded {T}.
Arguments Included {T} _.
Arguments Excluded {T} _.

Record Range (T : Type) := MkRange { range_start : Bound T; range_end : Bound T }.
Arguments MkRange {T} _ _.
Arguments range_start {T} _.
Arguments range_end {T} _.

(** [Range::default] and the setters. *)
Definition range_default {T} : Range T := MkRange Unbounded Unbounded.
Definition after {T} (excluded_start : T) (r : Range T) := MkRange (Excluded excluded_start) (range_end r).
Definition start_at {T} (included_start : T) (r : Range T) := MkRange (Included included_start) (range_end r).
Definition before {T} (excluded_end : T) (r : Range T) := MkRange (range_start r) (Excluded excluded_end).
Definition end_at {T} (included_end : T) (r : Range T) := MkRange (range_start r) (Included included_end).

(** The conversions from the ranges of the standard library. *)
Definition from_range {T} (a b : T) : Range T := MkRange (Included a) (Excluded b).
Definition from_range_from {T} (a : T) : Range T := MkRange (Included a) Unbounded.
Definition from_range_to {T} (b : T) : Range T := MkRange Unbounded (Excluded b).
Definition from_range_inclusive {T} (a b : T) : Range T := MkRange (Included a) (Included b).
Definition from_range_to_inclusive {T} (b : T) : Range T := MkRange Unbounded (Included b).
Definition from_range_full {T} : Range T := MkRange Unbounded Unbounded.

Definition bound_map {T U} (f : T -> U) (b : Bound T) : Bound U :=
  match b with
  | Unbounded => Unbounded
  | Included v => Included (f v)
  | Excluded v => Excluded (f v)
  end.
Definition range_map {T U} (f : T -> U) (r : Range T) : Range U :=
  MkRange (bound_map f (range_start r)) (bound_map f (range_end r)).

Definition bound_map_result {E T U} (f : T -> res E U) (b : Bound T) : res E (Bound U) :=
  match b with
  | Unbounded => Ok Unbounded
  | Included v => u ← f v; Ok (Included u)
  | Excluded v => u ← f v; Ok (Excluded u)
  end.
Definition range_map_result {E T U} (f : T -> res E U) (r : Range T) : res E (Range U) :=
  a ← bound_map_result f (range_start r);
  b ← bound_map_result f (range_end r);
  Ok (MkRange a b).

(** [RangeBounds::contains] of the standard library, for an order. *)
Definition above {T} (cmp : T -> T -> comparison) (b : Bound T) (x : T) : bool :=
  match b with
  | Unbounded => true
  | Included v => match cmp v x with Gt => false | _ => true end
  | Excluded v => match cmp v x with Lt => true | _ => false end
  end.
Definition below {T} (cmp : T -> T -> comparison) (b : Bound T) (x : T) : bool :=
  match b with
  | Unbounded => true
  | Included v => match cmp x v with Gt => false | _ => true end
  | Excluded v => match cmp x v with Lt => true | _ => false end
  end.
Definition range_contains {T} (cmp : T -> T -> comparison) (r : Range T) (x : T) : bool :=
  above cmp (range_start r) x && below cmp (range_end r) x.

(** ** Serialized ranges and query keys *)

Definition bound_as_ord_bytes (k : key_ty) (b : Bound (k_type k)) : res KeyError (Bound bytes) :=
  match b with
  | Unbounded => Ok Unbounded
  | Included v => bs ← as_ord_bytes k v; Ok (Included bs)
  | Excluded v => bs ← as_ord_bytes k v; Ok (Excluded bs)
  end.
Definition range_as_ord_bytes (k : key_ty) (r : Range (k_type k)) : res KeyError (Range bytes) :=
  a ← bound_as_ord_bytes k (range_start r);
  b ← bound_as_ord_bytes k (range_end r);
  Ok (MkRange a b).

Definition bound_deserialize (k : key_ty) (b : Bound bytes) : res KeyError (Bound (k_type k)) :=
  match b with
  | Unbounded => Ok Unbounded
  | Included bs => v ← from_ord_bytes k (Borrowed bs); Ok (Included v)
  | Excluded bs => v ← from_ord_bytes k (Borrowed bs); Ok (Excluded v)
  end.
(** [Range::<Bytes>::deserialize]: both bounds are read from the start. *)
Definition range_deserialize (k : key_ty) (r : Range bytes) : res KeyError (Range (k_type k)) :=
  a ← bound_deserialize k (range_start r);
  b ← bound_deserialize k (range_start r);
  Ok (MkRange a b).

Inductive QueryKey (K : Type) :=
| Matches (key : K)
| InRange (range : Range K)
| Multiple (keys : list K).
Arguments Matches {K} _.
Arguments InRange {K} _.
Arguments Multiple {K} _.
Abbreviation SerializedQueryKey := (QueryKey bytes).

(** [collect::<Result<Vec<_>, _>>]. *)
Fixpoint collect {E A B} (f : A -> res E B) (l : list A) : res E (list B) :=
  match l with
  | [] => Ok []
  | x :: l => y ← f x; ys ← collect f l; Ok (y :: ys)
  end.

Definition serialized (k : key_ty) (q : QueryKey (k_type k)) : res KeyError SerializedQueryKey :=
  match q with
  | Matches key => bs ← as_ord_bytes k key; Ok (Matches bs)
  | InRange range => r ← range_as_ord_bytes k range; Ok (InRange r)
  | Multiple keys => ks ← collect (as_ord_bytes k) keys; Ok (Multiple ks)
  end.

Definition deserialized (k : key_ty) (q : SerializedQueryKey) : res KeyError (QueryKey (k_type k)) :=
  match q with
  | Matches bs => key ← from_ord_bytes k (Borrowed bs); Ok (Matches key)
  | InRange range => r ← range_deserialize k range; Ok (InRange r)
  | Multiple keys => ks ← collect (fun bs => from_ord_bytes k (Borrowed bs)) keys; Ok (Multiple ks)
  end.

(** The keys a query selects. *)
Definition selects {K} (cmp : K -> K -> comparison) (q : QueryKey K) (x : K) : bool :=
  match q with
  | Matches key => match cmp x key with Eq => true | _ => false end
  | InRange range => range_contains cmp range x
  | Multiple keys => existsb (fun key => match cmp x key with Eq => true | _ => false end) keys
  end.

(** ** Prefix ranges *)

(** The loop of [next_byte_sequence]; the last element comes first. *)
Fixpoint next_rev (next : Z -> option Z) (l : list Z) : option (list Z) :=
  match l with
  | [] => None
  | b :: l => match next b with Some n => Some (n :: l) | None => next_rev next l end
  end.
Definition next_byte_sequence (start : bytes) : option bytes :=
  rev (A:=Z) <$> next_rev (fun b => checked_add u8 b 1) (rev start).

(** [to_prefix_range] of the byte containers. *)
Definition bytes_prefix_range (p : bytes) : Range bytes :=
  match next_byte_sequence p with
  | Some next => MkRange (Included p) (Excluded next)
  | None => MkRange (Included p) Unbounded
  end.

(** [to_prefix_range] of [String] and [str]: [l] holds the characters not yet
    visited, the last one first, and [bytes] the whole prefix. *)
Definition next_char (c : Z) : option Z :=
  let n := c + 1 in
  if n =? 0xD800 then Some 0xE000
  else if char_max <? n then None
  else Some n.
Fixpoint string_prefix_loop {E} (bs : bytes) (l : list Z) : res E (option (list Z)) :=
  match l with
  | [] => Ok None
  | c :: l =>
      match next_char c with
      | None => string_prefix_loop bs l
      | Some n =>
          let index := blen (as_bytes (rev l)) in
          n ← unwrap (if is_char n then Some n else None);
          head ← slice bs 0 index;
          s ← unwrap (from_utf8 (head ++ encode_char n));
          Ok (Some s)
      end
  end.
Definition string_prefix_range {E} (p : list Z) : res E (Range (list Z)) :=
  next ← string_prefix_loop (as_bytes p) (rev p);
  Ok (match next with
      | Some next => MkRange (Included p) (Excluded next)
      | None => MkRange (Included p) Unbounded
      end).

(** ** Laws *)

(** The successor of a prefix, from the front. *)
Fixpoint next_front (next : Z -> option Z) (l : list Z) : option (list Z) :=
  match l with
  | [] => None
  | c :: l =>
      match next_front next l with
      | Some e => Some (c :: e)
      | None => (fun n => [n]) <$> next c
      end
  end.

Lemma next_rev_app next l c :
  next_rev next (l ++ [c]) =
    match next_rev next l with Some e => Some (e ++ [c]) | None => (fun n => [n]) <$> next c end.
Proof.
  induction l as [|b l IH]; simpl; [by destruct (next c)|]. rewrite IH. by destruct (next b).
Qed.

Lemma next_rev_front next l : rev (A:=Z) <$> next_rev next (rev l) = next_front next l.
Proof.
  induction l as [|c l IH]; [done|]. cbn [rev next_front]. rewrite next_rev_app, <- IH.
  destruct (next_rev next (rev l)) as [e|]; simpl; [by rewrite rev_app_distr|]. by destruct (next c).
Qed.

(** A successor function of an alphabet [P]. *)
Definition successor (P : Z -> Prop) (next : Z -> option Z) : Prop :=
  forall c d, P c -> P d ->
    match next c with Some n => c < n /\ (c < d -> n <= d) | None => d <= c end.

Definition prefix_range (next : Z -> option Z) (p : list Z) : Range (list Z) :=
  MkRange (Included p) (match next_front next p with Some e => Excluded e | None => Unbounded end).

Lemma prefix_range_spec P next p x :
  successor P next -> Forall P p -> Forall P x ->
  range_contains bytes_cmp (prefix_range next p) x = bool_decide (p `prefix_of` x).
Proof.
  intros Hnext Hp. revert x. unfold range_contains, prefix_range. simpl.
  induction Hp as [|c p Hc Hp IH]; intros x Hx.
  { rewrite bool_decide_true by apply prefix_nil. by destruct x. }
  destruct Hx as [|d x Hd Hx].
  { rewrite bool_decide_false; [done|]. by intros ?%prefix_nil_inv. }
  specialize (IH x Hx). pose proof (Hnext c d Hc Hd) as Hs. rewrite bytes_cmp_cons. cbn [next_front].
  destruct (Z.compare_spec c d) as [<-|Hlt|Hgt]; cbn [cmp_then].
  - rewrite (bool_decide_ext (c :: p `prefix_of` c :: x) (p `prefix_of` x)), <- IH.
    2: { split; [apply prefix_cons_inv_2|apply prefix_cons]. }
    f_equal. destruct (next_front next p) as [e|]; simpl; [by rewrite Z.compare_refl|].
    destruct (next c) as [n|]; [|done]. simpl. by rewrite (proj2 (Z.compare_lt_iff c n)) by lia.
  - rewrite bool_decide_false by (intros ?%prefix_cons_inv_1; lia).
    destruct (next_front next p) as [e|]; simpl; [by rewrite (proj2 (Z.compare_gt_iff d c))|].
    destruct (next c) as [n|]; [|lia]. simpl. destruct (Z.compare_spec d n) as [|?|]; [by destruct x|lia|done].
  - rewrite bool_decide_false; [done|]. intros ?%prefix_cons_inv_1; lia.
Qed.

Lemma byte_successor : successor byte_ok (fun b => checked_add u8 b 1).
Proof.
  intros c d [] []. unfold checked_add. destruct (in_range u8 (c + 1)) eqn:E; [lia|].
  apply not_true_iff_false in E. rewrite in_range_spec in E. unfold int_min, int_max in E. simpl in E. lia.
Qed.

Lemma char_successor : successor (fun c => is_char c = true) next_char.
Proof.
  intros c d Hc%is_char_spec Hd%is_char_spec. unfold next_char, char_max.
  destruct (Z.eqb_spec (c + 1) 0xD800); [lia|]. destruct (Z.ltb_spec 0x10FFFF (c + 1)); lia.
Qed.

Lemma bytes_prefix_range_eq p : bytes_prefix_range p = prefix_range (fun b => checked_add u8 b 1) p.
Proof.
  unfold bytes_prefix_range, prefix_range, next_byte_sequence. rewrite next_rev_front. by destruct (next_front _ p).
Qed.

Lemma next_char_is_char c n : is_char c = true -> next_char c = Some n -> is_char n = true.
Proof.
  rewrite !is_char_spec. unfold next_char, char_max.
  destruct (Z.eqb_spec (c + 1) 0xD800); [intros _ [= <-]; lia|].
  destruct (Z.ltb_spec 0x10FFFF (c + 1)); [done|]. intros ? [= <-]. lia.
Qed.

Lemma is_str_forall s : is_str s = true <-> Forall (fun c => is_char c = true) s.
Proof. unfold is_str. by rewrite forallb_forall, List.Forall_forall. Qed.

(** The loop finds the successor; its [unwrap]s and slice never fail. *)
Lemma string_prefix_loop_ok {E} l rest :
  is_str (rev l ++ rest) = true ->
  string_prefix_loop (E:=E) (as_bytes (rev l ++ rest)) l = Ok (rev (A:=Z) <$> next_rev next_char l).
Proof.
  revert rest. induction l as [|c l IH]; intros rest Hs; [done|]. cbn [string_prefix_loop next_rev rev] in *.
  rewrite <- app_assoc in *. cbn [app] in *.
  assert (is_str (rev l) = true /\ is_char c = true) as [Hl Hc].
  { rewrite is_str_forall in Hs |- *. apply List.Forall_app in Hs as [? Hs]. by inversion Hs. }
  destruct (next_char c) as [n|] eqn:Hn; [|by apply IH]. rewrite (next_char_is_char _ _ Hc Hn).
  pose proof (@slice_app E [] (as_bytes (rev l)) (as_bytes (c :: rest))) as Hslice.
  change (blen []) with 0 in Hslice. rewrite app_nil_l, Z.add_0_l in Hslice.
  rewrite as_bytes_app, Hslice. simpl.
  assert (as_bytes (rev l) ++ encode_char n = as_bytes (rev l ++ [n])) as ->.
  { rewrite as_bytes_app. simpl. by rewrite app_nil_r. }
  rewrite from_utf8_as_bytes; [done|]. rewrite is_str_forall in Hl |- *. apply List.Forall_app.
  split; [done|]. constructor; [|constructor]. by eapply next_char_is_char.
Qed.

Lemma string_prefix_range_eq {E} p :
  is_str p = true -> string_prefix_range (E:=E) p = Ok (prefix_range next_char p).
Proof.
  intros Hp. unfold string_prefix_range, prefix_range. pose proof (string_prefix_loop_ok (E:=E) (rev p) []) as Hl.
  rewrite rev_involutive, app_nil_r in Hl. rewrite Hl by done. simpl. rewrite next_rev_front.
  by destruct (next_front next_char p).
Qed.

(** ** Typed ranges over encoded keys *)

Section Typed.
Context (k : key_ty) `{KeyOrdered k}.

(** Bounds that can be encoded, and their values. *)
Definition bound_wf (b : Bound (k_type k)) : Prop :=
  match b with Unbounded => True | Included v => k_wf k v | Excluded v => k_wf k v end.
Definition range_wf (r : Range (k_type k)) : Prop := bound_wf (range_start r) /\ bound_wf (range_end r).
Definition query_wf (q : QueryKey (k_type k)) : Prop :=
  match q with Matches key => k_wf k key | InRange r => range_wf r | Multiple ks => Forall (k_wf k) ks end.

Lemma above_encoded b eb x ex :
  bound_wf b -> k_wf k x -> bound_as_ord_bytes k b = Ok eb -> as_ord_bytes k x = Ok ex ->
  above bytes_cmp eb ex = above (k_cmp k) b x.
Proof.
  destruct b as [|v|v]; simpl; intros Hb Hx He Hex; inv_res; [done|..]; simpl;
    by rewrite (key_ordered (k:=k) v x _ _ Hb Hx ltac:(eassumption) Hex).
Qed.
Lemma below_encoded b eb x ex :
  bound_wf b -> k_wf k x -> bound_as_ord_bytes k b = Ok eb -> as_ord_bytes k x = Ok ex ->
  below bytes_cmp eb ex = below (k_cmp k) b x.
Proof.
  destruct b as [|v|v]; simpl; intros Hb Hx He Hex; inv_res; [done|..]; simpl;
    by rewrite (key_ordered (k:=k) x v _ _ Hx Hb Hex ltac:(eassumption)).
Qed.
Lemma range_encoded r er x ex :
  range_wf r -> k_wf k x -> range_as_ord_bytes k r = Ok er -> as_ord_bytes k x = Ok ex ->
  range_contains bytes_cmp er ex = range_contains (k_cmp k) r x.
Proof.
  intros [Hs He] Hx Hr Hex. unfold range_as_ord_bytes in Hr. inv_res. unfold range_contains. simpl.
  f_equal; [by eapply above_encoded|by eapply below_encoded].
Qed.

(** For a key type whose encoding keeps the order, a serialized query
    selects exactly the encodings of the keys the typed query selects. *)
Theorem serialized_query_selects q sq x ex :
  query_wf q -> k_wf k x -> serialized k q = Ok sq -> as_ord_bytes k x = Ok ex ->
  selects bytes_cmp sq ex = selects (k_cmp k) q x.
Proof.
  destruct q as [key|r|ks]; simpl; intros Hq Hx He Hex; inv_res; simpl.
  - by rewrite (key_ordered (k:=k) x key _ _ Hx Hq Hex ltac:(eassumption)).
  - by eapply range_encoded.
  - rename x0 into es. match goal with Hc : collect _ _ = Ok _ |- _ => rename Hc into Hes end. revert es Hes.
    induction Hq as [|key ks Hk Hq IH]; simpl; intros es Hes; inv_res; [done|].
    simpl. rewrite (key_ordered (k:=k) x key _ _ Hx Hk Hex ltac:(eassumption)). f_equal. by apply IH.
Qed.
End Typed.

(** What reading a serialized query back yields: the end of a range is lost. *)
Definition end_replaced {K} (q : QueryKey K) : QueryKey K :=
  match q with InRange r => InRange (MkRange (range_start r) (range_start r)) | _ => q end.

Definition encodable (k : key_ty) (v : k_type k) : Prop :=
  k_wf k v /\ match as_ord_bytes k v with Ok bs => alloc_ok bs | _ => True end.
Definition query_encodable (k : key_ty) (q : QueryKey (k_type k)) : Prop :=
  match q with
  | Matches key => encodable k key
  | InRange r => match range_start r with Unbounded => True | Included v | Excluded v => encodable k v end
  | Multiple ks => Forall (encodable k) ks
  end.

Lemma decode_encodable k `{KeyRoundTrip k} v bs :
  encodable k v -> as_ord_bytes k v = Ok bs -> from_ord_bytes k (Borrowed bs) = Ok v.
Proof. intros [Hw Ha] He. rewrite He in Ha. by eapply key_roundtrip. Qed.

(** A query read back from its serialized form is the query, except that
    the end of a range is replaced by its start. *)
Theorem query_key_loses_range_end k `{KeyRoundTrip k} q sq :
  query_encodable k q -> serialized k q = Ok sq -> deserialized k sq = Ok (end_replaced q).
Proof.
  destruct q as [key|r|ks]; simpl; intros Hq He; inv_res; simpl.
  - by rewrite (decode_encodable k key).
  - unfold range_as_ord_bytes in *. inv_res. unfold range_deserialize. simpl.
    destruct (range_start r) as [|v|v]; simpl in *; inv_res; simpl; by rewrite ?(decode_encodable k v).
  - rename x into es. match goal with Hc : collect _ _ = Ok _ |- _ => rename Hc into Hes end.
    assert (collect (fun bs => from_ord_bytes k (Borrowed bs)) es = Ok ks) as ->; [|done]. revert es Hes.
    induction Hq as [|key ks Hk Hq IH]; simpl; intros es Hes; inv_res; [done|].
    simpl. rewrite (decode_encodable k key) by done. simpl. by rewrite IH.
Qed.

(** The range of a prefix contains exactly the values that start with
    it, for byte strings and for strings; computing it never panics. *)
Theorem prefix_range_exact p x :
  (bytes_ok p -> bytes_ok x ->
     range_contains bytes_cmp (bytes_prefix_range p) x = bool_decide (p `prefix_of` x)) /\
  (is_str p = true -> is_str x = true -> exists r, string_prefix_range (E:=KeyError) p = Ok r /\
     range_contains (k_cmp key_string) r x = bool_decide (p `prefix_of` x)).
Proof.
  split.
  - intros Hp Hx. rewrite bytes_prefix_range_eq. by apply (prefix_range_spec _ _ _ _ byte_successor).
  - intros Hp Hx. eexists. split; [by apply string_prefix_range_eq|].
    rewrite <- (prefix_range_spec _ _ _ _ char_successor) by (by apply is_str_forall).
    unfold range_contains, prefix_range. simpl. rewrite as_bytes_cmp by done. f_equal.
    destruct (next_front next_char p) as [e|] eqn:He; [|done]. simpl. rewrite as_bytes_cmp; [done..|].
    apply is_str_forall. apply is_str_forall in Hp. clear -He Hp. revert e He.
    induction Hp as [|c p Hc Hp IH]; intros e; cbn [next_front]; [done|].
    destruct (next_front next_char p) as [e'|]; [intros [= <-]; constructor; auto|].
    destruct (next_char c) as [n|] eqn:Hn; [|done]. intros [= <-]. repeat constructor.
    by eapply next_char_is_char.
Qed.

(** ** Witnesses *)

Lemma serialized_query_selects_witness :
  exists sq ex, serialized key_u16 (InRange (from_range 3 500)) = Ok sq /\ as_ord_bytes key_u16 499 = Ok ex /\
    selects bytes_cmp sq ex = true.
Proof.
  eexists _, _. split; [reflexivity|]. split; [reflexivity|].
  rewrite (serialized_query_selects key_u16 (InRange (from_range 3 500)) _ 499 _); [reflexivity|..|reflexivity|reflexivity].
  - split; reflexivity.
  - reflexivity.
Defined.

Lemma query_key_loses_range_end_witness :
  exists sq, serialized key_u16 (InRange (from_range 3 500)) = Ok sq /\
    deserialized key_u16 sq = Ok (InRange (MkRange (Included 3) (Included 3))).
Proof.
  eexists. split; [reflexivity|].
  apply (query_key_loses_range_end key_u16 (InRange (from_range 3 500))); [|reflexivity].
  split; [reflexivity|vm_compute; congruence].
Defined.

Lemma prefix_range_exact_witness :
  range_contains bytes_cmp (bytes_prefix_range [97; 255]) [97; 255; 0] = true /\
  range_contains bytes_cmp (bytes_prefix_range [97; 255]) [98] = false.
Proof.
  split.
  - rewrite (proj1 (prefix_range_exact [97; 255] [97; 255; 0]));
      [apply bool_decide_eq_true_2; by exists [0]|repeat constructor; lia..].
  - rewrite (proj1 (prefix_range_exact [97; 255] [98])); [|repeat constructor; lia..].
    apply bool_decide_eq_false_2. intros [? [=]].
Defined.
