(* ===== verification/Digits.v ===== *)
(** * Decimal numbers as text

    What [Display] and [FromStr] of Rust's integers do: decimal digits with an
    optional sign, zero padding ([{:03}]), and reading with the checks for
    overflow.  Characters are their code points. *)

From Stdlib Require Import ZArith Lia.
From stdpp Require Import base list option numbers.
From S2P Require Import Prelude.

Local Open Scope Z_scope.

(** ** Printing *)

(** The digits of [n], the last one first.  A number of [fuel] digits needs
    [fuel] rounds; [u128] has at most 39 digits. *)
Fixpoint digits_rev (fuel : nat) (n : Z) : list Z :=
  match fuel with
  | O => []
  | S fuel => if n <? 10 then [48 + n] else 48 + n `mod` 10 :: digits_rev fuel (n / 10)
  end.
Definition display_uint (n : Z) : list Z := rev (digits_rev 40 n).
Definition display_int (n : Z) : list Z := if n <? 0 then 45 :: display_uint (- n) else display_uint n.
(** [{:0width}] *)
Definition pad_zeros (width : nat) (s : list Z) : list Z := repeat 48 (width - length s) ++ s.

(** ** Reading *)

Definition to_digit (c : Z) : option Z := if (48 <=? c) && (c <=? 57) then Some (c - 48) else None.
Definition checked_mul (t : int_ty) (x y : Z) : option Z := try_from_int t (x * y).
Fixpoint parse_digits (t : int_ty) (acc : Z) (s : list Z) : option Z :=
  match s with
  | [] => Some acc
  | c :: s => d ← to_digit c; m ← checked_mul t acc 10; a ← checked_add t m d; parse_digits t a s
  end.
(** [str::parse] of an unsigned type: a plus sign may come first. *)
Definition parse_uint (t : int_ty) (s : list Z) : option Z :=
  match s with
  | [] => None
  | c :: rest =>
      if (c =? 43) && negb (bool_decide (rest = [])) then parse_digits t 0 rest else parse_digits t 0 s
  end.

(** ** Laws *)

Definition is_digit (c : Z) : Prop := 48 <= c <= 57.
Definition digits_value (acc : Z) (s : list Z) : Z := foldl (fun a c => a * 10 + (c - 48)) acc s.

Lemma to_digit_Some c : is_digit c -> to_digit c = Some (c - 48).
Proof. unfold is_digit, to_digit. intros. by rewrite !(proj2 (Z.leb_le _ _)) by lia. Qed.

Lemma digits_value_app acc s1 s2 : digits_value acc (s1 ++ s2) = digits_value (digits_value acc s1) s2.
Proof. apply foldl_app. Qed.

Lemma digits_value_ge acc s : Forall is_digit s -> 0 <= acc -> acc <= digits_value acc s.
Proof.
  intros Hs. revert acc. induction Hs as [|c s Hc Hs IH]; intros acc Ha; simpl; [lia|].
  unfold is_digit in Hc. specialize (IH (acc * 10 + (c - 48))). unfold digits_value in *. simpl. lia.
Qed.

Lemma parse_digits_ok t acc s :
  Forall is_digit s -> int_min t <= 0 <= acc -> digits_value acc s <= int_max t ->
  parse_digits t acc s = Some (digits_value acc s).
Proof.
  intros Hs. revert acc. induction Hs as [|c s Hc Hs IH]; intros acc Ha Hmax; [done|].
  cbn [parse_digits]. change (digits_value acc (c :: s)) with (digits_value (acc * 10 + (c - 48)) s) in *.
  unfold is_digit in Hc. pose proof (digits_value_ge (acc * 10 + (c - 48)) s Hs ltac:(lia)).
  rewrite to_digit_Some by done. simpl. unfold checked_mul, try_from_int.
  rewrite (proj2 (in_range_spec t (acc * 10))) by lia. simpl. unfold checked_add.
  rewrite (proj2 (in_range_spec t (acc * 10 + (c - 48)))) by lia. simpl. apply IH; lia.
Qed.

Lemma digits_rev_spec fuel n :
  0 <= n < 10 ^ Z.of_nat fuel ->
  Forall is_digit (digits_rev fuel n) /\ (fuel <> 0%nat -> digits_rev fuel n <> []) /\
  (length (digits_rev fuel n) <= fuel)%nat /\
  digits_value 0 (rev (digits_rev fuel n)) = n.
Proof.
  revert n. induction fuel as [|fuel IH]; intros n Hn.
  { change (10 ^ Z.of_nat 0) with 1 in Hn. simpl. split_and!; [constructor|done|lia|]. unfold digits_value. simpl. lia. }
  cbn [digits_rev]. destruct (Z.ltb_spec n 10).
  - split_and!; [constructor; [unfold is_digit; lia|constructor]|done|simpl; lia|]. unfold digits_value. simpl. lia.
  - rewrite Nat2Z.inj_succ, Z.pow_succ_r in Hn by lia. destruct (IH (n / 10)) as (Hd & Hne & Hlen & Hv).
    { split; [apply Z.div_pos; lia|]. apply Z.div_lt_upper_bound; lia. }
    pose proof (Z.mod_pos_bound n 10 ltac:(lia)). split_and!; [constructor; [unfold is_digit; lia|done]|done|simpl; lia|].
    cbn [rev]. rewrite digits_value_app, Hv. unfold digits_value. simpl.
    pose proof (Z.div_mod n 10 ltac:(lia)). lia.
Qed.

Lemma digits_rev_length fuel k n : 0 <= n < 10 ^ Z.of_nat k -> (k <= fuel)%nat -> (k <> 0)%nat -> (length (digits_rev fuel n) <= k)%nat.
Proof.
  revert k n. induction fuel as [|fuel IH]; intros k n Hn Hk Hk0; [simpl; lia|]. cbn [digits_rev].
  destruct (Z.ltb_spec n 10); [simpl; lia|]. destruct k as [|[|k]]; [done|change (10 ^ Z.of_nat 1) with 10 in Hn; lia|].
  rewrite Nat2Z.inj_succ, Z.pow_succ_r in Hn by lia. simpl. apply le_n_S, IH; [|lia|done].
  split; [apply Z.div_pos; lia|]. apply Z.div_lt_upper_bound; lia.
Qed.

Lemma display_uint_spec n :
  0 <= n < 10 ^ 40 ->
  Forall is_digit (display_uint n) /\ display_uint n <> [] /\ digits_value 0 (display_uint n) = n.
Proof.
  intros Hn. destruct (digits_rev_spec 40 n) as (Hd & Hne & _ & Hv); [exact Hn|]. unfold display_uint.
  split_and!; [by apply Forall_rev| |done]. intros He. apply Hne; [done|]. apply (f_equal (@rev Z)) in He.
  by rewrite rev_involutive in He.
Qed.

Lemma digits_value_zeros k s : digits_value 0 (repeat 48 k ++ s) = digits_value 0 s.
Proof. induction k as [|k IH]; [done|]. rewrite <- IH. done. Qed.

Lemma pad_zeros_spec width n :
  (width <= 40)%nat -> (width <> 0)%nat -> 0 <= n < 10 ^ Z.of_nat width ->
  Forall is_digit (pad_zeros width (display_uint n)) /\ length (pad_zeros width (display_uint n)) = width /\
  digits_value 0 (pad_zeros width (display_uint n)) = n.
Proof.
  intros Hw Hw0 Hn. assert (0 <= n < 10 ^ 40) as Hn'.
  { split; [lia|]. eapply Z.lt_le_trans; [apply Hn|]. apply Z.pow_le_mono_r; lia. }
  destruct (display_uint_spec n Hn') as (Hd & _ & Hv). unfold pad_zeros. split_and!.
  - apply Forall_app. split; [|done]. apply List.Forall_forall. intros c ->%repeat_spec.
    unfold is_digit. lia.
  - pose proof (digits_rev_length 40 width n Hn Hw Hw0). rewrite length_app, repeat_length. unfold display_uint.
    rewrite length_rev. lia.
  - by rewrite digits_value_zeros.
Qed.

Lemma parse_uint_digits t s :
  Forall is_digit s -> s <> [] -> int_min t <= 0 -> digits_value 0 s <= int_max t -> parse_uint t s = Some (digits_value 0 s).
Proof.
  intros Hs Hne Hmin Hmax. destruct s as [|c s]; [done|]. unfold parse_uint.
  assert (c =? 43 = false) as -> by (apply Z.eqb_neq; inversion Hs; subst; unfold is_digit in *; lia).
  simpl andb. cbv iota. apply parse_digits_ok; [done|lia|done].
Qed.

(** What is printed is read back. *)
Lemma parse_display_uint t n :
  int_min t <= 0 -> int_max t < 10 ^ 40 -> 0 <= n <= int_max t -> parse_uint t (display_uint n) = Some n.
Proof.
  intros Hmin Hmax Hn. destruct (display_uint_spec n) as (Hd & Hne & Hv); [lia|].
  rewrite parse_uint_digits by (done || lia). by rewrite Hv.
Qed.

Lemma u64_digits n : 0 <= n <= int_max u64 -> 0 <= n < 10 ^ 40.
Proof. intros [H0 Hn]. split; [done|]. eapply Z.le_lt_trans; [exact Hn|by vm_compute]. Qed.

Lemma parse_display_u64 n : 0 <= n <= int_max u64 -> parse_uint u64 (display_uint n) = Some n.
Proof. apply parse_display_uint; by vm_compute. Qed.
