(* ===== verification/VarInt.v ===== *)
(** * Integers encoded with variable length

    [bonsaidb-core/src/key/varint.rs], and the keys of [key.rs] for integers of
    the size of a pointer.  The encoding itself is the crate [ordered_varint]: a
    class of operations with the behaviour it documents.  Its values compare
    byte by byte like the integers. *)

From Stdlib Require Import ZArith Lia String.
From stdpp Require Import base list option numbers.
From S2P Require Import Prelude Bytes Key KeyLaws.

Local Open Scope Z_scope.

Class OrderedVarint := {
  encode_variable : int_ty -> Z -> res IoErrorKind bytes;
  decode_variable : int_ty -> bytes -> res IoErrorKind Z
}.

(** The types of Rust up to 128 bits.  The four highest bits of an encoded
    value hold its length: a value that needs them cannot be encoded. *)
Class OrderedVarintLaws (V : OrderedVarint) : Prop := {
  varint_bytes_ok t x bs : in_range t x = true -> encode_variable t x = Ok bs -> bytes_ok bs;
  varint_roundtrip t x bs : byte_multiple t -> in_range t x = true -> encode_variable t x = Ok bs -> decode_variable t bs = Ok x;
  varint_ordered t x y bx b_y :
    byte_multiple t -> in_range t x = true -> in_range t y = true ->
    encode_variable t x = Ok bx -> encode_variable t y = Ok b_y -> bytes_cmp bx b_y = (x ?= y);
  varint_encodable t x :
    byte_multiple t -> in_range t x = true -> - 2 ^ 120 <= x < 2 ^ 120 -> is_ok (encode_variable t x) = true
}.

Section VarInt.
Context `{OrderedVarint}.

(** [impl Key for VarInt<T>]. *)
Definition key_varint (t : int_ty) : key_ty := {|
  k_type := Z; k_wf x := in_range t x = true; k_cmp := Z.compare;
  LENGTH := None;
  describe := [visit_composite (KStruct "bonsaidb::core::key::VarInt") 1;
               visit_type (if int_signed t then KSigned else KUnsigned)];
  as_ord_bytes x := map_err IoError (encode_variable t x);
  CAN_OWN_BYTES := false;
  from_ord_bytes src := map_err IoError (decode_variable t (as_ref src));
  first_value := default_first_value; next_value := default_next_value |}.

(** [impl Key for isize] and [usize]: encoded with variable length too. *)
Definition key_size (t : int_ty) (kind : KeyKind) : key_ty := {|
  k_type := Z; k_wf x := in_range t x = true; k_cmp := Z.compare;
  LENGTH := None; describe := [visit_type kind];
  as_ord_bytes x := map_err IoError (encode_variable t x);
  CAN_OWN_BYTES := false;
  from_ord_bytes src := map_err IoError (decode_variable t (as_ref src));
  first_value := Ok 0;
  next_value x := ok_or WouldWrap (checked_add t x 1) |}.
Definition key_isize := key_size isize KSigned.
Definition key_usize := key_size usize KUnsigned.

(** [impl Key for NonZeroIsize] and [NonZeroUsize]. *)
Definition nonzero_decode (t : int_ty) (src : ByteSource) : res KeyError Z :=
  possibly_zero ← map_err IoError (decode_variable t (as_ref src));
  ok_or (IoErrorWith InvalidData NonZeroValueIsZero) (nonzero_new possibly_zero).
Definition key_nonzero_isize : key_ty := {|
  k_type := Z; k_wf x := in_range isize x = true /\ x <> 0; k_cmp := Z.compare;
  LENGTH := None; describe := [visit_type KSigned];
  as_ord_bytes x := map_err IoError (encode_variable isize x);
  CAN_OWN_BYTES := false;
  from_ord_bytes := nonzero_decode isize;
  first_value := nonzero_first_value;
  next_value x :=
    next ← ok_or WouldWrap (checked_add isize x 1);
    match nonzero_new next with Some z => Ok z | None => nonzero_first_value end |}.
(** [NonZeroUsize::checked_add] is never zero. *)
Definition key_nonzero_usize : key_ty := {|
  k_type := Z; k_wf x := in_range usize x = true /\ x <> 0; k_cmp := Z.compare;
  LENGTH := None; describe := [visit_type KUnsigned];
  as_ord_bytes x := map_err IoError (encode_variable usize x);
  CAN_OWN_BYTES := false;
  from_ord_bytes := nonzero_decode usize;
  first_value := nonzero_first_value;
  next_value x := ok_or WouldWrap (checked_add usize x 1) |}.

Context `{!OrderedVarintLaws _}.

#[export] Instance key_varint_roundtrip t : byte_multiple t -> KeyRoundTrip (key_varint t).
Proof.
  intros Ht. split; cbn [k_wf as_ord_bytes from_ord_bytes key_varint].
  - intros x bs Hx Hb. inv_res. by eapply varint_bytes_ok.
  - intros x bs src Hx Hb _ Hs. inv_res. subst bs. by erewrite varint_roundtrip.
Qed.

#[export] Instance key_varint_ordered t : byte_multiple t -> KeyOrdered (key_varint t).
Proof.
  intros Ht x y bx b_y. cbn [k_wf as_ord_bytes k_cmp key_varint]. intros. inv_res. by eapply varint_ordered.
Qed.

#[export] Instance key_size_roundtrip t kind : byte_multiple t -> KeyRoundTrip (key_size t kind).
Proof.
  intros Ht. split; cbn [k_wf as_ord_bytes from_ord_bytes key_size].
  - intros x bs Hx Hb. inv_res. by eapply varint_bytes_ok.
  - intros x bs src Hx Hb _ Hs. inv_res. subst bs. by erewrite varint_roundtrip.
Qed.
#[export] Instance key_size_ordered t kind : byte_multiple t -> KeyOrdered (key_size t kind).
Proof.
  intros Ht x y bx b_y. cbn [k_wf as_ord_bytes k_cmp key_size]. intros. inv_res. by eapply varint_ordered.
Qed.
Lemma byte_multiple_isize : byte_multiple isize. Proof. by split. Qed.
Lemma byte_multiple_usize : byte_multiple usize. Proof. by split. Qed.

Lemma nonzero_decode_ok t x bs src :
  byte_multiple t -> in_range t x = true -> x <> 0 -> map_err IoError (encode_variable t x) = Ok bs -> as_ref src = bs ->
  nonzero_decode t src = Ok x.
Proof.
  intros Ht Hx Hz Hb Hs. inv_res. subst bs. unfold nonzero_decode. erewrite varint_roundtrip by done.
  cbn [map_err mbind res_bind]. by rewrite nonzero_new_id.
Qed.
#[export] Instance key_nonzero_isize_roundtrip : KeyRoundTrip key_nonzero_isize.
Proof.
  split; cbn [k_wf as_ord_bytes from_ord_bytes key_nonzero_isize].
  - intros x bs [Hx _] Hb. inv_res. by eapply varint_bytes_ok.
  - intros x bs src [Hx Hz] Hb _ Hs. by eapply nonzero_decode_ok; [apply byte_multiple_isize|..].
Qed.
#[export] Instance key_nonzero_usize_roundtrip : KeyRoundTrip key_nonzero_usize.
Proof.
  split; cbn [k_wf as_ord_bytes from_ord_bytes key_nonzero_usize].
  - intros x bs [Hx _] Hb. inv_res. by eapply varint_bytes_ok.
  - intros x bs src [Hx Hz] Hb _ Hs. by eapply nonzero_decode_ok; [apply byte_multiple_usize|..].
Qed.
(** The values generated for ids increase and are never zero. *)
#[export] Instance key_nonzero_usize_sequence : KeySequence key_nonzero_usize.
Proof.
  intros x y. cbn [k_wf k_cmp next_value key_nonzero_usize]. intros [Hx Hz] Hy. unfold checked_add in Hy.
  destruct (in_range usize (x + 1)) eqn:Hr; [|done]. injection Hy as <-. apply in_range_spec in Hx. change (int_min usize) with 0 in Hx.
  split; [split; [done|lia]|]. apply Z.compare_lt_iff. lia.
Qed.
End VarInt.

(** ** A model of the laws: big-endian integers counted from the least one *)

Module FixedVarint.
Definition biased (t : int_ty) : int_ty := IntTy false (int_bits t).
#[export] Instance fixed_varint : OrderedVarint := {|
  encode_variable t x := Ok (to_be_bytes (biased t) (x - int_min t));
  decode_variable t bs := Ok (from_be_bytes (biased t) bs + int_min t) |}.

Lemma biased_range t x : in_range t x = true -> in_range (biased t) (x - int_min t) = true.
Proof.
  rewrite !in_range_spec. unfold int_min, int_max, biased. simpl. destruct (int_signed t); [|lia].
  destruct (Z.leb_spec (int_bits t) 0) as [Hb|Hb].
  - rewrite (Z.pow_neg_r 2 (int_bits t - 1)) by lia. lia.
  - pose proof (pow2_half _ Hb). lia.
Qed.

#[export] Instance fixed_varint_laws : OrderedVarintLaws fixed_varint.
Proof.
  split; simpl.
  - intros t x bs _ [= <-]. apply to_be_ok.
  - intros t x bs Ht Hx [= <-]. rewrite from_to_be_bytes; [f_equal; lia|done|by apply biased_range].
  - intros t x y bx b_y Ht Hx Hy [= <-] [= <-]. rewrite to_be_bytes_cmp; [|done|done|by apply biased_range..].
    destruct (Z.compare_spec x y); [apply Z.compare_eq_iff|apply Z.compare_lt_iff|apply Z.compare_gt_iff]; lia.
  - done.
Qed.
End FixedVarint.
