(* ===== verification/DerivedKeys.v ===== *)
(** * Keys derived for structs and enums

    The implementations of [Key] and [KeyEncoding] that [derive(Key)] of
    [bonsaidb-macros] generates: structs as composites of their fields, a
    struct of one field as that field, and enums as their discriminant followed
    by the fields of the variant.  They round-trip, they keep the order of the
    values, and whether a derived key can be described is decided. *)

From Stdlib Require Import ZArith Lia String.
From stdpp Require Import base list option numbers gmap strings.
From S2P Require Import Prelude Bytes Utf8 Key KeyLaws CompositeKey CompositeKeyLaws KeyTheorems VarInt.

Local Open Scope Z_scope.

(** The fields of a struct or of a variant. *)
Inductive Fields := FieldsUnit | FieldsOf (ks : list key_ty).
Definition field_keys (f : Fields) : list key_ty := match f with FieldsUnit => [] | FieldsOf ks => ks end.
Definition is_unit (f : Fields) : bool := match f with FieldsUnit => true | FieldsOf _ => false end.

(** ** Structs *)

Definition key_unit_struct : key_ty := {|
  k_type := unit; k_wf _ := True; k_cmp _ _ := Eq;
  LENGTH := Some 0; describe := [visit_type KUnit];
  as_ord_bytes _ := Ok [];
  CAN_OWN_BYTES := false;
  from_ord_bytes _ := Ok tt;
  first_value := default_first_value; next_value := default_next_value |}.

(** A struct of one field is encoded as the field; it has no first and no next
    value, even when its field has. *)
Definition key_newtype (k : key_ty) : key_ty := {|
  k_type := k_type k; k_wf := k_wf k; k_cmp := k_cmp k;
  LENGTH := LENGTH k; describe := describe k;
  as_ord_bytes := as_ord_bytes k;
  CAN_OWN_BYTES := CAN_OWN_BYTES k;
  from_ord_bytes := from_ord_bytes k;
  first_value := default_first_value; next_value := default_next_value |}.

Section Derived.
Context `{Profile}.

Definition key_struct (name : string) (nh : NullHandling) (can_own_bytes : bool) (ks : list key_ty) : key_ty := {|
  k_type := tuple_type ks; k_wf := tuple_wf ks; k_cmp := tuple_cmp ks;
  LENGTH := None;
  describe := visit_composite (KStruct name) (List.length ks) :: concat (map describe ks);
  as_ord_bytes := composite_as_ord_bytes nh ks;
  CAN_OWN_BYTES := can_own_bytes;
  from_ord_bytes := composite_from_ord_bytes nh ks;
  first_value := default_first_value; next_value := default_next_value |}.

(** [derive(Key)] for a struct. *)
Definition derive_struct (name : string) (nh : NullHandling) (can_own_bytes : bool) (f : Fields) : key_ty :=
  match f with
  | FieldsUnit => key_unit_struct
  | FieldsOf [k] => key_newtype k
  | FieldsOf ks => key_struct name nh can_own_bytes ks
  end.

(** ** Enums *)

(** The type of the discriminant, given by [repr] or [enum_repr]: an integer of
    fixed width, or [isize] or [usize] (the default is [isize]). *)
Context `{OrderedVarint}.
Inductive EnumRepr := ReprInt (t : int_ty) (kind : KeyKind) | ReprSize (t : int_ty) (kind : KeyKind).
Definition repr_int (r : EnumRepr) : int_ty := match r with ReprInt t _ | ReprSize t _ => t end.
Definition key_repr (r : EnumRepr) : key_ty := {|
  k_type := Z; k_wf x := in_range (repr_int r) x = true; k_cmp := Z.compare;
  LENGTH := match r with ReprInt t kind => LENGTH (key_primitive t kind) | ReprSize t kind => LENGTH (key_size t kind) end;
  describe := match r with ReprInt t kind => describe (key_primitive t kind) | ReprSize t kind => describe (key_size t kind) end;
  as_ord_bytes := match r with ReprInt t kind => as_ord_bytes (key_primitive t kind) | ReprSize t kind => as_ord_bytes (key_size t kind) end;
  CAN_OWN_BYTES := false;
  from_ord_bytes := match r with ReprInt t kind => from_ord_bytes (key_primitive t kind) | ReprSize t kind => from_ord_bytes (key_size t kind) end;
  first_value := Ok 0;
  next_value x := ok_or WouldWrap (checked_add (repr_int r) x 1) |}.

(** The constants of the discriminants: as declared, or one more than the one
    before. *)
Fixpoint discriminants (prev : option Z) (declared : list (option Z)) : list Z :=
  match declared with
  | [] => []
  | d :: declared =>
      let x := match d, prev with Some x, _ => x | None, Some p => p + 1 | None, None => 0 end in
      x :: discriminants (Some x) declared
  end.

(** A value is a variant with its fields. *)
Abbreviation Variant := (Z * Fields)%type.
Fixpoint enum_type (vs : list Variant) : Type :=
  match vs with [] => Empty_set | v :: vs => (tuple_type (field_keys v.2) + enum_type vs)%type end.
Fixpoint enum_wf (vs : list Variant) : enum_type vs -> Prop :=
  match vs with
  | [] => fun _ => True
  | v :: vs => fun x => match x with inl fields => tuple_wf (field_keys v.2) fields | inr x => enum_wf vs x end
  end.
Fixpoint discriminant (vs : list Variant) : enum_type vs -> Z :=
  match vs with
  | [] => fun _ => 0
  | v :: vs => fun x => match x with inl _ => v.1 | inr x => discriminant vs x end
  end.
(** Values of an enum are ordered by their discriminants, then by the fields. *)
Fixpoint enum_cmp (vs : list Variant) : enum_type vs -> enum_type vs -> comparison :=
  match vs with
  | [] => fun _ _ => Eq
  | v :: vs => fun x y =>
      match x, y with
      | inl a, inl b => tuple_cmp (field_keys v.2) a b
      | inl _, inr y => v.1 ?= discriminant vs y
      | inr x, inl _ => discriminant vs x ?= v.1
      | inr x, inr y => enum_cmp vs x y
      end
  end.

(** *** Enums whose variants are all empty: plain integers *)

Fixpoint plain_decode (vs : list Variant) (d : Z) : res KeyError (enum_type vs) :=
  match vs with
  | [] => Err (CompositeKeyError (IoError InvalidData))
  | v :: vs =>
      if d =? v.1
      then match field_keys v.2 as ks return res KeyError (tuple_type ks + enum_type vs) with [] => Ok (inl tt) | _ :: _ => Panic end
      else inr <$> plain_decode vs d
  end.
Definition key_enum_plain (repr : EnumRepr) (vs : list Variant) : key_ty := {|
  k_type := enum_type vs; k_wf := enum_wf vs; k_cmp := enum_cmp vs;
  LENGTH := LENGTH (key_repr repr);
  describe := describe (key_repr repr);
  as_ord_bytes x := map_err CompositeKeyError (as_ord_bytes (key_repr repr) (discriminant vs x));
  CAN_OWN_BYTES := false;
  from_ord_bytes src := d ← map_err CompositeKeyError (from_ord_bytes (key_repr repr) src); plain_decode vs d;
  first_value := default_first_value; next_value := default_next_value |}.

(** *** Enums with fields *)

Fixpoint encode_variant (repr : EnumRepr) (vs : list Variant) : enum_type vs -> CompositeKeyEncoder -> res KeyError CompositeKeyEncoder :=
  match vs with
  | [] => fun x => match x with end
  | v :: vs => fun x enc =>
      match x with
      | inl fields => enc ← encode (key_repr repr) v.1 enc; encode_fields (field_keys v.2) fields enc
      | inr x => encode_variant repr vs x enc
      end
  end.
Fixpoint decode_variant (d : Z) (vs : list Variant) (dec : CompositeKeyDecoder) : res KeyError (enum_type vs * CompositeKeyDecoder) :=
  match vs with
  | [] => Err (CompositeKeyError (IoError InvalidData))
  | v :: vs =>
      if d =? v.1 then '(fields, dec) ← decode_fields (field_keys v.2) dec; Ok (inl fields, dec)
      else '(x, dec) ← decode_variant d vs dec; Ok (inr x, dec)
  end.
(** What a variant reports: a unit, or each of its fields. *)
Definition describe_variant (v : Variant) : list (list visit) :=
  match v.2 with FieldsUnit => [[visit_type KUnit]] | FieldsOf ks => map describe ks end.

Definition key_enum_composite (nh : NullHandling) (can_own_bytes : bool) (repr : EnumRepr) (vs : list Variant) : key_ty := {|
  k_type := enum_type vs; k_wf := enum_wf vs; k_cmp := enum_cmp vs;
  LENGTH := None;
  describe := visit_composite KTuple (List.length vs) :: concat (concat (map describe_variant vs));
  as_ord_bytes x := enc ← encode_variant repr vs x (encoder_new nh); Ok (encoder_finish enc);
  CAN_OWN_BYTES := can_own_bytes;
  from_ord_bytes src :=
    let (dec, d) := decode (key_repr repr) (decoder_new nh src) in
    d ← d;
    '(x, dec) ← decode_variant d vs dec;
    _ ← decoder_finish dec;
    Ok x;
  first_value := default_first_value; next_value := default_next_value |}.

(** [derive(Key)] for an enum.  One whose variants are all empty but not all
    unit variants does not compile. *)
Definition derive_enum (nh : NullHandling) (can_own_bytes : bool) (repr : EnumRepr) (vs : list Variant) : key_ty :=
  if forallb (fun v => is_unit v.2) vs then key_enum_plain repr vs else key_enum_composite nh can_own_bytes repr vs.
End Derived.

(** ** Discriminants *)

Lemma discriminants_length prev declared : List.length (discriminants prev declared) = List.length declared.
Proof. revert prev. induction declared as [|d declared IH]; intros prev; [done|]. cbn. by rewrite IH. Qed.
(** Without declared values the variants are counted from zero. *)
Lemma discriminants_counted prev n :
  discriminants prev (replicate n None) = seqZ (match prev with Some p => p + 1 | None => 0 end) (Z.of_nat n).
Proof.
  revert prev. induction n as [|n IH]; intros prev; [done|]. cbn [replicate discriminants].
  rewrite IH, Nat2Z.inj_succ, (seqZ_cons _ (Z.succ _)), Z.pred_succ by lia. by destruct prev; rewrite <- ?Z.add_1_r.
Qed.

Section Laws.
Context `{Profile} `{!OrderedVarint} `{!OrderedVarintLaws _}.

(** ** The type of the discriminant *)

Lemma key_repr_field r : byte_multiple (repr_int r) -> CompositeField (key_repr r).
Proof.
  intros Hr. split.
  - destruct r as [t kind|t kind]; [pose proof (key_primitive_roundtrip t kind Hr) as [Hb Hd]|pose proof (key_size_roundtrip t kind Hr) as [Hb Hd]];
      split; [exact Hb|exact Hd|exact Hb|exact Hd].
  - destruct r as [t kind|t kind]; [exact (key_primitive_fixed t kind)|by intros n x bs].
Qed.
(** Integers of fixed width are ordered when they are unsigned. *)
Definition repr_ordered (r : EnumRepr) : Prop :=
  byte_multiple (repr_int r) /\ match r with ReprInt t _ => int_signed t = false | ReprSize _ _ => True end.
Lemma key_repr_ordered r : repr_ordered r -> OrderedField (key_repr r).
Proof.
  intros [Hr Hs]. split; [by apply key_repr_field|].
  destruct r as [t kind|t kind]; [exact (key_primitive_ordered t kind Hr Hs)|exact (key_size_ordered t kind Hr)].
Qed.

(** ** Structs *)

#[export] Instance key_unit_struct_field : CompositeField key_unit_struct.
Proof.
  split; [split|]; cbn.
  - intros x bs _ [= <-]. constructor.
  - by intros [] bs src.
  - by intros n x bs [= <-] _ [= <-].
Qed.
Lemma key_newtype_field k : CompositeField k -> CompositeField (key_newtype k).
Proof. intros [[Hb Hr] Hl]. split; [split; [exact Hb|exact Hr]|exact Hl]. Qed.
Lemma key_newtype_ordered k : OrderedField k -> OrderedField (key_newtype k).
Proof. intros [Hk Ho]. split; [by apply key_newtype_field|exact Ho]. Qed.

Lemma composite_bytes_ok nh ks v bs :
  Forall CompositeField ks -> tuple_wf ks v -> composite_as_ord_bytes nh ks v = Ok bs -> bytes_ok bs.
Proof.
  intros Hks Hv (body & lens & Hl & ->)%composite_layout. destruct (layout_ok _ _ _ _ _ Hks Hv Hl).
  apply Forall_app. split; [done|by apply trailer_ok].
Qed.
Lemma key_struct_field name nh own ks : Forall CompositeField ks -> CompositeField (key_struct name nh own ks).
Proof.
  intros Hks. split; [split|]; cbn.
  - intros x bs. by apply composite_bytes_ok.
  - intros x bs src. by apply composite_roundtrip.
  - done.
Qed.

(** ** Enums: what a value is encoded as *)

Lemma encode_variant_fields repr vs x enc :
  exists (v : Z * Fields) (fields : tuple_type (field_keys v.2)),
    v ∈ vs /\ v.1 = discriminant vs x /\ (enum_wf vs x -> tuple_wf (field_keys v.2) fields) /\
    encode_variant repr vs x enc = encode_fields (key_repr repr :: field_keys v.2) (v.1, fields) enc /\
    (NoDup vs.*1 -> forall dec dec', decode_fields (field_keys v.2) dec = Ok (fields, dec') -> decode_variant v.1 vs dec = Ok (x, dec')).
Proof.
  induction vs as [|v vs IH]; [done|]. destruct x as [fields|x].
  - exists v, fields. split_and!; [left|done|done|done|]. intros _ dec dec' Hd. cbn [decode_variant]. by rewrite Z.eqb_refl, Hd.
  - destruct (IH x) as (w & fields & Hw & Hd & Hwf & He & Hdec). exists w, fields. split_and!; [by right|done|done|done|].
    intros [Hv Hnd]%NoDup_cons dec dec' Hf. cbn [decode_variant]. rewrite (proj2 (Z.eqb_neq _ _)), (Hdec Hnd dec dec' Hf); [done|].
    intros Heq. apply Hv. rewrite <- Heq. by apply list_elem_of_fmap_2.
Qed.

Record enum_ok (repr : EnumRepr) (vs : list (Z * Fields)) : Prop := {
  eo_repr : byte_multiple (repr_int repr);
  eo_range d : d ∈ vs.*1 -> in_range (repr_int repr) d = true;
  eo_distinct : NoDup vs.*1;
  eo_fields v : v ∈ vs -> Forall CompositeField (field_keys v.2)
}.

Lemma variant_keys repr vs v : enum_ok repr vs -> v ∈ vs -> Forall CompositeField (key_repr repr :: field_keys v.2).
Proof. intros [Hr _ _ Hf] Hv. constructor; [by apply key_repr_field|by apply Hf]. Qed.

Lemma key_enum_composite_field nh own repr vs : enum_ok repr vs -> CompositeField (key_enum_composite nh own repr vs).
Proof.
  intros Hok. split; [split|done]; cbn [k_type k_wf as_ord_bytes from_ord_bytes key_enum_composite].
  - intros x bs Hx Hb. destruct (encode_variant_fields repr vs x (encoder_new nh)) as (v & fields & Hv & Hd & Hwf & He & _). rewrite He in Hb.
    apply (composite_bytes_ok nh (key_repr repr :: field_keys v.2) (v.1, fields)); [by apply (variant_keys repr vs)| |exact Hb].
    split; [|by apply Hwf]. change (in_range (repr_int repr) v.1 = true). by apply (eo_range _ _ Hok), list_elem_of_fmap_2.
  - intros x bs src Hx Hb Ha Hs. destruct (encode_variant_fields repr vs x (encoder_new nh)) as (v & fields & Hv & Hd & Hwf & He & Hdec). rewrite He in Hb.
    assert (composite_from_ord_bytes nh (key_repr repr :: field_keys v.2) src = Ok (v.1, fields)) as Hr.
    { apply (composite_roundtrip nh (key_repr repr :: field_keys v.2) (v.1, fields) bs); [by apply (variant_keys repr vs)| |done..].
      split; [|by apply Hwf]. change (in_range (repr_int repr) v.1 = true). by apply (eo_range _ _ Hok), list_elem_of_fmap_2. }
    revert Hr. unfold composite_from_ord_bytes. cbn [decode_fields]. destruct (decode (key_repr repr) (decoder_new nh src)) as [dec [d|e|]]; [|done..].
    cbn [mbind res_bind]. destruct (decode_fields (field_keys v.2) dec) as [[fields' dec']|e|] eqn:Hf; [|done..]. cbn [mbind res_bind].
    destruct (decoder_finish dec') as [[]|e|] eqn:Hfin; [|done..]. intros [= -> ->]. rewrite (Hdec (eo_distinct _ _ Hok) _ _ Hf).
    cbn [mbind res_bind]. by rewrite Hfin.
Qed.

(** *** Plain enums *)

Lemma plain_decode_discriminant vs x :
  forallb (fun v => is_unit v.2) vs = true -> NoDup vs.*1 -> plain_decode vs (discriminant vs x) = Ok x.
Proof.
  induction vs as [|[d f] vs IH]; [done|]. cbn [forallb]. rewrite andb_true_iff. intros [Hu Hus] [Hd Hnd]%NoDup_cons.
  destruct f as [|ks]; [|done]. destruct x as [[]|x]; cbn [plain_decode discriminant fst snd field_keys]; [by rewrite Z.eqb_refl|].
  rewrite (proj2 (Z.eqb_neq _ _)), (IH x Hus Hnd); [done|]. intros Heq. apply Hd. rewrite <- Heq. clear.
  revert x. induction vs as [|v vs IH]; intros x; [by destruct x|]. destruct x as [fields|x]; [left|right; apply IH].
Qed.
Lemma discriminant_elem vs x : discriminant vs x ∈ vs.*1.
Proof. revert x. induction vs as [|v vs IH]; intros x; [by destruct x|]. destruct x as [fields|x]; [left|right; apply IH]. Qed.

Lemma key_enum_plain_field repr vs :
  forallb (fun v => is_unit v.2) vs = true -> enum_ok repr vs -> CompositeField (key_enum_plain repr vs).
Proof.
  intros Hu Hok. destruct (key_repr_field repr (eo_repr _ _ Hok)) as [[Hbytes Hround] Hfix].
  assert (forall x, k_wf (key_repr repr) (discriminant vs x)) as Hwf by (intros x; apply (eo_range _ _ Hok), discriminant_elem).
  split; [split|]; cbn [k_type k_wf as_ord_bytes from_ord_bytes LENGTH key_enum_plain].
  - intros x bs _ Hb. inv_res. by eapply Hbytes.
  - intros x bs src _ Hb Ha Hs. inv_res. erewrite Hround by done. cbn [map_err mbind res_bind].
    apply plain_decode_discriminant; [done|apply Hok].
  - intros n x bs Hn _ Hb. cbn [as_ord_bytes key_enum_plain] in Hb. inv_res. by eapply Hfix.
Qed.

(** ** Derived keys keep the contract of keys *)

(** C25: A key derived for an enum keeps the contract of keys, for every choice of
    the null handling and of the type of the discriminant: what a value is
    encoded as is decoded to that value, and is of fixed length if it says so.
    The discriminants are distinct and in range, and the fields keep the
    contract. *)
Theorem derived_enum_roundtrip nh own repr vs : enum_ok repr vs -> CompositeField (derive_enum nh own repr vs).
Proof.
  intros Hok. unfold derive_enum. destruct (forallb _ vs) eqn:Hu; [by apply key_enum_plain_field|by apply key_enum_composite_field].
Qed.

Lemma derive_struct_field name nh own f : Forall CompositeField (field_keys f) -> CompositeField (derive_struct name nh own f).
Proof.
  intros Hks. destruct f as [|[|k [|k' ks]]]; cbn [derive_struct field_keys] in *; [apply key_unit_struct_field|by apply key_struct_field| |by apply key_struct_field].
  apply key_newtype_field. by inversion Hks.
Qed.

(** ** Order *)

(** Equal variants compare by their fields, others by their discriminants. *)
Lemma encode_variants_cmp vs x y (Hnd : NoDup vs.*1) :
  (exists (v : Z * Fields) (a b : tuple_type (field_keys v.2)), v ∈ vs /\
     v.1 = discriminant vs x /\ v.1 = discriminant vs y /\ enum_cmp vs x y = tuple_cmp (field_keys v.2) a b /\
     (enum_wf vs x -> tuple_wf (field_keys v.2) a) /\ (enum_wf vs y -> tuple_wf (field_keys v.2) b) /\
     (forall repr enc, encode_variant repr vs x enc = encode_fields (key_repr repr :: field_keys v.2) (v.1, a) enc) /\
     (forall repr enc, encode_variant repr vs y enc = encode_fields (key_repr repr :: field_keys v.2) (v.1, b) enc)) \/
  (discriminant vs x <> discriminant vs y /\ enum_cmp vs x y = (discriminant vs x ?= discriminant vs y)).
Proof.
  induction vs as [|v vs IH]; [by destruct x|]. apply NoDup_cons in Hnd as [Hv Hnd].
  assert (forall z, v.1 <> discriminant vs z) as Hne by (intros z Hz; apply Hv; rewrite Hz; apply discriminant_elem).
  destruct x as [a|x], y as [b|y]; cbn [discriminant enum_cmp].
  - left. exists v, a, b. split_and!; [left|done..].
  - right. by split; [apply Hne|].
  - right. split; [|done]. intros Hz. by apply (Hne x).
  - destruct (IH x y Hnd) as [(w & a & b & Hw & Hrest)|Hrest]; [left|by right]. exists w, a, b. split; [by right|exact Hrest].
Qed.

(** The first field decides when it differs. *)
Lemma first_field_cmp nh k `{OrderedField k} ks ls (v w : k_type k) a b bv bw :
  k_wf k v -> k_wf k w -> k_cmp k v w <> Eq ->
  composite_as_ord_bytes nh (k :: ks) (v, a) = Ok bv -> composite_as_ord_bytes nh (k :: ls) (w, b) = Ok bw ->
  (LENGTH k = None -> forall x y, as_ord_bytes k v = Ok x -> as_ord_bytes k w = Ok y -> null_separated x y) ->
  bytes_cmp bv bw = k_cmp k v w.
Proof.
  intros Hv Hw Hne (body & lens & (c & body1 & lens1 & Hc & _ & -> & _) & ->)%composite_layout
    (body2 & lens2 & (d & body3 & lens3 & Hd & _ & -> & _) & ->)%composite_layout Hs.
  rewrite <- !app_assoc. destruct (field_cmp nh k v w c d (body1 ++ trailer lens) (body3 ++ trailer lens2) Hv Hw Hc Hd Hs) as [-> _].
  by destruct (k_cmp k v w).
Qed.
Lemma denied_separated k (v : k_type k) x ks a bs :
  LENGTH k = None -> composite_as_ord_bytes DenyNullBytes (k :: ks) (v, a) = Ok bs -> as_ord_bytes k v = Ok x ->
  existsb (fun b => b =? 0) x = false.
Proof.
  intros HL (body & lens & (c & body1 & lens1 & (raw & Hraw & Hc) & _) & _)%composite_layout Hx. cbn [fst] in Hraw. rewrite HL in Hc.
  assert (raw = x) as -> by congruence. destruct Hc as [Hc _]. simpl in Hc. by destruct (existsb _ x).
Qed.

(** A derived enum that denies null bytes is ordered by its encoding as its
    values are: by the discriminants, then by the fields of the variant. *)
Theorem derived_enum_ordered own repr vs :
  repr_ordered repr -> enum_ok repr vs -> (forall v, v ∈ vs -> Forall OrderedField (field_keys v.2)) ->
  KeyOrdered (key_enum_composite DenyNullBytes own repr vs).
Proof.
  intros Hro Hok Hfields x y bx b_y. cbn [k_type k_wf k_cmp as_ord_bytes key_enum_composite]. intros Hx Hy Hbx Hby.
  pose proof (key_repr_ordered repr Hro) as Hrepr.
  destruct (encode_variants_cmp vs x y (eo_distinct _ _ Hok)) as [(v & a & b & Hv & _ & _ & -> & Ha & Hb & Hea & Heb)|[Hne ->]].
  - rewrite Hea in Hbx. rewrite Heb in Hby.
    assert (Forall OrderedField (key_repr repr :: field_keys v.2)) as Hks by (constructor; [done|by apply Hfields]).
    assert (in_range (repr_int repr) v.1 = true) as Hr by (by apply (eo_range _ _ Hok), list_elem_of_fmap_2).
    rewrite (composite_order DenyNullBytes (key_repr repr :: field_keys v.2) (v.1, a) (v.1, b) bx b_y Hks (conj Hr (Ha Hx)) (conj Hr (Hb Hy)) Hbx Hby).
    + cbn [tuple_cmp fst snd]. cbn [k_cmp key_repr]. by rewrite Z.compare_refl.
    + pose proof Hbx as (b1 & l1 & H1 & _)%(composite_layout DenyNullBytes (key_repr repr :: field_keys v.2) (v.1, a)).
      pose proof Hby as (b2 & l2 & H2 & _)%(composite_layout DenyNullBytes (key_repr repr :: field_keys v.2) (v.1, b)).
      by eapply layout_deny_separated.
  - destruct (encode_variant_fields repr vs x (encoder_new DenyNullBytes)) as (v & a & Hv & Hdx & _ & Hea & _).
    destruct (encode_variant_fields repr vs y (encoder_new DenyNullBytes)) as (w & b & Hw & Hdy & _ & Heb & _). rewrite Hea in Hbx. rewrite Heb in Hby.
    rewrite <- Hdx, <- Hdy in *.
    apply (first_field_cmp DenyNullBytes (key_repr repr) (field_keys v.2) (field_keys w.2) v.1 w.1 a b bx b_y); [| | |exact Hbx|exact Hby|].
    + by apply (eo_range _ _ Hok), list_elem_of_fmap_2.
    + by apply (eo_range _ _ Hok), list_elem_of_fmap_2.
    + cbn [k_cmp key_repr]. by rewrite Z.compare_eq_iff.
    + intros HL p q Hp Hq. apply null_free_separated;
        [by apply (denied_separated (key_repr repr) v.1 p (field_keys v.2) a bx)|by apply (denied_separated (key_repr repr) w.1 q (field_keys w.2) b b_y)].
Qed.
End Laws.

(** ** Descriptions *)

Lemma key_newtype_described k d : Described k d -> Described (key_newtype k) d.
Proof. done. Qed.
#[export] Instance key_unit_struct_described : Described key_unit_struct (Basic KUnit).
Proof. apply records_type. Qed.

Lemma records_map ks ds : Forall2 Described ks ds -> Forall2 records (map describe ks) ds.
Proof. induction 1; by constructor. Qed.
Lemma key_tuple_described `{Profile} ks ds : ks <> [] -> Forall2 Described ks ds -> Described (key_tuple ks) (composite_of KTuple ds).
Proof.
  intros Hne Hks. pose proof (records_plain KTuple (map describe ks) ds ltac:(by destruct ks) (records_map _ _ Hks)) as Hr.
  by rewrite length_map in Hr.
Qed.
Lemma key_struct_described `{Profile} name nh own ks ds :
  ks <> [] -> Forall2 Described ks ds -> Described (key_struct name nh own ks) (composite_of (KStruct name) ds).
Proof.
  intros Hne Hks. pose proof (records_plain (KStruct name) (map describe ks) ds ltac:(by destruct ks) (records_map _ _ Hks)) as Hr.
  by rewrite length_map in Hr.
Qed.

(** Fewer fields than announced leave the composite open. *)
Lemma records_open {E} vss ds c stack result :
  Forall2 records vss ds -> (List.length (oc_fields c) + List.length vss < oc_capacity c)%nat ->
  exists c', describer_run (E:=E) (concat vss) (MkKeyDescriber (c :: stack) result) = Ok (MkKeyDescriber (c' :: stack) result).
Proof.
  intros Hvs. revert c. induction Hvs as [|vs d vss ds Hv Hvs IH]; intros c Hlen; [by exists c|].
  cbn [concat List.length] in *. rewrite describer_run_app, Hv. cbn [kd_stack kd_result record_description].
  rewrite push_field_short by lia. cbn [oc_kind oc_fields oc_attributes oc_capacity]. rewrite List.length_app. cbn [List.length].
  rewrite decide_False by lia. cbn [mbind res_bind]. apply IH. cbn [oc_fields oc_capacity]. rewrite List.length_app. cbn [List.length]. lia.
Qed.

(** What is reported after a description is complete panics. *)
Lemma records_after {E} vss ds d :
  Forall2 records vss ds -> vss <> [] -> describer_run (E:=E) (concat vss) (MkKeyDescriber [] (Some d)) = Panic.
Proof. intros [|vs e vss' ds' Hv _] Hne; [done|]. cbn [concat]. by rewrite describer_run_app, Hv. Qed.

(** The visits of a composite of [n] fields describe a key just when [n] fields
    follow. *)
Lemma composite_described {E} kind n vss ds :
  (0 < n)%nat -> Forall2 records vss ds ->
  (describer ← describer_run (E:=E) (visit_composite kind n :: concat vss) describer_default; unwrap (kd_result describer)) =
  if decide (List.length vss = n) then Ok (composite_of kind ds) else Panic.
Proof.
  intros Hn Hvs. cbn [describer_run describer_visit mbind res_bind describer_default kd_stack kd_result].
  destruct (decide (List.length vss = n)) as [<-|Hne]; [|destruct (decide (List.length vss < n)%nat) as [Hlt|Hge]].
  - rewrite (records_fields vss ds); [done..| |cbn; lia]. by destruct vss; [cbn in Hn; lia|].
  - destruct (records_open (E:=E) vss ds (MkOpenComposite kind [] ∅ n) [] None Hvs ltac:(cbn; lia)) as [c' ->]. done.
  - assert (Forall2 records (take n vss) (take n ds) /\ Forall2 records (drop n vss) (drop n ds)) as [Ht Hd]
      by (split; [by apply Forall2_take|by apply Forall2_drop]).
    rewrite <- (take_drop n vss), concat_app, describer_run_app.
    rewrite (records_fields (take n vss) (take n ds)); [|done| |cbn; rewrite length_take; lia].
    + cbn [record_description mbind res_bind]. rewrite (records_after _ _ _ Hd); [done|].
      intros Hnil. apply (f_equal List.length) in Hnil. rewrite length_drop in Hnil. cbn in Hnil. lia.
    + intros Hnil. apply (f_equal List.length) in Hnil. rewrite length_take in Hnil. cbn in Hnil. lia.
Qed.

Lemma enum_description `{Profile} `{OrderedVarint} {E} nh own repr vs ds :
  vs <> [] -> Forall2 records (concat (map describe_variant vs)) ds ->
  for_encoding (E:=E) (key_enum_composite nh own repr vs) =
  if decide (List.length ds = List.length vs) then Ok (composite_of KTuple ds) else Panic.
Proof.
  intros Hne Hvs. rewrite <- (Forall2_length _ _ _ Hvs). apply composite_described; [|done]. destruct vs; [done|]. cbn. lia.
Qed.

(** C40: A key derived for an enum with fields is described only if its variants
    have, unit variants counted as one field, as many fields together as there
    are variants: the derived code announces a composite with one field for
    each variant, and then reports all fields.  For any other enum
    [KeyDescription::for_key] panics, and with it the definition of a
    collection with such a key. *)
Theorem derived_enum_described `{Profile} `{OrderedVarint} {E} nh own repr vs ds :
  vs <> [] -> Forall2 records (concat (map describe_variant vs)) ds ->
  for_encoding (E:=E) (key_enum_composite nh own repr vs) =
  if decide (List.length ds = List.length vs) then Ok (composite_of KTuple ds) else Panic.
Proof. apply enum_description. Qed.

(** ** Examples: the types of the tests of the macro *)

Module DerivedExamples.
Import FixedVarint.
#[local] Instance debug : Profile := true.

Ltac solve_members := cbn; repeat first [apply Forall_nil_2 | apply Forall_cons_2; [split; apply _|]].

(** [enum Test { A, B(i32, String), C { a: String, b: i32 } }] *)
Definition test_variants : list (Z * Fields) :=
  zip (discriminants None [None; None; None]) [FieldsUnit; FieldsOf [key_i32; key_string]; FieldsOf [key_string; key_i32]].
Definition test_repr : EnumRepr := ReprSize isize KSigned.
Definition test_enum : key_ty := derive_enum EscapeNullBytes false test_repr test_variants.
Definition test_b : k_type test_enum := inr (inl (2, ([97], tt))).

Lemma test_ok : enum_ok test_repr test_variants.
Proof.
  split.
  - apply byte_multiple_isize.
  - intros d. cbn. rewrite !elem_of_cons, elem_of_nil. intros [->|[->|[->|[]]]]; reflexivity.
  - apply (bool_decide_unpack _). vm_compute. exact I.
  - intros v. cbn. rewrite !elem_of_cons, elem_of_nil. intros [->|[->|[->|[]]]]; solve_members.
Qed.

Definition test_bytes : bytes := default [] (match as_ord_bytes test_enum test_b with Ok bs => Some bs | _ => None end).
Lemma test_encoded : as_ord_bytes test_enum test_b = Ok test_bytes.
Proof. vm_compute. reflexivity. Qed.
Lemma derived_enum_roundtrip_witness : from_ord_bytes test_enum (Borrowed test_bytes) = Ok test_b.
Proof.
  apply (key_roundtrip (KeyRoundTrip := @cf_roundtrip _ (derived_enum_roundtrip EscapeNullBytes false test_repr test_variants test_ok)) test_b test_bytes).
  - split; [reflexivity|]. split; [reflexivity|exact I].
  - apply test_encoded.
  - unfold alloc_ok. vm_compute. discriminate.
  - reflexivity.
Defined.

(** A struct of three fields and one that is transparent. *)
Lemma test_structs :
  as_ord_bytes (derive_struct "Test" EscapeNullBytes false (FieldsOf [key_i32; key_i32; key_string])) (1, (2, ([116; 101; 115; 116], tt))) =
    Ok [0; 0; 0; 1; 0; 0; 0; 2; 116; 101; 115; 116; 0; 4] /\
  as_ord_bytes (derive_struct "Test" EscapeNullBytes false (FieldsOf [key_i32])) 1 = Ok [0; 0; 0; 1] /\
  as_ord_bytes (derive_struct "Test" EscapeNullBytes false FieldsUnit) tt = Ok [].
Proof. split_and!; vm_compute; reflexivity. Qed.

(** Five fields are reported where three are announced. *)
Definition test_fields : list KeyDescription := [Basic KUnit; Basic KI32; Basic KString; Basic KString; Basic KI32].
Lemma derived_enum_described_witness : for_encoding (E:=KeyError) test_enum = Panic.
Proof.
  exact (derived_enum_described EscapeNullBytes false test_repr test_variants test_fields ltac:(done)
    ltac:(repeat constructor; apply records_type)).
Defined.

(** The order of an enum with an unsigned discriminant. *)
Definition tagged_repr : EnumRepr := ReprInt u8 KU8.
Definition tagged_variants : list (Z * Fields) :=
  zip (discriminants None [Some 1; None]) [FieldsUnit; FieldsOf [key_u32]].
Definition tagged : key_ty := key_enum_composite DenyNullBytes false tagged_repr tagged_variants.
Definition tagged_a : k_type tagged := inl tt.
Definition tagged_b : k_type tagged := inr (inl (7, tt)).
Lemma tagged_ok : enum_ok tagged_repr tagged_variants.
Proof.
  split.
  - apply byte_multiple_u8.
  - intros d. cbn. rewrite !elem_of_cons, elem_of_nil. intros [->|[->|[]]]; reflexivity.
  - apply (bool_decide_unpack _). vm_compute. exact I.
  - intros v. cbn. rewrite !elem_of_cons, elem_of_nil. intros [->|[->|[]]]; solve_members.
Qed.
Lemma derived_enum_ordered_witness : bytes_cmp [1] [2; 0; 0; 0; 7] = enum_cmp tagged_variants tagged_a tagged_b.
Proof.
  apply (derived_enum_ordered false tagged_repr tagged_variants ltac:(by split; [apply byte_multiple_u8|]) tagged_ok).
  - intros v. cbn. rewrite !elem_of_cons, elem_of_nil. intros [->|[->|[]]]; cbn; solve_fields.
  - exact I.
  - split; [reflexivity|exact I].
  - vm_compute. reflexivity.
  - vm_compute. reflexivity.
Defined.
End DerivedExamples.
