(* ===== verification/Timestamp.v ===== *)
(** * Timestamps and durations

    [bonsaidb-core/src/keyvalue/timestamp.rs]: the wall-clock timestamps that
    expire keys and pace commits, with their arithmetic and their key encoding.
    A [Duration] is its number of nanoseconds. *)

From Stdlib Require Import ZArith Lia String.
From stdpp Require Import base list option numbers.
From S2P Require Import Prelude Bytes Utf8 Key KeyLaws.

Local Open Scope Z_scope.

Definition NANOS : Z := 1_000_000_000.

(** ** [std::time::Duration] *)

Definition duration_max : Z := int_max u64 * NANOS + 999_999_999.

(** [Duration::new]: carries whole seconds out of [nanos]; panics on overflow. *)
Definition duration_new {E} (secs nanos : Z) : res E Z :=
  let d := secs * NANOS + nanos in
  if d <=? duration_max then Ok d else Panic.
Definition as_secs (d : Z) : Z := d / NANOS.
Definition subsec_nanos (d : Z) : Z := d `mod` NANOS.
Definition duration_checked_sub (a b : Z) : option Z := if b <=? a then Some (a - b) else None.
Definition duration_saturating_sub (a b : Z) : Z := Z.max 0 (a - b).

Definition duration_ok (d : Z) : Prop := 0 <= d <= duration_max.

(** ** [Timestamp] *)

Record Timestamp := MkTimestamp { seconds : Z; nanos : Z }.

#[export] Instance Timestamp_eq_dec : EqDecision Timestamp.
Proof. solve_decision. Defined.

Definition Timestamp_MAX : Timestamp := MkTimestamp (int_max u64) 999_999_999.
Definition Timestamp_MIN : Timestamp := MkTimestamp 0 0.

(** The derived [Ord]: seconds first, then nanoseconds. *)
Definition timestamp_cmp (a b : Timestamp) : comparison :=
  cmp_then (seconds a ?= seconds b) (nanos a ?= nanos b).
Definition timestamp_leb (a b : Timestamp) : bool :=
  match timestamp_cmp a b with Gt => false | _ => true end.
Definition timestamp_ltb (a b : Timestamp) : bool :=
  match timestamp_cmp a b with Lt => true | _ => false end.
Definition timestamp_min (a b : Timestamp) : Timestamp :=
  if timestamp_leb a b then a else b.

(** [impl From<Timestamp> for Duration]. *)
Definition duration_from {E} (t : Timestamp) : res E Z := duration_new (seconds t) (nanos t).

(** [impl Sub for Timestamp]. *)
Definition timestamp_sub {E} (a b : Timestamp) : res E (option Z) :=
  x ← duration_from a;
  y ← duration_from b;
  Ok (duration_checked_sub x y).

(** The [while nanos > 1_000_000_000] loop of [add].  A [u32] is below five
    times the bound, so four iterations are enough. *)
Fixpoint carry_loop (fuel : nat) (nanos seconds : Z) : Z * Z :=
  match fuel with
  | O => (nanos, seconds)
  | S fuel =>
      if nanos >? 1_000_000_000
      then carry_loop fuel (nanos - 1_000_000_000) (saturating_add u64 seconds 1)
      else (nanos, seconds)
  end.

(** [impl Add<Duration> for Timestamp]. *)
Definition timestamp_add `{Profile} {E} (t : Timestamp) (d : Z) : res E Timestamp :=
  n ← op_add u32 (nanos t) (subsec_nanos d);
  let s := saturating_add u64 (seconds t) (as_secs d) in
  let (n, s) := carry_loop 4 n s in
  Ok (MkTimestamp s n).

(** ** [impl Key for Timestamp] *)

Definition timestamp_wf (t : Timestamp) : Prop :=
  in_range u64 (seconds t) = true /\ in_range u32 (nanos t) = true.

Definition key_timestamp : key_ty := {|
  k_type := Timestamp; k_wf := timestamp_wf; k_cmp := timestamp_cmp;
  LENGTH := Some 12;
  describe := [visit_composite (KStruct "std::time::Timestamp") 2; visit_type KU64; visit_type KU32];
  as_ord_bytes t := Ok (to_be_bytes u64 (seconds t) ++ to_be_bytes u32 (nanos t));
  CAN_OWN_BYTES := false;
  from_ord_bytes src :=
    if negb (blen (as_ref src) =? 12) then Err IncorrectByteLength
    else
      sb ← slice (as_ref src) 0 8;
      s ← from_ord_bytes key_u64 (Borrowed sb);
      nb ← slice (as_ref src) 8 12;
      n ← from_ord_bytes key_u32 (Borrowed nb);
      Ok (MkTimestamp s n);
  first_value := default_first_value; next_value := default_next_value |}.

(** ** Order *)

(** A timestamp whose nanoseconds are below one second, as [Timestamp::now()]
    returns. *)
Definition timestamp_normal (t : Timestamp) : Prop :=
  in_range u64 (seconds t) = true /\ 0 <= nanos t < NANOS.

(** The instant denoted, in nanoseconds. *)
Definition instant (t : Timestamp) : Z := seconds t * NANOS + nanos t.

Lemma timestamp_cmp_refl a : timestamp_cmp a a = Eq.
Proof. unfold timestamp_cmp. by rewrite !Z.compare_refl. Qed.

Lemma timestamp_cmp_antisym a b : timestamp_cmp b a = CompOpp (timestamp_cmp a b).
Proof.
  unfold timestamp_cmp. rewrite (Z.compare_antisym (seconds a)), (Z.compare_antisym (nanos a)).
  by destruct (seconds a ?= seconds b).
Qed.

Lemma timestamp_leb_iff a b :
  timestamp_leb a b = true <->
  seconds a < seconds b \/ (seconds a = seconds b /\ nanos a <= nanos b).
Proof.
  unfold timestamp_leb, timestamp_cmp.
  destruct (Z.compare_spec (seconds a) (seconds b)); cbn [cmp_then];
    [destruct (Z.compare_spec (nanos a) (nanos b))|..]; split; intros; try done; lia.
Qed.

Lemma timestamp_ltb_leb a b : timestamp_ltb a b = negb (timestamp_leb b a).
Proof.
  unfold timestamp_ltb, timestamp_leb. rewrite (timestamp_cmp_antisym a b).
  by destruct (timestamp_cmp a b).
Qed.

Lemma timestamp_leb_refl a : timestamp_leb a a = true.
Proof. apply timestamp_leb_iff. lia. Qed.
Lemma timestamp_leb_trans a b c :
  timestamp_leb a b = true -> timestamp_leb b c = true -> timestamp_leb a c = true.
Proof. rewrite !timestamp_leb_iff. lia. Qed.
Lemma timestamp_leb_total a b : timestamp_leb a b = false -> timestamp_leb b a = true.
Proof.
  intros H. destruct (timestamp_leb b a) eqn:E; [done|].
  assert (~ timestamp_leb a b = true) as H1 by congruence.
  assert (~ timestamp_leb b a = true) as H2 by congruence.
  rewrite timestamp_leb_iff in H1, H2. lia.
Qed.

Lemma timestamp_leb_instant a b :
  timestamp_normal a -> timestamp_normal b ->
  timestamp_leb a b = true <-> instant a <= instant b.
Proof.
  unfold timestamp_normal, instant, NANOS. intros. rewrite timestamp_leb_iff. lia.
Qed.

#[export] Instance key_timestamp_roundtrip : KeyRoundTrip key_timestamp.
Proof.
  split; cbn [k_wf as_ord_bytes key_timestamp]; intros t bs; intros.
  - inv_res. apply Forall_app. split; apply to_be_ok.
  - destruct t as [s n], H as [Hs Hn]. cbn [seconds nanos] in *. inv_res.
    cbn [from_ord_bytes key_timestamp]. rewrite H2.
    pose proof (to_be_bytes_length u64 s) as L1. pose proof (to_be_bytes_length u32 n) as L2.
    change (int_bytes u64) with 8%nat in L1. change (int_bytes u32) with 4%nat in L2.
    assert (blen (to_be_bytes u64 s) = 8) as B1 by (unfold blen; lia).
    assert (blen (to_be_bytes u32 n) = 4) as B2 by (unfold blen; lia).
    rewrite blen_app, B1, B2.
    pose proof (@slice_app KeyError [] (to_be_bytes u64 s) (to_be_bytes u32 n)) as S1.
    pose proof (@slice_app KeyError (to_be_bytes u64 s) (to_be_bytes u32 n) []) as S2.
    rewrite app_nil_r in S2. rewrite B1, B2 in *. change (8 + 4) with 12 in *.
    cbn [app] in S1. change (blen [] + 8) with 8 in S1. change (blen []) with 0 in S1.
    change (negb (12 =? 12)) with false. cbn iota. rewrite S1. cbn [mbind res_bind].
    rewrite (key_primitive_decode u64 KU64 _ s) by (auto with key_laws).
    cbn [mbind res_bind]. rewrite S2. cbn [mbind res_bind].
    by rewrite (key_primitive_decode u32 KU32 _ n) by (auto with key_laws).
Qed.

#[export] Instance key_timestamp_fixed : KeyFixedLength key_timestamp.
Proof.
  intros m t bs; cbn [k_wf as_ord_bytes LENGTH key_timestamp]. intros [= <-] _ ?. inv_res.
  rewrite blen_app. unfold blen. by rewrite !to_be_bytes_length.
Qed.

#[export] Instance key_timestamp_ordered : KeyOrdered key_timestamp.
Proof.
  intros x y bx b_y; cbn [k_wf as_ord_bytes k_cmp key_timestamp]. intros [??] [??] ??. inv_res.
  rewrite bytes_cmp_app_same_length by by rewrite !to_be_bytes_length.
  unfold timestamp_cmp. by rewrite !to_be_bytes_cmp by (auto with key_laws).
Qed.

(** ** Arithmetic *)

Lemma carry_loop_spec n s :
  0 <= n < 2 * NANOS -> in_range u64 s = true ->
  carry_loop 4 n s =
  if n >? NANOS then (n - NANOS, saturating_add u64 s 1) else (n, s).
Proof.
  unfold NANOS. intros Hn Hs. cbn [carry_loop].
  destruct (Z.gtb_spec n 1000000000); [|done].
  destruct (Z.gtb_spec (n - 1000000000) 1000000000); [lia|done].
Qed.

Lemma saturating_add_u64 a b : 0 <= a -> 0 <= b -> saturating_add u64 a b = Z.min (int_max u64) (a + b).
Proof.
  intros. unfold saturating_add, saturate. change (int_min u64) with 0.
  assert (0 <= int_max u64) by done. lia.
Qed.

Lemma u64_range x : in_range u64 x = true <-> 0 <= x <= int_max u64.
Proof. apply in_range_spec. Qed.

Lemma timestamp_add_ok `{Profile} {E} t d :
  timestamp_normal t -> duration_ok d ->
  exists n s, @timestamp_add _ E t d = Ok (MkTimestamp s n) /\
    (n, s) = (let n := nanos t + subsec_nanos d in
              let s := saturating_add u64 (seconds t) (as_secs d) in
              if n >? NANOS then (n - NANOS, saturating_add u64 s 1) else (n, s)).
Proof.
  intros [Hs Hn] Hd. unfold duration_ok, subsec_nanos in *.
  pose proof (Z.mod_pos_bound d NANOS ltac:(done)).
  unfold timestamp_add, subsec_nanos.
  rewrite op_add_ok.
  2: { apply in_range_spec. unfold NANOS in *. change (int_min u32) with 0.
       change (int_max u32) with 4294967295. lia. }
  cbn [mbind res_bind]. rewrite carry_loop_spec.
  - destruct (_ >? NANOS); eauto.
  - lia.
  - apply saturate_in_range. done.
Qed.

Lemma timestamp_sub_ok {E} a b :
  timestamp_normal a -> timestamp_normal b ->
  @timestamp_sub E a b = Ok (duration_checked_sub (instant a) (instant b)).
Proof.
  intros [Ha ?] [Hb ?]. apply u64_range in Ha, Hb.
  assert (forall t, seconds t <= int_max u64 -> nanos t < NANOS -> @duration_from E t = Ok (instant t)) as Hd.
  { intros t ??. unfold duration_from, duration_new, instant, duration_max.
    unfold NANOS in *. rewrite (proj2 (Z.leb_le _ _)); [done|lia]. }
  unfold timestamp_sub. by rewrite !Hd by lia.
Qed.

(** Adding a duration to a timestamp denotes the sum of the instants, as
    long as the seconds fit in 64 bits. *)
Theorem timestamp_add_exact `{Profile} {E} t d :
  timestamp_normal t -> duration_ok d -> seconds t + as_secs d + 1 <= int_max u64 ->
  exists t', @timestamp_add _ E t d = Ok t' /\ instant t' = instant t + d /\
             0 <= nanos t' <= NANOS.
Proof.
  intros Ht Hd Hfit. destruct (timestamp_add_ok (E:=E) t d Ht Hd) as (n & s & -> & Hns).
  eexists; split; [done|]. destruct Ht as [Hs Hn]. apply u64_range in Hs.
  assert (0 <= as_secs d) by (unfold as_secs, duration_ok, NANOS in *; zdm).
  rewrite (saturating_add_u64 (seconds t)) in Hns by lia.
  assert (d = as_secs d * NANOS + subsec_nanos d) as Ed
    by (unfold as_secs, subsec_nanos, NANOS; zdm).
  assert (0 <= subsec_nanos d < NANOS) by (apply Z.mod_pos_bound; done).
  unfold instant. cbv zeta in Hns.
  destruct (Z.gtb_spec (nanos t + subsec_nanos d) NANOS);
    injection Hns as -> ->; cbn [seconds nanos]; rewrite ?saturating_add_u64 by lia;
    unfold NANOS in *; lia.
Qed.

Lemma timestamp_add_exact_witness :
  exists t', @timestamp_add true unit (MkTimestamp 5 999_999_999) 2 = Ok t' /\
    instant t' = instant (MkTimestamp 5 999_999_999) + 2 /\ 0 <= nanos t' <= NANOS.
Proof.
  apply (@timestamp_add_exact true unit (MkTimestamp 5 999_999_999) 2).
  - split; [reflexivity|split; [vm_compute; discriminate|reflexivity]].
  - split; [lia|vm_compute; discriminate].
  - vm_compute; discriminate.
Defined.

(** When the nanoseconds add up to exactly one second the carry is not
    performed: the sum has [nanos = 1_000_000_000], and it compares strictly
    smaller than the normal timestamp of the same instant. *)
Theorem timestamp_add_full_second `{Profile} {E} t d :
  timestamp_normal t -> duration_ok d -> seconds t + as_secs d + 1 <= int_max u64 ->
  nanos t + subsec_nanos d = NANOS ->
  exists t' u, @timestamp_add _ E t d = Ok t' /\ nanos t' = NANOS /\
    timestamp_normal u /\ instant u = instant t' /\ timestamp_ltb t' u = true.
Proof.
  intros Ht Hd Hfit Hsum. destruct (timestamp_add_ok (E:=E) t d Ht Hd) as (n & s & -> & Hns).
  cbv zeta in Hns. rewrite Hsum in Hns. rewrite Z.gtb_ltb, Z.ltb_irrefl in Hns.
  destruct Ht as [Hs Hn]. apply u64_range in Hs.
  assert (0 <= as_secs d) by (unfold as_secs, duration_ok, NANOS in *; zdm).
  rewrite saturating_add_u64 in Hns by lia. simplify_eq.
  exists (MkTimestamp (Z.min (int_max u64) (seconds t + as_secs d)) NANOS),
    (MkTimestamp (seconds t + as_secs d + 1) 0).
  rewrite Z.min_r by lia. split; [done|]. split; [done|].
  split. { split; simpl; [apply u64_range; lia|done]. }
  split; [unfold instant; cbn [seconds nanos]; unfold NANOS; lia|].
  rewrite timestamp_ltb_leb. destruct (timestamp_leb _ _) eqn:El; [|done].
  apply timestamp_leb_iff in El. simpl in El. lia.
Qed.

Lemma timestamp_add_full_second_witness :
  exists t' u, @timestamp_add true unit (MkTimestamp 5 999_999_999) 1 = Ok t' /\ nanos t' = NANOS /\
    timestamp_normal u /\ instant u = instant t' /\ timestamp_ltb t' u = true.
Proof.
  apply (@timestamp_add_full_second true unit (MkTimestamp 5 999_999_999) 1).
  - split; [reflexivity|split; [vm_compute; discriminate|reflexivity]].
  - split; [lia|vm_compute; discriminate].
  - vm_compute; discriminate.
  - reflexivity.
Defined.
