(* ===== verification/Numeric.v ===== *)
(** * Key-value values and atomic arithmetic

    [Value] and [Numeric] of [bonsaidb-core/src/keyvalue.rs] with their
    conversions, and the [increment]/[decrement] of
    [bonsaidb-local/src/database/keyvalue.rs].  An [f64] is an IEEE 754
    binary64 datum in the Standard Library's executable specification of
    floating point. *)

From Stdlib Require Import ZArith Lia.
From Stdlib Require Import SpecFloat.
From stdpp Require Import base list option numbers.
From S2P Require Import Prelude Bytes.

Local Open Scope Z_scope.

(** ** binary64 *)

Definition f64 := spec_float.
Definition f64_add : f64 -> f64 -> f64 := SFadd 53 1024.
Definition f64_sub : f64 -> f64 -> f64 := SFsub 53 1024.
Definition f64_lt (a b : f64) : bool := SFltb a b.
Definition f64_zero : f64 := S754_zero false.
(** [f64::EPSILON], two to the power of -52. *)
Definition f64_epsilon : f64 := S754_finite false (2 ^ 52) (-104).

Definition is_nan (f : f64) : bool := match f with S754_nan => true | _ => false end.
Definition is_sign_positive (f : f64) : bool :=
  match f with
  | S754_zero s => negb s
  | S754_infinity s => negb s
  | S754_nan => true
  | S754_finite s _ _ => negb s
  end.

(** [x as f64] for an integer: rounds to nearest, ties to even. *)
Definition f64_of_int (x : Z) : f64 := binary_normalize 53 1024 x 0 false.

(** The integer part of a finite number. *)
Definition trunc_int (s : bool) (m : positive) (e : Z) : Z :=
  let a := if 0 <=? e then Zpos m * 2 ^ e else Zpos m / 2 ^ (- e) in
  if s then - a else a.

(** [f64::trunc] and [f64::fract]. *)
Definition f64_trunc (f : f64) : f64 :=
  match f with
  | S754_finite s m e =>
      if 0 <=? e then f
      else binary_normalize 53 1024 (trunc_int s m e) 0 s
  | _ => f
  end.
Definition f64_fract (f : f64) : f64 := f64_sub f (f64_trunc f).

(** [f as i64]/[f as u64]: truncates, saturates at the bounds of the type, and
    maps NaN to zero. *)
Definition f64_as_int (t : int_ty) (f : f64) : Z :=
  match f with
  | S754_nan => 0
  | S754_zero _ => 0
  | S754_infinity s => if s then int_min t else int_max t
  | S754_finite s m e => saturate t (trunc_int s m e)
  end.

(** ** [Numeric] *)

Inductive Numeric :=
| Integer (v : Z)
| UnsignedInteger (v : Z)
| Float (f : f64).

(** The values of the Rust type. *)
Definition numeric_wf (n : Numeric) : Prop :=
  match n with
  | Integer v => in_range i64 v = true
  | UnsignedInteger v => in_range u64 v = true
  | Float f => valid_binary 53 1024 f = true
  end.

Inductive NumericError := NotANumber.

Definition validate (n : Numeric) : res NumericError Numeric :=
  match n with
  | Float f => if is_nan f then Err NotANumber else Ok n
  | _ => Ok n
  end.

Definition as_i64 (n : Numeric) : option Z :=
  match n with
  | Integer v => Some v
  | UnsignedInteger v => try_from_int i64 v
  | Float f =>
      if f64_lt f64_zero (SFabs (f64_fract f)) then None else Some (f64_as_int i64 f)
  end.

Definition as_i64_lossy (n : Numeric) (saturating : bool) : Z :=
  match n with
  | Integer v => v
  | UnsignedInteger v =>
      if saturating then default (int_max i64) (try_from_int i64 v) else wrap i64 v
  | Float f => f64_as_int i64 f
  end.

Definition as_u64 (n : Numeric) : option Z :=
  match n with
  | UnsignedInteger v => Some v
  | Integer v => try_from_int u64 v
  | Float f =>
      if f64_lt (f64_fract f) f64_epsilon && is_sign_positive f
      then Some (f64_as_int u64 f) else None
  end.

Definition as_u64_lossy (n : Numeric) (saturating : bool) : Z :=
  match n with
  | UnsignedInteger v => v
  | Integer v =>
      if saturating then default 0 (try_from_int u64 v) else wrap u64 v
  | Float f => f64_as_int u64 f
  end.

Definition as_f64 (n : Numeric) : option f64 :=
  match n with
  | UnsignedInteger v => if 2 ^ 53 <? v then None else Some (f64_of_int v)
  | Integer v =>
      if (2 ^ 53 <? v) || (v <? - 2 ^ 53) then None else Some (f64_of_int v)
  | Float f => Some f
  end.

Definition as_f64_lossy (n : Numeric) : f64 :=
  match n with
  | UnsignedInteger v => f64_of_int v
  | Integer v => f64_of_int v
  | Float f => f
  end.

(** ** [Value] *)

Inductive Value := VBytes (bs : bytes) | VNumeric (n : Numeric).

Definition value_validate (v : Value) : res NumericError Value :=
  match v with
  | VNumeric n => VNumeric <$> validate n
  | VBytes bs => Ok (VBytes bs)
  end.

Definition value_as_i64_lossy (v : Value) (saturating : bool) : option Z :=
  match v with VBytes _ => None | VNumeric n => Some (as_i64_lossy n saturating) end.
Definition value_as_u64_lossy (v : Value) (saturating : bool) : option Z :=
  match v with VBytes _ => None | VNumeric n => Some (as_u64_lossy n saturating) end.
Definition value_as_f64_lossy (v : Value) : option f64 :=
  match v with VBytes _ => None | VNumeric n => Some (as_f64_lossy n) end.
Definition value_as_i64 (v : Value) : option Z :=
  match v with VBytes _ => None | VNumeric n => as_i64 n end.
Definition value_as_u64 (v : Value) : option Z :=
  match v with VBytes _ => None | VNumeric n => as_u64 n end.
Definition value_as_f64 (v : Value) : option f64 :=
  match v with VBytes _ => None | VNumeric n => as_f64 n end.

(** ** Atomic arithmetic *)

Definition increment (existing amount : Numeric) (saturating : bool) : Numeric :=
  match amount with
  | Integer amount =>
      let existing_value := as_i64_lossy existing saturating in
      Integer (if saturating then saturating_add i64 existing_value amount
               else wrapping_add i64 existing_value amount)
  | UnsignedInteger amount =>
      let existing_value := as_u64_lossy existing saturating in
      UnsignedInteger (if saturating then saturating_add u64 existing_value amount
                       else wrapping_add u64 existing_value amount)
  | Float amount => Float (f64_add (as_f64_lossy existing) amount)
  end.

Definition decrement (existing amount : Numeric) (saturating : bool) : Numeric :=
  match amount with
  | Integer amount =>
      let existing_value := as_i64_lossy existing saturating in
      Integer (if saturating then saturating_sub i64 existing_value amount
               else wrapping_sub i64 existing_value amount)
  | UnsignedInteger amount =>
      let existing_value := as_u64_lossy existing saturating in
      UnsignedInteger (if saturating then saturating_sub u64 existing_value amount
                       else wrapping_sub u64 existing_value amount)
  | Float amount => Float (f64_sub (as_f64_lossy existing) amount)
  end.

(** ** Conversions stay in range *)

Lemma f64_as_int_range t f : int_ty_ok t -> in_range t (f64_as_int t f) = true.
Proof.
  intros Ht. pose proof (saturate_in_range t 0 Ht) as H0. apply in_range_spec in H0.
  unfold int_ty_ok in Ht. pose proof (pow2_pos (int_bits t - 1) ltac:(lia)).
  pose proof (pow2_half _ Ht).
  assert (int_min t <= 0 <= int_max t) as Hz.
  { unfold int_min, int_max. destruct (int_signed t); lia. }
  destruct f as [s|s| |s m e]; simpl.
  - apply in_range_spec. lia.
  - apply in_range_spec. destruct s; lia.
  - apply in_range_spec. lia.
  - by apply saturate_in_range.
Qed.

Lemma as_i64_lossy_range n sat : numeric_wf n -> in_range i64 (as_i64_lossy n sat) = true.
Proof.
  destruct n as [v|v|f]; simpl; intros Hw; [done| |by apply f64_as_int_range].
  destruct sat; [|by apply wrap_in_range].
  unfold try_from_int. by destruct (in_range i64 v) eqn:E.
Qed.

Lemma as_u64_lossy_range n sat : numeric_wf n -> in_range u64 (as_u64_lossy n sat) = true.
Proof.
  destruct n as [v|v|f]; simpl; intros Hw; [|done|by apply f64_as_int_range].
  destruct sat; [|by apply wrap_in_range].
  unfold try_from_int. by destruct (in_range u64 v) eqn:E.
Qed.

Lemma i64_ok : int_ty_ok i64. Proof. done. Qed.
Lemma u64_ok : int_ty_ok u64. Proof. done. Qed.
#[export] Hint Resolve i64_ok u64_ok : core.

(** An integer increment or decrement returns a value of the type of the
    amount within that type's bounds; with [saturating] it is the exact result
    clamped to the bounds, and without it is the exact result modulo 2^64. *)
Theorem integer_arithmetic_bounds (signed : bool) existing amount sat :
  numeric_wf existing ->
  let t := if signed then i64 else u64 in
  let num v := if signed then Integer v else UnsignedInteger v in
  let start := if signed then as_i64_lossy existing sat else as_u64_lossy existing sat in
  in_range t start = true /\
  exists up down,
    increment existing (num amount) sat = num up /\ in_range t up = true /\
    decrement existing (num amount) sat = num down /\ in_range t down = true /\
    (if sat then up = saturate t (start + amount) /\ down = saturate t (start - amount)
     else (up - (start + amount)) `mod` 2 ^ 64 = 0 /\
          (down - (start - amount)) `mod` 2 ^ 64 = 0).
Proof.
  intros Hw. cbv zeta.
  assert (forall t x, int_bits t = 64 -> (wrap t x - x) `mod` 2 ^ 64 = 0) as Hwrap.
  { intros t x Ht. unfold wrap. rewrite Ht. pose proof (Z.div_mod x (2 ^ 64) ltac:(done)).
    destruct (_ && _).
    - replace (_ - _) with ((-(x / 2 ^ 64) - 1) * 2 ^ 64) by lia. by rewrite Z_mod_mult.
    - replace (_ - _) with (-(x / 2 ^ 64) * 2 ^ 64) by lia. by rewrite Z_mod_mult. }
  destruct signed.
  all: split; [by first [apply as_i64_lossy_range | apply as_u64_lossy_range]|].
  all: unfold increment, decrement, saturating_add, saturating_sub, wrapping_add, wrapping_sub.
  all: destruct sat; do 2 eexists; split_and!; try reflexivity.
  all: first [by apply saturate_in_range | by apply wrap_in_range | by apply Hwrap].
Qed.

Lemma integer_arithmetic_bounds_witness :
  increment (UnsignedInteger (2 ^ 64 - 1)) (Integer (-5)) true = Integer (2 ^ 63 - 6) /\
  in_range i64 (as_i64_lossy (UnsignedInteger (2 ^ 64 - 1)) true) = true.
Proof.
  destruct (integer_arithmetic_bounds true (UnsignedInteger (2 ^ 64 - 1)) (-5) true)
    as (Hs & up & down & Hu & _ & _ & _ & Hup & _); [vm_compute; reflexivity|].
  split; [|exact Hs]. vm_compute. reflexivity.
Defined.

(** [as_i64] converts floats that do not fit: a finite number whose
    integer part is above [i64::MAX] and has no fraction, and both infinities,
    yield [Some] of a saturated value instead of [None]. *)
Theorem as_i64_converts_out_of_range (s : bool) (m : positive) (e : Z) :
  0 <= e -> int_max i64 < Zpos m * 2 ^ e ->
  let bound := if s then int_min i64 else int_max i64 in
  f64_lt f64_zero (SFabs (f64_fract (S754_finite s m e))) = false ->
  as_i64 (Float (S754_finite s m e)) = Some bound /\
  as_i64 (Float (S754_infinity s)) = Some bound.
Proof.
  intros He Hm bound Hf. unfold as_i64. rewrite Hf. split.
  - f_equal. unfold f64_as_int, trunc_int, bound.
    rewrite (proj2 (Z.leb_le 0 e)) by lia. unfold saturate.
    change (int_min i64) with (- int_max i64 - 1) in *.
    assert (0 < int_max i64) by done. destruct s; lia.
  - destruct s; reflexivity.
Qed.

Lemma as_i64_converts_out_of_range_witness :
  as_i64 (Float (S754_finite false (2 ^ 52) 400)) = Some (int_max i64) /\
  as_i64 (Float (S754_infinity false)) = Some (int_max i64).
Proof.
  apply (as_i64_converts_out_of_range false (2 ^ 52) 400).
  - lia.
  - vm_compute. reflexivity.
  - vm_compute. reflexivity.
Defined.
