(* ===== verification/Persistence.v ===== *)
(** * Lazy persistence rules of the key-value store

    [KeyValuePersistence] and [PersistenceThreshold] of
    [bonsaidb-local/src/config.rs]: when the outstanding changes of the
    key-value store are written to disk. *)

From Stdlib Require Import ZArith Lia Sorting.Sorted Sorting.Permutation.
From stdpp Require Import base list option numbers.
From S2P Require Import Prelude Timestamp.

Local Open Scope Z_scope.

Record PersistenceThreshold := MkThreshold { number_of_changes : Z; duration : Z }.

Definition after_changes (n : Z) : PersistenceThreshold := MkThreshold n 0.
Definition and_duration (t : PersistenceThreshold) (d : Z) : PersistenceThreshold :=
  MkThreshold (number_of_changes t) d.

Inductive KeyValuePersistence := Immediate | Lazy (rules : list PersistenceThreshold).

Definition immediate : KeyValuePersistence := Immediate.

(** [slice::sort_by] comparing [number_of_changes]: a stable sort. *)
Fixpoint insert_rule (r : PersistenceThreshold) (rules : list PersistenceThreshold) :=
  match rules with
  | [] => [r]
  | r' :: rest =>
      if number_of_changes r <=? number_of_changes r' then r :: rules
      else r' :: insert_rule r rest
  end.
Definition sort_rules (rules : list PersistenceThreshold) := foldr insert_rule [] rules.

Definition lazy (rules : list PersistenceThreshold) : KeyValuePersistence :=
  Lazy (sort_rules rules).

(** The [for rule in rules.iter().take_while(..)] loop; the accumulator is
    [shortest_duration]. *)
Fixpoint shortest_loop (n elapsed : Z) (rules : list PersistenceThreshold) (shortest : Z) : Z :=
  match rules with
  | [] => shortest
  | rule :: rest =>
      if number_of_changes rule <=? n then
        let remaining_time := duration_saturating_sub (duration rule) elapsed in
        let shortest := Z.min shortest remaining_time in
        if shortest =? 0 then shortest else shortest_loop n elapsed rest shortest
      else shortest
  end.

Definition duration_until_next_commit (p : KeyValuePersistence) (n elapsed : Z) : option Z :=
  if n =? 0 then None
  else match p with
  | Immediate => Some 0
  | Lazy rules =>
      let shortest := shortest_loop n elapsed rules duration_max in
      if shortest <? duration_max then Some shortest else None
  end.

Definition should_commit (p : KeyValuePersistence) (n elapsed : Z) : bool :=
  bool_decide (duration_until_next_commit p n elapsed = Some 0).

(** ** Sorting *)

Definition rule_le (a b : PersistenceThreshold) : Prop :=
  number_of_changes a <= number_of_changes b.

Lemma insert_rule_perm r rules : Permutation (r :: rules) (insert_rule r rules).
Proof.
  induction rules as [|r' rest IH]; simpl; [done|].
  destruct (_ <=? _); [done|]. rewrite Permutation_swap. by constructor.
Qed.

Lemma sort_rules_perm rules : Permutation rules (sort_rules rules).
Proof.
  induction rules as [|r rest IH]; simpl; [done|].
  rewrite <- insert_rule_perm. by constructor.
Qed.

Lemma insert_rule_sorted r rules :
  StronglySorted rule_le rules -> StronglySorted rule_le (insert_rule r rules).
Proof.
  induction 1 as [|r' rest Hs IH Hf]; simpl; [repeat constructor|].
  destruct (Z.leb_spec (number_of_changes r) (number_of_changes r')).
  - constructor; [by constructor|]. constructor; [done|].
    eapply List.Forall_impl; [|exact Hf]. unfold rule_le. intros; simpl in *; lia.
  - constructor; [done|]. rewrite <- insert_rule_perm. constructor; [|done].
    unfold rule_le. lia.
Qed.

Lemma sort_rules_sorted rules : StronglySorted rule_le (sort_rules rules).
Proof. induction rules; simpl; [constructor|by apply insert_rule_sorted]. Qed.

(** ** The loop computes the minimum over the rules that apply *)

(** The remaining times of the rules whose number of changes is reached. *)
Definition remaining_times (n elapsed : Z) (rules : list PersistenceThreshold) : list Z :=
  (fun r => Z.max 0 (duration r - elapsed)) <$> filter (fun r => number_of_changes r <= n) rules.

Lemma remaining_times_nonneg n elapsed rules : Forall (fun d => 0 <= d) (remaining_times n elapsed rules).
Proof. apply Forall_fmap, Forall_true. intros. simpl. lia. Qed.

Lemma foldr_min_lower (l : list Z) a b :
  b <= a -> Forall (fun d => b <= d) l -> b <= foldr Z.min a l.
Proof. intros Ha. induction 1; simpl; lia. Qed.

Lemma foldr_min_acc (l : list Z) a b : foldr Z.min (Z.min a b) l = Z.min b (foldr Z.min a l).
Proof. induction l; simpl; lia. Qed.

Lemma sorted_filter_none n r rules :
  StronglySorted rule_le (r :: rules) -> n < number_of_changes r ->
  filter (fun r => number_of_changes r <= n) (r :: rules) = [].
Proof.
  intros Hs Hn. inversion Hs as [|? ? _ Hf]; subst.
  assert (Forall (fun r => ~ number_of_changes r <= n) (r :: rules)) as Hall.
  { constructor; [lia|]. eapply List.Forall_impl; [|exact Hf]. unfold rule_le. intros; simpl in *; lia. }
  clear Hs Hn Hf. induction Hall; [done|]. rewrite filter_cons_False; done.
Qed.

Lemma shortest_loop_spec n elapsed rules acc :
  StronglySorted rule_le rules -> 0 <= acc ->
  shortest_loop n elapsed rules acc = foldr Z.min acc (remaining_times n elapsed rules).
Proof.
  intros Hs. revert acc. induction Hs as [|r rest Hs IH Hf]; intros acc Hacc; [done|].
  cbn [shortest_loop]. destruct (Z.leb_spec (number_of_changes r) n) as [Hr|Hr].
  - unfold remaining_times. rewrite filter_cons_True by done. cbn [fmap list_fmap foldr].
    fold (remaining_times n elapsed rest). unfold duration_saturating_sub.
    rewrite <- foldr_min_acc.
    destruct (Z.eqb_spec (Z.min acc (Z.max 0 (duration r - elapsed))) 0) as [->|H0].
    + pose proof (foldr_min_lower (remaining_times n elapsed rest) 0 0 ltac:(lia)
        (remaining_times_nonneg _ _ _)).
      enough (foldr Z.min 0 (remaining_times n elapsed rest) <= 0) by lia.
      generalize (remaining_times n elapsed rest). intros l; induction l; simpl; lia.
    + apply IH. lia.
  - unfold remaining_times. rewrite sorted_filter_none; [done|by constructor|done].
Qed.

Lemma foldr_min_perm (l l' : list Z) a : Permutation l l' -> foldr Z.min a l = foldr Z.min a l'.
Proof. induction 1; simpl; try lia. Qed.

Lemma lazy_shortest n elapsed rules :
  shortest_loop n elapsed (sort_rules rules) duration_max =
  foldr Z.min duration_max (remaining_times n elapsed rules).
Proof.
  rewrite shortest_loop_spec; [|apply sort_rules_sorted|done].
  apply foldr_min_perm. unfold remaining_times. by rewrite <- sort_rules_perm.
Qed.

Lemma foldr_min_zero (l : list Z) a :
  0 < a -> Forall (fun d => 0 <= d) l -> foldr Z.min a l = 0 <-> 0 ∈ l.
Proof.
  intros Ha. induction 1 as [|x l Hx Hl IH]; simpl.
  - split; [lia|]. by intros ?%elem_of_nil.
  - rewrite elem_of_cons, <- IH. pose proof (foldr_min_lower l a 0 ltac:(lia) Hl). lia.
Qed.

Lemma shortest_loop_bounds n elapsed rules acc :
  duration_ok acc -> 0 <= shortest_loop n elapsed rules acc <= acc.
Proof.
  unfold duration_ok. revert acc. induction rules as [|r rest IH]; intros acc Hacc; simpl; [lia|].
  unfold duration_saturating_sub. destruct (_ <=? n); [|lia].
  destruct (_ =? 0); [lia|].
  pose proof (IH (Z.min acc (Z.max 0 (duration r - elapsed))) ltac:(lia)). lia.
Qed.

(** The time until the next commit is a duration. *)
Lemma duration_until_next_commit_ok p n elapsed d :
  duration_until_next_commit p n elapsed = Some d -> duration_ok d.
Proof.
  unfold duration_until_next_commit. destruct (n =? 0); [done|].
  destruct p as [|rules]; [intros [= <-]; done|].
  pose proof (shortest_loop_bounds n elapsed rules duration_max ltac:(done)).
  destruct (_ <? _); [intros [= <-]|done]. done.
Qed.

Lemma foldr_min_le (l : list Z) a x : x ∈ a :: l -> foldr Z.min a l <= x.
Proof.
  induction l as [|y l IH]; simpl.
  - intros ->%list_elem_of_singleton. lia.
  - intros [->|[->|H]%elem_of_cons]%elem_of_cons.
    + pose proof (IH ltac:(constructor)). lia.
    + lia.
    + pose proof (IH ltac:(by constructor)). lia.
Qed.

Lemma foldr_min_attained (l : list Z) a : foldr Z.min a l ∈ a :: l.
Proof.
  induction l as [|y l IH]; simpl; [constructor|].
  destruct (Z.min_spec y (foldr Z.min a l)) as [[_ ->]|[_ ->]]; rewrite !elem_of_cons in *; tauto.
Qed.

Lemma elem_of_remaining_times n elapsed rules d :
  d ∈ remaining_times n elapsed rules <->
  exists r, r ∈ rules /\ number_of_changes r <= n /\ d = Z.max 0 (duration r - elapsed).
Proof.
  unfold remaining_times. rewrite list_elem_of_fmap. setoid_rewrite list_elem_of_filter. naive_solver.
Qed.

Lemma duration_until_next_commit_lazy rules n elapsed d :
  duration_until_next_commit (lazy rules) n elapsed = Some d <->
  n <> 0 /\ d < duration_max /\ foldr Z.min duration_max (remaining_times n elapsed rules) = d.
Proof.
  unfold duration_until_next_commit, lazy. rewrite lazy_shortest.
  destruct (Z.eqb_spec n 0); [naive_solver|].
  destruct (Z.ltb_spec (foldr Z.min duration_max (remaining_times n elapsed rules)) duration_max).
  - split; [intros [= <-]|intros (_ & _ & ->)]; done.
  - split; [done|lia].
Qed.

(** A lazy rule set, given in any order, commits exactly when there is an
    outstanding change and some rule has both its number of changes reached and
    its duration elapsed; otherwise the time it reports until the next commit
    is the smallest remaining time among the rules whose number is reached. *)
Theorem lazy_persistence_spec rules n elapsed :
  (should_commit (lazy rules) n elapsed = true <->
   n <> 0 /\ exists r, r ∈ rules /\ number_of_changes r <= n /\ duration r <= elapsed) /\
  (forall d, duration_until_next_commit (lazy rules) n elapsed = Some d <->
   n <> 0 /\ d < duration_max /\
   (exists r, r ∈ rules /\ number_of_changes r <= n /\ d = Z.max 0 (duration r - elapsed)) /\
   (forall r, r ∈ rules -> number_of_changes r <= n -> d <= Z.max 0 (duration r - elapsed))).
Proof.
  split.
  - unfold should_commit. rewrite bool_decide_eq_true, duration_until_next_commit_lazy.
    rewrite foldr_min_zero by (done || apply remaining_times_nonneg).
    rewrite elem_of_remaining_times. split.
    + intros (? & _ & r & ? & ? & ?). split; [done|]. exists r. split_and!; [done..|lia].
    + intros (? & r & ? & ? & ?). split_and!; [done..|]. exists r. split_and!; [done..|lia].
  - intros d. rewrite duration_until_next_commit_lazy, <- elem_of_remaining_times. split.
    + intros (? & Hlt & <-). split_and!; [done..| |].
      * pose proof (foldr_min_attained (remaining_times n elapsed rules) duration_max)
          as [Heq|?]%elem_of_cons; [lia|done].
      * intros r Hr Hn. apply foldr_min_le. right. apply elem_of_remaining_times. by exists r.
    + intros (? & ? & Hin & Hall). split_and!; [done..|]. apply Z.le_antisymm.
      * apply foldr_min_le. by right.
      * apply foldr_min_lower; [lia|]. apply List.Forall_forall.
        intros x (r & ? & ? & ->)%list_elem_of_In%elem_of_remaining_times. auto.
Qed.
