(* ===== verification/Nebari.v ===== *)
(** * The storage engine's interface

    BonsaiDb stores everything in the trees of the third-party crate [nebari].
    Its code is not part of the repository: the class [Nebari] is what the
    database calls of it and [NebariLaws] the documented behaviour it relies
    on.  [MemNebari] is an in-memory instance, used to evaluate examples. *)

From Stdlib Require Import ZArith Lia String Ascii Sorting.Sorted.
From stdpp Require Import base list option numbers gmap sorting.
From S2P Require Import Prelude Bytes Utf8 Key Range.

Local Open Scope Z_scope.

(** A tree is identified by its name, a Rust string. *)
Abbreviation str := (list Z) (only parsing).
Definition lit (s : string) : str :=
  (fun c => Z.of_nat (nat_of_ascii c)) <$> list_ascii_of_string s.

(** [nebari::tree::KeyOperation]: what a compare-and-swap callback decides. *)
Inductive TreeOperation := OpSkip | OpSet (v : bytes) | OpRemove.

Definition apply_tree_operation (k : bytes) (op : TreeOperation) (m : gmap bytes bytes) :=
  match op with
  | OpSkip => m
  | OpSet v => <[k := v]> m
  | OpRemove => delete k m
  end.

(** [Operation::CompareSwap] over a list of keys: the callback sees every key
    in order with the value the tree holds for it, threading its captured
    variables [S]. *)
Fixpoint modify_spec {E S} (ks : list bytes) (f : bytes -> option bytes -> stm S E TreeOperation)
    (m : gmap bytes bytes) (s : S) : res E (gmap bytes bytes * S) :=
  match ks with
  | [] => Ok (m, s)
  | k :: ks =>
      match f k (m !! k) s with
      | (Ok op, s') => modify_spec ks f (apply_tree_operation k op m) s'
      | (Err e, _) => Err e
      | (Panic, _) => Panic
      end
  end.

Definition bytes_lt (x y : bytes) : Prop := bytes_cmp x y = Lt.
(** The order of [Vec<u8>], reflexively. *)
Definition bytes_le (x y : bytes) : Prop := bytes_leb x y = true.
#[export] Instance bytes_le_dec x y : Decision (bytes_le x y).
Proof. unfold bytes_le. apply _. Defined.

(** The pairs of a tree within a range, in the order of a scan. *)
Definition key_le {A} (x y : bytes * A) : Prop := bytes_leb x.1 y.1 = true.
#[export] Instance key_le_dec {A} (x y : bytes * A) : Decision (key_le x y).
Proof. unfold key_le. apply _. Defined.
#[export] Instance key_le_total {A} : Total (key_le (A:=A)).
Proof. intros x y. unfold key_le. destruct (bytes_leb_total x.1 y.1); auto. Qed.
#[export] Instance key_le_trans {A} : Transitive (key_le (A:=A)).
Proof. intros x y z. unfold key_le. apply bytes_leb_trans. Qed.
Definition sorted_pairs {A} (m : gmap bytes A) : list (bytes * A) :=
  merge_sort key_le (map_to_list m).
Definition scan_order {A} (m : gmap bytes A) (range : Range bytes) (forwards : bool) : list (bytes * A) :=
  let l := filter (fun p => range_contains bytes_cmp range p.1 = true) (sorted_pairs m) in
  if forwards then l else rev l.

(** [nebari::tree::ScanEvaluation]: what the evaluator of a scan decides for a
    key.  The evaluator and the reader capture different variables. *)
Inductive ScanEvaluation := ScanReadData | ScanSkip | ScanStop.
Fixpoint scan_spec {E S T} (l : list (bytes * bytes)) (key_evaluator : bytes -> S -> ScanEvaluation * S)
    (callback : bytes -> bytes -> stm T E unit) (s : S) (t : T) : res E (S * T) :=
  match l with
  | [] => Ok (s, t)
  | (k, v) :: l =>
      match key_evaluator k s with
      | (ScanReadData, s) =>
          match callback k v t with
          | (Ok _, t) => scan_spec l key_evaluator callback s t
          | (Err e, _) => Err e
          | (Panic, _) => Panic
          end
      | (ScanSkip, s) => scan_spec l key_evaluator callback s t
      | (ScanStop, s) => Ok (s, t)
      end
  end.

(** A scan of the transaction log: [callback] returns whether to go on. *)
Fixpoint log_scan_spec {S} (l : list (Z * option bytes)) (callback : Z * option bytes -> S -> bool * S) (s : S) : S :=
  match l with
  | [] => s
  | x :: l => let (continue, s) := callback x s in if continue : bool then log_scan_spec l callback s else s
  end.

Class Nebari := {
  Roots : Type;
  Transaction : Type;
  nebari_error : Type;
  (** [roots.tree(..)?.get(key)] *)
  roots_get : Roots -> str -> bytes -> res nebari_error (option bytes);
  (** [roots.tree(..)?.scan(..)] over every key, forwards. *)
  roots_scan : Roots -> str -> res nebari_error (list (bytes * bytes));
  (** [roots.tree(..)?.scan(range, forwards, .., key_evaluator, callback)]; an
      error is the callback's ([AbortError::Other]) or the engine's. *)
  roots_scan_range : forall E S T, Roots -> str -> Range bytes -> bool ->
    (bytes -> S -> ScanEvaluation * S) -> (bytes -> bytes -> stm T E unit) -> S -> T ->
    res (nebari_error + E) (S * T);
  (** [roots.tree(..)?.get_multiple(keys)] *)
  roots_get_multiple : Roots -> str -> list bytes -> res nebari_error (list (bytes * bytes));
  (** [roots.tree(..)?.reduce(range)?.alive_keys] *)
  roots_alive_keys : Roots -> str -> Range bytes -> res nebari_error Z;
  (** [roots.delete_tree(name)] *)
  delete_tree : Roots -> str -> res nebari_error Roots;
  (** [roots.transactions().current_transaction_id()] *)
  current_transaction_id : Roots -> option Z;
  (** [roots.transactions().scan(range, callback)] *)
  transactions_scan : forall S, Roots -> Range Z -> (Z * option bytes -> S -> bool * S) -> S -> res nebari_error S;
  (** [roots.transaction(&[..])] *)
  transaction : Roots -> list str -> res nebari_error Transaction;
  (** [transaction.tree(i).modify(keys, Operation::CompareSwap(..))] *)
  tx_modify : forall S, Transaction -> nat -> list bytes ->
    (bytes -> option bytes -> stm S nebari_error TreeOperation) -> S ->
    res nebari_error (Transaction * S);
  (** [transaction.tree(i).get(key)] *)
  tx_get : Transaction -> nat -> bytes -> res nebari_error (option bytes);
  (** [transaction.tree(i).get_multiple(keys)] *)
  tx_get_multiple : Transaction -> nat -> list bytes -> res nebari_error (list (bytes * bytes));
  (** [transaction.tree(i).last_key()] *)
  tx_last_key : Transaction -> nat -> res nebari_error (option bytes);
  (** [transaction.tree(i).replace(key, value)], returning the previous value *)
  tx_replace : Transaction -> nat -> bytes -> bytes ->
    res nebari_error (Transaction * option bytes);
  (** [transaction.tree(i).set(key, value)] *)
  tx_set : Transaction -> nat -> bytes -> bytes -> res nebari_error Transaction;
  (** [transaction.tree(i).remove(key)], returning the removed value *)
  tx_remove : Transaction -> nat -> bytes -> res nebari_error (Transaction * option bytes);
  (** [transaction.entry_mut().set_data(..)] *)
  tx_set_data : Transaction -> bytes -> res nebari_error Transaction;
  (** [transaction.commit()] on the store the transaction was opened on *)
  tx_commit : Roots -> Transaction -> res nebari_error Roots;
  (** The key-value pairs a tree holds: the abstraction the laws speak of. *)
  contents : Roots -> str -> gmap bytes bytes;
  tx_contents : Transaction -> nat -> gmap bytes bytes;
  tx_trees : Transaction -> list str;
  tx_data : Transaction -> option bytes;
  (** The log of committed transactions: their ids and data. *)
  tx_log : Roots -> list (Z * option bytes);
}.
Arguments tx_modify {_ S} _ _ _ _ _.
Arguments roots_scan_range {_ E S T} _ _ _ _ _ _ _ _.
Arguments transactions_scan {_ S} _ _ _ _.

(** Two transactions that differ at most in tree [i]. *)
Definition tx_frame `{Nebari} (i : nat) (tx tx' : Transaction) : Prop :=
  tx_trees tx' = tx_trees tx /\ tx_data tx' = tx_data tx /\
  forall j, j <> i -> tx_contents tx' j = tx_contents tx j.

Class NebariLaws `{Nebari} := {
  roots_get_law r t k v : roots_get r t k = Ok v -> v = contents r t !! k;
  roots_scan_law r t l : roots_scan r t = Ok l ->
    StronglySorted bytes_lt l.*1 /\ forall k v, (k, v) ∈ l <-> contents r t !! k = Some v;
  roots_scan_range_law E S T r t range forwards ev cb (s : S) (u : T) x :
    roots_scan_range (E:=E) r t range forwards ev cb s u = Ok x ->
    scan_spec (scan_order (contents r t) range forwards) ev cb s u = Ok x;
  roots_scan_range_abort E S T r t range forwards ev cb (s : S) (u : T) e :
    roots_scan_range (E:=E) r t range forwards ev cb s u = Err (inr e) ->
    scan_spec (scan_order (contents r t) range forwards) ev cb s u = Err e;
  roots_scan_range_panic E S T r t range forwards ev cb (s : S) (u : T) :
    roots_scan_range (E:=E) r t range forwards ev cb s u = Panic ->
    scan_spec (scan_order (contents r t) range forwards) ev cb s u = Panic;
  roots_get_multiple_law r t ks l : StronglySorted bytes_le ks -> roots_get_multiple r t ks = Ok l ->
    (StronglySorted bytes_lt ks -> NoDup l.*1) /\
    forall k v, (k, v) ∈ l <-> k ∈ ks /\ contents r t !! k = Some v;
  roots_alive_keys_law r t range n : roots_alive_keys r t range = Ok n ->
    n = Z.of_nat (length (scan_order (contents r t) range true));
  delete_tree_law r t r' : delete_tree r t = Ok r' ->
    (forall t', contents r' t' = if decide (t' = t) then ∅ else contents r t') /\
    current_transaction_id r' = current_transaction_id r /\ tx_log r' = tx_log r;
  transactions_scan_law S r range cb (s s' : S) : transactions_scan r range cb s = Ok s' ->
    s' = log_scan_spec (filter (fun x => range_contains Z.compare range x.1 = true) (tx_log r)) cb s;
  tx_log_sorted r : StronglySorted Z.lt (tx_log r).*1;
  tx_commit_id r tx r' : tx_commit r tx = Ok r' -> exists n,
    current_transaction_id r' = Some n /\ tx_log r' = tx_log r ++ [(n, tx_data tx)] /\
    (forall m, current_transaction_id r = Some m -> m < n);
  transaction_law r ts tx : transaction r ts = Ok tx ->
    tx_trees tx = ts /\ tx_data tx = None /\
    forall i t, ts !! i = Some t -> tx_contents tx i = contents r t;
  tx_modify_law S tx i ks f (s : S) tx' s' : StronglySorted bytes_lt ks ->
    tx_modify tx i ks f s = Ok (tx', s') ->
    modify_spec ks f (tx_contents tx i) s = Ok (tx_contents tx' i, s') /\ tx_frame i tx tx';
  tx_modify_panic S tx i ks f (s : S) : StronglySorted bytes_lt ks ->
    tx_modify tx i ks f s = Panic -> modify_spec ks f (tx_contents tx i) s = Panic;
  tx_get_law tx i k v : tx_get tx i k = Ok v -> v = tx_contents tx i !! k;
  tx_get_multiple_law tx i ks l : StronglySorted bytes_lt ks -> tx_get_multiple tx i ks = Ok l ->
    NoDup l.*1 /\ forall k v, (k, v) ∈ l <-> k ∈ ks /\ tx_contents tx i !! k = Some v;
  tx_last_key_law tx i k : tx_last_key tx i = Ok k ->
    match k with
    | None => tx_contents tx i = ∅
    | Some k => is_Some (tx_contents tx i !! k) /\
        forall k', is_Some (tx_contents tx i !! k') -> bytes_leb k' k = true
    end;
  tx_replace_law tx i k v tx' old : tx_replace tx i k v = Ok (tx', old) ->
    old = tx_contents tx i !! k /\ tx_contents tx' i = <[k := v]> (tx_contents tx i) /\
    tx_frame i tx tx';
  tx_set_law tx i k v tx' : tx_set tx i k v = Ok tx' ->
    tx_contents tx' i = <[k := v]> (tx_contents tx i) /\ tx_frame i tx tx';
  tx_remove_law tx i k tx' old : tx_remove tx i k = Ok (tx', old) ->
    old = tx_contents tx i !! k /\ tx_contents tx' i = delete k (tx_contents tx i) /\
    tx_frame i tx tx';
  tx_set_data_law tx d tx' : tx_set_data tx d = Ok tx' ->
    tx_trees tx' = tx_trees tx /\ tx_data tx' = Some d /\
    forall j, tx_contents tx' j = tx_contents tx j;
  tx_commit_law r tx r' : NoDup (tx_trees tx) -> tx_commit r tx = Ok r' ->
    (forall i t, tx_trees tx !! i = Some t -> contents r' t = tx_contents tx i) /\
    (forall t, t ∉ tx_trees tx -> contents r' t = contents r t);
  no_panic_get r t k : roots_get r t k <> Panic;
  no_panic_scan r t : roots_scan r t <> Panic;
  no_panic_get_multiple r t ks : roots_get_multiple r t ks <> Panic;
  no_panic_alive_keys r t range : roots_alive_keys r t range <> Panic;
  no_panic_delete_tree r t : delete_tree r t <> Panic;
  no_panic_transactions_scan S r range cb (s : S) : transactions_scan r range cb s <> Panic;
  no_panic_transaction r ts : transaction r ts <> Panic;
  no_panic_set_data tx d : tx_set_data tx d <> Panic;
  no_panic_commit r tx : tx_commit r tx <> Panic;
}.
Arguments NebariLaws _ : clear implicits.

(** ** Sorted scans *)

Section Scans.
Context {A : Type}.
Implicit Types (m : gmap bytes A) (v : A).

Lemma sorted_pairs_elem m k v : (k, v) ∈ sorted_pairs m <-> m !! k = Some v.
Proof. unfold sorted_pairs. rewrite merge_sort_Permutation. apply elem_of_map_to_list. Qed.

Lemma sorted_pairs_NoDup m : NoDup (sorted_pairs m).*1.
Proof. unfold sorted_pairs. rewrite merge_sort_Permutation. apply NoDup_fst_map_to_list. Qed.

Lemma sorted_pairs_sorted m : StronglySorted bytes_lt (sorted_pairs m).*1.
Proof.
  pose proof (StronglySorted_merge_sort key_le (map_to_list m)) as Hs.
  pose proof (sorted_pairs_NoDup m) as Hn. unfold sorted_pairs in *.
  induction Hs as [|x l Hs IH Hf]; simpl in *; [constructor|].
  apply NoDup_cons in Hn as [Hx Hn]. constructor; [by apply IH|].
  apply List.Forall_forall. intros k Hk%list_elem_of_In. pose proof Hk as Hk'.
  apply list_elem_of_fmap in Hk as (y & -> & Hy).
  rewrite List.Forall_forall in Hf. pose proof (Hf y (proj1 (list_elem_of_In _ _) Hy)) as Hle.
  unfold key_le, bytes_lt, bytes_leb in *. destruct (bytes_cmp x.1 y.1) eqn:E; try done.
  apply bytes_cmp_eq in E. rewrite E in Hx. done.
Qed.

Lemma scan_order_elem m range fwd k v :
  (k, v) ∈ scan_order m range fwd <-> m !! k = Some v /\ range_contains bytes_cmp range k = true.
Proof.
  unfold scan_order. destruct fwd; rewrite ?list_elem_of_In, <- ?in_rev, <- ?list_elem_of_In;
    rewrite list_elem_of_filter, sorted_pairs_elem; simpl; tauto.
Qed.

(** Pairs sorted by key are determined by their elements. *)
Lemma sorted_pairs_unique (l1 l2 : list (bytes * A)) :
  StronglySorted bytes_lt l1.*1 -> StronglySorted bytes_lt l2.*1 -> (forall p, p ∈ l1 <-> p ∈ l2) -> l1 = l2.
Proof.
  intros H1 H2 He.
  assert (forall l : list (bytes * A), StronglySorted bytes_lt l.*1 ->
    StronglySorted (fun x y => bytes_lt x.1 y.1) l) as Hlift.
  { induction l as [|x l IH]; simpl; intros Hs; [constructor|]. inversion Hs as [|? ? Hs' Hf]; subst.
    constructor; [by apply IH|]. rewrite List.Forall_forall in Hf |- *. intros y Hy. apply Hf.
    apply list_elem_of_In, list_elem_of_fmap_2. by apply list_elem_of_In. }
  apply Hlift in H1, H2. clear Hlift. revert l2 H2 He. induction H1 as [|x l1 H1 IH Hf1]; intros l2 H2 He.
  { destruct l2 as [|y l2]; [done|]. exfalso. apply (elem_of_nil y), He. left. }
  destruct H2 as [|y l2 H2 Hf2]; [exfalso; apply (elem_of_nil x), He; left|].
  rewrite List.Forall_forall in Hf1, Hf2.
  assert (forall a b : bytes, bytes_lt a b -> bytes_lt b a -> False) as Hasym.
  { intros a b Ha Hb. unfold bytes_lt in *. pose proof (bytes_cmp_trans _ _ _ Ha Hb) as Hc.
    by rewrite bytes_cmp_refl in Hc. }
  assert (x = y) as <-.
  { assert (x ∈ y :: l2) as [Hx|Hx]%elem_of_cons by (apply He; left); [done|].
    assert (y ∈ x :: l1) as [Hy|Hy]%elem_of_cons by (apply He; left); [done|]. exfalso.
    apply (Hasym x.1 y.1); [apply Hf1|apply Hf2]; by apply list_elem_of_In. }
  f_equal. apply IH; [done|]. intros p. specialize (He p). rewrite !elem_of_cons in He.
  assert (forall p, p ∈ l1 -> p <> x) as N1.
  { intros q Hq ->. apply (Hasym x.1 x.1); apply Hf1; by apply list_elem_of_In. }
  assert (forall p, p ∈ l2 -> p <> x) as N2.
  { intros q Hq ->. apply (Hasym x.1 x.1); apply Hf2; by apply list_elem_of_In. }
  naive_solver.
Qed.

End Scans.

Lemma sorted_last_max (l : list bytes) k k' :
  StronglySorted bytes_lt l -> last l = Some k -> k' ∈ l -> bytes_leb k' k = true.
Proof.
  induction 1 as [|x l Hs IH Hf]; [done|]. destruct l as [|y l].
  - intros [= ->] ->%list_elem_of_singleton. apply bytes_leb_refl.
  - intros Hl [->|Hin]%elem_of_cons.
    + change (last (y :: l) = Some k) in Hl. apply last_Some_elem_of in Hl. rewrite List.Forall_forall in Hf.
      unfold bytes_leb. rewrite Hf; [done|]. by apply list_elem_of_In.
    + by apply IH.
Qed.

(** ** An in-memory store

    [mem_writable = false] makes every commit fail, as a full disk does. *)

Module MemNebari.

Record MemRoots := MkRoots {
  mem_trees : gmap str (gmap bytes bytes);
  mem_writable : bool;
  mem_log : list (option bytes)
}.
Record MemTx := MkTx {
  mem_names : list str;
  mem_open : list (gmap bytes bytes);
  mem_data : option bytes
}.
Inductive MemError := IoError.

Definition mem_contents (r : MemRoots) (t : str) : gmap bytes bytes := default ∅ (mem_trees r !! t).
Definition mem_tx_contents (tx : MemTx) (i : nat) : gmap bytes bytes := default ∅ (mem_open tx !! i).
(** The transactions are numbered from zero. *)
Definition mem_tx_log (r : MemRoots) : list (Z * option bytes) :=
  imap (fun i d => (Z.of_nat i, d)) (mem_log r).

Definition mem_update (tx : MemTx) (i : nat) (m : gmap bytes bytes) : MemTx :=
  MkTx (mem_names tx) (<[i := m]> (mem_open tx)) (mem_data tx).
(** A tree the transaction did not open cannot be changed. *)
Definition mem_with {A} (tx : MemTx) (i : nat) (f : gmap bytes bytes -> res MemError A) : res MemError A :=
  match mem_open tx !! i with Some m => f m | None => Err IoError end.

Fixpoint mem_store (names : list str) (ms : list (gmap bytes bytes))
    (trees : gmap str (gmap bytes bytes)) : gmap str (gmap bytes bytes) :=
  match names, ms with
  | n :: names, m :: ms => <[n := m]> (mem_store names ms trees)
  | _, _ => trees
  end.

#[export] Instance mem_nebari : Nebari := {|
  Roots := MemRoots; Transaction := MemTx; nebari_error := MemError;
  roots_get r t k := Ok (mem_contents r t !! k);
  roots_scan r t := Ok (sorted_pairs (mem_contents r t));
  roots_scan_range E S T r t range forwards ev cb s u :=
    map_err inr (scan_spec (scan_order (mem_contents r t) range forwards) ev cb s u);
  roots_get_multiple r t ks := Ok (omap (fun k => pair k <$> mem_contents r t !! k) ks);
  roots_alive_keys r t range := Ok (Z.of_nat (length (scan_order (mem_contents r t) range true)));
  delete_tree r t := Ok (MkRoots (delete t (mem_trees r)) (mem_writable r) (mem_log r));
  current_transaction_id r := last (mem_tx_log r).*1;
  transactions_scan S r range cb s :=
    Ok (log_scan_spec (filter (fun x => range_contains Z.compare range x.1 = true) (mem_tx_log r)) cb s);
  transaction r ts := Ok (MkTx ts (mem_contents r <$> ts) None);
  tx_modify S tx i ks f s := mem_with tx i (fun m =>
    '(m', s') ← modify_spec ks f m s; Ok (mem_update tx i m', s'));
  tx_get tx i k := mem_with tx i (fun m => Ok (m !! k));
  tx_get_multiple tx i ks := mem_with tx i (fun m => Ok (omap (fun k => pair k <$> m !! k) ks));
  tx_last_key tx i := mem_with tx i (fun m => Ok (last (sorted_pairs m).*1));
  tx_replace tx i k v := mem_with tx i (fun m => Ok (mem_update tx i (<[k := v]> m), m !! k));
  tx_set tx i k v := mem_with tx i (fun m => Ok (mem_update tx i (<[k := v]> m)));
  tx_remove tx i k := mem_with tx i (fun m => Ok (mem_update tx i (delete k m), m !! k));
  tx_set_data tx d := Ok (MkTx (mem_names tx) (mem_open tx) (Some d));
  tx_commit r tx :=
    if bool_decide (length (mem_names tx) = length (mem_open tx)) && mem_writable r
    then Ok (MkRoots (mem_store (mem_names tx) (mem_open tx) (mem_trees r)) true (mem_log r ++ [mem_data tx]))
    else Err IoError;
  contents := mem_contents; tx_contents := mem_tx_contents;
  tx_trees := mem_names; tx_data := mem_data; tx_log := mem_tx_log |}.

Lemma get_multiple_spec (m : gmap bytes bytes) ks :
  StronglySorted bytes_lt ks -> let l := omap (fun k => pair k <$> m !! k) ks in
  NoDup l.*1 /\ forall k v, (k, v) ∈ l <-> k ∈ ks /\ m !! k = Some v.
Proof.
  intros Hs. cbv zeta.
  assert (forall k v, (k, v) ∈ omap (fun k => pair k <$> m !! k) ks <-> k ∈ ks /\ m !! k = Some v) as Hin.
  { intros k v. rewrite list_elem_of_omap. split.
    - intros (x & Hx & Hv). apply fmap_Some in Hv as (w & Hw & [= -> ->]). done.
    - intros [Hk Hv]. exists k. by rewrite Hv. }
  split; [|done]. clear Hin. induction Hs as [|k ks Hs IH Hf]; [constructor|]. simpl.
  destruct (m !! k) as [v|] eqn:E; simpl; [|done]. constructor; [|done].
  intros (x & -> & Hx)%list_elem_of_fmap. apply list_elem_of_omap in Hx as (y & Hy & Hv).
  apply fmap_Some in Hv as (w & Hw & ->). simpl in *. rewrite List.Forall_forall in Hf.
  pose proof (Hf y (proj1 (list_elem_of_In _ _) Hy)) as Hlt. unfold bytes_lt in Hlt.
  by rewrite bytes_cmp_refl in Hlt.
Qed.

Lemma mem_with_Ok {A} tx i (f : _ -> res MemError A) a :
  mem_with tx i f = Ok a ->
  exists m, mem_open tx !! i = Some m /\ mem_tx_contents tx i = m /\ f m = Ok a.
Proof.
  unfold mem_with, mem_tx_contents. destruct (mem_open tx !! i); [|done]. eauto.
Qed.

Lemma mem_update_contents tx i m m0 :
  mem_open tx !! i = Some m0 -> mem_tx_contents (mem_update tx i m) i = m.
Proof.
  intros H. unfold mem_tx_contents, mem_update. simpl.
  rewrite list_lookup_insert_eq; [done|]. by eapply lookup_lt_Some.
Qed.

Lemma mem_update_frame tx i m : @tx_frame mem_nebari i tx (mem_update tx i m).
Proof.
  split_and!; [done..|]. intros j Hj. simpl. unfold mem_tx_contents. simpl.
  by rewrite list_lookup_insert_ne.
Qed.

Lemma mem_store_lookup names ms trees i n m :
  NoDup names -> names !! i = Some n -> ms !! i = Some m -> mem_store names ms trees !! n = Some m.
Proof.
  revert ms i. induction names as [|n' names IH]; intros ms i Hn Hi Hm; [done|].
  apply NoDup_cons in Hn as [Hx Hn]. destruct ms as [|m' ms]; [done|].
  destruct i as [|i]; simplify_eq/=.
  - by rewrite lookup_insert_eq.
  - rewrite lookup_insert_ne; [eauto|]. intros ->. apply Hx. by eapply list_elem_of_lookup_2.
Qed.

Lemma mem_store_other names ms trees n :
  n ∉ names -> mem_store names ms trees !! n = trees !! n.
Proof.
  revert ms. induction names as [|n' names IH]; intros [|m ms] Hn; try done.
  simpl. apply not_elem_of_cons in Hn as [? ?]. rewrite lookup_insert_ne; auto.
Qed.

Lemma get_multiple_elem (m : gmap bytes bytes) (ks : list bytes) k v :
  (k, v) ∈ omap (fun k => pair k <$> m !! k) ks <-> k ∈ ks /\ m !! k = Some v.
Proof.
  rewrite list_elem_of_omap. split.
  - intros (x & Hx & Hv). apply fmap_Some in Hv as (w & Hw & [= -> ->]). done.
  - intros [Hk Hv]. exists k. by rewrite Hv.
Qed.

Lemma mem_tx_log_snoc r d trees w :
  mem_tx_log (MkRoots trees w (mem_log r ++ [d])) = mem_tx_log r ++ [(Z.of_nat (length (mem_log r)), d)].
Proof. unfold mem_tx_log. simpl. rewrite imap_app. simpl. by rewrite Nat.add_0_r. Qed.

Lemma mem_tx_log_ids r : (mem_tx_log r).*1 = Z.of_nat <$> seq 0 (length (mem_log r)).
Proof. unfold mem_tx_log. rewrite fmap_imap. by rewrite <- imap_seq_0. Qed.

Lemma mem_tx_log_sorted r : StronglySorted Z.lt (mem_tx_log r).*1.
Proof.
  rewrite mem_tx_log_ids. generalize 0%nat as i. induction (length (mem_log r)) as [|n IH]; intros i; simpl; [constructor|].
  constructor; [apply IH|]. apply List.Forall_forall. intros x (y & -> & Hy%elem_of_seq)%list_elem_of_In%list_elem_of_fmap.
  lia.
Qed.

#[export] Instance mem_nebari_laws : NebariLaws mem_nebari.
Proof.
  split; simpl.
  - congruence.
  - intros r t l [= <-]. split; [apply sorted_pairs_sorted|apply sorted_pairs_elem].
  - intros E S T r t range fwd ev cb s u x. by destruct (scan_spec _ ev cb s u); simpl; [intros [= ->]|..].
  - intros E S T r t range fwd ev cb s u e. by destruct (scan_spec _ ev cb s u); simpl; [|intros [= ->]|].
  - intros E S T r t range fwd ev cb s u. by destruct (scan_spec _ ev cb s u).
  - intros r t ks l _ [= <-]. split; [by intros Hs; apply get_multiple_spec|apply get_multiple_elem].
  - by intros r t range n [= <-].
  - intros r t r' [= <-]. split_and!; [|done..]. intros t'. unfold mem_contents. simpl. case_decide as Ht.
    + by rewrite Ht, lookup_delete_eq.
    + by rewrite lookup_delete_ne.
  - by intros S r range cb s s' [= <-].
  - apply mem_tx_log_sorted.
  - intros r tx r'. destruct (_ && _); [intros [= <-]|done]. exists (Z.of_nat (length (mem_log r))).
    rewrite mem_tx_log_snoc, fmap_app. cbn [fmap list_fmap fst]. rewrite last_snoc. split_and!; [done..|]. intros m Hm.
    assert (m ∈ (mem_tx_log r).*1) as Hin by (by apply last_Some_elem_of).
    rewrite mem_tx_log_ids in Hin. apply list_elem_of_fmap in Hin as (i & -> & Hi%elem_of_seq). lia.
  - intros r ts tx [= <-]. split_and!; [done..|].
    intros i t Hi. unfold mem_tx_contents. simpl. by rewrite list_lookup_fmap, Hi.
  - intros S tx i ks f s tx' s' Hs (m & Hi & Hc & Hm)%mem_with_Ok.
    rewrite Hc. apply bind_Ok_inv in Hm as ([m' s1] & Hm & [= <- <-]).
    erewrite mem_update_contents by done. split; [done|apply mem_update_frame].
  - intros S tx i ks f s Hs. unfold mem_with, mem_tx_contents.
    destruct (mem_open tx !! i) as [m|]; [|done]. simpl.
    by destruct (modify_spec ks f m s) as [[m' s1]| |].
  - intros tx i k v (m & Hi & -> & [= <-])%mem_with_Ok. done.
  - intros tx i ks l Hs (m & Hi & -> & [= <-])%mem_with_Ok. by apply get_multiple_spec.
  - intros tx i k (m & Hi & -> & [= <-])%mem_with_Ok.
    destruct (last (sorted_pairs m).*1) as [k|] eqn:Hl.
    + assert (forall k, k ∈ (sorted_pairs m).*1 <-> is_Some (m !! k)) as He.
      { intros k'. rewrite list_elem_of_fmap. split.
        - intros ([k1 v] & -> & H%sorted_pairs_elem). by exists v.
        - intros [v H%sorted_pairs_elem]. by exists (k', v). }
      split; [by apply He, last_Some_elem_of|].
      intros k' Hk'%He. eapply sorted_last_max; [|done..]. apply sorted_pairs_sorted.
    + apply last_None in Hl. apply map_empty. intros k.
      destruct (m !! k) as [v|] eqn:E; [|done]. apply sorted_pairs_elem in E.
      apply fmap_nil_inv in Hl. rewrite Hl in E. by apply elem_of_nil in E.
  - intros tx i k v tx' old (m & Hi & -> & [= <- <-])%mem_with_Ok.
    erewrite mem_update_contents by done. split_and!; [done..|]. apply mem_update_frame.
  - intros tx i k v tx' (m & Hi & -> & [= <-])%mem_with_Ok.
    erewrite mem_update_contents by done. split; [done|]. apply mem_update_frame.
  - intros tx i k tx' old (m & Hi & -> & [= <- <-])%mem_with_Ok.
    erewrite mem_update_contents by done. split_and!; [done..|]. apply mem_update_frame.
  - by intros tx d tx' [= <-].
  - intros r tx r' Hn. case_bool_decide as Hlen; [|done].
    destruct (mem_writable r); [intros [= <-]|done]. unfold mem_contents. simpl. split.
    + intros i t Hi. destruct (lookup_lt_is_Some_2 (mem_open tx) i) as [m Hm].
      { rewrite <- Hlen. by eapply lookup_lt_Some. }
      unfold mem_tx_contents. rewrite Hm. by erewrite mem_store_lookup.
    + intros t Ht. by rewrite mem_store_other.
  - done.
  - done.
  - done.
  - done.
  - done.
  - done.
  - done.
  - done.
  - intros r tx. by destruct (_ && _).
Qed.

End MemNebari.
