(* ===== verification/Document.v ===== *)
(** * Documents: ids, revisions and headers

    [bonsaidb-core/src/document/id.rs] with the textual form of an id,
    [document/revision.rs], [document/header.rs], and the (de)serialization of
    stored documents in [bonsaidb-local/src/database.rs]. *)

From Stdlib Require Import ZArith Lia.
From stdpp Require Import base list option numbers.
From S2P Require Import Prelude Bytes Utf8.

Local Open Scope Z_scope.

(** ** [DocumentId] *)

Definition MAX_LENGTH : Z := 65_535.

Inductive DocumentIdError := DocumentIdTooLong | InvalidHexadecimal.

(** [TryFrom<&[u8]> for DocumentId]. *)
Definition document_id_try_from (bs : bytes) : res DocumentIdError bytes :=
  if blen bs <=? MAX_LENGTH then Ok bs else Err DocumentIdTooLong.

(** [DocumentId::from_u64]. *)
Definition document_id_from_u64 (id : Z) : bytes := to_be_bytes u64 id.

(** [{:x}] of a nibble and of an integer below 2^64. *)
Definition hex_digit (n : Z) : Z := if n <? 10 then 48 + n else 87 + n.
Fixpoint lower_hex (fuel : nat) (n : Z) : list Z :=
  match fuel with
  | O => []
  | S fuel => if n <? 16 then [hex_digit n] else lower_hex fuel (n / 16) ++ [hex_digit (n `mod` 16)]
  end.
Definition format_x (n : Z) : list Z := lower_hex 16 n.
(** [{:02x}] of a byte. *)
Definition format_02x (b : Z) : list Z := [hex_digit (b / 16); hex_digit (b `mod` 16)].

Definition dollar : Z := 36.

Definition printable (b : Z) : bool := (32 <=? b) && (b <=? 127).

(** The zero bytes an id starts with, and the rest. *)
Fixpoint split_zeroes (bs : bytes) : nat * bytes :=
  match bs with
  | [] => (O, [])
  | b :: rest => if b =? 0 then let (n, r) := split_zeroes rest in (S n, r) else (O, bs)
  end.

(** [Display for DocumentId]. *)
Definition document_id_display (id : bytes) : list Z :=
  if bool_decide (is_Some (from_utf8 id)) && forallb printable id then id
  else
    match split_zeroes id with
    | (first_nonzero_byte, b :: rest) =>
        (if (0 <? first_nonzero_byte)%nat then format_x (Z.of_nat first_nonzero_byte) ++ [dollar]
         else [dollar]) ++ format_x b ++ concat (format_02x <$> rest)
    | (_, []) => format_x (blen id) ++ [dollar]
    end.

Definition decode_hex_nibble (byte : Z) : res DocumentIdError Z :=
  if (48 <=? byte) && (byte <=? 57) then Ok (byte - 48)
  else if (65 <=? byte) && (byte <=? 70) then Ok (byte - 65 + 10)
  else if (97 <=? byte) && (byte <=? 102) then Ok (byte - 97 + 10)
  else Err InvalidHexadecimal.

(** The loop over [chunks_exact(2)]. *)
Fixpoint decode_hex_chunks (bs : bytes) : res DocumentIdError bytes :=
  match bs with
  | [] => Ok []
  | [_] => Err InvalidHexadecimal
  | u :: l :: rest =>
      upper ← decode_hex_nibble u;
      lower ← decode_hex_nibble l;
      out ← decode_hex_chunks rest;
      Ok (Z.lor (Z.shiftl upper 4) lower :: out)
  end.

Definition decode_big_endian_hex (bs : bytes) : res DocumentIdError bytes :=
  if Nat.even (length bs) then decode_hex_chunks bs
  else match bs with
       | [] => Ok []
       | b :: rest =>
           first ← decode_hex_nibble b;
           out ← decode_hex_chunks rest;
           Ok (first :: out)
       end.

Fixpoint find_dollar (bs : bytes) : option nat :=
  match bs with
  | [] => None
  | b :: rest => if b =? dollar then Some O else S <$> find_dollar rest
  end.

(** [FromStr for DocumentId], on the bytes of the string. *)
Definition document_id_from_str (bs : bytes) : res DocumentIdError bytes :=
  match bs with
  | [] => Ok []
  | _ =>
      match find_dollar bs with
      | Some pound_offset =>
          if (5 <? pound_offset)%nat then Err DocumentIdTooLong
          else
            preceding_zeroes ←
              (if (0 <? pound_offset)%nat then
                 length ← decode_big_endian_hex (take pound_offset bs);
                 if 8 <? blen length then Panic else Ok (from_be length)
               else Ok 0);
            id ← decode_big_endian_hex (drop (S pound_offset) bs);
            if 0 <? preceding_zeroes then
              if MAX_LENGTH <? preceding_zeroes + blen id then Err DocumentIdTooLong
              else Ok (replicate (Z.to_nat preceding_zeroes) 0 ++ id)
            else Ok id
      | None =>
          if MAX_LENGTH <? blen bs then Err DocumentIdTooLong else document_id_try_from bs
      end
  end.

(** ** Hexadecimal round trips *)

Lemma decode_hex_digit n : 0 <= n < 16 -> decode_hex_nibble (hex_digit n) = Ok n.
Proof.
  intros Hn. unfold hex_digit, decode_hex_nibble. destruct (Z.ltb_spec n 10).
  - rewrite (proj2 (Z.leb_le 48 _)), (proj2 (Z.leb_le _ 57)) by lia. simpl. f_equal. lia.
  - rewrite (proj2 (Z.leb_gt _ 57)) by lia. rewrite andb_false_r.
    rewrite (proj2 (Z.leb_gt _ 70)) by lia. rewrite andb_false_r.
    rewrite (proj2 (Z.leb_le 97 _)), (proj2 (Z.leb_le _ 102)) by lia. simpl. f_equal. lia.
Qed.

Lemma nibbles_join u l : 0 <= u -> 0 <= l < 16 -> Z.lor (Z.shiftl u 4) l = u * 16 + l.
Proof.
  intros Hu Hl. rewrite Z.shiftl_mul_pow2 by lia. change (2 ^ 4) with 16.
  assert (Z.land (u * 16) l = 0) as Hz.
  { apply Z.bits_inj_0. intros i. rewrite Z.land_spec. change 16 with (2 ^ 4).
    destruct (Z.ltb_spec i 4).
    - destruct (Z.ltb_spec i 0); [by rewrite Z.testbit_neg_r|].
      by rewrite Z.mul_pow2_bits_low.
    - rewrite (Z.bits_above_log2 l); [apply andb_false_r|lia|].
      destruct (decide (l = 0)) as [->|]; [simpl; lia|].
      apply Z.log2_lt_pow2; [lia|]. apply Z.lt_le_trans with (2 ^ 4); [simpl; lia|].
      apply Z.pow_le_mono_r; lia. }
  pose proof (Z.add_lor_land (u * 16) l). lia.
Qed.

Lemma decode_byte_hex b rest :
  byte_ok b -> decode_hex_chunks (format_02x b ++ rest) = (cons b <$> decode_hex_chunks rest).
Proof.
  unfold byte_ok. intros Hb. unfold format_02x. cbn [app decode_hex_chunks].
  rewrite !decode_hex_digit by zdm. cbn [mbind res_bind].
  rewrite nibbles_join by zdm. replace (_ * 16 + _) with b by zdm.
  by destruct (decode_hex_chunks rest).
Qed.

Lemma decode_bytes_hex bs :
  bytes_ok bs -> decode_hex_chunks (concat (format_02x <$> bs)) = Ok bs.
Proof.
  induction 1 as [|b bs Hb Hbs IH]; [done|]. cbn [fmap list_fmap concat].
  by rewrite decode_byte_hex, IH by done.
Qed.

Lemma concat_hex_even bs : Nat.even (length (concat (format_02x <$> bs))) = true.
Proof. induction bs; [done|]. simpl. done. Qed.

(** A number's hexadecimal digits without leading zero, as the decoder reads
    them back into bytes. *)
Lemma lower_hex_byte fuel b : 0 <= b < 256 ->
  lower_hex (S (S fuel)) b = if b <? 16 then [hex_digit b] else format_02x b.
Proof.
  intros Hb. cbn [lower_hex]. destruct (Z.ltb_spec b 16); [done|].
  rewrite (proj2 (Z.ltb_lt (b / 16) 16)) by zdm. done.
Qed.

Lemma decode_hex_bytes b bs :
  byte_ok b -> b <> 0 -> bytes_ok bs ->
  decode_big_endian_hex (format_x b ++ concat (format_02x <$> bs)) = Ok (b :: bs).
Proof.
  intros Hb Hnz Hbs. unfold format_x. rewrite lower_hex_byte by done. unfold decode_big_endian_hex.
  rewrite length_app. destruct (Z.ltb_spec b 16).
  - cbn [length]. rewrite Nat.even_add, concat_hex_even. cbn.
    unfold byte_ok in Hb. rewrite decode_hex_digit by lia. cbn.
    by rewrite decode_bytes_hex.
  - rewrite Nat.even_add, concat_hex_even. cbn [length format_02x Nat.even Bool.eqb].
    rewrite decode_byte_hex, decode_bytes_hex by done. done.
Qed.

Lemma format_x_step n : 16 <= n < 2 ^ 60 -> format_x n = format_x (n / 16) ++ [hex_digit (n `mod` 16)].
Proof.
  intros Hn. unfold format_x.
  assert (forall fuel k, (0 < fuel)%nat -> 0 <= k < 16 ^ Z.of_nat fuel -> lower_hex (S fuel) k = lower_hex fuel k) as Hf.
  { induction fuel as [|fuel IH]; intros k Hfu Hk; [lia|].
    change (lower_hex (S (S fuel)) k) with
      (if k <? 16 then [hex_digit k] else lower_hex (S fuel) (k / 16) ++ [hex_digit (k `mod` 16)]).
    change (lower_hex (S fuel) k) with
      (if k <? 16 then [hex_digit k] else lower_hex fuel (k / 16) ++ [hex_digit (k `mod` 16)]).
    destruct (Z.ltb_spec k 16); [done|]. rewrite Nat2Z.inj_succ, Z.pow_succ_r in Hk by lia.
    rewrite IH; [done| |zdm]. destruct fuel; [simpl in Hk; lia|lia]. }
  change (lower_hex 16 n) with
    (if n <? 16 then [hex_digit n] else lower_hex 15 (n / 16) ++ [hex_digit (n `mod` 16)]).
  rewrite (proj2 (Z.ltb_ge n 16)) by lia.
  rewrite (Hf 15%nat (n / 16)); [reflexivity|lia|].
  change (16 ^ Z.of_nat 15) with (2 ^ 60). zdm.
Qed.

Lemma format_x_digit n : 0 <= n < 16 -> format_x n = [hex_digit n].
Proof. intros. unfold format_x. cbn [lower_hex]. by rewrite (proj2 (Z.ltb_lt n 16)) by lia. Qed.

Lemma hex_digit_not_dollar n : 0 <= n < 16 -> hex_digit n <> dollar.
Proof. intros. unfold hex_digit, dollar. destruct (n <? 10); lia. Qed.

Lemma hex_digit_mod n : 0 <= n `mod` 16 < 16.
Proof. apply Z.mod_pos_bound. lia. Qed.

(** The digits of a count of zero bytes: at most four, none of them [$], read
    back as the count. *)
Lemma count_digits n :
  0 < n <= MAX_LENGTH ->
  exists out, decode_big_endian_hex (format_x n) = Ok out /\ from_be out = n /\ blen out <= 8 /\
    (0 < length (format_x n) <= 4)%nat /\ Forall (fun b => b <> dollar) (format_x n).
Proof.
  unfold MAX_LENGTH. intros Hn.
  destruct (Z.ltb_spec n 16).
  { rewrite format_x_digit by lia. exists [n]. unfold decode_big_endian_hex. simpl.
    rewrite decode_hex_digit by lia. split; [done|]. split; [done|]. split; [done|]. split; [lia|].
    constructor; [apply hex_digit_not_dollar; lia|done]. }
  rewrite format_x_step by lia. destruct (Z.ltb_spec n 256).
  { rewrite format_x_digit by zdm. exists [n]. unfold decode_big_endian_hex. simpl.
    rewrite !decode_hex_digit by zdm. simpl. rewrite nibbles_join by zdm.
    replace (_ * 16 + _) with n by zdm. split; [done|]. split; [done|]. split; [done|]. split; [lia|].
    repeat constructor; apply hex_digit_not_dollar; zdm. }
  rewrite format_x_step by zdm. destruct (Z.ltb_spec n 4096).
  { rewrite format_x_digit by zdm. exists [n / 256; n `mod` 256]. unfold decode_big_endian_hex. simpl.
    rewrite !decode_hex_digit by zdm. simpl. rewrite nibbles_join by zdm.
    replace (n / 16 / 16) with (n / 256) by zdm. replace (_ * 16 + _) with (n `mod` 256) by zdm.
    split; [done|]. split; [unfold from_be; simpl; zdm|]. split; [done|]. split; [lia|].
    repeat constructor; apply hex_digit_not_dollar; zdm. }
  rewrite format_x_step by zdm. rewrite format_x_digit by zdm.
  exists [n / 256; n `mod` 256]. unfold decode_big_endian_hex. simpl.
  rewrite !decode_hex_digit by zdm. simpl. rewrite !nibbles_join by zdm.
  replace (n / 16 / 16 / 16 * 16 + (n / 16 / 16) `mod` 16) with (n / 256) by zdm.
  replace (_ * 16 + _) with (n `mod` 256) by zdm.
  split; [done|]. split; [unfold from_be; simpl; zdm|]. split; [done|]. split; [lia|].
  repeat constructor; apply hex_digit_not_dollar; zdm.
Qed.

(** ** Parsing *)

Lemma find_dollar_app pre rest :
  Forall (fun b => b <> dollar) pre -> find_dollar (pre ++ dollar :: rest) = Some (length pre).
Proof.
  induction 1 as [|b pre Hb Hpre IH]; [done|]. cbn [app find_dollar length].
  rewrite (proj2 (Z.eqb_neq b dollar)) by done. by rewrite IH.
Qed.

Lemma find_dollar_None bs : find_dollar bs = None <-> dollar ∉ bs.
Proof.
  induction bs as [|b bs IH]; cbn [find_dollar].
  - split; [intros _; apply not_elem_of_nil|done].
  - rewrite not_elem_of_cons. destruct (Z.eqb_spec b dollar) as [->|Hb]; [naive_solver|].
    destruct (find_dollar bs); simpl; naive_solver.
Qed.

Lemma from_str_dollar pre rest :
  Forall (fun b => b <> dollar) pre -> (length pre <= 5)%nat ->
  document_id_from_str (pre ++ dollar :: rest) =
    (preceding_zeroes ←
       (if (0 <? length pre)%nat then
          length ← decode_big_endian_hex pre;
          if 8 <? blen length then Panic else Ok (from_be length)
        else Ok 0);
     id ← decode_big_endian_hex rest;
     if 0 <? preceding_zeroes then
       if MAX_LENGTH <? preceding_zeroes + blen id then Err DocumentIdTooLong
       else Ok (replicate (Z.to_nat preceding_zeroes) 0 ++ id)
     else Ok id).
Proof.
  intros Hpre Hlen. unfold document_id_from_str. rewrite find_dollar_app by done.
  destruct (pre ++ dollar :: rest) as [|x l] eqn:E; [by destruct pre|]. rewrite <- E. clear E.
  rewrite (proj2 (Nat.ltb_ge 5 (length pre))) by lia.
  replace (take (length pre) (pre ++ dollar :: rest)) with pre by by rewrite take_app_length.
  replace (drop (S (length pre)) (pre ++ dollar :: rest)) with rest; [done|].
  change (dollar :: rest) with ([dollar] ++ rest). rewrite app_assoc.
  rewrite drop_app_length'; [done|]. rewrite length_app. simpl. lia.
Qed.

Lemma split_zeroes_spec bs n r :
  split_zeroes bs = (n, r) -> bs = replicate n 0 ++ r /\ match r with b :: _ => b <> 0 | [] => True end.
Proof.
  revert n r. induction bs as [|b bs IH]; intros n r; cbn [split_zeroes]; [by intros [= <- <-]|].
  destruct (Z.eqb_spec b 0) as [->|Hb]; [|by intros [= <- <-]].
  destruct (split_zeroes bs) as [n' r'] eqn:E. intros [= <- <-].
  destruct (IH n' r' eq_refl) as [-> Hr]. done.
Qed.

Lemma printable_utf8 bs : forallb printable bs = true -> from_utf8 bs = Some bs.
Proof.
  induction bs as [|b bs IH]; [done|]. cbn [forallb from_utf8]. unfold printable at 1.
  rewrite !andb_true_iff, !Z.leb_le. intros [[H1 H2] Hbs].
  rewrite (proj2 (Z.ltb_lt b 128)), (proj2 (Z.leb_le 0 b)) by lia. by rewrite IH.
Qed.

Lemma from_str_zeroes n bs rest :
  0 < Z.of_nat n -> Z.of_nat n + blen bs <= MAX_LENGTH -> decode_big_endian_hex rest = Ok bs ->
  document_id_from_str (format_x (Z.of_nat n) ++ dollar :: rest) = Ok (replicate n 0 ++ bs).
Proof.
  intros Hn Hmax Hrest. pose proof (blen_nonneg bs).
  destruct (count_digits (Z.of_nat n)) as (out & Hdec & Hbe & H8 & Hlen & Hnd); [lia|].
  rewrite from_str_dollar by (done || lia). rewrite (proj2 (Nat.ltb_lt 0 _)) by lia.
  rewrite Hdec. cbn [mbind res_bind]. rewrite (proj2 (Z.ltb_ge 8 _)) by lia. cbn [mbind res_bind].
  rewrite Hrest, Hbe. cbn [mbind res_bind].
  rewrite (proj2 (Z.ltb_lt 0 _)), (proj2 (Z.ltb_ge MAX_LENGTH _)) by lia. by rewrite Nat2Z.id.
Qed.

(** A document id is read back from its textual form, for every id within
    the maximum length except printable ones that contain a [$]. *)
Theorem document_id_display_parse id :
  bytes_ok id -> blen id <= MAX_LENGTH -> forallb printable id = false \/ dollar ∉ id ->
  document_id_from_str (document_id_display id) = Ok id.
Proof.
  intros Hok Hmax Hd. unfold document_id_display. destruct (forallb printable id) eqn:Hp.
  - rewrite (printable_utf8 id Hp), bool_decide_eq_true_2 by by eexists. simpl.
    destruct Hd as [|Hd%find_dollar_None]; [done|]. destruct id as [|b id]; [done|].
    unfold document_id_from_str. rewrite Hd. rewrite (proj2 (Z.ltb_ge MAX_LENGTH _)) by lia.
    unfold document_id_try_from. by rewrite (proj2 (Z.leb_le _ MAX_LENGTH)).
  - rewrite andb_false_r. destruct (split_zeroes id) as [n [|b rest]] eqn:Hs;
      apply split_zeroes_spec in Hs as [-> Hnz].
    + rewrite app_nil_r in *. unfold blen in *. rewrite length_replicate in *.
      destruct (decide (n = 0%nat)) as [->|]; [done|].
      rewrite (from_str_zeroes n []) by (done || lia || (unfold blen; simpl; lia)).
      by rewrite app_nil_r.
    + apply Forall_app in Hok as [_ Hok]. inversion Hok as [|? ? Hb Hrest]; subst.
      pose proof (decode_hex_bytes b rest Hb Hnz Hrest) as Hdec.
      rewrite blen_app in Hmax. assert (blen (replicate n 0) = Z.of_nat n) as Hlen.
      { unfold blen. by rewrite length_replicate. }
      destruct (Nat.ltb_spec 0 n).
      * rewrite <- app_assoc. apply from_str_zeroes; [lia|lia|done].
      * replace n with 0%nat by lia.
        etrans; [apply (from_str_dollar [] (format_x b ++ concat (format_02x <$> rest)));
          [constructor|simpl; lia]|].
        cbn [length Nat.ltb Nat.leb mbind res_bind]. by rewrite Hdec.
Qed.

Lemma document_id_display_parse_witness :
  document_id_from_str (document_id_display [0; 10; 175; 250]) = Ok [0; 10; 175; 250] /\
  document_id_display [0; 10; 175; 250] = [49; 36; 97; 97; 102; 102; 97].
Proof.
  split; [|reflexivity]. apply (document_id_display_parse [0; 10; 175; 250]).
  - repeat constructor; vm_compute; intuition discriminate.
  - vm_compute. discriminate.
  - left. reflexivity.
Defined.

Lemma decode_hex_chunks_length bs out :
  decode_hex_chunks bs = Ok out -> blen bs = 2 * blen out.
Proof.
  revert bs. induction out as [|o out IH]; intros [|u [|l rest]] Hd; simpl in Hd; try done; inv_res.
  - done.
  - match goal with H : _ :: _ = _ :: _ |- _ => injection H as ? ?; subst end.
    match goal with H : decode_hex_chunks _ = Ok _ |- _ => apply IH in H end.
    unfold blen in *. simpl length. lia.
Qed.

Lemma decode_big_endian_length bs out :
  decode_big_endian_hex bs = Ok out -> 2 * blen out <= blen bs + 1.
Proof.
  unfold decode_big_endian_hex. destruct (Nat.even (length bs)).
  - intros ->%decode_hex_chunks_length. lia.
  - destruct bs as [|b bs]; [intros [= <-]; unfold blen; simpl; lia|]. intros Hd. inv_res.
    match goal with H : decode_hex_chunks _ = Ok _ |- _ => apply decode_hex_chunks_length in H end.
    subst. unfold blen in *. simpl length. lia.
Qed.

(** The textual form is ASCII, so its bytes are its characters. *)
Definition ascii_char (c : Z) : Prop := 0 <= c < 128.
Lemma as_bytes_ascii s : Forall ascii_char s -> as_bytes s = s.
Proof.
  induction 1 as [|c s Hc Hs IH]; [done|]. cbn [as_bytes]. rewrite IH. unfold encode_char, ascii_char in *.
  by rewrite (proj2 (Z.ltb_lt c 128)) by lia.
Qed.
Lemma hex_digit_ascii n : 0 <= n < 16 -> ascii_char (hex_digit n).
Proof. intros Hn. unfold hex_digit, ascii_char. destruct (Z.ltb_spec n 10); lia. Qed.
Lemma lower_hex_ascii fuel n : 0 <= n -> Forall ascii_char (lower_hex fuel n).
Proof.
  revert n. induction fuel as [|fuel IH]; intros n Hn; cbn [lower_hex]; [constructor|].
  destruct (Z.ltb_spec n 16); [constructor; [by apply hex_digit_ascii|constructor]|].
  apply Forall_app. split; [apply IH; zdm|]. constructor; [apply hex_digit_ascii; zdm|constructor].
Qed.
Lemma hex_bytes_ascii bs : bytes_ok bs -> Forall ascii_char (concat (format_02x <$> bs)).
Proof.
  induction 1 as [|b bs Hb Hbs IH]; [constructor|]. unfold byte_ok in Hb. cbn.
  repeat constructor; [apply hex_digit_ascii; zdm..|done].
Qed.
Lemma document_id_display_ascii id : bytes_ok id -> Forall ascii_char (document_id_display id).
Proof.
  intros Hok. unfold document_id_display. destruct (bool_decide _ && forallb printable id) eqn:Hp.
  { apply andb_true_iff in Hp as [_ Hp]. apply Forall_forall. intros b Hb. rewrite forallb_forall in Hp.
    specialize (Hp b Hb). unfold printable in Hp. apply andb_true_iff in Hp as [H1%Z.leb_le H2%Z.leb_le].
    unfold ascii_char. lia. }
  destruct (split_zeroes id) as [n rest] eqn:Hs. apply split_zeroes_spec in Hs as [-> _]. apply Forall_app in Hok as [_ Hok].
  assert (ascii_char dollar) as Hdollar by (unfold ascii_char, dollar; lia).
  destruct rest as [|b rest]; [apply Forall_app; split; [apply lower_hex_ascii; unfold blen; lia|by constructor]|].
  inversion Hok as [|? ? Hb Hrest]; subst. unfold byte_ok in Hb. apply Forall_app. split.
  { destruct (0 <? n)%nat; [apply Forall_app; split; [apply lower_hex_ascii; lia|]|]; by constructor. }
  apply Forall_app. split; [apply lower_hex_ascii; lia|by apply hex_bytes_ascii].
Qed.

(** A printable id that contains a [$] is never read back from its textual
    form: the form is the id itself, and the parser takes the [$] as the mark
    of the hexadecimal form. *)
Theorem document_id_dollar_not_parsed id :
  forallb printable id = true -> dollar ∈ id ->
  document_id_display id = id /\ document_id_from_str (document_id_display id) <> Ok id.
Proof.
  intros Hp Hd. assert (document_id_display id = id) as ->.
  { unfold document_id_display. by rewrite (printable_utf8 id Hp), Hp. }
  split; [done|]. intros Hparse. destruct id as [|b0 id]; [by apply elem_of_nil in Hd|].
  unfold document_id_from_str in Hparse.
  destruct (find_dollar (b0 :: id)) as [off|] eqn:Ho; [|by apply find_dollar_None in Ho].
  destruct (5 <? off)%nat; [done|]. apply bind_Ok_inv in Hparse as (zeroes & _ & Hparse).
  apply bind_Ok_inv in Hparse as (out & Hl%decode_big_endian_length & Hparse).
  destruct (Z.ltb_spec 0 zeroes); [destruct (MAX_LENGTH <? _); [done|]|]; apply Ok_inj in Hparse.
  - destruct (Z.to_nat zeroes) as [|m] eqn:Hm; [lia|].
    simpl in Hparse. injection Hparse as <- _. simpl in Hp. done.
  - subst out. unfold blen in Hl. rewrite length_drop in Hl. simpl in Hl. lia.
Qed.

Lemma document_id_dollar_not_parsed_witness :
  document_id_display [97; 36; 98] = [97; 36; 98] /\
  document_id_from_str (document_id_display [97; 36; 98]) <> Ok [97; 36; 98].
Proof.
  apply (document_id_dollar_not_parsed [97; 36; 98]); [reflexivity|]. right. left.
Defined.

(** The parser does not bound the hexadecimal form: from a [$] followed by
    [n] two-digit bytes it builds an id of [n] bytes, past [MAX_LENGTH] too. *)
Theorem document_id_parse_unbounded bs :
  bytes_ok bs ->
  document_id_from_str (dollar :: concat (format_02x <$> bs)) = Ok bs /\
  (MAX_LENGTH < blen bs -> document_id_try_from bs = Err DocumentIdTooLong).
Proof.
  intros Hok. split.
  - etrans; [apply (from_str_dollar []); [constructor|simpl; lia]|].
    cbn [length Nat.ltb Nat.leb mbind res_bind]. unfold decode_big_endian_hex.
    rewrite concat_hex_even. by rewrite decode_bytes_hex.
  - intros Hl. unfold document_id_try_from. by rewrite (proj2 (Z.leb_gt _ MAX_LENGTH)).
Qed.

Lemma document_id_parse_unbounded_witness :
  document_id_from_str (dollar :: concat (format_02x <$> replicate (Z.to_nat 70_000) 1)) =
    Ok (replicate (Z.to_nat 70_000) 1).
Proof.
  apply (document_id_parse_unbounded (replicate (Z.to_nat 70_000) 1)).
  apply Forall_replicate. split; [discriminate|reflexivity].
Defined.
