(* ===== verification/Names.v ===== *)
(** * Schema names and tree names

    [bonsaidb-core/src/schema/names.rs]: names, qualified names, collection and
    view names with their escaped textual form; and the names of the trees
    derived from them in [bonsaidb-local/src/views.rs] and
    [bonsaidb-local/src/database.rs]. *)

From Stdlib Require Import ZArith Lia String.
From stdpp Require Import base list option numbers countable.
From S2P Require Import Prelude Bytes Utf8 Nebari Document.

Local Open Scope Z_scope.

(** ** [Name] *)

Record Name := MkName { name : str; needs_escaping : bool }.

Definition is_ascii_alphanumeric (b : Z) : bool :=
  ((48 <=? b) && (b <=? 57)) || ((65 <=? b) && (b <=? 90)) || ((97 <=? b) && (b <=? 122)).
Definition plain (b : Z) : bool := is_ascii_alphanumeric b || (b =? 45).

(** [From<Cow<str>> for Name], [From<&str>], [From<String>]. *)
Definition name_from (value : str) : Name :=
  MkName value (negb (forallb plain (as_bytes value))).

Definition underscore : Z := 95.
Definition dot : Z := 46.

Definition nibble_to_hex_char (nibble : Z) : Z := if nibble <=? 9 then 48 + nibble else 97 + nibble - 10.

Definition escape_byte (b : Z) : list Z :=
  if plain b then [b]
  else [underscore; nibble_to_hex_char (Z.shiftr b 4); nibble_to_hex_char (Z.land b 15)].

(** [Display for Name] with the alternate flag, that is [Name::encoded]. *)
Definition name_encoded (n : Name) : list Z :=
  if needs_escaping n then concat (escape_byte <$> as_bytes (name n)) else name n.

Definition hex_char_to_nibble (c : Z) : option Z :=
  if (48 <=? c) && (c <=? 57) then Some (c - 48)
  else if (97 <=? c) && (c <=? 102) then Some (c - 97 + 10)
  else None.
Definition hex_chars_to_byte (high low : Z) : option Z :=
  match hex_char_to_nibble high, hex_char_to_nibble low with
  | Some high, Some low => Some (Z.lor (Z.shiftl high 4) low)
  | _, _ => None
  end.

Inductive InvalidNameError := InvalidName (s : list Z).

(** The loop of [Name::parse_encoded], over the bytes of the encoded name. *)
Fixpoint unescape_name (bs : bytes) : option bytes :=
  match bs with
  | [] => Some []
  | b :: rest =>
      if b =? underscore then
        match rest with
        | high :: low :: rest =>
            match hex_chars_to_byte high low with
            | Some byte => cons byte <$> unescape_name rest
            | None => None
            end
        | _ => None
        end
      else cons b <$> unescape_name rest
  end.

Definition name_parse_encoded (encoded : str) : res InvalidNameError Name :=
  match unescape_name (as_bytes encoded) ≫= from_utf8 with
  | Some decoded => Ok (name_from decoded)
  | None => Err (InvalidName encoded)
  end.

(** ** Qualified names *)

Record QualifiedName := MkQualified { authority : Name; qname : Name }.
(** [SchemaName] and [CollectionName] wrap a qualified name. *)
Definition CollectionName := QualifiedName.
Definition SchemaName := QualifiedName.

Definition qualified_new (a n : str) : QualifiedName := MkQualified (name_from a) (name_from n).

Definition qualified_encoded (q : QualifiedName) : list Z :=
  name_encoded (authority q) ++ dot :: name_encoded (qname q).

(** [str::split('.')]. *)
Fixpoint split_dots (s : list Z) : list (list Z) :=
  match s with
  | [] => [[]]
  | c :: s =>
      if c =? dot then [] :: split_dots s
      else match split_dots s with
           | part :: parts => (c :: part) :: parts
           | [] => [[c]]
           end
  end.

Definition qualified_parse_encoded (s : list Z) : res InvalidNameError QualifiedName :=
  match split_dots s with
  | [a; n] =>
      a ← name_parse_encoded a;
      n ← name_parse_encoded n;
      Ok (MkQualified a n)
  | _ => Err (InvalidName s)
  end.

Record ViewName := MkViewName { collection : CollectionName; vname : Name }.

Definition view_encoded (v : ViewName) : list Z :=
  qualified_encoded (collection v) ++ dot :: name_encoded (vname v).

(** [str::rsplit_once('.')]. *)
Fixpoint rsplit_once (s : list Z) : option (list Z * list Z) :=
  match s with
  | [] => None
  | c :: s =>
      match rsplit_once s with
      | Some (a, b) => Some (c :: a, b)
      | None => if c =? dot then Some ([], s) else None
      end
  end.

(** [FromStr for ViewName]. *)
Definition view_from_str (s : list Z) : res InvalidNameError ViewName :=
  match rsplit_once s with
  | None => Err (InvalidName s)
  | Some (first, view_name) =>
      c ← qualified_parse_encoded first;
      n ← name_parse_encoded view_name;
      Ok (MkViewName c n)
  end.

(** ** Tree names *)

Definition document_tree_name (c : CollectionName) : str := lit "collection." ++ qualified_encoded c.
Definition view_entries_tree_name (v : ViewName) : str := lit "view." ++ view_encoded v.
Definition view_document_map_tree_name (v : ViewName) : str :=
  lit "view." ++ view_encoded v ++ lit ".document-map".
Definition view_invalidated_docs_tree_name (v : ViewName) : str :=
  lit "view." ++ view_encoded v ++ lit ".invalidated".
(** The tree older versions kept; [ViewVersion::cleanup] deletes it. *)
Definition view_omitted_tree_name (v : ViewName) : str :=
  lit "view." ++ view_encoded v ++ lit ".omitted".
Definition view_versions_tree_name (c : CollectionName) : str :=
  lit "view-versions." ++ qualified_encoded c.

(** ** Well-formed names *)

(** Names are built by [name_from] from Rust strings. *)
Definition name_wf (n : Name) : Prop := is_str (name n) = true /\ n = name_from (name n).
Definition qualified_wf (q : QualifiedName) : Prop := name_wf (authority q) /\ name_wf (qname q).
Definition view_wf (v : ViewName) : Prop := qualified_wf (collection v) /\ name_wf (vname v).

#[export] Instance Name_eq_dec : EqDecision Name.
Proof. solve_decision. Defined.
#[export] Instance QualifiedName_eq_dec : EqDecision QualifiedName.
Proof. solve_decision. Defined.
#[export] Instance ViewName_eq_dec : EqDecision ViewName.
Proof. solve_decision. Defined.
#[export] Instance Name_countable : Countable Name.
Proof.
  apply (inj_countable' (fun n => (name n, needs_escaping n)) (fun p => MkName p.1 p.2)). by intros [].
Defined.
#[export] Instance QualifiedName_countable : Countable QualifiedName.
Proof.
  apply (inj_countable' (fun n => (authority n, qname n)) (fun p => MkQualified p.1 p.2)). by intros [].
Defined.

(** ** Escaping round trip *)

Lemma plain_spec b : plain b = true -> 0 <= b < 128 /\ b <> underscore /\ b <> dot.
Proof.
  unfold plain, is_ascii_alphanumeric, underscore, dot.
  rewrite !orb_true_iff, !andb_true_iff, !Z.leb_le, Z.eqb_eq. lia.
Qed.

Lemma hex_nibble_roundtrip n : 0 <= n < 16 -> hex_char_to_nibble (nibble_to_hex_char n) = Some n.
Proof.
  intros Hn. unfold nibble_to_hex_char, hex_char_to_nibble. destruct (Z.leb_spec n 9).
  - rewrite (proj2 (Z.leb_le 48 _)), (proj2 (Z.leb_le _ 57)) by lia. simpl. f_equal. lia.
  - rewrite (proj2 (Z.leb_gt _ 57)), andb_false_r by lia.
    rewrite (proj2 (Z.leb_le 97 _)), (proj2 (Z.leb_le _ 102)) by lia. simpl. f_equal. lia.
Qed.

Lemma nibble_char_spec n : 0 <= n < 16 ->
  0 <= nibble_to_hex_char n < 128 /\ nibble_to_hex_char n <> dot.
Proof. intros. unfold nibble_to_hex_char, dot. destruct (n <=? 9) eqn:E; [apply Z.leb_le in E|apply Z.leb_gt in E]; lia. Qed.

Lemma byte_nibbles b : byte_ok b ->
  Z.shiftr b 4 = b / 16 /\ Z.land b 15 = b `mod` 16.
Proof.
  intros Hb. rewrite Z.shiftr_div_pow2 by lia. change 15 with (Z.ones 4). by rewrite Z.land_ones by lia.
Qed.

Lemma unescape_escape_byte b rest :
  byte_ok b -> unescape_name (escape_byte b ++ rest) = cons b <$> unescape_name rest.
Proof.
  intros Hb. unfold escape_byte. destruct (plain b) eqn:Hp.
  - apply plain_spec in Hp as (_ & Hu & _). cbn [app unescape_name].
    by rewrite (proj2 (Z.eqb_neq b underscore)).
  - destruct (byte_nibbles b Hb) as [-> ->]. unfold byte_ok in Hb.
    cbn [app unescape_name]. change (underscore =? underscore) with true. cbn iota.
    unfold hex_chars_to_byte. rewrite !hex_nibble_roundtrip by zdm.
    rewrite nibbles_join by zdm. by replace (b / 16 * 16 + b `mod` 16) with b by zdm.
Qed.

Lemma unescape_escape bs : bytes_ok bs -> unescape_name (concat (escape_byte <$> bs)) = Some bs.
Proof.
  induction 1 as [|b bs Hb Hbs IH]; [done|]. cbn [fmap list_fmap concat].
  by rewrite unescape_escape_byte, IH by done.
Qed.

Lemma plain_escape bs : forallb plain bs = true -> concat (escape_byte <$> bs) = bs.
Proof.
  induction bs as [|b bs IH]; [done|]. cbn [forallb fmap list_fmap concat]. rewrite andb_true_iff.
  intros [Hb Hbs]. unfold escape_byte at 1. rewrite Hb, IH by done. done.
Qed.

Lemma ascii_as_bytes s : Forall (fun b => 0 <= b < 128) s -> as_bytes s = s.
Proof.
  induction 1 as [|c s Hc Hs IH]; [done|]. cbn [as_bytes]. rewrite IH. unfold encode_char.
  by rewrite (proj2 (Z.ltb_lt c 128)) by lia.
Qed.

Lemma escaped_chars bs :
  bytes_ok bs -> Forall (fun b => 0 <= b < 128 /\ b <> dot) (concat (escape_byte <$> bs)).
Proof.
  induction 1 as [|b bs Hb Hbs IH]; [constructor|]. cbn [fmap list_fmap concat]. apply Forall_app.
  split; [|done]. unfold escape_byte. destruct (plain b) eqn:Hp.
  - apply plain_spec in Hp. repeat constructor; tauto || lia.
  - destruct (byte_nibbles b Hb) as [-> ->]. unfold byte_ok in Hb.
    repeat constructor; try apply nibble_char_spec; try zdm; done.
Qed.

Lemma as_bytes_plain s : is_str s = true -> forallb plain (as_bytes s) = true -> as_bytes s = s.
Proof.
  intros Hs Hp. assert (from_utf8 (as_bytes s) = Some (as_bytes s)) as Hu.
  { generalize dependent (as_bytes s). intros bs Hp. induction bs as [|b bs IH]; [done|].
    cbn [forallb] in Hp. apply andb_true_iff in Hp as [Hb%plain_spec Hbs]. cbn [from_utf8].
    rewrite (proj2 (Z.ltb_lt b 128)), (proj2 (Z.leb_le 0 b)) by lia. by rewrite IH. }
  rewrite from_utf8_as_bytes in Hu by done. congruence.
Qed.

Lemma name_encoded_escape n : name_wf n -> name_encoded n = concat (escape_byte <$> as_bytes (name n)).
Proof.
  intros [Hs Hn]. unfold name_encoded. rewrite Hn. cbn [needs_escaping name name_from].
  destruct (forallb plain (as_bytes (name n))) eqn:Hp; [|done]. cbn [negb].
  rewrite plain_escape by done. symmetry. by apply as_bytes_plain.
Qed.

Lemma name_encoded_chars n :
  name_wf n -> Forall (fun b => 0 <= b < 128 /\ b <> dot) (name_encoded n).
Proof. intros Hn. rewrite name_encoded_escape by done. apply escaped_chars, as_bytes_ok, Hn. Qed.

Lemma name_roundtrip n : name_wf n -> name_parse_encoded (name_encoded n) = Ok n.
Proof.
  intros Hn. unfold name_parse_encoded. rewrite ascii_as_bytes.
  2: { eapply List.Forall_impl; [|by apply name_encoded_chars]. simpl. tauto. }
  rewrite name_encoded_escape, unescape_escape by (done || apply as_bytes_ok, Hn). simpl.
  destruct Hn as [Hs Hn]. rewrite from_utf8_as_bytes by done. by rewrite <- Hn.
Qed.

Lemma name_encoded_inj n m : name_wf n -> name_wf m -> name_encoded n = name_encoded m -> n = m.
Proof.
  intros Hn Hm Heq. apply (Ok_inj (E:=InvalidNameError)).
  rewrite <- (name_roundtrip n Hn), <- (name_roundtrip m Hm). by rewrite Heq.
Qed.

(** ** Splitting at dots *)

Definition no_dots (s : list Z) : Prop := Forall (fun c => c <> dot) s.

Lemma name_encoded_no_dots n : name_wf n -> no_dots (name_encoded n).
Proof. intros Hn. eapply List.Forall_impl; [|by apply name_encoded_chars]. simpl. tauto. Qed.

Lemma split_dots_app a rest : no_dots a -> split_dots (a ++ dot :: rest) = a :: split_dots rest.
Proof.
  induction 1 as [|c a Hc Ha IH]; cbn [app split_dots].
  - by rewrite Z.eqb_refl.
  - rewrite (proj2 (Z.eqb_neq c dot)) by done. by rewrite IH.
Qed.

Lemma split_dots_plain a : no_dots a -> split_dots a = [a].
Proof.
  induction 1 as [|c a Hc Ha IH]; cbn [split_dots]; [done|].
  rewrite (proj2 (Z.eqb_neq c dot)) by done. by rewrite IH.
Qed.

Lemma rsplit_once_plain b : no_dots b -> rsplit_once b = None.
Proof.
  induction 1 as [|c b Hc Hb IH]; cbn [rsplit_once]; [done|].
  rewrite IH. by rewrite (proj2 (Z.eqb_neq c dot)).
Qed.

Lemma rsplit_once_app a b : no_dots b -> rsplit_once (a ++ dot :: b) = Some (a, b).
Proof.
  intros Hb. induction a as [|c a IH]; cbn [app rsplit_once].
  - by rewrite rsplit_once_plain, Z.eqb_refl.
  - by rewrite IH.
Qed.

Lemma qualified_roundtrip q : qualified_wf q -> qualified_parse_encoded (qualified_encoded q) = Ok q.
Proof.
  intros [Ha Hn]. unfold qualified_parse_encoded, qualified_encoded.
  rewrite split_dots_app, split_dots_plain by by apply name_encoded_no_dots.
  rewrite !name_roundtrip by done. by destruct q.
Qed.

(** Every name of a collection or view is read back from its encoded form,
    which holds only ASCII letters, digits, [-], [_] and the separating dots. *)
Theorem names_roundtrip v :
  view_wf v ->
  qualified_parse_encoded (qualified_encoded (collection v)) = Ok (collection v) /\
  view_from_str (view_encoded v) = Ok v.
Proof.
  intros [Hc Hn]. split; [by apply qualified_roundtrip|].
  unfold view_from_str, view_encoded. rewrite rsplit_once_app by by apply name_encoded_no_dots.
  rewrite qualified_roundtrip, name_roundtrip by done. by destruct v.
Qed.

Lemma names_roundtrip_witness :
  view_encoded (MkViewName (qualified_new (lit "private") (lit "a.b")) (name_from (lit "by_id"))) =
    lit "private.a_2eb.by_5fid" /\
  view_from_str (lit "private.a_2eb.by_5fid") =
    Ok (MkViewName (qualified_new (lit "private") (lit "a.b")) (name_from (lit "by_id"))).
Proof.
  split; [reflexivity|].
  apply (names_roundtrip (MkViewName (qualified_new (lit "private") (lit "a.b")) (name_from (lit "by_id")))).
  repeat split.
Defined.

(** ** Distinct things live in distinct trees *)

Inductive TreeKind :=
| TDocuments (c : CollectionName)
| TEntries (v : ViewName)
| TDocumentMap (v : ViewName)
| TInvalidated (v : ViewName)
| TOmitted (v : ViewName)
| TVersions (c : CollectionName)
| TKeys.

#[export] Instance TreeKind_eq_dec : EqDecision TreeKind.
Proof. solve_decision. Defined.

Definition tree_name (k : TreeKind) : str :=
  match k with
  | TDocuments c => document_tree_name c
  | TEntries v => view_entries_tree_name v
  | TDocumentMap v => view_document_map_tree_name v
  | TInvalidated v => view_invalidated_docs_tree_name v
  | TOmitted v => view_omitted_tree_name v
  | TVersions c => view_versions_tree_name c
  | TKeys => lit "kv"
  end.

Definition tree_kind_wf (k : TreeKind) : Prop :=
  match k with
  | TDocuments c | TVersions c => qualified_wf c
  | TEntries v | TDocumentMap v | TInvalidated v | TOmitted v => view_wf v
  | TKeys => True
  end.

(** The dot-separated parts of a tree name. *)
Definition qualified_parts (q : QualifiedName) := [name_encoded (authority q); name_encoded (qname q)].
Definition view_parts (v : ViewName) := qualified_parts (collection v) ++ [name_encoded (vname v)].
Definition tree_parts (k : TreeKind) : list str :=
  match k with
  | TDocuments c => lit "collection" :: qualified_parts c
  | TEntries v => lit "view" :: view_parts v
  | TDocumentMap v => lit "view" :: view_parts v ++ [lit "document-map"]
  | TInvalidated v => lit "view" :: view_parts v ++ [lit "invalidated"]
  | TOmitted v => lit "view" :: view_parts v ++ [lit "omitted"]
  | TVersions c => lit "view-versions" :: qualified_parts c
  | TKeys => [lit "kv"]
  end.

Lemma lit_no_dots s : forallb (fun c => negb (c =? dot)) (lit s) = true -> no_dots (lit s).
Proof.
  generalize (lit s). intros l. induction l as [|c l IH]; [constructor|]. simpl.
  rewrite andb_true_iff. intros [Hc Hl]. constructor; [|by apply IH].
  by apply negb_true_iff, Z.eqb_neq in Hc.
Qed.

Lemma split_prefix p rest :
  forallb (fun c => negb (c =? dot)) (lit p) = true ->
  split_dots ((lit p ++ [dot]) ++ rest) = lit p :: split_dots rest.
Proof. intros Hp. rewrite <- app_assoc. apply (split_dots_app (lit p) rest), lit_no_dots, Hp. Qed.

Lemma split_qualified q rest :
  qualified_wf q -> split_dots (qualified_encoded q ++ dot :: rest) = qualified_parts q ++ split_dots rest.
Proof.
  intros [Ha Hn]. unfold qualified_encoded. rewrite <- app_assoc. cbn [app].
  by rewrite !split_dots_app by by apply name_encoded_no_dots.
Qed.

Lemma tree_name_parts k : tree_kind_wf k -> split_dots (tree_name k) = tree_parts k.
Proof.
  assert (forall q, qualified_wf q -> split_dots (qualified_encoded q) = qualified_parts q) as Hq.
  { intros q [Ha Hn]. unfold qualified_encoded.
    by rewrite split_dots_app, split_dots_plain by by apply name_encoded_no_dots. }
  destruct k as [c|v|v|v|v|c|]; cbn [tree_kind_wf tree_name tree_parts]; intros Hw.
  - unfold document_tree_name. rewrite (split_prefix "collection") by done. by rewrite Hq.
  - destruct Hw as [Hc Hn]. unfold view_entries_tree_name, view_encoded.
    rewrite (split_prefix "view"), split_qualified by done.
    by rewrite split_dots_plain by by apply name_encoded_no_dots.
  - destruct Hw as [Hc Hn]. unfold view_document_map_tree_name, view_encoded.
    rewrite (split_prefix "view") by done. rewrite <- app_assoc. cbn [app].
    rewrite split_qualified by done.
    change (lit ".document-map") with (dot :: lit "document-map").
    rewrite split_dots_app by by apply name_encoded_no_dots. by rewrite split_dots_plain by by apply lit_no_dots.
  - destruct Hw as [Hc Hn]. unfold view_invalidated_docs_tree_name, view_encoded.
    rewrite (split_prefix "view") by done. rewrite <- app_assoc. cbn [app].
    rewrite split_qualified by done.
    change (lit ".invalidated") with (dot :: lit "invalidated").
    rewrite split_dots_app by by apply name_encoded_no_dots. by rewrite split_dots_plain by by apply lit_no_dots.
  - destruct Hw as [Hc Hn]. unfold view_omitted_tree_name, view_encoded.
    rewrite (split_prefix "view") by done. rewrite <- app_assoc. cbn [app].
    rewrite split_qualified by done.
    change (lit ".omitted") with (dot :: lit "omitted").
    rewrite split_dots_app by by apply name_encoded_no_dots. by rewrite split_dots_plain by by apply lit_no_dots.
  - unfold view_versions_tree_name. rewrite (split_prefix "view-versions") by done. by rewrite Hq.
  - done.
Qed.

Lemma qualified_parts_inj q q' a b a' b' :
  qualified_wf q -> qualified_wf q' -> qualified_parts q = [a; b] -> qualified_parts q' = [a'; b'] ->
  a = a' -> b = b' -> q = q'.
Proof.
  intros [Ha Hn] [Ha' Hn'] [= <- <-] [= <- <-] E1 E2.
  apply name_encoded_inj in E1, E2; [|done..]. destruct q, q'. simpl in *. congruence.
Qed.

Lemma view_eq v v' :
  view_wf v -> view_wf v' -> name_encoded (authority (collection v)) = name_encoded (authority (collection v')) ->
  name_encoded (qname (collection v)) = name_encoded (qname (collection v')) ->
  name_encoded (vname v) = name_encoded (vname v') -> v = v'.
Proof.
  intros [[Ha Hn] Hv] [[Ha' Hn'] Hv'] E1 E2 E3.
  apply name_encoded_inj in E1, E2, E3; [|done..].
  destruct v as [[??]?], v' as [[??]?]. simpl in *. congruence.
Qed.

Lemma tree_name_inj k k' :
  tree_kind_wf k -> tree_kind_wf k' -> tree_name k = tree_name k' -> k = k'.
Proof.
  intros Hk Hk' Heq. assert (tree_parts k = tree_parts k') as Hp.
  { rewrite <- !tree_name_parts by done. by rewrite Heq. }
  clear Heq. destruct k as [c|v|v|v|v|c|], k' as [c'|v'|v'|v'|v'|c'|]; cbn in Hk, Hk', Hp;
    try discriminate Hp; try done.
  all: try (injection Hp as E1 E2; f_equal; by eapply qualified_parts_inj).
  all: injection Hp as E1 E2 E3; f_equal; by apply view_eq.
Qed.

Lemma tree_names_NoDup (ks : list TreeKind) : NoDup ks -> Forall tree_kind_wf ks -> NoDup (tree_name <$> ks).
Proof.
  induction 1 as [|k ks Hk Hn IH]; intros Hw; [constructor|].
  apply list.Forall_cons in Hw as [Hkw Hw]. csimpl. constructor; [|by apply IH].
  intros (k' & Heq & Hin)%list_elem_of_fmap. rewrite List.Forall_forall in Hw.
  apply tree_name_inj in Heq; [by subst|done|]. by apply Hw, list_elem_of_In.
Qed.

(** The trees of a database do not overlap: two trees (documents of a
    collection, entries, document map, invalidated or formerly omitted documents
    of a view, view versions, key-value store) have the same name only if they are the same. *)
Theorem tree_names_distinct k k' :
  tree_kind_wf k -> tree_kind_wf k' -> tree_name k = tree_name k' -> k = k'.
Proof. apply tree_name_inj. Qed.

Lemma tree_names_distinct_witness :
  tree_name (TDocuments (qualified_new (lit "a") (lit "b"))) <>
  tree_name (TDocuments (qualified_new (lit "a") (lit "b.c"))).
Proof.
  intros Heq. apply (tree_names_distinct _ _) in Heq; [discriminate Heq|repeat split..].
Defined.
