(* ===== verification/Time.v ===== *)
(** * Durations and timestamps of limited resolution

    [bonsaidb-core/src/key/time.rs]: [Duration] and [SystemTime] as keys, the
    resolutions from nanoseconds to weeks, timestamps relative to an epoch, and
    their textual form.  A [Duration] is its number of nanoseconds, a
    [SystemTime] the number of nanoseconds from the Unix epoch, negative before
    it; its seconds fit an [i64]. *)

From Stdlib Require Import ZArith Lia String.
From stdpp Require Import base list option numbers.
From S2P Require Import Prelude Bytes Utf8 Key KeyLaws Digits VarInt Timestamp Nebari Names.

Local Open Scope Z_scope.

(** ** [std::time] *)

Definition duration_checked_add (a b : Z) : option Z := if a + b <=? duration_max then Some (a + b) else None.
(** [impl Sub for Duration]. *)
Definition duration_sub {E} (a b : Z) : res E Z := unwrap (duration_checked_sub a b).
Definition from_secs (n : Z) : Z := n * NANOS.
Definition from_millis (n : Z) : Z := n * 1_000_000.
Definition from_micros (n : Z) : Z := n * 1_000.
Definition from_nanos (n : Z) : Z := n.
Definition as_millis (d : Z) : Z := d / 1_000_000.
Definition as_micros (d : Z) : Z := d / 1_000.
Definition as_nanos (d : Z) : Z := d.
Definition subsec_millis (d : Z) : Z := subsec_nanos d / 1_000_000.
Definition subsec_micros (d : Z) : Z := subsec_nanos d / 1_000.

Definition UNIX_EPOCH : Z := 0.
Definition system_time_ok (t : Z) : bool := (int_min i64 * NANOS <=? t) && (t <=? int_max i64 * NANOS + 999_999_999).
Definition system_checked_add (t d : Z) : option Z := if system_time_ok (t + d) then Some (t + d) else None.
Definition system_checked_sub (t d : Z) : option Z := if system_time_ok (t - d) then Some (t - d) else None.
(** [SystemTime::duration_since]: fails when [earlier] is later. *)
Definition system_duration_since (t earlier : Z) : option Z := duration_checked_sub t earlier.

Section Operators.
Context `{Profile}.
Definition op_mul {E} (t : int_ty) (x y : Z) : res E Z :=
  if in_range t (x * y) then Ok (x * y)
  else if overflow_checks then Panic else Ok (wrap t (x * y)).
(** [x * a * b * ...] *)
Fixpoint op_mul_all {E} (t : int_ty) (x : Z) (factors : list Z) : res E Z :=
  match factors with [] => Ok x | f :: factors => y ← op_mul t x f; op_mul_all t y factors end.
End Operators.

(** ** Signed durations *)

Inductive SignedDuration := Positive (d : Z) | Negative (d : Z).

Definition signed_checked_add {E} (a b : SignedDuration) : res E (option SignedDuration) :=
  match a, b with
  | Positive a, Positive b => Ok (Positive <$> duration_checked_add a b)
  | Negative a, Negative b => Ok (Negative <$> duration_checked_add a b)
  | Positive a, Negative b =>
      match duration_checked_sub a b with
      | Some result => Ok (Some (Positive result))
      | None => d ← duration_sub b a; Ok (Some (Negative d))
      end
  | Negative a, Positive b =>
      match duration_checked_sub a b with
      | Some result => Ok (Some (Negative result))
      | None => d ← duration_sub b a; Ok (Some (Positive d))
      end
  end.

(** [impl Sum<SignedDuration> for Option<SignedDuration>]. *)
Fixpoint signed_fold {E} (sum : option SignedDuration) (l : list SignedDuration) : res E (option SignedDuration) :=
  match l with
  | [] => Ok sum
  | duration :: l =>
      sum ← match sum with Some sum => signed_checked_add sum duration | None => Ok None end;
      signed_fold sum l
  end.
Definition signed_sum {E} (l : list SignedDuration) : res E (option SignedDuration) :=
  match l with [] => Ok None | first :: l => signed_fold (Some first) l end.

(** ** Resolutions *)

Record TimeResolution := MkResolution {
  Representation : int_ty;
  repr_kind : KeyKind;
  FORMAT_SUFFIX : list Z;
  repr_to_duration : Z -> res TimeError SignedDuration;
  duration_to_repr : SignedDuration -> res TimeError Z
}.

Definition delta {A} (o : option A) : res TimeError A := ok_or DeltaNotRepresentable o.
(** [i64::checked_abs] and the conversion to [u64]. *)
Definition abs_u64 (value : Z) : option Z :=
  if value =? int_min i64 then None else try_from_int u64 (Z.abs value).
Definition I64_MIN_ABS_AS_U64 : Z := 9_223_372_036_854_775_808.

Definition Nanoseconds : TimeResolution := {|
  Representation := i64; repr_kind := KI64; FORMAT_SUFFIX := lit "ns";
  repr_to_duration value :=
    match try_from_int u64 value with
    | Some unsigned => Ok (Positive (from_nanos unsigned))
    | None => Ok (Negative (from_nanos (default I64_MIN_ABS_AS_U64 (abs_u64 value))))
    end;
  duration_to_repr duration :=
    match duration with
    | Positive duration => delta (try_from_int i64 (as_nanos duration))
    | Negative duration =>
        let nanos := as_nanos duration in
        match try_from_int i64 nanos with
        | Some nanos => Ok (- nanos)
        | None => if nanos =? I64_MIN_ABS_AS_U64 then Ok (int_min i64) else Err DeltaNotRepresentable
        end
    end |}.

(** Microseconds, milliseconds and seconds differ in the unit. *)
Definition i64_repr_to_duration (from : Z -> Z) (value : Z) : res TimeError SignedDuration :=
  match try_from_int u64 value with
  | Some unsigned => Ok (Positive (from unsigned))
  | None => Ok (Negative (from (default (int_max u64) (abs_u64 value))))
  end.
Definition i64_duration_to_repr (as_unit : Z -> Z) (rounding : Z) (duration : SignedDuration) : res TimeError Z :=
  match duration with
  | Positive duration => delta (try_from_int i64 (as_unit duration))
  | Negative duration =>
      rounded_up ← delta (duration_checked_add duration (from_nanos rounding));
      repr ← delta (try_from_int i64 (as_unit rounded_up));
      Ok (- repr)
  end.

Definition Microseconds : TimeResolution := {|
  Representation := i64; repr_kind := KI64; FORMAT_SUFFIX := lit "us";
  repr_to_duration := i64_repr_to_duration from_micros;
  duration_to_repr := i64_duration_to_repr as_micros 999 |}.
Definition Milliseconds : TimeResolution := {|
  Representation := i64; repr_kind := KI64; FORMAT_SUFFIX := lit "ms";
  repr_to_duration := i64_repr_to_duration from_millis;
  duration_to_repr := i64_duration_to_repr as_millis 999_999 |}.
Definition Seconds : TimeResolution := {|
  Representation := i64; repr_kind := KI64; FORMAT_SUFFIX := lit "s";
  repr_to_duration := i64_repr_to_duration from_secs;
  duration_to_repr := i64_duration_to_repr as_secs 999_999_999 |}.

Section Coarse.
Context `{Profile}.

(** Minutes, hours, days and weeks: [i32] multiples of some seconds. *)
Definition i32_repr_to_duration (factors : list Z) (value : Z) : res TimeError SignedDuration :=
  match try_from_int u64 value with
  | Some unsigned => secs ← op_mul_all u64 unsigned factors; Ok (Positive (from_secs secs))
  | None =>
      positive ← unwrap (try_from_int u64 (Z.abs value));
      secs ← op_mul_all u64 positive factors; Ok (Negative (from_secs secs))
  end.
(** [(duration.as_secs() + FACTOR - 1) / FACTOR] *)
Definition secs_rounded_up (FACTOR : Z) (duration : Z) : res TimeError Z :=
  a ← op_add u64 (as_secs duration) FACTOR; b ← op_sub u64 a 1; Ok (b / FACTOR).

Definition Minutes : TimeResolution := {|
  Representation := i32; repr_kind := KI32; FORMAT_SUFFIX := lit "m";
  repr_to_duration := i32_repr_to_duration [60];
  duration_to_repr duration :=
    match duration with
    | Positive duration => delta (try_from_int i32 (as_secs duration / 60))
    | Negative duration =>
        a ← op_add u64 (as_secs duration) 59;
        repr ← delta (try_from_int i32 (a / 60)); Ok (- repr)
    end |}.

Definition Hours : TimeResolution :=
  let FACTOR := 60 * 60 in {|
  Representation := i32; repr_kind := KI32; FORMAT_SUFFIX := lit "h";
  repr_to_duration := i32_repr_to_duration [60; 60];
  duration_to_repr duration :=
    match duration with
    | Positive duration => delta (try_from_int i32 (as_secs duration / FACTOR))
    | Negative duration =>
        n ← secs_rounded_up FACTOR duration; repr ← delta (try_from_int i32 n); Ok (- repr)
    end |}.

Definition Days : TimeResolution :=
  let FACTOR := 24 * 60 * 60 in {|
  Representation := i32; repr_kind := KI32; FORMAT_SUFFIX := lit "d";
  repr_to_duration := i32_repr_to_duration [24; 60; 60];
  duration_to_repr duration :=
    match duration with
    | Positive duration => delta (try_from_int i32 (as_secs duration / FACTOR))
    | Negative duration =>
        n ← secs_rounded_up FACTOR duration;
        Ok (match try_from_int i32 n with Some repr => - repr | None => int_min i32 end)
    end |}.

Definition Weeks : TimeResolution :=
  let FACTOR := 7 * 24 * 60 * 60 in {|
  Representation := i32; repr_kind := KI32; FORMAT_SUFFIX := lit "w";
  repr_to_duration := i32_repr_to_duration [7; 24; 60; 60];
  duration_to_repr duration :=
    match duration with
    | Positive duration => delta (try_from_int i32 (as_secs duration / FACTOR))
    | Negative duration =>
        n ← secs_rounded_up FACTOR duration; repr ← delta (try_from_int i32 n); Ok (- repr)
    end |}.

Definition resolutions : list TimeResolution :=
  [Nanoseconds; Microseconds; Milliseconds; Seconds; Minutes; Hours; Days; Weeks].
End Coarse.

(** ** [LimitedResolutionDuration]: its representation *)

Section Limited.
Context (R : TimeResolution).

(** [Display]. *)
Definition limited_display (representation : Z) : list Z := display_int representation ++ FORMAT_SUFFIX R.
(** [TryFrom<Duration>], and back. *)
Definition limited_try_from (duration : Z) : res TimeError Z := duration_to_repr R (Positive duration).
Definition duration_try_from (representation : Z) : res TimeError Z :=
  match repr_to_duration R representation with
  | Ok (Positive value) => Ok value
  | Panic => Panic
  | _ => Err DeltaNotRepresentable
  end.

(** [Result::ok], with the panics kept apart. *)
Definition ok {A} (m : res TimeError A) : res TimeError (option A) :=
  match m with Ok a => Ok (Some a) | Err _ => Ok None | Panic => Panic end.

(** [impl Sum for Option<LimitedResolutionDuration>]. *)
Fixpoint limited_fold (sum : option SignedDuration) (l : list Z) : res TimeError (option SignedDuration) :=
  match l with
  | [] => Ok sum
  | dur :: l =>
      sum ← match sum with
            | Some sum =>
                dur ← ok (repr_to_duration R dur);
                match dur with Some dur => signed_checked_add sum dur | None => Ok None end
            | None => Ok None
            end;
      limited_fold sum l
  end.
Definition limited_sum (l : list Z) : res TimeError (option Z) :=
  duration ← match l with
             | [] => Ok None
             | first :: l => first ← ok (repr_to_duration R first); limited_fold first l
             end;
  match duration with Some dur => ok (duration_to_repr R dur) | None => Ok None end.

(** ** [LimitedResolutionTimestamp]: its representation *)

Record TimeEpoch := MkEpoch { epoch_name : list Z; epoch_offset : Z }.
Definition UnixEpoch : TimeEpoch := MkEpoch (lit "Unix") 0.
Definition BonsaiEpoch : TimeEpoch := MkEpoch (lit "BonsaiDb") (1_931_747_507 * NANOS).

Context (E : TimeEpoch).

Definition duration_since_unix_epoch (time : Z) : res TimeError Z :=
  relative_offset ← repr_to_duration R time;
  match relative_offset with
  | Positive offset => delta (duration_checked_add (epoch_offset E) offset)
  | Negative offset => delta (duration_checked_sub (epoch_offset E) offset)
  end.

(** [duration_since] and [duration_between] another timestamp, given its
    duration since the Unix epoch. *)
Definition duration_since (time : Z) (other : res TimeError Z) : res TimeError (option Z) :=
  self_delta ← duration_since_unix_epoch time;
  other_delta ← other;
  Ok (duration_checked_sub self_delta other_delta).
Definition duration_between (time : Z) (other : res TimeError Z) : res TimeError Z :=
  self_delta ← duration_since_unix_epoch time;
  other_delta ← other;
  if self_delta <? other_delta then duration_sub other_delta self_delta else duration_sub self_delta other_delta.

(** [display] and [to_timestamp_string]. *)
Definition to_timestamp_string (time : Z) : res TimeError (list Z) :=
  since_epoch ← duration_since_unix_epoch time;
  let secs := display_uint (as_secs since_epoch) in
  if 0 <? subsec_nanos since_epoch then
    if subsec_nanos since_epoch `mod` 1_000_000 =? 0 then
      Ok (secs ++ dot :: pad_zeros 3 (display_uint (subsec_millis since_epoch)))
    else if subsec_nanos since_epoch `mod` 1_000 =? 0 then
      Ok (secs ++ dot :: pad_zeros 6 (display_uint (subsec_micros since_epoch)))
    else Ok (secs ++ dot :: pad_zeros 9 (display_uint (subsec_nanos since_epoch)))
  else Ok secs.
(** [Display]. *)
Definition timestamp_display (time : Z) : res TimeError (list Z) :=
  s ← ok (to_timestamp_string time);
  Ok (match s with Some s => s | None => limited_display time end).

(** [FromStr]. *)
Definition invalid {A} (o : option A) : res TimeError A := ok_or InvalidValue o.
Definition parse_duration `{Profile} (s : list Z) : res TimeError Z :=
  match split_dots s with
  | [] => Err InvalidValue
  | seconds :: parts =>
      seconds ← invalid (parse_uint u64 seconds);
      match parts with
      | [] => Ok (from_secs seconds)
      | subseconds_str :: parts =>
          let len := blen (as_bytes subseconds_str) in
          if (9 <? len) || negb (bool_decide (parts = [])) then Err InvalidValue
          else
            subseconds ← invalid (parse_uint u32 subseconds_str);
            nanos ← op_mul u32 subseconds (10 ^ (9 - len));
            duration_new seconds nanos
      end
  end.
Definition timestamp_from_str `{Profile} (s : list Z) : res TimeError Z :=
  duration ← parse_duration s;
  let epoch := epoch_offset E in
  duration ←
    (if duration <? epoch then d ← duration_sub epoch duration; Ok (Negative d)
     else d ← duration_sub duration epoch; Ok (Positive d));
  duration_to_repr R duration.

(** [TryFrom<SystemTime>], and back. *)
Definition timestamp_try_from (time : Z) : res TimeError Z :=
  epoch ← delta (system_checked_add UNIX_EPOCH (epoch_offset E));
  match system_duration_since time epoch with
  | Some duration => duration_to_repr R (Positive duration)
  | None =>
      match system_duration_since epoch time with
      | Some duration => duration_to_repr R (Negative duration)
      | None => Err DeltaNotRepresentable
      end
  end.
Definition system_time_try_from (time : Z) : res TimeError Z :=
  since_epoch ← repr_to_duration R time;
  epoch ← delta (system_checked_add UNIX_EPOCH (epoch_offset E));
  delta (match since_epoch with
         | Positive since_epoch => system_checked_add epoch since_epoch
         | Negative since_epoch => system_checked_sub epoch since_epoch
         end).
(** [now], given what [SystemTime::now()] returns. *)
Definition timestamp_now (system_now : Z) : res TimeError Z :=
  match timestamp_try_from system_now with Ok time => Ok time | _ => Panic end.
End Limited.

(** ** Keys *)

Section Keys.
Context `{OrderedVarint}.

Definition decode_repr (t : int_ty) (src : ByteSource) : res KeyError Z :=
  map_err (fun _ => KeyTimeError InvalidValue) (decode_variable t (as_ref src)).

Definition key_duration : key_ty := {|
  k_type := Z; k_wf := duration_ok; k_cmp := Z.compare;
  LENGTH := None;
  describe := [visit_composite (KStruct "std::time::Duration") 1; visit_type KUnsigned];
  as_ord_bytes d :=
    let merged := Z.lor (Z.shiftl (as_secs d) 30) (subsec_nanos d) in
    match encode_variable u128 merged with Ok bs => Ok bs | _ => Panic end;
  CAN_OWN_BYTES := false;
  from_ord_bytes src :=
    merged ← decode_repr u128 src;
    seconds ← ok_or (KeyTimeError DeltaNotRepresentable) (try_from_int u64 (Z.shiftr merged 30));
    nanos ← unwrap (try_from_int u32 (Z.land merged (2 ^ 30 - 1)));
    duration_new seconds nanos;
  first_value := default_first_value; next_value := default_next_value |}.

Definition key_system_time : key_ty := {|
  k_type := Z; k_wf t := system_time_ok t = true; k_cmp := Z.compare;
  LENGTH := None;
  describe := [visit_composite (KStruct "std::time::SystemTime") 1; visit_type KUnsigned];
  as_ord_bytes t :=
    since_epoch ← unwrap (system_duration_since t UNIX_EPOCH);
    as_ord_bytes key_duration since_epoch;
  CAN_OWN_BYTES := false;
  from_ord_bytes src :=
    since_epoch ← from_ord_bytes key_duration src;
    ok_or (KeyTimeError DeltaNotRepresentable) (system_checked_add UNIX_EPOCH since_epoch);
  first_value := default_first_value; next_value := default_next_value |}.

Definition key_limited (R : TimeResolution) : key_ty := {|
  k_type := Z; k_wf x := in_range (Representation R) x = true; k_cmp := Z.compare;
  LENGTH := None;
  describe := [visit_composite (KStruct "bonsaidb::core::key::time::LimitedResolutionDuration") 1;
               visit_type (repr_kind R)];
  as_ord_bytes x := map_err (fun _ => KeyTimeError InvalidValue) (encode_variable (Representation R) x);
  CAN_OWN_BYTES := false;
  from_ord_bytes := decode_repr (Representation R);
  first_value := default_first_value; next_value := default_next_value |}.

Definition key_limited_timestamp (R : TimeResolution) (E : TimeEpoch) : key_ty := {|
  k_type := Z; k_wf x := in_range (Representation R) x = true; k_cmp := Z.compare;
  LENGTH := None;
  describe := [visit_composite (KStruct "bonsaidb::core::key::time::LimitedResolutionTimestamp") 1;
               visit_composite_attribute "epoch" (AttrU128 (as_nanos (epoch_offset E)));
               visit_type (repr_kind R)];
  as_ord_bytes := as_ord_bytes (key_limited R);
  CAN_OWN_BYTES := false;
  from_ord_bytes := from_ord_bytes (key_limited R);
  first_value := default_first_value; next_value := default_next_value |}.
End Keys.
