(* ===== verification/TimeTheorems.v ===== *)
(** * Time keys

    What a resolution promises ([Resolution]), an instance for each of the eight
    of [key/time.rs], and the theorems on timestamps against that interface:
    converting and printing lose nothing, and encoded timestamps sort like the
    moments they stand for. *)

From Stdlib Require Import ZArith Lia.
From stdpp Require Import base list option numbers.
From S2P Require Import Prelude Bytes Utf8 Key KeyLaws CompositeKeyLaws Digits VarInt Timestamp Nebari Names Time.

Local Open Scope Z_scope.

(** ** Signed durations *)

Definition denote (d : SignedDuration) : Z := match d with Positive d => d | Negative d => - d end.
Definition signed (z : Z) : SignedDuration := if z <? 0 then Negative (- z) else Positive z.
Definition signed_ok (d : SignedDuration) : Prop := match d with Positive d | Negative d => duration_ok d end.

Lemma denote_signed z : denote (signed z) = z.
Proof. unfold signed. destruct (z <? 0); simpl; lia. Qed.

Lemma signed_signed_ok z : - duration_max <= z <= duration_max -> signed_ok (signed z).
Proof. unfold signed. destruct (Z.ltb_spec z 0); simpl; unfold duration_ok; lia. Qed.

(** Adding signed durations is exact, and fails only when the sum is not
    representable. *)
Lemma signed_checked_add_exact E a b :
  signed_ok a -> signed_ok b ->
  match signed_checked_add (E := E) a b with
  | Ok (Some c) => signed_ok c /\ denote c = denote a + denote b
  | Ok None => duration_max < Z.abs (denote a + denote b)
  | _ => False
  end.
Proof.
  destruct a as [a|a], b as [b|b]; simpl; unfold duration_ok, duration_checked_add, duration_sub, duration_checked_sub;
    intros Ha Hb;
    repeat match goal with |- context [?x <=? ?y] => destruct (Z.leb_spec x y); simpl end;
    unfold duration_ok; lia.
Qed.

(** ** What a resolution promises *)

Class Resolution (R : TimeResolution) (unit : Z) : Prop := {
  unit_pos : 0 < unit;
  unit_fits : (2 ^ (int_bits (Representation R) - 1) - 1) * unit <= duration_max;
  repr_type : Representation R = i64 \/ Representation R = i32;
  (** Representations are multiples of the unit. *)
  repr_exact r : in_range (Representation R) r = true -> r <> int_min (Representation R) ->
    repr_to_duration R r = Ok (signed (r * unit));
  repr_least : exists d, repr_to_duration R (int_min (Representation R)) = Ok (Negative d) /\
    duration_ok d /\ - int_min (Representation R) * unit <= d;
  (** and are what their duration is converted to. *)
  to_repr_exact r : in_range (Representation R) r = true -> r <> int_min (Representation R) ->
    duration_to_repr R (signed (r * unit)) = Ok r
}.

Lemma try_from_u64 r : - 2 ^ 63 <= r < 2 ^ 63 -> try_from_int u64 r = if r <? 0 then None else Some r.
Proof.
  intros Hr. unfold try_from_int, in_range. change (int_min u64) with 0. change (int_max u64) with (2 ^ 64 - 1).
  destruct (Z.ltb_spec r 0), (Z.leb_spec 0 r); try lia; [done|]. by rewrite (proj2 (Z.leb_le r _)) by lia.
Qed.

Lemma try_from_Some t x : in_range t x = true -> try_from_int t x = Some x.
Proof. unfold try_from_int. by intros ->. Qed.

(** The products the resolutions compute. *)
Lemma signed_scale r unit : 0 < unit -> signed (r * unit) = if r <? 0 then Negative (- r * unit) else Positive (r * unit).
Proof.
  intros Hu. unfold signed. destruct (Z.ltb_spec r 0), (Z.ltb_spec (r * unit) 0); try nia; [f_equal; lia|done].
Qed.

Lemma i64_facts : int_min i64 = - 2 ^ 63 /\ int_max i64 = 2 ^ 63 - 1 /\ int_max u64 = 2 ^ 64 - 1 /\ int_min i32 = - 2 ^ 31
  /\ int_max i32 = 2 ^ 31 - 1 /\ int_min u64 = 0.
Proof. done. Qed.

Ltac ranges := pose proof i64_facts; destruct_and?; rewrite ?in_range_spec in *.

Lemma div_exact r unit k : 0 < unit -> 0 <= k < unit -> (r * unit + k) / unit = r.
Proof. intros. rewrite Z.div_add_l, Z.div_small by lia. lia. Qed.

#[export] Instance Nanoseconds_resolution : Resolution Nanoseconds 1.
Proof.
  split; cbn [Representation Nanoseconds repr_to_duration duration_to_repr]; [lia|vm_compute; congruence|auto|..].
  - intros r Hr Hne. ranges. rewrite try_from_u64 by lia. rewrite signed_scale by lia. unfold abs_u64, from_nanos.
    rewrite (proj2 (Z.eqb_neq _ _) Hne). rewrite try_from_Some by (ranges; lia). destruct (Z.ltb_spec r 0); repeat f_equal; simpl; lia.
  - exists (2 ^ 63). split_and!; [reflexivity|unfold duration_ok; vm_compute; split; congruence|vm_compute; congruence].
  - intros r Hr Hne. rewrite signed_scale by lia. ranges. unfold delta, as_nanos.
    destruct (Z.ltb_spec r 0); rewrite try_from_Some by (ranges; lia); simpl; f_equal; lia.
Qed.

(** Microseconds, milliseconds and seconds. *)
Lemma i64_resolution R unit from as_unit :
  0 < unit -> (2 ^ 64 - 1) * unit <= duration_max ->
  Representation R = i64 -> (forall n, from n = n * unit) -> (forall d, as_unit d = d / unit) ->
  repr_to_duration R = i64_repr_to_duration from -> duration_to_repr R = i64_duration_to_repr as_unit (unit - 1) ->
  Resolution R unit.
Proof.
  intros Hu Hfit Ht Hfrom Has Hrepr Hto. split; rewrite ?Ht, ?Hrepr, ?Hto; [done|change (int_bits i64) with 64; nia|by left|..].
  - intros r Hr Hne. ranges. unfold i64_repr_to_duration. rewrite try_from_u64 by lia. rewrite signed_scale by done.
    unfold abs_u64. rewrite (proj2 (Z.eqb_neq _ _) Hne). rewrite try_from_Some by (ranges; lia).
    destruct (Z.ltb_spec r 0); simpl; rewrite Hfrom; repeat f_equal; lia.
  - exists ((2 ^ 64 - 1) * unit). unfold i64_repr_to_duration. rewrite try_from_u64 by (ranges; lia). simpl.
    rewrite Hfrom. ranges. split_and!; [done|unfold duration_ok; lia|nia].
  - intros r Hr Hne. rewrite signed_scale by done. ranges. unfold i64_duration_to_repr, delta, duration_checked_add, from_nanos.
    destruct (Z.ltb_spec r 0).
    + rewrite (proj2 (Z.leb_le _ _)) by nia. simpl. rewrite Has, div_exact by lia.
      rewrite try_from_Some by (ranges; lia). simpl. f_equal. lia.
    + rewrite Has. replace (r * unit) with (r * unit + 0) by lia. rewrite div_exact by lia.
      by rewrite try_from_Some by (ranges; lia).
Qed.

#[export] Instance Microseconds_resolution : Resolution Microseconds 1_000.
Proof. eapply (i64_resolution _ _ from_micros as_micros); done. Qed.
#[export] Instance Milliseconds_resolution : Resolution Milliseconds 1_000_000.
Proof. eapply (i64_resolution _ _ from_millis as_millis); done. Qed.
#[export] Instance Seconds_resolution : Resolution Seconds NANOS.
Proof. eapply (i64_resolution _ _ from_secs as_secs); done. Qed.

Section Coarse.
Context `{Profile}.

Definition product (l : list Z) : Z := foldr Z.mul 1 l.

Lemma product_pos l : Forall (fun f => 0 < f) l -> 0 < product l.
Proof. induction 1; simpl; [lia|nia]. Qed.

Lemma op_mul_all_ok E t x l :
  Forall (fun f => 0 < f) l -> int_min t <= 0 <= x -> x * product l <= int_max t ->
  op_mul_all (E := E) t x l = Ok (x * product l).
Proof.
  intros Hl. revert x. induction Hl as [|f l Hf Hl IH]; intros x Hx Hmax; simpl in *; [f_equal; lia|].
  pose proof (product_pos l Hl) as HP. assert (0 <= x * f) as H0 by nia.
  assert (x * f * 1 <= x * f * product l) as H1 by (apply Z.mul_le_mono_nonneg_l; lia).
  unfold op_mul. rewrite (proj2 (in_range_spec t (x * f))) by lia. simpl. rewrite IH by lia. f_equal. lia.
Qed.

(** Minutes, hours, days and weeks. *)
Lemma i32_resolution R factors :
  let FACTOR := product factors in
  Forall (fun f => 0 < f) factors -> 2 ^ 31 * FACTOR * NANOS <= duration_max ->
  Representation R = i32 -> repr_to_duration R = i32_repr_to_duration factors ->
  (forall d, duration_to_repr R (Positive d) = delta (try_from_int i32 (as_secs d / FACTOR))) ->
  (forall n, 0 < n < 2 ^ 31 -> duration_to_repr R (Negative (n * (FACTOR * NANOS))) = Ok (- n)) ->
  Resolution R (FACTOR * NANOS).
Proof.
  intros FACTOR Hl Hfit Ht Hrepr Hpos Hneg. pose proof (product_pos _ Hl) as HF. fold FACTOR in HF.
  assert (0 < NANOS) as HN by done. assert (0 < FACTOR * NANOS) as Hu by nia.
  assert (2 ^ 31 * FACTOR <= int_max u64) as Hmax by (unfold duration_max, NANOS in Hfit; lia).
  assert (forall x, 0 <= x <= 2 ^ 31 -> op_mul_all (E := TimeError) u64 x factors = Ok (x * FACTOR)) as Hmul.
  { intros x Hx. apply op_mul_all_ok; [done|split; [done|lia]|]. fold FACTOR. nia. }
  split; rewrite ?Ht, ?Hrepr; [done|change (int_bits i32) with 32; nia|by right|..].
  - intros r Hr _. ranges. unfold i32_repr_to_duration, from_secs. rewrite try_from_u64 by lia. rewrite signed_scale by done.
    destruct (Z.ltb_spec r 0).
    + rewrite try_from_Some by (ranges; lia). simpl. rewrite Hmul by lia. simpl. rewrite Z.abs_neq by lia. do 2 f_equal. ring.
    + rewrite Hmul by lia. simpl. do 2 f_equal. ring.
  - exists (2 ^ 31 * (FACTOR * NANOS)). ranges. unfold i32_repr_to_duration, from_secs. rewrite H3.
    rewrite try_from_u64 by lia. cbn [Z.ltb Z.compare Z.opp]. rewrite try_from_Some by done. simpl unwrap. cbn [mbind res_bind].
    change (Z.abs (- 2 ^ 31)) with (2 ^ 31). rewrite Hmul by lia. cbn [mbind res_bind].
    split_and!; [do 2 f_equal; lia|unfold duration_ok; lia|lia].
  - intros r Hr Hne. rewrite signed_scale by done. ranges. destruct (Z.ltb_spec r 0).
    + rewrite Hneg by lia. f_equal. lia.
    + rewrite Hpos. unfold delta, as_secs. rewrite Z.mul_assoc, Z.div_mul by lia. rewrite Z.div_mul by lia.
      by rewrite try_from_Some by (ranges; lia).
Qed.

(** Rounding a multiple of the factor up. *)
Lemma secs_rounded_up_exact FACTOR n :
  0 < FACTOR <= 2 ^ 20 -> 0 < n < 2 ^ 31 -> secs_rounded_up FACTOR (n * (FACTOR * NANOS)) = Ok n.
Proof.
  intros HF Hn. unfold secs_rounded_up, as_secs. rewrite Z.mul_assoc, Z.div_mul by done. ranges.
  rewrite op_add_ok by (ranges; nia). simpl. rewrite op_sub_ok by (ranges; nia). simpl.
  replace (n * FACTOR + FACTOR - 1) with (n * FACTOR + (FACTOR - 1)) by lia. by rewrite div_exact by lia.
Qed.

#[export] Instance Minutes_resolution : Resolution Minutes (60 * NANOS).
Proof.
  apply (i32_resolution Minutes [60]); [by repeat constructor|by vm_compute|done..|].
  intros n Hn. cbn [duration_to_repr Minutes]. unfold as_secs. rewrite Z.mul_assoc, Z.div_mul by done.
  change (product [60]) with 60. ranges. rewrite op_add_ok by (ranges; nia). cbn [mbind res_bind].
  rewrite div_exact by lia. by rewrite try_from_Some by (ranges; lia).
Qed.
#[export] Instance Hours_resolution : Resolution Hours (3_600 * NANOS).
Proof.
  apply (i32_resolution Hours [60; 60]); [by repeat constructor|by vm_compute|done..|].
  intros n Hn. cbn [duration_to_repr Hours]. change (product [60; 60]) with (60 * 60).
  rewrite secs_rounded_up_exact by lia. cbn [mbind res_bind]. by rewrite try_from_Some by (ranges; lia).
Qed.
#[export] Instance Days_resolution : Resolution Days (86_400 * NANOS).
Proof.
  apply (i32_resolution Days [24; 60; 60]); [by repeat constructor|by vm_compute|done..|].
  intros n Hn. cbn [duration_to_repr Days]. change (product [24; 60; 60]) with (24 * 60 * 60).
  rewrite secs_rounded_up_exact by lia. cbn [mbind res_bind]. by rewrite try_from_Some by (ranges; lia).
Qed.
#[export] Instance Weeks_resolution : Resolution Weeks (604_800 * NANOS).
Proof.
  apply (i32_resolution Weeks [7; 24; 60; 60]); [by repeat constructor|by vm_compute|done..|].
  intros n Hn. cbn [duration_to_repr Weeks]. change (product [7; 24; 60; 60]) with (7 * 24 * 60 * 60).
  rewrite secs_rounded_up_exact by lia. cbn [mbind res_bind]. by rewrite try_from_Some by (ranges; lia).
Qed.
End Coarse.

(** ** Timestamps *)

Definition epochs : list TimeEpoch := [UnixEpoch; BonsaiEpoch].

Section Timestamps.
Context (R : TimeResolution) (unit : Z) `{!Resolution R unit} (E : TimeEpoch).
(** An epoch whose distance from the Unix epoch the resolution can represent. *)
Context (Hepoch : 0 <= epoch_offset E < - int_min (Representation R) * unit).
Context (Hsystem : epoch_offset E <= int_max i64 * NANOS).

Abbreviation in_repr r := (in_range (Representation R) r = true).

Lemma least_before_epoch d :
  repr_to_duration R (int_min (Representation R)) = Ok d -> denote d < - epoch_offset E.
Proof. destruct (repr_least (R := R)) as (d' & -> & _ & Hd). intros [= <-]. simpl. lia. Qed.

(** The moment of a timestamp since the Unix epoch, when it can be told, is
    exact. *)
Lemma since_unix_epoch_exact r d :
  in_repr r -> duration_since_unix_epoch R E r = Ok d ->
  r <> int_min (Representation R) /\ d = epoch_offset E + r * unit /\ duration_ok d.
Proof.
  assert (int_max i64 * NANOS <= duration_max) by (by vm_compute). intros Hr. unfold duration_since_unix_epoch. destruct (decide (r = int_min (Representation R))) as [->|Hne].
  - destruct (repr_least (R := R)) as (d' & -> & _ & Hd). simpl. unfold delta, duration_checked_sub.
    rewrite (proj2 (Z.leb_gt d' (epoch_offset E))) by lia. done.
  - rewrite repr_exact by done. simpl. unfold signed, delta, duration_checked_sub, duration_checked_add.
    destruct (Z.ltb_spec (r * unit) 0);
      match goal with |- context [?x <=? ?y] => destruct (Z.leb_spec x y) end; intros [= <-]; unfold duration_ok;
      repeat split; lia || done.
Qed.

(** The signed distance of a moment from the epoch, as [FromStr] and
    [TryFrom<SystemTime>] compute it. *)
Lemma to_repr_since r z :
  in_repr r -> r <> int_min (Representation R) -> z = r * unit ->
  (if z <? 0 then duration_to_repr R (Negative (- z)) else duration_to_repr R (Positive z)) = Ok r.
Proof.
  intros Hr Hne ->. rewrite <- (to_repr_exact (unit := unit) r) by done. unfold signed. by destruct (r * unit <? 0).
Qed.

(** *** Text *)

Lemma as_bytes_digits s : Forall is_digit s -> as_bytes s = s.
Proof.
  induction 1 as [|c s Hc Hs IH]; [done|]. cbn [as_bytes]. rewrite IH. unfold encode_char, is_digit in *.
  by rewrite (proj2 (Z.ltb_lt c 0x80)) by lia.
Qed.

Lemma digits_no_dots s : Forall is_digit s -> no_dots s.
Proof. intros Hs. eapply List.Forall_impl; [|exact Hs]. unfold is_digit. intros c Hc ->. unfold dot in Hc. lia. Qed.

Context `{Profile}.

Lemma parse_whole_seconds n : 0 <= n <= int_max u64 -> parse_duration (display_uint n) = Ok (from_secs n).
Proof.
  intros Hn. destruct (display_uint_spec n) as (Hd & _ & _); [by apply u64_digits|]. unfold parse_duration.
  rewrite split_dots_plain by by apply digits_no_dots. by rewrite parse_display_u64.
Qed.

(** A fraction of [width] digits. *)
Lemma parse_fraction n width v :
  0 <= n <= int_max u64 -> (0 < width <= 9)%nat -> 0 <= v < 10 ^ Z.of_nat width ->
  parse_duration (display_uint n ++ dot :: pad_zeros width (display_uint v)) =
    Ok (n * NANOS + v * 10 ^ (9 - Z.of_nat width)).
Proof.
  intros Hn Hw Hv. destruct (display_uint_spec n) as (Hd & _ & _); [by apply u64_digits|].
  destruct (pad_zeros_spec width v) as (Hp & Hlen & Hval); [lia..|]. set (frac := pad_zeros _ _) in *.
  unfold parse_duration. rewrite split_dots_app by by apply digits_no_dots. rewrite split_dots_plain by by apply digits_no_dots.
  rewrite parse_display_u64 by done. cbn [invalid ok_or mbind res_bind]. rewrite as_bytes_digits by done. unfold blen.
  rewrite Hlen. rewrite (proj2 (Z.ltb_ge 9 (Z.of_nat width))) by lia. cbn [orb negb].
  rewrite bool_decide_true by done. cbn [negb].
  assert (10 ^ Z.of_nat width * 10 ^ (9 - Z.of_nat width) = NANOS) as Hpow
    by (rewrite <- Z.pow_add_r by lia; by replace (Z.of_nat width + (9 - Z.of_nat width)) with 9 by lia).
  assert (0 < 10 ^ (9 - Z.of_nat width)) as Hpos by (apply Z.pow_pos_nonneg; lia).
  assert (v * 10 ^ (9 - Z.of_nat width) < NANOS) as Hlt by nia.
  assert (v < NANOS) as Hv' by nia.
  rewrite parse_uint_digits; [|done|by destruct frac; [simpl in Hlen; lia|]|done|]; rewrite Hval;
    [|eapply Z.le_trans; [apply Z.lt_le_incl, Hv'|by vm_compute]].
  cbn [invalid ok_or mbind res_bind]. unfold op_mul. rewrite (proj2 (in_range_spec u32 _)).
  2: { change (int_min u32) with 0. change (int_max u32) with (2 ^ 32 - 1). unfold NANOS in Hlt. nia. }
  cbn [mbind res_bind]. unfold duration_new. rewrite (proj2 (Z.leb_le _ duration_max)); [done|].
  unfold duration_max, NANOS in *. nia.
Qed.

(** What a timestamp is printed as. *)
Definition print_duration (d : Z) : list Z :=
  let secs := display_uint (as_secs d) in
  if 0 <? subsec_nanos d then
    if subsec_nanos d `mod` 1_000_000 =? 0 then secs ++ dot :: pad_zeros 3 (display_uint (subsec_millis d))
    else if subsec_nanos d `mod` 1_000 =? 0 then secs ++ dot :: pad_zeros 6 (display_uint (subsec_micros d))
    else secs ++ dot :: pad_zeros 9 (display_uint (subsec_nanos d))
  else secs.

Lemma to_timestamp_string_Ok r s :
  to_timestamp_string R E r = Ok s -> exists d, duration_since_unix_epoch R E r = Ok d /\ s = print_duration d.
Proof.
  unfold to_timestamp_string, print_duration. intros Hs. inv_res. exists x. split; [done|].
  repeat match goal with |- context [if ?b then _ else _] => destruct b end; by inv_res.
Qed.

Lemma parse_print_duration d : duration_ok d -> parse_duration (print_duration d) = Ok d.
Proof.
  intros [H0 Hmax]. assert (0 < NANOS) as HN by done. pose proof (Z.div_mod d NANOS ltac:(lia)) as Hdm.
  pose proof (Z.mod_pos_bound d NANOS HN) as Hmod. fold (as_secs d) in Hdm. fold (subsec_nanos d) in Hdm, Hmod.
  assert (0 <= as_secs d <= int_max u64) as Hsecs.
  { split; [by apply Z.div_pos|]. apply Z.lt_succ_r, Z.div_lt_upper_bound; [done|]. unfold duration_max, NANOS in *. lia. }
  assert (forall k, 0 < k -> subsec_nanos d `mod` k = 0 -> subsec_nanos d / k * k = subsec_nanos d) as Hexact.
  { intros k Hk Hz. pose proof (Z.div_mod (subsec_nanos d) k ltac:(lia)). lia. }
  unfold print_duration. destruct (Z.ltb_spec 0 (subsec_nanos d)) as [Hsub|Hsub].
  2: { rewrite parse_whole_seconds by done. f_equal. unfold from_secs. lia. }
  unfold NANOS in Hmod.
  destruct (Z.eqb_spec (subsec_nanos d `mod` 1_000_000) 0) as [Hms|_];
    [|destruct (Z.eqb_spec (subsec_nanos d `mod` 1_000) 0) as [Hus|_]].
  - unfold subsec_millis. rewrite parse_fraction; [|done|lia|].
    + f_equal. change (10 ^ (9 - Z.of_nat 3)) with 1_000_000. rewrite Hexact by done. lia.
    + split; [apply Z.div_pos; lia|]. change (10 ^ Z.of_nat 3) with 1_000. apply Z.div_lt_upper_bound; lia.
  - unfold subsec_micros. rewrite parse_fraction; [|done|lia|].
    + f_equal. change (10 ^ (9 - Z.of_nat 6)) with 1_000. rewrite Hexact by done. lia.
    + split; [apply Z.div_pos; lia|]. change (10 ^ Z.of_nat 6) with 1_000_000. apply Z.div_lt_upper_bound; lia.
  - rewrite parse_fraction; [|done|lia|change (10 ^ Z.of_nat 9) with 1_000_000_000; lia].
    f_equal. change (10 ^ (9 - Z.of_nat 9)) with 1. lia.
Qed.

Lemma from_str_to_string r s :
  in_repr r -> to_timestamp_string R E r = Ok s -> timestamp_from_str R E s = Ok r.
Proof.
  intros Hr (d & Hd & ->)%to_timestamp_string_Ok. destruct (since_unix_epoch_exact r d Hr Hd) as (Hne & Heq & Hok).
  unfold timestamp_from_str. rewrite parse_print_duration by done. cbn [mbind res_bind].
  rewrite <- (to_repr_since r (d - epoch_offset E)) by (done || lia). unfold duration_sub, duration_checked_sub.
  destruct (Z.ltb_spec d (epoch_offset E)), (Z.ltb_spec (d - epoch_offset E) 0); try lia;
    rewrite (proj2 (Z.leb_le _ _)) by lia; cbn [unwrap mbind res_bind]; do 2 f_equal; lia.
Qed.
End Timestamps.

(** ** Truncation *)

(** Resolutions up to a second round down. *)
Class Fine (R : TimeResolution) (unit : Z) : Prop := {
  fine_divides : (unit | NANOS);
  to_repr_floor z r : Z.abs z <= duration_max -> duration_to_repr R (signed z) = Ok r ->
    r = z / unit /\ (exists d, repr_to_duration R r = Ok d /\ denote d = r * unit) /\
    duration_to_repr R (signed (r * unit)) = Ok r
}.

#[export] Instance Nanoseconds_fine : Fine Nanoseconds 1.
Proof.
  split; [by exists NANOS|]. intros z r Hz Hr. rewrite Z.div_1_r. pose proof Hr as Hto. cbn [duration_to_repr Nanoseconds] in Hr.
  assert (in_range i64 r = true /\ r = z) as [Hin ->].
  { ranges. unfold signed, delta, as_nanos, try_from_int in Hr. destruct (Z.ltb_spec z 0).
    - destruct (in_range i64 (- z)) eqn:E; ranges; [injection Hr as <-; lia|].
      unfold I64_MIN_ABS_AS_U64 in Hr. destruct (Z.eqb_spec (- z) 9_223_372_036_854_775_808); [|done].
      injection Hr as <-. lia.
    - destruct (in_range i64 z) eqn:E; [|done]. ranges. injection Hr as <-. lia. }
  split; [done|]. split; [|by rewrite Z.mul_1_r]. destruct (decide (z = int_min i64)) as [->|Hne].
  - exists (Negative (2 ^ 63)). done.
  - exists (signed (z * 1)). rewrite denote_signed. split; [by apply (repr_exact (R := Nanoseconds))|done].
Qed.

Lemma i64_fine R unit as_unit `{!Resolution R unit} :
  0 < unit -> (unit | NANOS) -> Representation R = i64 -> (forall d, as_unit d = d / unit) ->
  duration_to_repr R = i64_duration_to_repr as_unit (unit - 1) -> Fine R unit.
Proof.
  intros Hu Hdiv Ht Has Hto. split; [done|]. intros z r Hz Hr. rewrite Hto in Hr.
  assert (in_range i64 r = true /\ r <> int_min i64 /\ r = z / unit) as (Hin & Hne & ->).
  { ranges. unfold i64_duration_to_repr, signed, delta, duration_checked_add, from_nanos, try_from_int in Hr.
    destruct (Z.ltb_spec z 0).
    - destruct (Z.leb_spec (- z + (unit - 1)) duration_max); [|done]. cbn [ok_or mbind res_bind] in Hr. rewrite Has in Hr.
      destruct (in_range i64 _) eqn:E; [|done]. cbn [ok_or mbind res_bind] in Hr. apply Ok_inj in Hr. ranges.
      assert (0 <= (- z + (unit - 1)) / unit) by (apply Z.div_pos; lia).
      assert (z / unit = - ((- z + (unit - 1)) / unit)) as Heq.
      { symmetry. apply (Z.div_unique z unit _ ((unit - 1) - (- z + (unit - 1)) `mod` unit)).
        - left. pose proof (Z.mod_pos_bound (- z + (unit - 1)) unit Hu). lia.
        - pose proof (Z.div_mod (- z + (unit - 1)) unit ltac:(lia)). lia. }
      lia.
    - rewrite Has in Hr. destruct (in_range i64 _) eqn:E; [|done]. cbn [ok_or] in Hr. apply Ok_inj in Hr. ranges.
      assert (0 <= z / unit) by (apply Z.div_pos; lia). lia. }
  split; [done|]. split; [|apply (to_repr_exact (R := R)); by rewrite Ht].
  exists (signed (z / unit * unit)). rewrite denote_signed. split; [|done]. apply (repr_exact (R := R)); by rewrite Ht.
Qed.

#[export] Instance Microseconds_fine : Fine Microseconds 1_000.
Proof. eapply (i64_fine _ _ as_micros); (done || by exists 1_000_000). Qed.
#[export] Instance Milliseconds_fine : Fine Milliseconds 1_000_000.
Proof. eapply (i64_fine _ _ as_millis); (done || by exists 1_000). Qed.
#[export] Instance Seconds_fine : Fine Seconds NANOS.
Proof. eapply (i64_fine _ _ as_secs); (done || by exists 1). Qed.

(** ** Moments *)

Section Moments.
Context (R : TimeResolution) (unit : Z) `{!Resolution R unit} (E : TimeEpoch).
Context (Hoffset : 0 <= epoch_offset E <= int_max i64 * NANOS).

Lemma epoch_representable : system_checked_add UNIX_EPOCH (epoch_offset E) = Some (epoch_offset E).
Proof.
  unfold system_checked_add, UNIX_EPOCH, system_time_ok. rewrite Z.add_0_l.
  assert (int_min i64 * NANOS <= 0) by (by vm_compute). by rewrite !(proj2 (Z.leb_le _ _)) by lia.
Qed.

(** The two conversions in terms of signed distances from the epoch. *)
Lemma timestamp_try_from_signed t :
  timestamp_try_from R E t = duration_to_repr R (signed (t - epoch_offset E)).
Proof.
  unfold timestamp_try_from. rewrite epoch_representable. cbn [delta ok_or mbind res_bind].
  unfold system_duration_since, duration_checked_sub, signed.
  destruct (Z.leb_spec (epoch_offset E) t), (Z.ltb_spec (t - epoch_offset E) 0); try lia; [done|].
  rewrite (proj2 (Z.leb_le t (epoch_offset E))) by lia. do 2 f_equal. lia.
Qed.

Lemma system_time_try_from_denote r d :
  repr_to_duration R r = Ok d ->
  system_time_try_from R E r = delta (if system_time_ok (epoch_offset E + denote d) then Some (epoch_offset E + denote d) else None).
Proof.
  intros Hd. unfold system_time_try_from. rewrite Hd, epoch_representable. cbn [delta ok_or mbind res_bind].
  destruct d as [d|d]; [done|]. unfold system_checked_sub. simpl. by rewrite Z.add_opp_r.
Qed.

(** Representations are ordered like the moments. *)
Lemma repr_to_duration_total r :
  in_range (Representation R) r = true -> exists d, repr_to_duration R r = Ok d /\
    (r <> int_min (Representation R) -> denote d = r * unit) /\
    (r = int_min (Representation R) -> denote d <= r * unit).
Proof.
  intros Hr. destruct (decide (r = int_min (Representation R))) as [->|Hne].
  - destruct (repr_least (R := R) (unit := unit)) as (d & Hd & _ & Hle). exists (Negative d). simpl. split_and!; [done|done|lia].
  - exists (signed (r * unit)). rewrite denote_signed. split; [by apply repr_exact|done].
Qed.

Lemma moments_ordered r1 r2 t1 t2 :
  in_range (Representation R) r1 = true -> in_range (Representation R) r2 = true ->
  system_time_try_from R E r1 = Ok t1 -> system_time_try_from R E r2 = Ok t2 -> (r1 ?= r2) = (t1 ?= t2).
Proof.
  pose proof (unit_pos (R := R) (unit := unit)) as Hu. intros H1 H2.
  destruct (repr_to_duration_total r1 H1) as (d1 & Hd1 & He1 & Hm1).
  destruct (repr_to_duration_total r2 H2) as (d2 & Hd2 & He2 & Hm2).
  rewrite (system_time_try_from_denote _ _ Hd1), (system_time_try_from_denote _ _ Hd2). unfold delta.
  destruct (system_time_ok (_ + denote d1)); [|done]. destruct (system_time_ok (_ + denote d2)); [|done].
  intros [= <-] [= <-]. apply in_range_spec in H1, H2. symmetry.
  destruct (Z.compare_spec r1 r2) as [->|Hlt|Hlt].
  - apply Z.compare_eq_iff. congruence.
  - apply Z.compare_lt_iff. destruct (decide (r1 = int_min (Representation R))); [|rewrite He1 by done];
      rewrite He2 by lia; [specialize (Hm1 ltac:(done))|]; nia.
  - apply Z.compare_gt_iff. destruct (decide (r2 = int_min (Representation R))); [|rewrite He2 by done];
      rewrite He1 by lia; [specialize (Hm2 ltac:(done))|]; nia.
Qed.

Context `{!Fine R unit}.

Lemma truncated t r :
  (unit | epoch_offset E) -> system_time_ok t = true -> timestamp_try_from R E t = Ok r ->
  exists t', system_time_try_from R E r = Ok t' /\ t' <= t < t' + unit /\ timestamp_try_from R E t' = Ok r.
Proof.
  pose proof (unit_pos (R := R) (unit := unit)) as Hu. intros [k Hk] Ht. unfold system_time_ok in Ht.
  apply andb_true_iff in Ht as [Hlo%Z.leb_le Hhi%Z.leb_le].
  rewrite timestamp_try_from_signed. intros Hr. set (z := t - epoch_offset E) in *.
  assert (Z.abs z <= duration_max) as Hz.
  { assert (- int_min i64 * NANOS + int_max i64 * NANOS <= duration_max) by (by vm_compute).
    assert (int_max i64 * NANOS + 999_999_999 <= duration_max) by (by vm_compute). lia. }
  destruct (to_repr_floor z r Hz Hr) as (Hfloor & (d & Hd & Hden) & Hagain).
  pose proof (Z.div_mod z unit ltac:(lia)) as Hdm. pose proof (Z.mod_pos_bound z unit Hu) as Hmod.
  exists (epoch_offset E + r * unit). rewrite (system_time_try_from_denote _ _ Hd), Hden, Hfloor.
  destruct (fine_divides (R := R) (unit := unit)) as [n Hn].
  assert (int_min i64 * NANOS <= epoch_offset E + z / unit * unit) as Hmin.
  { rewrite Hk, Hn. assert (int_min i64 * n <= k + z / unit); [|nia].
    assert (int_min i64 * n * unit < (k + z / unit + 1) * unit) by (unfold z in *; rewrite Hk, Hn in *; lia). nia. }
  assert (system_time_ok (epoch_offset E + z / unit * unit) = true) as ->.
  { apply andb_true_iff. split; apply Z.leb_le; [exact Hmin|unfold z in *; lia]. }
  split; [done|]. split; [unfold z in *; lia|]. rewrite timestamp_try_from_signed, <- Hfloor.
  by replace (epoch_offset E + r * unit - epoch_offset E) with (r * unit) by lia.
Qed.
End Moments.

(** ** Keys *)

Section TimeKeys.
Context `{OrderedVarint} `{!OrderedVarintLaws _}.

Lemma repr_byte_multiple R unit `{!Resolution R unit} : byte_multiple (Representation R).
Proof. destruct (repr_type (R := R) (unit := unit)) as [->| ->]; by split. Qed.

#[export] Instance key_limited_roundtrip R unit `{!Resolution R unit} : KeyRoundTrip (key_limited R).
Proof.
  pose proof (repr_byte_multiple R unit) as Ht. split; cbn [k_wf as_ord_bytes from_ord_bytes key_limited].
  - intros x bs Hx Hb. inv_res. by eapply varint_bytes_ok.
  - intros x bs src Hx Hb _ <-. inv_res. unfold decode_repr. by erewrite varint_roundtrip.
Qed.
#[export] Instance key_limited_ordered R unit `{!Resolution R unit} : KeyOrdered (key_limited R).
Proof.
  pose proof (repr_byte_multiple R unit) as Ht. intros x y bx b_y. cbn [k_wf as_ord_bytes k_cmp key_limited]. intros.
  inv_res. by eapply varint_ordered.
Qed.
#[export] Instance key_limited_timestamp_roundtrip R unit E `{!Resolution R unit} : KeyRoundTrip (key_limited_timestamp R E).
Proof. destruct (key_limited_roundtrip R unit) as [Hok Hrt]. by split. Qed.
#[export] Instance key_limited_timestamp_ordered R unit E `{!Resolution R unit} : KeyOrdered (key_limited_timestamp R E).
Proof. exact (key_limited_ordered R unit). Qed.

(** *** [Duration] *)

Definition merged (d : Z) : Z := subsec_nanos d + as_secs d * 2 ^ 30.

Lemma subsec_bound d : 0 <= subsec_nanos d < NANOS.
Proof. by apply Z.mod_pos_bound. Qed.

Lemma merged_lor d : Z.lor (Z.shiftl (as_secs d) 30) (subsec_nanos d) = merged d.
Proof.
  rewrite Z.lor_comm. apply lor_shiftl; [done|]. pose proof (subsec_bound d). unfold NANOS in *. lia.
Qed.

Lemma as_secs_bound d : duration_ok d -> 0 <= as_secs d <= int_max u64.
Proof.
  intros [H0 Hmax]. split; [by apply Z.div_pos|]. apply Z.lt_succ_r, Z.div_lt_upper_bound; [done|].
  unfold duration_max, NANOS in *. lia.
Qed.

Lemma merged_range d : duration_ok d -> in_range u128 (merged d) = true.
Proof.
  intros Hd%as_secs_bound. pose proof (subsec_bound d). apply in_range_spec. unfold merged, NANOS in *.
  change (int_min u128) with 0. change (int_max u128) with (2 ^ 128 - 1). ranges. lia.
Qed.

Lemma as_ord_bytes_duration d bs :
  as_ord_bytes key_duration d = Ok bs <-> encode_variable u128 (merged d) = Ok bs.
Proof. cbn [as_ord_bytes key_duration]. rewrite merged_lor. destruct (encode_variable u128 (merged d)); split; congruence. Qed.

Lemma decode_merged d src :
  duration_ok d -> decode_variable u128 (as_ref src) = Ok (merged d) -> from_ord_bytes key_duration src = Ok d.
Proof.
  intros Hd Hdec. pose proof (subsec_bound d) as Hn. pose proof (as_secs_bound d Hd) as Hs.
  cbn [from_ord_bytes key_duration]. unfold decode_repr. rewrite Hdec. cbn [map_err mbind res_bind].
  change (2 ^ 30 - 1) with (Z.ones 30). rewrite Z.shiftr_div_pow2, Z.land_ones by done. unfold merged.
  assert (0 <= subsec_nanos d < 2 ^ 30) as Hn' by (unfold NANOS in Hn; lia).
  rewrite Z.div_add, Z.div_small, Z.add_0_l, Z_mod_plus_full, Z.mod_small by (done || lia).
  rewrite (try_from_Some u64) by (apply in_range_spec; exact Hs). cbn [ok_or mbind res_bind].
  rewrite (try_from_Some u32) by (apply in_range_spec; change (int_min u32) with 0; change (int_max u32) with (2 ^ 32 - 1); lia).
  cbn [unwrap mbind res_bind]. unfold duration_new. pose proof (Z.div_mod d NANOS ltac:(done)) as Hdm.
  fold (as_secs d) (subsec_nanos d) in Hdm. replace (as_secs d * NANOS + subsec_nanos d) with d by lia.
  by rewrite (proj2 (Z.leb_le d duration_max)) by apply Hd.
Qed.

Lemma merged_cmp x y : (merged x ?= merged y) = (x ?= y).
Proof.
  pose proof (subsec_bound x). pose proof (subsec_bound y).
  pose proof (Z.div_mod x NANOS ltac:(done)) as Hx. pose proof (Z.div_mod y NANOS ltac:(done)) as Hy.
  fold (as_secs x) (subsec_nanos x) in Hx. fold (as_secs y) (subsec_nanos y) in Hy. unfold merged, NANOS in *. symmetry.
  destruct (Z.compare_spec (subsec_nanos x + as_secs x * 2 ^ 30) (subsec_nanos y + as_secs y * 2 ^ 30));
    [apply Z.compare_eq_iff|apply Z.compare_lt_iff|apply Z.compare_gt_iff]; lia.
Qed.


#[export] Instance key_duration_roundtrip : KeyRoundTrip key_duration.
Proof.
  split.
  - intros d bs Hd Hb%as_ord_bytes_duration. eapply varint_bytes_ok; [by apply merged_range|exact Hb].
  - intros d bs src Hd Hb%as_ord_bytes_duration _ <-. apply decode_merged; [done|].
    eapply varint_roundtrip; [apply byte_multiple_u128|by apply merged_range|exact Hb].
Qed.
#[export] Instance key_duration_ordered : KeyOrdered key_duration.
Proof.
  intros x y bx b_y Hx Hy Hbx%as_ord_bytes_duration Hby%as_ord_bytes_duration. cbn [k_cmp key_duration].
  rewrite <- merged_cmp. eapply varint_ordered; [apply byte_multiple_u128|by apply merged_range..|done|done].
Qed.

(** A duration can always be encoded. *)
Lemma duration_encodable d : duration_ok d -> exists bs, as_ord_bytes key_duration d = Ok bs.
Proof.
  intros Hd. destruct (is_ok_Ok (encode_variable u128 (merged d))) as [bs Hb].
  - apply varint_encodable; [apply byte_multiple_u128|by apply merged_range|].
    pose proof (as_secs_bound d Hd). pose proof (subsec_bound d). unfold merged, NANOS in *. ranges. lia.
  - exists bs. by apply as_ord_bytes_duration.
Qed.

(** *** [SystemTime] *)

Lemma as_ord_bytes_system_time t bs :
  as_ord_bytes key_system_time t = Ok bs <-> 0 <= t /\ as_ord_bytes key_duration t = Ok bs.
Proof.
  cbn [as_ord_bytes key_system_time]. unfold system_duration_since, duration_checked_sub, UNIX_EPOCH. rewrite Z.sub_0_r.
  destruct (Z.leb_spec 0 t); cbn [unwrap mbind res_bind]; split; [done|by intros [_ ?]|done|by intros [? _]; lia].
Qed.

Lemma system_time_duration t : system_time_ok t = true -> 0 <= t -> duration_ok t.
Proof.
  intros [_ Ht%Z.leb_le]%andb_true_iff H0. split; [done|].
  assert (int_max i64 * NANOS + 999_999_999 <= duration_max) by (by vm_compute). lia.
Qed.

#[export] Instance key_system_time_roundtrip : KeyRoundTrip key_system_time.
Proof.
  split.
  - intros t bs Ht [H0 Hb]%as_ord_bytes_system_time. eapply (key_bytes_ok (k := key_duration)); [|exact Hb].
    by apply system_time_duration.
  - intros t bs src Ht [H0 Hb]%as_ord_bytes_system_time Hal Hs. cbn [from_ord_bytes key_system_time].
    rewrite (key_roundtrip (k := key_duration) t bs src (system_time_duration t Ht H0) Hb Hal Hs).
    cbn [mbind res_bind]. unfold system_checked_add, UNIX_EPOCH. rewrite Z.add_0_l. cbn [k_wf key_system_time] in Ht.
    by rewrite Ht.
Qed.
#[export] Instance key_system_time_ordered : KeyOrdered key_system_time.
Proof.
  intros x y bx b_y Hx Hy [Hx0 Hbx]%as_ord_bytes_system_time [Hy0 Hby]%as_ord_bytes_system_time.
  by apply (key_ordered (k := key_duration)); [apply system_time_duration..| |].
Qed.
End TimeKeys.

(** ** The theorems *)

Section Theorems.
Context `{Profile}.

(** The eight resolutions with their units in nanoseconds. *)
Lemma resolutions_ok R :
  R ∈ resolutions -> exists unit, Resolution R unit /\ 1_931_747_507 * NANOS < - int_min (Representation R) * unit.
Proof.
  unfold resolutions. rewrite !elem_of_cons, elem_of_nil. intros [->|[->|[->|[->|[->|[->|[->|[->|[]]]]]]]]];
    (eexists; split; [apply _|by vm_compute]).
Qed.

Lemma epochs_ok E : E ∈ epochs -> 0 <= epoch_offset E <= 1_931_747_507 * NANOS.
Proof. unfold epochs. rewrite !elem_of_cons, elem_of_nil. by intros [->|[->|[]]]. Qed.

(** Timestamps survive being written as text: whenever a timestamp of any of
    the eight resolutions, relative to either epoch, can be written as a number
    of seconds, reading that text gives back the same timestamp. *)
Theorem timestamp_text_roundtrip R E r s :
  R ∈ resolutions -> E ∈ epochs -> in_range (Representation R) r = true ->
  to_timestamp_string R E r = Ok s -> timestamp_from_str R E s = Ok r.
Proof.
  intros (unit & HR & Hu)%resolutions_ok HE%epochs_ok.
  assert (1_931_747_507 * NANOS <= int_max i64 * NANOS) by (by vm_compute). apply (from_str_to_string R unit E); lia.
Qed.

(** Encoded timestamps sort like the moments they stand for: for every
    resolution and both epochs, comparing the encodings of two timestamps byte by
    byte is comparing the system times they convert to. *)
Theorem timestamp_keys_order `{OrderedVarint} `{!OrderedVarintLaws _} R E r1 r2 b1 b2 t1 t2 :
  R ∈ resolutions -> E ∈ epochs ->
  in_range (Representation R) r1 = true -> in_range (Representation R) r2 = true ->
  as_ord_bytes (key_limited_timestamp R E) r1 = Ok b1 -> as_ord_bytes (key_limited_timestamp R E) r2 = Ok b2 ->
  system_time_try_from R E r1 = Ok t1 -> system_time_try_from R E r2 = Ok t2 ->
  bytes_cmp b1 b2 = (t1 ?= t2).
Proof.
  intros (unit & HR & _)%resolutions_ok HE%epochs_ok H1 H2 Hb1 Hb2 Ht1 Ht2.
  assert (1_931_747_507 * NANOS <= int_max i64 * NANOS) by (by vm_compute).
  rewrite <- (moments_ordered R unit E ltac:(lia) r1 r2 t1 t2) by done.
  by apply (key_ordered (k := key_limited_timestamp R E)).
Qed.

(** The resolutions up to a second. *)
Definition fine_resolutions : list (TimeResolution * Z) :=
  [(Nanoseconds, 1); (Microseconds, 1_000); (Milliseconds, 1_000_000); (Seconds, NANOS)].

(** Resolutions up to a second truncate: converting a system time gives the
    latest timestamp that is not after it, less than one unit away, and that
    timestamp converts back to itself. *)
Theorem timestamps_truncate R unit E t r :
  (R, unit) ∈ fine_resolutions -> E ∈ epochs -> system_time_ok t = true -> timestamp_try_from R E t = Ok r ->
  exists t', system_time_try_from R E r = Ok t' /\ t' <= t < t' + unit /\ timestamp_try_from R E t' = Ok r.
Proof.
  intros HR HE Ht Hr. assert (1_931_747_507 * NANOS <= int_max i64 * NANOS) by (by vm_compute).
  pose proof (epochs_ok E HE) as Ho.
  assert ((NANOS | epoch_offset E)) as Hdiv
    by (revert HE; unfold epochs; rewrite !elem_of_cons, elem_of_nil; intros [->|[->|[]]]; [by exists 0|by exists 1_931_747_507]).
  unfold fine_resolutions in HR. rewrite !elem_of_cons, elem_of_nil in HR.
  destruct HR as [[= -> ->]|[[= -> ->]|[[= -> ->]|[[= -> ->]|[]]]]]; apply truncated; (apply _ || lia || done || idtac);
    (eapply Z.divide_trans; [|exact Hdiv]); [by exists NANOS|by exists 1_000_000|by exists 1_000].
Qed.
End Theorems.

(** ** Examples *)

Module TimeExamples.
Import FixedVarint.
#[local] Instance checked : Profile := true.

Lemma timestamp_text_roundtrip_witness :
  exists s, to_timestamp_string Milliseconds BonsaiEpoch (-1) = Ok s /\
    timestamp_from_str Milliseconds BonsaiEpoch s = Ok (-1).
Proof.
  destruct (to_timestamp_string Milliseconds BonsaiEpoch (-1)) as [s| |] eqn:Hs; [|by vm_compute in Hs..].
  exists s. split; [reflexivity|].
  apply (timestamp_text_roundtrip Milliseconds BonsaiEpoch (-1) s); [right; right; left|right; left|reflexivity|exact Hs].
Defined.

Lemma timestamp_keys_order_witness :
  exists b1 b2, as_ord_bytes (key_limited_timestamp Hours UnixEpoch) (-3) = Ok b1 /\
    as_ord_bytes (key_limited_timestamp Hours UnixEpoch) 5 = Ok b2 /\ bytes_cmp b1 b2 = Lt.
Proof.
  eexists _, _. split; [reflexivity|]. split; [reflexivity|].
  apply (timestamp_keys_order Hours UnixEpoch (-3) 5 _ _ (-3 * 3_600 * NANOS) (5 * 3_600 * NANOS));
    [do 5 right; left|left|vm_compute; reflexivity..].
Defined.

Lemma timestamps_truncate_witness :
  exists t', system_time_try_from Seconds UnixEpoch (-2) = Ok t' /\ t' <= -1_500_000_000 < t' + NANOS.
Proof.
  destruct (timestamps_truncate Seconds NANOS UnixEpoch (-1_500_000_000) (-2)) as (t' & Ht & Hle & _);
    [do 3 right; left|left|reflexivity|reflexivity|]. by exists t'.
Defined.

(** Minutes and the coarser resolutions drop the fraction of a second before
    they round down: half a second before the epoch is minute zero, which comes
    after it, while a whole second before is minute minus one. *)
Lemma coarse_resolutions_round_up :
  timestamp_try_from Minutes UnixEpoch (-500_000_000) = Ok 0 /\
  timestamp_try_from Minutes UnixEpoch (-1_000_000_000) = Ok (-1) /\
  timestamp_try_from Seconds UnixEpoch (-500_000_000) = Ok (-1).
Proof. split_and!; vm_compute; reflexivity. Qed.

(** The least number of seconds stands for another duration, although its
    moment is a system time and converts to the next number without error. *)
Lemma least_seconds_not_converted :
  system_time_ok (int_min i64 * NANOS) = true /\
  system_time_try_from Seconds UnixEpoch (int_min i64) = Err DeltaNotRepresentable /\
  system_time_try_from Seconds UnixEpoch (int_min i64 + 1) = Ok ((int_min i64 + 1) * NANOS).
Proof. split_and!; vm_compute; reflexivity. Qed.

(** Too long negative durations saturate as days and are refused as hours. *)
Lemma days_saturate :
  duration_to_repr Days (Negative (2 ^ 32 * 86_400 * NANOS)) = Ok (int_min i32) /\
  duration_to_repr Hours (Negative (2 ^ 32 * 3_600 * NANOS)) = Err DeltaNotRepresentable.
Proof. split; vm_compute; reflexivity. Qed.

(** A time before the Unix epoch panics as a key. *)
Lemma early_system_time_panics : as_ord_bytes key_system_time (-1) = Panic.
Proof. reflexivity. Qed.

(** Another timestamp that is later, not earlier, yields no duration. *)
Lemma duration_since_later :
  duration_since Seconds UnixEpoch 1 (duration_since_unix_epoch Seconds UnixEpoch 2) = Ok None /\
  duration_since Seconds UnixEpoch 2 (duration_since_unix_epoch Seconds UnixEpoch 1) = Ok (Some NANOS).
Proof. split; vm_compute; reflexivity. Qed.
End TimeExamples.
