(* ===== verification/Changes.v ===== *)
(** * Changes recorded with a transaction

    The list of changed documents a transaction stores beside its commit
    ([DocumentChanges] of [bonsaidb-core/src/transaction.rs]): documents refer
    to their collection by its index in a table of names.  Building the table
    ([apply_transaction_to_roots]), reading it back through the two iterators,
    and converting the lists of older versions
    ([bonsaidb-local/src/database/compat.rs]). *)

From Stdlib Require Import ZArith Lia.
From stdpp Require Import base list option numbers gmap.
From S2P Require Import Prelude Bytes Nebari Document Names.

Local Open Scope Z_scope.

Record ChangedDocument := MkChangedDocument { cd_collection : Z; cd_id : bytes; cd_deleted : bool }.
Record DocumentChanges := MkDocumentChanges {
  collections : list CollectionName;
  documents : list ChangedDocument
}.
Record ChangedKey := MkChangedKey { ck_namespace : option str; ck_key : str; ck_deleted : bool }.
Inductive Changes := CDocuments (c : DocumentChanges) | CKeys (ks : list ChangedKey).

(** ** Reading *)

Definition changes_get (ch : DocumentChanges) (index : Z) : option (CollectionName * ChangedDocument) :=
  doc ← documents ch !! Z.to_nat index;
  collection ← collections ch !! Z.to_nat (cd_collection doc);
  Some (collection, doc).

Definition changes_len (ch : DocumentChanges) : Z := Z.of_nat (length (documents ch)).

(** [DocumentChangesIter::next]; the state is the index. *)
Definition changes_iter_next (ch : DocumentChanges) (index : option Z)
    : option (CollectionName * ChangedDocument) * option Z :=
  match index with
  | None => (None, None)
  | Some i =>
      match changes_get ch i with
      | Some item => (Some item, checked_add usize i 1)
      | None => (None, Some i)
      end
  end.

(** What a [for] loop over the iterator sees, in at most [fuel] rounds. *)
Fixpoint changes_iter_from (fuel : nat) (ch : DocumentChanges) (index : option Z)
    : list (CollectionName * ChangedDocument) :=
  match fuel with
  | O => []
  | S fuel =>
      match changes_iter_next ch index with
      | (Some item, index) => item :: changes_iter_from fuel ch index
      | (None, _) => []
      end
  end.
Definition changes_iter (ch : DocumentChanges) : list (CollectionName * ChangedDocument) :=
  changes_iter_from (S (length (documents ch))) ch (Some 0).

(** [DocumentChangesIntoIter], drained by a [for] loop. *)
Fixpoint into_iter_from (cs : list CollectionName) (ds : list ChangedDocument)
    : list (CollectionName * ChangedDocument) :=
  match ds with
  | [] => []
  | doc :: ds =>
      match cs !! Z.to_nat (cd_collection doc) with
      | Some collection => (collection, doc) :: into_iter_from cs ds
      | None => []
      end
  end.
Definition changes_into_iter (ch : DocumentChanges) : list (CollectionName * ChangedDocument) :=
  into_iter_from (collections ch) (documents ch).

(** ** Building *)

(** The table of collections under construction. *)
Record IndexTable := MkIndexTable {
  collection_indexes : gmap CollectionName Z;
  table : list CollectionName
}.
Definition empty_table : IndexTable := MkIndexTable ∅ [].

(** The index of a collection, given out on first use; [None] when the table
    is full. *)
Definition collection_index (t : IndexTable) (c : CollectionName) : option (Z * IndexTable) :=
  match collection_indexes t !! c with
  | Some i => Some (i, t)
  | None =>
      i ← try_from_int u16 (Z.of_nat (length (table t)));
      Some (i, MkIndexTable (<[c := i]> (collection_indexes t)) (table t ++ [c]))
  end.

(** ** Older versions *)

Inductive LegacyDocumentId := LegacyU64 (n : Z) | LegacyDocument (bs : bytes).
Record ChangedDocumentV0 := MkChangedDocumentV0 {
  cd0_collection : CollectionName; cd0_id : LegacyDocumentId; cd0_deleted : bool }.
Inductive ChangesV0 := C0Documents (ds : list ChangedDocumentV0) | C0Keys (ks : list ChangedKey).

Definition legacy_document_id (i : LegacyDocumentId) : res DocumentIdError bytes :=
  match i with
  | LegacyDocument bs => document_id_try_from bs
  | LegacyU64 n => Ok (document_id_from_u64 n)
  end.

Fixpoint legacy_documents (ds : list ChangedDocumentV0) (t : IndexTable)
    : res DocumentIdError (IndexTable * list ChangedDocument) :=
  match ds with
  | [] => Ok (t, [])
  | changed :: ds =>
      '(i, t) ← unwrap (collection_index t (cd0_collection changed));
      id ← legacy_document_id (cd0_id changed);
      '(t, rest) ← legacy_documents ds t;
      Ok (t, MkChangedDocument i id (cd0_deleted changed) :: rest)
  end.

Definition changes_try_from (legacy : ChangesV0) : res DocumentIdError Changes :=
  match legacy with
  | C0Documents ds =>
      '(t, ds) ← legacy_documents ds empty_table;
      Ok (CDocuments (MkDocumentChanges (table t) ds))
  | C0Keys ks => Ok (CKeys ks)
  end.

(** The stored form: [transmog_versions] writes and reads the version and
    [pot] and [bincode] the changes; the crates are parameters. *)
Class ChangesCodec := {
  write_header : Z -> bytes;
  unwrap_version : bytes -> Z * bytes;
  pot_changes : Changes -> option bytes;
  pot_read_changes : bytes -> option Changes;
  (** [None] when the data is not in pot's format, [Some None] on any other error. *)
  pot_read_legacy : bytes -> option (option ChangesV0);
  bincode_read_legacy : bytes -> option (list ChangedDocumentV0)
}.
Class ChangesCodecLaws `{ChangesCodec} := {
  unwrap_write_header v bs : unwrap_version (write_header v ++ bs) = (v, bs);
  pot_changes_roundtrip c bs : pot_changes c = Some bs -> pot_read_changes bs = Some c
}.
Arguments ChangesCodecLaws _ : clear implicits.

Inductive CompatError := UnknownVersion | ChangesSerialization | ChangesDocumentId (e : DocumentIdError).

Section Codec.
Context `{ChangesCodec}.

Definition VERSION_V1 : Z := 1.

Definition serialize_executed_transaction_changes (c : Changes) : option bytes :=
  body ← pot_changes c; Some (write_header VERSION_V1 ++ body).

Definition deserialize_executed_transaction_changes (data : bytes) : res CompatError Changes :=
  let '(version, data) := unwrap_version data in
  if version =? 0 then
    legacy ←
      match pot_read_legacy data with
      | Some (Some changes) => Ok changes
      | Some None => Err ChangesSerialization
      | None => ds ← ok_or ChangesSerialization (bincode_read_legacy data); Ok (C0Documents ds)
      end;
    map_err ChangesDocumentId (changes_try_from legacy)
  else if version =? VERSION_V1 then ok_or ChangesSerialization (pot_read_changes data)
  else Err UnknownVersion.

End Codec.

(** An instance for examples, which forgets the changes. *)
Definition demo_changes : ChangesCodec := {|
  write_header v := [v];
  unwrap_version bs := (default 0 (head bs), tail bs);
  pot_changes _ := Some [];
  pot_read_changes _ := Some (CDocuments (MkDocumentChanges [] []));
  pot_read_legacy _ := None;
  bincode_read_legacy _ := None |}.

Lemma executed_changes_roundtrip `{ChangesCodecLaws} c bs :
  serialize_executed_transaction_changes c = Some bs -> deserialize_executed_transaction_changes bs = Ok c.
Proof.
  unfold serialize_executed_transaction_changes, deserialize_executed_transaction_changes.
  intros (body & Hb & [= <-])%bind_Some. rewrite unwrap_write_header. simpl.
  by rewrite (pot_changes_roundtrip _ _ Hb).
Qed.

(** ** The table of collections *)

Record table_ok (t : IndexTable) : Prop := {
  table_lookup c i : collection_indexes t !! c = Some i ->
    table t !! Z.to_nat i = Some c /\ in_range u16 i = true;
  table_complete c : c ∈ table t -> is_Some (collection_indexes t !! c);
  table_NoDup : NoDup (table t)
}.

Lemma empty_table_ok : table_ok empty_table.
Proof. split; [done| |constructor]. intros c. by intros ?%elem_of_nil. Qed.

Lemma collection_index_ok t c i t' :
  table_ok t -> collection_index t c = Some (i, t') ->
  table_ok t' /\ table t' !! Z.to_nat i = Some c /\ in_range u16 i = true /\ table t `prefix_of` table t'.
Proof.
  intros Hok. unfold collection_index. destruct (collection_indexes t !! c) as [j|] eqn:Hc.
  { intros [= <- <-]. by destruct (table_lookup _ Hok _ _ Hc). }
  intros (j & Hj & [= <- <-])%bind_Some. unfold try_from_int in Hj.
  destruct (in_range u16 _) eqn:Hr; [|done]. injection Hj as <-.
  assert ((table t ++ [c]) !! Z.to_nat (Z.of_nat (length (table t))) = Some c) as Hlook.
  { rewrite Nat2Z.id. by apply list_lookup_middle. }
  split_and!; [|done|done|by apply prefix_app_r]. split; simpl.
  - intros c' i [[<- <-]|[Hne Hi]]%lookup_insert_Some; [done|].
    destruct (table_lookup _ Hok _ _ Hi) as [Ht Hir]. split; [|done]. by apply lookup_app_l_Some.
  - intros c' [Hin| ->%list_elem_of_singleton]%elem_of_app; [|by rewrite lookup_insert_eq].
    apply lookup_insert_is_Some'. right. by apply table_complete.
  - apply NoDup_app. split_and!; [by apply table_NoDup| |apply NoDup_singleton].
    intros c' Hin ->%list_elem_of_singleton. apply table_complete in Hin as [? Hin]; [|done]. congruence.
Qed.

(** What a list of changes says, without the table. *)
Definition change_item (p : CollectionName * ChangedDocument) : CollectionName * bytes * bool :=
  (p.1, cd_id p.2, cd_deleted p.2).

Lemma into_iter_prefix cs cs' ds :
  cs `prefix_of` cs' -> length (into_iter_from cs ds) = length ds -> into_iter_from cs' ds = into_iter_from cs ds.
Proof.
  intros [k ->]. induction ds as [|d ds IH]; [done|]. simpl.
  destruct (cs !! Z.to_nat (cd_collection d)) as [c|] eqn:E; [|done]. intros [= Hl].
  rewrite (lookup_app_l_Some _ _ _ _ E). by rewrite IH.
Qed.

Lemma into_iter_app cs a b :
  length (into_iter_from cs a) = length a -> into_iter_from cs (a ++ b) = into_iter_from cs a ++ into_iter_from cs b.
Proof.
  induction a as [|d a IH]; [done|]. simpl. destruct (cs !! Z.to_nat (cd_collection d)); [|done].
  intros [= Hl]. simpl. by rewrite IH.
Qed.

Lemma legacy_documents_ok ds t t' out :
  table_ok t -> legacy_documents ds t = Ok (t', out) ->
  table_ok t' /\ table t `prefix_of` table t' /\ length (into_iter_from (table t') out) = length out /\
  Forall2 (fun d p => exists id, legacy_document_id (cd0_id d) = Ok id /\
    change_item p = (cd0_collection d, id, cd0_deleted d)) ds (into_iter_from (table t') out).
Proof.
  revert t t' out. induction ds as [|d ds IH]; intros t t' out Hok Hrun; simpl in Hrun; inv_res.
  { simplify_eq. split_and!; [done..|]. simpl. constructor. }
  destruct x as [i t1]. inv_res. destruct x0 as [t2 rest]. simplify_eq/=.
  destruct (collection_index_ok _ _ _ _ Hok ltac:(eassumption)) as (Hok1 & Hi & _ & Hp1).
  destruct (IH _ _ _ Hok1 ltac:(eassumption)) as (Hok2 & Hp2 & Hlen & Hall).
  rewrite (prefix_lookup_Some _ _ _ _ Hi Hp2). simpl.
  split_and!; [done|by etrans|by rewrite Hlen|]. constructor; [|done]. eauto.
Qed.

(** ** Theorems *)

(** The borrowing and the draining iterator over the changes of a
    transaction yield the same changes: both stop at the first document whose
    collection index is out of range, and at the end of the list otherwise. *)
Theorem changes_iterators_agree ch :
  changes_len ch <= int_max usize -> changes_iter ch = changes_into_iter ch.
Proof.
  unfold changes_iter, changes_into_iter, changes_len. intros Hlen.
  assert (forall fuel ds pre, documents ch = pre ++ ds -> (length ds < fuel)%nat ->
    changes_iter_from fuel ch (Some (Z.of_nat (length pre))) = into_iter_from (collections ch) ds) as Hgen.
  { induction fuel as [|fuel IH]; intros ds pre Hd Hf; [lia|]. simpl. unfold changes_get.
    rewrite Nat2Z.id, Hd. destruct ds as [|d ds]; simpl.
    - rewrite lookup_ge_None_2; [done|]. rewrite length_app. simpl. lia.
    - rewrite list_lookup_middle by done. simpl.
      destruct (collections ch !! Z.to_nat (cd_collection d)) as [c|]; simpl; [|done]. f_equal.
      unfold checked_add. assert (in_range usize (Z.of_nat (length pre) + 1) = true) as ->.
      { apply in_range_spec. rewrite Hd, length_app in Hlen. simpl in Hlen.
        change (int_min usize) with 0. lia. }
      rewrite <- (IH ds (pre ++ [d])).
      + rewrite length_app. simpl. do 2 f_equal. lia.
      + by rewrite <- app_assoc.
      + simpl in Hf. lia. }
  apply (Hgen _ _ []); [done|lia].
Qed.

Lemma changes_iterators_agree_witness :
  let ch := MkDocumentChanges [qualified_new [97] [98]]
    [MkChangedDocument 0 [1] false; MkChangedDocument 2 [2] true] in
  changes_iter ch = changes_into_iter ch /\ length (changes_iter ch) = 1%nat.
Proof. split; [apply changes_iterators_agree; vm_compute; discriminate|vm_compute; reflexivity]. Defined.

(** Changes recorded by older versions are converted without loss: the
    converted list yields the same collection, id and deletion flag for every
    document, in order, from a table without repetitions. *)
Theorem legacy_changes_preserved ds ch :
  changes_try_from (C0Documents ds) = Ok (CDocuments ch) ->
  NoDup (collections ch) /\
  Forall2 (fun d p => exists id, legacy_document_id (cd0_id d) = Ok id /\
    change_item p = (cd0_collection d, id, cd0_deleted d)) ds (changes_into_iter ch).
Proof.
  unfold changes_try_from. intros Hrun. inv_res. destruct x as [t out]. simplify_eq/=.
  destruct (legacy_documents_ok _ _ _ _ empty_table_ok ltac:(eassumption)) as (Hok & _ & _ & Hall).
  split; [by apply table_NoDup|exact Hall].
Qed.

Lemma legacy_changes_preserved_witness :
  let a := qualified_new [97] [98] in
  let b := qualified_new [97] [99] in
  let ds := [MkChangedDocumentV0 a (LegacyU64 7) false; MkChangedDocumentV0 b (LegacyDocument [1]) true;
             MkChangedDocumentV0 a (LegacyU64 8) false] in
  let ch := MkDocumentChanges [a; b] [MkChangedDocument 0 [0;0;0;0;0;0;0;7] false;
    MkChangedDocument 1 [1] true; MkChangedDocument 0 [0;0;0;0;0;0;0;8] false] in
  changes_try_from (C0Documents ds) = Ok (CDocuments ch) /\
  length (changes_into_iter ch) = length ds.
Proof.
  intros a b ds ch. assert (changes_try_from (C0Documents ds) = Ok (CDocuments ch)) as Hr
    by (vm_compute; reflexivity).
  split; [exact Hr|]. symmetry. exact (Forall2_length _ _ _ (proj2 (legacy_changes_preserved ds ch Hr))).
Defined.
