(* ===== verification/KeyValue.v ===== *)
(** * The key-value store

    [bonsaidb-local/src/database/keyvalue.rs] with the commands and outputs of
    [bonsaidb-core/src/keyvalue.rs].  Writes are cached in [dirty_keys], staged
    into [keys_being_persisted] and written to the [kv] tree by a spawned
    thread, while a background worker removes expired keys and commits lazily.

    The operations run on the locked [KeyValueState]; they are computations in
    the state-and-error monad over [World], which adds to the locked state what
    it shares with the rest of the process: the clock readings consumed, the
    spawned persist threads, whether the shutdown message was sent and the work
    left to the expiration loader.  The
    [roots] handle denotes the one store every clone of the handle accesses. *)

From Stdlib Require Import ZArith Lia String Sorting.Sorted.
From stdpp Require Import base list option numbers gmap sorting.
From S2P Require Import Prelude Bytes Utf8 Timestamp Numeric Persistence Nebari Changes.

Local Open Scope Z_scope.

(** ** Commands and outputs *)

Record Entry := MkEntry {
  value : Value;
  expiration : option Timestamp;
  last_updated : Timestamp
}.

Inductive KeyCheck := OnlyIfPresent | OnlyIfVacant.

Record SetCommand := MkSet {
  set_value : Value;
  set_expiration : option Timestamp;
  keep_existing_expiration : bool;
  check : option KeyCheck;
  return_previous_value : bool
}.

Inductive Command :=
| CSet (command : SetCommand)
| CGet (delete : bool)
| CIncrement (amount : Numeric) (saturating : bool)
| CDecrement (amount : Numeric) (saturating : bool)
| CDelete.

Record KeyOperation := MkKeyOp { namespace : option str; key : str; command : Command }.

Inductive KeyStatus := Inserted | Updated | Deleted | NotChanged.
Inductive Output := OStatus (s : KeyStatus) | OValue (v : option Value).

(** ** Serialization

    [bincode] stores the entries, and the changes of a transaction are stored
    as for documents; the serializers are third-party crates. *)
Class EntryCodec := {
  serialize_entry : Entry -> option bytes;
  deserialize_entry : bytes -> option Entry;
  entry_changes_codec :: ChangesCodec
}.

(** Every entry can be serialized, and is read back as it was written. *)
Class EntryCodecLaws `{EntryCodec} :=
  entry_roundtrip e : exists b, serialize_entry e = Some b /\ deserialize_entry b = Some e.
Arguments EntryCodecLaws _ : clear implicits.

(** ** Full keys *)

Definition KEY_TREE : str := lit "kv".

Definition full_key (namespace : option str) (key : str) : str :=
  match namespace with Some ns => ns | None => [] end ++ [0] ++ key.

(** [str::split_once] on the null character. *)
Fixpoint split_once (s : str) : option (str * str) :=
  match s with
  | [] => None
  | c :: s =>
      if c =? 0 then Some ([], s)
      else '(a, b) ← split_once s; Some (c :: a, b)
  end.

Definition split_key (full_key : str) : option (option str * str) :=
  '(namespace, key) ← split_once full_key;
  Some (match namespace with [] => None | _ => Some namespace end, key).

(** ** State *)

Inductive BackgroundWorkerProcessTarget := Now | AtTimestamp (t : Timestamp) | Never.

(** A persist thread is writing the keys it was spawned with, or has written
    them and is waiting for the lock. *)
Inductive PersistThread := Writing (keys : gmap str (option Entry)) | Finishing.

Inductive KvError `{Nebari} :=
| NebariError (e : nebari_error)
| ENotANumber
| ENotNumeric
| EDeserialize
| EUtf8
| ESerialize.

Section KeyValue.
Context `{Nebari} `{EntryCodec} `{Profile}.
(** The successive results of [Timestamp::now()]. *)
Context (clock : nat -> Timestamp).

Record KeyValueState := MkState {
  roots : Roots;
  persistence : KeyValuePersistence;
  last_commit : Timestamp;
  background_worker_target : BackgroundWorkerProcessTarget;
  expiring_keys : gmap str Timestamp;
  expiration_order : list str;
  dirty_keys : gmap str (option Entry);
  keys_being_persisted : option (gmap str (option Entry));
  last_persistence : Timestamp;
  shutdown_sender : bool
}.

Definition set_roots (x : Roots) (s : KeyValueState) : KeyValueState := {|   roots := x;
  persistence := persistence s; last_commit := last_commit s; background_worker_target :=
  background_worker_target s; expiring_keys := expiring_keys s; expiration_order :=
  expiration_order s; dirty_keys := dirty_keys s; keys_being_persisted := keys_being_persisted
  s; last_persistence := last_persistence s; shutdown_sender := shutdown_sender s |}.
Definition set_last_commit (x : Timestamp) (s : KeyValueState) : KeyValueState := {|   roots :=
  roots s; persistence := persistence s; last_commit := x; background_worker_target :=
  background_worker_target s; expiring_keys := expiring_keys s; expiration_order :=
  expiration_order s; dirty_keys := dirty_keys s; keys_being_persisted := keys_being_persisted
  s; last_persistence := last_persistence s; shutdown_sender := shutdown_sender s |}.
Definition set_background_worker_target (x : BackgroundWorkerProcessTarget) (s : KeyValueState)
  : KeyValueState := {|   roots := roots s; persistence := persistence s; last_commit :=
  last_commit s; background_worker_target := x; expiring_keys := expiring_keys s;
  expiration_order := expiration_order s; dirty_keys := dirty_keys s; keys_being_persisted :=
  keys_being_persisted s; last_persistence := last_persistence s; shutdown_sender := shutdown_sender s |}.
Definition set_expiring_keys (x : gmap str Timestamp) (s : KeyValueState) : KeyValueState := {|
  roots := roots s; persistence := persistence s; last_commit := last_commit s;
  background_worker_target := background_worker_target s; expiring_keys := x; expiration_order
  := expiration_order s; dirty_keys := dirty_keys s; keys_being_persisted :=
  keys_being_persisted s; last_persistence := last_persistence s; shutdown_sender := shutdown_sender s |}.
Definition set_expiration_order (x : list str) (s : KeyValueState) : KeyValueState := {|   roots
  := roots s; persistence := persistence s; last_commit := last_commit s;
  background_worker_target := background_worker_target s; expiring_keys := expiring_keys s;
  expiration_order := x; dirty_keys := dirty_keys s; keys_being_persisted :=
  keys_being_persisted s; last_persistence := last_persistence s; shutdown_sender := shutdown_sender s |}.
Definition set_dirty_keys (x : gmap str (option Entry)) (s : KeyValueState) : KeyValueState :=
  {|   roots := roots s; persistence := persistence s; last_commit := last_commit s;
  background_worker_target := background_worker_target s; expiring_keys := expiring_keys s;
  expiration_order := expiration_order s; dirty_keys := x; keys_being_persisted :=
  keys_being_persisted s; last_persistence := last_persistence s; shutdown_sender := shutdown_sender s |}.
Definition set_keys_being_persisted (x : option (gmap str (option Entry))) (s : KeyValueState) :
  KeyValueState := {|   roots := roots s; persistence := persistence s; last_commit :=
  last_commit s; background_worker_target := background_worker_target s; expiring_keys :=
  expiring_keys s; expiration_order := expiration_order s; dirty_keys := dirty_keys s;
  keys_being_persisted := x; last_persistence := last_persistence s; shutdown_sender := shutdown_sender s |}.
Definition set_last_persistence (x : Timestamp) (s : KeyValueState) : KeyValueState := {|
  roots := roots s; persistence := persistence s; last_commit := last_commit s;
  background_worker_target := background_worker_target s; expiring_keys := expiring_keys s;
  expiration_order := expiration_order s; dirty_keys := dirty_keys s; keys_being_persisted :=
  keys_being_persisted s; last_persistence := x; shutdown_sender := shutdown_sender s |}.
Definition set_shutdown_sender (x : bool) (s : KeyValueState) : KeyValueState := {|   roots := roots s;
  persistence := persistence s; last_commit := last_commit s; background_worker_target :=
  background_worker_target s; expiring_keys := expiring_keys s; expiration_order :=
  expiration_order s; dirty_keys := dirty_keys s; keys_being_persisted := keys_being_persisted
  s; last_persistence := last_persistence s; shutdown_sender := x |}.

Record World := MkWorld {
  kv : KeyValueState;
  ticks : nat;
  threads : list PersistThread;
  shutdown_sent : bool;
  loader : list (str * option Timestamp)
}.

Abbreviation kvm := (stm World KvError).

Definition update_kv (f : KeyValueState -> KeyValueState) (w : World) : World :=
  MkWorld (f (kv w)) (ticks w) (threads w) (shutdown_sent w) (loader w).
Definition modify_kv (f : KeyValueState -> KeyValueState) : kvm unit := st_modify (update_kv f).
Definition get_kv : kvm KeyValueState := fun w => (Ok (kv w), w).
Definition Timestamp_now : kvm Timestamp := fun w =>
  (Ok (clock (ticks w)), MkWorld (kv w) (S (ticks w)) (threads w) (shutdown_sent w) (loader w)).
Definition set_threads (f : list PersistThread -> list PersistThread) (w : World) : World :=
  MkWorld (kv w) (ticks w) (f (threads w)) (shutdown_sent w) (loader w).
Definition spawn (keys : gmap str (option Entry)) : kvm unit :=
  st_modify (set_threads (fun ts => ts ++ [Writing keys])).

Definition kv_ret {A} (a : A) : kvm A := mret a.
Definition kv_lift {A} (m : res KvError A) : kvm A := st_lift m.

Definition kv_new (p : KeyValuePersistence) (r : Roots) (now : Timestamp) : KeyValueState :=
  MkState r p now Never ∅ [] ∅ None Timestamp_MIN false.

(** ** Reading *)

Definition retrieve_key_from_disk (r : Roots) (key : str) : res KvError (option Entry) :=
  current ← map_err NebariError (roots_get r KEY_TREE (as_bytes key));
  Ok (current ≫= deserialize_entry).

Definition persisting_entry (s : KeyValueState) (key : str) : option (option Entry) :=
  keys_being_persisted s ≫= (fun keys => keys !! key).

Definition get (s : KeyValueState) (key : str) : res KvError (option Entry) :=
  match dirty_keys s !! key with
  | Some entry => Ok entry
  | None =>
      match persisting_entry s key with
      | Some entry => Ok entry
      | None => retrieve_key_from_disk (roots s) key
      end
  end.

(** ** Background worker target *)

Definition update_background_worker_target : kvm unit :=
  s ← get_kv;
  key_expiration_target ← kv_lift
    match expiration_order s with
    | [] => Ok None
    | key :: _ => Some <$> unwrap (expiring_keys s !! key)
    end;
  now ← Timestamp_now;
  commit_target ← kv_lift
    (if bool_decide (is_Some (keys_being_persisted s)) then Ok None
     else
       elapsed ← timestamp_sub now (last_commit s);
       match duration_until_next_commit (persistence s)
               (Z.of_nat (size (dirty_keys s))) (default 0 elapsed) with
       | None => Ok None
       | Some duration => Some <$> timestamp_add now duration
       end);
  let due o := match o with Some t => timestamp_leb t now | None => false end in
  modify_kv (set_background_worker_target
    (if due commit_target || due key_expiration_target then Now
     else match commit_target, key_expiration_target with
     | Some commit_target, Some key_target => AtTimestamp (timestamp_min key_target commit_target)
     | Some target, None | None, Some target => AtTimestamp target
     | None, None => Never
     end)).

(** ** Expiration *)

(** The position of a key in the queue ([find_map] over [enumerate]). *)
Fixpoint position (key : str) (order : list str) : option nat :=
  match order with
  | [] => None
  | k :: rest => if decide (key = k) then Some 0%nat else S <$> position key rest
  end.

(** The [for] loop that looks for the first key expiring later. *)
Fixpoint insert_position (expiring : gmap str Timestamp) (expiration : Timestamp)
    (order : list str) : res KvError (option nat) :=
  match order with
  | [] => Ok None
  | k :: rest =>
      t ← unwrap (expiring !! k);
      if timestamp_ltb expiration t then Ok (Some 0%nat)
      else o ← insert_position expiring expiration rest; Ok (fmap (M:=option) S o)
  end.

(** [update_key_expiration] up to its last statement; the result is
    [changed_first_expiration]. *)
Definition requeue (tree_key : str) (expiration : option Timestamp) : kvm bool :=
  s ← get_kv;
  match expiration with
  | Some expiration =>
      changed_first_expiration ←
        (if bool_decide (is_Some (expiring_keys s !! tree_key)) then
           index ← kv_lift (unwrap (position tree_key (expiration_order s)));
           modify_kv (set_expiration_order (delete index (expiration_order s)));;
           kv_ret (bool_decide (index = 0%nat))
         else kv_ret false);
      s ← get_kv;
      insert_at ← kv_lift (insert_position (expiring_keys s) expiration (expiration_order s));
      let order := expiration_order s in
      modify_kv (set_expiration_order
        match insert_at with
        | Some insert_at => take insert_at order ++ tree_key :: drop insert_at order
        | None => order ++ [tree_key]
        end);;
      modify_kv (set_expiring_keys (<[tree_key := expiration]> (expiring_keys s)));;
      kv_ret (changed_first_expiration ||
              match insert_at with
              | Some insert_at => bool_decide (insert_at = 0%nat)
              | None => bool_decide (order = [])
              end)
  | None =>
      modify_kv (set_expiring_keys (delete tree_key (expiring_keys s)));;
      if bool_decide (is_Some (expiring_keys s !! tree_key)) then
        index ← kv_lift (unwrap (position tree_key (expiration_order s)));
        modify_kv (set_expiration_order (delete index (expiration_order s)));;
        kv_ret (bool_decide (index = 0%nat))
      else kv_ret false
  end.

Definition update_key_expiration (tree_key : str) (expiration : option Timestamp) : kvm unit :=
  changed_first_expiration ← requeue tree_key expiration;
  if changed_first_expiration : bool then update_background_worker_target else kv_ret tt.

(** The [while] loop of [remove_expired_keys]; each round pops one key, so the
    length of the queue bounds the rounds. *)
Fixpoint remove_expired_loop (fuel : nat) (now : Timestamp) : kvm unit :=
  match fuel with
  | O => kv_ret tt
  | S fuel =>
      s ← get_kv;
      match expiration_order s with
      | [] => kv_ret tt
      | key :: rest =>
          t ← kv_lift (unwrap (expiring_keys s !! key));
          if timestamp_leb t now then
            modify_kv (set_expiration_order rest);;
            modify_kv (set_expiring_keys (delete key (expiring_keys s)));;
            modify_kv (set_dirty_keys (<[key := None]> (dirty_keys s)));;
            remove_expired_loop fuel now
          else kv_ret tt
      end
  end.
Definition remove_expired_keys (now : Timestamp) : kvm unit :=
  s ← get_kv; remove_expired_loop (length (expiration_order s)) now.

(** ** Writing to the cache *)

Definition set (key : str) (value : Entry) : kvm unit :=
  s ← get_kv; modify_kv (set_dirty_keys (<[key := Some value]> (dirty_keys s))).

Definition remove (key : str) : kvm (option Entry) :=
  update_key_expiration key None;;
  s ← get_kv;
  let mark := modify_kv (set_dirty_keys (<[key := None]> (dirty_keys s))) in
  match dirty_keys s !! key with
  | Some dirty_entry => mark;; kv_ret dirty_entry
  | None =>
      match persisting_entry s key with
      | Some persisting_entry => mark;; kv_ret persisting_entry
      | None =>
          previous_value ← kv_lift (retrieve_key_from_disk (roots s) key);
          mark;; kv_ret previous_value
      end
  end.

Definition replace (key : str) (value : Entry) : kvm (option Entry) :=
  s ← get_kv;
  let insert := modify_kv (set_dirty_keys (<[key := Some value]> (dirty_keys s))) in
  match dirty_keys s !! key with
  | None =>
      stored_value ← kv_lift
        match persisting_entry s key with
        | Some persisting_entry => Ok persisting_entry
        | None => retrieve_key_from_disk (roots s) key
        end;
      insert;; kv_ret stored_value
  | Some old => insert;; kv_ret old
  end.

(** ** Commits *)

Definition needs_commit (s : KeyValueState) (now : Timestamp) : res KvError bool :=
  if bool_decide (is_Some (keys_being_persisted s)) then Ok false
  else
    since_last_commit ← timestamp_sub now (last_commit s);
    Ok (should_commit (persistence s) (Z.of_nat (size (dirty_keys s))) (default 0 since_last_commit)).

Definition stage_dirty_keys : kvm (option (gmap str (option Entry))) :=
  s ← get_kv;
  if bool_decide (dirty_keys s <> ∅) && bool_decide (keys_being_persisted s = None) then
    modify_kv (set_dirty_keys ∅);;
    modify_kv (set_keys_being_persisted (Some (dirty_keys s)));;
    kv_ret (Some (dirty_keys s))
  else kv_ret None.

Definition commit_dirty_keys : kvm bool :=
  staged ← stage_dirty_keys;
  match staged with
  | Some keys =>
      spawn keys;;
      now ← Timestamp_now;
      modify_kv (set_last_commit now);;
      kv_ret true
  | None => kv_ret false
  end.

(** [shutdown]; [true] stands for the receiver the caller then waits on. *)
Definition shutdown : kvm bool :=
  s ← get_kv;
  if bool_decide (keys_being_persisted s = None) then
    committed ← commit_dirty_keys;
    if committed : bool then modify_kv (set_shutdown_sender true);; kv_ret true else kv_ret false
  else kv_ret false.

(** ** Operations *)

Definition of_numeric_error {A} (m : res NumericError A) : res KvError A :=
  map_err (fun _ => ENotANumber) m.

Definition execute_set_operation (namespace : option str) (key : str) (cmd : SetCommand)
    (now : Timestamp) : kvm Output :=
  v ← kv_lift (of_numeric_error (value_validate (set_value cmd)));
  let full_key := full_key namespace key in
  s ← get_kv;
  possible_existing_value ←
    (if bool_decide (is_Some (check cmd)) || return_previous_value cmd || keep_existing_expiration cmd
     then e ← kv_lift (get s full_key); kv_ret (Some e)
     else kv_ret None);
  let existing_value := mjoin possible_existing_value in
  let updating :=
    match check cmd with
    | Some OnlyIfPresent => bool_decide (is_Some existing_value)
    | Some OnlyIfVacant => bool_decide (existing_value = None)
    | None => true
    end in
  if updating : bool then
    let entry_expiration :=
      match keep_existing_expiration cmd, existing_value with
      | true, Some existing => expiration existing
      | _, _ => set_expiration cmd
      end in
    let entry := MkEntry v entry_expiration now in
    update_key_expiration full_key entry_expiration;;
    previous_value ←
      match possible_existing_value with
      | Some existing_value => set full_key entry;; kv_ret existing_value
      | None => replace full_key entry
      end;
    kv_ret (if return_previous_value cmd then OValue (value <$> previous_value)
          else match previous_value with
               | None => OStatus Inserted
               | Some _ => OStatus Updated
               end)
  else kv_ret (OStatus NotChanged).

Definition execute_get_operation (namespace : option str) (key : str) (delete : bool) : kvm Output :=
  let full_key := full_key namespace key in
  entry ← (if delete then remove full_key
           else s ← get_kv; kv_lift (get s full_key));
  kv_ret (OValue (value <$> entry)).

Definition execute_delete_operation (namespace : option str) (key : str) : kvm Output :=
  let full_key := full_key namespace key in
  v ← remove full_key;
  kv_ret (match v with Some _ => OStatus Deleted | None => OStatus NotChanged end).

Definition execute_numeric_operation (namespace : option str) (key : str) (amount : Numeric)
    (saturating : bool) (now : Timestamp) (op : Numeric -> Numeric -> bool -> Numeric) : kvm Output :=
  let full_key := full_key namespace key in
  s ← get_kv;
  current ← kv_lift (get s full_key);
  let entry := default (MkEntry (VNumeric (UnsignedInteger 0)) None now) current in
  match value entry with
  | VNumeric existing =>
      n ← kv_lift (of_numeric_error (validate (op existing amount saturating)));
      set full_key (MkEntry (VNumeric n) (expiration entry) (last_updated entry));;
      kv_ret (OValue (Some (VNumeric n)))
  | VBytes _ => kv_lift (Err ENotNumeric)
  end.

Definition execute_increment_operation namespace key amount saturating now : kvm Output :=
  execute_numeric_operation namespace key amount saturating now increment.
Definition execute_decrement_operation namespace key amount saturating now : kvm Output :=
  execute_numeric_operation namespace key amount saturating now decrement.

Definition execute_command (op : KeyOperation) (now : Timestamp) : kvm Output :=
  match command op with
  | CSet cmd => execute_set_operation (namespace op) (key op) cmd now
  | CGet delete => execute_get_operation (namespace op) (key op) delete
  | CDelete => execute_delete_operation (namespace op) (key op)
  | CIncrement amount saturating =>
      execute_increment_operation (namespace op) (key op) amount saturating now
  | CDecrement amount saturating =>
      execute_decrement_operation (namespace op) (key op) amount saturating now
  end.

Definition commit_if_needed (now : Timestamp) : kvm unit :=
  s ← get_kv;
  needed ← kv_lift (needs_commit s now);
  if needed : bool then commit_dirty_keys;; kv_ret tt else kv_ret tt.

Definition perform_kv_operation (op : KeyOperation) : kvm Output :=
  now ← Timestamp_now;
  remove_expired_keys now;;
  result ← execute_command op now;
  commit_if_needed now;;
  update_background_worker_target;;
  kv_ret result.

(** ** The persist thread *)

(** A [BTreeMap] is iterated in the order of its keys. *)
Definition str_le (x y : str) : Prop := bytes_leb (as_bytes x) (as_bytes y) = true.
#[global] Instance str_le_dec x y : Decision (str_le x y).
Proof. unfold str_le. apply _. Defined.
Definition btree_keys {A} (m : gmap str A) : list str := merge_sort str_le (map_to_list m).*1.

(** The compare-and-swap callback, pushing to [changed_keys]. *)
Definition persist_callback (keys : gmap str (option Entry)) (key : bytes) (existing : option bytes)
    : stm (list ChangedKey) nebari_error TreeOperation :=
  full_key ← st_lift (unwrap (from_utf8 key));
  '(namespace, key) ← st_lift (unwrap (split_key full_key));
  new_value ← st_lift (unwrap (keys !! full_key));
  match new_value with
  | Some new_value =>
      st_modify (fun changed => changed ++ [MkChangedKey namespace key false]);;
      b ← st_lift (unwrap (serialize_entry new_value));
      mret (OpSet b)
  | None =>
      if bool_decide (is_Some existing) then
        st_modify (fun changed => changed ++ [MkChangedKey namespace key true]);;
        mret OpRemove
      else mret OpSkip
  end.

(** [persist_keys] up to the commit: the store the thread leaves. *)
Definition persist_write (r : Roots) (keys : gmap str (option Entry)) : res KvError Roots :=
  tx ← map_err NebariError (transaction r [KEY_TREE]);
  let all_keys := as_bytes <$> btree_keys keys in
  '(tx, changed_keys) ← map_err NebariError (tx_modify tx 0 all_keys (persist_callback keys) []);
  if bool_decide (changed_keys <> []) then
    data ← ok_or ESerialize (serialize_executed_transaction_changes (CKeys changed_keys));
    tx ← map_err NebariError (tx_set_data tx data);
    map_err NebariError (tx_commit r tx)
  else Ok r.

(** The block of [persist_keys] under the lock; the staged keys, if any, are
    those the thread goes on to persist. *)
Definition persist_finish : kvm (option (gmap str (option Entry))) :=
  now ← Timestamp_now;
  modify_kv (set_last_persistence now);;
  modify_kv (set_keys_being_persisted None);;
  update_background_worker_target;;
  s ← get_kv;
  if shutdown_sender s then
    staged_keys ← stage_dirty_keys;
    match staged_keys with
    | None =>
        modify_kv (set_shutdown_sender false);;
        st_modify (fun w => MkWorld (kv w) (ticks w) (threads w) true (loader w))
    | Some _ => kv_ret tt
    end;;
    kv_ret staged_keys
  else kv_ret None.

(** The spawned thread: [persist_keys] outside the lock, then under it.  A
    thread that fails (its result is dropped by the spawner) is gone. *)
Definition persist_thread_write (i : nat) (w : World) : option World :=
  match threads w !! i with
  | Some (Writing keys) =>
      Some match persist_write (roots (kv w)) keys with
           | Ok r => set_threads (insert i Finishing) (update_kv (set_roots r) w)
           | _ => set_threads (delete i) w
           end
  | _ => None
  end.

Definition persist_thread_finish (i : nat) (w : World) : option World :=
  match threads w !! i with
  | Some Finishing =>
      Some match persist_finish w with
           | (Ok (Some final_keys), w') => set_threads (insert i (Writing final_keys)) w'
           | (_, w') => set_threads (delete i) w'
           end
  | _ => None
  end.

(** ** The background worker *)

(** What waiting on the watched target reports. *)
Inductive WatchResult := TargetChanged | TimedOut | Disconnected.
Inductive WorkerAction := Break | Perform | Skip.

(** [watch] is given the timeout, [None] when there is none. *)
Definition worker_wait (watch : option Z -> WatchResult) : kvm WorkerAction :=
  s ← get_kv;
  match background_worker_target s with
  | Never => kv_ret (match watch None with Disconnected => Break | _ => Skip end)
  | AtTimestamp target =>
      now ← Timestamp_now;
      remaining ← kv_lift (timestamp_sub target now);
      match remaining with
      | Some remaining =>
          kv_ret (match watch (Some (Z.min remaining (60 * 60 * 24 * NANOS))) with
                  | Disconnected => Break
                  | _ => Perform
                  end)
      | None => kv_ret Perform
      end
  | Now => kv_ret Perform
  end.

Definition worker_pass : kvm unit :=
  now ← Timestamp_now;
  remove_expired_keys now;;
  commit_if_needed now;;
  update_background_worker_target.

(** One round of [background_worker]; [false] ends the loop.  [alive] tells
    whether the weak reference to the state can be upgraded. *)
Definition worker_round (watch : option Z -> WatchResult) (alive : bool) : kvm bool :=
  action ← worker_wait watch;
  match action with
  | Break => kv_ret false
  | Perform => if alive then worker_pass;; kv_ret true else kv_ret false
  | Skip => kv_ret alive
  end.

(** ** Snapshots *)

Abbreviation entries := (gmap (option str * str) Entry).

(** The callback of the scan, over the pairs of the tree in order. *)
Fixpoint load_entries (l : list (bytes * bytes)) (all_entries : entries) : res KvError entries :=
  match l with
  | [] => Ok all_entries
  | (key, entry) :: l =>
      entry ← ok_or EDeserialize (deserialize_entry entry);
      full_key ← ok_or EUtf8 (from_utf8 key);
      load_entries l
        match split_key full_key with
        | Some split_key =>
            match all_entries !! split_key with
            | Some _ => all_entries
            | None => <[split_key := entry]> all_entries
            end
        | None => all_entries
        end
  end.

Fixpoint apply_pending (keys : gmap str (option Entry)) (l : list str) (all_entries : entries)
    : res KvError entries :=
  match l with
  | [] => Ok all_entries
  | key :: l =>
      split_key ← unwrap (split_key key);
      apply_pending keys l
        match mjoin (keys !! key) with
        | Some updated_entry => <[split_key := updated_entry]> all_entries
        | None => delete split_key all_entries
        end
  end.

Definition all_key_value_entries (s : KeyValueState) : res KvError entries :=
  scanned ← map_err NebariError (roots_scan (roots s) KEY_TREE);
  all_entries ← load_entries scanned ∅;
  all_entries ←
    match keys_being_persisted s with
    | Some pending_keys => apply_pending pending_keys (btree_keys pending_keys) all_entries
    | None => Ok all_entries
    end;
  apply_pending (dirty_keys s) (btree_keys (dirty_keys s)) all_entries.

(** ** The expiration loader

    The job takes a snapshot, then locks the state once per key. *)

Definition entry_key_le (x y : option str * str * Entry) : Prop :=
  match x.1.1, y.1.1 with
  | None, Some _ => True
  | Some _, None => False
  | None, None => str_le x.1.2 y.1.2
  | Some a, Some b => if decide (a = b) then str_le x.1.2 y.1.2 else str_le a b
  end.
#[global] Instance entry_key_le_dec x y : Decision (entry_key_le x y).
Proof.
  unfold entry_key_le. destruct (x.1.1), (y.1.1); [case_decide|..]; apply _.
Defined.

Definition loader_updates (launched_at : Timestamp) (all_entries : entries)
    : list (str * option Timestamp) :=
  (fun x => (full_key x.1.1 x.1.2, expiration x.2)) <$>
    filter (fun x => timestamp_ltb (last_updated x.2) launched_at = true /\
                     is_Some (expiration x.2))
      (merge_sort entry_key_le (map_to_list all_entries)).

Definition loader_start (launched_at : Timestamp) (w : World) : option World :=
  match all_key_value_entries (kv w) with
  | Ok all_entries =>
      Some (MkWorld (kv w) (ticks w) (threads w) (shutdown_sent w)
              (loader_updates launched_at all_entries))
  | _ => None
  end.

Definition loader_next (w : World) : option World :=
  match loader w with
  | [] => None
  | (key, expiration) :: rest =>
      Some (update_key_expiration key expiration
              (MkWorld (kv w) (ticks w) (threads w) (shutdown_sent w) rest)).2
  end.

(** ** Interleavings

    Every step holds the lock, except the write of a persist thread, which
    only changes the store.  The label of a step says which part of the code
    ran: an operation with its result, a round of the worker, one of the two
    parts of a persist thread, the shutdown, and the start or one update of the
    expiration loader. *)

(** The names of a [KeyOperation] are Rust strings. *)
Definition op_wf (op : KeyOperation) : Prop :=
  is_str (default [] (namespace op)) = true /\ is_str (key op) = true.

Inductive KvEvent :=
| Performed (op : KeyOperation) (result : res KvError Output)
| WorkerRan
| PersistWrote
| PersistFinished
| ShutDown
| LoaderStarted (launched_at : Timestamp)
| LoaderUpdated.

Inductive kv_step : World -> KvEvent -> World -> Prop :=
| step_operation op w :
    op_wf op -> kv_step w (Performed op (perform_kv_operation op w).1) (perform_kv_operation op w).2
| step_worker watch alive w : kv_step w WorkerRan (worker_round watch alive w).2
| step_write i w w' : persist_thread_write i w = Some w' -> kv_step w PersistWrote w'
| step_finish i w w' : persist_thread_finish i w = Some w' -> kv_step w PersistFinished w'
| step_shutdown w : kv_step w ShutDown (shutdown w).2
| step_loader_start launched_at w w' :
    loader_start launched_at w = Some w' -> kv_step w (LoaderStarted launched_at) w'
| step_loader_next w w' : loader_next w = Some w' -> kv_step w LoaderUpdated w'.

(** A freshly opened store. *)
Definition initial (p : KeyValuePersistence) (r : Roots) : World :=
  MkWorld (kv_new p r (clock 0)) 1 [] false [].

Definition reachable (p : KeyValuePersistence) (r : Roots) : World -> Prop :=
  rtc (fun w w' => exists o, kv_step w o w') (initial p r).

End KeyValue.
