(* ===== verification/KeyValueLaws.v ===== *)
(** * Laws of the key-value store

    The expiration queue and its invariant, the flat map the three layers of
    the store stand for, and how every operation and thread step acts on it. *)

From Stdlib Require Import ZArith Lia String Sorting.Sorted.
From stdpp Require Import base list option numbers gmap sorting.
From S2P Require Import Prelude Bytes Utf8 Timestamp Numeric Persistence Nebari KeyValue.

Local Open Scope Z_scope.

(** ** The expiration queue *)

Definition ts (m : gmap str Timestamp) (k : str) : Timestamp := default Timestamp_MIN (m !! k).
Definition ts_le (m : gmap str Timestamp) (a b : str) : Prop := timestamp_leb (ts m a) (ts m b) = true.

(** The queue lists the expiring keys, each once, earliest first. *)
Record queue_ok (m : gmap str Timestamp) (order : list str) : Prop := {
  queue_nodup : NoDup order;
  queue_dom k : k ∈ order <-> is_Some (m !! k);
  queue_sorted : StronglySorted (ts_le m) order
}.

Definition set_expiry (k : str) (e : option Timestamp) (m : gmap str Timestamp) : gmap str Timestamp :=
  match e with Some t => <[k := t]> m | None => delete k m end.

Lemma set_expiry_eq k e m : set_expiry k e m !! k = e.
Proof. destruct e; simpl; [apply lookup_insert_eq|apply lookup_delete_eq]. Qed.
Lemma set_expiry_ne k k' e m : k <> k' -> set_expiry k e m !! k' = m !! k'.
Proof. intros. destruct e; simpl; [by apply lookup_insert_ne|by apply lookup_delete_ne]. Qed.

Lemma position_spec k order :
  k ∈ order -> exists l1 l2,
    order = l1 ++ k :: l2 /\ position k order = Some (length l1) /\ k ∉ l1.
Proof.
  induction order as [|x order IH]; [by intros ?%elem_of_nil|]. intros Hin. simpl.
  destruct (decide (k = x)) as [->|Hx].
  - exists [], order. split_and!; [done..|]. apply not_elem_of_nil.
  - apply elem_of_cons in Hin as [?|Hin]; [done|].
    destruct (IH Hin) as (l1 & l2 & -> & Hp & Hn). exists (x :: l1), l2. rewrite Hp.
    split_and!; [done..|]. by apply not_elem_of_cons.
Qed.

Lemma sorted_ext (m m' : gmap str Timestamp) l :
  (forall k, k ∈ l -> m !! k = m' !! k) ->
  StronglySorted (ts_le m) l -> StronglySorted (ts_le m') l.
Proof.
  intros Hext. induction 1 as [|x l Hs IH Hf]; [constructor|]. constructor.
  - apply IH. intros. apply Hext. by right.
  - apply List.Forall_forall. intros y Hy. rewrite List.Forall_forall in Hf.
    pose proof (Hf y Hy) as Hle. unfold ts_le, ts in *.
    rewrite <- !Hext; [done| |]; [right; by apply list_elem_of_In|left].
Qed.

Lemma queue_remove m l1 k l2 :
  queue_ok m (l1 ++ k :: l2) -> queue_ok (delete k m) (l1 ++ l2).
Proof.
  intros [Hn Hd Hs]. apply NoDup_app in Hn as (Hn1 & Hn12 & [Hk Hn2]%NoDup_cons).
  assert (k ∉ l1) as Hk1 by (intros Hin; apply (Hn12 k Hin); left).
  split.
  - apply NoDup_app. split_and!; [done| |done]. intros x Hx Hx2. apply (Hn12 x Hx). by right.
  - intros x. destruct (decide (x = k)) as [->|Hx].
    + rewrite lookup_delete_eq, elem_of_app. split; [tauto|by intros [? ?]].
    + rewrite lookup_delete_ne, <- Hd, !elem_of_app, elem_of_cons by done. naive_solver.
  - apply sorted_ext with m.
    + intros x Hx. rewrite lookup_delete_ne; [done|]. intros <-.
      apply elem_of_app in Hx. tauto.
    + apply StronglySorted_app in Hs as (H12 & H1 & H2). inversion H2; subst.
      apply StronglySorted_app. split_and!; [|done..]. intros x1 x2 ??. apply H12; [done|by right].
Qed.

Section Queue.
Context `{Nebari}.

Lemma insert_position_spec m e order :
  (forall k, k ∈ order -> is_Some (m !! k)) -> exists l1 l2,
    order = l1 ++ l2 /\ Forall (fun k => timestamp_leb (ts m k) e = true) l1 /\
    match l2 with
    | [] => insert_position m e order = Ok None
    | k :: _ => insert_position m e order = Ok (Some (length l1)) /\
                timestamp_ltb e (ts m k) = true
    end.
Proof.
  induction order as [|x order IH]; intros Hm; [by exists [], []|]. simpl.
  destruct (Hm x) as [t Ht]; [left|]. rewrite Ht. simpl.
  destruct (timestamp_ltb e t) eqn:E.
  - exists [], (x :: order). unfold ts. by rewrite Ht.
  - destruct IH as (l1 & l2 & -> & Hf & Hr); [intros; apply Hm; by right|].
    exists (x :: l1), l2. split_and!; [done|constructor; [|done]|].
    + unfold ts. rewrite Ht. simpl. rewrite timestamp_ltb_leb in E. by apply negb_false_iff.
    + destruct l2 as [|k l2]; [by rewrite Hr|]. destruct Hr as [-> Hr]. done.
Qed.
End Queue.

Lemma queue_insert m k e l1 l2 :
  m !! k = None -> queue_ok m (l1 ++ l2) ->
  Forall (fun k => timestamp_leb (ts m k) e = true) l1 ->
  match l2 with [] => True | k :: _ => timestamp_ltb e (ts m k) = true end ->
  queue_ok (<[k := e]> m) (l1 ++ k :: l2).
Proof.
  intros Hk [Hn Hd Hs] H1 H2.
  assert (k ∉ l1 ++ l2) as Hkn by (rewrite Hd, Hk; by intros [? ?]).
  assert (forall x, x ∈ l1 ++ l2 -> m !! x = <[k := e]> m !! x) as Hext.
  { intros x Hx. rewrite lookup_insert_ne; [done|]. by intros <-. }
  assert (ts (<[k := e]> m) k = e) as Hte by (unfold ts; by rewrite lookup_insert_eq).
  assert (forall x, x ∈ l1 ++ l2 -> ts (<[k := e]> m) x = ts m x) as Hts.
  { intros x Hx. unfold ts. by rewrite <- Hext. }
  rewrite List.Forall_forall in H1.
  apply StronglySorted_app in Hs as (H12 & Hs1 & Hs2). split.
  - apply NoDup_app in Hn as (? & Hd12 & ?). rewrite elem_of_app in Hkn.
    apply NoDup_app. split_and!; [done| |by apply NoDup_cons; tauto].
    intros x Hx [->|Hx2]%elem_of_cons; [tauto|by apply (Hd12 x)].
  - intros x. rewrite elem_of_app, elem_of_cons. destruct (decide (x = k)) as [->|Hx].
    + rewrite lookup_insert_eq. naive_solver.
    + rewrite lookup_insert_ne, <- Hd, elem_of_app by done. tauto.
  - apply StronglySorted_app. split_and!.
    + intros x y Hx [->|Hy]%elem_of_cons; unfold ts_le.
      * rewrite Hte, Hts by (apply elem_of_app; auto). apply H1. by apply list_elem_of_In.
      * rewrite !Hts by (apply elem_of_app; auto). by apply H12.
    + eapply sorted_ext; [|done]. intros. apply Hext, elem_of_app. auto.
    + constructor.
      * eapply sorted_ext; [|done]. intros. apply Hext, elem_of_app. auto.
      * apply List.Forall_forall. intros x Hx. unfold ts_le.
        rewrite Hte, Hts by (apply elem_of_app; right; by apply list_elem_of_In).
        destruct l2 as [|h l2]; [done|]. rewrite timestamp_ltb_leb in H2.
        apply negb_true_iff, timestamp_leb_total in H2.
        apply timestamp_leb_trans with (ts m h); [done|].
        inversion Hs2 as [|? ? ? Hf]; subst. destruct Hx as [->|Hx]; [apply timestamp_leb_refl|].
        rewrite List.Forall_forall in Hf. by apply Hf.
Qed.

(** ** Single statements *)

Section Laws.
Context `{Nebari} `{EntryCodec} `{Profile}.
Context (clock : nat -> Timestamp).
(** The system clock returns normal timestamps ([SystemTime] does). *)
Context (clock_normal : forall n, timestamp_normal (clock n)).

Abbreviation update_background_worker_target := (update_background_worker_target clock).
Abbreviation update_key_expiration := (update_key_expiration clock).

Record same_store (s s' : KeyValueState) : Prop := {
  same_roots : roots s' = roots s;
  same_persistence : persistence s' = persistence s;
  same_last_commit : last_commit s' = last_commit s;
  same_dirty : dirty_keys s' = dirty_keys s;
  same_persisting : keys_being_persisted s' = keys_being_persisted s;
  same_sender : shutdown_sender s' = shutdown_sender s
}.
Record same_env (w w' : World) : Prop := {
  same_threads : threads w' = threads w;
  same_sent : shutdown_sent w' = shutdown_sent w;
  same_loader : loader w' = loader w
}.

#[global] Instance same_store_preorder : PreOrder same_store.
Proof.
  split; [by intros s; split|]. intros s1 s2 s3 [] []. split; etrans; done.
Qed.
#[global] Instance same_env_preorder : PreOrder same_env.
Proof.
  split; [by intros s; split|]. intros s1 s2 s3 [] []. split; etrans; done.
Qed.

Definition kv_queue_ok (s : KeyValueState) : Prop := queue_ok (expiring_keys s) (expiration_order s).

(** What the operations assume of the state: a well-formed queue and a commit
    time read from the clock. *)
Record kv_ok (s : KeyValueState) : Prop := {
  ok_queue : kv_queue_ok s;
  ok_last_commit : timestamp_normal (last_commit s)
}.

Lemma kv_ok_same s s' :
  kv_ok s -> last_commit s' = last_commit s -> expiring_keys s' = expiring_keys s ->
  expiration_order s' = expiration_order s -> kv_ok s'.
Proof. intros [Hq Hl] E1 E2 E3. split; [unfold kv_queue_ok; by rewrite E2, E3|by rewrite E1]. Qed.

Lemma commit_target_ok s now :
  kv_ok s -> timestamp_normal now -> exists t,
  (if bool_decide (is_Some (keys_being_persisted s)) then Ok None
   else
     elapsed ← timestamp_sub now (last_commit s);
     match duration_until_next_commit (persistence s)
             (Z.of_nat (size (dirty_keys s))) (default 0 elapsed) with
     | None => Ok None
     | Some duration => Some <$> timestamp_add now duration
     end) = @Ok KvError _ t.
Proof.
  intros [_ Hl] Hn. case_bool_decide; [eauto|]. rewrite timestamp_sub_ok by done.
  cbn [mbind res_bind]. destruct (duration_until_next_commit _ _ _) as [d|] eqn:Ed; [|eauto].
  apply duration_until_next_commit_ok in Ed.
  destruct (timestamp_add_ok (E:=KvError) now d Hn Ed) as (? & ? & -> & _). simpl. eauto.
Qed.

Lemma update_background_worker_target_ok w :
  kv_ok (kv w) -> exists t,
  update_background_worker_target w =
    (Ok tt, update_kv (set_background_worker_target t)
              (MkWorld (kv w) (S (ticks w)) (threads w) (shutdown_sent w) (loader w))).
Proof.
  intros Hok. unfold KeyValue.update_background_worker_target. stm_step.
  assert (exists t, match expiration_order (kv w) with
    | [] => Ok None
    | key :: _ => Some <$> unwrap (expiring_keys (kv w) !! key)
    end = @Ok KvError _ t) as [t ->].
  { destruct (expiration_order (kv w)) as [|k o] eqn:E; [eauto|].
    destruct (proj1 (queue_dom _ _ (ok_queue _ Hok) k)) as [t ->]; [rewrite E; left|].
    simpl. eauto. }
  stm_step. stm_step. simpl kv.
  destruct (commit_target_ok (kv w) (clock (ticks w)) Hok (clock_normal _)) as [c ->].
  stm_step. eexists. reflexivity.
Qed.

Lemma queue_dequeue s k :
  kv_queue_ok s -> is_Some (expiring_keys s !! k) -> exists i,
  position k (expiration_order s) = Some i /\
  queue_ok (delete k (expiring_keys s)) (delete i (expiration_order s)).
Proof.
  intros Hq Hk. pose proof (proj2 (queue_dom _ _ Hq k) Hk) as Hin.
  destruct (position_spec _ _ Hin) as (l1 & l2 & Ho & Hp & Hn).
  eexists; split; [done|]. rewrite Ho, delete_middle. apply queue_remove. by rewrite <- Ho.
Qed.

(** Inserting where the loop says keeps the queue well formed; the map may
    still hold the key's previous expiration. *)
Lemma queue_enqueue m k t order :
  queue_ok (delete k m) order -> exists insert_at,
  insert_position m t order = Ok insert_at /\
  queue_ok (<[k := t]> m)
    match insert_at with
    | Some i => take i order ++ k :: drop i order
    | None => order ++ [k]
    end.
Proof.
  intros Hq.
  assert (forall x, x ∈ order -> delete k m !! x = m !! x) as Hx.
  { intros x Hx%(queue_dom _ _ Hq). destruct (decide (k = x)) as [->|].
    - rewrite lookup_delete_eq in Hx. by destruct Hx.
    - by rewrite lookup_delete_ne. }
  assert (forall x, x ∈ order -> ts (delete k m) x = ts m x) as Ht.
  { intros x Hin. unfold ts. by rewrite Hx. }
  destruct (insert_position_spec m t order) as (l1 & l2 & -> & Hl1 & Hl2).
  { intros x Hin. rewrite <- Hx by done. by apply (queue_dom _ _ Hq). }
  assert (queue_ok (<[k := t]> m) (l1 ++ k :: l2)) as Hnew.
  { rewrite <- insert_delete_eq. apply queue_insert; [apply lookup_delete_eq|done|..].
    - apply List.Forall_forall. intros x Hin. rewrite Ht.
      + rewrite List.Forall_forall in Hl1. by apply Hl1.
      + apply elem_of_app. left. by apply list_elem_of_In.
    - destruct l2 as [|y l2]; [done|]. rewrite Ht; [by destruct Hl2|].
      apply elem_of_app. right. left. }
  destruct l2 as [|y l2].
  - exists None. rewrite Hl2, app_nil_r. done.
  - destruct Hl2 as [-> _]. eexists. split; [done|]. simpl.
    by rewrite take_app_length, drop_app_length.
Qed.

Lemma requeue_ok w k e :
  kv_ok (kv w) -> exists b w',
  requeue k e w = (Ok b, w') /\ same_store (kv w) (kv w') /\ same_env w w' /\
  expiring_keys (kv w') = set_expiry k e (expiring_keys (kv w)) /\ kv_ok (kv w').
Proof.
  intros [Hq Hl]. unfold requeue. stm_step. destruct e as [t|].
  - case_bool_decide as Hk.
    + destruct (queue_dequeue _ k Hq Hk) as (i & -> & Hq').
      destruct (queue_enqueue _ k t _ Hq') as (at_ & Hat & Hnew).
      do 2 eexists. split; [repeat stm_step; simpl; rewrite Hat; repeat stm_step; reflexivity|].
      split_and!; by try split.
    + assert (queue_ok (delete k (expiring_keys (kv w))) (expiration_order (kv w))) as Hq'.
      { rewrite delete_id; [done|]. by apply eq_None_not_Some. }
      destruct (queue_enqueue _ k t _ Hq') as (at_ & Hat & Hnew).
      do 2 eexists. split; [repeat stm_step; simpl; rewrite Hat; repeat stm_step; reflexivity|].
      split_and!; by try split.
  - stm_step. case_bool_decide as Hk.
    + destruct (queue_dequeue _ k Hq Hk) as (i & -> & Hq').
      do 2 eexists. split; [repeat stm_step; reflexivity|]. split_and!; by try split.
    + do 2 eexists. split; [reflexivity|]. split_and!; try by split. split; [|done].
      unfold kv_queue_ok. simpl. rewrite delete_id; [done|]. by apply eq_None_not_Some.
Qed.

Lemma maybe_update_target_ok (b : bool) w :
  kv_ok (kv w) -> exists w',
  (if b then update_background_worker_target else kv_ret tt) w = (Ok tt, w') /\
  same_store (kv w) (kv w') /\ same_env w w' /\
  expiring_keys (kv w') = expiring_keys (kv w) /\ kv_ok (kv w').
Proof.
  intros Hok. destruct b.
  - destruct (update_background_worker_target_ok w Hok) as [t ->]. eexists. split; [done|].
    split_and!; try done. by eapply kv_ok_same.
  - exists w. split_and!; done.
Qed.

Lemma update_key_expiration_ok w k e :
  kv_ok (kv w) -> exists w',
  update_key_expiration k e w = (Ok tt, w') /\ same_store (kv w) (kv w') /\ same_env w w' /\
  expiring_keys (kv w') = set_expiry k e (expiring_keys (kv w)) /\ kv_ok (kv w').
Proof.
  intros Hok. destruct (requeue_ok w k e Hok) as (b & w1 & Hr & Hs1 & He1 & Hx1 & Hok1).
  destruct (maybe_update_target_ok b w1 Hok1) as (w2 & Hu & Hs2 & He2 & Hx2 & Hok2).
  exists w2. unfold KeyValue.update_key_expiration. rewrite (stm_bind_Ok _ _ _ _ _ Hr).
  split; [done|]. split; [by etrans|]. split; [by etrans|]. split; [by rewrite Hx2|done].
Qed.

(** ** Expiring keys *)

(** The fields no cache operation changes. *)
Record same_base (s s' : KeyValueState) : Prop := {
  base_roots : roots s' = roots s;
  base_persistence : persistence s' = persistence s;
  base_last_commit : last_commit s' = last_commit s;
  base_persisting : keys_being_persisted s' = keys_being_persisted s;
  base_sender : shutdown_sender s' = shutdown_sender s
}.
#[global] Instance same_base_preorder : PreOrder same_base.
Proof.
  split; [by intros s; split|]. intros s1 s2 s3 [] []. split; etrans; done.
Qed.
Lemma same_store_base s s' : same_store s s' -> same_base s s'.
Proof. intros []. by split. Qed.

Definition expired (now : Timestamp) (o : option Timestamp) : bool :=
  match o with Some t => timestamp_leb t now | None => false end.

Definition unexpired (now : Timestamp) (m : gmap str Timestamp) : gmap str Timestamp :=
  filter (fun kt => timestamp_leb kt.2 now = false) m.

Lemma unexpired_lookup now m k :
  unexpired now m !! k = if expired now (m !! k) then None else m !! k.
Proof.
  unfold unexpired, expired. destruct (m !! k) as [t|] eqn:E.
  - destruct (timestamp_leb t now) eqn:Et.
    + apply map_lookup_filter_None. right. intros t' Ht'. simpl. congruence.
    + by apply map_lookup_filter_Some.
  - apply map_lookup_filter_None. by left.
Qed.

Lemma queue_head_unexpired now m k o :
  queue_ok m (k :: o) -> timestamp_leb (ts m k) now = false ->
  forall k', expired now (m !! k') = false.
Proof.
  intros [_ Hd Hs] Hk k'. destruct (m !! k') as [t|] eqn:E; [|done]. simpl.
  destruct (timestamp_leb t now) eqn:Et; [|done]. exfalso.
  assert (ts m k' = t) as Ht by (unfold ts; by rewrite E).
  assert (k' ∈ k :: o) as [->|Hin]%elem_of_cons by (apply Hd; by exists t); [congruence|].
  inversion Hs as [|? ? _ Hf]; subst. rewrite List.Forall_forall in Hf.
  pose proof (Hf k' (proj1 (list_elem_of_In _ _) Hin)) as Hle. unfold ts_le in Hle.
  rewrite (timestamp_leb_trans _ _ _ Hle Et) in Hk. done.
Qed.

Lemma remove_expired_loop_ok now o w :
  kv_ok (kv w) -> expiration_order (kv w) = o -> exists w',
  remove_expired_loop (length o) now w = (Ok tt, w') /\
  same_base (kv w) (kv w') /\ same_env w w' /\ ticks w' = ticks w /\
  expiring_keys (kv w') = unexpired now (expiring_keys (kv w)) /\
  (forall k, dirty_keys (kv w') !! k =
     if expired now (expiring_keys (kv w) !! k) then Some None else dirty_keys (kv w) !! k) /\
  kv_ok (kv w').
Proof.
  revert w. induction o as [|k o IH]; intros w [Hq Hl] Ho; simpl.
  - assert (forall k, expiring_keys (kv w) !! k = None) as Hnone.
    { intros k. apply eq_None_not_Some. rewrite <- (queue_dom _ _ Hq), Ho. apply not_elem_of_nil. }
    exists w. split_and!; try done.
    + apply map_eq. intros k. by rewrite unexpired_lookup, Hnone.
    + intros k. by rewrite Hnone.
  - stm_step. rewrite Ho. destruct (proj1 (queue_dom _ _ Hq k)) as [t Ht]; [rewrite Ho; left|].
    rewrite Ht. cbn [unwrap]. stm_step. unfold kv_queue_ok in Hq. rewrite Ho in Hq.
    destruct (timestamp_leb t now) eqn:Et.
    + do 3 stm_step. match goal with |- context [remove_expired_loop _ _ ?w] =>
        destruct (IH w) as (w' & Hr & Hb & He & Htk & Hx & Hd & Hok') end; simpl; [|done|].
      { split; [|done]. unfold kv_queue_ok. simpl. by apply (queue_remove _ []). }
      exists w'. simpl in *. split; [done|]. split; [destruct Hb; by split|].
      split; [destruct He; by split|]. split_and!; try done.
      * rewrite Hx. apply map_eq. intros k'. rewrite !unexpired_lookup.
        destruct (decide (k = k')) as [->|]; [|by rewrite lookup_delete_ne].
        rewrite lookup_delete_eq, Ht. simpl. by rewrite Et.
      * intros k'. rewrite Hd. destruct (decide (k = k')) as [->|].
        -- rewrite lookup_delete_eq, lookup_insert_eq, Ht. simpl. by rewrite Et.
        -- by rewrite lookup_delete_ne, lookup_insert_ne.
    + assert (forall k', expired now (expiring_keys (kv w) !! k') = false) as Hnone.
      { eapply queue_head_unexpired; [done|]. unfold ts. by rewrite Ht. }
      exists w. split_and!; try done.
      * apply map_eq. intros k'. by rewrite unexpired_lookup, Hnone.
      * intros k'. by rewrite Hnone.
      * by split; [unfold kv_queue_ok; rewrite Ho|].
Qed.

Lemma remove_expired_keys_ok now w :
  kv_ok (kv w) -> exists w',
  remove_expired_keys now w = (Ok tt, w') /\
  same_base (kv w) (kv w') /\ same_env w w' /\ ticks w' = ticks w /\
  expiring_keys (kv w') = unexpired now (expiring_keys (kv w)) /\
  (forall k, dirty_keys (kv w') !! k =
     if expired now (expiring_keys (kv w) !! k) then Some None else dirty_keys (kv w) !! k) /\
  kv_ok (kv w').
Proof. intros Hok. unfold remove_expired_keys. stm_step. by apply remove_expired_loop_ok. Qed.

(** ** The flat map the store stands for *)

Definition disk_view (r : Roots) (k : str) : option Entry :=
  contents r KEY_TREE !! as_bytes k ≫= deserialize_entry.

Definition view (s : KeyValueState) (k : str) : option Entry :=
  match dirty_keys s !! k with
  | Some e => e
  | None =>
      match persisting_entry s k with
      | Some e => e
      | None => disk_view (roots s) k
      end
  end.

Context `{!NebariLaws _}.

Lemma retrieve_key_from_disk_ok r k e :
  retrieve_key_from_disk r k = Ok e -> e = disk_view r k.
Proof.
  unfold retrieve_key_from_disk, disk_view. intros Hr. inv_res.
  match goal with H : roots_get _ _ _ = Ok _ |- _ => apply roots_get_law in H as -> end.
  done.
Qed.

Lemma retrieve_key_from_disk_cases r k :
  retrieve_key_from_disk r k = Ok (disk_view r k) \/
  exists e, retrieve_key_from_disk r k = Err (NebariError e).
Proof.
  destruct (retrieve_key_from_disk r k) as [e|e|] eqn:E.
  - left. by rewrite (retrieve_key_from_disk_ok _ _ _ E).
  - right. unfold retrieve_key_from_disk in E.
    destruct (roots_get _ _ _) eqn:G; simplify_eq/=. eauto.
  - unfold retrieve_key_from_disk in E. destruct (roots_get _ _ _) eqn:G; simplify_eq/=.
    by apply no_panic_get in G.
Qed.

Lemma get_cases s k :
  get s k = Ok (view s k) \/ exists e, get s k = Err (NebariError e).
Proof.
  unfold get, view. destruct (dirty_keys s !! k); [by left|].
  destruct (persisting_entry s k); [by left|]. apply retrieve_key_from_disk_cases.
Qed.

End Laws.
