(* ===== verification/KeyValueSpec.v ===== *)
(** * What the key-value store promises

    The abstract store: one flat map from keys to entries and the expiration of
    the keys that have one.  [spec_operation] is the meaning of an operation on
    it.  The lemmas show that the layered store (cache, keys being persisted,
    tree on disk) implements it, whatever its layers hold. *)

From Stdlib Require Import ZArith Lia String Sorting.Sorted.
From stdpp Require Import base list option numbers gmap sorting.
From S2P Require Import Prelude Bytes Utf8 Timestamp Numeric Persistence Nebari KeyValue KeyValueLaws.

Local Open Scope Z_scope.

Record Abs := MkAbs { a_view : str -> option Entry; a_exp : gmap str Timestamp }.

(** Two abstract stores with the same entries. *)
#[export] Instance Abs_equiv : Equiv Abs := fun a b =>
  a_exp a = a_exp b /\ forall k, a_view a k = a_view b k.
#[export] Instance Abs_equivalence : Equivalence (≡@{Abs}).
Proof.
  split.
  - intros a. by split.
  - intros a b [? ?]. by split.
  - intros a b c [? H1] [? H2]. split; [congruence|]. intros k. by rewrite H1.
Qed.

Definition write (k : str) (e : option Entry) (a : Abs) : Abs :=
  MkAbs (fun k' => if decide (k = k') then e else a_view a k') (a_exp a).
Definition expire_at (k : str) (t : option Timestamp) (a : Abs) : Abs :=
  MkAbs (a_view a) (set_expiry k t (a_exp a)).
(** Expired keys are gone. *)
Definition spec_expire (now : Timestamp) (a : Abs) : Abs :=
  MkAbs (fun k => if expired now (a_exp a !! k) then None else a_view a k)
        (unexpired now (a_exp a)).

#[export] Instance write_proper k e : Proper ((≡) ==> (≡)) (write k e).
Proof. intros a b [? Hv]. split; [done|]. intros k'. simpl. by rewrite Hv. Qed.
#[export] Instance expire_at_proper k t : Proper ((≡) ==> (≡)) (expire_at k t).
Proof. intros a b [He Hv]. split; [simpl; by rewrite He|done]. Qed.
#[export] Instance spec_expire_proper now : Proper ((≡) ==> (≡)) (spec_expire now).
Proof.
  intros a b [He Hv]. split; simpl; [by rewrite He|]. intros k. by rewrite He, Hv.
Qed.

Section Spec.
Context `{Nebari}.

Definition spec_set (k : str) (cmd : SetCommand) (now : Timestamp) (a : Abs) : res KvError Output * Abs :=
  match value_validate (set_value cmd) with
  | Ok v =>
      let old := a_view a k in
      let updating :=
        match check cmd with
        | Some OnlyIfPresent => bool_decide (is_Some old)
        | Some OnlyIfVacant => bool_decide (old = None)
        | None => true
        end in
      if updating : bool then
        let t := match keep_existing_expiration cmd, old with
                 | true, Some e => expiration e
                 | _, _ => set_expiration cmd
                 end in
        (Ok (if return_previous_value cmd then OValue (value <$> old)
             else OStatus (match old with None => Inserted | Some _ => Updated end)),
         write k (Some (MkEntry v t now)) (expire_at k t a))
      else (Ok (OStatus NotChanged), a)
  | _ => (Err ENotANumber, a)
  end.

Definition spec_remove (k : str) (a : Abs) : Abs := write k None (expire_at k None a).

Definition spec_numeric (k : str) (amount : Numeric) (saturating : bool) (now : Timestamp)
    (op : Numeric -> Numeric -> bool -> Numeric) (a : Abs) : res KvError Output * Abs :=
  let entry := default (MkEntry (VNumeric (UnsignedInteger 0)) None now) (a_view a k) in
  match value entry with
  | VBytes _ => (Err ENotNumeric, a)
  | VNumeric existing =>
      match validate (op existing amount saturating) with
      | Ok n => (Ok (OValue (Some (VNumeric n))),
                 write k (Some (MkEntry (VNumeric n) (expiration entry) (last_updated entry))) a)
      | _ => (Err ENotANumber, a)
      end
  end.

Definition spec_command (op : KeyOperation) (now : Timestamp) (a : Abs) : res KvError Output * Abs :=
  let k := full_key (namespace op) (key op) in
  match command op with
  | CSet cmd => spec_set k cmd now a
  | CGet delete =>
      (Ok (OValue (value <$> a_view a k)), if delete then spec_remove k a else a)
  | CDelete =>
      (Ok (OStatus (match a_view a k with Some _ => Deleted | None => NotChanged end)), spec_remove k a)
  | CIncrement amount saturating => spec_numeric k amount saturating now increment a
  | CDecrement amount saturating => spec_numeric k amount saturating now decrement a
  end.

(** An operation at time [now]: expired keys are removed first. *)
Definition spec_operation (op : KeyOperation) (now : Timestamp) (a : Abs) : res KvError Output * Abs :=
  spec_command op now (spec_expire now a).

End Spec.

(** ** The layered store implements the commands *)

Section Refinement.
Context `{Nebari} `{EntryCodec} `{Profile} `{!NebariLaws _}.
Context (clock : nat -> Timestamp).
Context (clock_normal : forall n, timestamp_normal (clock n)).

Definition abs (s : KeyValueState) : Abs := MkAbs (view s) (expiring_keys s).

(** The keys the cache and the queue hold satisfy [P]. *)
Definition keys_in (P : str -> Prop) (s : KeyValueState) : Prop :=
  forall k, is_Some (dirty_keys s !! k) \/ is_Some (expiring_keys s !! k) -> P k.
(** Only [k0] may be added, and no other key's expiration changes. *)
Definition keys_grow (k0 : str) (s s' : KeyValueState) : Prop :=
  (forall P, P k0 -> keys_in P s -> keys_in P s') /\
  (forall k, k <> k0 -> expiring_keys s' !! k = expiring_keys s !! k).
#[global] Instance keys_grow_preorder k0 : PreOrder (keys_grow k0).
Proof.
  split; [by intros s; split|]. intros s1 s2 s3 [H12 X12] [H23 X23]. split.
  - intros P ??. apply H23; auto.
  - intros k Hk. by rewrite X23, X12.
Qed.

Lemma keys_grow_expiry k t s s' :
  dirty_keys s' = dirty_keys s -> expiring_keys s' = set_expiry k t (expiring_keys s) -> keys_grow k s s'.
Proof.
  intros Hd Hx. split.
  - intros P Hk Hin k'. rewrite Hd, Hx. destruct (decide (k = k')) as [->|]; [done|].
    rewrite set_expiry_ne by done. apply Hin.
  - intros k' Hk. rewrite Hx. by apply set_expiry_ne.
Qed.

(** A computation on the locked state that has the effect and result
    [expected] of the abstract store, or fails on an I/O error of the store
    leaving every entry as it was; [k0] is the only key it may add. *)
Definition implements {A} (k0 : str) (m : stm World KvError A) (w : World)
    (expected : res KvError A * Abs) : Prop :=
  exists r w', m w = (r, w') /\
    same_base (kv w) (kv w') /\ same_env w w' /\ keys_grow k0 (kv w) (kv w') /\ kv_ok (kv w') /\
    ((r = expected.1 /\ abs (kv w') ≡ expected.2) \/
     (exists e, r = Err (NebariError e)) /\ forall k, view (kv w') k = view (kv w) k).

Lemma view_same_store s s' k : same_store s s' -> view s' k = view s k.
Proof. intros []. unfold view, persisting_entry. by rewrite same_dirty, same_persisting, same_roots. Qed.

Lemma view_write s s' k e k' :
  same_base s s' -> dirty_keys s' = <[k := e]> (dirty_keys s) ->
  view s' k' = if decide (k = k') then e else view s k'.
Proof.
  intros [] Hd. unfold view, persisting_entry. rewrite Hd, base_persisting, base_roots.
  case_decide as Hk; [subst; by rewrite lookup_insert_eq|by rewrite lookup_insert_ne].
Qed.

(** Writing the cache. *)
Lemma write_cache_ok s k e :
  let s' := set_dirty_keys (<[k := e]> (dirty_keys s)) s in
  same_base s s' /\ keys_grow k s s' /\ (kv_ok s -> kv_ok s') /\ abs s' ≡ write k e (abs s).
Proof.
  cbv zeta. split; [by split|]. split.
  { split; [|done]. intros P Hk Hin k' Hk'. destruct (decide (k = k')) as [<-|]; [done|]. apply Hin.
    simpl in Hk'. by rewrite lookup_insert_ne in Hk'. }
  split; [intros Hok; by eapply kv_ok_same|]. split; [done|]. intros k'. simpl. by apply view_write.
Qed.

Lemma set_ok k e w : kv_ok (kv w) -> implements k (set k e) w (Ok tt, write k (Some e) (abs (kv w))).
Proof.
  intros Hok. destruct (write_cache_ok (kv w) k (Some e)) as (Hb & Hg & Hk & Ha).
  do 2 eexists. split; [unfold set; stm_step; reflexivity|].
  split_and!; [done..|by apply Hk|by left].
Qed.

Lemma replace_ok k e w :
  kv_ok (kv w) -> implements k (replace k e) w (Ok (view (kv w) k), write k (Some e) (abs (kv w))).
Proof.
  intros Hok. destruct (write_cache_ok (kv w) k (Some e)) as (Hb & Hg & Hk & Ha).
  unfold implements, replace. rewrite (stm_bind_Ok get_kv _ w (kv w) w) by done. unfold view.
  destruct (dirty_keys (kv w) !! k) as [old|].
  { do 2 eexists. split; [reflexivity|]. split_and!; [done..|by apply Hk|by left]. }
  assert (match persisting_entry (kv w) k with
          | Some persisting_entry => Ok persisting_entry
          | None => retrieve_key_from_disk (roots (kv w)) k
          end = Ok (match persisting_entry (kv w) k with
                    | Some e => e | None => disk_view (roots (kv w)) k end) \/
          exists e, match persisting_entry (kv w) k with
          | Some persisting_entry => Ok persisting_entry
          | None => retrieve_key_from_disk (roots (kv w)) k
          end = Err (NebariError e)) as [->|[e' ->]].
  { destruct (persisting_entry (kv w) k); [by left|]. apply retrieve_key_from_disk_cases. }
  - do 2 eexists. split; [reflexivity|]. split_and!; [done..|by apply Hk|by left].
  - do 2 eexists. split; [reflexivity|]. split_and!; [done..|]. right. split; [by eexists|done].
Qed.

Lemma remove_ok k w :
  kv_ok (kv w) -> implements k (remove clock k) w (Ok (view (kv w) k), spec_remove k (abs (kv w))).
Proof.
  intros Hok.
  destruct (update_key_expiration_ok clock clock_normal w k None Hok)
    as (w1 & Hu & Hs1 & He1 & Hx1 & Hok1).
  destruct (write_cache_ok (kv w1) k None) as (Hb & Hg & Hk & Ha).
  assert (abs (kv w1) ≡ expire_at k None (abs (kv w))) as Habs.
  { split; [done|]. intros k'. by apply view_same_store. }
  pose proof (same_store_base _ _ Hs1) as Hb1.
  pose proof (keys_grow_expiry k None _ _ (same_dirty _ _ Hs1) Hx1) as Hg1.
  unfold implements, remove. rewrite (stm_bind_Ok _ _ _ _ _ Hu).
  rewrite (stm_bind_Ok get_kv _ w1 (kv w1) w1) by done.
  rewrite <- (view_same_store _ _ k Hs1). unfold view at 1.
  assert (forall r, r = view (kv w1) k -> exists r' w',
    (modify_kv (set_dirty_keys (<[k:=None]> (dirty_keys (kv w1))));; kv_ret r) w1 = (r', w') /\
    same_base (kv w) (kv w') /\ same_env w w' /\ keys_grow k (kv w) (kv w') /\ kv_ok (kv w') /\
    ((r' = Ok r /\ abs (kv w') ≡ spec_remove k (abs (kv w))) \/
     (exists e, r' = Err (NebariError e)) /\ forall k, view (kv w') k = view (kv w) k)) as Hmark.
  { intros r _. do 2 eexists. split; [reflexivity|]. split; [by etrans|].
    split; [destruct He1; by split|]. split; [by etrans|]. split; [by apply Hk|]. left.
    split; [done|]. unfold spec_remove. by rewrite <- Habs. }
  destruct (dirty_keys (kv w1) !! k) as [old|] eqn:Ed; simpl.
  { apply Hmark. unfold view. by rewrite Ed. }
  destruct (persisting_entry (kv w1) k) as [old|] eqn:Ep.
  { apply Hmark. unfold view. by rewrite Ed, Ep. }
  destruct (retrieve_key_from_disk_cases (roots (kv w1)) k) as [->|[e ->]].
  - apply Hmark. unfold view. by rewrite Ed, Ep.
  - do 2 eexists. split; [reflexivity|]. split_and!; [done..|]. right.
    split; [by eexists|]. intros k'. by apply view_same_store.
Qed.

(** Sequencing: what follows may fail only while no entry has changed. *)
Lemma implements_bind {A B} k0 (m : stm World KvError A) (f : A -> stm World KvError B) w a mid expected :
  implements k0 m w (Ok a, mid) ->
  (forall w1, same_base (kv w) (kv w1) -> kv_ok (kv w1) -> abs (kv w1) ≡ mid -> implements k0 (f a) w1 expected) ->
  (forall k, a_view mid k = view (kv w) k) \/ (forall w1 r w2, f a w1 = (r, w2) -> forall e, r <> Err (NebariError e)) ->
  implements k0 (m ≫= f) w expected.
Proof.
  intros (r & w1 & Hm & Hb & He & Hg & Hok & [[Hr Ha]|[[e Hr] Hv]]) Hf Hsafe; simpl in *; subst r.
  - destruct (Hf w1 Hb Hok Ha) as (r & w2 & Hf2 & Hb2 & He2 & Hg2 & Hok2 & Hcase).
    exists r, w2. rewrite (stm_bind_Ok _ _ _ _ _ Hm). split; [done|].
    split; [by etrans|]. split; [by etrans|]. split; [by etrans|]. split; [done|].
    destruct Hcase as [|[[e ->] Hv2]]; [by left|]. right. split; [by eexists|].
    destruct Hsafe as [Hsafe|Hsafe]; [|by eapply Hsafe in Hf2].
    intros k. rewrite Hv2, <- Hsafe. apply Ha.
  - exists (Err (NebariError e)), w1. unfold mbind, stm_bind. rewrite Hm.
    split_and!; [done..|]. right. split; [by eexists|done].
Qed.

Lemma implements_ret {A} k0 (a : A) w mid :
  kv_ok (kv w) -> abs (kv w) ≡ mid -> implements k0 (kv_ret a) w (Ok a, mid).
Proof. intros. exists (Ok a), w. split_and!; try done. by left. Qed.

Lemma implements_err {A} k0 e w mid :
  kv_ok (kv w) -> abs (kv w) ≡ mid -> implements k0 (kv_lift (Err e) : stm World KvError A) w (Err e, mid).
Proof. intros. exists (Err e), w. split_and!; try done. by left. Qed.

Lemma implements_get k0 k w :
  kv_ok (kv w) -> implements k0 (s ← get_kv; kv_lift (get s k)) w (Ok (view (kv w) k), abs (kv w)).
Proof.
  intros. unfold implements. rewrite (stm_bind_Ok get_kv _ w (kv w) w) by done.
  unfold kv_lift, st_lift. destruct (get_cases (kv w) k) as [->|[e ->]]; do 2 eexists;
    (split; [reflexivity|]); split_and!; try done; [by left|right; eauto].
Qed.

Lemma implements_expiry k t w :
  kv_ok (kv w) -> implements k (update_key_expiration clock k t) w (Ok tt, expire_at k t (abs (kv w))).
Proof.
  intros Hok. destruct (update_key_expiration_ok clock clock_normal w k t Hok)
    as (w1 & Hu & Hs1 & He1 & Hx1 & Hok1).
  exists (Ok tt), w1. split; [done|]. split; [by apply same_store_base|]. split; [done|].
  split; [by eapply keys_grow_expiry; [apply Hs1|]|]. split; [done|].
  left. split; [done|]. split; [done|]. intros k'. by apply view_same_store.
Qed.

Lemma implements_equiv {A} k0 (m : stm World KvError A) w r a b :
  a ≡ b -> implements k0 m w (r, a) -> implements k0 m w (r, b).
Proof.
  intros Hab (r' & w' & ? & ? & ? & ? & ? & [[? ?] | ?]); exists r', w'; split_and!; try done; [left|by right].
  split; [done|]. simpl in *. by rewrite <- Hab.
Qed.

(** The last part of a [set]: expiration, then value. *)
Lemma implements_store k t v w (possible : option (option Entry)) (out : option Entry -> Output) :
  kv_ok (kv w) -> possible = None \/ possible = Some (view (kv w) k) ->
  implements k
    (update_key_expiration clock k t;;
     previous ← match possible with
                | Some existing => set k v;; kv_ret existing
                | None => replace k v
                end;
     kv_ret (out previous)) w
    (Ok (out (view (kv w) k)), write k (Some v) (expire_at k t (abs (kv w)))).
Proof.
  intros Hok Hp. eapply implements_bind; [by apply implements_expiry| |by left].
  intros w1 _ Hok1 Ha1.
  assert (view (kv w1) k = view (kv w) k) as Hv by apply Ha1.
  eapply implements_bind with (mid := write k (Some v) (abs (kv w1))) (a := view (kv w1) k).
  - destruct Hp as [->| ->]; [by apply replace_ok|].
    rewrite <- Hv. eapply implements_bind; [by apply set_ok| |].
    + intros w2 _ Hok2 Ha2. by apply implements_ret.
    + right. intros w2 r w3 [= <- <-] e. done.
  - intros w2 _ Hok2 Ha2. rewrite Hv. apply implements_ret; [done|]. by rewrite Ha2, Ha1.
  - right. intros w2 r w3 [= <- <-] e. done.
Qed.

Lemma execute_set_ok ns key cmd now w :
  kv_ok (kv w) ->
  implements (full_key ns key) (execute_set_operation clock ns key cmd now) w
    (spec_set (full_key ns key) cmd now (abs (kv w))).
Proof.
  intros Hok. unfold execute_set_operation, spec_set. set (k := full_key ns key).
  destruct (value_validate (set_value cmd)) as [v|e|] eqn:Ev.
  2: by exists (Err ENotANumber), w; split_and!; try done; left.
  2: by destruct (set_value cmd) as [?|[| |f]]; simpl in Ev; try done; destruct (is_nan f).
  cbv zeta. change (a_view (abs (kv w)) k) with (view (kv w) k). set (old := view (kv w) k).
  match goal with |- implements _ _ _ ?X => set (expected := X) end.
  set (need := bool_decide (is_Some (check cmd)) || return_previous_value cmd ||
               keep_existing_expiration cmd).
  unfold implements. stm_step. stm_step.
  match goal with |- context [(_ ≫= ?f) w] => set (F := f) end.
  assert (forall possible, possible = None /\ need = false \/ possible = Some old ->
    implements k (F possible) w expected) as Htail.
  { intros possible Hp.
    assert (mjoin possible = old \/ check cmd = None /\ keep_existing_expiration cmd = false) as Hj.
    { destruct Hp as [[-> Hneed]| ->]; [right|by left]. unfold need in Hneed.
      apply orb_false_iff in Hneed as [[Hc%bool_decide_eq_false _]%orb_false_iff ->].
      split; [|done]. by apply eq_None_not_Some. }
    unfold F, expected.
    assert (match check cmd with
      | Some OnlyIfPresent => bool_decide (is_Some (mjoin possible))
      | Some OnlyIfVacant => bool_decide (mjoin possible = None)
      | None => true
      end = match check cmd with
      | Some OnlyIfPresent => bool_decide (is_Some old)
      | Some OnlyIfVacant => bool_decide (old = None)
      | None => true
      end) as -> by (by destruct Hj as [->|[-> _]]).
    assert (match keep_existing_expiration cmd, mjoin possible with
      | true, Some existing => expiration existing
      | _, _ => set_expiration cmd
      end = match keep_existing_expiration cmd, old with
      | true, Some existing => expiration existing
      | _, _ => set_expiration cmd
      end) as -> by (by destruct Hj as [->|[_ ->]]).
    destruct (match check cmd with Some _ => _ | None => _ end); [|by apply implements_ret].
    replace (OStatus (match old with Some _ => Updated | None => Inserted end))
      with (match old with None => OStatus Inserted | Some _ => OStatus Updated end)
      by (by destruct old).
    apply (implements_store k _ _ w possible (fun previous =>
      if return_previous_value cmd then OValue (value <$> previous)
      else match previous with None => OStatus Inserted | Some _ => OStatus Updated end)); [done|].
    destruct Hp as [[-> _]|]; auto. }
  destruct need eqn:Hneed.
  - destruct (get_cases (kv w) k) as [Hg|[e Hg]]; rewrite Hg.
    + repeat stm_step. apply Htail. by right.
    + exists (Err (NebariError e)), w. split_and!; try done. right. eauto.
  - stm_step. apply Htail. by left.
Qed.

Lemma execute_get_ok ns key delete w :
  kv_ok (kv w) ->
  implements (full_key ns key) (execute_get_operation clock ns key delete) w
    (Ok (OValue (value <$> view (kv w) (full_key ns key))),
     if delete then spec_remove (full_key ns key) (abs (kv w)) else abs (kv w)).
Proof.
  intros Hok. unfold execute_get_operation.
  eapply implements_bind with (a := view (kv w) (full_key ns key))
    (mid := if delete then spec_remove (full_key ns key) (abs (kv w)) else abs (kv w)).
  - destruct delete; [by apply remove_ok|by apply implements_get].
  - intros w1 _ Hok1 Ha1. by apply implements_ret.
  - right. intros w1 r w2 [= <- <-] e. done.
Qed.

Lemma execute_delete_ok ns key w :
  kv_ok (kv w) ->
  implements (full_key ns key) (execute_delete_operation clock ns key) w
    (Ok (OStatus (match view (kv w) (full_key ns key) with Some _ => Deleted | None => NotChanged end)),
     spec_remove (full_key ns key) (abs (kv w))).
Proof.
  intros Hok. unfold execute_delete_operation. eapply implements_bind; [by apply remove_ok| |].
  - intros w1 _ Hok1 Ha1.
    assert (forall o : option Entry,
      match o with Some _ => OStatus Deleted | None => OStatus NotChanged end =
      OStatus match o with Some _ => Deleted | None => NotChanged end) as <- by by intros [].
    by apply implements_ret.
  - right. intros w1 r w2 [= <- <-] e. done.
Qed.

Lemma validate_cases n : validate n = Ok n \/ validate n = Err NotANumber.
Proof. destruct n as [| |f]; simpl; auto. destruct (is_nan f); auto. Qed.

Lemma execute_numeric_ok ns key amount saturating now op w :
  kv_ok (kv w) ->
  implements (full_key ns key) (execute_numeric_operation ns key amount saturating now op) w
    (spec_numeric (full_key ns key) amount saturating now op (abs (kv w))).
Proof.
  intros Hok. unfold execute_numeric_operation, spec_numeric.
  set (k := full_key ns key). change (a_view (abs (kv w)) k) with (view (kv w) k).
  cbv zeta. unfold implements. stm_step.
  destruct (get_cases (kv w) k) as [->|[e ->]].
  2: { exists (Err (NebariError e)), w. split_and!; try done. right. eauto. }
  stm_step. set (entry := default _ _).
  destruct (value entry) as [bs|n]; [by apply implements_err|].
  destruct (validate_cases (op n amount saturating)) as [->| ->]; [stm_step|by apply implements_err].
  eapply implements_bind; [by apply set_ok| |].
  - intros w1 _ Hok1 Ha1. by apply implements_ret.
  - right. intros w1 r w2 [= <- <-] e. done.
Qed.

Lemma execute_command_ok op now w :
  kv_ok (kv w) -> implements (full_key (namespace op) (key op)) (execute_command clock op now) w (spec_command op now (abs (kv w))).
Proof.
  intros Hok. unfold execute_command, spec_command. destruct (command op).
  - by apply execute_set_ok.
  - by apply execute_get_ok.
  - by apply execute_numeric_ok.
  - by apply execute_numeric_ok.
  - by apply execute_delete_ok.
Qed.

End Refinement.
