(* ===== verification/KeyValueSystem.v ===== *)
(** * The key-value store as a system of threads

    The invariant that links the locked state to the persist thread, its
    preservation by every step, and the simulation of every step by the
    abstract store. *)

From Stdlib Require Import ZArith Lia String Sorting.Sorted.
From stdpp Require Import base list option numbers gmap sorting.
From S2P Require Import Prelude Bytes Utf8 Timestamp Numeric Persistence Nebari Changes KeyValue KeyValueLaws KeyValueSpec.

Local Open Scope Z_scope.

(** ** Full keys *)

Lemma split_once_spec s a b : split_once s = Some (a, b) <-> s = a ++ 0 :: b /\ 0 ∉ a.
Proof.
  revert a. induction s as [|c s IH]; intros a; simpl.
  - split; [done|]. intros [H _]. by destruct a.
  - destruct (Z.eqb_spec c 0) as [->|Hc].
    + split; [intros [= <- <-]; split; [done|apply not_elem_of_nil]|].
      intros [Ha Hn]. destruct a as [|x a]; simplify_eq/=; [done|].
      exfalso. apply Hn. left.
    + destruct (split_once s) as [[a' b']|] eqn:E; simpl.
      * split.
        -- intros [= <- <-]. destruct (proj1 (IH a') eq_refl) as [-> Hn]. split; [done|].
           by apply not_elem_of_cons.
        -- intros [Ha Hn]. destruct a as [|x a]; simplify_eq/=.
           apply not_elem_of_cons in Hn as [_ Hn].
           pose proof (proj2 (IH a) (conj eq_refl Hn)) as Heq. by simplify_eq.
      * split; [done|]. intros [Ha Hn]. destruct a as [|x a]; simplify_eq/=.
        apply not_elem_of_cons in Hn as [_ Hn]. by pose proof (proj2 (IH a) (conj eq_refl Hn)).
Qed.

Lemma split_once_null s : is_Some (split_once s) <-> 0 ∈ s.
Proof.
  split.
  - intros [[a b] [-> _]%split_once_spec]. apply elem_of_app. right. left.
  - induction s as [|c s IH]; [by intros ?%elem_of_nil|]. simpl.
    destruct (Z.eqb_spec c 0); [by eexists|]. intros [?|Hin]%elem_of_cons; [done|].
    destruct (IH Hin) as [[a b] ->]. by eexists.
Qed.

Lemma split_key_null s : is_Some (split_key s) <-> 0 ∈ s.
Proof.
  rewrite <- split_once_null. unfold split_key.
  destruct (split_once s) as [[a b]|]; simpl; [|done]. split; intros _; by eexists.
Qed.

(** Splitting loses nothing: joining gives back the full key. *)
Lemma full_key_split s ns k : split_key s = Some (ns, k) -> full_key ns k = s.
Proof.
  unfold split_key. destruct (split_once s) as [[a b]|] eqn:E; simpl; [|done].
  apply split_once_spec in E as [-> _]. intros [= <- <-]. by destruct a.
Qed.

Lemma split_full_key ns k :
  0 ∉ default [] ns -> split_key (full_key ns k) = Some (match ns with Some [] => None | _ => ns end, k).
Proof.
  intros Hn. unfold split_key.
  rewrite (proj2 (split_once_spec _ (default [] ns) k)); [by destruct ns as [[|]|]|].
  split; [by destruct ns|done].
Qed.

Lemma is_str_app s t : is_str (s ++ t) = is_str s && is_str t.
Proof. apply forallb_app. Qed.

(** What every key of the store is: a string with a null character. *)
Definition key_wf (k : str) : Prop := is_str k = true /\ 0 ∈ k.

Lemma full_key_wf ns k :
  is_str (default [] ns) = true -> is_str k = true -> key_wf (full_key ns k).
Proof.
  intros Hn Hk. split.
  - unfold full_key. rewrite !is_str_app, Hk. by destruct ns; simpl in *; rewrite ?Hn.
  - unfold full_key. apply elem_of_app. right. apply elem_of_app. left. by apply list_elem_of_singleton.
Qed.

(** ** Iterating over the keys of a map *)

#[local] Instance str_le_total : Total str_le.
Proof. intros x y. unfold str_le. destruct (bytes_leb_total (as_bytes x) (as_bytes y)); auto. Qed.
#[local] Instance str_le_trans : Transitive str_le.
Proof. intros x y z. unfold str_le. apply bytes_leb_trans. Qed.

Lemma btree_keys_elem {A} (m : gmap str A) k : k ∈ btree_keys m <-> is_Some (m !! k).
Proof.
  unfold btree_keys. rewrite merge_sort_Permutation, list_elem_of_fmap. split.
  - intros ([k' a] & -> & H%elem_of_map_to_list). by eexists.
  - intros [a H%elem_of_map_to_list]. by exists (k, a).
Qed.

Lemma btree_keys_NoDup {A} (m : gmap str A) : NoDup (btree_keys m).
Proof. unfold btree_keys. rewrite merge_sort_Permutation. apply NoDup_fst_map_to_list. Qed.

Lemma sorted_as_bytes l :
  StronglySorted str_le l -> NoDup l -> Forall key_wf l -> StronglySorted bytes_lt (as_bytes <$> l).
Proof.
  induction 1 as [|x l Hs IH Hf]; intros Hn Hw; simpl; [constructor|].
  apply NoDup_cons in Hn as [Hx Hn]. inversion Hw as [|? ? [Hwx _] Hwl]; subst.
  constructor; [by apply IH|]. apply List.Forall_forall.
  intros b Hb%list_elem_of_In. apply list_elem_of_fmap in Hb as (y & -> & Hy).
  rewrite List.Forall_forall in Hf, Hwl. pose proof (proj1 (list_elem_of_In _ _) Hy) as Hy'.
  pose proof (Hf y Hy') as Hle. destruct (Hwl y Hy') as [Hwy _].
  unfold str_le, bytes_leb, bytes_lt in *. destruct (bytes_cmp _ _) eqn:E; try done.
  apply bytes_cmp_eq, as_bytes_inj in E; [by subst|done..].
Qed.

Lemma btree_keys_sorted {A} (m : gmap str A) :
  (forall k, is_Some (m !! k) -> key_wf k) -> StronglySorted bytes_lt (as_bytes <$> btree_keys m).
Proof.
  intros Hw. apply sorted_as_bytes; [apply StronglySorted_merge_sort; apply _|apply btree_keys_NoDup|].
  apply List.Forall_forall. intros k Hk%list_elem_of_In%btree_keys_elem. auto.
Qed.

(** ** Persisting *)

Section Persist.
Context `{Nebari} `{EntryCodec} `{!NebariLaws _} `{!EntryCodecLaws _}.

(** What persisting one key does to the tree. *)
Definition persist_effect (keys : gmap str (option Entry)) (k : str) (m : gmap bytes bytes) : gmap bytes bytes :=
  match keys !! k with
  | Some (Some e) => match serialize_entry e with Some b => <[as_bytes k := b]> m | None => m end
  | Some None => delete (as_bytes k) m
  | None => m
  end.

Lemma persist_callback_ok keys k m ch :
  key_wf k -> is_Some (keys !! k) -> exists op ch',
  persist_callback keys (as_bytes k) (m !! as_bytes k) ch = (Ok op, ch ++ ch') /\
  apply_tree_operation (as_bytes k) op m = persist_effect keys k m /\ (ch' = [] -> persist_effect keys k m = m).
Proof.
  intros [Hs Hnull] [v Hv]. unfold persist_callback, persist_effect. rewrite from_utf8_as_bytes by done.
  stm_step. destruct (proj2 (split_key_null k) Hnull) as [[ns key] ->]. stm_step. rewrite Hv. stm_step.
  destruct v as [e|].
  - destruct (entry_roundtrip e) as (b & Hser & _). rewrite Hser. do 2 eexists.
    split; [repeat stm_step; reflexivity|]. split; [done|by intros].
  - case_bool_decide as Hex.
    + do 2 eexists. split; [repeat stm_step; reflexivity|]. split; [done|by intros].
    + exists OpSkip, []. rewrite app_nil_r. split; [done|].
      apply eq_None_not_Some in Hex. rewrite delete_id by done. done.
Qed.

Lemma persist_modify keys l m ch :
  Forall key_wf l -> (forall k, k ∈ l -> is_Some (keys !! k)) -> exists m' ch',
  modify_spec (as_bytes <$> l) (persist_callback keys) m ch = Ok (m', ch ++ ch') /\
  m' = foldl (fun m k => persist_effect keys k m) m l /\ (ch' = [] -> m' = m).
Proof.
  revert m ch. induction l as [|k l IH]; intros m ch Hw Hk; simpl.
  - exists m, []. by rewrite app_nil_r.
  - inversion Hw as [|? ? Hwk Hwl]; subst.
    destruct (persist_callback_ok keys k m ch Hwk) as (op & ch1 & -> & Hop & Hnil).
    { apply Hk. left. }
    destruct (IH (apply_tree_operation (as_bytes k) op m) (ch ++ ch1) Hwl) as (m' & ch2 & Hm & -> & Hnil2).
    { intros. apply Hk. by right. }
    rewrite Hop in *. eexists _, (ch1 ++ ch2). rewrite app_assoc. split; [done|]. split; [done|].
    intros [Hn1 Hn2]%app_eq_nil. rewrite (Hnil2 Hn2). auto.
Qed.

Lemma persist_effect_other keys k m b :
  b <> as_bytes k -> persist_effect keys k m !! b = m !! b.
Proof.
  intros Hb. unfold persist_effect. destruct (keys !! k) as [[e|]|]; [|by rewrite lookup_delete_ne|done].
  destruct (serialize_entry e); [by rewrite lookup_insert_ne|done].
Qed.

Lemma persist_fold_other keys l m b :
  (forall k, k ∈ l -> b <> as_bytes k) -> foldl (fun m k => persist_effect keys k m) m l !! b = m !! b.
Proof.
  revert m. induction l as [|k l IH]; intros m Hb; simpl; [done|].
  rewrite IH; [|intros; apply Hb; by right]. apply persist_effect_other, Hb. left.
Qed.

Lemma persist_effect_self keys k m e :
  keys !! k = Some e -> persist_effect keys k m !! as_bytes k ≫= deserialize_entry = e.
Proof.
  intros Hk. unfold persist_effect. rewrite Hk. destruct e as [e|]; [|by rewrite lookup_delete_eq].
  destruct (entry_roundtrip e) as (b & -> & Hb). by rewrite lookup_insert_eq.
Qed.

Lemma persist_fold_self keys l m k e :
  NoDup l -> Forall key_wf l -> k ∈ l -> keys !! k = Some e ->
  foldl (fun m k => persist_effect keys k m) m l !! as_bytes k ≫= deserialize_entry = e.
Proof.
  revert m. induction l as [|x l IH]; intros m Hn Hw Hin Hk; simpl; [by apply elem_of_nil in Hin|].
  apply NoDup_cons in Hn as [Hx Hn]. inversion Hw as [|? ? [Hsx _] Hwl]; subst.
  apply elem_of_cons in Hin as [->|Hin]; [|by apply IH].
  rewrite persist_fold_other; [by apply persist_effect_self|].
  rewrite List.Forall_forall in Hwl. intros y Hy Heq.
  destruct (Hwl y) as [Hsy _]; [by apply list_elem_of_In|].
  apply as_bytes_inj in Heq; [by subst|done..].
Qed.

(** The outcome of the write: an error, or a tree that holds exactly the keys'
    new entries. *)
Definition persisted (r : Roots) (keys : gmap str (option Entry)) (r' : Roots) : Prop :=
  (forall k e, keys !! k = Some e -> disk_view r' k = e) /\
  (forall k, is_str k = true -> keys !! k = None -> disk_view r' k = disk_view r k) /\
  (forall t, t <> KEY_TREE -> contents r' t = contents r t).

Lemma persisted_contents r keys r' :
  (forall k, is_Some (keys !! k) -> key_wf k) ->
  contents r' KEY_TREE = foldl (fun m k => persist_effect keys k m) (contents r KEY_TREE) (btree_keys keys) ->
  (forall t, t <> KEY_TREE -> contents r' t = contents r t) -> persisted r keys r'.
Proof.
  intros Hw Hc Ho. split_and!; [| |done].
  - intros k e Hk. unfold disk_view. rewrite Hc. apply persist_fold_self; [apply btree_keys_NoDup| | |done].
    + apply List.Forall_forall. intros x Hx%list_elem_of_In%btree_keys_elem. auto.
    + apply btree_keys_elem. by eexists.
  - intros k Hs Hk. unfold disk_view. rewrite Hc. rewrite persist_fold_other; [done|].
    intros x Hx%btree_keys_elem Heq. apply as_bytes_inj in Heq; [|done|by apply Hw].
    subst. rewrite Hk in Hx. by destruct Hx.
Qed.

Lemma persist_write_ok r keys :
  (forall k, is_Some (keys !! k) -> key_wf k) ->
  match persist_write r keys with
  | Ok r' => persisted r keys r'
  | Err _ => True
  | Panic => False
  end.
Proof.
  intros Hw. unfold persist_write.
  destruct (transaction r [KEY_TREE]) as [tx|e|] eqn:Et; simpl; [|done|by apply no_panic_transaction in Et].
  apply transaction_law in Et as (Htrees & Hdata & Htc). pose proof (Htc 0%nat KEY_TREE eq_refl) as Htc0.
  pose proof (btree_keys_sorted keys Hw) as Hsorted.
  destruct (persist_modify keys (btree_keys keys) (contents r KEY_TREE) []) as (m' & ch & Hm & -> & Hnil).
  { apply List.Forall_forall. intros x Hx%list_elem_of_In%btree_keys_elem. auto. }
  { intros k. apply btree_keys_elem. }
  simpl in Hm. destruct (tx_modify tx 0 _ _ _) as [[tx1 ch1]|e|] eqn:Em; simpl; [|done|].
  2: { apply tx_modify_panic in Em; [|done]. rewrite Htc0, Hm in Em. done. }
  apply tx_modify_law in Em as [Hspec (Htr1 & _ & _)]; [|done].
  rewrite Htc0, Hm in Hspec. simplify_eq. case_bool_decide as Hch.
  - destruct (serialize_executed_transaction_changes _) as [data|]; simpl; [|done].
    destruct (tx_set_data tx1 data) as [tx2|e|] eqn:Ed; simpl; [|done|by apply no_panic_set_data in Ed].
    apply tx_set_data_law in Ed as (Htr2 & _ & Hc2).
    destruct (tx_commit r tx2) as [r'|e|] eqn:Ec; simpl; [|done|by apply no_panic_commit in Ec].
    apply tx_commit_law in Ec as [Hin Hout]; rewrite Htr2, Htr1, Htrees in *.
    2: apply NoDup_singleton.
    apply persisted_contents; [done| |].
    + rewrite (Hin 0%nat) by done. by rewrite Hc2.
    + intros t Ht. apply Hout. by rewrite list_elem_of_singleton.
  - apply persisted_contents; [done| |done].
    symmetry. auto.
Qed.

End Persist.

(** ** The invariant of the system *)

Section System.
Context `{Nebari} `{EntryCodec} `{Profile} `{!NebariLaws _} `{!EntryCodecLaws _}.
Context (clock : nat -> Timestamp).
Context (clock_normal : forall n, timestamp_normal (clock n)).

(** At most one persist thread is alive; it persists the keys the state
    remembers, and once it has written them the disk agrees with them.  A
    thread that failed leaves the keys behind. *)
Definition thread_link (s : KeyValueState) (ts : list PersistThread) : Prop :=
  match keys_being_persisted s with
  | None => ts = []
  | Some keys => ts = [] \/ ts = [Writing keys] \/
      (ts = [Finishing] /\ forall k e, keys !! k = Some e -> disk_view (roots s) k = e)
  end.

Record kv_inv (w : World) : Prop := {
  inv_ok : kv_ok (kv w);
  inv_keys : keys_in key_wf (kv w);
  inv_persisting keys k : keys_being_persisted (kv w) = Some keys -> is_Some (keys !! k) -> key_wf k;
  inv_threads : thread_link (kv w) (threads w);
  inv_loader : Forall (fun x => key_wf x.1) (loader w)
}.

Lemma kv_inv_base w w' :
  same_base (kv w) (kv w') -> same_env w w' -> kv_ok (kv w') -> keys_in key_wf (kv w') ->
  kv_inv w -> kv_inv w'.
Proof.
  intros [Hr _ _ Hp _] [Ht _ Hl] Hok Hk [_ _ Hpk Htl Hlo]. split; [done..| | |by rewrite Hl].
  - intros keys k. rewrite Hp. apply Hpk.
  - unfold thread_link. by rewrite Hp, Hr, Ht.
Qed.

(** Staging the dirty keys and spawning the thread that persists them. *)
Record staged (w w' : World) : Prop := {
  staged_none : keys_being_persisted (kv w) = None;
  staged_nonempty : dirty_keys (kv w) <> ∅;
  staged_dirty : dirty_keys (kv w') = ∅;
  staged_keys : keys_being_persisted (kv w') = Some (dirty_keys (kv w));
  staged_roots : roots (kv w') = roots (kv w);
  staged_persistence : persistence (kv w') = persistence (kv w);
  staged_expiring : expiring_keys (kv w') = expiring_keys (kv w);
  staged_order : expiration_order (kv w') = expiration_order (kv w);
  staged_commit : timestamp_normal (last_commit (kv w'));
  staged_threads : threads w' = threads w ++ [Writing (dirty_keys (kv w))];
  staged_loader : loader w' = loader w
}.

Lemma staged_abs w w' : staged w w' -> abs (kv w') ≡ abs (kv w).
Proof.
  intros []. split; [done|]. intros k. simpl. unfold view, persisting_entry.
  rewrite staged_dirty0, staged_keys0, staged_none0, staged_roots0, lookup_empty. simpl.
  by destruct (dirty_keys (kv w) !! k).
Qed.

Lemma staged_inv w w' : staged w w' -> kv_inv w -> kv_inv w'.
Proof.
  intros [] [[Hq Hl] Hk Hpk Htl Hlo]. split.
  - split; [|done]. unfold kv_queue_ok. by rewrite staged_expiring0, staged_order0.
  - intros k. rewrite staged_dirty0, lookup_empty, staged_expiring0. intros [[]|]; [done|].
    apply Hk. by right.
  - intros keys k. rewrite staged_keys0. intros [= <-] ?. apply Hk. by left.
  - unfold thread_link in *. rewrite staged_none0 in Htl. rewrite staged_keys0, staged_threads0, Htl.
    right. by left.
  - by rewrite staged_loader0.
Qed.

Lemma stage_dirty_keys_ok w :
  (dirty_keys (kv w) <> ∅ /\ keys_being_persisted (kv w) = None /\
   stage_dirty_keys w =
     (Ok (Some (dirty_keys (kv w))),
      update_kv (set_keys_being_persisted (Some (dirty_keys (kv w)))) (update_kv (set_dirty_keys ∅) w))) \/
  ((dirty_keys (kv w) = ∅ \/ is_Some (keys_being_persisted (kv w))) /\ stage_dirty_keys w = (Ok None, w)).
Proof.
  unfold stage_dirty_keys. rewrite (stm_bind_Ok get_kv _ w (kv w) w) by done.
  case_bool_decide as Hd; simpl.
  - case_bool_decide as Hn; [by left|]. right. split; [right; by apply not_eq_None_Some|done].
  - right. split; [by left|done].
Qed.

Lemma commit_dirty_keys_ok w :
  kv_ok (kv w) -> exists b w', commit_dirty_keys clock w = (Ok b, w') /\
    if b then staged w w' else w' = w.
Proof.
  intros Hok. unfold commit_dirty_keys.
  destruct (stage_dirty_keys_ok w) as [(Hd & Hn & Hs)|[_ Hs]]; rewrite (stm_bind_Ok _ _ _ _ _ Hs).
  - exists true. eexists. split; [reflexivity|]. split; simpl; done.
  - by exists false, w.
Qed.

Lemma commit_if_needed_ok now w :
  timestamp_normal now -> kv_ok (kv w) -> exists w', commit_if_needed clock now w = (Ok tt, w') /\
    (w' = w \/ staged w w').
Proof.
  intros Hnow Hok. unfold commit_if_needed. rewrite (stm_bind_Ok get_kv _ w (kv w) w) by done.
  assert (exists b, needs_commit (kv w) now = Ok b) as [b ->].
  { unfold needs_commit. case_bool_decide; [eauto|].
    rewrite timestamp_sub_ok by (done || apply Hok). simpl. eauto. }
  rewrite (stm_bind_Ok (kv_lift (Ok b)) _ w b w) by done. destruct b; [|exists w; auto].
  destruct (commit_dirty_keys_ok w Hok) as (c & w' & Hc & Hw').
  exists w'. rewrite (stm_bind_Ok _ _ _ _ _ Hc). split; [done|]. destruct c; auto.
Qed.

(** While a commit is in progress, or was abandoned, nothing is staged. *)
Definition pinned (w w' : World) : Prop :=
  is_Some (keys_being_persisted (kv w)) ->
  roots (kv w') = roots (kv w) /\ keys_being_persisted (kv w') = keys_being_persisted (kv w) /\
  threads w' = threads w.
#[local] Instance pinned_preorder : PreOrder pinned.
Proof.
  split; [by intros w _|]. intros w1 w2 w3 H12 H23 Hp. destruct (H12 Hp) as (Hr & Hk & Ht).
  destruct H23 as (-> & -> & ->); [by rewrite Hk|]. done.
Qed.
Lemma base_pinned w w' : same_base (kv w) (kv w') -> same_env w w' -> pinned w w'.
Proof. intros [] [] _. done. Qed.
Lemma staged_pinned w w' : staged w w' -> pinned w w'.
Proof. intros [] Hp. rewrite staged_none0 in Hp. by destruct Hp. Qed.

(** Committing if needed, then updating the target: the end of every operation
    and of every pass of the worker. *)
Lemma commit_and_notify_ok now w :
  timestamp_normal now -> kv_inv w -> exists w',
  (commit_if_needed clock now;; update_background_worker_target clock) w = (Ok tt, w') /\
  kv_inv w' /\ pinned w w' /\ loader w' = loader w /\ abs (kv w') ≡ abs (kv w).
Proof.
  intros Hnow Hinv.
  destruct (commit_if_needed_ok now w Hnow (inv_ok _ Hinv)) as (w1 & Hc & Hw1).
  assert (kv_inv w1 /\ pinned w w1 /\ loader w1 = loader w /\ abs (kv w1) ≡ abs (kv w))
    as (Hinv1 & Hpin1 & Hload1 & Habs1).
  { destruct Hw1 as [->|Hst]; [done|]. split; [by eapply staged_inv|].
    split; [by apply staged_pinned|]. split; [by apply staged_loader|by apply staged_abs]. }
  destruct (update_background_worker_target_ok clock clock_normal w1 (inv_ok _ Hinv1)) as [t Ht].
  eexists. rewrite (stm_bind_Ok _ _ _ _ _ Hc), Ht. split; [done|]. split.
  - destruct Hinv1 as [Hok Hk Hpk Htl Hlo]. split; try done. by eapply kv_ok_same.
  - split; [etrans; [exact Hpin1|]; by intros _|]. split; [done|]. etrans; [|exact Habs1]. done.
Qed.

Lemma expire_inv now w :
  kv_inv w -> exists w', remove_expired_keys now w = (Ok tt, w') /\
  kv_inv w' /\ abs (kv w') ≡ spec_expire now (abs (kv w)) /\
  same_base (kv w) (kv w') /\ same_env w w'.
Proof.
  intros Hinv. destruct (remove_expired_keys_ok now w (inv_ok _ Hinv))
    as (w' & Hr & Hb & He & _ & Hx & Hd & Hok).
  exists w'. split; [done|]. split; [|split; [|done]].
  - eapply kv_inv_base; [done..| |done]. intros k Hk. apply (inv_keys _ Hinv). rewrite Hd, Hx in Hk.
    rewrite unexpired_lookup in Hk. unfold expired in Hk.
    destruct (expiring_keys (kv w) !! k) as [t|]; [by right; eexists|].
    by destruct Hk as [|[]]; [left|].
  - split; [done|]. intros k. simpl. unfold view, persisting_entry. rewrite Hd.
    destruct Hb as [-> _ _ -> _]. by destruct (expired now (expiring_keys (kv w) !! k)).
Qed.

(** ** Every step is a step of the abstract store *)

(** Equality of the entries of all strings. *)
Definition str_equiv (a b : Abs) : Prop :=
  a_exp a = a_exp b /\ forall k, is_str k = true -> a_view a k = a_view b k.

Lemma equiv_str_equiv a b : a ≡ b -> str_equiv a b.
Proof. intros [? ?]. split; auto. Qed.

Abbreviation loads := (list (str * option Timestamp)).

(** The expirations a loader launched at [launched_at] has to register: one for
    each stored entry that expires and was last written before the launch. *)
Definition spec_loads (launched_at : Timestamp) (a : Abs) (l : loads) : Prop :=
  NoDup l.*1 /\
  forall k t, (k, t) ∈ l <->
    key_wf k /\ exists e, a_view a k = Some e /\ expiration e = t /\ is_Some t /\
                          timestamp_ltb (last_updated e) launched_at = true.

(** The steps of the abstract store, which is a map of entries, a map of
    expirations and the list of the expirations a loader has still to register.
    [n] is the number of clock readings before the step.  Only an operation
    changes entries, at the time of the first reading; a round of the worker
    removes the keys expired by its reading (the first or, if waiting took one,
    the second); the parts of a commit and the shutdown change nothing. *)
Inductive spec_step (n : nat) : Abs * loads -> KvEvent -> Abs * loads -> Prop :=
| spec_step_operation op r a a1 a' l :
    spec_operation op (clock n) a = (r, a1) -> str_equiv a' a1 ->
    spec_step n (a, l) (Performed op r) (a', l)
| spec_step_io_error op e a a' l :
    (forall k, is_str k = true -> a_view a' k = a_view (spec_expire (clock n) a) k) ->
    (forall k, k <> full_key (namespace op) (key op) ->
       a_exp a' !! k = a_exp (spec_expire (clock n) a) !! k) ->
    spec_step n (a, l) (Performed op (Err (NebariError e))) (a', l)
| spec_step_worker_idle a a' l : str_equiv a' a -> spec_step n (a, l) WorkerRan (a', l)
| spec_step_worker_pass i a a' l :
    i = n \/ i = S n -> str_equiv a' (spec_expire (clock i) a) ->
    spec_step n (a, l) WorkerRan (a', l)
| spec_step_persist_write a a' l : str_equiv a' a -> spec_step n (a, l) PersistWrote (a', l)
| spec_step_persist_finish a a' l : str_equiv a' a -> spec_step n (a, l) PersistFinished (a', l)
| spec_step_shutdown a a' l : str_equiv a' a -> spec_step n (a, l) ShutDown (a', l)
| spec_step_loader_start launched_at a a' l l' :
    str_equiv a' a -> spec_loads launched_at a l' ->
    spec_step n (a, l) (LoaderStarted launched_at) (a', l')
| spec_step_loader_update k t a a' l :
    str_equiv a' (expire_at k t a) -> spec_step n (a, (k, t) :: l) LoaderUpdated (a', l).

Lemma spec_numeric_proper k amount saturating now op a b :
  a ≡ b -> (spec_numeric k amount saturating now op a).1 = (spec_numeric k amount saturating now op b).1 /\
           (spec_numeric k amount saturating now op a).2 ≡ (spec_numeric k amount saturating now op b).2.
Proof.
  intros Hab. unfold spec_numeric. rewrite (proj2 Hab k).
  destruct (value _) as [|n]; [done|]. destruct (validate _); [|done..].
  split; [done|]. by apply write_proper.
Qed.

Lemma spec_remove_proper k a b : a ≡ b -> spec_remove k a ≡ spec_remove k b.
Proof. intros Hab. unfold spec_remove. by apply write_proper, expire_at_proper. Qed.

Lemma spec_command_proper op now a b :
  a ≡ b -> (spec_command op now a).1 = (spec_command op now b).1 /\
           (spec_command op now a).2 ≡ (spec_command op now b).2.
Proof.
  intros Hab. unfold spec_command. destruct (command op) as [cmd|del|amount sat|amount sat|].
  - unfold spec_set. destruct (value_validate _); [|done..]. rewrite (proj2 Hab). cbv zeta.
    destruct (match check cmd with Some _ => _ | None => _ end); [|done].
    split; [done|]. by apply write_proper, expire_at_proper.
  - rewrite (proj2 Hab). split; [done|]. destruct del; [|done]. by apply spec_remove_proper.
  - by apply spec_numeric_proper.
  - by apply spec_numeric_proper.
  - rewrite (proj2 Hab). split; [done|]. by apply spec_remove_proper.
Qed.

(** An operation has the abstract effect and result, or an I/O error of the
    store; it never panics. *)
Lemma perform_kv_operation_ok op w :
  op_wf op -> kv_inv w -> exists r w',
  perform_kv_operation clock op w = (r, w') /\ kv_inv w' /\ r <> Panic /\ pinned w w' /\
  let now := clock (ticks w) in
  loader w' = loader w /\
  (forall k, k <> full_key (namespace op) (key op) ->
     expiring_keys (kv w') !! k = a_exp (spec_expire now (abs (kv w))) !! k) /\
  ((r = (spec_operation op now (abs (kv w))).1 /\
    abs (kv w') ≡ (spec_operation op now (abs (kv w))).2) \/
   ((exists e, r = Err (NebariError e)) /\
    forall k, view (kv w') k = a_view (spec_expire now (abs (kv w))) k)).
Proof.
  intros [Hns Hkey] Hinv. unfold perform_kv_operation. stm_step.
  set (w0 := MkWorld (kv w) _ _ _ _). set (now := clock (ticks w)).
  assert (kv_inv w0) as Hinv0 by (destruct Hinv; by split).
  destruct (expire_inv now w0 Hinv0) as (w1 & Hr1 & Hinv1 & Habs1 & Hb1 & He1).
  rewrite (stm_bind_Ok _ _ _ _ _ Hr1).
  destruct (execute_command_ok clock clock_normal op now w1 (inv_ok _ Hinv1))
    as (r & w2 & Hr2 & Hb2 & He2 & Hg2 & Hok2 & Hcase).
  assert (kv_inv w2) as Hinv2.
  { eapply kv_inv_base; [done..| |done]. apply (proj1 Hg2); [by apply full_key_wf|apply Hinv1]. }
  assert (pinned w w2) as Hpin2.
  { trans w0; [by intros _|]. trans w1; by apply base_pinned. }
  destruct (spec_command_proper op now _ _ Habs1) as [Hp1 Hp2].
  change (kv w0) with (kv w) in *.
  assert ((r = (spec_operation op now (abs (kv w))).1 /\
           abs (kv w2) ≡ (spec_operation op now (abs (kv w))).2) \/
          ((exists e, r = Err (NebariError e)) /\
           forall k, view (kv w2) k = a_view (spec_expire now (abs (kv w))) k)) as Hcase2.
  { destruct Hcase as [[-> Ha]|[He Hv]]; [left|right].
    - unfold spec_operation. split; [done|]. by etrans.
    - split; [done|]. intros k. rewrite Hv. apply Habs1. }
  assert (forall k, k <> full_key (namespace op) (key op) ->
            expiring_keys (kv w2) !! k = a_exp (spec_expire now (abs (kv w))) !! k) as Hexp2.
  { intros k Hk. rewrite (proj2 Hg2 k Hk). by rewrite <- (proj1 Habs1). }
  assert (loader w2 = loader w) as Hload2.
  { by rewrite (same_loader _ _ He2), (same_loader _ _ He1). }
  destruct r as [out|e|].
  - rewrite (stm_bind_Ok _ _ _ _ _ Hr2).
    destruct (commit_and_notify_ok now w2 (clock_normal _) Hinv2)
      as (w3 & Hc & Hinv3 & Hpin3 & Hload3 & Habs3).
    apply stm_bind_Ok_inv in Hc as ([] & w2' & Hc1 & Hc2).
    exists (Ok out), w3. rewrite (stm_bind_Ok _ _ _ _ _ Hc1), (stm_bind_Ok _ _ _ _ _ Hc2).
    split; [done|]. split; [done|]. split; [done|]. split; [by trans w2|].
    split; [by rewrite Hload3|]. split; [intros k Hk; rewrite <- (Hexp2 k Hk); f_equal; apply Habs3|].
    destruct Hcase2 as [[? Ha]|[[? ?] _]]; [left|done]. split; [done|]. by etrans.
  - exists (Err e), w2. rewrite (stm_bind_Err _ _ _ _ _ Hr2). done.
  - exfalso. destruct Hcase2 as [[Hr _]|[[? ?] _]]; [|done]. revert Hr. clear.
    unfold spec_operation, spec_command, spec_set, spec_numeric.
    destruct (command op); repeat case_match; simplify_eq/=; done.
Qed.

Lemma worker_wait_ok watch w : exists r n, (n = ticks w \/ n = S (ticks w)) /\
  worker_wait clock watch w =
    (r, MkWorld (kv w) n (threads w) (shutdown_sent w) (loader w)).
Proof.
  unfold worker_wait. stm_step. destruct w as [s n ts snt ld]; simpl.
  destruct (background_worker_target s) as [|t|].
  - do 2 eexists. split; [by left|]. reflexivity.
  - unfold mbind, stm_bind. simpl. destruct (timestamp_sub t (clock n)) as [[rem|]| |];
      do 2 eexists; (split; [by right|]); reflexivity.
  - do 2 eexists. split; [by left|]. reflexivity.
Qed.

Lemma worker_pass_ok w :
  kv_inv w -> exists w', worker_pass clock w = (Ok tt, w') /\ kv_inv w' /\ pinned w w' /\
  loader w' = loader w /\ abs (kv w') ≡ spec_expire (clock (ticks w)) (abs (kv w)).
Proof.
  intros Hinv. unfold worker_pass. stm_step. set (w0 := MkWorld (kv w) _ _ _ _).
  assert (kv_inv w0) as Hinv0 by (destruct Hinv; by split).
  destruct (expire_inv (clock (ticks w)) w0 Hinv0) as (w1 & Hr1 & Hinv1 & Habs1 & Hb1 & He1).
  rewrite (stm_bind_Ok _ _ _ _ _ Hr1).
  destruct (commit_and_notify_ok (clock (ticks w)) w1 (clock_normal _) Hinv1)
    as (w2 & Hc & Hinv2 & Hpin2 & Hload2 & Habs2).
  exists w2. split; [done|]. split; [done|]. split.
  - trans w0; [by intros _|]. trans w1; [by apply base_pinned|done].
  - split; [by rewrite Hload2, (same_loader _ _ He1)|by etrans].
Qed.

Lemma worker_round_ok watch alive w :
  kv_inv w -> let w' := (worker_round clock watch alive w).2 in
  kv_inv w' /\ pinned w w' /\ loader w' = loader w /\
  (abs (kv w') ≡ abs (kv w) \/
   exists i, (i = ticks w \/ i = S (ticks w)) /\ abs (kv w') ≡ spec_expire (clock i) (abs (kv w))).
Proof.
  intros Hinv. cbv zeta. unfold worker_round. destruct (worker_wait_ok watch w) as (r & n & Hn & Hw).
  set (w1 := MkWorld _ _ _ _ _) in Hw. assert (kv_inv w1) as Hinv1 by (destruct Hinv; by split).
  rewrite (stm_bind_run _ _ _ _ _ Hw).
  destruct r as [[| |]|e|]; try (split; [done|split; [done|split; [done|by left]]]).
  destruct alive; [|split; [done|split; [done|split; [done|by left]]]].
  destruct (worker_pass_ok w1 Hinv1) as (w2 & Hp & Hinv2 & Hpin2 & Hload2 & Habs2).
  rewrite (stm_bind_Ok _ _ _ _ _ Hp). split; [done|]. split; [done|]. split; [done|].
  right. by exists n.
Qed.

(** ** The persist thread *)

Lemma thread_lookup w i t :
  kv_inv w -> threads w !! i = Some t -> exists keys,
  keys_being_persisted (kv w) = Some keys /\ i = 0%nat /\ threads w = [t] /\
  (t = Writing keys \/ t = Finishing /\ forall k e, keys !! k = Some e -> disk_view (roots (kv w)) k = e).
Proof.
  intros [_ _ _ Htl _] Hi. unfold thread_link in Htl.
  destruct (keys_being_persisted (kv w)) as [keys|]; [|by rewrite Htl in Hi].
  exists keys. destruct Htl as [Ht|[Ht|[Ht Hd]]]; rewrite Ht in Hi; destruct i; simplify_eq/=; rewrite Ht; split_and!; auto.
Qed.

Lemma thread_write_ok i w w' :
  kv_inv w -> persist_thread_write i w = Some w' ->
  kv_inv w' /\ loader w' = loader w /\ str_equiv (abs (kv w')) (abs (kv w)).
Proof.
  intros Hinv. unfold persist_thread_write.
  destruct (threads w !! i) as [[keys|]|] eqn:Hi; [|done..]. intros [= <-].
  destruct (thread_lookup _ _ _ Hinv Hi) as (keys' & Hp & -> & Ht & [Heq|[? _]]); simplify_eq.
  pose proof (persist_write_ok (roots (kv w)) keys' (fun k => inv_persisting _ Hinv keys' k Hp)) as Hpw.
  destruct Hinv as [Hok Hk Hpk Htl Hlo].
  destruct (persist_write (roots (kv w)) keys') as [r'|e|]; [|split; [|done]|done].
  - destruct Hpw as (Hin & Hout & _). split; [|split; [done|]].
    + split; [by eapply kv_ok_same|done..| |done].
      unfold thread_link. simpl. rewrite Hp, Ht. simpl. right. by right.
    + split; [done|]. intros k Hs. simpl. unfold view, persisting_entry. simpl. rewrite Hp.
      destruct (dirty_keys (kv w) !! k); [done|]. simpl.
      destruct (keys' !! k) eqn:Ek; [done|]. by apply Hout.
  - split; try done. unfold thread_link. simpl. rewrite Hp, Ht. by left.
Qed.

(** The state once the keys are persisted, before the shutdown check. *)
Lemma unstage_ok w keys now :
  kv_inv w -> keys_being_persisted (kv w) = Some keys ->
  (forall k e, keys !! k = Some e -> disk_view (roots (kv w)) k = e) ->
  let s := set_keys_being_persisted None (set_last_persistence now (kv w)) in
  kv_ok s /\ keys_in key_wf s /\ abs s ≡ abs (kv w).
Proof.
  intros [Hok Hk Hpk Htl Hlo] Hp Hd. cbv zeta. split; [by eapply kv_ok_same|]. split; [done|].
  split; [done|]. intros k. simpl. unfold view, persisting_entry. simpl. rewrite Hp. simpl.
  destruct (dirty_keys (kv w) !! k); [done|]. destruct (keys !! k) eqn:Ek; [|done]. auto.
Qed.

Lemma thread_finish_ok i w w' :
  kv_inv w -> persist_thread_finish clock i w = Some w' ->
  kv_inv w' /\ loader w' = loader w /\ abs (kv w') ≡ abs (kv w) /\
  (shutdown_sent w' = true -> shutdown_sent w = true \/
     dirty_keys (kv w') = ∅ /\ keys_being_persisted (kv w') = None).
Proof.
  intros Hinv. unfold persist_thread_finish.
  destruct (threads w !! i) as [[keys|]|] eqn:Hi; [done| |done]. intros [= <-].
  destruct (thread_lookup _ _ _ Hinv Hi) as (keys & Hp & -> & Ht & [?|[_ Hd]]); simplify_eq.
  pose proof (unstage_ok w keys (clock (ticks w)) Hinv Hp Hd) as (Hok1 & Hk1 & Habs1).
  unfold persist_finish. do 3 stm_step.
  match goal with |- context [(update_background_worker_target _;; _) ?x] => set (w1 := x) end.
  destruct (update_background_worker_target_ok clock clock_normal w1 Hok1) as [t Htgt].
  rewrite (stm_bind_Ok _ _ _ _ _ Htgt). set (w2 := update_kv _ _).
  rewrite (stm_bind_Ok get_kv _ w2 (kv w2) w2) by done.
  assert (kv_ok (kv w2)) as Hok2 by by eapply kv_ok_same.
  assert (abs (kv w2) ≡ abs (kv w)) as Habs2 by (etrans; [|exact Habs1]; done).
  assert (Forall (fun x => key_wf x.1) (loader w2)) as Hlo by apply Hinv.
  destruct (shutdown_sender (kv w2)).
  2: { simpl. split; [|split; [done|split; [done|by left]]].
       split; try done. unfold thread_link. simpl. by rewrite Ht. }
  destruct (stage_dirty_keys_ok w2) as [(Hne & _ & Hs)|[Hemp Hs]];
    rewrite (stm_bind_Ok _ _ _ _ _ Hs).
  - change (dirty_keys (kv w2)) with (dirty_keys (kv w)) in *. simpl.
    split; [|split; [done|split; [|by left]]].
    + split; simpl; try done.
      * by eapply kv_ok_same.
      * intros k [[? Hk]|Hk]; simpl in Hk; [by rewrite lookup_empty in Hk|]. apply Hk1. by right.
      * intros ks k [= <-] Hk. apply Hk1. by left.
      * unfold thread_link. simpl. rewrite Ht. right. by left.
    + etrans; [|exact Habs2]. split; [done|]. intros k. simpl. unfold view, persisting_entry. simpl.
      rewrite lookup_empty. change (dirty_keys (kv w2)) with (dirty_keys (kv w)).
      by destruct (dirty_keys (kv w) !! k).
  - simpl. split; [|split; [done|split]].
    + split; simpl; try done; [by eapply kv_ok_same|]. unfold thread_link. simpl. by rewrite Ht.
    + done.
    + intros _. right. split; [|done]. by destruct Hemp as [|[? ?]].
Qed.

(** ** Snapshots *)

Lemma load_entries_lookup l m m' s x :
  load_entries l m = Ok m' -> is_str s = true -> split_key s = Some x ->
  m' !! x = match m !! x with
            | Some e => Some e
            | None => (list_to_map l : gmap bytes bytes) !! as_bytes s ≫= deserialize_entry
            end.
Proof.
  intros Hl Hstr Hs. revert m Hl. induction l as [|[k b] l IH]; intros m; simpl.
  - intros [= <-]. rewrite lookup_empty. by destruct (m !! x).
  - intros Hl. inv_res. rewrite (IH _ Hl).
    match goal with Hd : deserialize_entry _ = Some _, Hu : from_utf8 _ = Some ?s' |- _ =>
      rename Hd into Hdes; rename Hu into Hutf; rename s' into s0 end.
    destruct (from_utf8_sound _ _ Hutf) as [Hs0 Hb].
    destruct (decide (k = as_bytes s)) as [->|Hk].
    + assert (s0 = s) as -> by (rewrite from_utf8_as_bytes in Hutf by done; congruence).
      rewrite Hs, lookup_insert_eq. simpl. destruct (m !! x) eqn:E; [by rewrite E|].
      by rewrite lookup_insert_eq.
    + rewrite lookup_insert_ne by done. destruct (split_key s0) as [y|] eqn:E0; [|done].
      assert (y <> x) as Hx.
      { intros ->. destruct x as [ns key]. apply full_key_split in Hs, E0. subst. done. }
      destruct (m !! y); [done|]. by rewrite lookup_insert_ne.
Qed.

Lemma apply_pending_lookup keys l m m' s x :
  apply_pending keys l m = Ok m' -> split_key s = Some x ->
  m' !! x = if decide (s ∈ l) then mjoin (keys !! s) else m !! x.
Proof.
  intros Hl Hs. revert m Hl. induction l as [|k l IH]; intros m; cbn [apply_pending].
  - intros [= <-]. case_decide as Hin; [by apply elem_of_nil in Hin|done].
  - intros Hl. inv_res. rewrite (IH _ Hl). destruct (decide (k = s)) as [->|Hk].
    + destruct (decide (s ∈ s :: l)) as [_|Hn]; [|by exfalso; apply Hn; left].
      case_decide; [done|]. simplify_eq.
      destruct (mjoin (keys !! s)); [apply lookup_insert_eq|apply lookup_delete_eq].
    + match goal with Hx : split_key k = Some ?x0 |- _ => assert (x0 <> x) as Hne by
        (intros ->; destruct x as [ns key]; apply full_key_split in Hs, Hx; by subst) end.
      destruct (decide (s ∈ k :: l)) as [Hin|Hin]; rewrite elem_of_cons in Hin.
      * destruct (decide (s ∈ l)); [done|]. by destruct Hin as [->|].
      * destruct (decide (s ∈ l)); [by exfalso; auto|].
        destruct (mjoin (keys !! k)); [by rewrite lookup_insert_ne|by rewrite lookup_delete_ne].
Qed.

Lemma sorted_NoDup (l : list bytes) : StronglySorted bytes_lt l -> NoDup l.
Proof.
  induction 1 as [|x l Hs IH Hf]; constructor; [|done]. intros Hin.
  rewrite List.Forall_forall in Hf. pose proof (Hf x (proj1 (list_elem_of_In _ _) Hin)) as Hlt.
  unfold bytes_lt in Hlt. by rewrite bytes_cmp_refl in Hlt.
Qed.

Lemma scanned_lookup r l k :
  roots_scan r KEY_TREE = Ok l -> (list_to_map l : gmap bytes bytes) !! k = contents r KEY_TREE !! k.
Proof.
  intros [Hs Hin]%roots_scan_law. apply option_eq. intros v.
  rewrite <- elem_of_list_to_map by by apply sorted_NoDup. apply Hin.
Qed.

Lemma all_entries_lookup s m k x :
  all_key_value_entries s = Ok m -> is_str k = true -> split_key k = Some x -> m !! x = view s k.
Proof.
  intros Ha Hstr Hk. unfold all_key_value_entries in Ha. inv_res.
  rewrite (apply_pending_lookup _ _ _ _ _ _ Ha Hk). unfold view.
  destruct (dirty_keys s !! k) as [e|] eqn:Ed.
  { rewrite decide_True; [done|]. apply btree_keys_elem. by eexists. }
  rewrite decide_False by (rewrite btree_keys_elem, Ed; by intros [? ?]).
  match goal with Hs : roots_scan _ _ = Ok _, Hl : load_entries _ ∅ = Ok _ |- _ =>
    pose proof (load_entries_lookup _ _ _ _ _ Hl Hstr Hk) as Hload;
    rewrite lookup_empty, (scanned_lookup _ _ _ Hs) in Hload end.
  unfold persisting_entry. destruct (keys_being_persisted s) as [ks|]; simpl; [|by inv_res].
  match goal with Hp : apply_pending ks _ _ = Ok _ |- _ =>
    rewrite (apply_pending_lookup _ _ _ _ _ _ Hp Hk) end.
  destruct (ks !! k) as [e|] eqn:Eks.
  - rewrite decide_True; [done|]. apply btree_keys_elem. by eexists.
  - rewrite decide_False; [done|]. rewrite btree_keys_elem, Eks. by intros [? ?].
Qed.

(** ** Shutdown and the expiration loader *)

Lemma shutdown_ok w :
  kv_inv w -> let w' := (shutdown clock w).2 in
  kv_inv w' /\ loader w' = loader w /\ abs (kv w') ≡ abs (kv w).
Proof.
  intros Hinv. cbv zeta. unfold shutdown. rewrite (stm_bind_Ok get_kv _ w (kv w) w) by done.
  case_bool_decide; [|done].
  destruct (commit_dirty_keys_ok w (inv_ok _ Hinv)) as (b & w1 & Hc & Hw1).
  rewrite (stm_bind_Ok _ _ _ _ _ Hc). destruct b; [|by subst].
  pose proof (staged_inv _ _ Hw1 Hinv) as [Hok Hk Hpk Htl Hlo]. split; [|split].
  - simpl. split; try done. by eapply kv_ok_same.
  - simpl. by apply staged_loader.
  - etrans; [|by apply staged_abs]. done.
Qed.

Definition entries_wf (m : gmap (option str * str) Entry) : Prop :=
  forall x, is_Some (m !! x) -> key_wf (full_key x.1 x.2) /\ split_key (full_key x.1 x.2) = Some x.

Lemma entries_wf_insert m s x e :
  is_str s = true -> split_key s = Some x -> entries_wf m -> entries_wf (<[x := e]> m).
Proof.
  intros Hs Hx Hm y. destruct (decide (x = y)) as [<-|]; [|rewrite lookup_insert_ne by done; apply Hm].
  destruct x as [ns k]. intros _. simpl. rewrite (full_key_split _ _ _ Hx). split; [split; [done|]|done].
  apply split_key_null. by eexists.
Qed.

Lemma load_entries_wf l m m' : entries_wf m -> load_entries l m = Ok m' -> entries_wf m'.
Proof.
  revert m. induction l as [|[k e] l IH]; intros m Hm; simpl; [by intros [= <-]|].
  intros Hl. inv_res. revert Hl. apply IH.
  match goal with Hu : from_utf8 _ = Some ?s |- _ => apply from_utf8_sound in Hu as [Hs _] end.
  destruct (split_key _) eqn:Esp; [|done]. destruct (m !! _); [done|].
  by eapply entries_wf_insert.
Qed.

Lemma apply_pending_wf keys l m m' :
  (forall k, k ∈ l -> key_wf k) -> entries_wf m -> apply_pending keys l m = Ok m' -> entries_wf m'.
Proof.
  revert m. induction l as [|k l IH]; intros m Hl Hm; simpl; [by intros [= <-]|].
  intros Ha. inv_res. revert Ha. apply IH; [intros; apply Hl; by right|].
  destruct (mjoin (keys !! k)).
  - eapply entries_wf_insert; [|done..]. apply Hl. left.
  - intros y [e Hy]. apply lookup_delete_Some in Hy as [_ Hy]. apply Hm. by eexists.
Qed.

Lemma all_entries_wf w m :
  kv_inv w -> all_key_value_entries (kv w) = Ok m -> entries_wf m.
Proof.
  intros [Hok Hk Hpk Htl Hlo] Ha. unfold all_key_value_entries in Ha. inv_res.
  eapply apply_pending_wf; [|shelve|exact Ha].
  - intros k Hin%btree_keys_elem. apply Hk. by left.
  Unshelve.
  match goal with Hl : load_entries _ ∅ = Ok ?m |- _ =>
    assert (entries_wf m) as Hm by (eapply load_entries_wf; [|exact Hl]; intros y [? Hy];
      by rewrite lookup_empty in Hy) end.
  destruct (keys_being_persisted (kv w)) as [ks|] eqn:Ep; [|by inv_res].
  eapply apply_pending_wf; [|exact Hm|eassumption].
  intros k Hin%btree_keys_elem. by eapply Hpk.
Qed.

Lemma loader_updates_elem launched_at m k t :
  (k, t) ∈ loader_updates launched_at m <-> exists x e, m !! x = Some e /\
    k = full_key x.1 x.2 /\ t = expiration e /\
    timestamp_ltb (last_updated e) launched_at = true /\ is_Some (expiration e).
Proof.
  unfold loader_updates. rewrite list_elem_of_fmap. split.
  - intros ([x e] & [= -> ->] & Hx). apply list_elem_of_filter in Hx as [[Hl He] Hx].
    rewrite merge_sort_Permutation in Hx. apply elem_of_map_to_list in Hx. by exists x, e.
  - intros (x & e & Hx & -> & -> & Hl & He). exists (x, e). split; [done|].
    apply list_elem_of_filter. split; [done|]. rewrite merge_sort_Permutation. by apply elem_of_map_to_list.
Qed.

Lemma loader_updates_keys launched_at m :
  entries_wf m -> NoDup (loader_updates launched_at m).*1.
Proof.
  intros Hm. unfold loader_updates. rewrite <- list_fmap_compose.
  apply NoDup_fmap_2_strong; [|apply NoDup_filter; rewrite merge_sort_Permutation; apply NoDup_map_to_list].
  intros [x ex] [y ey] [_ Hx]%list_elem_of_filter [_ Hy]%list_elem_of_filter Heq.
  rewrite merge_sort_Permutation in Hx, Hy. apply elem_of_map_to_list in Hx, Hy. simpl in Heq.
  destruct (Hm x) as [_ Hsx]; [by eexists|]. destruct (Hm y) as [_ Hsy]; [by eexists|]. congruence.
Qed.

(** What the loader reads is what the abstract store says it has to register. *)
Lemma loader_updates_spec launched_at w m :
  kv_inv w -> all_key_value_entries (kv w) = Ok m ->
  spec_loads launched_at (abs (kv w)) (loader_updates launched_at m).
Proof.
  intros Hinv Ha. pose proof (all_entries_wf _ _ Hinv Ha) as Hwf. split; [by apply loader_updates_keys|].
  intros k t. rewrite loader_updates_elem. split.
  - intros (x & e & Hx & -> & -> & Hl & He). destruct (Hwf x) as [Hk Hs]; [by eexists|].
    split; [done|]. exists e. simpl. rewrite <- (all_entries_lookup _ _ _ _ Ha (proj1 Hk) Hs). done.
  - intros [[Hs Hnull] (e & Hv & <- & He & Hl)]. destruct (proj2 (split_key_null k) Hnull) as [x Hx].
    exists x, e. simpl in Hv. rewrite (all_entries_lookup _ _ _ _ Ha Hs Hx). destruct x as [ns key].
    split_and!; [done|by rewrite <- (full_key_split _ _ _ Hx)|done..].
Qed.

Lemma loader_start_ok launched_at w w' :
  kv_inv w -> loader_start launched_at w = Some w' ->
  kv_inv w' /\ spec_loads launched_at (abs (kv w)) (loader w') /\ abs (kv w') = abs (kv w).
Proof.
  intros Hinv. unfold loader_start. destruct (all_key_value_entries (kv w)) as [m|e|] eqn:Ea; [|done..].
  intros [= <-]. pose proof (loader_updates_spec launched_at w m Hinv Ea) as Hl.
  destruct Hinv. split; [|done]. split; try done. simpl. apply List.Forall_forall.
  intros [k t] Hx%list_elem_of_In. by apply Hl in Hx as [? _].
Qed.

Lemma loader_next_ok w w' :
  kv_inv w -> loader_next clock w = Some w' ->
  kv_inv w' /\ exists k t, loader w = (k, t) :: loader w' /\ abs (kv w') ≡ expire_at k t (abs (kv w)).
Proof.
  intros Hinv. unfold loader_next. destruct (loader w) as [|[k t] rest] eqn:El; [done|]. intros [= <-].
  pose proof (inv_loader _ Hinv) as Hlo. rewrite El in Hlo. inversion Hlo as [|? ? Hwk Hrest]; subst.
  set (w0 := MkWorld _ _ _ _ rest). assert (kv_inv w0) as Hinv0 by (destruct Hinv; by split).
  destruct (implements_expiry clock clock_normal k t w0 (inv_ok _ Hinv0))
    as (r & w1 & Hu & Hb & He & Hg & Hok & [[_ Ha]|[[e ->] _]]); simpl in *.
  - rewrite Hu. split; [|exists k, t; split; [|done]; simpl; by rewrite (same_loader _ _ He)].
    apply (kv_inv_base w0 w1); [done..| |done]. apply (proj1 Hg); [done|apply Hinv0].
  - exfalso. destruct (update_key_expiration_ok clock clock_normal w0 k t (inv_ok _ Hinv0))
      as (w2 & Hu2 & _). congruence.
Qed.

(** ** Steps and reachable states *)

Lemma initial_inv p r : kv_inv (initial clock p r).
Proof.
  split; try done.
  - split; [|apply clock_normal]. split; simpl.
    + constructor.
    + intros k. rewrite lookup_empty. split; [by intros ?%elem_of_nil|by intros [? ?]].
    + constructor.
  - intros k. simpl. rewrite !lookup_empty. by intros [[]|[]].
Qed.

Lemma kv_step_sim w o w' :
  kv_inv w -> kv_step clock w o w' ->
  kv_inv w' /\ spec_step (ticks w) (abs (kv w), loader w) o (abs (kv w'), loader w').
Proof.
  intros Hinv. destruct 1 as [op w Hop|watch alive w|i w w' Hw|i w w' Hw|w|t w w' Hw|w w' Hw].
  - destruct (perform_kv_operation_ok op w Hop Hinv)
      as (r & w' & -> & Hinv' & _ & _ & Hl & Hexp & Hcase). simpl. rewrite Hl.
    split; [done|]. destruct Hcase as [[-> Ha]|[[e ->] Hv]].
    + eapply spec_step_operation; [apply surjective_pairing|by apply equiv_str_equiv].
    + apply spec_step_io_error; [|done]. intros k _. apply Hv.
  - destruct (worker_round_ok watch alive w Hinv) as (Hinv' & _ & -> & [Ha|(i & Hi & Ha)]); (split; [done|]).
    + by apply spec_step_worker_idle, equiv_str_equiv.
    + by apply (spec_step_worker_pass _ i), equiv_str_equiv.
  - destruct (thread_write_ok _ _ _ Hinv Hw) as (Hinv' & -> & Ha). split; [done|].
    by apply spec_step_persist_write.
  - destruct (thread_finish_ok _ _ _ Hinv Hw) as (Hinv' & -> & Ha & _). split; [done|].
    by apply spec_step_persist_finish, equiv_str_equiv.
  - destruct (shutdown_ok w Hinv) as (Hinv' & -> & Ha). split; [done|].
    by apply spec_step_shutdown, equiv_str_equiv.
  - destruct (loader_start_ok _ _ _ Hinv Hw) as (Hinv' & Hl & Ha). split; [done|].
    apply spec_step_loader_start; [|done]. apply equiv_str_equiv. by rewrite Ha.
  - destruct (loader_next_ok _ _ Hinv Hw) as (Hinv' & k & t & -> & Ha). split; [done|].
    by apply spec_step_loader_update, equiv_str_equiv.
Qed.

(** A commit abandoned by its thread: the keys stay staged for ever. *)
Definition abandoned (keys : gmap str (option Entry)) (r : Roots) (w : World) : Prop :=
  keys_being_persisted (kv w) = Some keys /\ threads w = [] /\ roots (kv w) = r.

Lemma abandoned_pinned keys r w w' : pinned w w' -> abandoned keys r w -> abandoned keys r w'.
Proof.
  intros Hpin (Hp & Ht & Hr). destruct Hpin as (Hr' & Hp' & Ht'); [by rewrite Hp|].
  unfold abandoned. by rewrite Hr', Hp', Ht'.
Qed.

Lemma abandoned_step keys r w o w' :
  kv_inv w -> abandoned keys r w -> kv_step clock w o w' -> abandoned keys r w'.
Proof.
  intros Hinv Hab. pose proof Hab as (Hp & Ht & Hr).
  destruct 1 as [op w Hop|watch alive w|i w w' Hw|i w w' Hw|w|t w w' Hw|w w' Hw].
  - destruct (perform_kv_operation_ok op w Hop Hinv) as (res & w' & -> & _ & _ & Hpin & _).
    by eapply abandoned_pinned.
  - destruct (worker_round_ok watch alive w Hinv) as (_ & Hpin & _). by eapply abandoned_pinned.
  - unfold persist_thread_write in Hw. by rewrite Ht in Hw.
  - unfold persist_thread_finish in Hw. by rewrite Ht in Hw.
  - unfold shutdown. rewrite (stm_bind_Ok get_kv _ w (kv w) w) by done.
    by rewrite bool_decide_eq_false_2 by by rewrite Hp.
  - unfold loader_start in Hw. destruct (all_key_value_entries (kv w)); simplify_eq. done.
  - unfold loader_next in Hw. destruct (loader w) as [|[k t] rest]; simplify_eq.
    set (w0 := MkWorld _ _ _ _ rest).
    destruct (update_key_expiration_ok clock clock_normal w0 k t (inv_ok _ Hinv))
      as (w1 & -> & Hs & He & _). eapply abandoned_pinned; [|exact Hab].
    trans w0; [by intros _|]. apply base_pinned; [by apply same_store_base|done].
Qed.

Lemma reachable_inv p r w : reachable clock p r w -> kv_inv w.
Proof.
  intros Hr. remember (initial clock p r) as w0. assert (kv_inv w0) as Hinv.
  { subst. apply initial_inv. }
  unfold reachable in Hr. rewrite <- Heqw0 in Hr. clear Heqw0.
  induction Hr as [w|w1 w2 w3 [o Hstep] _ IH]; [done|]. apply IH. by eapply kv_step_sim.
Qed.

(** ** Wake-ups *)

(** The worker runs at [t] or before. *)
Definition wakes_by (target : BackgroundWorkerProcessTarget) (t : Timestamp) : Prop :=
  match target with
  | Now => True
  | AtTimestamp t' => timestamp_leb t' t = true
  | Never => False
  end.

Lemma timestamp_min_l a b : timestamp_leb (timestamp_min a b) a = true.
Proof.
  unfold timestamp_min. destruct (timestamp_leb a b) eqn:E; [apply timestamp_leb_refl|].
  by apply timestamp_leb_total.
Qed.

Lemma update_target_wakes w w' k t :
  kv_ok (kv w) -> update_background_worker_target clock w = (Ok tt, w') ->
  expiring_keys (kv w) !! k = Some t -> wakes_by (background_worker_target (kv w')) t.
Proof.
  intros Hok Hu Hk. destruct (ok_queue _ Hok) as [_ Hd Hs].
  assert (k ∈ expiration_order (kv w)) as Hin by (apply Hd; by eexists).
  unfold update_background_worker_target in Hu. rewrite (stm_bind_Ok get_kv _ w (kv w) w) in Hu by done.
  destruct (expiration_order (kv w)) as [|k0 o] eqn:Eo; [by apply elem_of_nil in Hin|].
  destruct (proj1 (Hd k0)) as [t0 Ht0]; [left|]. rewrite Ht0 in Hu.
  assert (timestamp_leb t0 t = true) as Hle.
  { apply elem_of_cons in Hin as [->|Hin].
    - replace t0 with t by congruence. apply timestamp_leb_refl.
    - inversion Hs as [|? ? _ Hf]; subst. rewrite List.Forall_forall in Hf.
      pose proof (Hf k (proj1 (list_elem_of_In _ _) Hin)) as Hle. unfold ts_le, ts in Hle.
      by rewrite Ht0, Hk in Hle. }
  cbn [unwrap fmap res_fmap] in Hu. rewrite (stm_bind_Ok (kv_lift _) _ w (Some t0) w) in Hu by done.
  apply stm_bind_Ok_inv in Hu as (now & w1 & _ & Hu).
  apply stm_bind_Ok_inv in Hu as (commit & w2 & _ & Hu). cbv zeta in Hu.
  unfold modify_kv, st_modify in Hu. injection Hu as <-. simpl.
  destruct (match commit with Some t => timestamp_leb t now | None => false end
            || timestamp_leb t0 now); [done|].
  destruct commit as [c|]; simpl; [|done].
  eapply timestamp_leb_trans; [apply timestamp_min_l|done].
Qed.

(** Every successful operation ends by setting the target. *)
Lemma perform_ends_notified op w out w' :
  op_wf op -> kv_inv w -> perform_kv_operation clock op w = (Ok out, w') -> exists w3,
  kv_ok (kv w3) /\ update_background_worker_target clock w3 = (Ok tt, w') /\
  expiring_keys (kv w') = expiring_keys (kv w3).
Proof.
  intros Hop Hinv Hp. unfold perform_kv_operation in Hp.
  apply stm_bind_Ok_inv in Hp as (now & w0 & Hn & Hp). injection Hn as <- <-.
  set (w0 := MkWorld _ _ _ _ _) in Hp. assert (kv_inv w0) as Hinv0 by (destruct Hinv; by split).
  destruct (expire_inv (clock (ticks w)) w0 Hinv0) as (w1 & Hr1 & Hinv1 & _).
  rewrite (stm_bind_Ok _ _ _ _ _ Hr1) in Hp.
  destruct (execute_command_ok clock clock_normal op (clock (ticks w)) w1 (inv_ok _ Hinv1))
    as (r & w2 & Hr2 & _ & _ & _ & Hok2 & _).
  apply stm_bind_Ok_inv in Hp as (out' & w2' & Hr2' & Hp). rewrite Hr2 in Hr2'. simplify_eq.
  destruct (commit_if_needed_ok (clock (ticks w)) w2' (clock_normal _) Hok2) as (w3 & Hc & Hw3).
  rewrite (stm_bind_Ok _ _ _ _ _ Hc) in Hp. exists w3.
  assert (kv_ok (kv w3)) as Hok3.
  { destruct Hw3 as [->|[]]; [done|]. split; [|done]. unfold kv_queue_ok.
    rewrite staged_expiring0, staged_order0. apply Hok2. }
  destruct (update_background_worker_target_ok clock clock_normal w3 Hok3) as [t Ht].
  rewrite (stm_bind_Ok _ _ _ _ _ Ht) in Hp. injection Hp as _ <-. by rewrite Ht.
Qed.

End System.
