(* ===== verification/KeyValueTheorems.v ===== *)
(** * Theorems on the key-value store

    The properties of the key-value store, each with an example that applies it
    to an in-memory store. *)

From Stdlib Require Import ZArith Lia String Sorting.Sorted.
From Stdlib Require Import SpecFloat.
From stdpp Require Import base list option numbers gmap sorting countable.
From S2P Require Import Prelude Bytes Utf8 Timestamp Numeric Persistence Nebari Changes KeyValue KeyValueLaws KeyValueSpec KeyValueSystem.

Local Open Scope Z_scope.

(** ** A concrete codec and clock for the examples *)

Module Demo.
Import MemNebari.

#[export] Instance spec_float_eq_dec : EqDecision spec_float.
Proof. solve_decision. Defined.
#[export] Instance Numeric_eq_dec : EqDecision Numeric.
Proof. solve_decision. Defined.
#[export] Instance Value_eq_dec : EqDecision Value.
Proof. solve_decision. Defined.
#[export] Instance Entry_eq_dec : EqDecision Entry.
Proof. solve_decision. Defined.

(** Entries as nested sums and pairs of integers. *)
Definition float_code : Type := bool + (bool + (unit + bool * positive * Z)).
Definition float_to (f : spec_float) : float_code :=
  match f with
  | S754_zero s => inl s
  | S754_infinity s => inr (inl s)
  | S754_nan => inr (inr (inl tt))
  | S754_finite s m e => inr (inr (inr (s, m, e)))
  end.
Definition float_from (c : float_code) : spec_float :=
  match c with
  | inl s => S754_zero s
  | inr (inl s) => S754_infinity s
  | inr (inr (inl _)) => S754_nan
  | inr (inr (inr (s, m, e))) => S754_finite s m e
  end.
#[export] Instance spec_float_countable : Countable spec_float.
Proof. apply (inj_countable' float_to float_from). by intros []. Defined.

Definition value_to (v : Value) : list Z + (Z + (Z + spec_float)) :=
  match v with
  | VBytes bs => inl bs
  | VNumeric (Integer n) => inr (inl n)
  | VNumeric (UnsignedInteger n) => inr (inr (inl n))
  | VNumeric (Float f) => inr (inr (inr f))
  end.
Definition value_from (c : list Z + (Z + (Z + spec_float))) : Value :=
  match c with
  | inl bs => VBytes bs
  | inr (inl n) => VNumeric (Integer n)
  | inr (inr (inl n)) => VNumeric (UnsignedInteger n)
  | inr (inr (inr f)) => VNumeric (Float f)
  end.
#[export] Instance Value_countable : Countable Value.
Proof. apply (inj_countable' value_to value_from). by intros [|[]]. Defined.
#[export] Instance Timestamp_countable : Countable Timestamp.
Proof.
  apply (inj_countable' (fun t => (seconds t, nanos t)) (fun p => MkTimestamp p.1 p.2)). by intros [].
Defined.
#[export] Instance Entry_countable : Countable Entry.
Proof.
  apply (inj_countable' (fun e => (value e, expiration e, last_updated e))
           (fun p => MkEntry p.1.1 p.1.2 p.2)). by intros [].
Defined.

#[export] Instance demo_codec : EntryCodec := {|
  serialize_entry e := Some (bits (encode e));
  deserialize_entry bs := decode (unbits bs);
  entry_changes_codec := demo_changes |}.
#[export] Instance demo_codec_laws : EntryCodecLaws demo_codec.
Proof. intros e. eexists. split; [done|]. simpl. by rewrite unbits_bits, decode_encode. Qed.

#[export] Instance demo_profile : Profile := true.

(** One second passes between readings. *)
Definition clock (n : nat) : Timestamp := MkTimestamp (1000 + Z.of_nat n `mod` 1000) 0.
Lemma clock_normal n : timestamp_normal (clock n).
Proof.
  unfold timestamp_normal, clock. simpl. pose proof (Z.mod_pos_bound (Z.of_nat n) 1000 ltac:(lia)).
  split; [|unfold NANOS; lia]. apply u64_range. change (int_max u64) with 18446744073709551615. lia.
Qed.

Definition disk : @Roots mem_nebari := MkRoots ∅ true [].
Definition start : World := initial clock Immediate disk.
Definition set_op (k : str) (v : bytes) (t : option Timestamp) : KeyOperation :=
  MkKeyOp None k (CSet (MkSet (VBytes v) t false None false)).
Definition get_op (k : str) : KeyOperation := MkKeyOp None k (CGet false).

Lemma set_op_wf v t : op_wf (set_op [97] v t).
Proof. done. Qed.

End Demo.

Section Theorems.
Context `{Nebari} `{EntryCodec} `{Profile} `{!NebariLaws _} `{!EntryCodecLaws _}.
Context (clock : nat -> Timestamp).
Context (clock_normal : forall n, timestamp_normal (clock n)).

(** C4: the key-value store refines a flat map.  From every reachable state,
    whatever the interleaving of operations, worker rounds, persist threads,
    shutdown and the expiration loader, each step has the effect its label
    allows on the entries and expirations the layers stand for.  An operation
    has exactly the specified result and effect at the time it reads from the
    clock, or reports an I/O error, having only removed the keys expired by then
    and possibly changed the expiration of its own key.  A round of the worker
    does nothing or removes exactly the keys expired by the time it reads.  The
    write and the end of a commit and the shutdown, which stage, write and
    discard the cached entries, change nothing.  The loader starts with exactly
    the expirations of the stored entries last written before its launch, and
    each of its updates registers the next of them and nothing else. *)
Theorem kv_refines_flat_map p r w o w' :
  reachable clock p r w -> kv_step clock w o w' ->
  spec_step clock (ticks w) (abs (kv w), loader w) o (abs (kv w'), loader w').
Proof. intros Hr Hs. eapply kv_step_sim; [done| |exact Hs]. by eapply reachable_inv. Qed.

(** C23: in every reachable state an operation on valid names returns a result
    (none of the internal [unwrap]s can fail): either the result of the flat
    map after the keys expired by the current time are removed, or an error of
    the storage engine. *)
Theorem kv_operation_correct p r w op :
  reachable clock p r w -> op_wf op ->
  let now := clock (ticks w) in
  let expected := spec_operation op now (abs (kv w)) in
  let (result, w') := perform_kv_operation clock op w in
  (result = expected.1 /\ abs (kv w') ≡ expected.2) \/
  ((exists e, result = Err (NebariError e)) /\
   forall k, view (kv w') k = a_view (spec_expire now (abs (kv w))) k).
Proof.
  intros Hr Hop. cbv zeta.
  destruct (perform_kv_operation_ok clock clock_normal op w Hop) as (res & w' & -> & _ & _ & _ & _ & _ & Hc).
  { by eapply reachable_inv. }
  done.
Qed.

(** C38: in every reachable state the expiration queue lists exactly the keys
    that have an expiration, each once, in the order in which they expire. *)
Theorem expiration_queue_invariant p r w :
  reachable clock p r w ->
  NoDup (expiration_order (kv w)) /\
  (forall k, k ∈ expiration_order (kv w) <-> is_Some (expiring_keys (kv w) !! k)) /\
  StronglySorted (fun a b => forall ta tb,
    expiring_keys (kv w) !! a = Some ta -> expiring_keys (kv w) !! b = Some tb ->
    timestamp_leb ta tb = true) (expiration_order (kv w)).
Proof.
  intros Hr. destruct (ok_queue _ (inv_ok _ (reachable_inv _ clock_normal _ _ _ Hr))) as [Hn Hd Hs].
  split; [done|]. split; [done|]. revert Hs. generalize (expiration_order (kv w)) as l.
  induction 1 as [|x l Hs IH Hf]; constructor; [done|].
  eapply List.Forall_impl; [|exact Hf]. intros y Hle ta tb Ha Hb.
  unfold ts_le, ts in Hle. by rewrite Ha, Hb in Hle.
Qed.

(** A commit that succeeds leaves in the tree exactly the staged entries:
    a key set to a value reads back as that value, a key marked as removed is
    absent, and every other key and every other tree is untouched. *)
Theorem persist_write_exact r keys r' :
  (forall k, is_Some (keys !! k) -> key_wf k) -> persist_write r keys = Ok r' ->
  (forall k e, keys !! k = Some e -> retrieve_key_from_disk r' k = Ok e \/
     exists err, retrieve_key_from_disk r' k = Err (NebariError err)) /\
  (forall k, is_str k = true -> keys !! k = None -> disk_view r' k = disk_view r k) /\
  (forall t, t <> KEY_TREE -> contents r' t = contents r t).
Proof.
  intros Hw Hp. pose proof (persist_write_ok r keys Hw) as Hok. rewrite Hp in Hok.
  destruct Hok as (Hin & Hout & Ht). split; [|done].
  intros k e Hk. rewrite <- (Hin k e Hk). apply retrieve_key_from_disk_cases.
Qed.

(** The shutdown message is sent only once everything is on disk: when a
    persist thread reports the end of a shutdown, the cache is empty, nothing
    is being persisted, and the tree alone holds every entry. *)
Theorem shutdown_message_after_persistence p r w i w' :
  reachable clock p r w -> shutdown_sent w = false ->
  persist_thread_finish clock i w = Some w' -> shutdown_sent w' = true ->
  dirty_keys (kv w') = ∅ /\ keys_being_persisted (kv w') = None /\
  forall k, disk_view (roots (kv w')) k = view (kv w) k.
Proof.
  intros Hr Hs Hf Hs'. pose proof (reachable_inv _ clock_normal _ _ _ Hr) as Hinv.
  destruct (thread_finish_ok clock clock_normal i w w' Hinv Hf) as (_ & _ & Ha & Hsent).
  destruct (Hsent Hs') as [|[Hd Hp]]; [congruence|]. split; [done|]. split; [done|].
  intros k. change (view (kv w) k) with (a_view (abs (kv w)) k).
  rewrite <- (proj2 Ha k). simpl. unfold view, persisting_entry. by rewrite Hd, Hp, lookup_empty.
Qed.

(** Shutting down while a commit is in progress does not wait and does not
    persist the keys written since that commit was staged: [shutdown] changes
    nothing, and when the thread finishes no thread is left and the cache still
    holds those keys. *)
Theorem shutdown_while_persisting_drops_dirty p r w w1 w2 keys :
  reachable clock p r w -> keys_being_persisted (kv w) = Some keys -> shutdown_sender (kv w) = false ->
  persist_thread_write 0 w = Some w1 -> persist_thread_finish clock 0 w1 = Some w2 ->
  shutdown clock w = (Ok false, w) /\
  threads w2 = [] /\ shutdown_sent w2 = shutdown_sent w /\ dirty_keys (kv w2) = dirty_keys (kv w).
Proof.
  intros Hr Hp Hs Hw Hf. pose proof (reachable_inv _ clock_normal _ _ _ Hr) as Hinv. split.
  { unfold shutdown. rewrite (stm_bind_Ok get_kv _ w (kv w) w) by done.
    by rewrite bool_decide_eq_false_2 by by rewrite Hp. }
  destruct (thread_write_ok _ _ _ Hinv Hw) as [Hinv1 _].
  unfold persist_thread_write in Hw. destruct (threads w !! 0%nat) as [[ks|]|] eqn:Hi; [|done..].
  destruct (thread_lookup _ _ _ Hinv Hi) as (ks' & _ & _ & Ht & _).
  assert (exists r', w1 = set_threads (insert 0%nat Finishing) (update_kv (set_roots r') w)) as [r' ->].
  { destruct (persist_write _ _); simplify_eq; [by eexists|..];
      unfold persist_thread_finish in Hf; simpl in Hf; rewrite Ht in Hf; done. }
  unfold persist_thread_finish in Hf. simpl in Hf. rewrite Ht in Hf. simpl in Hf. simplify_eq.
  unfold persist_finish. do 3 stm_step.
  match goal with |- context [(update_background_worker_target _;; _) ?x] => set (wx := x) end.
  destruct (update_background_worker_target_ok clock clock_normal wx) as [t Htgt].
  { eapply kv_ok_same; [apply (inv_ok _ Hinv)|done..]. }
  rewrite (stm_bind_Ok _ _ _ _ _ Htgt). set (wy := update_kv _ _).
  rewrite (stm_bind_Ok get_kv _ wy (kv wy) wy) by done.
  replace (shutdown_sender (kv wy)) with false by done. simpl. by rewrite Ht.
Qed.

(** A commit whose thread fails is never retried and blocks all later
    commits: in every state reached afterwards the same keys are still marked
    as being persisted, no persist thread exists, and the store on disk is the
    one left at the failure. *)
Theorem failed_persist_is_permanent p r w i w1 w2 e keys :
  reachable clock p r w -> threads w !! i = Some (Writing keys) ->
  persist_write (roots (kv w)) keys = Err e -> persist_thread_write i w = Some w1 ->
  rtc (fun a b => exists o, kv_step clock a o b) w1 w2 ->
  keys_being_persisted (kv w2) = Some keys /\ threads w2 = [] /\ roots (kv w2) = roots (kv w).
Proof.
  intros Hr Hi He Hw Hsteps. pose proof (reachable_inv _ clock_normal _ _ _ Hr) as Hinv.
  destruct (thread_write_ok _ _ _ Hinv Hw) as [Hinv1 _].
  destruct (thread_lookup _ _ _ Hinv Hi) as (keys' & Hp & -> & Ht & [Hk|[? _]]); simplify_eq.
  assert (abandoned keys' (roots (kv w)) w1) as Hab.
  { unfold persist_thread_write in Hw. rewrite Ht in Hw. simpl in Hw. rewrite He in Hw. simplify_eq.
    split_and!; [done| |done]. simpl. by rewrite Ht. }
  clear Hw. change (abandoned keys' (roots (kv w)) w2).
  induction Hsteps as [|a b c [o Hstep] _ IH]; [done|]. apply IH.
  - by eapply kv_step_sim.
  - by eapply abandoned_step.
Qed.

(** After a successful operation the background worker is due no later
    than the first expiration: for every expiring key the target is [Now] or a
    time not after the key's expiration, and never [Never]. *)
Theorem worker_wakes_for_expirations p r w op out w' k t :
  reachable clock p r w -> op_wf op -> perform_kv_operation clock op w = (Ok out, w') ->
  expiring_keys (kv w') !! k = Some t -> wakes_by (background_worker_target (kv w')) t.
Proof.
  intros Hr Hop Hp Hk. pose proof (reachable_inv _ clock_normal _ _ _ Hr) as Hinv.
  destruct (perform_ends_notified clock clock_normal op w out w' Hop Hinv Hp) as (w3 & Hok & Hu & Hx).
  rewrite Hx in Hk. by eapply update_target_wakes.
Qed.

(** A pass of the worker removes exactly the keys whose expiration is not
    after the time of the pass, and forgets their expiration. *)
Theorem worker_removes_expired p r w :
  reachable clock p r w ->
  let now := clock (ticks w) in
  exists w', worker_pass clock w = (Ok tt, w') /\
  forall k, view (kv w') k = (if expired now (expiring_keys (kv w) !! k) then None else view (kv w) k) /\
            expiring_keys (kv w') !! k =
              (if expired now (expiring_keys (kv w) !! k) then None else expiring_keys (kv w) !! k).
Proof.
  intros Hr now. pose proof (reachable_inv _ clock_normal _ _ _ Hr) as Hinv.
  destruct (worker_pass_ok clock clock_normal w Hinv) as (w' & Hp & _ & _ & _ & [Hx Hv]).
  exists w'. split; [done|]. intros k. split; [apply (Hv k)|].
  simpl in Hx. rewrite Hx. apply unexpired_lookup.
Qed.

(** The expiration loader works from a snapshot it does not revalidate:
    an expiration read before a key was overwritten is attached to the new
    entry even if that entry has none, and the next pass of the worker after
    that time deletes the key. *)
Theorem loader_expires_rewritten_key p r w w1 k t rest e :
  reachable clock p r w -> loader w = (k, Some t) :: rest ->
  view (kv w) k = Some e -> expiration e = None ->
  loader_next clock w = Some w1 -> timestamp_leb t (clock (ticks w1)) = true ->
  view (kv w1) k = Some e /\ view (kv (worker_pass clock w1).2) k = None.
Proof.
  intros Hr Hl Hv He Hn Ht. pose proof (reachable_inv _ clock_normal _ _ _ Hr) as Hinv.
  destruct (loader_next_ok clock clock_normal _ _ Hinv Hn) as [Hinv1 _].
  unfold loader_next in Hn. rewrite Hl in Hn. injection Hn as <-.
  set (w0 := MkWorld _ _ _ _ rest) in *.
  destruct (update_key_expiration_ok clock clock_normal w0 k (Some t) (inv_ok _ Hinv))
    as (w1 & Hu & Hs & _ & Hx & _).
  rewrite Hu in *. simpl in *. split; [by rewrite (view_same_store _ _ _ Hs)|].
  destruct (worker_pass_ok clock clock_normal w1 Hinv1) as (w2 & -> & _ & _ & _ & [_ Hv2]). simpl.
  pose proof (Hv2 k) as Hk. simpl in Hk. rewrite Hk, Hx, lookup_insert_eq. simpl. by rewrite Ht.
Qed.

(** The snapshot of all entries is the flat map: for every key of the
    store, split into namespace and name, it holds the entry a [get] returns. *)
Theorem snapshot_is_flat_map s m k x :
  all_key_value_entries s = Ok m -> is_str k = true -> split_key k = Some x -> m !! x = view s k.
Proof. apply all_entries_lookup. Qed.

End Theorems.

(** Full keys keep namespaces apart: with namespaces that are not empty
    and hold no null character, the full key determines namespace and key, and
    splitting it recovers both. *)
Theorem full_key_roundtrip ns k :
  ns <> Some [] -> 0 ∉ default [] ns ->
  split_key (full_key ns k) = Some (ns, k) /\
  forall ns' k', ns' <> Some [] -> 0 ∉ default [] ns' -> full_key ns' k' = full_key ns k -> ns' = ns /\ k' = k.
Proof.
  intros Hne Hn.
  assert (forall ns k, ns <> Some [] -> 0 ∉ default [] ns -> split_key (full_key ns k) = Some (ns, k)) as Hsp.
  { intros ns0 k0 Hne0 Hn0. rewrite split_full_key by done. by destruct ns0 as [[|]|]. }
  split; [by apply Hsp|]. intros ns' k' Hne' Hn' Heq.
  pose proof (Hsp ns k Hne Hn) as H1. rewrite <- Heq, (Hsp ns' k') in H1 by done. by simplify_eq.
Qed.

(** Outside those names distinct keys share one entry: the empty namespace
    is the absent one, and a null character in a namespace moves the boundary. *)
Theorem full_key_collisions a b c :
  full_key (Some []) c = full_key None c /\
  full_key (Some (a ++ 0 :: b)) c = full_key (Some a) (b ++ 0 :: c).
Proof. split; [done|]. unfold full_key. by rewrite <- !app_assoc. Qed.

(** ** The theorems on an in-memory store *)

Module Examples.
Import MemNebari Demo.

Definition after (w : World) (op : KeyOperation) : World := (perform_kv_operation clock op w).2.
(** A key set to expire, staged for the persist thread. *)
Definition w1 : World := after start (set_op [97] [1; 2] (Some (MkTimestamp 1500 0))).

Lemma step_after w op : op_wf op -> exists o, kv_step clock w o (after w op).
Proof. intros Hop. eexists. by apply step_operation. Qed.

Lemma reach1 : reachable clock Immediate disk w1.
Proof. eapply rtc_once. by apply step_after. Qed.

Definition got (r : res KvError Output) : option (list Z) :=
  match r with Ok (OValue (Some (VBytes bs))) => Some bs | _ => None end.

Lemma kv_refines_flat_map_witness :
  got (perform_kv_operation clock (get_op [97]) w1).1 = Some [1; 2] /\
  spec_step clock (ticks w1) (abs (kv w1), loader w1)
    (Performed (get_op [97]) (perform_kv_operation clock (get_op [97]) w1).1)
    (abs (kv (after w1 (get_op [97]))), loader (after w1 (get_op [97]))).
Proof.
  split; [vm_compute; reflexivity|].
  apply (kv_refines_flat_map clock clock_normal Immediate disk w1 _ _ reach1).
  by apply step_operation.
Defined.

Lemma kv_operation_correct_witness :
  let (result, w') := perform_kv_operation clock (get_op [97]) w1 in
  (result = (spec_operation (get_op [97]) (clock (ticks w1)) (abs (kv w1))).1 /\
   abs (kv w') ≡ (spec_operation (get_op [97]) (clock (ticks w1)) (abs (kv w1))).2) \/
  ((exists e, result = Err (NebariError e)) /\
   forall k, view (kv w') k = a_view (spec_expire (clock (ticks w1)) (abs (kv w1))) k).
Proof. exact (kv_operation_correct clock clock_normal Immediate disk w1 (get_op [97]) reach1 ltac:(done)). Defined.

Lemma expiration_queue_invariant_witness :
  expiration_order (kv w1) = [[0; 97]] /\ NoDup (expiration_order (kv w1)).
Proof.
  split; [vm_compute; reflexivity|].
  apply (expiration_queue_invariant clock clock_normal Immediate disk w1 reach1).
Defined.

Lemma persist_write_exact_witness : exists r',
  persist_write disk {[ [0; 97] := Some (MkEntry (VBytes [1]) None (MkTimestamp 1 0)) ]} = Ok r' /\
  disk_view r' [0; 98] = disk_view disk [0; 98].
Proof.
  destruct (is_ok_Ok (persist_write disk
    {[ [0; 97] := Some (MkEntry (VBytes [1]) None (MkTimestamp 1 0)) ]})) as [r' Hr'].
  { vm_compute. reflexivity. }
  exists r'. split; [exact Hr'|].
  destruct (persist_write_exact disk
    {[ [0; 97] := Some (MkEntry (VBytes [1]) None (MkTimestamp 1 0)) ]} r') as (_ & Hother & _).
  - intros k [e [<- _]%lookup_singleton_Some]. split; [reflexivity|left].
  - exact Hr'.
  - apply Hother; [reflexivity|]. vm_compute. reflexivity.
Defined.

(** Runs a partial step. *)
Definition step_or_stay (f : World -> option World) (w : World) : World := default w (f w).
Definition enabled (f : World -> option World) (w : World) : bool :=
  match f w with Some _ => true | None => false end.
Lemma enabled_Some f w : enabled f w = true -> f w = Some (step_or_stay f w).
Proof. unfold enabled, step_or_stay. by destruct (f w). Qed.

(** A store that commits only on shutdown. *)
Definition lazy1 : World := after (initial clock (lazy []) disk) (set_op [97] [7] None).
Definition lazy2 : World := (shutdown clock lazy1).2.
Definition lazy3 : World := step_or_stay (persist_thread_write 0) lazy2.
Definition lazy4 : World := step_or_stay (persist_thread_finish clock 0) lazy3.

Lemma lazy3_step : persist_thread_write 0 lazy2 = Some lazy3.
Proof. unfold lazy3. apply enabled_Some. vm_compute. reflexivity. Qed.
Lemma lazy4_step : persist_thread_finish clock 0 lazy3 = Some lazy4.
Proof. unfold lazy4. apply enabled_Some. vm_compute. reflexivity. Qed.

Lemma reach_lazy3 : reachable clock (lazy []) disk lazy3.
Proof.
  eapply rtc_l; [by apply (step_after _ (set_op [97] [7] None))|].
  eapply rtc_l; [eexists; apply step_shutdown|].
  eapply rtc_once. eexists. apply step_write with 0%nat. exact lazy3_step.
Qed.

Lemma shutdown_message_after_persistence_witness :
  dirty_keys (kv lazy4) = ∅ /\ keys_being_persisted (kv lazy4) = None /\
  forall k, disk_view (roots (kv lazy4)) k = view (kv lazy3) k.
Proof.
  apply (shutdown_message_after_persistence clock clock_normal (lazy []) disk lazy3 0 lazy4 reach_lazy3).
  - vm_compute. reflexivity.
  - exact lazy4_step.
  - vm_compute. reflexivity.
Defined.

(** A second write while the first is being persisted, then shutdown. *)
Definition w2 : World := after w1 (set_op [98] [3] None).
Definition w3 : World := step_or_stay (persist_thread_write 0) w2.
Definition w4 : World := step_or_stay (persist_thread_finish clock 0) w3.
Lemma w3_step : persist_thread_write 0 w2 = Some w3.
Proof. unfold w3. apply enabled_Some. vm_compute. reflexivity. Qed.
Lemma w4_step : persist_thread_finish clock 0 w3 = Some w4.
Proof. unfold w4. apply enabled_Some. vm_compute. reflexivity. Qed.
Lemma reach2 : reachable clock Immediate disk w2.
Proof. eapply rtc_r; [exact reach1|]. by apply step_after. Qed.

Lemma shutdown_while_persisting_drops_dirty_witness :
  bool_decide (is_Some (dirty_keys (kv w2) !! [0; 98])) = true /\
  shutdown clock w2 = (Ok false, w2) /\
  threads w4 = [] /\ shutdown_sent w4 = shutdown_sent w2 /\ dirty_keys (kv w4) = dirty_keys (kv w2).
Proof.
  split; [vm_compute; reflexivity|].
  destruct (keys_being_persisted (kv w2)) as [keys|] eqn:Hk.
  2: { assert (bool_decide (is_Some (keys_being_persisted (kv w2))) = true) as Hs by (vm_compute; reflexivity).
       rewrite Hk in Hs. vm_compute in Hs. discriminate Hs. }
  apply (shutdown_while_persisting_drops_dirty clock clock_normal Immediate disk w2 w3 w4 keys reach2 Hk).
  - vm_compute. reflexivity.
  - exact w3_step.
  - exact w4_step.
Defined.

(** A store on a full disk: the persist thread fails. *)
Definition full_disk : @Roots mem_nebari := MkRoots ∅ false [].
Definition full1 : World := after (initial clock Immediate full_disk) (set_op [97] [7] None).
Definition full2 : World := step_or_stay (persist_thread_write 0) full1.
Definition full3 : World := after full2 (set_op [97] [8] None).

Lemma full2_step : persist_thread_write 0 full1 = Some full2.
Proof. unfold full2. apply enabled_Some. vm_compute. reflexivity. Qed.
Lemma reach_full1 : reachable clock Immediate full_disk full1.
Proof. eapply rtc_once. by apply (step_after _ (set_op [97] [7] None)). Qed.

Lemma failed_persist_is_permanent_witness : exists keys,
  threads full1 !! 0%nat = Some (Writing keys) /\
  keys_being_persisted (kv full3) = Some keys /\ threads full3 = [].
Proof.
  destruct (threads full1 !! 0%nat) as [[keys|]|] eqn:Ht.
  2: by assert (match threads full1 !! 0%nat with Some Finishing => true | _ => false end = false)
       as Hb by (vm_compute; reflexivity); rewrite Ht in Hb.
  2: by assert (match threads full1 !! 0%nat with None => true | _ => false end = false)
       as Hb by (vm_compute; reflexivity); rewrite Ht in Hb.
  exists keys. split; [reflexivity|].
  assert (match threads full1 !! 0%nat with
          | Some (Writing keys) =>
              match persist_write (roots (kv full1)) keys with Err _ => true | _ => false end
          | _ => false end = true) as Herr by (vm_compute; reflexivity).
  rewrite Ht in Herr. destruct (persist_write (roots (kv full1)) keys) as [|e|] eqn:He;
    [discriminate Herr| |discriminate Herr].
  destruct (failed_persist_is_permanent clock clock_normal Immediate full_disk full1 0 full2 full3 e keys
    reach_full1 Ht He full2_step) as (H1 & H2 & _).
  - unfold full3. eapply rtc_once. apply step_after. split; reflexivity.
  - split; assumption.
Defined.

Lemma worker_wakes_for_expirations_witness :
  wakes_by (background_worker_target (kv w1)) (MkTimestamp 1500 0).
Proof.
  destruct (perform_kv_operation clock (set_op [97] [1; 2] (Some (MkTimestamp 1500 0))) start)
    as [[out|e|] w'] eqn:Hp.
  2-3: assert (is_ok (perform_kv_operation clock
         (set_op [97] [1; 2] (Some (MkTimestamp 1500 0))) start).1 = true) as Hb by (vm_compute; reflexivity);
       rewrite Hp in Hb; discriminate Hb.
  assert (w1 = w') as -> by (unfold w1, after; by rewrite Hp).
  apply (worker_wakes_for_expirations clock clock_normal Immediate disk start
    (set_op [97] [1; 2] (Some (MkTimestamp 1500 0))) out w' [0; 97]).
  - apply rtc_refl.
  - split; reflexivity.
  - exact Hp.
  - replace w' with w1 by (unfold w1, after; by rewrite Hp). vm_compute. reflexivity.
Defined.

Lemma worker_removes_expired_witness : exists w',
  worker_pass clock w1 = (Ok tt, w') /\ view (kv w') [0; 97] = view (kv w1) [0; 97].
Proof.
  destruct (worker_removes_expired clock clock_normal Immediate disk w1 reach1) as (w' & Hw & Hv).
  exists w'. split; [exact Hw|]. rewrite (proj1 (Hv [0; 97])).
  assert (expired (clock (ticks w1)) (expiring_keys (kv w1) !! [0; 97]) = false) as ->
    by (vm_compute; reflexivity).
  reflexivity.
Defined.

(** The loader reads an expiration, then the key is written again without one. *)
Definition load1 : World := after start (set_op [97] [1] (Some (MkTimestamp 1010 0))).
Definition load2 : World := step_or_stay (loader_start (MkTimestamp 1900 0)) load1.
Definition load3 : World := after load2 (set_op [97] [2] None).
Definition load4 : World := after (after (after load3 (get_op [97])) (get_op [97])) (get_op [97]).
Definition load5 : World := step_or_stay (loader_next clock) load4.

Lemma load2_step : loader_start (MkTimestamp 1900 0) load1 = Some load2.
Proof. unfold load2. apply enabled_Some. vm_compute. reflexivity. Qed.
Lemma load5_step : loader_next clock load4 = Some load5.
Proof. unfold load5. apply enabled_Some. vm_compute. reflexivity. Qed.
Lemma reach_load4 : reachable clock Immediate disk load4.
Proof.
  eapply rtc_l; [by apply (step_after start (set_op [97] [1] (Some (MkTimestamp 1010 0))))|].
  eapply rtc_l; [eexists; apply (step_loader_start clock (MkTimestamp 1900 0)); exact load2_step|].
  eapply rtc_l; [by apply (step_after load2 (set_op [97] [2] None))|].
  eapply rtc_l; [by apply (step_after load3 (get_op [97]))|].
  eapply rtc_l; [by apply (step_after _ (get_op [97]))|].
  unfold load4. eapply rtc_once. apply step_after. split; reflexivity.
Qed.

Lemma loader_expires_rewritten_key_witness : exists e,
  view (kv load5) [0; 97] = Some e /\ view (kv (worker_pass clock load5).2) [0; 97] = None.
Proof.
  destruct (view (kv load4) [0; 97]) as [e|] eqn:Hv.
  2: { assert (bool_decide (is_Some (view (kv load4) [0; 97])) = true) as Hb by (vm_compute; reflexivity).
       rewrite Hv in Hb. discriminate Hb. }
  exists e.
  apply (loader_expires_rewritten_key clock clock_normal Immediate disk load4 load5 [0; 97]
    (MkTimestamp 1010 0) [] e reach_load4).
  - vm_compute. reflexivity.
  - exact Hv.
  - assert (match view (kv load4) [0; 97] with Some e => expiration e | None => None end = None) as Hx
      by (vm_compute; reflexivity).
    rewrite Hv in Hx. exact Hx.
  - exact load5_step.
  - vm_compute. reflexivity.
Defined.

Lemma snapshot_is_flat_map_witness : exists m,
  all_key_value_entries (kv w2) = Ok m /\ m !! (None, [97]) = view (kv w2) [0; 97].
Proof.
  destruct (is_ok_Ok (all_key_value_entries (kv w2))) as [m Hm]; [vm_compute; reflexivity|].
  exists m. split; [exact Hm|].
  apply (snapshot_is_flat_map (kv w2) m [0; 97] (None, [97]) Hm); reflexivity.
Defined.

Lemma full_key_roundtrip_witness : split_key (full_key (Some [98]) [97; 0]) = Some (Some [98], [97; 0]).
Proof.
  apply (full_key_roundtrip (Some [98]) [97; 0]); [discriminate|].
  intros Hin%list_elem_of_singleton. discriminate Hin.
Defined.

End Examples.
