(* ===== verification/Schema.v ===== *)
(** * Schemas: documents, views and the schematic

    Revisions and headers ([bonsaidb-core/src/document/]), the stored form of a
    document ([deserialize_document] in [bonsaidb-local/src/database.rs]), the
    view interface, and the [Schematic] of [bonsaidb-core/src/schema/schematic.rs]
    with its id generator.  The [map] and [reduce] of a view are user code:
    fields of the record [View]. *)

From Stdlib Require Import ZArith Lia.
From stdpp Require Import base list option numbers gmap.
From S2P Require Import Prelude Bytes Utf8 Key KeyLaws CompositeKey VarInt DerivedKeys Nebari Document Names.

Local Open Scope Z_scope.

(** ** Revisions, headers and documents *)

Record Revision := MkRevision { rev_id : Z; sha256 : bytes }.
Record Header := MkHeader { id : bytes; revision : Revision }.
(** [BorrowedDocument] and [OwnedDocument]. *)
Record Doc := MkDoc { header : Header; contents : bytes }.

#[export] Instance Revision_eq_dec : EqDecision Revision.
Proof. solve_decision. Defined.
#[export] Instance Header_eq_dec : EqDecision Header.
Proof. solve_decision. Defined.

(** SHA-256, of the crate [sha2]. *)
Class Digest := digest : bytes -> bytes.

Section Revisions.
Context `{Digest}.

Definition revision_with_id (n : Z) (contents : bytes) : Revision := MkRevision n (digest contents).
Definition revision_new (contents : bytes) : Revision := revision_with_id 0 contents.

(** [Revision::next_revision]; [checked_add(1).expect(..)] panics on overflow. *)
Definition next_revision {E} (r : Revision) (new_contents : bytes) : res E (option Revision) :=
  let new_sha := digest new_contents in
  if decide (new_sha = sha256 r) then Ok None
  else n ← unwrap (checked_add u32 (rev_id r) 1); Ok (Some (MkRevision n new_sha)).

(** [BorrowedDocument::new]. *)
Definition document_new (id : bytes) (contents : bytes) : Doc :=
  MkDoc (MkHeader id (revision_new contents)) contents.

End Revisions.

(** ** Stored documents

    [pot] and [bincode] are third-party serializers; [LegacyDocument] is the
    form written by old versions. *)

Class DocumentCodec := {
  pot_to_vec : Doc -> option bytes;
  pot_from_slice : bytes -> option Doc;
  bincode_legacy_document : bytes -> option (Z * Revision * bytes)
}.
Class DocumentCodecLaws `{DocumentCodec} :=
  pot_roundtrip d b : pot_to_vec d = Some b -> pot_from_slice b = Some d.
Arguments DocumentCodecLaws _ : clear implicits.

Definition serialize_document `{DocumentCodec} (d : Doc) : option bytes := pot_to_vec d.

Definition deserialize_document `{DocumentCodec} (bs : bytes) : option Doc :=
  match pot_from_slice bs with
  | Some document => Some document
  | None =>
      match bincode_legacy_document bs with
      | Some (legacy_id, legacy_revision, legacy_contents) =>
          Some (MkDoc (MkHeader (document_id_from_u64 legacy_id) legacy_revision) legacy_contents)
      | None => None
      end
  end.

(** ** Views *)

Inductive ViewUpdatePolicy := Lazy | Eager | Unique.
Definition is_eager (p : ViewUpdatePolicy) : bool := match p with Eager | Unique => true | Lazy => false end.

Inductive ViewError := ReduceUnimplemented | ViewFailure (code : Z).

(** [map::Serialized]. *)
Record Mapping := MkMapping { source : Header; map_key : bytes; map_value : bytes }.

(** The trait [view::Serialized]. *)
Record View := MkView {
  view_name : ViewName;
  view_collection : CollectionName;
  version : Z;
  update_policy : ViewUpdatePolicy;
  view_map : Doc -> res ViewError (list Mapping);
  view_reduce : list (bytes * bytes) -> bool -> res ViewError bytes
}.

(** ** [Schematic]

    A type is identified by its [TypeId], a number. *)

Abbreviation TypeId := Z (only parsing).

Inductive SchemaError :=
| CollectionAlreadyDefined
| ViewAlreadyRegistered (v : ViewName)
| SchemaCollectionNotFound
| ViewNotFound
| DocumentPush (c : CollectionName) (e : NextValueError)
| KeySerialization
| IdTooLong.

#[export] Instance ViewName_countable : Countable ViewName.
Proof.
  apply (inj_countable' (fun n => (collection n, vname n)) (fun p => MkViewName p.1 p.2)). by intros [].
Defined.

(** [KeyId] of [document.rs]. *)
Inductive KeyId := KeyIdNone | KeyIdMaster | KeyIdId (s : str).

Record Schematic := MkSchematic {
  schematic_name : QualifiedName;
  contained_collections : gmap CollectionName KeyDescription;
  collections_by_type_id : gmap TypeId CollectionName;
  collection_encryption_keys : gmap CollectionName KeyId;
  collection_id_generators : gmap CollectionName key_ty;
  views : gmap TypeId View;
  views_by_name : gmap ViewName TypeId;
  views_by_collection : gmap CollectionName (list TypeId);
  eager_views_by_collection : gmap CollectionName (list TypeId)
}.

Definition schematic_new (n : QualifiedName) : Schematic := MkSchematic n ∅ ∅ ∅ ∅ ∅ ∅ ∅ ∅.

(** [define_view_with_schema]. *)
Definition define_view (t : TypeId) (v : View) : stm Schematic SchemaError unit := fun s =>
  if bool_decide (is_Some (views_by_name s !! view_name v))
  then (Err (ViewAlreadyRegistered (view_name v)), s)
  else
    let push m := <[view_collection v := default [] (m !! view_collection v) ++ [t]]> m in
    (Ok tt,
     MkSchematic (schematic_name s) (contained_collections s) (collections_by_type_id s)
       (collection_encryption_keys s) (collection_id_generators s)
       (<[t := v]> (views s)) (<[view_name v := t]> (views_by_name s))
       (push (views_by_collection s))
       (if is_eager (update_policy v) then push (eager_views_by_collection s)
        else eager_views_by_collection s)).

(** A collection type: its type id, name, encryption key and primary key, and
    the views its [define_views] registers. *)
Record Collection := MkCollection {
  collection_type : TypeId;
  collection_name : CollectionName;
  encryption_key : option KeyId;
  primary_key : key_ty;
  defined_views : list (TypeId * View)
}.

Fixpoint define_views (vs : list (TypeId * View)) : stm Schematic SchemaError unit :=
  match vs with
  | [] => mret tt
  | (t, v) :: vs => define_view t v;; define_views vs
  end.

Definition define_collection (c : Collection) : stm Schematic SchemaError unit := fun s =>
  let registered contained := MkSchematic (schematic_name s) contained
    (<[collection_type c := collection_name c]> (collections_by_type_id s))
    (match encryption_key c with
     | Some k => <[collection_name c := k]> (collection_encryption_keys s)
     | None => collection_encryption_keys s
     end)
    (<[collection_name c := primary_key c]> (collection_id_generators s))
    (views s) (views_by_name s) (views_by_collection s) (eager_views_by_collection s) in
  if bool_decide (is_Some (contained_collections s !! collection_name c))
  then (Err CollectionAlreadyDefined, s)
  else
    match for_encoding (primary_key c) with
    | Ok description =>
        define_views (defined_views c) (registered (<[collection_name c := description]> (contained_collections s)))
    | Err e => (Err e, registered (contained_collections s))
    | Panic => (Panic, registered (contained_collections s))
    end.

(** [from_schema]: the collections a schema defines, in order. *)
Fixpoint define_collections (cs : list Collection) : stm Schematic SchemaError unit :=
  match cs with
  | [] => mret tt
  | c :: cs => define_collection c;; define_collections cs
  end.
Definition from_schema (n : QualifiedName) (cs : list Collection) : res SchemaError Schematic :=
  match define_collections cs (schematic_new n) with
  | (Ok _, s) => Ok s
  | (Err e, _) => Err e
  | (Panic, _) => Panic
  end.

Definition view_by_name (s : Schematic) (n : ViewName) : res SchemaError View :=
  ok_or ViewNotFound (views_by_name s !! n ≫= fun t => views s !! t).

Definition views_in_collection (s : Schematic) (c : CollectionName) : list View :=
  omap (fun t => views s !! t) (default [] (views_by_collection s !! c)).
Definition eager_views_in_collection (s : Schematic) (c : CollectionName) : list View :=
  omap (fun t => views s !! t) (default [] (eager_views_by_collection s !! c)).

(** [KeyIdGenerator::next_id]. *)
Definition next_id (c : CollectionName) (k : key_ty) (last : option bytes) : res SchemaError bytes :=
  start ←
    match last with
    | Some id => map_err (fun _ => KeySerialization) (from_ord_bytes k (Borrowed id))
    | None => map_err (DocumentPush c) (first_value k)
    end;
  next ← map_err (DocumentPush c) (next_value k start);
  bs ← map_err (fun _ => KeySerialization) (as_ord_bytes k next);
  map_err (fun _ => IdTooLong) (document_id_try_from bs).

Definition next_id_for_collection (s : Schematic) (c : CollectionName) (last : option bytes)
    : res SchemaError bytes :=
  k ← ok_or SchemaCollectionNotFound (collection_id_generators s !! c);
  next_id c k last.

(** ** The schematic's indexes agree *)

Record schematic_ok (s : Schematic) : Prop := {
  ok_registered c t : t ∈ default [] (views_by_collection s !! c) ->
    exists v, views s !! t = Some v /\ view_collection v = c;
  ok_eager c : default [] (eager_views_by_collection s !! c) =
    filter (fun t => is_eager (from_option update_policy Lazy (views s !! t)) = true)
      (default [] (views_by_collection s !! c));
  ok_names v n : views_by_name s !! n = Some v -> exists w, views s !! v = Some w /\ view_name w = n;
  ok_generators c : is_Some (contained_collections s !! c) <-> is_Some (collection_id_generators s !! c);
  ok_named t v : views s !! t = Some v -> views_by_name s !! view_name v = Some t;
  ok_listed_once c : NoDup (default [] (views_by_collection s !! c));
  ok_listed t v : views s !! t = Some v -> t ∈ default [] (views_by_collection s !! view_collection v)
}.

Lemma filter_ext_in {A} (P Q : A -> Prop) `{forall x, Decision (P x)} `{forall x, Decision (Q x)} (l : list A) :
  (forall x, x ∈ l -> P x <-> Q x) -> filter P l = filter Q l.
Proof.
  induction l as [|x l IH]; intros Hl; [done|]. rewrite !filter_cons.
  assert (filter P l = filter Q l) as -> by (apply IH; intros; apply Hl; by right).
  destruct (decide (P x)), (decide (Q x)); try done; exfalso;
    pose proof (Hl x ltac:(left)); tauto.
Qed.

Lemma define_view_ok s t v s' :
  schematic_ok s -> views s !! t = None -> define_view t v s = (Ok tt, s') -> schematic_ok s'.
Proof.
  intros [Hr He Hn Hg Hnm Hnd Hl] Hfresh Hd. unfold define_view in Hd. case_bool_decide as Hname; [done|].
  injection Hd as <-.
  assert (forall c x, x ∈ default [] (views_by_collection s !! c) -> x <> t) as Hne.
  { intros c x Hx ->. destruct (Hr c t Hx) as (? & ? & _). congruence. }
  split; cbn [views views_by_name views_by_collection eager_views_by_collection
              contained_collections collection_id_generators]; [| | |done| | |].
  - intros c x. destruct (decide (view_collection v = c)) as [<-|Hc].
    + rewrite lookup_insert_eq. simpl. rewrite elem_of_app, list_elem_of_singleton. intros [Hx| ->].
      * rewrite lookup_insert_ne by (symmetry; by eapply Hne). by apply Hr.
      * exists v. by rewrite lookup_insert_eq.
    + rewrite lookup_insert_ne by done. intros Hx.
      rewrite lookup_insert_ne by (symmetry; by eapply Hne). by apply Hr.
  - intros c.
    assert (forall c, filter (fun x => is_eager (from_option update_policy Lazy (<[t := v]> (views s) !! x)) = true)
        (default [] (views_by_collection s !! c)) = default [] (eager_views_by_collection s !! c)) as Hold.
    { intros c'. rewrite He. apply filter_ext_in. intros x Hx.
      by rewrite lookup_insert_ne by (symmetry; by eapply Hne). }
    assert (is_eager (from_option update_policy Lazy (<[t := v]> (views s) !! t)) = is_eager (update_policy v)) as Ht
      by by rewrite lookup_insert_eq.
    destruct (decide (view_collection v = c)) as [<-|Hc].
    + rewrite lookup_insert_eq. simpl. rewrite filter_app, Hold, filter_cons, Ht. simpl.
      destruct (is_eager (update_policy v)).
      * by rewrite lookup_insert_eq.
      * by rewrite app_nil_r.
    + rewrite (lookup_insert_ne (views_by_collection s)) by done. rewrite Hold.
      destruct (is_eager (update_policy v)); [|done]. by rewrite lookup_insert_ne.
  - intros x n. destruct (decide (view_name v = n)) as [<-|Hc].
    + rewrite lookup_insert_eq. intros [= <-]. exists v. by rewrite lookup_insert_eq.
    + rewrite lookup_insert_ne by done. intros Hx. destruct (Hn x n Hx) as (w & Hw & ?).
      exists w. rewrite lookup_insert_ne; [done|]. intros ->. congruence.
  - intros x w [[<- <-]|[Hx Hw]]%lookup_insert_Some; [by rewrite lookup_insert_eq|].
    apply Hnm in Hw. rewrite lookup_insert_ne; [done|]. intros Heq. apply Hname. rewrite Heq. by eexists.
  - intros c. destruct (decide (view_collection v = c)) as [<-|Hc].
    + rewrite lookup_insert_eq. simpl. apply NoDup_app. split_and!; [done| |apply NoDup_singleton].
      intros x Hx ->%list_elem_of_singleton. by apply (Hne _ _ Hx).
    + by rewrite lookup_insert_ne.
  - intros x w [[<- <-]|[Hx Hw]]%lookup_insert_Some.
    + rewrite lookup_insert_eq. apply elem_of_app. right. by apply list_elem_of_singleton.
    + apply Hl in Hw. destruct (decide (view_collection v = view_collection w)) as [Heq|Hne'].
      * rewrite Heq, lookup_insert_eq. apply elem_of_app. by left.
      * by rewrite lookup_insert_ne.
Qed.

(** Registering the views of a collection whose types are new. *)
Lemma define_views_ok vs s s' :
  schematic_ok s -> NoDup vs.*1 -> (forall t, t ∈ vs.*1 -> views s !! t = None) ->
  define_views vs s = (Ok tt, s') ->
  schematic_ok s' /\ forall t, t ∉ vs.*1 -> views s' !! t = views s !! t.
Proof.
  revert s. induction vs as [|[t v] vs IH]; intros s Hok Hnd Hf Hd; simpl in *.
  - injection Hd as <-. done.
  - apply stm_bind_Ok_inv in Hd as ([] & s1 & Hv & Hd). apply NoDup_cons in Hnd as [Ht Hnd].
    assert (views s1 = <[t := v]> (views s)) as Hs1.
    { unfold define_view in Hv. case_bool_decide; [done|]. by injection Hv as <-. }
    destruct (IH s1) as [Hok' Hother]; [|done| |done|].
    + eapply define_view_ok; [done| |done]. apply Hf. left.
    + intros x Hx. rewrite Hs1, lookup_insert_ne; [apply Hf; by right|]. by intros ->.
    + split; [done|]. intros x [Hxt Hx]%not_elem_of_cons. rewrite Hother by done.
      by rewrite Hs1, lookup_insert_ne by done.
Qed.

Definition type_ids (cs : list Collection) : list TypeId := concat ((fun c => (defined_views c).*1) <$> cs).

Lemma define_collections_ok cs s s' :
  schematic_ok s -> NoDup (type_ids cs) -> (forall t, t ∈ type_ids cs -> views s !! t = None) ->
  define_collections cs s = (Ok tt, s') -> schematic_ok s'.
Proof.
  revert s. induction cs as [|c cs IH]; intros s Hok Hnd Hf Hd; simpl in *.
  - by injection Hd as <-.
  - apply stm_bind_Ok_inv in Hd as ([] & s1 & Hc & Hd). unfold type_ids in Hnd, Hf. simpl in Hnd, Hf.
    apply NoDup_app in Hnd as (Hn1 & Hn12 & Hn2).
    unfold define_collection in Hc. case_bool_decide; [done|]. destruct (for_encoding (primary_key c)) as [description|e|]; [|done..].
    match type of Hc with define_views _ ?s0 = _ => destruct (define_views_ok (defined_views c) s0 s1) as [Hok1 Ho] end.
    + destruct Hok. split; simpl; try done. intros c'. destruct (decide (collection_name c = c')) as [->|].
      * by rewrite !lookup_insert_eq.
      * by rewrite !lookup_insert_ne.
    + done.
    + intros t Ht. simpl. apply Hf. apply elem_of_app. by left.
    + done.
    + eapply IH; [done|done| |done]. intros t Ht. rewrite Ho by (intros Hin; by apply (Hn12 t)).
      simpl. apply Hf. apply elem_of_app. by right.
Qed.

Lemma schematic_new_ok n : schematic_ok (schematic_new n).
Proof.
  split; simpl.
  - intros c t. rewrite lookup_empty. by intros ?%elem_of_nil.
  - intros c. by rewrite !lookup_empty.
  - intros v n0. by rewrite lookup_empty.
  - intros c. by rewrite !lookup_empty.
  - intros t v. by rewrite lookup_empty.
  - intros c. rewrite lookup_empty. constructor.
  - intros t v. by rewrite lookup_empty.
Qed.

Lemma omap_filter_eager (m : gmap TypeId View) (l : list TypeId) :
  (forall t, t ∈ l -> is_Some (m !! t)) ->
  omap (fun t => m !! t) (filter (fun t => is_eager (from_option update_policy Lazy (m !! t)) = true) l) =
  filter (fun v => is_eager (update_policy v) = true) (omap (fun t => m !! t) l).
Proof.
  induction l as [|t l IH]; intros Hl; [done|]. rewrite filter_cons.
  destruct (Hl t) as [v Hv]; [left|].
  assert (omap (fun t => m !! t) (t :: l) = v :: omap (fun t => m !! t) l) as ->.
  { simpl. by rewrite Hv. }
  rewrite filter_cons, Hv. simpl. rewrite <- IH by (intros; apply Hl; by right).
  destruct (decide (is_eager (update_policy v) = true)); [|done]. simpl. by rewrite Hv.
Qed.

Lemma eager_views_filter s c :
  schematic_ok s -> eager_views_in_collection s c =
    filter (fun v => is_eager (update_policy v) = true) (views_in_collection s c).
Proof.
  intros Hok. unfold eager_views_in_collection, views_in_collection. rewrite (ok_eager s Hok).
  apply omap_filter_eager. intros t Ht. destruct (ok_registered s Hok c t Ht) as (v & -> & _). by eexists.
Qed.

Lemma from_schema_ok n cs s : NoDup (type_ids cs) -> from_schema n cs = Ok s -> schematic_ok s.
Proof.
  intros Hnd Hs. unfold from_schema in Hs.
  destruct (define_collections cs (schematic_new n)) as [[[]|e|] s'] eqn:Hd; [|done..]. injection Hs as ->.
  eapply define_collections_ok; [apply schematic_new_ok|done| |done]. intros. apply lookup_empty.
Qed.

Lemma view_by_name_listed s n v :
  schematic_ok s -> view_by_name s n = Ok v -> view_name v = n /\ v ∈ views_in_collection s (view_collection v).
Proof.
  intros Hok Hv. unfold view_by_name in Hv. apply ok_or_Ok_inv, bind_Some in Hv as (t & Ht & Hv). split.
  - destruct (ok_names s Hok t n Ht) as (w & Hw & <-). congruence.
  - unfold views_in_collection. apply list_elem_of_omap. exists t. split; [|done]. by apply (ok_listed s Hok).
Qed.

Lemma view_in_collection s c v :
  schematic_ok s -> v ∈ views_in_collection s c -> view_collection v = c /\
  exists t, t ∈ default [] (views_by_collection s !! c) /\ views s !! t = Some v.
Proof.
  intros Hok (t & Ht & Hv)%list_elem_of_omap. destruct (ok_registered s Hok c t Ht) as (w & Hw & <-).
  split; [congruence|eauto].
Qed.

(** Views are told apart by their names. *)
Lemma view_name_inj s c c' v v' :
  schematic_ok s -> v ∈ views_in_collection s c -> v' ∈ views_in_collection s c' ->
  view_name v = view_name v' -> v = v'.
Proof.
  intros Hok (_ & t & _ & Ht)%view_in_collection (_ & t' & _ & Ht')%view_in_collection Hn; [|done..].
  pose proof (ok_named s Hok _ _ Ht). pose proof (ok_named s Hok _ _ Ht'). congruence.
Qed.

Lemma view_names_NoDup s c : schematic_ok s -> NoDup (view_name <$> views_in_collection s c).
Proof.
  intros Hok. unfold views_in_collection. pose proof (ok_listed_once s Hok c) as Hn.
  pose proof (ok_registered s Hok c) as Hr. revert Hn Hr. generalize (default [] (views_by_collection s !! c)).
  intros l Hn Hr. induction Hn as [|t l Ht Hn IH]; [constructor|]. simpl.
  destruct (Hr t) as (v & Hv & _); [left|]. rewrite Hv. csimpl. constructor; [|apply IH; intros; apply Hr; by right].
  intros (w & Hw & (t' & Hin & Ht')%list_elem_of_omap)%list_elem_of_fmap.
  pose proof (ok_named s Hok _ _ Hv). pose proof (ok_named s Hok _ _ Ht'). congruence.
Qed.

(** A schematic built from collections whose view types are all different
    is consistent: the eager views of a collection are exactly its views with
    an eager policy, in registration order, every view is listed under its own
    collection, and a view found by name has that name. *)
Theorem schematic_indexes_agree n cs s :
  NoDup (type_ids cs) -> from_schema n cs = Ok s ->
  (forall c, eager_views_in_collection s c =
     filter (fun v => is_eager (update_policy v) = true) (views_in_collection s c)) /\
  (forall c v, v ∈ views_in_collection s c -> view_collection v = c) /\
  (forall vn v, view_by_name s vn = Ok v -> view_name v = vn).
Proof.
  intros Hnd Hs. pose proof (from_schema_ok n cs s Hnd Hs) as Hok.
  split_and!.
  - intros c. by apply eager_views_filter.
  - intros c v Hv. by apply (view_in_collection s c v Hok).
  - intros vn v Hv. unfold view_by_name in Hv. apply ok_or_Ok_inv, bind_Some in Hv as (t & Ht & Hv).
    destruct (ok_names s Hok t vn Ht) as (w & Hw & <-). congruence.
Qed.

Lemma schematic_indexes_agree_witness :
  exists s, from_schema (qualified_new [97] [97]) [MkCollection 0 (qualified_new [97] [98]) None key_u64
    [(1, MkView (MkViewName (qualified_new [97] [98]) (name_from [99])) (qualified_new [97] [98]) 0 Unique
           (fun _ => Ok []) (fun _ _ => Err ReduceUnimplemented))]] = Ok s /\
  length (eager_views_in_collection s (qualified_new [97] [98])) = 1%nat /\
  eager_views_in_collection s (qualified_new [97] [98]) =
    filter (fun v => is_eager (update_policy v) = true) (views_in_collection s (qualified_new [97] [98])).
Proof.
  eexists. split; [reflexivity|]. split; [vm_compute; reflexivity|].
  refine (proj1 (schematic_indexes_agree (qualified_new [97] [97]) [MkCollection 0 (qualified_new [97] [98]) None key_u64
    [(1, MkView (MkViewName (qualified_new [97] [98]) (name_from [99])) (qualified_new [97] [98]) 0 Unique
           (fun _ => Ok []) (fun _ _ => Err ReduceUnimplemented))]] _ _ _) _).
  - apply NoDup_singleton.
  - reflexivity.
Defined.

(** ** Generated ids *)

Lemma next_id_Ok c k last bs :
  next_id c k (Some last) = Ok bs -> exists x y,
  from_ord_bytes k (Borrowed last) = Ok x /\ next_value k x = Ok y /\ as_ord_bytes k y = Ok bs /\
  blen bs <= MAX_LENGTH.
Proof.
  unfold next_id. intros Hn. inv_res. unfold document_id_try_from in Hn.
  match type of Hn with context [blen ?b <=? _] => destruct (Z.leb_spec (blen b) MAX_LENGTH) end; [|done].
  inv_res. eauto 10.
Qed.

(** For a primary key type that keeps the [Key] contract, the id generated
    after the last key of a collection is greater than every id stored in it:
    pushing a document cannot collide with an existing one. *)
Theorem generated_id_is_fresh c k x last bs :
  KeyRoundTrip k -> KeyOrdered k -> KeySequence k ->
  k_wf k x -> as_ord_bytes k x = Ok last -> alloc_ok last ->
  next_id c k (Some last) = Ok bs ->
  forall stored, bytes_leb stored last = true -> bytes_cmp stored bs = Lt.
Proof.
  intros Hrt Hord Hseq Hwf Hx Halloc Hn stored Hs.
  destruct (next_id_Ok _ _ _ _ Hn) as (x' & y & Hx' & Hy & Hbs & _).
  rewrite (key_roundtrip x last (Borrowed last) Hwf Hx Halloc eq_refl) in Hx'. apply Ok_inj in Hx' as <-.
  destruct (key_next_greater x y Hwf Hy) as [Hwfy Hlt].
  assert (bytes_cmp last bs = Lt) as Hlast by by rewrite (key_ordered x y last bs).
  unfold bytes_leb in Hs. destruct (bytes_cmp stored last) eqn:E; [|by eapply bytes_cmp_trans|done].
  apply bytes_cmp_eq in E as ->. done.
Qed.

Lemma generated_id_is_fresh_witness :
  next_id (qualified_new [97] [98]) key_u64 (Some [0; 0; 0; 0; 0; 0; 0; 255]) = Ok [0; 0; 0; 0; 0; 0; 1; 0] /\
  bytes_cmp [0; 0; 0; 0; 0; 0; 0; 9] [0; 0; 0; 0; 0; 0; 1; 0] = Lt.
Proof.
  split; [vm_compute; reflexivity|].
  apply (generated_id_is_fresh (qualified_new [97] [98]) key_u64 255 [0; 0; 0; 0; 0; 0; 0; 255]
    [0; 0; 0; 0; 0; 0; 1; 0] _ _ _); vm_compute; (reflexivity || discriminate).
Defined.

(** With signed integers as primary keys the generator stalls: once a
    document with id [-1] exists it is the last key whatever other ids are
    stored, and every push is given the id [0]. *)
Theorem signed_push_stalls c :
  next_id c key_i64 (Some (to_be_bytes i64 (-1))) = Ok (to_be_bytes i64 0) /\
  forall y, in_range i64 y = true -> bytes_leb (to_be_bytes i64 y) (to_be_bytes i64 (-1)) = true.
Proof.
  split; [reflexivity|]. intros y Hy. unfold bytes_leb.
  pose proof (Z.mod_pos_bound y (2 ^ 64) ltac:(done)) as Hm. unfold to_be_bytes.
  rewrite to_be_cmp; [|exact Hm|done]. change ((-1) `mod` 2 ^ int_bits i64) with (2 ^ 64 - 1).
  change (int_bits i64) with 64. destruct (Z.compare_spec (y `mod` 2 ^ 64) (2 ^ 64 - 1)); [done..|lia].
Qed.

(** A collection whose key is an enum that cannot be described cannot be
    defined: registering it panics. *)
Lemma undescribed_key_panics `{Profile} `{OrderedVarint} nh own repr vs ds c s :
  vs <> [] -> Forall2 records (concat (map describe_variant vs)) ds -> List.length ds <> List.length vs ->
  primary_key c = key_enum_composite nh own repr vs -> contained_collections s !! collection_name c = None ->
  (define_collection c s).1 = Panic.
Proof.
  intros Hne Hvs Hlen Hk Hc. unfold define_collection. rewrite bool_decide_false by (rewrite Hc; by intros []).
  by rewrite Hk, (enum_description nh own repr vs ds Hne Hvs), decide_False.
Qed.
