(* ===== verification/Permissions.v ===== *)
(** * Permissions

    The names of resources and the actions of
    [bonsaidb-core/src/permissions/bonsai.rs], and the checks a session makes
    ([connection.rs], [connection/has_session.rs]).  Identifiers and permission
    statements are those of the third-party crate [actionable]: the class
    [Actionable]. *)

From Stdlib Require Import ZArith Lia String.
From stdpp Require Import base list option numbers.
From S2P Require Import Prelude Bytes Utf8 Nebari Document Names Schema.

Local Open Scope Z_scope.

(** ** Actions *)

Inductive AuthenticationMethod := Token | PasswordHash.
Inductive ServerAction :=
| Connect | ListAvailableSchemas | ListDatabases | CreateDatabase | DeleteDatabase
| CreateUser | DeleteUser | SetPassword | Authenticate (m : AuthenticationMethod) | AssumeIdentity
| ModifyUserPermissionGroups | ModifyUserRoles.
Inductive DocumentAction :=
| DocGet | DocList | DocListHeaders | DocCount | DocInsert | DocUpdate | DocOverwrite | DocDelete.
Inductive ViewAction := ViewQuery | ViewReduce | ViewDeleteDocs.
Inductive TransactionAction := ListExecuted | GetLastId.
Inductive PubSubAction := CreateSuscriber | Publish | SubscribeTo | UnsubscribeFrom.
Inductive KeyValueAction := ExecuteOperation.
Inductive DatabaseAction :=
| Compact
| DocumentAct (a : DocumentAction)
| ViewAct (a : ViewAction)
| TransactionAct (a : TransactionAction)
| PubSubAct (a : PubSubAction)
| KeyValueAct (a : KeyValueAction).
Inductive BonsaiAction := ServerAct (a : ServerAction) | DatabaseAct (a : DatabaseAction).
Inductive EncryptionKeyAction := Encrypt | Decrypt.

#[export] Instance BonsaiAction_eq_dec : EqDecision BonsaiAction.
Proof. intros a b. unfold Decision. repeat decide equality. Defined.

(** ** The crate [actionable] *)

Class Actionable := {
  Identifier : Type;
  ident_str : str -> Identifier;
  ident_bytes : bytes -> Identifier;
  ident_u64 : Z -> Identifier;
  Permissions : Type;
  allowed_to : Permissions -> list Identifier -> BonsaiAction -> bool;
  allowed_to_use_key : Permissions -> list Identifier -> EncryptionKeyAction -> bool;
  Statement : Type;
  permissions_from : list Statement -> Permissions;
  permissions_default : Permissions;
  permissions_merged : list Permissions -> Permissions
}.

(** No permissions allow nothing; merged ones allow what one of them does. *)
Class ActionableLaws `{Actionable} : Prop := {
  default_allows r a : allowed_to permissions_default r a = false;
  merged_allows ps r a :
    allowed_to (permissions_merged ps) r a = true <-> exists p, p ∈ ps /\ allowed_to p r a = true
}.

(** [Display] without [#] writes names as they are. *)
Definition qualified_display (q : QualifiedName) : str := name (authority q) ++ dot :: name (qname q).
Definition view_display (v : ViewName) : str := qualified_display (collection v) ++ dot :: name (vname v).

Section Resources.
Context `{Actionable}.
Abbreviation ResourceName := (list Identifier) (only parsing).

Definition bonsaidb_resource_name : ResourceName := [ident_str (lit "bonsaidb")].
Definition database_resource_name (database : str) : ResourceName := bonsaidb_resource_name ++ [ident_str database].
Definition collection_resource_name (database : str) (c : CollectionName) : ResourceName :=
  database_resource_name database ++ [ident_str (qualified_display c)].
Definition document_resource_name (database : str) (c : CollectionName) (d : bytes) : ResourceName :=
  collection_resource_name database c ++ [ident_str (lit "document")] ++ [ident_bytes d].
Definition view_resource_name (database : str) (v : ViewName) : ResourceName :=
  database_resource_name database ++ [ident_str (qualified_display (collection v))] ++
  [ident_str (lit "view")] ++ [ident_str (name (vname v))].
Definition pubsub_topic_resource_name (database : str) (topic : bytes) : ResourceName :=
  database_resource_name database ++ [ident_str (lit "pubsub")] ++ [ident_bytes topic].
Definition kv_resource_name (database : str) : ResourceName :=
  database_resource_name database ++ [ident_str (lit "keyvalue")].
Definition keyvalue_key_resource_name (database : str) (namespace : option str) (key : str) : ResourceName :=
  kv_resource_name database ++ [ident_str (default [] namespace)] ++ [ident_str key].
Definition encryption_key_resource_name {E} (k : KeyId) : res E ResourceName :=
  key ← match k with KeyIdMaster => Ok (lit "_master") | KeyIdId i => Ok i | KeyIdNone => Panic end;
  Ok (bonsaidb_resource_name ++ [ident_str (lit "vault")] ++ [ident_str (lit "key")] ++ [ident_str key]).
Definition user_resource_name (user_id : Z) : ResourceName :=
  bonsaidb_resource_name ++ [ident_str (lit "user")] ++ [ident_u64 user_id].
Definition role_resource_name (role_id : Z) : ResourceName :=
  bonsaidb_resource_name ++ [ident_str (lit "role")] ++ [ident_u64 role_id].
Definition authentication_token_resource_name (token_id : Z) : ResourceName :=
  bonsaidb_resource_name ++ [ident_str (lit "authentication-token")] ++ [ident_u64 token_id].

(** ** Sessions *)

Inductive Identity := IdentityUser (id : Z) (username : str) | IdentityRole (id : Z) (rname : str).
Inductive SessionAuthentication :=
| AuthNone
| AuthIdentity (i : Identity)
| AuthTokenChallenge (id : Z) (nonce : bytes) (server_timestamp : Z).
Record Session := MkSession {
  session_id : option Z;
  authentication : SessionAuthentication;
  permissions : Permissions
}.

(** [PartialEq] of identities and of sessions. *)
Definition identity_eqb (i j : Identity) : bool :=
  match i, j with
  | IdentityUser x _, IdentityUser y _ | IdentityRole x _, IdentityRole y _ => x =? y
  | _, _ => false
  end.

Definition session_identity (s : Session) : option Identity :=
  match authentication s with AuthIdentity i => Some i | _ => None end.

(** A denied action. *)
Inductive Denied := PermissionDenied (resource : ResourceName) (action : BonsaiAction).

Definition session_check_permission (s : Session) (r : ResourceName) (a : BonsaiAction) : res Denied unit :=
  if allowed_to (permissions s) r a then Ok tt else Err (PermissionDenied r a).

(** [HasSession::allowed_to] and [HasSession::check_permission]: without a
    session everything is allowed. *)
Definition connection_allowed_to (s : option Session) (r : ResourceName) (a : BonsaiAction) : bool :=
  match s with Some s => allowed_to (permissions s) r a | None => true end.
Definition check_permission (s : option Session) (r : ResourceName) (a : BonsaiAction) : res Denied unit :=
  match s with Some s => session_check_permission s r a | None => Ok tt end.

Lemma check_permission_allowed s r a :
  check_permission s r a = if connection_allowed_to s r a then Ok tt else Err (PermissionDenied r a).
Proof. by destruct s. Qed.

End Resources.

(** The name of a collection's resource does not determine the
    collection: the parts of its name are joined with a dot and not escaped. *)
Theorem collection_resource_names_collide `{Actionable} database a b c :
  let x := qualified_new (a ++ dot :: b) c in
  let y := qualified_new a (b ++ dot :: c) in
  collection_resource_name database x = collection_resource_name database y /\
  x <> y.
Proof.
  split.
  - unfold collection_resource_name, qualified_display, qualified_new, name_from. simpl. by rewrite <- app_assoc.
  - intros Heq. unfold qualified_new, name_from in Heq. injection Heq as Hn _.
    apply (f_equal length) in Hn. rewrite length_app in Hn. simpl in Hn. lia.
Qed.
