(* ===== verification/View.v ===== *)
(** * The view mapper

    [bonsaidb-local/src/views/mapper.rs] and the stored entries of
    [bonsaidb-local/src/views.rs].  A view keeps two trees: for every emitted
    key the entry with the mappings of the documents that emit it, and for
    every document the set of keys it emits.  Mapping runs inside a transaction
    of the storage engine; the three threads of [DocumentRequest::map] hand
    batches over channels in order, and only the saving one writes, so that a
    request is the sequence of its batches.  The model returns the first error
    of that sequence; the channels hold one batch, and a request that fails
    with two more batches to send blocks instead (its transaction is not
    committed either way). *)

From Stdlib Require Import ZArith Lia Sorting.Sorted.
From stdpp Require Import base list option numbers gmap sorting.
From S2P Require Import Prelude Bytes Nebari Document Names Schema.

Local Open Scope Z_scope.

(** ** Stored data *)

Record EntryMapping := MkEntryMapping { em_source : Header; em_value : bytes }.
Record ViewEntry := MkViewEntry {
  view_version : Z;
  ve_key : bytes;
  mappings : list EntryMapping;
  reduced_value : bytes
}.

(** [bincode]'s form of the entries and of the sets of keys. *)
Class ViewCodec := {
  serialize_view_entry : ViewEntry -> option bytes;
  deserialize_view_entry : bytes -> option ViewEntry;
  serialize_keys : gset bytes -> option bytes;
  deserialize_keys : bytes -> option (gset bytes)
}.
Class ViewCodecLaws `{ViewCodec} := {
  view_entry_roundtrip e : exists b, serialize_view_entry e = Some b /\ deserialize_view_entry b = Some e;
  keys_roundtrip s b : serialize_keys s = Some b -> deserialize_keys b = Some s
}.
Arguments ViewCodecLaws _ : clear implicits.

(** ** Errors *)

Inductive DbError `{Nebari} :=
| DbNebari (e : nebari_error)
| DbSerialization
| DbView (e : ViewError)
| UniqueKeyViolation (view : ViewName) (conflicting_document existing_document : Header)
| DbSchema (e : SchemaError)
| DocumentNotFound (c : CollectionName) (id : bytes)
| DocumentConflict (c : CollectionName) (h : Header)
| CollectionNotFound
| TransactionTooLarge
| DbDocumentId (e : DocumentIdError).

(** A [BTreeSet] of byte strings is iterated in order. *)
Definition btree_set_iter (s : gset bytes) : list bytes := merge_sort bytes_le (elements s).

(** [slice::chunks]. *)
Fixpoint chunks_fuel {A} (fuel : nat) (n : nat) (l : list A) : list (list A) :=
  match fuel, l with
  | S fuel, _ :: _ => take n l :: chunks_fuel fuel n (drop n l)
  | _, _ => []
  end.
Definition chunks {A} (n : nat) (l : list A) : list (list A) := chunks_fuel (length l) n l.

Section Mapper.
Context `{Nebari} `{DocumentCodec} `{ViewCodec}.

(** ** Updating one entry *)

Record Updater := MkUpdater {
  view_entries_to_clean : gmap bytes (gset bytes);
  new_mappings : gmap bytes (list Mapping);
  updater_result : option DbError;
  has_reduce : bool
}.

(** The body of the callback may return early: an [Err] is the operation it
    then returns to the tree. *)
Abbreviation updm := (stm Updater TreeOperation).
Definition early {A} (op : TreeOperation) : updm A := fun u => (Err op, u).
Definition fail_with (e : DbError) : updm unit :=
  st_modify (fun u => MkUpdater (view_entries_to_clean u) (new_mappings u) (Some e) (has_reduce u)).

(** The [if self.has_reduce { match self.view.reduce(..) .. }] blocks. *)
Definition apply_reduce (v : View) (key : bytes) (entry : ViewEntry) : updm ViewEntry :=
  u ← st_get;
  if has_reduce u then
    match view_reduce v ((fun m => (key, em_value m)) <$> mappings entry) false with
    | Ok reduced => mret (MkViewEntry (view_version entry) (ve_key entry) (mappings entry) reduced)
    | Err ReduceUnimplemented =>
        st_put (MkUpdater (view_entries_to_clean u) (new_mappings u) (updater_result u) false);;
        mret entry
    | Err other => fail_with (DbView other);; early OpSkip
    | Panic => st_lift Panic
    end
  else mret entry.

(** Updates the first mapping of the same document, or pushes a new one. *)
Fixpoint set_mapping (m : EntryMapping) (ms : list EntryMapping) : list EntryMapping :=
  match ms with
  | [] => [m]
  | x :: ms =>
      if decide (id (em_source x) = id (em_source m))
      then MkEntryMapping (MkHeader (id (em_source x)) (revision (em_source m))) (em_value m) :: ms
      else x :: set_mapping m ms
  end.

(** Before altering any data, a unique view verifies that the key is free. *)
Definition check_unique (v : View) (m : Mapping) (ms : list EntryMapping) : updm unit :=
  match update_policy v, ms with
  | Unique, existing :: _ =>
      if decide (id (em_source existing) <> id (source m))
      then fail_with (UniqueKeyViolation (view_name v) (source m) (em_source existing));; early OpSkip
      else mret tt
  | _, _ => mret tt
  end.

Fixpoint add_mappings (v : View) (new : list Mapping) (ms : list EntryMapping) : updm (list EntryMapping) :=
  match new with
  | [] => mret ms
  | m :: new =>
      check_unique v m ms;;
      add_mappings v new (set_mapping (MkEntryMapping (source m) (map_value m)) ms)
  end.

(** [if let Some(document_ids) = self.view_entries_to_clean.remove(&key) { .. }] *)
Definition clean_entry (v : View) (key : bytes) (entry : ViewEntry) : updm ViewEntry :=
  u ← st_get;
  match view_entries_to_clean u !! key with
  | Some document_ids =>
      st_put (MkUpdater (delete key (view_entries_to_clean u)) (new_mappings u)
                (updater_result u) (has_reduce u));;
      let ms := filter (fun m => id (em_source m) ∉ document_ids) (mappings entry) in
      if bool_decide (ms = []) && bool_decide (new_mappings u !! key = None)
      then early OpRemove
      else apply_reduce v key
             (MkViewEntry (view_version entry) (ve_key entry) ms (reduced_value entry))
  | None => mret entry
  end.

(** [if let Some(new_mappings) = self.new_mappings.remove(&key[..]) { .. }] *)
Definition extend_entry (v : View) (key : bytes) (entry : ViewEntry) : updm ViewEntry :=
  u ← st_get;
  match new_mappings u !! key with
  | Some new =>
      st_put (MkUpdater (view_entries_to_clean u) (delete key (new_mappings u))
                (updater_result u) (has_reduce u));;
      ms ← add_mappings v new (mappings entry);
      apply_reduce v key (MkViewEntry (view_version entry) (ve_key entry) ms (reduced_value entry))
  | None => mret entry
  end.

Definition compare_swap_body (v : View) (key : bytes) (existing : option bytes) : updm TreeOperation :=
  let view_entry := default (MkViewEntry (version v) key [] []) (existing ≫= deserialize_view_entry) in
  view_entry ← clean_entry v key view_entry;
  view_entry ← extend_entry v key view_entry;
  value ← st_lift (unwrap (serialize_view_entry view_entry));
  mret (OpSet value).

Definition compare_swap_view_entry (v : View) (key : bytes) (existing : option bytes)
    : stm Updater nebari_error TreeOperation := fun u =>
  match compare_swap_body v key existing u with
  | (Ok op, u) | (Err op, u) => (Ok op, u)
  | (Panic, u) => (Panic, u)
  end.

(** ** Batches *)

Record Batch := MkBatch {
  document_ids : list bytes;
  document_maps : gmap bytes bytes;
  document_keys : gmap bytes (gset bytes);
  batch_mappings : gmap bytes (list Mapping);
  all_keys : gset bytes
}.

Definition db_tx {A} (m : res nebari_error A) : res DbError A := map_err DbNebari m.

(** Pairs every id of a chunk, from the last, with its document; [documents]
    holds the documents found, the last one first. *)
Fixpoint pair_documents (rev_chunk : list bytes) (documents : list (bytes * bytes))
    : list (bytes * option bytes) :=
  match rev_chunk with
  | [] => []
  | document_id :: rest =>
      match documents with
      | (key, document) :: others =>
          if decide (key = document_id) then (document_id, Some document) :: pair_documents rest others
          else (document_id, None) :: pair_documents rest documents
      | [] => (document_id, None) :: pair_documents rest []
      end
  end.

(** One round of [generate_batches]. *)
Definition generate_batch (tx : Transaction) (documents : nat) (chunk : list bytes)
    : res DbError (list (bytes * option bytes)) :=
  found ← db_tx (tx_get_multiple tx documents chunk);
  Ok (pair_documents (rev chunk) (rev (merge_sort key_le found))).

(** What a mapping thread computes for one document. *)
Record MapResult := MkMapResult {
  mr_id : bytes; mr_map : bytes; mr_keys : gset bytes; mr_mappings : list Mapping }.

Definition map_document (v : View) (d : bytes * option bytes) : res DbError MapResult :=
  map_result ←
    match d.2 with
    | Some document =>
        doc ← ok_or DbSerialization (deserialize_document document);
        map_err DbView (view_map v doc)
    | None => Ok []
    end;
  let keys : gset bytes := list_to_set (map_key <$> map_result) in
  new_keys ← ok_or DbSerialization (serialize_keys keys);
  Ok (MkMapResult d.1 new_keys keys map_result).

Fixpoint map_documents (v : View) (ds : list (bytes * option bytes)) : res DbError (list MapResult) :=
  match ds with
  | [] => Ok []
  | d :: ds => r ← map_document v d; rs ← map_documents v ds; Ok (r :: rs)
  end.

Definition push_mapping (ms : gmap bytes (list Mapping)) (m : Mapping) : gmap bytes (list Mapping) :=
  <[map_key m := default [] (ms !! map_key m) ++ [m]]> ms.

Definition add_result (b : Batch) (r : MapResult) : Batch :=
  MkBatch (document_ids b) (<[mr_id r := mr_map r]> (document_maps b))
    (<[mr_id r := mr_keys r]> (document_keys b))
    (foldl push_mapping (batch_mappings b) (mr_mappings r))
    (mr_keys r ∪ all_keys b).

Definition collect_batch (ids : list bytes) (results : list MapResult) : Batch :=
  foldl add_result (MkBatch ids ∅ ∅ ∅ ∅) results.

(** ** Saving a batch *)

Definition document_map_callback (maps : gmap bytes bytes) (key : bytes) (existing : option bytes)
    : stm (list (bytes * bytes)) nebari_error TreeOperation :=
  match existing with
  | Some existing_map => st_modify (fun l => l ++ [(key, existing_map)])
  | None => mret tt
  end;;
  new_map ← st_lift (unwrap (maps !! key));
  mret (OpSet new_map).

Definition clean_key (document_id : bytes) (key : bytes) (m : gmap bytes (gset bytes)) :=
  <[key := {[document_id]} ∪ default ∅ (m !! key)]> m.

Fixpoint keys_to_clean (maps_to_clear : list (bytes * bytes)) (document_keys : gmap bytes (gset bytes))
    (keys : gset bytes) (to_clean : gmap bytes (gset bytes))
    : res DbError (gset bytes * gmap bytes (gset bytes)) :=
  match maps_to_clear with
  | [] => Ok (keys, to_clean)
  | (document_id, existing_map) :: rest =>
      existing_keys ← ok_or DbSerialization (deserialize_keys existing_map);
      new_keys ← unwrap (document_keys !! document_id);
      keys_to_clean rest (delete document_id document_keys) ((existing_keys ∖ new_keys) ∪ keys)
        (foldr (clean_key document_id) to_clean (elements (existing_keys ∖ new_keys)))
  end.

Definition update_document_map (tx : Transaction) (document_map : nat) (b : Batch)
    : res DbError (Transaction * gset bytes * gmap bytes (gset bytes)) :=
  '(tx, maps_to_clear) ← db_tx (tx_modify tx document_map (document_ids b)
                                  (document_map_callback (document_maps b)) []);
  '(keys, to_clean) ← keys_to_clean maps_to_clear (document_keys b) (all_keys b) ∅;
  Ok (tx, keys, to_clean).

Definition update_view_entries (v : View) (tx : Transaction) (view_entries : nat) (keys : gset bytes)
    (to_clean : gmap bytes (gset bytes)) (new : gmap bytes (list Mapping)) : res DbError Transaction :=
  '(tx, updater) ← db_tx (tx_modify tx view_entries (btree_set_iter keys) (compare_swap_view_entry v)
                            (MkUpdater to_clean new None true));
  match updater_result updater with
  | Some e => Err e
  | None => Ok tx
  end.

Definition save_mappings (v : View) (tx : Transaction) (document_map view_entries : nat) (b : Batch)
    : res DbError Transaction :=
  '(tx, keys, to_clean) ← update_document_map tx document_map b;
  update_view_entries v tx view_entries keys to_clean (batch_mappings b).

(** [DocumentRequest::map].  [schedule] is the order in which the mapping
    threads of a batch return their results. *)
Section Request.
Context (schedule : list MapResult -> list MapResult).

Definition map_batch (v : View) (documents document_map view_entries : nat) (chunk : list bytes)
    (tx : Transaction) : res DbError Transaction :=
  pairs ← generate_batch tx documents chunk;
  results ← map_documents v pairs;
  save_mappings v tx document_map view_entries (collect_batch chunk (schedule results)).

Fixpoint map_chunks (v : View) (documents document_map view_entries : nat) (cs : list (list bytes))
    (tx : Transaction) : res DbError Transaction :=
  match cs with
  | [] => Ok tx
  | chunk :: cs =>
      tx ← map_batch v documents document_map view_entries chunk tx;
      map_chunks v documents document_map view_entries cs tx
  end.

Definition map_request (v : View) (documents document_map view_entries : nat) (ids : list bytes)
    (tx : Transaction) : res DbError Transaction :=
  map_chunks v documents document_map view_entries (chunks 1024 ids) tx.

(** [map_view]: the invalidated documents in chunks of 100,000 from the end,
    one transaction each. *)
Definition CHUNK_SIZE : nat := Z.to_nat 100_000.

(** The body of the loop, for the documents drained. *)
Definition map_view_round (v : View) (document_ids : list bytes) : stm Roots DbError unit :=
  r ← st_get;
  tx ← st_lift (db_tx (transaction r
    [view_invalidated_docs_tree_name (view_name v); view_document_map_tree_name (view_name v);
     document_tree_name (view_collection v); view_entries_tree_name (view_name v)]));
  tx ← st_lift (map_request v 2 1 3 document_ids tx);
  '(tx, _) ← st_lift (db_tx (tx_modify tx 0 document_ids (fun _ _ => mret OpRemove) tt));
  r' ← st_lift (db_tx (tx_commit r tx));
  st_put r'.

Fixpoint map_view_loop (fuel : nat) (v : View) (invalidated_ids : list bytes) : stm Roots DbError unit :=
  match fuel, invalidated_ids with
  | S fuel, _ :: _ =>
      let keep := (length invalidated_ids - CHUNK_SIZE)%nat in
      map_view_round v (drop keep invalidated_ids);;
      map_view_loop fuel v (take keep invalidated_ids)
  | _, _ => mret tt
  end.

Definition map_view (v : View) : stm Roots DbError unit :=
  r ← st_get;
  invalidated ← st_lift (db_tx (roots_scan r (view_invalidated_docs_tree_name (view_name v))));
  map_view_loop (length invalidated) v invalidated.*1.

End Request.
End Mapper.
