(* ===== verification/Query.v ===== *)
(** * Reading documents, view entries and the transaction log

    The reading half of [bonsaidb-local/src/database.rs]: retrieving, listing
    and counting documents, [create_view_iterator], and the log of executed
    transactions.  [limit] is a [u32]; the counters of the scans stop at it. *)

From Stdlib Require Import ZArith Lia Sorting.Sorted.
From stdpp Require Import base list option numbers gmap sorting.
From S2P Require Import Prelude Bytes Key Range Nebari Document Names Changes Schema Permissions View.

Local Open Scope Z_scope.

(** ** Errors *)

(** [networking::Error]. *)
Inductive NetworkingError := UnexpectedResponse (message : str) | ConnectTimeout | RequestTimeout | Disconnected.

(** The variants of [bonsaidb_core::Error] a storage adds. *)
Inductive StorageFault :=
| FaultTime (e : TimeError)
| FaultSchema (e : SchemaError)
| FaultSchemaNotRegistered (s : SchemaName)
| FaultSchemaAlreadyRegistered (s : SchemaName)
| FaultSchemaMismatch (database : str) (schema stored_schema : SchemaName)
| FaultInvalidDatabaseName (name : str)
| FaultDatabaseNotFound (name : str)
| FaultDatabaseNameAlreadyTaken (name : str)
| FaultUserNotFound
| FaultInvalidCredentials
| FaultPassword.

(** [bonsaidb_core::Error]: those of a database, then those that reach its
    clients through a storage, the key-value store or a network. *)
Inductive CoreError `{Nebari} `{Actionable} :=
| CoreDb (e : DbError)
| CoreDenied (d : Denied)
| CoreCompat (e : CompatError)
| CoreKey (e : KeyError)
| CoreStorage (f : StorageFault)
| CoreNotANumber
| CoreNetworking (e : NetworkingError)
| CoreApiNotFound (name : QualifiedName)
| CoreOther (origin error : str).

(** ** Scans with a limit *)

(** The key evaluator of the scans. *)
Definition limit_evaluator (limit : option Z) (_ : bytes) (values_read : Z) : ScanEvaluation * Z :=
  match limit with
  | Some limit => if limit <=? values_read then (ScanStop, values_read) else (ScanReadData, values_read + 1)
  | None => (ScanReadData, values_read)
  end.
(** The callback that pushes what it reads. *)
Definition push_value {E A} (f : bytes -> res E A) (_ value : bytes) : stm (list A) E unit :=
  a ← st_lift (f value); st_modify (fun found => found ++ [a]).

Definition forwards (s : Sort) : bool := match s with Ascending => true | Descending => false end.

Section Reads.
Context `{Nebari} `{DocumentCodec} `{ViewCodec} `{ChangesCodec} `{Actionable}.

(** An aborted scan: the callback's error or the engine's. *)
Definition scan_error (e : nebari_error + DbError) : DbError :=
  match e with inl e => DbNebari e | inr e => e end.
Definition scan_values {A} (r : Roots) (tree : str) (range : Range bytes) (order : Sort) (limit : option Z)
    (f : bytes -> res DbError A) : res DbError (list A) :=
  '(_, found) ← map_err scan_error
    (roots_scan_range r tree range (forwards order) (limit_evaluator limit) (push_value f) 0 []);
  Ok found.

(** ** View entries *)

Definition create_view_iterator (r : Roots) (view_entries : str) (key : option SerializedQueryKey)
    (order : Sort) (limit : option Z) : res DbError (list ViewEntry) :=
  values ←
    match key with
    | Some (InRange range) => scan_values r view_entries range order limit Ok
    | Some (Matches key) => value ← db_tx (roots_get r view_entries key); Ok (option_list value)
    | Some (Multiple list) =>
        pairs ← db_tx (roots_get_multiple r view_entries (merge_sort bytes_le list));
        Ok pairs.*2
    | None => scan_values r view_entries from_range_full order limit Ok
    end;
  collect (fun value => ok_or DbSerialization (deserialize_view_entry value)) values.

(** ** Documents *)

Section Database.
Context (database : str) (session : option Session).

Definition permit (resource : list Identifier) (a : DatabaseAction) : res CoreError unit :=
  map_err CoreDenied (check_permission session resource (DatabaseAct a)).

Definition read_document (b : bytes) : res DbError Doc := ok_or DbSerialization (deserialize_document b).

Definition get_from_collection (r : Roots) (d : bytes) (c : CollectionName) : res CoreError (option Doc) :=
  permit (document_resource_name database c d) (DocumentAct DocGet);;
  value ← map_err CoreDb (db_tx (roots_get r (document_tree_name c) d));
  match value with
  | Some vec => doc ← map_err CoreDb (read_document vec); Ok (Some doc)
  | None => Ok None
  end.

Definition list_from_collection (r : Roots) (ids : Range bytes) (sort : Sort) (limit : option Z)
    (c : CollectionName) : res CoreError (list Doc) :=
  permit (collection_resource_name database c) (DocumentAct DocList);;
  map_err CoreDb (scan_values r (document_tree_name c) ids sort limit read_document).

Definition list_headers_from_collection (r : Roots) (ids : Range bytes) (sort : Sort) (limit : option Z)
    (c : CollectionName) : res CoreError (list Header) :=
  permit (collection_resource_name database c) (DocumentAct DocListHeaders);;
  map_err CoreDb (scan_values r (document_tree_name c) ids sort limit
                    (fun b => doc ← read_document b; Ok (header doc))).

Definition count_from_collection (r : Roots) (ids : Range bytes) (c : CollectionName) : res CoreError Z :=
  permit (collection_resource_name database c) (DocumentAct DocCount);;
  map_err CoreDb (db_tx (roots_alive_keys r (document_tree_name c) ids)).

Fixpoint permit_each (c : CollectionName) (ids : list bytes) : res CoreError unit :=
  match ids with
  | [] => Ok tt
  | d :: ids => permit (document_resource_name database c d) (DocumentAct DocGet);; permit_each c ids
  end.

Definition get_multiple_from_collection (r : Roots) (ids : list bytes) (c : CollectionName)
    : res CoreError (list Doc) :=
  permit_each c ids;;
  pairs ← map_err CoreDb (db_tx (roots_get_multiple r (document_tree_name c) (merge_sort bytes_le ids)));
  map_err CoreDb (collect read_document pairs.*2).

(** ** The log of executed transactions *)

Definition LIST_TRANSACTIONS_MAX_RESULTS : Z := 1000.
Definition LIST_TRANSACTIONS_DEFAULT_RESULT_COUNT : Z := 100.

Record Executed := MkExecuted { executed_id : Z; executed_changes : Changes }.

(** The callback of the log's scan. *)
Definition collect_entry (result_limit : Z) (entry : Z * option bytes) (entries : list (Z * option bytes))
    : bool * list (Z * option bytes) :=
  let entries := if bool_decide (is_Some entry.2) then entries ++ [entry] else entries in
  (Z.of_nat (length entries) <? result_limit, entries).

Definition read_entry (entry : Z * option bytes) : res CoreError (option Executed) :=
  match entry.2 with
  | Some data =>
      changes ← map_err CoreCompat (deserialize_executed_transaction_changes data);
      Ok (Some (MkExecuted entry.1 changes))
  | None => Ok None
  end.

Definition list_executed_transactions (r : Roots) (starting_id result_limit : option Z)
    : res CoreError (list Executed) :=
  permit (database_resource_name database) (TransactionAct ListExecuted);;
  let result_limit := Z.min (default LIST_TRANSACTIONS_DEFAULT_RESULT_COUNT result_limit)
                        LIST_TRANSACTIONS_MAX_RESULTS in
  if 0 <? result_limit then
    let range := match starting_id with Some i => from_range_from i | None => from_range_full end in
    entries ← map_err CoreDb (db_tx (transactions_scan r range (collect_entry result_limit) []));
    found ← collect read_entry entries;
    Ok (omap (M:=list) (fun x => x) found)
  else Ok [].

Definition last_transaction_id (r : Roots) : res CoreError (option Z) :=
  permit (database_resource_name database) (TransactionAct GetLastId);;
  Ok (current_transaction_id r).

End Database.
End Reads.
