(* ===== verification/Integrity.v ===== *)
(** * The integrity scanner

    [bonsaidb-local/src/views/integrity_scanner.rs]: before a view is used, the
    scanner compares the version stored for it with the version of its
    definition; if they differ it deletes the trees of the view and records
    every document of the collection as invalidated.  The scan reads and
    deletes outside of a transaction of the storage engine: its two parts,
    before and after the documents are listed, are kept apart so that other
    transactions can come between them. *)

From Stdlib Require Import ZArith Lia Sorting.Sorted.
From stdpp Require Import base list option numbers gmap sorting.
From S2P Require Import Prelude Bytes Utf8 Key Range Nebari Document Names Schema Permissions View Query.

Local Open Scope Z_scope.

(** ** Versions *)

Record ViewVersion := MkViewVersion { internal_version : Z; schema_version : Z }.
#[export] Instance ViewVersion_eq_dec : EqDecision ViewVersion.
Proof. solve_decision. Defined.

(** [pot::from_slice] distinguishes data that has no [pot] header. *)
Inductive PotResult (A : Type) := PotOk (a : A) | NotAPot | PotError.
Arguments PotOk {A} _.
Arguments NotAPot {A}.
Arguments PotError {A}.
Class VersionCodec := {
  pot_version_to_vec : ViewVersion -> option bytes;
  pot_version_from_slice : bytes -> PotResult ViewVersion
}.
Class VersionCodecLaws `{VersionCodec} :=
  pot_version_roundtrip v b : pot_version_to_vec v = Some b -> pot_version_from_slice b = PotOk v.
Arguments VersionCodecLaws _ : clear implicits.

Definition CURRENT_VERSION : Z := 3.
Definition current_for (schema_version : Z) : ViewVersion := MkViewVersion CURRENT_VERSION schema_version.
Definition is_current (v : ViewVersion) (schema_version' : Z) : bool :=
  (internal_version v =? CURRENT_VERSION) && (schema_version v =? schema_version').
(** [ViewVersion::default()] *)
Definition no_version : ViewVersion := MkViewVersion 0 0.

Section Scanner.
Context `{Nebari} `{VersionCodec}.

Definition version_from_bytes (bs : bytes) : res DbError ViewVersion :=
  match pot_version_from_slice bs with
  | PotOk version => Ok version
  | NotAPot =>
      if blen bs =? 8 then Ok (MkViewVersion 0 (from_be_bytes u64 bs)) else Err DbSerialization
  | PotError => Err DbSerialization
  end.
Definition version_to_vec (v : ViewVersion) : res DbError bytes := ok_or DbSerialization (pot_version_to_vec v).

Definition cleanup (version : ViewVersion) (view : ViewName) : stm Roots DbError unit :=
  if internal_version version <? 2 then
    r ← st_get;
    r' ← st_lift (db_tx (delete_tree r (view_omitted_tree_name view)));
    st_put r'
  else mret tt.

(** The evaluator pushes every key and skips its value. *)
Definition tree_keys (r : Roots) (tree : str) : res DbError (gset bytes) :=
  '(ids, _) ← map_err scan_error
    (roots_scan_range r tree from_range_full true
       (fun key ids => (ScanSkip, ids ++ [key])) (fun _ _ => st_lift Panic) [] tt);
  ids ← collect (fun key => map_err DbDocumentId (document_id_try_from key)) ids;
  Ok (list_to_set ids).

(** ** The scan *)

(** The version stored for a view: data that cannot be read counts as none. *)
Definition stored_version (value : option bytes) : ViewVersion :=
  default no_version (value ≫= fun b => res_ok (version_from_bytes b)).

Definition view_version_key (v : View) : bytes := as_bytes (view_display (view_name v)).

(** Up to the list of the documents, if the view is not current. *)
Definition scan_check (v : View) : stm Roots DbError (option (gset bytes)) :=
  r ← st_get;
  value ← st_lift (db_tx (roots_get r (view_versions_tree_name (view_collection v)) (view_version_key v)));
  let version := stored_version value in
  cleanup version (view_name v);;
  r ← st_get;
  if is_current version (Schema.version v) then mret None
  else
    missing_entries ← st_lift (tree_keys r (document_tree_name (view_collection v)));
    mret (Some missing_entries).

Definition remove_tree (tree : str) : stm Roots DbError unit :=
  r ← st_get;
  r' ← st_lift (db_tx (delete_tree r tree));
  st_put r'.

(** From the deletion of the view's trees to the commit. *)
Definition scan_rebuild (v : View) (missing_entries : gset bytes) : stm Roots DbError unit :=
  remove_tree (view_invalidated_docs_tree_name (view_name v));;
  remove_tree (view_entries_tree_name (view_name v));;
  remove_tree (view_document_map_tree_name (view_name v));;
  r ← st_get;
  tx ← st_lift (db_tx (transaction r [view_invalidated_docs_tree_name (view_name v);
                                       view_versions_tree_name (view_collection v)]));
  version ← st_lift (version_to_vec (current_for (Schema.version v)));
  tx ← st_lift (db_tx (tx_set tx 1 (view_version_key v) version));
  '(tx, _) ← st_lift (db_tx (tx_modify tx 0 (btree_set_iter missing_entries) (fun _ _ => mret (OpSet [])) tt));
  r' ← st_lift (db_tx (tx_commit r tx));
  st_put r'.

(** Returns whether the view has to be mapped. *)
Definition integrity_scan (v : View) : stm Roots DbError bool :=
  missing_entries ← scan_check v;
  match missing_entries with
  | None => mret false
  | Some missing_entries => scan_rebuild v missing_entries;; mret true
  end.

End Scanner.
