(* ===== verification/Jobs.v ===== *)
(** * The job manager

    [bonsaidb-local/src/tasks/manager.rs], [manager/jobs.rs] and
    [manager/managed_job.rs]: a queue of background jobs, the identifiers of the
    jobs in progress by key, and for every identifier the channels on which the
    result is to be sent.  Every method runs under the manager's lock.  The
    worker threads are the step relation at the end. *)

From Stdlib Require Import ZArith Lia.
From stdpp Require Import base list option numbers gmap.
From S2P Require Import Prelude.

Local Open Scope Z_scope.

(** [Keyed]: a job, its key and the type of its result.  [jobs_of] are the jobs
    it enqueues and then waits for, in order, before it does its own work. *)
Class Jobs_of (Job Key Outcome Ty : Type) := {
  job_key : Job -> Key;
  job_type : Job -> Ty;
  jobs_of : Job -> list Job;
  outcome_ok : Outcome -> bool
}.

Section Manager.
Context {Job Key Outcome Ty : Type} `{Countable Key} `{EqDecision Ty} `{Jobs_of Job Key Outcome Ty}.

Record ManagedJob := MkManagedJob { mj_id : Z; mj_job : Job; mj_key : option Key }.

(** The sending half of a channel, with the type it was created for. *)
Record Sender := MkSender { sender_channel : nat; sender_type : Ty }.
Record Handle := MkHandle { handle_id : Z; receiver : nat }.

Record Jobs := MkJobs {
  last_task_id : Z;
  result_senders : gmap Z (list Sender);
  keyed_jobs : gmap Key Z;
  queue : list ManagedJob;
  (** The channels created so far, and the results sent on them. *)
  next_channel : nat;
  mail : gmap nat Outcome
}.

Definition jobs_default : Jobs := MkJobs 0 ∅ ∅ [] 0 ∅.

Definition create_new_task_handle (i : Z) (ty : Ty) (j : Jobs) : Handle * Jobs :=
  let senders := default [] (result_senders j !! i) in
  (MkHandle i (next_channel j),
   MkJobs (last_task_id j) (<[i := senders ++ [MkSender (next_channel j) ty]]> (result_senders j))
     (keyed_jobs j) (queue j) (S (next_channel j)) (mail j)).

Definition enqueue (job : Job) (key : option Key) (j : Jobs) : Handle * Jobs :=
  let i := wrapping_add u64 (last_task_id j) 1 in
  create_new_task_handle i (job_type job)
    (MkJobs i (result_senders j) (keyed_jobs j) (queue j ++ [MkManagedJob i job key]) (next_channel j) (mail j)).

Definition lookup_or_enqueue (job : Job) (j : Jobs) : Handle * Jobs :=
  let key := job_key job in
  match keyed_jobs j !! key with
  | Some i => create_new_task_handle i (job_type job) j
  | None =>
      let (handle, j) := enqueue job (Some key) j in
      (handle, MkJobs (last_task_id j) (result_senders j) (<[key := handle_id handle]> (keyed_jobs j)) (queue j)
                 (next_channel j) (mail j))
  end.

(** Sending to the handles of a job; a sender of another type panics.  A
    channel holds one result and is sent one. *)
Fixpoint send_results (ty : Ty) (result : Outcome) (senders : list Sender) : stm Jobs Empty_set unit :=
  match senders with
  | [] => mret tt
  | s :: senders =>
      if decide (sender_type s = ty) then
        st_modify (fun j => MkJobs (last_task_id j) (result_senders j) (keyed_jobs j) (queue j) (next_channel j)
                              (<[sender_channel s := result]> (mail j)));;
        send_results ty result senders
      else st_lift Panic
  end.

Definition job_completed (i : Z) (key : option Key) (ty : Ty) (result : Outcome) : stm Jobs Empty_set unit :=
  match key with
  | Some key => st_modify (fun j => MkJobs (last_task_id j) (result_senders j) (delete key (keyed_jobs j)) (queue j)
                                      (next_channel j) (mail j))
  | None => mret tt
  end;;
  j ← st_get;
  match result_senders j !! i with
  | Some senders =>
      st_put (MkJobs (last_task_id j) (delete i (result_senders j)) (keyed_jobs j) (queue j) (next_channel j) (mail j));;
      send_results ty result senders
  | None => mret tt
  end.

(** ** Workers

    A worker that runs a job: the jobs it has still to enqueue and the channels
    it then waits on. *)
Record Worker := MkWorker { w_job : ManagedJob; to_enqueue : list Job; waiting : list nat }.

(** The manager, its workers, and the jobs whose execution panicked: their
    worker threads ended without completing them. *)
Record System := MkSystem {
  jobs : Jobs;
  idle : nat;
  running : list Worker;
  crashed : list ManagedJob
}.

Inductive event :=
| Submitted (job : Job) (h : Handle)
| Completed (m : ManagedJob) (result : Outcome)
| Internal.

(** What a worker thread does. *)
Inductive work : System -> event -> System -> Prop :=
| work_take m q n s :
    queue (jobs s) = m :: q -> idle s = S n ->
    work s Internal
      (MkSystem (MkJobs (last_task_id (jobs s)) (result_senders (jobs s)) (keyed_jobs (jobs s)) q
                   (next_channel (jobs s)) (mail (jobs s)))
         n (MkWorker m (jobs_of (mj_job m)) [] :: running s) (crashed s))
| work_enqueue s before after m job rest ws h j :
    running s = before ++ MkWorker m (job :: rest) ws :: after -> lookup_or_enqueue job (jobs s) = (h, j) ->
    work s (Submitted job h) (MkSystem j (idle s) (before ++ MkWorker m rest (ws ++ [receiver h]) :: after) (crashed s))
| work_receive s before after m c ws result :
    running s = before ++ MkWorker m [] (c :: ws) :: after -> mail (jobs s) !! c = Some result ->
    outcome_ok result = true ->
    work s Internal (MkSystem (jobs s) (idle s) (before ++ MkWorker m [] ws :: after) (crashed s))
| work_finish s before after m ws result j :
    running s = before ++ MkWorker m [] ws :: after ->
    (ws = [] \/ exists c error, head ws = Some c /\ mail (jobs s) !! c = Some error /\
       outcome_ok error = false /\ outcome_ok result = false) ->
    job_completed (mj_id m) (mj_key m) (job_type (mj_job m)) result (jobs s) = (Ok tt, j) ->
    work s (Completed m result) (MkSystem j (S (idle s)) (before ++ after) (crashed s)).

(** Clients submit jobs at any time, and any job can panic. *)
Inductive step : System -> event -> System -> Prop :=
| step_work s e s' : work s e s' -> step s e s'
| step_submit job h j s :
    lookup_or_enqueue job (jobs s) = (h, j) ->
    step s (Submitted job h) (MkSystem j (idle s) (running s) (crashed s))
| step_mismatch s before after m result j :
    running s = before ++ MkWorker m [] [] :: after ->
    job_completed (mj_id m) (mj_key m) (job_type (mj_job m)) result (jobs s) = (Panic, j) ->
    step s Internal (MkSystem j (idle s) (before ++ after) (m :: crashed s))
| step_crash s before after m es ws :
    running s = before ++ MkWorker m es ws :: after ->
    step s Internal (MkSystem (jobs s) (idle s) (before ++ after) (m :: crashed s)).

(** Every worker starts idle. *)
Definition started (workers : nat) : System := MkSystem jobs_default workers [] [].

(** The events of a run, in order. *)
Inductive run : System -> list event -> System -> Prop :=
| run_nil s : run s [] s
| run_snoc s es s' e s'' : run s es s' -> step s' e s'' -> run s (es ++ [e]) s''.

End Manager.
Arguments ManagedJob : clear implicits.
Arguments Jobs Job Key Outcome Ty {_ _}.
Arguments Worker : clear implicits.
Arguments System Job Key Outcome Ty {_ _}.
Arguments event : clear implicits.
