(* ===== verification/Transaction.v ===== *)
(** * Document transactions

    The commands of [bonsaidb-core/src/transaction.rs] and their execution in
    [bonsaidb-local/src/database.rs] and [open_trees.rs]: the trees a
    transaction opens, its operations in order, the eager views updated with
    every changed document, the documents recorded as invalidated for the lazy
    views, and the commit.  An operation that fails abandons the storage
    engine's transaction: the store is the one before. *)

From Stdlib Require Import ZArith Lia Sorting.Sorted.
From stdpp Require Import base list option numbers gmap sorting.
From S2P Require Import Prelude Bytes Nebari Document Names Changes Key Schema View.

Local Open Scope Z_scope.

(** ** Commands and results *)

Inductive Command :=
| Insert (cid : option bytes) (ccontents : bytes)
| Update (cheader : Header) (ccontents : bytes)
| Overwrite (cid : bytes) (ccontents : bytes)
| Delete (cheader : Header)
| Check (cid : bytes) (crevision : option Revision).

Record Operation := MkOperation { op_collection : CollectionName; command : Command }.

Inductive OperationResult :=
| Success
| DocumentUpdated (c : CollectionName) (h : Header)
| DocumentDeleted (c : CollectionName) (d : bytes).

(** The constructors of [Operation]. *)
Definition op_insert (c : CollectionName) (d : option bytes) (contents : bytes) := MkOperation c (Insert d contents).
Definition op_update (c : CollectionName) (h : Header) (contents : bytes) := MkOperation c (Update h contents).
Definition op_overwrite (c : CollectionName) (d contents : bytes) := MkOperation c (Overwrite d contents).
Definition op_delete (c : CollectionName) (h : Header) := MkOperation c (Delete h).
Definition op_check_exists (c : CollectionName) (d : bytes) := MkOperation c (Check d None).
Definition op_check_current (c : CollectionName) (h : Header) := MkOperation c (Check (id h) (Some (revision h))).

(** ** The trees of a transaction *)

Record OpenTrees := MkOpenTrees { trees : list str; trees_index_by_name : gmap str nat }.
Definition no_trees : OpenTrees := MkOpenTrees [] ∅.

Definition open_tree (name : str) (o : OpenTrees) : OpenTrees :=
  match trees_index_by_name o !! name with
  | Some _ => o
  | None => MkOpenTrees (trees o ++ [name]) (<[name := length (trees o)]> (trees_index_by_name o))
  end.

Definition open_trees_for_view (o : OpenTrees) (v : View) : OpenTrees :=
  if is_eager (update_policy v)
  then open_tree (view_entries_tree_name (view_name v)) (open_tree (view_document_map_tree_name (view_name v)) o)
  else open_tree (view_invalidated_docs_tree_name (view_name v)) o.

Definition open_trees_for_document_change (s : Schematic) (c : CollectionName) (o : OpenTrees) : OpenTrees :=
  foldl open_trees_for_view (open_tree (document_tree_name c) o) (views_in_collection s c).

Section Transactions.
Context `{Nebari} `{DocumentCodec} `{ViewCodec} `{Digest} `{ChangesCodec}.
Context (schedule : list MapResult -> list MapResult).
Context (schema : Schematic).

Fixpoint open_trees_for_operations (ops : list Operation) (o : OpenTrees) : res DbError OpenTrees :=
  match ops with
  | [] => Ok o
  | op :: ops =>
      match contained_collections schema !! op_collection op with
      | None => Err CollectionNotFound
      | Some _ =>
          open_trees_for_operations ops (open_trees_for_document_change schema (op_collection op) o)
      end
  end.
Definition open_trees_for_transaction (ops : list Operation) : res DbError OpenTrees :=
  open_trees_for_operations ops no_trees.

(** ** Operations *)

(** [transaction.tree(tree_index_map[&name]).unwrap()]: indexing the map
    panics when the name is missing. *)
Definition tree_index (ix : gmap str nat) (name : str) : res DbError nat := unwrap (ix !! name).

Fixpoint update_each_view (documents : nat) (ix : gmap str nat) (document_id : bytes) (vs : list View)
    (tx : Transaction) : res DbError Transaction :=
  match vs with
  | [] => Ok tx
  | v :: vs =>
      document_map ← tree_index ix (view_document_map_tree_name (view_name v));
      view_entries ← tree_index ix (view_entries_tree_name (view_name v));
      tx ← map_request schedule v documents document_map view_entries [document_id] tx;
      update_each_view documents ix document_id vs tx
  end.

Definition update_eager_views (document_id : bytes) (c : CollectionName) (ix : gmap str nat)
    (tx : Transaction) : res DbError Transaction :=
  match eager_views_in_collection schema c with
  | [] => Ok tx
  | vs =>
      documents ← tree_index ix (document_tree_name c);
      update_each_view documents ix document_id vs tx
  end.

(** The variables the compare-and-swap callback of an update captures. *)
Record UpdateState := MkUpdateState { u_result : option (res DbError OperationResult); u_updated : bool }.

Definition update_callback (c : CollectionName) (d : bytes) (check_revision : option Revision)
    (contents : bytes) (_ : bytes) (value : option bytes) : stm UpdateState nebari_error TreeOperation :=
  match value with
  | Some old =>
      match deserialize_document old with
      | None => st_modify (fun u => MkUpdateState (Some (Err DbSerialization)) (u_updated u));; mret OpSkip
      | Some doc =>
          if bool_decide (check_revision = None) || bool_decide (Some (revision (header doc)) = check_revision)
          then
            next ← st_lift (next_revision (revision (header doc)) contents);
            match next with
            | Some updated_revision =>
                let updated_header := MkHeader d updated_revision in
                match serialize_document (MkDoc updated_header contents) with
                | Some serialized =>
                    st_put (MkUpdateState (Some (Ok (DocumentUpdated c updated_header))) true);;
                    mret (OpSet serialized)
                | None =>
                    st_modify (fun u => MkUpdateState (Some (Err DbSerialization)) (u_updated u));; mret OpSkip
                end
            | None =>
                st_modify (fun u => MkUpdateState (Some (Ok (DocumentUpdated c (header doc)))) (u_updated u));;
                mret OpSkip
            end
          else
            st_modify (fun u => MkUpdateState (Some (Err (DocumentConflict c (header doc)))) (u_updated u));;
            mret OpSkip
      end
  | None =>
      match check_revision with
      | None =>
          let doc := document_new d contents in
          match serialize_document doc with
          | Some serialized =>
              st_put (MkUpdateState (Some (Ok (DocumentUpdated c (header doc)))) true);;
              mret (OpSet serialized)
          | None =>
              st_modify (fun u => MkUpdateState (Some (Err DbSerialization)) (u_updated u));; mret OpSkip
          end
      | Some _ =>
          st_modify (fun u => MkUpdateState (Some (Err (DocumentNotFound c d))) (u_updated u));; mret OpSkip
      end
  end.

Definition execute_update (c : CollectionName) (ix : gmap str nat) (d : bytes)
    (check_revision : option Revision) (contents : bytes) (tx : Transaction)
    : res DbError (OperationResult * Transaction) :=
  documents ← tree_index ix (document_tree_name c);
  '(tx, u) ← db_tx (tx_modify tx documents [d] (update_callback c d check_revision contents)
                      (MkUpdateState None false));
  tx ← (if u_updated u then update_eager_views d c ix tx else Ok tx);
  match u_result u with
  | Some r => r ← r; Ok (r, tx)
  | None => Panic
  end.

Definition execute_insert (c : CollectionName) (ix : gmap str nat) (d : option bytes) (contents : bytes)
    (tx : Transaction) : res DbError (OperationResult * Transaction) :=
  documents ← tree_index ix (document_tree_name c);
  d ←
    match d with
    | Some d => Ok d
    | None =>
        last_key ← db_tx (tx_last_key tx documents);
        last ←
          match last_key with
          | Some k => k ← map_err DbDocumentId (document_id_try_from k); Ok (Some k)
          | None => Ok None
          end;
        map_err DbSchema (next_id_for_collection schema c last)
    end;
  let doc := document_new d contents in
  serialized ← ok_or DbSerialization (serialize_document doc);
  '(tx, replaced) ← db_tx (tx_replace tx documents d serialized);
  match replaced with
  | Some document =>
      doc ← ok_or DbSerialization (deserialize_document document);
      Err (DocumentConflict c (header doc))
  | None =>
      tx ← update_eager_views d c ix tx;
      Ok (DocumentUpdated c (header doc), tx)
  end.

Definition execute_delete (c : CollectionName) (ix : gmap str nat) (h : Header) (tx : Transaction)
    : res DbError (OperationResult * Transaction) :=
  documents ← tree_index ix (document_tree_name c);
  '(tx, removed) ← db_tx (tx_remove tx documents (id h));
  match removed with
  | Some vec =>
      doc ← ok_or DbSerialization (deserialize_document vec);
      if decide (header doc = h) then
        tx ← update_eager_views (id (header doc)) c ix tx;
        Ok (DocumentDeleted c (id h), tx)
      else Err (DocumentConflict c h)
  | None => Err (DocumentNotFound c (id h))
  end.

Definition execute_check (c : CollectionName) (ix : gmap str nat) (d : bytes) (rev : option Revision)
    (tx : Transaction) : res DbError (OperationResult * Transaction) :=
  documents ← tree_index ix (document_tree_name c);
  value ← db_tx (tx_get tx documents d);
  match value with
  | Some vec =>
      match rev with
      | Some rev =>
          doc ← ok_or DbSerialization (deserialize_document vec);
          if decide (revision (header doc) = rev) then Ok (Success, tx)
          else Err (DocumentConflict c (MkHeader d rev))
      | None => Ok (Success, tx)
      end
  | None => Err (DocumentNotFound c d)
  end.

Definition execute_operation (op : Operation) (ix : gmap str nat) (tx : Transaction)
    : res DbError (OperationResult * Transaction) :=
  let c := op_collection op in
  match command op with
  | Insert d contents => execute_insert c ix d contents tx
  | Update h contents => execute_update c ix (id h) (Some (revision h)) contents tx
  | Overwrite d contents => execute_update c ix d None contents tx
  | Delete h => execute_delete c ix h tx
  | Check d rev => execute_check c ix d rev tx
  end.

(** ** The whole transaction *)

Definition changed_document (r : OperationResult) : option (CollectionName * bytes * bool) :=
  match r with
  | DocumentUpdated c h => Some (c, id h, false)
  | DocumentDeleted c d => Some (c, d, true)
  | Success => None
  end.

Fixpoint execute_operations (ops : list Operation) (ix : gmap str nat) (tx : Transaction) (t : IndexTable)
    : res DbError (list OperationResult * list ChangedDocument * IndexTable * Transaction) :=
  match ops with
  | [] => Ok ([], [], t, tx)
  | op :: ops =>
      '(result, tx) ← execute_operation op ix tx;
      '(changed, t) ←
        match changed_document result with
        | Some (c, d, deleted) =>
            '(i, t) ← ok_or TransactionTooLarge (collection_index t c);
            Ok ([MkChangedDocument i d deleted], t)
        | None => Ok ([], t)
        end;
      '(results, rest, t, tx) ← execute_operations ops ix tx t;
      Ok (result :: results, changed ++ rest, t, tx)
  end.

(** [group_by]: runs of changed documents of the same collection. *)
Fixpoint group_by (cs : list CollectionName) (ds : list ChangedDocument)
    : res DbError (list (CollectionName * list bytes)) :=
  match ds with
  | [] => Ok []
  | d :: ds =>
      c ← unwrap (cs !! Z.to_nat (cd_collection d));
      groups ← group_by cs ds;
      Ok (match groups with
          | (c', ids) :: rest => if decide (c' = c) then (c, cd_id d :: ids) :: rest
                                 else (c, [cd_id d]) :: groups
          | [] => [(c, [cd_id d])]
          end)
  end.

Fixpoint invalidate_ids (tree : nat) (ids : list bytes) (tx : Transaction) : res DbError Transaction :=
  match ids with
  | [] => Ok tx
  | d :: ids => tx ← db_tx (tx_set tx tree d []); invalidate_ids tree ids tx
  end.

(** The index is looked up for every document; a group is not empty. *)
Fixpoint invalidate_views (ix : gmap str nat) (vs : list View) (ids : list bytes) (tx : Transaction)
    : res DbError Transaction :=
  match vs with
  | [] => Ok tx
  | v :: vs =>
      tree ← tree_index ix (view_invalidated_docs_tree_name (view_name v));
      tx ← invalidate_ids tree ids tx;
      invalidate_views ix vs ids tx
  end.

Definition lazy_views (c : CollectionName) : list View :=
  filter (fun v => is_eager (update_policy v) = false) (views_in_collection schema c).

Fixpoint invalidate_groups (ix : gmap str nat) (groups : list (CollectionName * list bytes))
    (tx : Transaction) : res DbError Transaction :=
  match groups with
  | [] => Ok tx
  | (c, ids) :: groups =>
      tx ← invalidate_views ix (lazy_views c) ids tx;
      invalidate_groups ix groups tx
  end.

Definition invalidate_changed_documents (o : OpenTrees) (cs : list CollectionName)
    (changed : list ChangedDocument) (tx : Transaction) : res DbError Transaction :=
  groups ← group_by cs changed;
  invalidate_groups (trees_index_by_name o) groups tx.

Definition apply_transaction_to_roots (ops : list Operation) : stm Roots DbError (list OperationResult) :=
  r ← st_get;
  open_trees ← st_lift (open_trees_for_transaction ops);
  tx ← st_lift (db_tx (transaction r (trees open_trees)));
  '(results, changed, t, tx) ←
    st_lift (execute_operations ops (trees_index_by_name open_trees) tx empty_table);
  tx ← st_lift (invalidate_changed_documents open_trees (table t) changed tx);
  data ← st_lift (ok_or DbSerialization
    (serialize_executed_transaction_changes (CDocuments (MkDocumentChanges (table t) changed))));
  tx ← st_lift (db_tx (tx_set_data tx data));
  r' ← st_lift (db_tx (tx_commit r tx));
  st_put r';;
  mret results.

End Transactions.
