(* ===== verification/Tasks.v ===== *)
(** * Background tasks and view queries

    The tasks of [bonsaidb-local/src/tasks.rs], [tasks/task.rs] and
    [tasks/compactor.rs], and the operations of [database.rs] that use views:
    updating a view before it is read, querying, reducing, deleting the
    documents of a view, and applying a transaction.

    An operation waits for the jobs it needs; here a job runs when it is waited
    for, on the state shared by all jobs (the trees and the statuses kept in
    memory).  The manager that shares jobs between clients is modelled in
    [Jobs], and what other clients do in between in [ViewSystem]. *)

From Stdlib Require Import ZArith Lia Sorting.Sorted String.
From stdpp Require Import base list option numbers gmap sorting.
From S2P Require Import Prelude Bytes Utf8 Key Range Nebari Document Names Changes Schema Permissions View Query Integrity Jobs Transaction.

Local Open Scope Z_scope.

(** ** Keys of jobs *)

Record IntegrityScan := MkIntegrityScan {
  scan_view_version : Z; scan_database : str; scan_collection : CollectionName; scan_view_name : ViewName }.
Record Map := MkMap { map_database : str; map_collection : CollectionName; map_view_name : ViewName }.
Inductive Target :=
| VersionedTree (t : str)
| UnversionedTree (t : str)
| TargetCollection (c : CollectionName)
| TargetKeyValue
| TargetDatabase.
Record Compaction := MkCompaction { database_name : str; target : Target }.
Inductive Task :=
| TaskIntegrityScan (s : IntegrityScan)
| TaskViewMap (m : Map)
| TaskCompaction (c : Compaction)
| TaskExpirationLoader (database : str).

#[export] Instance Task_eq_dec : EqDecision Task.
Proof.
  assert (EqDecision IntegrityScan) by solve_decision. assert (EqDecision Map) by solve_decision.
  assert (EqDecision Target) by solve_decision. assert (EqDecision Compaction) by solve_decision.
  solve_decision.
Defined.

Definition target_code (t : Target) : str + str + (CollectionName + (unit + unit)) :=
  match t with
  | VersionedTree t => inl (inl t)
  | UnversionedTree t => inl (inr t)
  | TargetCollection c => inr (inl c)
  | TargetKeyValue => inr (inr (inl tt))
  | TargetDatabase => inr (inr (inr tt))
  end.
Definition task_code (t : Task) :
    (Z * str * CollectionName * ViewName) + (str * CollectionName * ViewName) +
    (str * (str + str + (CollectionName + (unit + unit))) + str) :=
  match t with
  | TaskIntegrityScan s => inl (inl (scan_view_version s, scan_database s, scan_collection s, scan_view_name s))
  | TaskViewMap m => inl (inr (map_database m, map_collection m, map_view_name m))
  | TaskCompaction c => inr (inl (database_name c, target_code (target c)))
  | TaskExpirationLoader d => inr (inr d)
  end.
#[export] Instance Task_countable : Countable Task.
Proof.
  apply (inj_countable task_code (fun c => match c with
    | inl (inl (n, d, c, v)) => Some (TaskIntegrityScan (MkIntegrityScan n d c v))
    | inl (inr (d, c, v)) => Some (TaskViewMap (MkMap d c v))
    | inr (inl (d, inl (inl t))) => Some (TaskCompaction (MkCompaction d (VersionedTree t)))
    | inr (inl (d, inl (inr t))) => Some (TaskCompaction (MkCompaction d (UnversionedTree t)))
    | inr (inl (d, inr (inl c))) => Some (TaskCompaction (MkCompaction d (TargetCollection c)))
    | inr (inl (d, inr (inr (inl _)))) => Some (TaskCompaction (MkCompaction d TargetKeyValue))
    | inr (inl (d, inr (inr (inr _)))) => Some (TaskCompaction (MkCompaction d TargetDatabase))
    | inr (inr d) => Some (TaskExpirationLoader d)
    end)). by intros [[]|[]|[? []]|].
Defined.

(** ** Jobs and their results *)

Inductive BackgroundJob :=
| IntegrityScanner (scan : IntegrityScan)
| Mapper (map : Map)
| Compactor (compaction : Compaction)
| ExpirationLoader (database : str) (launched_at : Z).
(** The types [Handle<T, Error>] the jobs have. *)
Inductive JobType := OptionalViewMapHandle | U64 | Unit.
Inductive JobOutcome := ScanDone (mapping : bool) | MapDone (transaction_id : Z) | UnitDone | JobFailed.
#[export] Instance JobType_eq_dec : EqDecision JobType.
Proof. solve_decision. Defined.

Definition key (j : BackgroundJob) : Task :=
  match j with
  | IntegrityScanner s => TaskIntegrityScan s
  | Mapper m => TaskViewMap m
  | Compactor c => TaskCompaction c
  | ExpirationLoader d _ => TaskExpirationLoader d
  end.
Definition output (j : BackgroundJob) : JobType :=
  match j with
  | IntegrityScanner _ => OptionalViewMapHandle
  | Mapper _ => U64
  | Compactor _ | ExpirationLoader _ _ => Unit
  end.

(** ** Compaction *)

Definition gather_collection_trees (s : Schematic) (c : CollectionName) : list Target :=
  [VersionedTree (document_tree_name c); UnversionedTree (view_versions_tree_name c)] ++
  (views_in_collection s c ≫= fun v =>
     [UnversionedTree (view_entries_tree_name (view_name v));
      UnversionedTree (view_document_map_tree_name (view_name v));
      UnversionedTree (view_invalidated_docs_tree_name (view_name v))]).

(** The targets [Target::compact] hands to [compact_trees], in order; the
    others compact one tree. *)
Definition compact_targets (s : Schematic) (t : Target) : list Target :=
  match t with
  | TargetCollection c => gather_collection_trees s c
  | TargetDatabase =>
      ((map_to_list (contained_collections s)).*1 ≫= gather_collection_trees s) ++ [TargetKeyValue]
  | VersionedTree _ | UnversionedTree _ | TargetKeyValue => []
  end.

Definition compact_trees (s : Schematic) (j : BackgroundJob) : list BackgroundJob :=
  match j with
  | Compactor c => (fun t => Compactor (MkCompaction (database_name c) t)) <$> compact_targets s (target c)
  | _ => []
  end.

#[export] Instance background_jobs (s : Schematic) : Jobs_of BackgroundJob Task JobOutcome JobType := {|
  job_key := key; job_type := output; jobs_of := compact_trees s;
  outcome_ok o := match o with JobFailed => false | _ => true end |}.

(** ** Statuses *)

Abbreviation ViewKey := (str * CollectionName * ViewName)%type.
Record Statuses := MkStatuses {
  completed_integrity_checks : gset ViewKey;
  key_value_expiration_loads : gset str;
  view_update_last_status : gmap ViewKey Z
}.
Definition statuses_default : Statuses := MkStatuses ∅ ∅ ∅.

Definition key_value_expiration_loaded (database : str) (s : Statuses) : bool :=
  bool_decide (database ∈ key_value_expiration_loads s).
Definition view_integrity_checked (k : ViewKey) (s : Statuses) : bool :=
  bool_decide (k ∈ completed_integrity_checks s).
Definition mark_integrity_check_complete (k : ViewKey) (s : Statuses) : Statuses :=
  MkStatuses ({[k]} ∪ completed_integrity_checks s) (key_value_expiration_loads s) (view_update_last_status s).
Definition mark_key_value_expiration_loaded (database : str) (s : Statuses) : Statuses :=
  MkStatuses (completed_integrity_checks s) ({[database]} ∪ key_value_expiration_loads s) (view_update_last_status s).
Definition mark_view_updated (k : ViewKey) (transaction_id : Z) (s : Statuses) : Statuses :=
  MkStatuses (completed_integrity_checks s) (key_value_expiration_loads s)
    (<[k := transaction_id]> (view_update_last_status s)).

(** [(d, rev, key, value)] of [map::Serialized], and the values of a grouped
    reduction. *)
Record MapSerialized := MkMapSerialized { ms_source : Header; ms_key : bytes; ms_value : bytes }.
Record MappedSerializedValue := MkMappedSerializedValue { mv_key : bytes; mv_value : bytes }.
Record MappedSerializedDocuments := MkMappedSerializedDocuments {
  mapped_mappings : list MapSerialized; mapped_documents : gmap bytes Doc }.

Section Database.
Context `{Nebari} `{DocumentCodec} `{ViewCodec} `{Digest} `{ChangesCodec} `{VersionCodec} `{Actionable}.
Context (schedule : list MapResult -> list MapResult).
Context (schema : Schematic) (database : str) (session : option Session).

Record World := MkWorld { w_roots : Roots; w_statuses : Statuses }.
Abbreviation taskm := (stm World CoreError).

Definition on_roots {A} (m : stm Roots DbError A) : taskm A := fun w =>
  let (a, r) := m (w_roots w) in (map_err CoreDb a, MkWorld r (w_statuses w)).
Definition on_statuses (f : Statuses -> Statuses) : taskm unit :=
  st_modify (fun w => MkWorld (w_roots w) (f (w_statuses w))).
Definition reading {A} (f : Roots -> res CoreError A) : taskm A := fun w => (f (w_roots w), w).

Definition view_key (v : View) : ViewKey := (database, view_collection v, view_name v).

(** ** The jobs of a view *)

(** [IntegrityScanner::execute]; the mapping it enqueues is run by who waits
    for it. *)
Definition integrity_execute (v : View) : taskm bool :=
  task ← on_roots (integrity_scan v);
  on_statuses (mark_integrity_check_complete (view_key v));;
  mret task.

(** [Mapper::execute] *)
Definition mapper_execute (v : View) : taskm Z :=
  last ← reading (last_transaction_id database session);
  transaction_id ← st_lift (unwrap last);
  on_roots (map_view schedule v);;
  on_statuses (mark_view_updated (view_key v) transaction_id);;
  mret transaction_id.

(** [spawn_integrity_check] and waiting for the job it returns. *)
Definition integrity_check (v : View) : taskm unit :=
  w ← st_get;
  if view_integrity_checked (view_key v) (w_statuses w) then mret tt
  else integrity_execute v;; mret tt.

(** The loop of [update_view_if_needed].  Running out of fuel stands for a loop
    that does not end. *)
Fixpoint update_view_loop (fuel : nat) (v : View) (wait_for_transaction : Z) : taskm unit :=
  match fuel with
  | O => st_lift Panic
  | S fuel =>
      id ← mapper_execute v;
      if wait_for_transaction <=? id then mret tt else update_view_loop fuel v wait_for_transaction
  end.

Definition needs_reindex (v : View) (current_transaction_id : Z) (s : Statuses) : bool :=
  match view_update_last_status s !! view_key v with
  | Some last_transaction_indexed => last_transaction_indexed <? current_transaction_id
  | None => true
  end.

Definition update_view_if_needed (fuel : nat) (v : View) (block_until_updated : bool) : taskm unit :=
  integrity_check v;;
  last ← reading (last_transaction_id database session);
  match last with
  | Some current_transaction_id =>
      w ← st_get;
      if needs_reindex v current_transaction_id (w_statuses w) && block_until_updated
      then update_view_loop fuel v current_transaction_id
      else mret tt
  | None => mret tt
  end.

(** ** Queries *)

(** [for_each_in_view]: the entries it calls back with, in order. *)
Definition for_each_in_view (fuel : nat) (v : View) (key : option SerializedQueryKey) (order : Sort)
    (limit : option Z) (access_policy : AccessPolicy) : taskm (list ViewEntry) :=
  match access_policy with
  | UpdateBefore => update_view_if_needed fuel v true
  | _ => integrity_check v
  end;;
  entries ← reading (fun r => map_err CoreDb
    (create_view_iterator r (view_entries_tree_name (view_name v)) key order limit));
  match access_policy with
  | UpdateAfter =>
      v ← st_lift (unwrap (res_ok (view_by_name schema (view_name v))));
      update_view_if_needed fuel v false
  | _ => mret tt
  end;;
  mret entries.

Definition find_view (name : ViewName) : res CoreError View :=
  map_err (fun e => CoreDb (DbSchema e)) (view_by_name schema name).

Definition entry_maps (e : ViewEntry) : list MapSerialized :=
  (fun m => MkMapSerialized (em_source m) (ve_key e) (em_value m)) <$> mappings e.

Definition query_by_name (fuel : nat) (view : ViewName) (key : option SerializedQueryKey) (order : Sort)
    (limit : option Z) (access_policy : AccessPolicy) : taskm (list MapSerialized) :=
  v ← st_lift (find_view view);
  st_lift (permit session (view_resource_name database (view_name v)) (ViewAct ViewQuery));;
  entries ← for_each_in_view fuel v key order limit access_policy;
  mret (entries ≫= entry_maps).

Definition query_by_name_with_docs (fuel : nat) (view : ViewName) (key : option SerializedQueryKey) (order : Sort)
    (limit : option Z) (access_policy : AccessPolicy) : taskm MappedSerializedDocuments :=
  results ← query_by_name fuel view key order limit access_policy;
  v ← st_lift (unwrap (res_ok (view_by_name schema view)));
  docs ← reading (fun r =>
    get_multiple_from_collection database session r ((fun m => id (ms_source m)) <$> results) (view_collection v));
  mret (MkMappedSerializedDocuments results
    (list_to_map ((fun doc => (id (header doc), doc)) <$> rev docs))).

Definition reduce_grouped_by_name (fuel : nat) (view : ViewName) (key : option SerializedQueryKey)
    (access_policy : AccessPolicy) : taskm (list MappedSerializedValue) :=
  v ← st_lift (find_view view);
  st_lift (permit session (view_resource_name database (view_name v)) (ViewAct ViewReduce));;
  entries ← for_each_in_view fuel v key Ascending None access_policy;
  mret ((fun e => MkMappedSerializedValue (ve_key e) (reduced_value e)) <$> entries).

Definition reduce_by_name (fuel : nat) (view : ViewName) (key : option SerializedQueryKey)
    (access_policy : AccessPolicy) : taskm bytes :=
  maps ← reduce_grouped_by_name fuel view key access_policy;
  match maps with
  | [m] => mret (mv_value m)
  | _ =>
      v ← st_lift (find_view view);
      st_lift (map_err (fun e => CoreDb (DbView e)) (view_reduce v ((fun m => (mv_key m, mv_value m)) <$> maps) true))
  end.

(** ** Transactions *)

Definition operation_permission (op : Operation) : list Identifier * DatabaseAction :=
  let c := op_collection op in
  match command op with
  | Insert _ _ => (collection_resource_name database c, DocumentAct DocInsert)
  | Update h _ => (document_resource_name database c (id h), DocumentAct DocUpdate)
  | Overwrite d _ => (document_resource_name database c d, DocumentAct DocOverwrite)
  | Delete h => (document_resource_name database c (id h), DocumentAct DocDelete)
  | Check d _ => (document_resource_name database c d, DocumentAct DocGet)
  end.
Fixpoint permit_operations (ops : list Operation) : res CoreError unit :=
  match ops with
  | [] => Ok tt
  | op :: ops => permit session (operation_permission op).1 (operation_permission op).2;; permit_operations ops
  end.

(** The integrity checks spawned for the eager views all run; they are waited
    for in turn, and the first that failed is reported.  Then the mappings they
    enqueued are waited for; after a failure those left are jobs like any other,
    that nobody waits for. *)
Fixpoint eager_scans (vs : list View) : taskm (list View) :=
  match vs with
  | [] => mret []
  | v :: vs => fun w =>
      let (task, w) := integrity_execute v w in
      let (rest, w) := eager_scans vs w in
      (task ← task; rest ← rest; Ok (if task : bool then v :: rest else rest), w)
  end.
Fixpoint eager_mappings (vs : list View) : taskm unit :=
  match vs with
  | [] => mret tt
  | v :: vs => mapper_execute v;; eager_mappings vs
  end.

Definition apply_transaction (ops : list Operation) : taskm (list OperationResult) :=
  st_lift (permit_operations ops);;
  w ← st_get;
  let collections : gset CollectionName := list_to_set (op_collection <$> ops) in
  let unchecked := filter (fun v => view_integrity_checked (view_key v) (w_statuses w) = false)
                     (elements collections ≫= eager_views_in_collection schema) in
  mapping ← eager_scans unchecked;
  eager_mappings mapping;;
  on_roots (apply_transaction_to_roots schedule schema ops).

Definition delete_docs_by_name (fuel : nat) (view : ViewName) (key : option SerializedQueryKey)
    (access_policy : AccessPolicy) : taskm Z :=
  v ← st_lift (find_view view);
  entries ← for_each_in_view fuel v key Ascending None access_policy;
  results ← apply_transaction ((fun m => op_delete (view_collection v) (em_source m)) <$> (entries ≫= mappings));
  mret (Z.of_nat (length results)).

End Database.
