(* ===== verification/Vault.v ===== *)
(** * Encryption and compression of trees

    The vault of [bonsaidb-local/src/vault.rs] with its initialization and its
    storage of keys, the vault of trees ([TreeVault] of [storage.rs]) in the
    three builds that have one, and the choice of a vault for the trees of a
    collection ([database.rs]).

    The ciphers, [lz4_flex], [bincode] and the file system are parameters; what
    is random is an argument. *)

From Stdlib Require Import ZArith Lia String.
From stdpp Require Import base list option numbers gmap.
From S2P Require Import Prelude Bytes Utf8 Nebari Document Names Schema Permissions.

Local Open Scope Z_scope.

(** ** Data *)

Inductive Encryption := XChaCha20Poly1305.
Record VaultPayload := MkVaultPayload {
  vp_key_id : KeyId;
  vp_key_version : Z;
  vp_encryption : Encryption;
  vp_payload : bytes;
  vp_nonce : bytes
}.

(** A key pair with the private key first, as [P256]; a sealed message with the
    encapsulated key and the tag. *)
Record KeyPair := MkKeyPair { kp_private : bytes; kp_public : bytes }.
Record HpkePayload := MkHpkePayload { hp_payload : bytes; hp_tag : bytes; hp_encapsulated_key : bytes }.

Inductive VaultError := EncryptionFailure | VaultKeyStorageFailure | Initializing | VaultKeyNotFound.
Inductive TreeVaultError `{Actionable} :=
| VaultFailed (e : VaultError)
| KeyDenied (resource : list Identifier) (action : EncryptionKeyAction)
| Lz4Failed
| EncryptionDisabled.

Inductive Compression := Lz4.
Definition compression_as_u8 (c : Compression) : Z := match c with Lz4 => 1 end.
Definition compression_from_u8 (value : Z) : option Compression := if value =? 1 then Some Lz4 else None.

(** ** Other crates *)

Class VaultCrates := {
  aead_encrypt : bytes -> bytes -> bytes -> option bytes;
  aead_decrypt : bytes -> bytes -> bytes -> option bytes;
  lz4_compress : bytes -> bytes;
  lz4_decompress_size_prepended : bytes -> option bytes;
  bincode_payload : VaultPayload -> bytes;
  bincode_to_payload : bytes -> option VaultPayload;
  bincode_keys : gmap Z bytes -> bytes;
  bincode_to_keys : bytes -> option (gmap Z bytes);
  bincode_hpke : HpkePayload -> bytes;
  bincode_to_hpke : bytes -> option HpkePayload;
  bincode_keypair : KeyPair -> bytes;
  bincode_to_keypair : bytes -> option KeyPair;
  hpke_seal : bytes -> bytes -> bytes -> option (bytes * bytes * bytes);
  hpke_open : bytes -> bytes -> bytes -> bytes -> option bytes
}.

(** [&u32::to_le_bytes]. *)
Definition to_le_bytes (t : int_ty) (x : Z) : bytes := rev (to_be_bytes t x).
(** [compress_prepend_size]: the length is cast to [u32]. *)
Definition lz4_compress_prepend_size `{VaultCrates} (payload : bytes) : bytes :=
  to_le_bytes u32 (wrap u32 (blen payload)) ++ lz4_compress payload.

(** What is written is read back.  A pair of keys belongs together when what
    the public one seals is opened by the private one. *)
Class VaultCratesLaws `{VaultCrates} : Prop := {
  aead_roundtrip k n p c : aead_encrypt k n p = Some c -> aead_decrypt k n c = Some p;
  lz4_roundtrip p : blen p <= int_max u32 ->
    lz4_decompress_size_prepended (to_le_bytes u32 (blen p) ++ lz4_compress p) = Some p;
  bincode_payload_roundtrip p : bincode_to_payload (bincode_payload p) = Some p;
  bincode_keys_roundtrip k : bincode_to_keys (bincode_keys k) = Some k;
  bincode_hpke_roundtrip p : bincode_to_hpke (bincode_hpke p) = Some p;
  bincode_keypair_roundtrip k : bincode_to_keypair (bincode_keypair k) = Some k
}.
Definition keys_match `{VaultCrates} (k : KeyPair) : Prop :=
  forall r p c t e, hpke_seal r (kp_public k) p = Some (c, t, e) -> hpke_open (kp_private k) e c t = Some p.

(** Files by name; reading and writing may fail. *)
Class FileSystem (St : Type) := {
  file_exists : str -> St -> bool;
  file_read : str -> St -> option bytes;
  file_write : str -> bytes -> St -> bool * St
}.
Class FileSystemLaws `{FileSystem St} : Prop := {
  write_read name bs s s' : file_write name bs s = (true, s') -> file_read name s' = Some bs /\ file_exists name s' = true;
  write_others name bs s b s' other : file_write name bs s = (b, s') -> other <> name ->
    file_read other s' = file_read other s /\ file_exists other s' = file_exists other s
}.

(** [VaultKeyStorage]. *)
Class VaultKeyStorage (St : Type) := {
  set_vault_key_for : Z -> KeyPair -> stm St VaultError unit;
  vault_key_for : Z -> stm St VaultError (option KeyPair)
}.

(** ** [Vault] *)

Record Vault := MkVault { master_keys : gmap Z bytes; current_master_key_id : Z }.

Section Vaults.
Context `{Actionable} `{VaultCrates}.
Abbreviation vaultr := (res TreeVaultError).

Definition current_master_key {E} (v : Vault) : res E bytes := unwrap (master_keys v !! current_master_key_id v).

(** [GenericArray::from_slice] panics on another length. *)
Definition nonce_array {E} (nonce : bytes) : res E bytes := if blen nonce =? 24 then Ok nonce else Panic.

(** [EncryptionKey::encrypt_payload_with_nonce] and [EncryptionKey::decrypt_payload]. *)
Definition key_encrypt_payload {E} (key : bytes) (key_id : KeyId) (key_version : Z) (payload nonce : bytes) : res E VaultPayload :=
  n ← nonce_array nonce;
  encrypted ← unwrap (aead_encrypt key n payload);
  Ok (MkVaultPayload key_id key_version XChaCha20Poly1305 encrypted nonce).
Definition key_decrypt_payload (key : bytes) (payload : VaultPayload) : res VaultError bytes :=
  n ← nonce_array (vp_nonce payload);
  ok_or EncryptionFailure (aead_decrypt key n (vp_payload payload)).

(** [Permissions::check]. *)
Definition check_key (permissions : option Permissions) (k : KeyId) (a : EncryptionKeyAction) : vaultr unit :=
  match permissions with
  | Some p =>
      resource ← encryption_key_resource_name k;
      if allowed_to_use_key p resource a then Ok tt else Err (KeyDenied resource a)
  | None => Ok tt
  end.

(** Keys other than the master key are [todo!] and [unreachable!]. *)
Definition encrypt_payload (v : Vault) (nonce : bytes) (key_id : KeyId) (payload : bytes) (permissions : option Permissions)
    : vaultr bytes :=
  _ ← check_key permissions key_id Encrypt;
  '(key, version) ← match key_id with
    | KeyIdMaster => key ← current_master_key v; Ok (key, current_master_key_id v)
    | KeyIdId _ => Panic
    | KeyIdNone => Panic
    end;
  payload ← key_encrypt_payload key key_id version payload nonce;
  Ok (bincode_payload payload).

Definition vault_decrypt (v : Vault) (payload : VaultPayload) (permissions : option Permissions) : vaultr bytes :=
  _ ← check_key permissions (vp_key_id payload) Decrypt;
  key ← match vp_key_id payload with
    | KeyIdMaster => current_master_key v
    | KeyIdId _ => Panic
    | KeyIdNone => Panic
    end;
  map_err VaultFailed (key_decrypt_payload key payload).

Definition decrypt_payload (v : Vault) (payload : bytes) (permissions : option Permissions) : vaultr bytes :=
  match bincode_to_payload payload with
  | Some p => vault_decrypt v p permissions
  | None => Ok payload
  end.

(** ** Initialization *)

Section Initialize.
Context {St : Type} `{!FileSystem St} `{!VaultKeyStorage St}.
Abbreviation vaultm := (stm St VaultError).

Definition master_keys_path : str := lit "master-keys".
Definition read_or {E} (e : E) (name : str) : stm St E bytes := fun s => (ok_or e (file_read name s), s).
Definition write_or {E} (e : E) (name : str) (bs : bytes) : stm St E unit := fun s =>
  let '(b, s) := file_write name bs s in (if b : bool then Ok tt else Err e, s).

(** [map_err] of the errors of the key storage. *)
Definition in_storage {A} (m : vaultm A) : vaultm A := fun s => let '(r, s) := m s in (map_err (fun _ => VaultKeyStorageFailure) r, s).

(** The master key, the pair of keys and the randomness of sealing are drawn at
    random. *)
Definition initialize_vault_key_storage (master_key : bytes) (pair : KeyPair) (r : bytes) (server_id : Z) : vaultm Vault :=
  _ ← in_storage (set_vault_key_for server_id pair);
  let keys : gmap Z bytes := {[ 0 := master_key ]} in
  retrieved ← in_storage (vault_key_for server_id);
  if bool_decide (kp_public <$> retrieved = Some (kp_public pair)) then
    '(sealed, tag, encapsulated_key) ← st_lift (ok_or EncryptionFailure (hpke_seal r (kp_public pair) (bincode_keys keys)));
    _ ← write_or Initializing master_keys_path (bincode_hpke (MkHpkePayload sealed tag encapsulated_key));
    mret (MkVault keys 0)
  else st_lift (Err VaultKeyStorageFailure).

(** [keys().max()]. *)
Definition max_key (keys : gmap Z bytes) : option Z :=
  match elements (dom keys) with
  | [] => None
  | k :: ks => Some (fold_left Z.max ks k)
  end.

Definition unseal (server_id : Z) : vaultm Vault :=
  encrypted ← read_or Initializing master_keys_path;
  encrypted ← st_lift (ok_or Initializing (bincode_to_hpke encrypted));
  vault_key ← in_storage (vault_key_for server_id);
  match vault_key with
  | Some vault_key =>
      opened ← st_lift (unwrap (hpke_open (kp_private vault_key) (hp_encapsulated_key encrypted) (hp_payload encrypted) (hp_tag encrypted)));
      keys ← st_lift (ok_or Initializing (bincode_to_keys opened));
      id ← st_lift (unwrap (max_key keys));
      mret (MkVault keys id)
  | None => st_lift (Err VaultKeyNotFound)
  end.

Definition vault_initialize (master_key : bytes) (pair : KeyPair) (r : bytes) (server_id : Z) : vaultm Vault :=
  s ← st_get;
  if file_exists master_keys_path s then unseal server_id
  else initialize_vault_key_storage master_key pair r server_id.
End Initialize.

(** ** [LocalVaultKeyStorage] *)

(** [Display for StorageId]: [{:016x}]. *)
Definition storage_id_display (id : Z) : str :=
  let digits := format_x id in replicate (16 - length digits) 48 ++ digits.

Section Local.
Context {St : Type} `{!FileSystem St}.
(** [directory.join]. *)
Definition server_file (server_id : Z) : str := lit "vault-keys/" ++ storage_id_display server_id.

Definition local_key_storage : VaultKeyStorage St := {|
  vault_key_for server_id :=
    s ← st_get;
    if file_exists (server_file server_id) s then
      contents ← read_or VaultKeyStorageFailure (server_file server_id);
      key ← st_lift (ok_or VaultKeyStorageFailure (bincode_to_keypair contents));
      mret (Some key)
    else mret None;
  set_vault_key_for server_id key :=
    write_or VaultKeyStorageFailure (server_file server_id) (bincode_keypair key)
|}.
End Local.

(** ** [TreeVault] *)

Definition trv : bytes := lit "trv".
(** [payload.len() >= 4 && &payload[0..3] == b"trv"]: the header and the rest. *)
Definition tree_header (payload : bytes) : option (Z * bytes) :=
  match payload with
  | a :: b :: c :: header :: rest => if bool_decide ([a; b; c] = trv) then Some (header, rest) else None
  | _ => None
  end.
Definition header_encrypted (header : Z) : bool := negb (Z.land header 128 =? 0).
Definition header_compression (header : Z) : option Compression := compression_from_u8 (Z.land header 127).
Definition decompress (c : option Compression) (payload : bytes) : vaultr bytes :=
  match c with
  | Some Lz4 => ok_or Lz4Failed (lz4_decompress_size_prepended payload)
  | None => Ok payload
  end.

Record TreeVault := MkTreeVault { tv_compression : option Compression; tv_key : option KeyId; tv_vault : Vault }.
Definition set_tv_key (k : option KeyId) (t : TreeVault) : TreeVault := MkTreeVault (tv_compression t) k (tv_vault t).

(** The build with compression and encryption. *)
Definition new_if_needed (key : option KeyId) (v : Vault) (compression : option Compression) : option TreeVault :=
  match key, compression with
  | None, None => None
  | _, _ => Some (MkTreeVault compression key v)
  end.

Definition tree_vault_header (t : TreeVault) (compressed : bool) : Z :=
  let bits := match tv_key t with Some _ => 128 | None => 0 end in
  if compressed then match tv_compression t with Some c => Z.lor bits (compression_as_u8 c) | None => bits end
  else bits.

Definition tree_encrypt (t : TreeVault) (nonce payload : bytes) : vaultr bytes :=
  let '(includes_compression, compressed) :=
    match tv_compression t with
    | Some Lz4 => if 128 <=? blen payload then (true, lz4_compress_prepend_size payload) else (false, payload)
    | None => (false, payload)
    end in
  complete ← match tv_key t with
    | Some key => encrypt_payload (tv_vault t) nonce key compressed None
    | None => Ok compressed
    end;
  let header := tree_vault_header t includes_compression in
  Ok (if header =? 0 then complete else trv ++ header :: complete).

Definition tree_decrypt (t : TreeVault) (payload : bytes) : vaultr bytes :=
  match tree_header payload with
  | Some (header, payload) =>
      decrypted ← (if header_encrypted header then decrypt_payload (tv_vault t) payload None else Ok payload);
      decompress (header_compression header) decrypted
  | None => decrypt_payload (tv_vault t) payload None
  end.

(** The build with compression only. *)
Definition tree_compress (c : option Compression) (payload : bytes) : vaultr bytes :=
  match c with
  | Some Lz4 =>
      if 128 <=? blen payload then
        uncompressed_length ← unwrap (try_from_int u32 (blen payload));
        Ok (trv ++ compression_as_u8 Lz4 :: to_le_bytes u32 uncompressed_length ++ lz4_compress payload)
      else Ok payload
  | None => Ok payload
  end.
Definition tree_decompress (payload : bytes) : vaultr bytes :=
  match tree_header payload with
  | Some (header, payload) =>
      if header_encrypted header then Err EncryptionDisabled
      else decompress (header_compression header) payload
  | None => Ok payload
  end.

(** The build with encryption only. *)
Definition tree_encrypt_only (key : option KeyId) (v : Vault) (nonce payload : bytes) : vaultr bytes :=
  match key with
  | Some key => encrypt_payload v nonce key payload None
  | None => Ok payload
  end.
Definition tree_decrypt_only (v : Vault) (payload : bytes) : vaultr bytes := decrypt_payload v payload None.

(** ** The vault of the trees of a collection *)

Definition collection_encryption_key (schema : Schematic) (default_key : option KeyId) (c : CollectionName) : option KeyId :=
  match collection_encryption_keys schema !! c with Some k => Some k | None => default_key end.

(** In [open_trees_for_transaction], which writes, and in [collection_tree],
    which reads. *)
Definition transaction_vault (schema : Schematic) (default_key : option KeyId) (v : Vault) (tree_vault : option TreeVault)
    (c : CollectionName) : option TreeVault :=
  match collection_encryption_key schema default_key c with
  | Some encryption_key =>
      match tree_vault with
      | Some vault => Some (set_tv_key (Some encryption_key) vault)
      | None => new_if_needed (Some encryption_key) v None
      end
  | None => tree_vault
  end.
Definition collection_tree_vault (schema : Schematic) (default_key : option KeyId) (v : Vault) (tree_vault : option TreeVault)
    (c : CollectionName) : option TreeVault :=
  match collection_encryption_key schema default_key c, tree_vault with
  | Some override_key, Some vault => Some (set_tv_key (Some override_key) vault)
  | None, Some vault => Some vault
  | key, None => new_if_needed key v None
  end.
End Vaults.
