(* ===== verification/StoreDemo.v ===== *)
(** * Serializers and data for examples

    Instances of the third-party serializers, a collection and views on which
    the theorems on documents and views are evaluated. *)

From Stdlib Require Import ZArith Lia String.
From stdpp Require Import base list option numbers gmap.
From S2P Require Import Prelude Bytes Nebari Document Names Changes Key Schema Permissions View Integrity.

Local Open Scope Z_scope.

Module StoreDemo.
Import MemNebari.

#[export] Instance Revision_countable : Countable Revision.
Proof.
  apply (inj_countable' (fun r => (rev_id r, sha256 r)) (fun p => MkRevision p.1 p.2)). by intros [].
Defined.
#[export] Instance Header_countable : Countable Header.
Proof.
  apply (inj_countable' (fun h => (id h, revision h)) (fun p => MkHeader p.1 p.2)). by intros [].
Defined.
#[export] Instance Doc_eq_dec : EqDecision Doc.
Proof. solve_decision. Defined.
#[export] Instance Doc_countable : Countable Doc.
Proof.
  apply (inj_countable' (fun d => (header d, contents d)) (fun p => MkDoc p.1 p.2)). by intros [].
Defined.
#[export] Instance EntryMapping_eq_dec : EqDecision EntryMapping.
Proof. solve_decision. Defined.
#[export] Instance EntryMapping_countable : Countable EntryMapping.
Proof.
  apply (inj_countable' (fun m => (em_source m, em_value m)) (fun p => MkEntryMapping p.1 p.2)). by intros [].
Defined.
#[export] Instance ViewEntry_eq_dec : EqDecision ViewEntry.
Proof. solve_decision. Defined.
#[export] Instance ViewEntry_countable : Countable ViewEntry.
Proof.
  apply (inj_countable' (fun e => (view_version e, ve_key e, mappings e, reduced_value e))
           (fun p => MkViewEntry p.1.1.1 p.1.1.2 p.1.2 p.2)). by intros [].
Defined.

#[export] Instance demo_documents : DocumentCodec := {|
  pot_to_vec d := Some (bits (encode d));
  pot_from_slice bs := decode (unbits bs);
  bincode_legacy_document _ := None |}.
#[export] Instance demo_documents_laws : DocumentCodecLaws demo_documents.
Proof. intros d b [= <-]. simpl. by rewrite unbits_bits, decode_encode. Qed.

#[export] Instance demo_views : ViewCodec := {|
  serialize_view_entry e := Some (bits (encode e));
  deserialize_view_entry bs := decode (unbits bs);
  serialize_keys s := Some (bits (encode s));
  deserialize_keys bs := decode (unbits bs) |}.
#[export] Instance demo_views_laws : ViewCodecLaws demo_views.
Proof.
  split.
  - intros e. eexists. split; [done|]. simpl. by rewrite unbits_bits, decode_encode.
  - intros s b [= <-]. simpl. by rewrite unbits_bits, decode_encode.
Qed.

#[export] Instance ViewVersion_countable : Countable ViewVersion.
Proof.
  apply (inj_countable' (fun v => (internal_version v, schema_version v)) (fun p => MkViewVersion p.1 p.2)). by intros [].
Defined.
#[export] Instance demo_versions : VersionCodec := {|
  pot_version_to_vec v := Some (bits (encode v));
  pot_version_from_slice bs := match decode (unbits bs) with Some v => PotOk v | None => NotAPot end |}.
#[export] Instance demo_versions_laws : VersionCodecLaws demo_versions.
Proof. intros v b [= <-]. simpl. by rewrite unbits_bits, decode_encode. Qed.

(** Permissions are the actions that are allowed, whatever the resource. *)
#[export] Instance demo_actionable : Actionable := {|
  Identifier := str + bytes + Z; ident_str s := inl (inl s); ident_bytes b := inl (inr b); ident_u64 n := inr n;
  Permissions := BonsaiAction -> bool; allowed_to p _ a := p a; allowed_to_use_key _ _ _ := true;
  Statement := BonsaiAction; permissions_from l a := bool_decide (a ∈ l); permissions_default _ := false;
  permissions_merged l a := existsb (fun p => p a) l |}.
#[export] Instance demo_actionable_laws : ActionableLaws.
Proof.
  split; [done|]. intros ps r a. simpl. rewrite existsb_exists. by setoid_rewrite list_elem_of_In.
Qed.
Definition session_without (a : BonsaiAction) : option Session := Some (MkSession None AuthNone (fun b => bool_decide (b <> a))).

(** Not SHA-256: the examples only compare digests of short contents. *)
#[export] Instance demo_digest : Digest := fun bs => bs.

Definition notes : CollectionName := qualified_new (lit "demo") (lit "notes").
Definition sum_heads (ms : list (bytes * bytes)) : Z := foldr (fun m n => default 0 (head m.2) + n) 0 ms.
(** Documents by their contents, counting. *)
Definition by_contents (p : ViewUpdatePolicy) : View :=
  MkView (MkViewName notes (name_from (lit "by-contents"))) notes 0 p
    (fun doc => Ok [MkMapping (header doc) (contents doc) [1]])
    (fun ms _ => Ok [sum_heads ms]).

Lemma by_contents_wf p :
  view_wf (view_name (by_contents p)) /\ qualified_wf (view_collection (by_contents p)).
Proof. repeat split. Qed.

(** The documents of one length, mapped when queried. *)
Definition by_length : View :=
  MkView (MkViewName notes (name_from (lit "by-length"))) notes 0 Lazy
    (fun doc => Ok [MkMapping (header doc) [blen (contents doc)] []])
    (fun _ _ => Err ReduceUnimplemented).

#[export] Existing Instance demo_changes.

Definition demo_collection : Collection :=
  MkCollection 0 notes None key_u64 [(1, by_contents Unique); (2, by_length)].
Definition demo_schema : Schematic := (define_collections [demo_collection] (schematic_new notes)).2.

Lemma demo_schema_ok : from_schema notes [demo_collection] = Ok demo_schema.
Proof. reflexivity. Qed.

End StoreDemo.
