(* ===== verification/VaultTheorems.v ===== *)
(** * Encrypted and compressed trees are read as they were written

    The round trips of the three builds of the vault of trees and the payloads
    they misread, the agreement of the builds and of the readers and writers of
    a collection, and the master keys across restarts. *)

From Stdlib Require Import ZArith Lia String.
From stdpp Require Import base list option numbers gmap.
From S2P Require Import Prelude Bytes Utf8 Nebari Document Names Schema Permissions View Vault StoreDemo.

Local Open Scope Z_scope.

Section Trees.
Context `{Actionable} `{VaultCrates} `{!VaultCratesLaws}.
Implicit Types (t : TreeVault) (p b nonce : bytes).

Lemma wrap_u32 n : 0 <= n <= int_max u32 -> wrap u32 n = n.
Proof. intros Hn. apply wrap_id; [done|]. apply in_range_spec. change (int_min u32) with 0. lia. Qed.

Lemma lz4_prepended p : blen p <= int_max u32 -> decompress (Some Lz4) (lz4_compress_prepend_size p) = Ok p.
Proof.
  intros Hp. unfold decompress, lz4_compress_prepend_size. rewrite wrap_u32 by (unfold blen in *; lia).
  by rewrite lz4_roundtrip.
Qed.

Lemma tree_header_trv h rest : tree_header (trv ++ h :: rest) = Some (h, rest).
Proof. done. Qed.

Lemma encrypt_payload_roundtrip v nonce k p b :
  encrypt_payload v nonce k p None = Ok b -> decrypt_payload v b None = Ok p.
Proof.
  unfold encrypt_payload, decrypt_payload. destruct k; [done| |done]. intros Hrun. simpl in Hrun. inv_res.
  rewrite bincode_payload_roundtrip. unfold vault_decrypt, key_encrypt_payload in *. simpl. inv_res. simpl.
  match goal with Hk : current_master_key v = _ |- _ => rewrite Hk end. simpl.
  unfold key_decrypt_payload, nonce_array in *. simpl. destruct (blen nonce =? 24); [|done]. inv_res. simpl. by erewrite aead_roundtrip.
Qed.

(** The payload is stored as it is. *)
Definition stored_plain t p : Prop := tv_key t = None /\ (tv_compression t = None \/ blen p < 128).
(** It cannot be taken for a header or for an encrypted payload. *)
Definition unambiguous p : Prop := tree_header p = None /\ bincode_to_payload p = None.

(** The vault of trees reads back what it wrote, encrypted or not,
    compressed or not, when a payload that is stored as it is cannot be taken
    for one that is not. *)
Theorem tree_vault_roundtrip t nonce p b :
  blen p <= int_max u32 -> (stored_plain t p -> unambiguous p) ->
  tree_encrypt t nonce p = Ok b -> tree_decrypt t b = Ok p.
Proof.
  intros Hp Hplain Hrun. unfold tree_encrypt in Hrun. destruct t as [compression key v]. unfold stored_plain in Hplain.
  cbn [tv_compression tv_key tv_vault] in *.
  assert (exists inc compressed, (match compression with
    | Some Lz4 => if 128 <=? blen p then (true, lz4_compress_prepend_size p) else (false, p)
    | None => (false, p) end) = (inc, compressed) /\ decompress (if inc : bool then Some Lz4 else None) compressed = Ok p /\
    (inc = true -> compression = Some Lz4) /\ (inc = false -> compressed = p /\ (compression = None \/ blen p < 128)))
    as (inc & compressed & Heq & Hdec & Hc & Hi).
  { destruct compression as [[]|]; [destruct (Z.leb_spec 128 (blen p))|]; eexists _, _; (split; [reflexivity|]);
      (split; [by try apply lz4_prepended|]); (split; [done|]); try done; intros _; split; [done|lia| |]; auto. }
  rewrite Heq in Hrun. destruct key as [k|]; apply bind_Ok_inv in Hrun as (complete & Hcomplete & Hb).
  - injection Hb as <-. unfold tree_vault_header, tree_decrypt. simpl.
    apply encrypt_payload_roundtrip in Hcomplete. destruct inc.
    + rewrite (Hc eq_refl). simpl. by rewrite Hcomplete.
    + simpl. rewrite Hcomplete. done.
  - injection Hcomplete as <-. injection Hb as <-. unfold tree_vault_header, tree_decrypt. simpl. destruct inc.
    + by rewrite (Hc eq_refl).
    + destruct (Hi eq_refl) as [-> Hsmall]. simpl. destruct (Hplain (conj eq_refl Hsmall)) as [-> Hn].
      unfold decrypt_payload. by rewrite Hn.
Qed.

(** A payload of fewer than 128 bytes that begins with the three letters of
    the header is stored as it is by a vault without a key; reading it back
    drops its first four bytes, unless the fourth says that it is encrypted or
    compressed. *)
Theorem short_payload_misread t nonce h rest :
  tv_key t = None -> blen rest < 124 -> header_encrypted h = false -> header_compression h = None ->
  tree_encrypt t nonce (trv ++ h :: rest) = Ok (trv ++ h :: rest) /\
  tree_decrypt t (trv ++ h :: rest) = Ok rest /\
  tree_compress (tv_compression t) (trv ++ h :: rest) = Ok (trv ++ h :: rest) /\
  tree_decompress (trv ++ h :: rest) = Ok rest.
Proof.
  intros Hk Hlen He Hc. assert (128 <=? blen (trv ++ h :: rest) = false) as Hs.
  { apply Z.leb_gt. unfold blen in *. rewrite length_app. simpl. lia. }
  unfold tree_encrypt, tree_decrypt, tree_compress, tree_decompress, tree_vault_header.
  rewrite tree_header_trv, He, Hk, Hs. simpl. rewrite Hc. split_and!; [|done| |done]; by destruct (tv_compression t) as [[]|].
Qed.

(** The build with compression only writes what the build with encryption
    writes without a key, so each reads what the other wrote. *)
Theorem builds_write_alike c v nonce p :
  blen p <= int_max u32 -> tree_compress c p = tree_encrypt (MkTreeVault c None v) nonce p.
Proof.
  intros Hp. unfold tree_compress, tree_encrypt, tree_vault_header. simpl. destruct c as [[]|]; [|done].
  destruct (128 <=? blen p); [|done]. unfold try_from_int.
  assert (in_range u32 (blen p) = true) as ->. { apply in_range_spec. change (int_min u32) with 0. unfold blen in *. lia. }
  simpl. unfold lz4_compress_prepend_size. rewrite wrap_u32 by (unfold blen in *; lia). done.
Qed.

(** The build with compression only reads back what it wrote, and reports what
    was encrypted. *)
Lemma tree_compress_roundtrip c p b :
  (c = None \/ blen p < 128 -> tree_header p = None) -> tree_compress c p = Ok b -> tree_decompress b = Ok p.
Proof.
  intros Hplain Hrun. unfold tree_compress in Hrun. destruct c as [[]|].
  - destruct (Z.leb_spec 128 (blen p)) as [|Hs].
    + inv_res. unfold try_from_int in *. destruct (in_range u32 (blen p)) eqn:Hr; [|done]. simplify_eq.
      apply in_range_spec in Hr. unfold tree_decompress. rewrite tree_header_trv.
      change (decompress (Some Lz4) (to_le_bytes u32 (blen p) ++ lz4_compress p) = Ok p). unfold decompress. by rewrite lz4_roundtrip by lia.
    + injection Hrun as <-. unfold tree_decompress. by rewrite Hplain by auto.
  - injection Hrun as <-. unfold tree_decompress. by rewrite Hplain by auto.
Qed.
Lemma encrypted_disabled t nonce p b :
  tv_key t <> None -> tree_encrypt t nonce p = Ok b -> tree_decompress b = Err EncryptionDisabled.
Proof.
  intros Hk Hrun. unfold tree_encrypt, tree_vault_header in Hrun. destruct t as [compression [k|] v]; [|done]. simpl in *.
  destruct compression as [[]|]; [destruct (128 <=? blen p)|]; inv_res; done.
Qed.

(** The build with encryption only. *)
Lemma tree_encrypt_only_roundtrip key v nonce p b :
  (key = None -> bincode_to_payload p = None) -> tree_encrypt_only key v nonce p = Ok b -> tree_decrypt_only v b = Ok p.
Proof.
  intros Hplain Hrun. unfold tree_encrypt_only, tree_decrypt_only in *. destruct key as [k|].
  - by eapply encrypt_payload_roundtrip.
  - injection Hrun as <-. unfold decrypt_payload. by rewrite Hplain.
Qed.

(** A transaction writes the trees of a collection through the vault that
    queries read them through. *)
Theorem readers_and_writers_agree schema default_key v tree_vault c :
  transaction_vault schema default_key v tree_vault c = collection_tree_vault schema default_key v tree_vault c.
Proof.
  unfold transaction_vault, collection_tree_vault.
  destruct (collection_encryption_key schema default_key c), tree_vault; done.
Qed.
End Trees.

(** ** Restarting *)

Section Restart.
Context `{Actionable} `{VaultCrates} `{!VaultCratesLaws} {St : Type} `{!FileSystem St} `{!FileSystemLaws}.
#[local] Existing Instance local_key_storage.

Lemma server_file_not_master id : server_file id <> master_keys_path.
Proof. by intros Heq%(f_equal head). Qed.

Lemma stored_key_found id pair (s : St) :
  file_read (server_file id) s = Some (bincode_keypair pair) -> file_exists (server_file id) s = true ->
  in_storage (vault_key_for id) s = (Ok (Some pair), s).
Proof.
  intros Hr He. unfold in_storage, vault_key_for, local_key_storage, mbind, stm_bind, st_get, read_or, st_lift. simpl.
  rewrite He, Hr. simpl. by rewrite bincode_keypair_roundtrip.
Qed.

Lemma unsealed id pair r keys (s : St) sealed tag e v :
  keys_match pair -> hpke_seal r (kp_public pair) (bincode_keys keys) = Some (sealed, tag, e) ->
  file_read master_keys_path s = Some (bincode_hpke (MkHpkePayload sealed tag e)) ->
  in_storage (vault_key_for id) s = (Ok (Some pair), s) -> max_key keys = Some v ->
  unseal id s = (Ok (MkVault keys v), s).
Proof.
  intros Hmatch Hseal Hfile Hkey Hmax. unfold unseal, read_or.
  erewrite stm_bind_Ok; [|by rewrite Hfile]. rewrite bincode_hpke_roundtrip. simpl. stm_step. erewrite stm_bind_Ok by exact Hkey. simpl.
  rewrite (Hmatch _ _ _ _ _ Hseal). stm_step. rewrite bincode_keys_roundtrip. stm_step. rewrite Hmax. by stm_step.
Qed.

(** C30: A vault initialized in an empty directory is found again: opening it
    later returns the same master keys whatever is drawn at random then, and
    changes no file. *)
Theorem vault_survives_restart id master_key pair r (s s' : St) v :
  keys_match pair -> file_exists master_keys_path s = false ->
  vault_initialize master_key pair r id s = (Ok v, s') ->
  master_keys v = {[ 0 := master_key ]} /\
  forall master_key' pair' r', vault_initialize master_key' pair' r' id s' = (Ok v, s').
Proof.
  intros Hmatch Hnew Hrun. unfold vault_initialize in *.
  apply stm_bind_Ok_inv in Hrun as (s0 & s1 & [= <- <-] & Hrun). rewrite Hnew in Hrun. unfold initialize_vault_key_storage in Hrun.
  apply stm_bind_Ok_inv in Hrun as ([] & s1 & Hset & Hrun).
  unfold in_storage at 1, set_vault_key_for, local_key_storage, write_or in Hset. simpl in Hset.
  destruct (file_write (server_file id) (bincode_keypair pair) s) as [[] s1'] eqn:Hw; [|done]. injection Hset as ->.
  pose proof (write_read _ _ _ _ Hw) as [Hr He].
  apply stm_bind_Ok_inv in Hrun as (retrieved & s2 & Hget & Hrun). rewrite stored_key_found with (pair := pair) in Hget by done.
  injection Hget as <- <-. rewrite bool_decide_eq_true_2 in Hrun by done.
  apply stm_bind_Ok_inv in Hrun as ([[sealed tag] e] & s3 & Hseal & Hrun). unfold st_lift in Hseal. injection Hseal as Hseal <-.
  apply ok_or_Ok_inv in Hseal. apply stm_bind_Ok_inv in Hrun as ([] & s4 & Hwm & [= <- <-]). unfold write_or in Hwm.
  destruct (file_write master_keys_path _ s1) as [[] s4'] eqn:Hwf; [|done]. injection Hwm as ->.
  pose proof (write_read _ _ _ _ Hwf) as [Hrm Hem].
  pose proof (write_others _ _ _ _ _ (server_file id) Hwf (server_file_not_master id)) as [Hro Heo].
  split; [done|]. intros mk' pair' r'. erewrite stm_bind_Ok by reflexivity. rewrite Hem.
  eapply unsealed; [done|done|done|by apply stored_key_found; [rewrite Hro|rewrite Heo]|].
  unfold max_key. by rewrite dom_singleton_L, elements_singleton.
Qed.
End Restart.

(** ** Examples *)

Module VaultExamples.
Import MemNebari StoreDemo.

#[local] Instance KeyId_eq_dec : EqDecision KeyId.
Proof. solve_decision. Defined.
#[local] Instance KeyId_countable : Countable KeyId.
Proof.
  apply (inj_countable' (fun k => match k with KeyIdNone => None | KeyIdMaster => Some None | KeyIdId s => Some (Some s) end)
           (fun o => match o with None => KeyIdNone | Some None => KeyIdMaster | Some (Some s) => KeyIdId s end)). by intros [].
Defined.
#[local] Instance Encryption_eq_dec : EqDecision Encryption.
Proof. solve_decision. Defined.
#[local] Instance VaultPayload_eq_dec : EqDecision VaultPayload.
Proof. solve_decision. Defined.
#[local] Instance VaultPayload_countable : Countable VaultPayload.
Proof.
  apply (inj_countable' (fun p => (vp_key_id p, vp_key_version p, vp_payload p, vp_nonce p))
           (fun p => MkVaultPayload p.1.1.1 p.1.1.2 XChaCha20Poly1305 p.1.2 p.2)). by intros [? ? [] ? ?].
Defined.
#[local] Instance HpkePayload_eq_dec : EqDecision HpkePayload.
Proof. solve_decision. Defined.
#[local] Instance HpkePayload_countable : Countable HpkePayload.
Proof.
  apply (inj_countable' (fun p => (hp_payload p, hp_tag p, hp_encapsulated_key p)) (fun p => MkHpkePayload p.1.1 p.1.2 p.2)). by intros [].
Defined.
#[local] Instance KeyPair_eq_dec : EqDecision KeyPair.
Proof. solve_decision. Defined.
#[local] Instance KeyPair_countable : Countable KeyPair.
Proof. apply (inj_countable' (fun k => (kp_private k, kp_public k)) (fun p => MkKeyPair p.1 p.2)). by intros []. Defined.

(** Ciphers that reverse what they encrypt, and a compression that keeps it. *)
#[local] Instance demo_crates : VaultCrates := {|
  aead_encrypt _ _ p := Some (rev p); aead_decrypt _ _ c := Some (rev c);
  lz4_compress p := p; lz4_decompress_size_prepended b := Some (drop 4 b);
  bincode_payload p := bits (encode p); bincode_to_payload b := decode (unbits b);
  bincode_keys k := bits (encode k); bincode_to_keys b := decode (unbits b);
  bincode_hpke p := bits (encode p); bincode_to_hpke b := decode (unbits b);
  bincode_keypair k := bits (encode k); bincode_to_keypair b := decode (unbits b);
  hpke_seal r public p := Some (rev p, r, public);
  hpke_open private e c t := if bool_decide (e = private) then Some (rev c) else None |}.
#[local] Instance demo_crates_laws : VaultCratesLaws.
Proof.
  split; simpl; intros; rewrite ?unbits_bits, ?decode_encode; try done.
  - simplify_eq. by rewrite rev_involutive.
Qed.

Definition demo_vault : Vault := MkVault {[ 0 := [1; 2; 3] ]} 0.
Definition locked : TreeVault := MkTreeVault (Some Lz4) (Some KeyIdMaster) demo_vault.
Definition compressing : TreeVault := MkTreeVault (Some Lz4) None demo_vault.
Definition demo_nonce : bytes := replicate 24 7.
Definition hello : bytes := lit "hello".

Lemma tree_vault_roundtrip_witness :
  exists b, tree_encrypt locked demo_nonce hello = Ok b /\ tree_decrypt locked b = Ok hello.
Proof.
  eexists. split; [reflexivity|].
  apply (tree_vault_roundtrip locked demo_nonce hello); [done|by intros [? _]|reflexivity].
Defined.

(** The text "trvial" becomes "al". *)
Lemma short_payload_misread_witness :
  tree_encrypt compressing demo_nonce (lit "trvial") = Ok (lit "trvial") /\ tree_decrypt compressing (lit "trvial") = Ok (lit "al").
Proof.
  destruct (short_payload_misread compressing demo_nonce 105 (lit "al")) as (He & Hd & _); [done..|]. by split.
Defined.

Lemma builds_write_alike_witness :
  tree_compress (Some Lz4) hello = Ok hello /\ tree_compress (Some Lz4) hello = tree_encrypt compressing demo_nonce hello.
Proof. split; [done|]. by apply (builds_write_alike (Some Lz4) demo_vault). Defined.

#[local] Instance memory_files : FileSystem (gmap str bytes) := {|
  file_exists name s := bool_decide (is_Some (s !! name)); file_read name s := s !! name;
  file_write name bs s := (true, <[name := bs]> s) |}.
#[local] Instance memory_files_laws : FileSystemLaws.
Proof.
  split; simpl.
  - intros name bs s s' [= <-]. rewrite lookup_insert_eq. split; [done|]. by apply bool_decide_eq_true_2.
  - intros name bs s b s' other [= _ <-] Hne. by rewrite lookup_insert_ne.
Qed.
Definition pair : KeyPair := MkKeyPair [5] [5].
Lemma pair_matches : keys_match pair.
Proof. intros r p c t e [= <- <- <-]. simpl. by rewrite rev_involutive. Qed.
#[local] Existing Instance local_key_storage.

Lemma vault_survives_restart_witness :
  exists (v : Vault) (s' : gmap str bytes), vault_initialize [1; 2; 3] pair [] 9 (∅ : gmap str bytes) = (Ok v, s') /\
    vault_initialize [4] pair [6] 9 s' = (Ok v, s').
Proof.
  assert (vault_initialize [1; 2; 3] pair [] 9 (∅ : gmap str bytes) =
    (Ok demo_vault, (vault_initialize [1; 2; 3] pair [] 9 (∅ : gmap str bytes)).2)) as Hrun by (vm_compute; reflexivity).
  eexists _, _. split; [exact Hrun|].
  exact (proj2 (vault_survives_restart 9 [1; 2; 3] pair [] ∅ _ demo_vault pair_matches eq_refl Hrun) [4] pair [6]).
Defined.
End VaultExamples.
