(* ===== verification/ViewLaws.v ===== *)
(** * Laws of the view mapper

    What one entry, one batch and one request of the mapper do to the trees of
    a view, and that they keep them in agreement with the documents. *)

From Stdlib Require Import ZArith Lia Sorting.Sorted.
From stdpp Require Import base list option numbers gmap sorting.
From S2P Require Import Prelude Bytes Nebari Document Names Schema View.

Local Open Scope Z_scope.

(** ** Mappings of an entry, by document *)

Definition em_id (m : EntryMapping) : bytes := id (em_source m).

(** The revision and value an entry holds for a document. *)
Fixpoint find_mapping (d : bytes) (ms : list EntryMapping) : option (Revision * bytes) :=
  match ms with
  | [] => None
  | m :: ms => if decide (em_id m = d) then Some (revision (em_source m), em_value m) else find_mapping d ms
  end.

(** The last mapping of a document in a list of emitted mappings. *)
Fixpoint last_mapping (d : bytes) (new : list Mapping) : option (Revision * bytes) :=
  match new with
  | [] => None
  | m :: new =>
      match last_mapping d new with
      | Some x => Some x
      | None => if decide (id (source m) = d) then Some (revision (source m), map_value m) else None
      end
  end.

Lemma find_mapping_Some d ms : is_Some (find_mapping d ms) <-> d ∈ em_id <$> ms.
Proof.
  induction ms as [|m ms IH]; simpl.
  - split; [by intros []|by intros ?%elem_of_nil].
  - rewrite elem_of_cons. case_decide as Hd; [split; [by left|by eexists]|]. rewrite IH. naive_solver.
Qed.

Lemma find_mapping_None d ms : find_mapping d ms = None <-> d ∉ em_id <$> ms.
Proof. by rewrite <- find_mapping_Some, eq_None_not_Some. Qed.

Lemma find_set_mapping d m ms :
  find_mapping d (set_mapping m ms) =
    if decide (em_id m = d) then Some (revision (em_source m), em_value m) else find_mapping d ms.
Proof.
  induction ms as [|x ms IH]; [done|]. simpl.
  change (id (em_source x)) with (em_id x). change (id (em_source m)) with (em_id m).
  destruct (decide (em_id x = em_id m)) as [Hx|Hx]; simpl.
  - change (em_id (MkEntryMapping _ _)) with (em_id x). rewrite Hx. by destruct (decide (em_id m = d)).
  - rewrite IH. destruct (decide (em_id x = d)) as [<-|]; [|done].
    rewrite decide_False by congruence. done.
Qed.

Lemma set_mapping_ids m ms :
  em_id <$> set_mapping m ms = (em_id <$> ms) ++ (if decide (em_id m ∈ em_id <$> ms) then [] else [em_id m]).
Proof.
  induction ms as [|x ms IH]; [done|]. csimpl.
  change (id (em_source x)) with (em_id x). change (id (em_source m)) with (em_id m).
  destruct (decide (em_id x = em_id m)) as [Hx|Hx]; csimpl.
  - change (em_id (MkEntryMapping _ _)) with (em_id x).
    rewrite decide_True; [by rewrite app_nil_r|]. rewrite <- Hx. left.
  - rewrite IH. f_equal. f_equal. destruct (decide (em_id m ∈ em_id <$> ms)) as [Hin|Hin].
    + rewrite decide_True; [done|by right].
    + rewrite decide_False; [done|]. rewrite elem_of_cons. naive_solver.
Qed.

Lemma set_mapping_NoDup m ms : NoDup (em_id <$> ms) -> NoDup (em_id <$> set_mapping m ms).
Proof.
  intros Hn. rewrite set_mapping_ids. case_decide as Hd; [by rewrite app_nil_r|].
  apply NoDup_app. split_and!; [done| |apply NoDup_singleton].
  intros x Hx ->%list_elem_of_singleton. done.
Qed.

Definition entry_mapping (m : Mapping) : EntryMapping := MkEntryMapping (source m) (map_value m).
Definition set_mappings (new : list Mapping) (ms : list EntryMapping) : list EntryMapping :=
  foldl (fun ms m => set_mapping (entry_mapping m) ms) ms new.

Lemma find_set_mappings d new ms :
  find_mapping d (set_mappings new ms) =
    match last_mapping d new with Some x => Some x | None => find_mapping d ms end.
Proof.
  revert ms. induction new as [|m new IH]; intros ms; simpl; [done|].
  rewrite IH, find_set_mapping. unfold em_id. simpl. destruct (last_mapping d new); [done|].
  by destruct (decide (id (source m) = d)).
Qed.

Lemma set_mappings_NoDup new ms : NoDup (em_id <$> ms) -> NoDup (em_id <$> set_mappings new ms).
Proof. revert ms. induction new; intros ms Hn; simpl; [done|]. by apply IHnew, set_mapping_NoDup. Qed.

Lemma last_mapping_app d l1 l2 :
  last_mapping d (l1 ++ l2) = match last_mapping d l2 with Some x => Some x | None => last_mapping d l1 end.
Proof.
  induction l1 as [|m l1 IH]; simpl; [by destruct (last_mapping d l2)|].
  rewrite IH. by destruct (last_mapping d l2).
Qed.

Lemma last_mapping_Some d new : is_Some (last_mapping d new) <-> exists m, m ∈ new /\ id (source m) = d.
Proof.
  induction new as [|m new IH]; simpl.
  - split; [by intros []|by intros (? & ?%elem_of_nil & _)].
  - destruct (last_mapping d new) as [x|] eqn:E.
    + split; [intros _|by eexists]. destruct (proj1 IH) as (m' & ? & ?); [by eexists|].
      exists m'. split; [by right|done].
    + assert (~ exists m, m ∈ new /\ id (source m) = d) as Hno by (rewrite <- IH; by intros []).
      case_decide as Hd.
      * split; [intros _|by eexists]. exists m. split; [left|done].
      * split; [by intros []|]. intros (m' & [->|Hin]%elem_of_cons & ?); [done|]. exfalso. eauto.
Qed.

Lemma find_filter_notin (d : bytes) (ids : gset bytes) (ms : list EntryMapping) :
  find_mapping d (filter (fun m => em_id m ∉ ids) ms) = if decide (d ∈ ids) then None else find_mapping d ms.
Proof.
  induction ms as [|m ms IH]; simpl; [by case_decide|]. rewrite filter_cons.
  destruct (decide (em_id m ∉ ids)) as [Hm|Hm]; simpl; rewrite IH.
  - destruct (decide (em_id m = d)) as [<-|]; [|done]. by rewrite decide_False.
  - apply dec_stable in Hm. destruct (decide (em_id m = d)) as [<-|]; [|done].
    by rewrite !decide_True.
Qed.

Lemma NoDup_filter_ids (P : EntryMapping -> Prop) `{forall m, Decision (P m)} ms :
  NoDup (em_id <$> ms) -> NoDup (em_id <$> filter P ms).
Proof.
  induction ms as [|m ms IH]; simpl; [done|]. rewrite NoDup_cons, filter_cons. intros [Hm Hn].
  destruct (decide (P m)); [|by apply IH]. simpl. constructor; [|by apply IH].
  intros (x & Hx & Hin)%list_elem_of_fmap. apply list_elem_of_filter in Hin as [_ Hin].
  apply Hm. rewrite Hx. by apply list_elem_of_fmap_2.
Qed.

(** ** One entry *)

Section Entry.
Context `{Nebari} `{ViewCodec} `{!ViewCodecLaws _}.

(** The mappings stored under a key. *)
Definition stored_mappings (o : option bytes) : list EntryMapping :=
  from_option mappings [] (o ≫= deserialize_view_entry).

(** What the mapper makes of the mappings of a key. *)
Definition cleaned (o : option (gset bytes)) (ms : list EntryMapping) : list EntryMapping :=
  match o with Some ids => filter (fun m => em_id m ∉ ids) ms | None => ms end.
Definition remapped (to_clean : option (gset bytes)) (new : option (list Mapping)) (ms : list EntryMapping) :=
  set_mappings (default [] new) (cleaned to_clean ms).

Lemma apply_reduce_cases v key e u r u' :
  apply_reduce v key e u = (r, u') ->
  view_entries_to_clean u' = view_entries_to_clean u /\ new_mappings u' = new_mappings u /\
  match r with
  | Ok e' => mappings e' = mappings e /\ updater_result u' = updater_result u
  | Err op => op = OpSkip /\ is_Some (updater_result u')
  | Panic => True
  end.
Proof.
  unfold apply_reduce. rewrite (stm_bind_Ok st_get _ u u u) by done.
  destruct (has_reduce u); [|by intros [= <- <-]].
  destruct (view_reduce v _ false) as [x|[|c]|]; intros [= <- <-]; simpl; split_and!; try done; by eexists.
Qed.

Lemma check_unique_cases v m ms u r u' :
  check_unique v m ms u = (r, u') ->
  view_entries_to_clean u' = view_entries_to_clean u /\ new_mappings u' = new_mappings u /\
  match r with
  | Ok _ => u' = u /\ (update_policy v = Unique -> (length ms <= 1)%nat ->
                       (length (set_mapping (entry_mapping m) ms) <= 1)%nat)
  | Err op => op = OpSkip /\ is_Some (updater_result u')
  | Panic => False
  end.
Proof.
  unfold check_unique. destruct (update_policy v); [by intros [= <- <-]..|].
  destruct ms as [|x ms]; [intros [= <- <-]; split_and!; simpl; auto|].
  case_decide as Hd; intros [= <- <-]; split_and!; try done; try by eexists.
  intros _ Hl. simpl. by rewrite decide_True.
Qed.

Lemma add_mappings_cases v new ms u r u' :
  add_mappings v new ms u = (r, u') ->
  view_entries_to_clean u' = view_entries_to_clean u /\ new_mappings u' = new_mappings u /\
  match r with
  | Ok ms' => ms' = set_mappings new ms /\ u' = u /\
      (update_policy v = Unique -> (length ms <= 1)%nat -> (length ms' <= 1)%nat)
  | Err op => op = OpSkip /\ is_Some (updater_result u')
  | Panic => False
  end.
Proof.
  revert ms. induction new as [|m new IH]; intros ms; simpl; [by intros [= <- <-]|].
  destruct (check_unique v m ms u) as [r1 u1] eqn:Hc. rewrite (stm_bind_run _ _ _ _ _ Hc).
  apply check_unique_cases in Hc as (Hc & Hn & Hr1). destruct r1 as [[]|op|]; [|by intros [= <- <-]|done].
  destruct Hr1 as [-> Hlen]. intros Hrun. apply IH in Hrun as (Hc' & Hn' & Hr).
  split; [done|]. split; [done|]. destruct r as [ms'|op|]; [|done..].
  destruct Hr as (-> & -> & Hl). split_and!; auto.
Qed.

Lemma clean_entry_cases v key e u r u' :
  clean_entry v key e u = (r, u') ->
  let ms := cleaned (view_entries_to_clean u !! key) (mappings e) in
  view_entries_to_clean u' = delete key (view_entries_to_clean u) /\ new_mappings u' = new_mappings u /\
  match r with
  | Ok e' => mappings e' = ms /\ updater_result u' = updater_result u
  | Err OpRemove => ms = [] /\ new_mappings u !! key = None /\ updater_result u' = updater_result u
  | Err op => op = OpSkip /\ is_Some (updater_result u')
  | Panic => True
  end.
Proof.
  unfold clean_entry. rewrite (stm_bind_Ok st_get _ u u u) by done.
  destruct (view_entries_to_clean u !! key) as [ids|] eqn:Hids; simpl.
  2: { intros [= <- <-]. by rewrite delete_id. }
  erewrite (stm_bind_Ok (st_put _)) by reflexivity.
  case_bool_decide as Hms; simpl; [case_bool_decide as Hnew; simpl|]; [by intros [= <- <-]|..];
    intros Hred%apply_reduce_cases; simpl in Hred; destruct Hred as (-> & -> & Hr);
    destruct r as [e'|op|]; try done; by destruct Hr as [-> ?].
Qed.

Lemma extend_entry_cases v key e u r u' :
  extend_entry v key e u = (r, u') ->
  let ms := set_mappings (default [] (new_mappings u !! key)) (mappings e) in
  view_entries_to_clean u' = view_entries_to_clean u /\ new_mappings u' = delete key (new_mappings u) /\
  match r with
  | Ok e' => mappings e' = ms /\ updater_result u' = updater_result u /\
      (update_policy v = Unique -> (length (mappings e) <= 1)%nat -> (length ms <= 1)%nat)
  | Err op => op = OpSkip /\ is_Some (updater_result u')
  | Panic => True
  end.
Proof.
  unfold extend_entry. rewrite (stm_bind_Ok st_get _ u u u) by done.
  destruct (new_mappings u !! key) as [new|] eqn:Hnew; simpl.
  2: { intros [= <- <-]. by rewrite delete_id. }
  erewrite (stm_bind_Ok (st_put _)) by reflexivity.
  set (u0 := MkUpdater _ _ _ _).
  destruct (add_mappings v new (mappings e) u0) as [r1 u1] eqn:Hadd.
  rewrite (stm_bind_run _ _ _ _ _ Hadd). apply add_mappings_cases in Hadd as (Hc & Hn & Hr1).
  destruct r1 as [ms|op|]; [|by intros [= <- <-]|done]. destruct Hr1 as (-> & -> & Hlen).
  intros Hred%apply_reduce_cases; simpl in Hred; destruct Hred as (-> & -> & Hr).
  destruct r as [e'|op|]; try done. by destruct Hr as [-> ->].
Qed.

(** The error of the first entry that fails is kept to the end. *)
Definition updater_after (key : bytes) (u u' : Updater) : Prop :=
  view_entries_to_clean u' = delete key (view_entries_to_clean u) /\
  new_mappings u' = delete key (new_mappings u).

Definition op_entry (op : TreeOperation) (o : option bytes) : option bytes :=
  match op with OpSkip => o | OpSet b => Some b | OpRemove => None end.

Lemma compare_swap_ok v key o u op u' :
  compare_swap_view_entry v key o u = (Ok op, u') -> updater_result u' = None ->
  let ms := remapped (view_entries_to_clean u !! key) (new_mappings u !! key) (stored_mappings o) in
  updater_after key u u' /\ updater_result u = None /\ stored_mappings (op_entry op o) = ms /\
  (update_policy v = Unique -> (length (stored_mappings o) <= 1)%nat -> (length ms <= 1)%nat).
Proof.
  intros Hrun Hres. unfold compare_swap_view_entry in Hrun.
  destruct (compare_swap_body v key o u) as [r u0] eqn:Hb.
  assert (u0 = u') as -> by (destruct r; naive_solver).
  unfold compare_swap_body in Hb. set (e0 := default _ _) in Hb.
  assert (mappings e0 = stored_mappings o) as He0 by (unfold e0, stored_mappings; by destruct (o ≫= _)).
  destruct (clean_entry v key e0 u) as [r1 u1] eqn:Hc. rewrite (stm_bind_run _ _ _ _ _ Hc) in Hb.
  apply clean_entry_cases in Hc as (Hc1 & Hn1 & Hr1). rewrite He0 in Hr1. unfold remapped, updater_after.
  destruct r1 as [e1|op1|].
  - destruct Hr1 as [He1 Hres1].
    destruct (extend_entry v key e1 u1) as [r2 u2] eqn:He. rewrite (stm_bind_run _ _ _ _ _ He) in Hb.
    apply extend_entry_cases in He as (Hc2 & Hn2 & Hr2). rewrite Hc1 in Hc2. rewrite Hn1 in Hn2, Hr2.
    destruct r2 as [e2|op2|]; [| |by destruct r; simplify_eq].
    + destruct Hr2 as (He2 & Hres2 & Hlen). destruct (view_entry_roundtrip e2) as (b & Hser & Hde).
      rewrite Hser in Hb. injection Hb as <- <-. injection Hrun as <-.
      rewrite He1 in *. split_and!; [done..|congruence| |].
      * unfold stored_mappings. simpl. by rewrite Hde.
      * intros Hu Hl. apply Hlen; [done|]. destruct (view_entries_to_clean u !! key); simpl; [|done].
        etrans; [apply length_filter|done].
    + destruct Hr2 as (-> & [? Hs]). injection Hb as <- <-. congruence.
  - injection Hb as <- <-. injection Hrun as <-. destruct op1 as [|b|].
    + destruct Hr1 as (_ & [? Hs]). congruence.
    + by destruct Hr1.
    + destruct Hr1 as (Hms & Hnew & Hres1). rewrite Hms, Hnew, (delete_id (new_mappings u)) by done.
      split_and!; [done..|congruence|done|simpl; lia].
  - by destruct r; simplify_eq.
Qed.

(** ** Well-formed entries *)

(** A view whose [reduce] is implemented. *)
Definition implemented (v : View) : Prop := forall ms rereduce, view_reduce v ms rereduce <> Err ReduceUnimplemented.
Definition reduce_input (key : bytes) (ms : list EntryMapping) : list (bytes * bytes) :=
  (fun m => (key, em_value m)) <$> ms.

(** An entry is stored under its key, for at least one document, with the
    reduced value of its mappings. *)
Definition entry_good (v : View) (key : bytes) (e : ViewEntry) : Prop :=
  ve_key e = key /\ mappings e <> [] /\
  (implemented v -> view_reduce v (reduce_input key (mappings e)) false = Ok (reduced_value e)).
Definition entries_good (v : View) (en : gmap bytes bytes) : Prop :=
  forall k b, en !! k = Some b -> exists e, deserialize_view_entry b = Some e /\ entry_good v k e.

Definition reducing (v : View) (u : Updater) : Prop := implemented v -> has_reduce u = true.

Lemma apply_reduce_good v key e u e' u' :
  apply_reduce v key e u = (Ok e', u') -> reducing v u ->
  ve_key e' = ve_key e /\ mappings e' = mappings e /\ reducing v u' /\
  (implemented v -> view_reduce v (reduce_input key (mappings e)) false = Ok (reduced_value e')).
Proof.
  unfold apply_reduce, reducing. rewrite (stm_bind_Ok st_get _ u u u) by done. fold (reduce_input key (mappings e)).
  destruct (has_reduce u) eqn:Hh; [|intros [= <- <-] Hr; split_and!; [done|done|..]; intros Hi; by specialize (Hr Hi)].
  destruct (view_reduce v _ false) as [x|[|c]|] eqn:Hv; intros [= <- <-] _; split_and!; try done; intros Hi.
  - by apply Hi in Hv.
  - by apply Hi in Hv.
Qed.

Lemma check_unique_Ok v m ms u x u' : check_unique v m ms u = (Ok x, u') -> u' = u.
Proof. by intros (_ & _ & ? & _)%check_unique_cases. Qed.

Lemma clean_entry_good v key e u e' u' :
  clean_entry v key e u = (Ok e', u') -> reducing v u ->
  ve_key e' = ve_key e /\ reducing v u' /\
  (is_Some (view_entries_to_clean u !! key) -> implemented v ->
     view_reduce v (reduce_input key (mappings e')) false = Ok (reduced_value e')) /\
  (is_Some (view_entries_to_clean u !! key) -> new_mappings u !! key = None -> mappings e' <> []) /\
  (view_entries_to_clean u !! key = None -> e' = e).
Proof.
  unfold clean_entry. rewrite (stm_bind_Ok st_get _ u u u) by done.
  destruct (view_entries_to_clean u !! key) as [ids|].
  2: { intros [= <- <-] Hr. split_and!; try done; by intros []. }
  erewrite (stm_bind_Ok (st_put _)) by reflexivity. cbv zeta. set (ms := filter _ _).
  destruct (bool_decide (ms = []) && bool_decide (new_mappings u !! key = None)) eqn:Hb; [done|].
  intros Hrun Hr. apply apply_reduce_good in Hrun as (Hk & Hms & Hr' & Hred); [|done]. rewrite Hms. simpl in *.
  split_and!; try done. intros _ Hnew Hnil. apply andb_false_iff in Hb as [Hb|Hb]; by apply bool_decide_eq_false in Hb.
Qed.

Lemma set_mappings_nonempty new ms : new <> [] \/ ms <> [] -> set_mappings new ms <> [].
Proof.
  revert ms. unfold set_mappings. induction new as [|m new IH]; intros ms Hne; simpl; [naive_solver|].
  apply IH. right. destruct ms; simpl; [done|]. by case_decide.
Qed.

Lemma extend_entry_good v key e u e' u' :
  extend_entry v key e u = (Ok e', u') -> reducing v u ->
  ve_key e' = ve_key e /\ reducing v u' /\
  (forall new, new_mappings u !! key = Some new -> implemented v ->
     view_reduce v (reduce_input key (mappings e')) false = Ok (reduced_value e')) /\
  (new_mappings u !! key = None -> e' = e).
Proof.
  unfold extend_entry. rewrite (stm_bind_Ok st_get _ u u u) by done.
  destruct (new_mappings u !! key) as [new|]; [|by intros [= <- <-]].
  erewrite (stm_bind_Ok (st_put _)) by reflexivity. set (u0 := MkUpdater _ _ _ _).
  destruct (add_mappings v new (mappings e) u0) as [r1 u1] eqn:Hadd.
  rewrite (stm_bind_run _ _ _ _ _ Hadd). apply add_mappings_cases in Hadd as (_ & _ & Hr1).
  destruct r1 as [ms|op|]; [|done..]. destruct Hr1 as (-> & -> & _). intros Hrun Hr.
  apply apply_reduce_good in Hrun as (Hk & Hms & Hr' & Hred); [|done]. rewrite Hms. simpl in *. by split_and!.
Qed.

(** The key has something to clean or to add. *)
Definition to_update (u : Updater) (key : bytes) : Prop :=
  is_Some (view_entries_to_clean u !! key) \/ is_Some (new_mappings u !! key).
Definition mappings_nonempty (u : Updater) : Prop := forall k, new_mappings u !! k <> Some [].

Definition stored_good (v : View) (key : bytes) (o : option bytes) : Prop :=
  forall b, o = Some b -> exists e, deserialize_view_entry b = Some e /\ entry_good v key e.

Lemma compare_swap_good v key o u op u' :
  compare_swap_view_entry v key o u = (Ok op, u') -> updater_result u' = None ->
  reducing v u -> to_update u key -> mappings_nonempty u -> stored_good v key o ->
  stored_good v key (op_entry op o) /\ reducing v u'.
Proof.
  intros Hrun Hres Hred Hup Hne Hgood. unfold compare_swap_view_entry in Hrun.
  destruct (compare_swap_body v key o u) as [r u0] eqn:Hb.
  assert (u0 = u') as -> by (destruct r; naive_solver).
  unfold compare_swap_body in Hb. set (e0 := default _ _) in Hb.
  assert (ve_key e0 = key /\ (o = None \/ entry_good v key e0)) as [Hk0 He0].
  { unfold e0. destruct o as [b|]; simpl; [|by auto]. destruct (Hgood b eq_refl) as (e & -> & He). simpl.
    split; [apply He|by right]. }
  destruct (clean_entry v key e0 u) as [r1 u1] eqn:Hc. rewrite (stm_bind_run _ _ _ _ _ Hc) in Hb.
  pose proof (clean_entry_cases _ _ _ _ _ _ Hc) as (_ & Hn1 & Hr1). destruct r1 as [e1|op1|].
  - destruct (clean_entry_good _ _ _ _ _ _ Hc Hred) as (Hk1 & Hred1 & Hv1 & Hne1 & Hid1).
    destruct (extend_entry v key e1 u1) as [r2 u2] eqn:He. rewrite (stm_bind_run _ _ _ _ _ He) in Hb.
    pose proof (extend_entry_cases _ _ _ _ _ _ He) as (_ & _ & Hr2). destruct r2 as [e2|op2|]; [| |by destruct r; simplify_eq].
    2: { destruct Hr2 as (-> & [? Hs]). injection Hb as <- <-. congruence. }
    destruct (extend_entry_good _ _ _ _ _ _ He Hred1) as (Hk2 & Hred2 & Hv2 & Hid2).
    destruct (view_entry_roundtrip e2) as (b & Hser & Hde). rewrite Hser in Hb. injection Hb as <- <-.
    injection Hrun as <-. split; [|done]. intros b' [= <-]. exists e2. split; [done|]. split; [congruence|].
    rewrite Hn1 in *. destruct (new_mappings u !! key) as [new|] eqn:Hnew.
    + split; [|by eapply Hv2]. destruct Hr2 as (Hms & _). rewrite Hms. apply set_mappings_nonempty. left. simpl. intros ->.
      by apply (Hne key).
    + destruct Hup as [Hup|[? ?]]; [|congruence]. rewrite (Hid2 eq_refl). split; auto.
  - injection Hb as <- <-. injection Hrun as <-. destruct op1 as [|b|].
    + destruct Hr1 as (_ & [? Hs]). congruence.
    + by destruct Hr1.
    + split; [done|]. revert Hc. unfold clean_entry. rewrite (stm_bind_Ok st_get _ u u u) by done.
      destruct (view_entries_to_clean u !! key) as [ids|]; [|done].
      erewrite (stm_bind_Ok (st_put _)) by reflexivity. cbv zeta.
      destruct (bool_decide _ && bool_decide _); [by intros [= <-]|].
      intros Hc%apply_reduce_cases. by destruct Hc as (_ & _ & [? _]).
  - by destruct r; simplify_eq.
Qed.

(** ** All entries of a batch *)

Lemma apply_op_lookup (k : bytes) (op : TreeOperation) (m : gmap bytes bytes) (k' : bytes) :
  apply_tree_operation k op m !! k' = if decide (k = k') then op_entry op (m !! k) else m !! k'.
Proof.
  destruct op; simpl; case_decide as Hk; subst;
    rewrite ?lookup_insert_eq, ?lookup_delete_eq, ?lookup_insert_ne, ?lookup_delete_ne by done; done.
Qed.

Definition at_most_one (en : gmap bytes bytes) : Prop :=
  forall k, (length (stored_mappings (en !! k)) <= 1)%nat.

Lemma modify_entries_ok v ks en u en' u' :
  NoDup ks -> modify_spec ks (compare_swap_view_entry v) en u = Ok (en', u') -> updater_result u' = None ->
  updater_result u = None /\
  (forall k, k ∉ ks -> en' !! k = en !! k) /\
  (forall k, k ∈ ks -> stored_mappings (en' !! k) =
     remapped (view_entries_to_clean u !! k) (new_mappings u !! k) (stored_mappings (en !! k))) /\
  (update_policy v = Unique -> at_most_one en -> at_most_one en').
Proof.
  intros Hn. revert en u. induction Hn as [|k ks Hk Hn IH]; intros en u Hrun Hres; simpl in Hrun.
  { injection Hrun as <- <-. split_and!; [done..| |done]. by intros k ?%elem_of_nil. }
  destruct (compare_swap_view_entry v k (en !! k) u) as [[op|err|] u1] eqn:Hc; try discriminate.
  destruct (IH _ _ Hrun Hres) as (Hres1 & Hother & Hks & Huniq).
  destruct (compare_swap_ok _ _ _ _ _ _ Hc Hres1) as ([Hcl Hnm] & Hres0 & Hms & Hlen).
  split_and!; [done|..].
  - intros k' [Hk' Hks']%not_elem_of_cons. rewrite Hother by done. rewrite apply_op_lookup.
    by rewrite decide_False by congruence.
  - intros k' [->|Hk']%elem_of_cons.
    + rewrite Hother by done. rewrite apply_op_lookup, decide_True by done. done.
    + rewrite Hks by done. rewrite apply_op_lookup. assert (k <> k') by congruence.
      rewrite decide_False, Hcl, Hnm, !lookup_delete_ne by done. done.
  - intros Hu Hone. apply Huniq; [done|]. intros k'. rewrite apply_op_lookup.
    case_decide as Hkk; [|apply Hone]. subst. rewrite Hms. apply Hlen, Hone. done.
Qed.

Lemma modify_entries_good v ks en u en' u' :
  NoDup ks -> modify_spec ks (compare_swap_view_entry v) en u = Ok (en', u') -> updater_result u' = None ->
  reducing v u -> (forall k, k ∈ ks -> to_update u k) -> mappings_nonempty u ->
  entries_good v en -> entries_good v en'.
Proof.
  intros Hn. revert en u. induction Hn as [|k ks Hk Hn IH]; intros en u Hrun Hres Hred Hup Hne Hen; simpl in Hrun.
  { by injection Hrun as <- <-. }
  destruct (compare_swap_view_entry v k (en !! k) u) as [[op|err|] u1] eqn:Hc; try discriminate.
  destruct (modify_entries_ok _ _ _ _ _ _ Hn Hrun Hres) as (Hres1 & _).
  destruct (compare_swap_ok _ _ _ _ _ _ Hc Hres1) as ([Hcl Hnm] & _).
  destruct (compare_swap_good _ _ _ _ _ _ Hc Hres1 Hred (Hup k ltac:(left)) Hne (Hen k)) as [Hop Hred1].
  eapply IH; [done|done|done|..].
  - intros k' Hk'. unfold to_update. assert (k <> k') by congruence. rewrite Hcl, Hnm, !lookup_delete_ne by done.
    apply Hup. by right.
  - intros k'. rewrite Hnm, lookup_delete_Some. intros [_ Hk']. by apply (Hne k').
  - intros k' b. rewrite apply_op_lookup. case_decide as Hkk; [subst; apply Hop|apply Hen].
Qed.

(** The pairs a map holds for some keys. *)
Definition held (dm : gmap bytes bytes) (ks : list bytes) : list (bytes * bytes) :=
  omap (fun d => pair d <$> dm !! d) ks.

Lemma held_insert (dm : gmap bytes bytes) (d b : bytes) ks : d ∉ ks -> held (<[d := b]> dm) ks = held dm ks.
Proof.
  unfold held. induction ks as [|d' ks IH]; [done|]. intros [? ?]%not_elem_of_cons.
  simpl. rewrite lookup_insert_ne by done.
  destruct (dm !! d'); simpl; [f_equal|]; by apply IH.
Qed.

Lemma elem_of_held (dm : gmap bytes bytes) (ks : list bytes) (d b : bytes) :
  (d, b) ∈ held dm ks <-> d ∈ ks /\ dm !! d = Some b.
Proof.
  unfold held. rewrite list_elem_of_omap. split.
  - intros (x & Hx & Hv). apply fmap_Some in Hv as (w & Hw & [= -> ->]). done.
  - intros [Hk Hv]. exists d. by rewrite Hv.
Qed.

Lemma held_NoDup (dm : gmap bytes bytes) ks : NoDup ks -> NoDup (held dm ks).*1.
Proof.
  induction 1 as [|d ks Hd Hn IH]; [constructor|]. unfold held in *. simpl.
  destruct (dm !! d) as [b|]; simpl; [|done]. constructor; [|done].
  intros ([d' b'] & -> & Hx)%list_elem_of_fmap. apply (elem_of_held dm ks) in Hx as [? _]. done.
Qed.

Lemma modify_document_map_ok (maps : gmap bytes bytes) ks dm dm' l l' :
  NoDup ks -> modify_spec (E := nebari_error) ks (document_map_callback maps) dm l = Ok (dm', l') ->
  (forall d, d ∉ ks -> dm' !! d = dm !! d) /\
  (forall d, d ∈ ks -> is_Some (maps !! d) /\ dm' !! d = maps !! d) /\
  l' = l ++ held dm ks.
Proof.
  intros Hn. revert dm l. induction Hn as [|d ks Hd Hn IH]; intros dm l Hrun; simpl in Hrun.
  { injection Hrun as <- <-. rewrite app_nil_r. split_and!; [done| |done]. by intros k ?%elem_of_nil. }
  unfold document_map_callback at 1 in Hrun.
  erewrite (stm_bind_Ok _ _ _ tt (l ++ from_option (fun b => [(d, b)]) [] (dm !! d))) in Hrun
    by (destruct (dm !! d); simpl; rewrite ?app_nil_r; done).
  destruct (maps !! d) as [b|] eqn:Hb; simpl in Hrun; [|discriminate].
  destruct (IH _ _ Hrun) as (Hother & Hks & ->). split_and!.
  - intros d' [? ?]%not_elem_of_cons. rewrite Hother by done. by rewrite lookup_insert_ne.
  - intros d' [->|Hd']%elem_of_cons; [|by apply Hks].
    rewrite Hother by done. rewrite lookup_insert_eq, Hb. eauto.
  - rewrite <- (assoc_L app). f_equal.
    rewrite (held_insert dm d b ks) by done.
    unfold held. simpl. by destruct (dm !! d).
Qed.

(** ** The keys to clean and the collected results *)

Lemma foldr_clean_key (d k : bytes) (ks : list bytes) (tc : gmap bytes (gset bytes)) :
  default ∅ (foldr (clean_key d) tc ks !! k) =
    (if decide (k ∈ ks) then {[d]} else ∅) ∪ default ∅ (tc !! k).
Proof.
  induction ks as [|k' ks IH]; simpl.
  { by rewrite (left_id_L ∅ (∪)). }
  unfold clean_key at 1. destruct (decide (k' = k)) as [->|Hne].
  - rewrite lookup_insert_eq, decide_True by left. simpl. rewrite IH. case_decide; set_solver.
  - rewrite lookup_insert_ne, IH by done. f_equal.
    destruct (decide (k ∈ ks)); [rewrite decide_True by (by right)|rewrite decide_False by set_solver]; done.
Qed.

Definition to_clean_at (tc : gmap bytes (gset bytes)) (k : bytes) : gset bytes := default ∅ (tc !! k).

Lemma keys_to_clean_ok l dk keys tc keys' tc' :
  NoDup l.*1 -> keys_to_clean l dk keys tc = Ok (keys', tc') ->
  (forall d b, (d, b) ∈ l -> exists old new, deserialize_keys b = Some old /\ dk !! d = Some new) /\
  (forall k d, d ∈ to_clean_at tc' k <-> d ∈ to_clean_at tc k \/
     exists b old new, (d, b) ∈ l /\ deserialize_keys b = Some old /\ dk !! d = Some new /\ k ∈ old ∖ new) /\
  keys ⊆ keys' /\ (forall k d, d ∈ to_clean_at tc' k -> d ∈ to_clean_at tc k \/ k ∈ keys') /\
  (forall k, k ∈ keys' -> k ∈ keys \/ exists d, d ∈ to_clean_at tc' k).
Proof.
  revert dk keys tc. induction l as [|[d b] l IH]; intros dk keys tc Hn Hrun; simpl in *.
  { inv_res. injection Hrun as <- <-. split_and!; [|intros|..]; try set_solver. }
  apply NoDup_cons in Hn as [Hd Hn]. inv_res. rename x into old, x0 into new.
  destruct (IH _ _ _ Hn Hrun) as (Hall & Htc & Hsub & Hin & Hwhy).
  assert (forall d' b', (d', b') ∈ l -> delete d dk !! d' = dk !! d') as Hdk.
  { intros d' b' Hin'. rewrite lookup_delete_ne; [done|]. intros ->. apply Hd.
    apply list_elem_of_fmap. by exists (d', b'). }
  assert (forall k, to_clean_at (foldr (clean_key d) tc (elements (old ∖ new))) k =
    (if decide (k ∈ old ∖ new) then {[d]} else ∅) ∪ to_clean_at tc k) as Hstep.
  { intros k. unfold to_clean_at at 1. rewrite foldr_clean_key. f_equal.
    by rewrite (decide_ext (k ∈ elements (old ∖ new)) (k ∈ old ∖ new)) by apply elem_of_elements. }
  split_and!.
  - intros d' b' [[= -> ->]|Hin']%elem_of_cons; [eauto|]. rewrite <- (Hdk d' b') by done. eauto.
  - intros k d'. rewrite Htc, Hstep, elem_of_union. split.
    + intros [[Hk|?]|(b' & o & n & Hin' & ? & Hn' & ?)].
      * case_decide; [|by apply not_elem_of_empty in Hk]. apply elem_of_singleton in Hk as ->. right.
        exists b, old, new. split_and!; [left|done..].
      * by left.
      * right. rewrite (Hdk d' b') in Hn' by done. exists b', o, n. split_and!; [by right|done..].
    + intros [?|(b' & o & n & [[= -> ->]|Hin']%elem_of_cons & ? & Hn' & ?)]; [by left; right|..].
      * left. left. simplify_eq. rewrite decide_True by done. by apply elem_of_singleton.
      * right. exists b', o, n. by rewrite (Hdk d' b').
  - etrans; [|exact Hsub]. apply union_subseteq_r.
  - intros k d' Hd'. destruct (Hin k d' Hd') as [Hs|]; [|by right].
    rewrite Hstep, elem_of_union in Hs. destruct Hs as [Hs|]; [|by left].
    case_decide; [right|by apply not_elem_of_empty in Hs]. by apply Hsub, elem_of_union_l.
  - intros k [Hk|Hk]%Hwhy; [|by right]. apply elem_of_union in Hk as [Hk|Hk]; [|by left]. right. exists d.
    apply Htc. left. rewrite Hstep, decide_True by done. set_solver.
Qed.

Lemma push_mappings_lookup (ms : list Mapping) (m0 : gmap bytes (list Mapping)) (k : bytes) :
  default [] (foldl push_mapping m0 ms !! k) = default [] (m0 !! k) ++ filter (fun m => map_key m = k) ms.
Proof.
  revert m0. induction ms as [|m ms IH]; intros m0; simpl; [by rewrite app_nil_r|].
  rewrite IH, filter_cons. unfold push_mapping. destruct (decide (map_key m = k)) as [<-|Hk].
  - rewrite lookup_insert_eq. simpl. by rewrite <- (assoc_L app).
  - by rewrite lookup_insert_ne.
Qed.

Lemma collect_batch_ok ids rs :
  NoDup (mr_id <$> rs) -> let b := collect_batch ids rs in
  document_ids b = ids /\
  (forall r, r ∈ rs -> document_maps b !! mr_id r = Some (mr_map r) /\
                       document_keys b !! mr_id r = Some (mr_keys r)) /\
  (forall k, default [] (batch_mappings b !! k) =
             filter (fun m => map_key m = k) (concat (mr_mappings <$> rs))) /\
  (forall k, k ∈ all_keys b <-> exists r, r ∈ rs /\ k ∈ mr_keys r).
Proof.
  induction rs as [|r rs IH] using rev_ind; intros Hn b; unfold b, collect_batch.
  { simpl. split_and!; [done|..]; intros; set_solver. }
  rewrite fmap_app in Hn. apply NoDup_app in Hn as (Hn & Hdis & _).
  destruct (IH Hn) as (Hids & Hdocs & Hms & Hall). rewrite foldl_app. simpl.
  fold (collect_batch ids rs). split_and!; [done|..].
  - intros r' [Hr'| ->%list_elem_of_singleton]%elem_of_app; [|by rewrite !lookup_insert_eq].
    assert (mr_id r <> mr_id r').
    { intros He. apply (Hdis (mr_id r')); [by apply list_elem_of_fmap_2|]. rewrite <- He. left. }
    rewrite !lookup_insert_ne by done. by apply Hdocs.
  - intros k. rewrite push_mappings_lookup, Hms, fmap_app, concat_app, filter_app. simpl.
    by rewrite app_nil_r.
  - intros k. rewrite elem_of_union, Hall. set_solver.
Qed.

End Entry.
