(* ===== verification/ViewBatch.v ===== *)
(** * One batch of the view mapper

    What a batch finds in the documents tree, and what saving its results does
    to the two trees of the view: the documents of the batch are indexed as the
    view maps them, every other document is left as it was, whatever order the
    mapping threads deliver their results in. *)

From Stdlib Require Import ZArith Lia Sorting.Sorted.
From stdpp Require Import base list option numbers gmap sorting.
From S2P Require Import Prelude Bytes Nebari Document Names Schema View ViewLaws.

Local Open Scope Z_scope.

(** ** Sorted keys *)

#[export] Instance bytes_le_total : Total bytes_le.
Proof. intros x y. unfold bytes_le. destruct (bytes_leb_total x y); auto. Qed.
#[export] Instance bytes_le_trans : Transitive bytes_le.
Proof. intros x y z. unfold bytes_le. apply bytes_leb_trans. Qed.

Lemma bytes_lt_irrefl x : ~ bytes_lt x x.
Proof. unfold bytes_lt. by rewrite bytes_cmp_refl. Qed.

Lemma bytes_lt_le x y : bytes_lt x y -> bytes_le x y.
Proof. unfold bytes_lt, bytes_le, bytes_leb. by intros ->. Qed.

Lemma bytes_le_antisym x y : bytes_le x y -> bytes_le y x -> x = y.
Proof.
  unfold bytes_le, bytes_leb. rewrite (bytes_cmp_antisym x y).
  destruct (bytes_cmp x y) eqn:E; simpl; try done. by intros _ _; apply bytes_cmp_eq.
Qed.

Lemma sorted_lt_NoDup (l : list bytes) : StronglySorted bytes_lt l -> NoDup l.
Proof.
  induction 1 as [|x l Hs IH Hf]; constructor; [|done].
  intros Hx. rewrite List.Forall_forall in Hf. by apply (bytes_lt_irrefl x), Hf, list_elem_of_In.
Qed.

Lemma sorted_le_lt (l : list bytes) : StronglySorted bytes_le l -> NoDup l -> StronglySorted bytes_lt l.
Proof.
  induction 1 as [|x l Hs IH Hf]; intros Hn; [constructor|]. apply NoDup_cons in Hn as [Hx Hn].
  constructor; [by apply IH|]. apply List.Forall_forall. intros y Hy. rewrite List.Forall_forall in Hf.
  pose proof (Hf y Hy) as Hle. unfold bytes_le, bytes_leb, bytes_lt in *.
  destruct (bytes_cmp x y) eqn:E; [|done|done]. apply bytes_cmp_eq in E as ->.
  by apply list_elem_of_In in Hy.
Qed.

Lemma btree_set_iter_sorted s : StronglySorted bytes_lt (btree_set_iter s).
Proof.
  unfold btree_set_iter. apply sorted_le_lt; [apply (StronglySorted_merge_sort _)|].
  rewrite merge_sort_Permutation. apply NoDup_elements.
Qed.

Lemma elem_of_btree_set_iter s (k : bytes) : k ∈ btree_set_iter s <-> k ∈ s.
Proof. unfold btree_set_iter. by rewrite merge_sort_Permutation, elem_of_elements. Qed.

Lemma held_sorted (dm : gmap bytes bytes) ks : StronglySorted bytes_lt ks -> StronglySorted key_le (held dm ks).
Proof.
  unfold held. induction 1 as [|k ks Hs IH Hf]; [constructor|]. simpl.
  destruct (dm !! k) as [b|] eqn:E; simpl; [|done]. constructor; [done|].
  apply List.Forall_forall. intros [k' b'] Hin%list_elem_of_In.
  apply (elem_of_held dm ks) in Hin as [Hin _]. rewrite List.Forall_forall in Hf.
  unfold key_le. simpl. apply bytes_lt_le, Hf. by apply list_elem_of_In.
Qed.

(** ** What a batch reads *)

Lemma pair_documents_held (dm : gmap bytes bytes) ks :
  NoDup ks -> pair_documents (rev ks) (rev (held dm ks)) = rev ((fun d => (d, dm !! d)) <$> ks).
Proof.
  induction ks as [|d ks IH] using rev_ind; intros Hn; [done|].
  apply NoDup_app in Hn as (Hn & Hdis & _).
  rewrite fmap_app, !rev_app_distr. unfold held. rewrite omap_app, rev_app_distr. fold (held dm ks).
  simpl. destruct (dm !! d) as [b|] eqn:Hb; simpl.
  - rewrite decide_True by done. by rewrite IH.
  - destruct (rev (held dm ks)) as [|[d' b'] rest] eqn:Hr.
    + by rewrite IH.
    + rewrite decide_False; [by rewrite IH|]. intros ->.
      assert ((d, b') ∈ held dm ks) as Hin.
      { apply list_elem_of_In, in_rev. rewrite Hr. by left. }
      apply elem_of_held in Hin as [_ Hin]. congruence.
Qed.

Section Batch.
Context `{NebariLaws} `{DocumentCodec} `{ViewCodec} `{!ViewCodecLaws _}.

Lemma generate_batch_ok tx documents chunk pairs :
  StronglySorted bytes_lt chunk -> generate_batch tx documents chunk = Ok pairs ->
  pairs = rev ((fun d => (d, tx_contents tx documents !! d)) <$> chunk).
Proof.
  unfold generate_batch. intros Hs Hrun. unfold db_tx in Hrun. inv_res. rename x into found.
  destruct (tx_get_multiple_law _ _ _ _ Hs ltac:(eassumption)) as [Hn Hin].
  set (dm := tx_contents tx documents) in *.
  assert (merge_sort key_le found = held dm chunk) as ->.
  { apply (StronglySorted_unique_strong key_le).
    - intros [k1 b1] [k2 b2] Hf1 Hf2 Hle1 Hle2.
      rewrite merge_sort_Permutation in Hf1. apply Hin in Hf1 as [_ Hf1].
      apply elem_of_held in Hf2 as [_ Hf2]. pose proof (bytes_le_antisym _ _ Hle1 Hle2). simpl in *. congruence.
    - apply (StronglySorted_merge_sort _).
    - by apply held_sorted.
    - rewrite merge_sort_Permutation. apply NoDup_Permutation.
      + by apply NoDup_fmap_1 in Hn.
      + eapply NoDup_fmap_1, held_NoDup, sorted_lt_NoDup, Hs.
      + intros [d b]. by rewrite Hin, elem_of_held. }
  apply pair_documents_held, sorted_lt_NoDup, Hs.
Qed.

(** ** What the view makes of a stored document *)

(** The mappings a view emits for a stored document, or for one that is gone. *)
Definition view_output (v : View) (stored : option bytes) : option (list Mapping) :=
  match stored with
  | None => Some []
  | Some b =>
      match deserialize_document b with
      | Some doc => match view_map v doc with Ok ms => Some ms | _ => None end
      | None => None
      end
  end.

(** The revision and value a document has under a key: those of the last
    mapping emitted for it. *)
Definition emitted (ms : list Mapping) (k : bytes) : option (Revision * bytes) :=
  (fun m => (revision (source m), map_value m)) <$> last (filter (fun m => map_key m = k) ms).

(** What the index of a view promises for a document. *)
Definition indexed (v : View) (stored : option bytes) (k : bytes) : option (Revision * bytes) :=
  emitted (default [] (view_output v stored)) k.

(** [map] emits mappings of the document it is given. *)
Definition own_mappings (v : View) : Prop :=
  forall doc ms m, view_map v doc = Ok ms -> m ∈ ms -> id (source m) = id (header doc).
(** Documents are stored under their own ids. *)
Definition stored_under_id (docs : gmap bytes bytes) : Prop :=
  forall d b doc, docs !! d = Some b -> deserialize_document b = Some doc -> id (header doc) = d.

Lemma map_document_ok v d stored r :
  map_document v (d, stored) = Ok r ->
  exists ms, view_output v stored = Some ms /\ mr_id r = d /\ mr_mappings r = ms /\
    mr_keys r = list_to_set (map_key <$> ms) /\ serialize_keys (mr_keys r) = Some (mr_map r).
Proof.
  unfold map_document, view_output. simpl. destruct stored as [b|].
  - destruct (deserialize_document b) as [doc|]; simpl; [|done].
    destruct (view_map v doc) as [ms| |]; simpl; [|done..]. intros Hrun. inv_res. by exists ms.
  - intros Hrun. inv_res. by exists [].
Qed.

Lemma map_documents_ok v ds rs :
  map_documents v ds = Ok rs -> Forall2 (fun d r => map_document v d = Ok r) ds rs.
Proof.
  revert rs. induction ds as [|d ds IH]; intros rs; simpl; intros Hrun; inv_res; constructor; auto.
Qed.

Lemma emitted_Some ms k : is_Some (emitted ms k) <-> k ∈ (list_to_set (map_key <$> ms) : gset bytes).
Proof.
  unfold emitted. rewrite elem_of_list_to_set, fmap_is_Some. split.
  - intros [m Hm]. apply last_Some_elem_of, list_elem_of_filter in Hm as [<- Hm].
    by apply list_elem_of_fmap_2.
  - intros (m & -> & Hm)%list_elem_of_fmap. destruct (last _) eqn:E; [by eexists|].
    apply last_None in E. assert (m ∈ filter (fun m' => map_key m' = map_key m) ms) as Hin
      by (by apply list_elem_of_filter). rewrite E in Hin. by apply not_elem_of_nil in Hin.
Qed.

Lemma last_mapping_own d ms :
  (forall m, m ∈ ms -> id (source m) = d) ->
  last_mapping d ms = (fun m => (revision (source m), map_value m)) <$> last ms.
Proof.
  induction ms as [|m ms IH] using rev_ind; [done|]. intros Hown.
  rewrite last_mapping_app, last_snoc. simpl. rewrite decide_True; [done|]. apply Hown. set_solver.
Qed.

Lemma last_mapping_other d ms : (forall m, m ∈ ms -> id (source m) <> d) -> last_mapping d ms = None.
Proof.
  intros Hne. apply eq_None_not_Some. intros (m & Hm & Hd)%last_mapping_Some. by apply (Hne m).
Qed.

(** The last mapping of a document in a batch does not depend on the order of
    the results. *)
Lemma last_mapping_batch (rs : list MapResult) k :
  NoDup (mr_id <$> rs) -> (forall r m, r ∈ rs -> m ∈ mr_mappings r -> id (source m) = mr_id r) ->
  let bm := filter (fun m => map_key m = k) (concat (mr_mappings <$> rs)) in
  (forall r, r ∈ rs -> last_mapping (mr_id r) bm = emitted (mr_mappings r) k) /\
  (forall d, d ∉ mr_id <$> rs -> last_mapping d bm = None).
Proof.
  induction rs as [|r rs IH]; intros Hn Hown bm; unfold bm in *.
  { split; [intros r Hr; by apply not_elem_of_nil in Hr|done]. }
  csimpl in Hn. apply NoDup_cons in Hn as [Hr Hn].
  destruct (IH Hn) as [Hin Hout]; [intros; by apply Hown; [right|]|].
  assert (forall m, m ∈ filter (fun m => map_key m = k) (mr_mappings r) -> id (source m) = mr_id r) as Hown'.
  { intros m [_ Hm]%list_elem_of_filter. apply Hown; [left|done]. }
  csimpl. rewrite filter_app. split.
  - intros r' [->|Hr']%elem_of_cons; rewrite last_mapping_app.
    + rewrite Hout by done. by apply last_mapping_own.
    + rewrite Hin by done. rewrite last_mapping_other.
      * by destruct (emitted _ _).
      * intros m Hm He. apply Hr. rewrite <- (Hown' m Hm), He. by apply list_elem_of_fmap_2.
  - intros d [Hd Hds]%not_elem_of_cons. rewrite last_mapping_app, Hout by done.
    apply last_mapping_other. intros m Hm He. apply Hd. by rewrite <- (Hown' m Hm), He.
Qed.

(** ** The index *)

(** The keys recorded for a document and the value an entry holds for it. *)
Definition doc_keys (dm : gmap bytes bytes) (d : bytes) : gset bytes :=
  default ∅ (dm !! d ≫= deserialize_keys).
Definition entry_value (en : gmap bytes bytes) (d k : bytes) : option (Revision * bytes) :=
  find_mapping d (stored_mappings (en !! k)).

(** The two trees of a view agree. *)
Definition index_ok (dm en : gmap bytes bytes) : Prop :=
  (forall d k, k ∈ doc_keys dm d <-> is_Some (entry_value en d k)) /\
  (forall k, NoDup (em_id <$> stored_mappings (en !! k))).

Lemma find_remapped (d : bytes) (tc : option (gset bytes)) (new : option (list Mapping)) ms :
  find_mapping d (remapped tc new ms) =
    match last_mapping d (default [] new) with
    | Some x => Some x
    | None => if decide (d ∈ default ∅ tc) then None else find_mapping d ms
    end.
Proof.
  unfold remapped. rewrite find_set_mappings. destruct (last_mapping d _); [done|].
  destruct tc as [ids|]; simpl; [apply find_filter_notin|]. by rewrite decide_False by set_solver.
Qed.

Lemma remapped_nothing (tc : option (gset bytes)) ms : default ∅ tc = ∅ -> remapped tc (Some []) ms = ms.
Proof.
  intros Htc. unfold remapped. simpl. destruct tc as [ids|]; [|done]. simpl in *. subst ids.
  induction ms as [|m ms IH]; [done|]. rewrite filter_cons, decide_True by set_solver. by rewrite IH.
Qed.

Lemma remapped_NoDup tc new ms : NoDup (em_id <$> ms) -> NoDup (em_id <$> remapped tc new ms).
Proof.
  intros Hn. unfold remapped. apply set_mappings_NoDup. destruct tc; [by apply NoDup_filter_ids|done].
Qed.

Lemma update_document_map_ok tx i b tx1 keys tc :
  StronglySorted bytes_lt (document_ids b) -> update_document_map tx i b = Ok (tx1, keys, tc) ->
  let dm := tx_contents tx i in let dm1 := tx_contents tx1 i in
  tx_frame i tx tx1 /\
  (forall d, d ∉ document_ids b -> dm1 !! d = dm !! d) /\
  (forall d, d ∈ document_ids b -> is_Some (document_maps b !! d) /\ dm1 !! d = document_maps b !! d) /\
  keys_to_clean (held dm (document_ids b)) (document_keys b) (all_keys b) ∅ = Ok (keys, tc).
Proof.
  intros Hs Hr. unfold update_document_map, db_tx in Hr. inv_res. destruct x as [tx0 l].
  inv_res. destruct x as [keys0 tc0]. inv_res. simplify_eq.
  destruct (tx_modify_law _ _ _ _ _ _ _ _ Hs ltac:(eassumption)) as [Hm Hf].
  destruct (modify_document_map_ok _ _ _ _ _ _ (sorted_lt_NoDup _ Hs) Hm) as (? & ? & ->). done.
Qed.

Lemma update_view_entries_ok v tx i keys tc new tx' :
  update_view_entries v tx i keys tc new = Ok tx' ->
  let en := tx_contents tx i in let en' := tx_contents tx' i in
  tx_frame i tx tx' /\
  (forall k, k ∉ keys -> en' !! k = en !! k) /\
  (forall k, k ∈ keys -> stored_mappings (en' !! k) = remapped (tc !! k) (new !! k) (stored_mappings (en !! k))) /\
  (update_policy v = Unique -> at_most_one en -> at_most_one en') /\
  ((forall k, k ∈ keys -> is_Some (tc !! k) \/ is_Some (new !! k)) -> (forall k, new !! k <> Some []) ->
   entries_good v en -> entries_good v en').
Proof.
  intros Hr. unfold update_view_entries, db_tx in Hr. inv_res. destruct x as [tx0 u].
  destruct (updater_result u) eqn:Hres; inv_res. pose proof (btree_set_iter_sorted keys) as Hs.
  destruct (tx_modify_law _ _ _ _ _ _ _ _ Hs ltac:(eassumption)) as [Hm Hf].
  destruct (modify_entries_ok _ _ _ _ _ _ (sorted_lt_NoDup _ Hs) Hm Hres) as (_ & Hout & Hin & Huniq).
  split_and!; [done|..|done|]; [intros k; rewrite <- elem_of_btree_set_iter; first [apply Hout|apply Hin]..|].
  intros Hk Hnew. eapply modify_entries_good; [by apply sorted_lt_NoDup|done|done|done| |done].
  intros k. rewrite elem_of_btree_set_iter. apply Hk.
Qed.

Lemma collect_batch_nonempty (chunk : list bytes) (rs : list MapResult) k : batch_mappings (collect_batch chunk rs) !! k <> Some [].
Proof.
  unfold collect_batch. induction rs as [|r rs IH] using rev_ind; [done|]. rewrite foldl_app. simpl.
  revert IH. generalize (batch_mappings (foldl add_result (MkBatch chunk ∅ ∅ ∅ ∅) rs)). intros m.
  revert m. induction (mr_mappings r) as [|x ms IH]; intros m Hm; simpl; [done|]. apply IH.
  unfold push_mapping. destruct (decide (map_key x = k)) as [<-|Hne].
  - rewrite lookup_insert_eq. intros [= Hnil]. by destruct (default [] _).
  - by rewrite lookup_insert_ne.
Qed.

Section Save.
Context (v : View) (tx tx' : Transaction) (document_map view_entries : nat) (chunk : list bytes)
  (rs : list MapResult).
Context (Hsorted : StronglySorted bytes_lt chunk) (Hne : document_map <> view_entries)
  (Hids : mr_id <$> rs ≡ₚ chunk)
  (Hown : forall r m, r ∈ rs -> m ∈ mr_mappings r -> id (source m) = mr_id r)
  (Hkeys : forall r, r ∈ rs -> mr_keys r = list_to_set (map_key <$> mr_mappings r) /\
                     serialize_keys (mr_keys r) = Some (mr_map r))
  (Hrun : save_mappings v tx document_map view_entries (collect_batch chunk rs) = Ok tx').

Abbreviation dm := (tx_contents tx document_map).
Abbreviation dm' := (tx_contents tx' document_map).
Abbreviation en := (tx_contents tx view_entries).
Abbreviation en' := (tx_contents tx' view_entries).

Lemma rs_NoDup : NoDup (mr_id <$> rs).
Proof. rewrite Hids. by apply sorted_lt_NoDup. Qed.

Lemma no_mappings k : ~ (exists r, r ∈ rs /\ k ∈ mr_keys r) ->
  filter (fun m => map_key m = k) (concat (mr_mappings <$> rs)) = [].
Proof.
  intros Hk. destruct (filter _ _) as [|m l] eqn:E; [done|]. exfalso. apply Hk.
  assert (m ∈ filter (fun m => map_key m = k) (concat (mr_mappings <$> rs))) as Hm by (rewrite E; left).
  apply list_elem_of_filter in Hm as [<- Hm]. apply list_elem_of_In, in_concat in Hm as (ms & Hms & Hm).
  apply list_elem_of_In, list_elem_of_fmap in Hms as (r & -> & Hr). exists r. split; [done|].
  rewrite (proj1 (Hkeys r Hr)), elem_of_list_to_set. by apply list_elem_of_fmap_2, list_elem_of_In.
Qed.

Lemma batch_has_mappings r k : r ∈ rs -> k ∈ mr_keys r -> is_Some (batch_mappings (collect_batch chunk rs) !! k).
Proof.
  intros Hr Hk. destruct (collect_batch_ok chunk rs rs_NoDup) as (_ & _ & Hbm & _). specialize (Hbm k).
  destruct (batch_mappings _ !! k) as [l|]; [by eexists|]. simpl in Hbm. exfalso.
  rewrite (proj1 (Hkeys r Hr)), elem_of_list_to_set in Hk. apply list_elem_of_fmap in Hk as (m & -> & Hm).
  apply (not_elem_of_nil m). rewrite Hbm. apply list_elem_of_filter. split; [done|].
  apply list_elem_of_In, in_concat. exists (mr_mappings r).
  split; apply list_elem_of_In; [by apply list_elem_of_fmap_2|done].
Qed.

(** What saving does, before the index is considered. *)
Lemma save_mappings_trees : exists tc,
  (forall d, d ∉ chunk -> dm' !! d = dm !! d) /\
  (forall r, r ∈ rs -> dm' !! mr_id r = Some (mr_map r)) /\
  (forall d k, d ∈ to_clean_at tc k <-> d ∈ chunk /\ k ∈ doc_keys dm d /\
     exists r, r ∈ rs /\ mr_id r = d /\ k ∉ mr_keys r) /\
  (forall k, stored_mappings (en' !! k) = remapped (tc !! k)
     (Some (filter (fun m => map_key m = k) (concat (mr_mappings <$> rs)))) (stored_mappings (en !! k))) /\
  (update_policy v = Unique -> at_most_one en -> at_most_one en') /\
  (entries_good v en -> entries_good v en') /\
  tx_trees tx' = tx_trees tx /\
  (forall i, i <> document_map -> i <> view_entries -> tx_contents tx' i = tx_contents tx i).
Proof.
  pose proof rs_NoDup as Hn. destruct (collect_batch_ok chunk rs Hn) as (Hbi & Hbd & Hbm & Hbk).
  revert Hrun. set (b := collect_batch chunk rs) in *. unfold save_mappings. intros Hr. inv_res.
  destruct x as [[tx1 keys] tc]. rename H3 into Hdm, Hr into Hen.
  apply update_document_map_ok in Hdm as ((Ht1 & _ & Hf1) & Hout & Hin & Hclean); [|by rewrite Hbi].
  apply update_view_entries_ok in Hen as ((Ht2 & _ & Hf2) & Heno & Heni & Huniq & Hgood).
  rewrite Hf1 in Heno, Heni, Huniq, Hgood by congruence. rewrite Hbi in Hout, Hin, Hclean.
  apply keys_to_clean_ok in Hclean as (Hdec & Htc & Hsub & Hbound & Hwhy);
    [|apply held_NoDup; by apply sorted_lt_NoDup].
  assert (forall k, k ∉ keys -> to_clean_at tc k = ∅) as Hempty.
  { intros k Hk. apply set_eq. intros d. split; [|set_solver]. intros [Hd|]%Hbound; [|done]. done. }
  exists tc. split_and!.
  - intros d Hd. rewrite Hf2 by done. by apply Hout.
  - intros r Hr. rewrite Hf2 by done. destruct (Hin (mr_id r)) as [_ ->]; [|by apply Hbd].
    rewrite <- Hids. by apply list_elem_of_fmap_2.
  - intros d k. rewrite Htc. split.
    + intros [Hd|(bs & old & new & [Hd Hb]%elem_of_held & Hold & Hnew & Hk)]; [by apply not_elem_of_empty in Hd|].
      split; [done|]. pose proof Hd as Hr. rewrite <- Hids in Hr.
      apply list_elem_of_fmap in Hr as (r & -> & Hr). destruct (Hbd r Hr) as [_ Hk'].
      unfold doc_keys. rewrite Hb. simpl. rewrite Hold. simplify_eq. split; [set_solver|].
      exists r. set_solver.
    + intros (Hd & Hk & r & Hr & <- & Hnk). right. unfold doc_keys in Hk.
      destruct (dm !! mr_id r) as [bs|] eqn:Hb; [|by apply not_elem_of_empty in Hk]. simpl in Hk.
      destruct (deserialize_keys bs) as [old|] eqn:Hold; [|by apply not_elem_of_empty in Hk]. simpl in Hk.
      exists bs, old, (mr_keys r). rewrite elem_of_held. split_and!; [done..|apply Hbd, Hr|set_solver].
  - intros k. destruct (decide (k ∈ keys)) as [Hk|Hk].
    + rewrite Heni by done. unfold remapped. by rewrite Hbm.
    + rewrite Heno, no_mappings by (done || (intros Hk'; by apply Hk, Hsub, Hbk)).
      by rewrite remapped_nothing by (by apply Hempty).
  - done.
  - apply Hgood; [|by apply collect_batch_nonempty]. intros k [Hk|[d Hd]]%Hwhy.
    + right. apply Hbk in Hk as (r & Hr & Hk). by apply batch_has_mappings with r.
    + left. unfold to_clean_at in Hd. destruct (tc !! k); [by eexists|by apply not_elem_of_empty in Hd].
  - congruence.
  - intros i Hi1 Hi2. rewrite Hf2, Hf1; done.
Qed.

Lemma save_mappings_index : index_ok dm en ->
  index_ok dm' en' /\
  (forall r k, r ∈ rs -> entry_value en' (mr_id r) k = emitted (mr_mappings r) k) /\
  (forall d k, d ∉ chunk -> entry_value en' d k = entry_value en d k).
Proof.
  intros [Hiff Hnd]. destruct save_mappings_trees as (tc & Hout & Hin & Htc & Hen & _).
  assert (forall r k, r ∈ rs -> entry_value en' (mr_id r) k = emitted (mr_mappings r) k) as Hval.
  { intros r k Hr. unfold entry_value. rewrite Hen, find_remapped. simpl.
    rewrite (proj1 (last_mapping_batch rs k rs_NoDup Hown) r Hr).
    destruct (emitted (mr_mappings r) k) eqn:He; [done|]. case_decide as Hc; [done|].
    apply eq_None_not_Some. intros Hsome. apply Hiff in Hsome. apply Hc, Htc. split_and!; [|done|].
    - rewrite <- Hids. by apply list_elem_of_fmap_2.
    - exists r. split_and!; [done..|]. rewrite (proj1 (Hkeys r Hr)), <- emitted_Some, He. by intros []. }
  assert (forall d k, d ∉ chunk -> entry_value en' d k = entry_value en d k) as Hother.
  { intros d k Hd. unfold entry_value. rewrite Hen, find_remapped. simpl.
    rewrite (proj2 (last_mapping_batch rs k rs_NoDup Hown) d) by (by rewrite Hids).
    rewrite decide_False; [done|]. by intros [? _]%Htc. }
  split_and!; [|done..]. split.
  - intros d k. destruct (decide (d ∈ chunk)) as [Hd|Hd].
    + rewrite <- Hids in Hd. apply list_elem_of_fmap in Hd as (r & -> & Hr). rewrite Hval by done.
      unfold doc_keys. rewrite (Hin r Hr). simpl. destruct (Hkeys r Hr) as [Hk Hser].
      rewrite (keys_roundtrip _ _ Hser), emitted_Some, <- Hk. done.
    + rewrite Hother, <- Hiff by done. unfold doc_keys. by rewrite Hout.
  - intros k. rewrite Hen. by apply remapped_NoDup.
Qed.
End Save.
End Batch.
