(* ===== verification/ViewTheorems.v ===== *)
(** * Views are what the documents map to

    A request and the whole background job of a view, over the store: the
    index of a view agrees with the documents except for those recorded as
    invalidated, every commit keeps it so, and when the job succeeds no
    document is invalidated any more. *)

From Stdlib Require Import ZArith Lia Sorting.Sorted.
From stdpp Require Import base list option numbers gmap sorting.
From S2P Require Import Prelude Bytes Nebari Document Names Schema View StoreDemo ViewLaws ViewBatch.

Local Open Scope Z_scope.

(** ** Splitting into chunks *)

Lemma chunks_fuel_concat {A} fuel n (l : list A) :
  (0 < n)%nat -> (length l <= fuel)%nat -> concat (chunks_fuel fuel n l) = l.
Proof.
  intros Hn. revert l. induction fuel as [|fuel IH]; intros [|x l] Hl; try done; simpl in Hl; [lia|].
  cbn [chunks_fuel concat]. rewrite IH; [apply take_drop|]. rewrite length_drop. simpl. lia.
Qed.

Lemma concat_chunks {A} n (l : list A) : (0 < n)%nat -> concat (chunks n l) = l.
Proof. intros Hn. by apply chunks_fuel_concat. Qed.

Lemma sorted_take_drop (l : list bytes) n :
  StronglySorted bytes_lt l -> StronglySorted bytes_lt (take n l) /\ StronglySorted bytes_lt (drop n l).
Proof. intros Hs. rewrite <- (take_drop n l) in Hs. by apply StronglySorted_app in Hs as (_ & ? & ?). Qed.

Lemma chunks_sorted n (l : list bytes) : StronglySorted bytes_lt l -> Forall (StronglySorted bytes_lt) (chunks n l).
Proof.
  unfold chunks. generalize (length l) as fuel. intros fuel. revert l.
  induction fuel as [|fuel IH]; intros [|x l] Hs; try constructor.
  - by apply sorted_take_drop.
  - by apply IH, sorted_take_drop.
Qed.

Section Requests.
Context `{NebariLaws} `{DocumentCodec} `{ViewCodec} `{!ViewCodecLaws _}.
Context (schedule : list MapResult -> list MapResult) (Hsched : forall l, schedule l ≡ₚ l).
Context (v : View) (Hown : own_mappings v).

(** The index has, for a document, what the view maps it to. *)
Definition up_to_date (docs en : gmap bytes bytes) (d : bytes) : Prop :=
  forall k, entry_value en d k = indexed v (docs !! d) k.

(** The entries are well formed; those of a unique view have one mapping. *)
Definition entries_ok (en : gmap bytes bytes) : Prop :=
  (update_policy v = Unique -> at_most_one en) /\ entries_good v en.

(** What mapping the documents [ids] does to an open transaction. *)
Record mapped (docs dm en : nat) (ids : list bytes) (tx tx' : Transaction) : Prop := {
  mapped_index : index_ok (tx_contents tx' dm) (tx_contents tx' en);
  mapped_ids d : d ∈ ids -> up_to_date (tx_contents tx docs) (tx_contents tx' en) d;
  mapped_others d : d ∉ ids -> up_to_date (tx_contents tx docs) (tx_contents tx en) d ->
    up_to_date (tx_contents tx docs) (tx_contents tx' en) d;
  mapped_entries : entries_ok (tx_contents tx en) -> entries_ok (tx_contents tx' en);
  mapped_trees : tx_trees tx' = tx_trees tx;
  mapped_frame i : i <> dm -> i <> en -> tx_contents tx' i = tx_contents tx i
}.

Section Trees.
Context (docs dm en : nat) (Hdocs : docs <> dm /\ docs <> en) (Hne : dm <> en).

Lemma map_results_ok (ds : gmap bytes bytes) chunk rs :
  stored_under_id ds -> map_documents v (rev ((fun d => (d, ds !! d)) <$> chunk)) = Ok rs ->
  mr_id <$> rs ≡ₚ chunk /\
  (forall r, r ∈ rs -> view_output v (ds !! mr_id r) = Some (mr_mappings r) /\
     (forall m, m ∈ mr_mappings r -> id (source m) = mr_id r) /\
     mr_keys r = list_to_set (map_key <$> mr_mappings r) /\ serialize_keys (mr_keys r) = Some (mr_map r)).
Proof.
  intros Hid Hrs%map_documents_ok.
  assert (mr_id <$> rs = rev chunk /\ Forall (fun r => exists d, map_document v (d, ds !! d) = Ok r) rs)
    as [Hids Hall].
  { rewrite <- map_rev in Hrs. revert Hrs. generalize (rev chunk). clear. intros l Hrs.
    remember (map _ l) as ps eqn:Hps. revert l Hps.
    induction Hrs as [|p r ps rs Hp Hrs IH]; intros [|d l] Hps; simplify_eq/=; [by repeat constructor|].
    destruct (IH l eq_refl) as [-> Hf]. pose proof (map_document_ok _ _ _ _ Hp) as (_ & _ & -> & _).
    split; [done|]. constructor; eauto. }
  split; [by rewrite Hids, <- Permutation_rev|]. intros r Hr. rewrite List.Forall_forall in Hall.
  destruct (Hall r) as (d & Hd); [by apply list_elem_of_In|].
  destruct (map_document_ok _ _ _ _ Hd) as (ms & Hout & -> & -> & ? & ?). split_and!; [done| |done..].
  intros m Hm. unfold view_output in Hout. destruct (ds !! d) as [b|] eqn:Hb.
  - destruct (deserialize_document b) as [doc|] eqn:Hdoc; [|done].
    destruct (view_map v doc) as [ms'| |] eqn:Hmap; simplify_eq.
    rewrite (Hown _ _ _ Hmap Hm). by apply (Hid d b).
  - simplify_eq. by apply not_elem_of_nil in Hm.
Qed.

Lemma map_batch_ok chunk tx tx' :
  StronglySorted bytes_lt chunk -> stored_under_id (tx_contents tx docs) ->
  index_ok (tx_contents tx dm) (tx_contents tx en) ->
  map_batch schedule v docs dm en chunk tx = Ok tx' -> mapped docs dm en chunk tx tx'.
Proof.
  intros Hs Hid Hidx Hrun. unfold map_batch in Hrun. inv_res. rename x into pairs, x0 into results.
  rewrite (generate_batch_ok _ _ _ _ Hs ltac:(eassumption)) in *.
  destruct (map_results_ok _ _ _ Hid ltac:(eassumption)) as [Hids Hres].
  assert (forall r, r ∈ schedule results <-> r ∈ results) as Hin by (intros; by rewrite Hsched).
  assert (mr_id <$> schedule results ≡ₚ chunk) as Hids' by (by rewrite Hsched).
  assert (forall r m, r ∈ schedule results -> m ∈ mr_mappings r -> id (source m) = mr_id r) as Hown'
    by (intros r m Hr%Hin; by apply Hres).
  assert (forall r, r ∈ schedule results -> mr_keys r = list_to_set (map_key <$> mr_mappings r) /\
    serialize_keys (mr_keys r) = Some (mr_map r)) as Hkeys by (intros r Hr%Hin; by apply Hres).
  destruct (save_mappings_trees v _ _ _ _ _ _ Hs Hne Hids' Hown' Hkeys Hrun)
    as (_ & _ & _ & _ & _ & Huniq & Hgood & Ht & Hf).
  destruct (save_mappings_index v _ _ _ _ _ _ Hs Hne Hids' Hown' Hkeys Hrun Hidx)
    as (Hidx' & Hval & Hother).
  split; [done|..|done|done].
  - intros d Hd k. rewrite <- Hids' in Hd. apply list_elem_of_fmap in Hd as (r & -> & Hr).
    rewrite Hval by done. unfold indexed. by rewrite (proj1 (Hres r (proj1 (Hin r) Hr))).
  - intros d Hd Hup k. rewrite Hother by done. apply Hup.
  - intros [Hu Hg]. split; [|by apply Hgood]. intros Hp. by apply Huniq, Hu.
Qed.

Lemma mapped_nil tx : index_ok (tx_contents tx dm) (tx_contents tx en) -> mapped docs dm en [] tx tx.
Proof. intros Hi. split; try done. intros d Hd. by apply not_elem_of_nil in Hd. Qed.

Lemma mapped_trans ids1 ids2 tx1 tx2 tx3 :
  mapped docs dm en ids1 tx1 tx2 -> mapped docs dm en ids2 tx2 tx3 -> mapped docs dm en (ids1 ++ ids2) tx1 tx3.
Proof.
  intros [_ Hi1 Ho1 Hu1 Ht1 Hf1] [Hx Hi2 Ho2 Hu2 Ht2 Hf2]. destruct Hdocs.
  rewrite Hf1 in Hi2, Ho2 by done. split; [done|..].
  - intros d Hd. destruct (decide (d ∈ ids2)); [by apply Hi2|]. apply Ho2, Hi1; [done|]. set_solver.
  - intros d [? ?]%not_elem_of_app Hup. by apply Ho2, Ho1.
  - auto.
  - congruence.
  - intros i ? ?. rewrite Hf2, Hf1; done.
Qed.

Lemma map_chunks_ok cs tx tx' :
  Forall (StronglySorted bytes_lt) cs -> stored_under_id (tx_contents tx docs) ->
  index_ok (tx_contents tx dm) (tx_contents tx en) ->
  map_chunks schedule v docs dm en cs tx = Ok tx' -> mapped docs dm en (concat cs) tx tx'.
Proof.
  intros Hs. revert tx. induction Hs as [|c cs Hc Hs IH]; intros tx Hid Hidx Hrun; simpl in Hrun; inv_res.
  { by apply mapped_nil. }
  rename x into tx1. assert (mapped docs dm en c tx tx1) as Hm by (by apply map_batch_ok).
  simpl. eapply mapped_trans; [exact Hm|]. destruct Hm as [Hidx1 _ _ _ _ Hf]. destruct Hdocs.
  apply IH; [by rewrite Hf|done..].
Qed.

Lemma map_request_ok ids tx tx' :
  StronglySorted bytes_lt ids -> stored_under_id (tx_contents tx docs) ->
  index_ok (tx_contents tx dm) (tx_contents tx en) ->
  map_request schedule v docs dm en ids tx = Ok tx' -> mapped docs dm en ids tx tx'.
Proof.
  intros Hs Hid Hidx Hrun. rewrite <- (concat_chunks 1024 ids) by lia.
  apply map_chunks_ok; [|done..]. by apply chunks_sorted.
Qed.

End Trees.
(** ** The background job of a view *)

Abbreviation invalidated_tree := (view_invalidated_docs_tree_name (view_name v)).
Abbreviation document_map_tree := (view_document_map_tree_name (view_name v)).
Abbreviation documents_tree := (document_tree_name (view_collection v)).
Abbreviation entries_tree := (view_entries_tree_name (view_name v)).
Abbreviation tree r t := (Nebari.contents r t).

(** The trees of the view agree, and every document that is neither recorded as
    invalidated nor in [ex] is indexed as the view maps it; [T] gives the
    contents of every tree. *)
Record synced_except (ex : list bytes) (T : str -> gmap bytes bytes) : Prop := {
  synced_index : index_ok (T document_map_tree) (T entries_tree);
  synced_documents : stored_under_id (T documents_tree);
  synced_fresh d : T invalidated_tree !! d = None -> d ∉ ex -> up_to_date (T documents_tree) (T entries_tree) d;
  synced_entries : entries_ok (T entries_tree)
}.
Definition view_synced (r : Roots) : Prop := synced_except [] (Nebari.contents r).

Context (Hwf : view_wf (view_name v)) (Hcwf : qualified_wf (view_collection v)).

Definition view_trees : list str :=
  [invalidated_tree; document_map_tree; documents_tree; entries_tree].

Lemma view_trees_NoDup : NoDup view_trees.
Proof.
  apply (tree_names_NoDup [TInvalidated (view_name v); TDocumentMap (view_name v);
    TDocuments (view_collection v); TEntries (view_name v)]).
  - repeat constructor; rewrite ?elem_of_cons, ?elem_of_nil; naive_solver.
  - repeat constructor; (apply Hwf || apply Hcwf).
Qed.

Lemma modify_remove (ks : list bytes) (m m' : gmap bytes bytes) u :
  modify_spec (E := nebari_error) ks (fun _ _ => mret OpRemove) m tt = Ok (m', u) ->
  forall k, m' !! k = if decide (k ∈ ks) then None else m !! k.
Proof.
  revert m. induction ks as [|k0 ks IH]; intros m Hrun k; simpl in Hrun.
  { injection Hrun as <- <-. by rewrite decide_False by apply not_elem_of_nil. }
  rewrite (IH _ Hrun k). destruct (decide (k ∈ ks)) as [Hk|Hk].
  - by rewrite decide_True by (by right).
  - destruct (decide (k = k0)) as [->|Hne].
    + rewrite lookup_delete_eq, decide_True; [done|left].
    + rewrite lookup_delete_ne, decide_False; [done|set_solver|done].
Qed.

(** One round of the job: [ids] are mapped and no longer invalidated. *)
Definition mapped_round (r r' : Roots) (ids : list bytes) : Prop :=
  view_synced r' /\
  (forall d, tree r' invalidated_tree !! d = if decide (d ∈ ids) then None else tree r invalidated_tree !! d) /\
  tree r' documents_tree = tree r documents_tree /\
  (forall t, t ∉ view_trees -> tree r' t = tree r t).

Lemma map_round_ok r tx0 tx1 tx2 u r' ids :
  view_synced r -> StronglySorted bytes_lt ids -> transaction r view_trees = Ok tx0 ->
  map_request schedule v 2 1 3 ids tx0 = Ok tx1 ->
  tx_modify tx1 0 ids (fun _ _ => mret OpRemove) tt = Ok (tx2, u) ->
  tx_commit r tx2 = Ok r' -> mapped_round r r' ids.
Proof.
  intros [Hidx Hid Hfresh Huniq] Hs (Ht & _ & Hc)%transaction_law Hreq Hrem Hcommit.
  pose proof (Hc 0%nat _ eq_refl) as H0c. pose proof (Hc 1%nat _ eq_refl) as H1c.
  pose proof (Hc 2%nat _ eq_refl) as H2c. pose proof (Hc 3%nat _ eq_refl) as H3c. clear Hc.
  apply map_request_ok in Hreq as [Hidx' Hids Hothers Huniq' Ht1 Hf];
    [|done|done|done|by rewrite H2c|by rewrite H1c, H3c].
  rewrite H2c, H3c in *.
  apply tx_modify_law in Hrem as [Hrem (Ht2 & _ & Hf2)]; [|done].
  pose proof (modify_remove _ _ _ _ Hrem) as Hinv. rewrite Hf, H0c in Hinv by done.
  apply tx_commit_law in Hcommit as [Hc Hout]; [|rewrite Ht2, Ht1, Ht; apply view_trees_NoDup].
  rewrite Ht2, Ht1, Ht in Hc, Hout. unfold mapped_round.
  rewrite (Hc 0%nat _ eq_refl), (Hc 2%nat _ eq_refl), (Hf2 2%nat), (Hf 2%nat), H2c by done.
  split_and!; [|exact Hinv|done|exact Hout].
  split; rewrite ?(Hc 0%nat _ eq_refl), ?(Hc 1%nat _ eq_refl), ?(Hc 2%nat _ eq_refl), ?(Hc 3%nat _ eq_refl),
    ?(Hf2 1%nat), ?(Hf2 2%nat), ?(Hf2 3%nat), ?(Hf 2%nat), ?H2c by done; [done|done| |by apply Huniq'].
  intros d Hd _. rewrite Hinv in Hd. case_decide as Hin; [by apply Hids|].
  apply Hothers, Hfresh; [done..|apply not_elem_of_nil].
Qed.

(** What any number of rounds keeps. *)
Definition job_inv (r r' : Roots) : Prop :=
  view_synced r' /\ tree r' documents_tree = tree r documents_tree /\
  (forall t, t ∉ view_trees -> tree r' t = tree r t).

Lemma job_inv_refl r : view_synced r -> job_inv r r.
Proof. done. Qed.

Lemma map_view_round_ok ids r res r' :
  view_synced r -> StronglySorted bytes_lt ids -> map_view_round schedule v ids r = (res, r') ->
  job_inv r r' /\ (res = Ok tt -> mapped_round r r' ids).
Proof.
  intros Hsync Hs. unfold map_view_round. rewrite (stm_bind_Ok st_get _ r r r) by done.
  change [_; _; _; _] with view_trees. unfold db_tx.
  destruct (transaction r view_trees) as [tx0| |] eqn:Htx; [|by intros [= <- <-]..].
  rewrite (stm_bind_Ok _ _ r tx0 r) by done.
  destruct (map_request schedule v 2 1 3 ids tx0) as [tx1| |] eqn:Hreq; [|by intros [= <- <-]..].
  rewrite (stm_bind_Ok _ _ r tx1 r) by done.
  destruct (tx_modify tx1 0 ids _ _) as [[tx2 u]| |] eqn:Hrem; [|by intros [= <- <-]..].
  rewrite (stm_bind_Ok _ _ r (tx2, u) r) by done.
  destruct (tx_commit r tx2) as [r1| |] eqn:Hcommit; [|by intros [= <- <-]..].
  rewrite (stm_bind_Ok _ _ r r1 r) by done. intros [= <- <-].
  pose proof (map_round_ok r tx0 tx1 tx2 u r1 ids Hsync Hs Htx Hreq Hrem Hcommit) as Hround.
  split; [|done]. by destruct Hround as (? & _ & ? & ?).
Qed.

Lemma map_view_loop_ok fuel ids r res r' :
  view_synced r -> StronglySorted bytes_lt ids -> (length ids <= fuel)%nat ->
  map_view_loop schedule fuel v ids r = (res, r') ->
  job_inv r r' /\
  (res = Ok tt -> forall d, tree r' invalidated_tree !! d =
     if decide (d ∈ ids) then None else tree r invalidated_tree !! d).
Proof.
  revert ids r. induction fuel as [|fuel IH]; intros ids r Hsync Hs Hlen.
  { destruct ids; [|simpl in Hlen; lia]. by intros [= <- <-]. }
  destruct (decide (ids = [])) as [->|Hne]; [by intros [= <- <-]|].
  set (keep := (length ids - CHUNK_SIZE)%nat).
  assert (map_view_loop schedule (S fuel) v ids r =
    (map_view_round schedule v (drop keep ids);; map_view_loop schedule fuel v (take keep ids)) r) as ->
    by (by destruct ids).
  destruct (map_view_round schedule v (drop keep ids) r) as [res1 r1] eqn:Hround.
  rewrite (stm_bind_run _ _ _ _ _ Hround). destruct (sorted_take_drop ids keep Hs) as [Hs1 Hs2].
  apply map_view_round_ok in Hround as [(Hsync1 & Hdocs & Hout) Hok1]; [|done|done].
  destruct res1 as [[]| |]; [|by intros [= <- <-]..]. destruct (Hok1 eq_refl) as (_ & Hinv & _).
  intros Hrun. apply IH in Hrun as [(Hsync' & Hdocs' & Hout') Hok]; [|done|done|].
  2: { rewrite length_take. unfold keep. assert (0 < CHUNK_SIZE)%nat by (unfold CHUNK_SIZE; lia).
       destruct ids; [done|]. cbn [length] in *. lia. }
  split; [split_and!; [done|congruence|]|].
  - intros t Ht. rewrite Hout', Hout; done.
  - intros Hr d. rewrite Hok, Hinv by done.
    assert (d ∈ ids <-> d ∈ take keep ids \/ d ∈ drop keep ids) by (by rewrite <- elem_of_app, take_drop).
    repeat case_decide; naive_solver.
Qed.

Lemma map_view_ok r res r' :
  view_synced r -> map_view schedule v r = (res, r') ->
  job_inv r r' /\
  (res = Ok tt -> tree r' invalidated_tree = ∅ /\
     forall d k, entry_value (tree r' entries_tree) d k = indexed v (tree r documents_tree !! d) k).
Proof.
  intros Hsync. unfold map_view. rewrite (stm_bind_Ok st_get _ r r r) by done.
  destruct (db_tx (roots_scan r _)) as [l| |] eqn:Hscan; [|by intros [= <- <-]..].
  rewrite (stm_bind_Ok _ _ r l r) by done. unfold db_tx in Hscan. inv_res.
  apply roots_scan_law in Hscan as [Hs Hin]. intros Hrun.
  apply map_view_loop_ok in Hrun as [Hjob Hok]; [|done|done|by rewrite length_fmap].
  split; [done|]. intros Hr. assert (tree r' invalidated_tree = ∅) as He.
  { apply map_empty. intros d. rewrite Hok by done. case_decide as Hd; [done|].
    destruct (tree r _ !! d) as [b|] eqn:Hb; [|done]. exfalso. apply Hd.
    apply list_elem_of_fmap. exists (d, b). by rewrite Hin. }
  split; [done|]. destruct Hjob as ([_ _ Hfresh _] & Hdocs & _). intros d k.
  rewrite Hfresh, Hdocs; [done|by rewrite He|apply not_elem_of_nil].
Qed.

Lemma at_most_one_source en d1 d2 k :
  at_most_one en -> is_Some (entry_value en d1 k) -> is_Some (entry_value en d2 k) -> d1 = d2.
Proof.
  intros Hone. specialize (Hone k). unfold entry_value. rewrite !find_mapping_Some.
  destruct (stored_mappings (en !! k)) as [|m [|]]; simpl in Hone; [|csimpl|lia].
  - intros ?%elem_of_nil. done.
  - intros ->%list_elem_of_singleton ->%list_elem_of_singleton. done.
Qed.

(** C6: the background job of a view keeps the view in step with the
    documents, in whatever order the mapping threads finish.  From a store in
    which every document that is not recorded as invalidated is indexed as the
    view maps it, every outcome of the job, errors included, leaves such a
    store, with the documents and every tree of another view or collection
    untouched; and when the job succeeds no document is left invalidated, so
    that the entries of the view hold exactly what its map function makes of
    the stored documents. *)
Theorem map_view_updates r res r' :
  view_synced r -> map_view schedule v r = (res, r') ->
  (view_synced r' /\ tree r' documents_tree = tree r documents_tree /\
   forall t, t ∉ view_trees -> tree r' t = tree r t) /\
  (res = Ok tt -> tree r' invalidated_tree = ∅ /\
     forall d k, entry_value (tree r' entries_tree) d k = indexed v (tree r documents_tree !! d) k).
Proof. apply map_view_ok. Qed.

(** A unique view enforces uniqueness: when its job succeeds, no two
    stored documents emit the same key. *)
Theorem unique_view_enforced r r' d1 d2 k :
  view_synced r -> update_policy v = Unique -> map_view schedule v r = (Ok tt, r') ->
  is_Some (indexed v (tree r' documents_tree !! d1) k) ->
  is_Some (indexed v (tree r' documents_tree !! d2) k) -> d1 = d2.
Proof.
  intros Hsync Hu Hrun. destruct (map_view_ok _ _ _ Hsync Hrun) as [(Hsync' & Hdocs & _) Hok].
  destruct (Hok eq_refl) as [_ Hval]. rewrite Hdocs, <- !Hval.
  by apply at_most_one_source, (synced_entries _ _ Hsync').
Qed.

(** C39: the entries of a view stay well formed: after a mapping job, whatever
    its outcome, every stored entry decodes, is stored under the key it names,
    holds at least one mapping, and, when the view reduces, its reduced value is
    the reduction of exactly the mappings it holds. *)
Theorem entries_well_formed r res r' k b :
  view_synced r -> map_view schedule v r = (res, r') -> tree r' entries_tree !! k = Some b ->
  exists e, deserialize_view_entry b = Some e /\ ve_key e = k /\ mappings e <> [] /\
    (implemented v -> view_reduce v (reduce_input k (mappings e)) false = Ok (reduced_value e)).
Proof.
  intros Hsync Hrun Hb. destruct (map_view_ok _ _ _ Hsync Hrun) as [(Hsync' & _) _].
  by apply (synced_entries _ _ Hsync') in Hb.
Qed.
End Requests.

(** ** The theorems on an in-memory store *)

Module ViewExamples.
Import MemNebari StoreDemo.

(** Two notes, not mapped yet. *)
Definition note (d c : bytes) : bytes := bits (encode (document_new d c)).
Definition store (v : View) : Roots := MkRoots
  (<[document_tree_name notes := <[[1] := note [1] [7]]> (<[[2] := note [2] [8]]> ∅)]>
     (<[view_invalidated_docs_tree_name (view_name v) := <[[1] := []]> (<[[2] := []]> ∅)]> ∅)) true [].
Definition mapped_store (v : View) : Roots := (map_view (fun l => l) v (store v)).2.

Abbreviation tree r t := (Nebari.contents r t).

Lemma store_synced p : view_synced (by_contents p) (store (by_contents p)).
Proof.
  assert (tree (store (by_contents p)) (view_entries_tree_name (view_name (by_contents p))) = ∅) as He
    by (vm_compute; reflexivity).
  assert (tree (store (by_contents p)) (view_document_map_tree_name (view_name (by_contents p))) = ∅) as Hm
    by (vm_compute; reflexivity).
  assert (tree (store (by_contents p)) (document_tree_name notes) =
    <[[1] := note [1] [7]]> (<[[2] := note [2] [8]]> ∅)) as Hd by (vm_compute; reflexivity).
  assert (tree (store (by_contents p)) (view_invalidated_docs_tree_name (view_name (by_contents p))) =
    <[[1] := []]> (<[[2] := []]> ∅)) as Hi by (vm_compute; reflexivity).
  split; change (view_collection (by_contents p)) with notes; rewrite ?He, ?Hm, ?Hd, ?Hi.
  - split; [intros d k; unfold doc_keys, entry_value; rewrite !lookup_empty; simpl|].
    + split; [by intros ?%not_elem_of_empty|by intros []].
    + intros k. rewrite lookup_empty. constructor.
  - intros d b doc. rewrite !lookup_insert_Some, lookup_empty.
    assert (forall i c, deserialize_document (note i c) = Some (document_new i c)) as Hnote.
    { intros i c. unfold deserialize_document, note. simpl. by rewrite unbits_bits, decode_encode. }
    intros [[<- <-]|(_ & [[<- <-]|(_ & [=])])]; rewrite Hnote; by intros [= <-].
  - intros d. rewrite !lookup_insert_None. intros [[_ Hd2] Hd1] _ k.
    rewrite !lookup_insert_ne by done. unfold entry_value. by rewrite !lookup_empty.
  - split; [intros _ k; rewrite lookup_empty; simpl; lia|]. intros k b. by rewrite lookup_empty.
Qed.

Lemma identity_schedule (l : list MapResult) : l ≡ₚ l.
Proof. done. Qed.

Lemma by_contents_own p : own_mappings (by_contents p).
Proof. intros doc ms m [= <-] ->%list_elem_of_singleton. done. Qed.

Lemma mapped_store_Ok p :
  map_view (fun l => l) (by_contents p) (store (by_contents p)) = (Ok tt, mapped_store (by_contents p)).
Proof.
  unfold mapped_store. assert (is_ok (map_view (fun l => l) (by_contents p) (store (by_contents p))).1 = true).
  { destruct p; vm_compute; reflexivity. }
  by destruct (map_view _ _ _) as [[[]| |] r].
Qed.

Lemma map_view_updates_witness :
  entry_value (tree (mapped_store (by_contents Lazy)) (view_entries_tree_name (view_name (by_contents Lazy))))
    [1] [7] = Some (revision_new [7], [1]) /\
  tree (mapped_store (by_contents Lazy)) (view_invalidated_docs_tree_name (view_name (by_contents Lazy))) = ∅.
Proof.
  destruct (by_contents_wf Lazy) as [Hw Hc].
  destruct (map_view_updates (fun l => l) identity_schedule (by_contents Lazy) (by_contents_own Lazy) Hw Hc
    _ _ _ (store_synced Lazy) (mapped_store_Ok Lazy)) as [_ Hok].
  destruct (Hok eq_refl) as [He Hv]. split; [|exact He]. rewrite Hv. vm_compute. reflexivity.
Defined.

Lemma entries_well_formed_witness :
  exists b e, tree (mapped_store (by_contents Lazy)) (view_entries_tree_name (view_name (by_contents Lazy))) !! [7] = Some b /\
    deserialize_view_entry b = Some e /\ reduced_value e = [sum_heads (reduce_input [7] (mappings e))].
Proof.
  destruct (tree (mapped_store (by_contents Lazy)) (view_entries_tree_name (view_name (by_contents Lazy))) !! [7])
    as [b|] eqn:Hb; [|by vm_compute in Hb].
  destruct (by_contents_wf Lazy) as [Hw Hc].
  destruct (entries_well_formed (fun l => l) identity_schedule (by_contents Lazy) (by_contents_own Lazy) Hw Hc
    _ _ _ [7] b (store_synced Lazy) (mapped_store_Ok Lazy) Hb) as (e & He & _ & _ & Hred).
  exists b, e. split; [reflexivity|]. split; [exact He|]. assert (implemented (by_contents Lazy)) as Hi by done.
  specialize (Hred Hi). by injection Hred as <-.
Defined.

Lemma unique_view_enforced_witness :
  is_Some (indexed (by_contents Unique)
    (tree (mapped_store (by_contents Unique)) (document_tree_name notes) !! [1]) [7]) /\
  forall d, is_Some (indexed (by_contents Unique)
    (tree (mapped_store (by_contents Unique)) (document_tree_name notes) !! d) [7]) -> d = [1].
Proof.
  destruct (by_contents_wf Unique) as [Hw Hc].
  assert (is_Some (indexed (by_contents Unique)
    (tree (mapped_store (by_contents Unique)) (document_tree_name notes) !! [1]) [7])) as H1.
  { exists (revision_new [7], [1]). vm_compute. reflexivity. }
  split; [exact H1|]. intros d Hd. symmetry.
  exact (unique_view_enforced (fun l => l) identity_schedule (by_contents Unique) (by_contents_own Unique)
    Hw Hc _ _ [1] d [7] (store_synced Unique) eq_refl (mapped_store_Ok Unique) H1 Hd).
Defined.

End ViewExamples.
