(* ===== verification/TransactionLaws.v ===== *)
(** * Laws of document transactions

    The trees a transaction opens, and what its operations do to them: every
    operation changes at most one document of its collection, brings the eager
    views of the collection up to date and leaves every other tree alone. *)

From Stdlib Require Import ZArith Lia Sorting.Sorted.
From stdpp Require Import base list option numbers gmap sorting.
From S2P Require Import Prelude Bytes Nebari Document Names Changes Key Schema View Transaction ViewLaws ViewBatch ViewTheorems.

Local Open Scope Z_scope.

(** ** Opening trees *)

Record trees_ok (o : OpenTrees) : Prop := {
  trees_index n i : trees_index_by_name o !! n = Some i <-> trees o !! i = Some n;
  trees_NoDup : NoDup (trees o)
}.

Definition opened (o : OpenTrees) (n : str) : Prop := is_Some (trees_index_by_name o !! n).

Lemma no_trees_ok : trees_ok no_trees.
Proof. split; [|constructor]. intros n i. simpl. rewrite lookup_empty. by destruct i. Qed.

Lemma open_tree_ok n o : trees_ok o -> trees_ok (open_tree n o).
Proof.
  intros [Hix Hn]. unfold open_tree. destruct (trees_index_by_name o !! n) as [j|] eqn:Hj; [done|].
  assert (n ∉ trees o) as Hnew.
  { intros [i Hi]%list_elem_of_lookup. apply Hix in Hi. congruence. }
  split; simpl.
  - intros n' i. rewrite lookup_insert_Some, Hix, lookup_snoc_Some. split.
    + intros [[<- <-]|[Hne Hi]]; [by right|]. left. split; [by eapply lookup_lt_Some|done].
    + intros [[Hlt Hi]|[-> <-]]; [right|by left]. split; [|done]. intros <-. by apply Hnew, (list_elem_of_lookup_2 _ i).
  - apply NoDup_app. split_and!; [done| |apply NoDup_singleton]. by intros x Hx ->%list_elem_of_singleton.
Qed.

Lemma open_tree_opens n o : opened (open_tree n o) n.
Proof.
  unfold opened, open_tree. destruct (trees_index_by_name o !! n) eqn:E; [by rewrite E|].
  simpl. by rewrite lookup_insert_eq.
Qed.

Lemma open_tree_keeps n n' o : opened o n' -> opened (open_tree n o) n'.
Proof.
  unfold opened, open_tree. destruct (trees_index_by_name o !! n); [done|]. simpl. intros Hn'.
  apply lookup_insert_is_Some'. by right.
Qed.
#[local] Hint Resolve open_tree_ok open_tree_opens open_tree_keeps : core.

Lemma open_trees_for_view_ok o v :
  trees_ok o -> trees_ok (open_trees_for_view o v) /\ (forall n, opened o n -> opened (open_trees_for_view o v) n) /\
  (if is_eager (update_policy v)
   then opened (open_trees_for_view o v) (view_document_map_tree_name (view_name v)) /\
        opened (open_trees_for_view o v) (view_entries_tree_name (view_name v))
   else opened (open_trees_for_view o v) (view_invalidated_docs_tree_name (view_name v))).
Proof. intros Hok. unfold open_trees_for_view. destruct (is_eager (update_policy v)); auto 10. Qed.

(** The trees a change of a document needs. *)
Definition has_trees_for (s : Schematic) (c : CollectionName) (o : OpenTrees) : Prop :=
  opened o (document_tree_name c) /\
  forall v, v ∈ views_in_collection s c ->
    if is_eager (update_policy v)
    then opened o (view_document_map_tree_name (view_name v)) /\ opened o (view_entries_tree_name (view_name v))
    else opened o (view_invalidated_docs_tree_name (view_name v)).

Lemma open_views_ok vs o :
  trees_ok o -> let o' := foldl open_trees_for_view o vs in
  trees_ok o' /\ (forall n, opened o n -> opened o' n) /\
  forall v, v ∈ vs ->
    if is_eager (update_policy v)
    then opened o' (view_document_map_tree_name (view_name v)) /\ opened o' (view_entries_tree_name (view_name v))
    else opened o' (view_invalidated_docs_tree_name (view_name v)).
Proof.
  revert o. induction vs as [|v vs IH]; intros o Hok; simpl.
  { split_and!; [done..|]. intros v Hv. by apply elem_of_nil in Hv. }
  destruct (open_trees_for_view_ok o v Hok) as (Hok1 & Hkeep1 & Hv1).
  destruct (IH _ Hok1) as (Hok2 & Hkeep2 & Hvs). split_and!; [done|auto|].
  intros v' [->|Hv']%elem_of_cons; [|by apply Hvs].
  destruct (is_eager (update_policy v)); [|by apply Hkeep2]. destruct Hv1. split; by apply Hkeep2.
Qed.

Lemma has_trees_keep s c o o' : (forall n, opened o n -> opened o' n) -> has_trees_for s c o -> has_trees_for s c o'.
Proof.
  intros Hk [Hd Hv]. split; [auto|]. intros v Hin. specialize (Hv v Hin).
  destruct (is_eager (update_policy v)); [destruct Hv|]; auto.
Qed.

Section Trees.
Context `{Nebari} (schema : Schematic).

Lemma open_trees_ok ops o o' :
  trees_ok o -> open_trees_for_operations schema ops o = Ok o' ->
  trees_ok o' /\ (forall n, opened o n -> opened o' n) /\
  forall op, op ∈ ops -> is_Some (contained_collections schema !! op_collection op) /\
                         has_trees_for schema (op_collection op) o'.
Proof.
  revert o. induction ops as [|op ops IH]; intros o Hok Hrun; simpl in Hrun.
  { inv_res. split_and!; [done..|]. intros op Hop. by apply elem_of_nil in Hop. }
  destruct (contained_collections schema !! op_collection op) eqn:Hc; [|done].
  unfold open_trees_for_document_change in Hrun.
  destruct (open_views_ok (views_in_collection schema (op_collection op))
    (open_tree (document_tree_name (op_collection op)) o)) as (Hok1 & Hkeep1 & Hv1); [auto|].
  destruct (IH _ Hok1 Hrun) as (Hok2 & Hkeep2 & Hops). split_and!; [done|auto|].
  intros op' [->|Hop']%elem_of_cons; [|by apply Hops]. split; [by rewrite Hc|].
  eapply has_trees_keep; [exact Hkeep2|]. split; [auto|done].
Qed.

End Trees.

(** ** Views and the trees they use *)

Section Synced.
Context `{DocumentCodec} `{ViewCodec}.

(** The trees of a view, by kind. *)
Definition view_kinds (v : View) : list TreeKind :=
  [TInvalidated (view_name v); TDocumentMap (view_name v); TDocuments (view_collection v); TEntries (view_name v)].

Lemma synced_frame v ex T T' :
  synced_except v ex T -> (forall k, k ∈ view_kinds v -> T' (tree_name k) = T (tree_name k)) ->
  synced_except v ex T'.
Proof.
  intros Hs Heq.
  pose proof (Heq (TInvalidated (view_name v)) ltac:(unfold view_kinds; set_solver)) as E1.
  pose proof (Heq (TDocumentMap (view_name v)) ltac:(unfold view_kinds; set_solver)) as E2.
  pose proof (Heq (TDocuments (view_collection v)) ltac:(unfold view_kinds; set_solver)) as E3.
  pose proof (Heq (TEntries (view_name v)) ltac:(unfold view_kinds; set_solver)) as E4.
  cbn [tree_name] in *. destruct Hs. split; rewrite ?E1, ?E2, ?E3, ?E4; done.
Qed.

Lemma synced_mono v ex ex' T : synced_except v ex T -> ex ⊆ ex' -> synced_except v ex' T.
Proof. intros [] Hsub. split; [done..| |done]. intros d Hd Hin. auto. Qed.

Lemma synced_change v ex T T' d :
  synced_except v ex T ->
  (forall k, k ∈ view_kinds v -> k <> TDocuments (view_collection v) -> T' (tree_name k) = T (tree_name k)) ->
  (forall d', d' <> d -> T' (document_tree_name (view_collection v)) !! d' =
                         T (document_tree_name (view_collection v)) !! d') ->
  stored_under_id (T' (document_tree_name (view_collection v))) ->
  synced_except v (d :: ex) T'.
Proof.
  intros Hs Heq Hdocs Hid.
  pose proof (Heq (TInvalidated (view_name v)) ltac:(unfold view_kinds; set_solver) ltac:(done)) as E1.
  pose proof (Heq (TDocumentMap (view_name v)) ltac:(unfold view_kinds; set_solver) ltac:(done)) as E2.
  pose proof (Heq (TEntries (view_name v)) ltac:(unfold view_kinds; set_solver) ltac:(done)) as E4.
  cbn [tree_name] in *. destruct Hs as [Hi _ Hf Hu]. split; rewrite ?E1, ?E2, ?E4; [done..| |done].
  intros d' Hd' [Hne Hex]%not_elem_of_cons k. rewrite Hdocs by done. by apply Hf.
Qed.

End Synced.

(** ** The store as a transaction sees it *)

Section Laws.
Context `{NebariLaws} `{DocumentCodec} `{!DocumentCodecLaws _} `{ViewCodec} `{!ViewCodecLaws _} `{Digest}.
Context (schedule : list MapResult -> list MapResult) (Hsched : forall l, schedule l ≡ₚ l).

(** A schema of well-named collections and views that map their own documents. *)
Record schema_wf (s : Schematic) : Prop := {
  wf_indexes : schematic_ok s;
  wf_collections c : is_Some (contained_collections s !! c) -> qualified_wf c;
  wf_views c v : v ∈ views_in_collection s c ->
    view_wf (view_name v) /\ qualified_wf c /\ own_mappings v
}.

Context (schema : Schematic) (Hschema : schema_wf schema).
(** The views that are in step: all of them, or those whose stored version is
    the current one. *)
Context (good : View -> Prop).

Context (r : Roots) (ix : gmap str nat)
  (Hix : forall n n' i, ix !! n = Some i -> ix !! n' = Some i -> n = n').

(** The contents of every tree: those of the transaction for the trees it
    opened. *)
Definition through (tx : Transaction) (n : str) : gmap bytes bytes :=
  match ix !! n with Some i => tx_contents tx i | None => Nebari.contents r n end.

Lemma through_open tx n i : ix !! n = Some i -> through tx n = tx_contents tx i.
Proof. unfold through. by intros ->. Qed.

Lemma through_frame tx tx' n i :
  ix !! n = Some i -> tx_frame i tx tx' -> forall n', n' <> n -> through tx' n' = through tx n'.
Proof.
  intros Hi (_ & _ & Hf) n' Hne. unfold through. destruct (ix !! n') as [j|] eqn:Hj; [|done].
  apply Hf. intros ->. apply Hne. by eapply Hix.
Qed.

Lemma tree_index_Ok n i : tree_index ix n = Ok i -> ix !! n = Some i.
Proof. unfold tree_index. apply unwrap_Ok_inv. Qed.

(** Views and trees of the schema have different names. *)
Lemma view_trees_distinct c v n :
  v ∈ views_in_collection schema c ->
  (n = document_tree_name c \/ n = view_invalidated_docs_tree_name (view_name v)) ->
  n <> view_document_map_tree_name (view_name v) /\ n <> view_entries_tree_name (view_name v) /\
  view_document_map_tree_name (view_name v) <> view_entries_tree_name (view_name v).
Proof.
  intros (Hv & Hc & _)%(wf_views _ Hschema) Hn.
  pose proof (tree_name_inj (TDocumentMap (view_name v)) (TEntries (view_name v)) Hv Hv) as H1'.
  assert (exists k, n = tree_name k /\ tree_kind_wf k /\ (forall w, k <> TDocumentMap w /\ k <> TEntries w))
    as (k & -> & Hk & Hne).
  { destruct Hn as [->| ->]; [exists (TDocuments c)|exists (TInvalidated (view_name v))]; done. }
  destruct (Hne (view_name v)). split_and!.
  - intros Heq. by apply (tree_name_inj _ (TDocumentMap (view_name v))) in Heq.
  - intros Heq. by apply (tree_name_inj _ (TEntries (view_name v))) in Heq.
  - intros Heq. by apply H1' in Heq.
Qed.

(** ** Eager views *)

Definition changed_ids (c : CollectionName) (chg : list (CollectionName * bytes)) : list bytes :=
  (filter (fun p => p.1 = c) chg).*2.

(** The documents a view is not up to date for, while the document [d] of a
    change is being mapped for the eager views [names] and the documents [chg]
    await being recorded for the lazy ones. *)
Definition pending (d : bytes) (names : list ViewName) (chg : list (CollectionName * bytes)) (v : View) : list bytes :=
  if is_eager (update_policy v) then if decide (view_name v ∈ names) then [d] else []
  else changed_ids (view_collection v) chg.

Definition synced_all (ex : View -> list bytes) (T : str -> gmap bytes bytes) : Prop :=
  forall c v, v ∈ views_in_collection schema c -> good v -> synced_except v (ex v) T.
(** The eager views of a collection are in step. *)
Definition eager_good (c : CollectionName) : Prop :=
  forall v, v ∈ views_in_collection schema c -> is_eager (update_policy v) = true -> good v.

(** Trees the eager views do not use. *)
Definition not_entries (k : TreeKind) : Prop := forall w, k <> TDocumentMap w /\ k <> TEntries w.
Definition entries_only (tx tx' : Transaction) : Prop :=
  tx_trees tx' = tx_trees tx /\
  forall k, tree_kind_wf k -> not_entries k -> through tx' (tree_name k) = through tx (tree_name k).

Lemma entries_only_trans tx1 tx2 tx3 : entries_only tx1 tx2 -> entries_only tx2 tx3 -> entries_only tx1 tx3.
Proof. intros [Ht1 Hk1] [Ht2 Hk2]. split; [congruence|]. intros k Hw Hn. rewrite Hk2, Hk1; done. Qed.

Lemma map_eager_view v c d i idm ien tx tx' :
  v ∈ views_in_collection schema c ->
  ix !! document_tree_name c = Some i -> ix !! view_document_map_tree_name (view_name v) = Some idm ->
  ix !! view_entries_tree_name (view_name v) = Some ien ->
  synced_except v [d] (through tx) -> map_request schedule v i idm ien [d] tx = Ok tx' ->
  synced_except v [] (through tx') /\ tx_trees tx' = tx_trees tx /\
  (forall n, n <> view_document_map_tree_name (view_name v) -> n <> view_entries_tree_name (view_name v) ->
     through tx' n = through tx n).
Proof.
  intros Hv Hi Hidm Hien [Hidx Hid Hf Hu] Hrun.
  destruct (view_in_collection _ _ _ (wf_indexes _ Hschema) Hv) as [Hc _].
  destruct (view_trees_distinct c v _ Hv (or_introl eq_refl)) as (N1 & N2 & N3).
  destruct (view_trees_distinct c v _ Hv (or_intror eq_refl)) as (M1 & M2 & _).
  destruct (wf_views _ Hschema _ _ Hv) as (_ & _ & Hown). rewrite Hc in *.
  assert (forall n n' j j', ix !! n = Some j -> ix !! n' = Some j' -> n <> n' -> j <> j') as Hdiff
    by (intros n n' j j' ? ? Hne ->; by eapply Hne, Hix).
  rewrite (through_open _ _ _ Hi), (through_open _ _ _ Hien) in *. rewrite (through_open _ _ _ Hidm) in Hidx.
  apply map_request_ok in Hrun as [Hidx' Hids Hothers Hu' Ht Hfr];
    [|done|done|split; eapply Hdiff; done|by eapply Hdiff|repeat constructor|done|done].
  assert (forall n, n <> view_document_map_tree_name (view_name v) -> n <> view_entries_tree_name (view_name v) ->
     through tx' n = through tx n) as Hframe.
  { intros n Hn1 Hn2. unfold through. destruct (ix !! n) as [j|] eqn:Hj; [|done].
    apply Hfr; by eapply Hdiff. }
  split_and!; [|done|done]. split; rewrite ?Hc, ?Hframe by done.
  - rewrite (through_open _ _ _ Hidm), (through_open _ _ _ Hien). done.
  - by rewrite (through_open _ _ _ Hi).
  - intros d' Hd' _. rewrite (through_open _ _ _ Hi), (through_open _ _ _ Hien).
    destruct (decide (d' = d)) as [->|Hne]; [apply Hids; set_solver|].
    apply Hothers; [set_solver|]. apply Hf; [done|set_solver].
  - rewrite (through_open _ _ _ Hien). by apply Hu'.
Qed.

Lemma update_each_view_ok c d chg i vs tx tx' :
  eager_good c -> (forall v, v ∈ vs -> v ∈ views_in_collection schema c /\ is_eager (update_policy v) = true) ->
  NoDup (view_name <$> vs) -> ix !! document_tree_name c = Some i ->
  synced_all (pending d (view_name <$> vs) chg) (through tx) ->
  update_each_view schedule i ix d vs tx = Ok tx' ->
  synced_all (pending d [] chg) (through tx') /\ entries_only tx tx'.
Proof.
  intros Hgood Hvs Hn Hi. revert tx. induction vs as [|v vs IH]; intros tx Hsync Hrun; simpl in Hrun; inv_res.
  { done. }
  rename x into idm, x0 into ien, x1 into tx1. rewrite fmap_cons in *. apply NoDup_cons in Hn as [Hnew Hn].
  destruct (Hvs v) as [Hv He]; [left|]. pose proof (Hsync _ _ Hv (Hgood _ Hv He)) as Hv1. unfold pending in Hv1.
  rewrite He, decide_True in Hv1 by left.
  destruct (map_eager_view v c d i idm ien tx tx1) as (Hv2 & Ht & Hf);
    [done|done|by apply tree_index_Ok|by apply tree_index_Ok|done|done|].
  assert (entries_only tx tx1) as Heo.
  { split; [done|]. intros k Hk Hne. destruct (Hne (view_name v)), (wf_views _ Hschema _ _ Hv) as (Hw & _ & _).
    apply Hf; intros Heq.
    - by apply (tree_name_inj _ (TDocumentMap (view_name v))) in Heq.
    - by apply (tree_name_inj _ (TEntries (view_name v))) in Heq. }
  destruct (IH ltac:(intros; apply Hvs; by right) Hn tx1) as [Hsync' Heo']; [|done|].
  2: { split; [done|]. by eapply entries_only_trans. }
  intros c' w Hw Hgw. destruct (decide (view_name w = view_name v)) as [Hname|Hname].
  - assert (w = v) as -> by (by eapply (view_name_inj schema c' c); [apply (wf_indexes _ Hschema)|..]).
    unfold pending. by rewrite He, decide_False.
  - apply (synced_frame w _ (through tx)).
    + assert (pending d (view_name <$> vs) chg w = pending d (view_name v :: (view_name <$> vs)) chg w) as ->.
      { unfold pending. destruct (is_eager (update_policy w)); [|done].
        destruct (decide (view_name w ∈ view_name <$> vs)); [rewrite decide_True by (by right)
          |rewrite decide_False by (rewrite elem_of_cons; tauto)]; done. }
      by eapply Hsync.
    + destruct (wf_views _ Hschema _ _ Hw) as (Hww & Hcw & _), (wf_views _ Hschema _ _ Hv) as (Hwv & _ & _).
      rewrite <- (proj1 (view_in_collection _ _ _ (wf_indexes _ Hschema) Hw)) in Hcw.
      assert (forall k, k ∈ view_kinds w -> tree_kind_wf k /\ k <> TDocumentMap (view_name v) /\
        k <> TEntries (view_name v)) as Hk.
      { unfold view_kinds. intros k Hin. repeat (apply elem_of_cons in Hin as [->|Hin]; [split; [done|split; congruence]|]).
        by apply elem_of_nil in Hin. }
      intros k (Hkw & Hk1 & Hk2)%Hk. apply Hf; intros Heq.
      * by apply (tree_name_inj _ (TDocumentMap (view_name v))) in Heq.
      * by apply (tree_name_inj _ (TEntries (view_name v))) in Heq.
Qed.

Lemma eager_view_in c v :
  v ∈ eager_views_in_collection schema c -> v ∈ views_in_collection schema c /\ is_eager (update_policy v) = true.
Proof.
  rewrite (eager_views_filter _ _ (wf_indexes _ Hschema)). intros [? ?]%list_elem_of_filter. done.
Qed.

Lemma eager_names_NoDup c : NoDup (view_name <$> eager_views_in_collection schema c).
Proof.
  rewrite (eager_views_filter _ _ (wf_indexes _ Hschema)).
  pose proof (view_names_NoDup _ c (wf_indexes _ Hschema)) as Hn.
  induction (views_in_collection schema c) as [|v vs IH]; [constructor|].
  rewrite fmap_cons in Hn. apply NoDup_cons in Hn as [Hv Hn]. rewrite filter_cons. case_decide; [|by apply IH].
  rewrite fmap_cons. constructor; [|by apply IH]. contradict Hv.
  apply list_elem_of_fmap in Hv as (w & -> & [_ Hw]%list_elem_of_filter). by apply list_elem_of_fmap_2.
Qed.

Lemma update_eager_views_ok c d chg tx tx' :
  eager_good c ->
  synced_all (pending d (view_name <$> eager_views_in_collection schema c) chg) (through tx) ->
  update_eager_views schedule schema d c ix tx = Ok tx' ->
  synced_all (pending d [] chg) (through tx') /\ entries_only tx tx'.
Proof.
  intros Hgood. pose proof (eager_view_in c) as Hin. pose proof (eager_names_NoDup c) as Hn. unfold update_eager_views.
  destruct (eager_views_in_collection schema c) as [|v vs] eqn:Hvs.
  { intros Hs Hrun. inv_res. done. }
  intros Hs Hrun. apply bind_Ok_inv in Hrun as (i & Hi & Hrun). apply tree_index_Ok in Hi.
  by eapply update_each_view_ok.
Qed.

(** ** Changing one document *)

(** The lazy views await the recording of [chg]; the eager ones are up to date. *)
Definition settled (chg : list (CollectionName * bytes)) (v : View) : list bytes :=
  if is_eager (update_policy v) then [] else changed_ids (view_collection v) chg.

Lemma pending_nil d chg v : pending d [] chg v = settled chg v.
Proof. unfold pending, settled. by destruct (is_eager (update_policy v)). Qed.

Definition with_document (m : gmap bytes bytes) (d : bytes) (b : option bytes) : gmap bytes bytes :=
  match b with Some b => <[d := b]> m | None => delete d m end.

Lemma with_document_ne m d b d' : d' <> d -> with_document m d b !! d' = m !! d'.
Proof. intros Hne. destruct b; simpl; [by rewrite lookup_insert_ne|by rewrite lookup_delete_ne]. Qed.

(** The bytes of a document with the right id. *)
Definition stores (d : bytes) (b : option bytes) : Prop :=
  match b with Some b => exists doc, deserialize_document b = Some doc /\ id (header doc) = d | None => True end.

Lemma with_document_under_id m d b : stored_under_id m -> stores d b -> stored_under_id (with_document m d b).
Proof.
  intros Hm Hb d' b' doc. destruct b as [b|]; simpl.
  - intros [[<- <-]|[_ Hd']]%lookup_insert_Some Hdoc; [|by eapply Hm].
    destruct Hb as (doc' & Hdoc' & <-). congruence.
  - intros [_ Hd']%lookup_delete_Some. by apply Hm.
Qed.

(** A document tree after an operation that changed [d] and mapped it. *)
Record changes_document (c : CollectionName) (d : bytes) (b : option bytes)
    (chg : list (CollectionName * bytes)) (tx tx' : Transaction) : Prop := {
  cd_docs : through tx' (document_tree_name c) = with_document (through tx (document_tree_name c)) d b;
  cd_other k : tree_kind_wf k -> not_entries k -> k <> TDocuments c ->
    through tx' (tree_name k) = through tx (tree_name k);
  cd_trees : tx_trees tx' = tx_trees tx;
  cd_views : synced_all (settled ((c, d) :: chg)) (through tx')
}.

Lemma change_and_map c d b chg i tx tx1 tx' :
  qualified_wf c -> eager_good c -> ix !! document_tree_name c = Some i -> stores d b ->
  tx_contents tx1 i = with_document (tx_contents tx i) d b -> tx_frame i tx tx1 ->
  update_eager_views schedule schema d c ix tx1 = Ok tx' ->
  synced_all (settled chg) (through tx) -> changes_document c d b chg tx tx'.
Proof.
  intros Hc Hgood Hi Hb Hm Hf Hrun Hall.
  assert (through tx1 (document_tree_name c) = with_document (through tx (document_tree_name c)) d b) as Hdocs
    by (by rewrite !(through_open _ _ _ Hi)).
  pose proof (through_frame _ _ _ _ Hi Hf) as Hframe.
  assert (forall k, tree_kind_wf k -> k <> TDocuments c -> through tx1 (tree_name k) = through tx (tree_name k))
    as Hother.
  { intros k Hk Hne. apply Hframe. intros Heq. by apply (tree_name_inj _ (TDocuments c)) in Heq. }
  assert (synced_all (pending d (view_name <$> eager_views_in_collection schema c) ((c, d) :: chg)) (through tx1))
    as Hmid.
  { intros c' v Hv Hgv. destruct (wf_views _ Hschema _ _ Hv) as (Hw & Hcw & _).
    destruct (view_in_collection _ _ _ (wf_indexes _ Hschema) Hv) as [Hcv _].
    pose proof (Hall _ _ Hv Hgv) as Hs.
    assert (forall k, k ∈ view_kinds v -> tree_kind_wf k) as Hkw.
    { unfold view_kinds. intros k Hin. rewrite <- Hcv in Hcw.
      repeat (apply elem_of_cons in Hin as [->|Hin]; [done|]). by apply elem_of_nil in Hin. }
    destruct (decide (c' = c)) as [->|Hne].
    - assert (synced_except v (d :: settled chg v) (through tx1)) as Hs1.
      { apply (synced_change v _ (through tx)); rewrite ?Hcv; [done|..].
        - intros k Hk. apply Hother. auto.
        - intros d' Hd'. rewrite Hdocs. by apply with_document_ne.
        - rewrite Hdocs. apply with_document_under_id; [|done]. rewrite <- Hcv. apply Hs. }
      eapply synced_mono; [exact Hs1|]. unfold pending, settled, changed_ids.
      destruct (is_eager (update_policy v)) eqn:He.
      + rewrite decide_True; [done|]. apply list_elem_of_fmap_2.
        rewrite (eager_views_filter _ _ (wf_indexes _ Hschema)). by apply list_elem_of_filter.
      + by rewrite filter_cons, decide_True by done.
    - assert (synced_except v (settled chg v) (through tx1)) as Hs1.
      { apply (synced_frame v _ (through tx)); [done|]. intros k Hk. apply Hother; [auto|].
        intros ->. unfold view_kinds in Hk.
        repeat (apply elem_of_cons in Hk as [Heq|Hk]; [congruence|]). by apply elem_of_nil in Hk. }
      eapply synced_mono; [exact Hs1|]. unfold pending, settled, changed_ids.
      destruct (is_eager (update_policy v)); [by apply list_subseteq_nil|].
      rewrite filter_cons, decide_False; [done|]. simpl. congruence. }
  destruct (update_eager_views_ok _ _ _ _ _ Hgood Hmid Hrun) as [Hsync [Ht Heo]]. split.
  - rewrite <- Hdocs. by apply (Heo (TDocuments c)).
  - intros k Hk Hne Hkc. rewrite Heo by done. auto.
  - rewrite Ht. apply Hf.
  - intros c' v Hv Hgv. rewrite <- (pending_nil d). by eapply Hsync.
Qed.

End Laws.
