(* ===== verification/TransactionSpec.v ===== *)
(** * What a transaction promises

    The documents of a database as maps from ids to documents, the effect of
    the commands on them, and that the executed operations have exactly that
    effect. *)

From Stdlib Require Import ZArith Lia Sorting.Sorted.
From stdpp Require Import base list option numbers gmap sorting.
From S2P Require Import Prelude Bytes Nebari Document Names Changes Key Schema View Transaction ViewLaws ViewBatch ViewTheorems TransactionLaws.

Local Open Scope Z_scope.

(** ** The specification *)

Abbreviation Docs := (gmap bytes Doc).
(** The documents of every collection. *)
Abbreviation Database := (CollectionName -> gmap bytes Doc).

Section Specification.
Context `{Nebari} `{Digest} (schema : Schematic).

(** The id of a pushed document follows the greatest one. *)
Definition spec_next_id (c : CollectionName) (D : Docs) : res DbError bytes :=
  last ←
    match last (btree_set_iter (dom D)) with
    | Some k => k ← map_err DbDocumentId (document_id_try_from k); Ok (Some k)
    | None => Ok None
    end;
  map_err DbSchema (next_id_for_collection schema c last).

(** New contents for a stored document; the same contents keep its revision. *)
Definition spec_save (c : CollectionName) (d : bytes) (doc : Doc) (contents : bytes) (D : Docs)
    : res DbError (OperationResult * Docs) :=
  next ← next_revision (revision (header doc)) contents;
  match next with
  | Some rev => Ok (DocumentUpdated c (MkHeader d rev), <[d := MkDoc (MkHeader d rev) contents]> D)
  | None => Ok (DocumentUpdated c (header doc), D)
  end.

Definition spec_create (c : CollectionName) (d contents : bytes) (D : Docs) : res DbError (OperationResult * Docs) :=
  Ok (DocumentUpdated c (MkHeader d (revision_new contents)), <[d := document_new d contents]> D).

Definition spec_command (c : CollectionName) (cmd : Command) (D : Docs) : res DbError (OperationResult * Docs) :=
  match cmd with
  | Insert o contents =>
      d ← match o with Some d => Ok d | None => spec_next_id c D end;
      match D !! d with
      | Some doc => Err (DocumentConflict c (header doc))
      | None => spec_create c d contents D
      end
  | Update h contents =>
      match D !! id h with
      | Some doc =>
          if decide (revision (header doc) = revision h) then spec_save c (id h) doc contents D
          else Err (DocumentConflict c (header doc))
      | None => Err (DocumentNotFound c (id h))
      end
  | Overwrite d contents =>
      match D !! d with
      | Some doc => spec_save c d doc contents D
      | None => spec_create c d contents D
      end
  | Delete h =>
      match D !! id h with
      | Some doc =>
          if decide (header doc = h) then Ok (DocumentDeleted c (id h), delete (id h) D)
          else Err (DocumentConflict c h)
      | None => Err (DocumentNotFound c (id h))
      end
  | Check d rev =>
      match D !! d with
      | Some doc =>
          if bool_decide (rev = None) || bool_decide (rev = Some (revision (header doc))) then Ok (Success, D)
          else Err (DocumentConflict c (MkHeader d (default (revision (header doc)) rev)))
      | None => Err (DocumentNotFound c d)
      end
  end.

Definition set_documents (D : Database) (c : CollectionName) (M : Docs) : Database :=
  fun c' => if decide (c' = c) then M else D c'.

(** A transaction: the operations in order, all or nothing. *)
Fixpoint spec_operations (ops : list Operation) (D : Database) : res DbError (list OperationResult * Database) :=
  match ops with
  | [] => Ok ([], D)
  | op :: ops =>
      '(result, M) ← spec_command (op_collection op) (command op) (D (op_collection op));
      '(results, D) ← spec_operations ops (set_documents D (op_collection op) M);
      Ok (result :: results, D)
  end.

End Specification.

(** Errors that say what the stored documents are. *)
Definition document_error `{Nebari} (e : DbError) : bool :=
  match e with DocumentNotFound _ _ | DocumentConflict _ _ => true | _ => false end.

(** ** Errors of the views *)

Section ViewErrors.
Context `{NebariLaws} `{DocumentCodec} `{ViewCodec}.

Definition no_document_error {A} (m : res DbError A) : Prop := forall e, m = Err e -> document_error e = false.

Lemma bind_no_document_error {A B} (m : res DbError A) (f : A -> res DbError B) :
  no_document_error m -> (forall a, m = Ok a -> no_document_error (f a)) -> no_document_error (m ≫= f).
Proof. unfold no_document_error. destruct m as [a|e'|]; simpl; intros Hm Hf e He; [by eapply Hf|naive_solver|done]. Qed.

Lemma db_tx_no_document_error {A} (m : res nebari_error A) : no_document_error (db_tx m).
Proof. unfold db_tx. destruct m; simpl; intros e' [= <-]; done. Qed.
Lemma ok_or_no_document_error {A} e (o : option A) : document_error e = false -> no_document_error (ok_or e o).
Proof. intros He. destruct o; simpl; intros ? [= <-]; done. Qed.
Lemma unwrap_no_document_error {A} (o : option A) : no_document_error (unwrap o).
Proof. by destruct o. Qed.
Lemma Ok_no_document_error {A} (a : A) : no_document_error (Ok a).
Proof. done. Qed.
#[local] Hint Resolve db_tx_no_document_error ok_or_no_document_error unwrap_no_document_error
  Ok_no_document_error : core.

Definition updater_clean (u : Updater) : Prop := forall e, updater_result u = Some e -> document_error e = false.

Lemma apply_reduce_clean v key e u : updater_clean u -> updater_clean (apply_reduce v key e u).2.
Proof.
  intros Hu. unfold apply_reduce. rewrite (stm_bind_Ok st_get _ u u u) by done.
  destruct (has_reduce u); [|done]. destruct (view_reduce v _ false) as [|[|]|]; try done.
  by intros e' [= <-].
Qed.

Lemma add_mappings_clean v new ms u : updater_clean u -> updater_clean (add_mappings v new ms u).2.
Proof.
  revert ms u. induction new as [|m new IH]; intros ms u Hu; simpl; [done|].
  destruct (check_unique v m ms u) as [r1 u1] eqn:Hc. rewrite (stm_bind_run _ _ _ _ _ Hc).
  assert (updater_clean u1) as Hu1.
  { unfold check_unique in Hc. destruct (update_policy v), ms; try case_decide;
      injection Hc as <- <-; try done; intros err; simpl; by intros [= <-]. }
  destruct r1; [by apply IH|done..].
Qed.

Lemma compare_swap_clean v key o u : updater_clean u -> updater_clean (compare_swap_view_entry v key o u).2.
Proof.
  intros Hu. unfold compare_swap_view_entry.
  assert (updater_clean (compare_swap_body v key o u).2) as Hb;
    [|by destruct (compare_swap_body v key o u) as [[]]].
  unfold compare_swap_body. set (e0 := default _ _).
  assert (updater_clean (clean_entry v key e0 u).2) as Hc.
  { unfold clean_entry. rewrite (stm_bind_Ok st_get _ u u u) by done.
    destruct (view_entries_to_clean u !! key); [|done]. erewrite (stm_bind_Ok (st_put _)) by reflexivity.
    destruct (_ && _); [done|]. by apply apply_reduce_clean. }
  destruct (clean_entry v key e0 u) as [r1 u1] eqn:E1. rewrite (stm_bind_run _ _ _ _ _ E1). simpl in Hc.
  destruct r1 as [e1| |]; [|done..].
  assert (updater_clean (extend_entry v key e1 u1).2) as He.
  { unfold extend_entry. rewrite (stm_bind_Ok st_get _ u1 u1 u1) by done.
    destruct (new_mappings u1 !! key) as [new|]; [|done]. erewrite (stm_bind_Ok (st_put _)) by reflexivity.
    set (u2 := MkUpdater _ _ _ _). pose proof (add_mappings_clean v new (mappings e1) u2 Hc) as Ha.
    destruct (add_mappings v new (mappings e1) u2) as [r3 u3] eqn:E3. rewrite (stm_bind_run _ _ _ _ _ E3).
    destruct r3; [by apply apply_reduce_clean|done..]. }
  destruct (extend_entry v key e1 u1) as [r2 u2] eqn:E2. rewrite (stm_bind_run _ _ _ _ _ E2). simpl in He.
  destruct r2 as [e2| |]; [|done..]. by destruct (serialize_view_entry e2).
Qed.

Lemma modify_clean v ks m u m' u' :
  modify_spec ks (compare_swap_view_entry v) m u = Ok (m', u') -> updater_clean u -> updater_clean u'.
Proof.
  revert m u. induction ks as [|k ks IH]; intros m u Hrun Hu; simpl in Hrun; [by simplify_eq|].
  pose proof (compare_swap_clean v k (m !! k) u Hu) as Hc.
  destruct (compare_swap_view_entry v k (m !! k) u) as [[op| |] u1]; [by eapply IH|done..].
Qed.

Lemma keys_to_clean_error l dk keys tc : no_document_error (keys_to_clean l dk keys tc).
Proof.
  revert dk keys tc. induction l as [|[d b] l IH]; intros dk keys tc; simpl; [done|].
  apply bind_no_document_error; [by apply ok_or_no_document_error|]. intros old _.
  apply bind_no_document_error; [done|]. auto.
Qed.

Lemma save_mappings_error v tx dm en b : no_document_error (save_mappings v tx dm en b).
Proof.
  unfold save_mappings. apply bind_no_document_error.
  - unfold update_document_map. apply bind_no_document_error; [done|]. intros [tx1 l] _.
    apply bind_no_document_error; [apply keys_to_clean_error|]. by intros [keys tc] _.
  - intros [[tx1 keys] tc] _. unfold update_view_entries. apply bind_no_document_error; [done|].
    intros [tx2 u] Hm%map_err_Ok_inv.
    destruct (tx_modify_law _ _ _ _ _ _ _ _ (btree_set_iter_sorted keys) Hm) as [Hs _].
    assert (updater_clean u) as Hu by (by eapply modify_clean; [exact Hs|]).
    destruct (updater_result u) as [e'|] eqn:Hr; [|done]. intros e [= <-]. by apply Hu.
Qed.

Lemma map_documents_error v ds : no_document_error (map_documents v ds).
Proof.
  induction ds as [|[d o] ds IH]; simpl; [done|]. apply bind_no_document_error.
  - unfold map_document. apply bind_no_document_error; [|intros; apply bind_no_document_error; auto].
    simpl. destruct o as [b|]; [|done]. apply bind_no_document_error; [by apply ok_or_no_document_error|].
    intros doc _ e. destruct (view_map v doc); simpl; by intros [= <-].
  - intros r _. apply bind_no_document_error; auto.
Qed.

Lemma map_request_error schedule v docs dm en ids tx : no_document_error (map_request schedule v docs dm en ids tx).
Proof.
  unfold map_request. generalize (chunks 1024 ids). intros cs. revert tx.
  induction cs as [|c cs IH]; intros tx; simpl; [done|]. apply bind_no_document_error; [|auto].
  unfold map_batch. apply bind_no_document_error.
  - unfold generate_batch. by apply bind_no_document_error.
  - intros pairs _. apply bind_no_document_error; [apply map_documents_error|]. intros. apply save_mappings_error.
Qed.

Lemma update_eager_views_error `{Digest} schedule schema d c ix tx :
  no_document_error (update_eager_views schedule schema d c ix tx).
Proof.
  unfold update_eager_views. destruct (eager_views_in_collection schema c) as [|v0 vs0] eqn:E; [done|].
  rewrite <- E. apply bind_no_document_error; [apply unwrap_no_document_error|]. intros i _.
  generalize (eager_views_in_collection schema c). intros vs. revert tx.
  induction vs as [|v vs IH]; intros tx; simpl; [done|].
  do 2 (apply bind_no_document_error; [apply unwrap_no_document_error|]; intros ? _).
  apply bind_no_document_error; [apply map_request_error|auto].
Qed.
End ViewErrors.

(** ** Operations implement their commands *)

Section Refinement.
Context `{NebariLaws} `{DocumentCodec} `{!DocumentCodecLaws _} `{ViewCodec} `{!ViewCodecLaws _} `{Digest}.
Context (schedule : list MapResult -> list MapResult) (Hsched : forall l, schedule l ≡ₚ l).
Context (schema : Schematic) (Hschema : schema_wf schema) (good : View -> Prop).
Context (r : Roots) (ix : gmap str nat)
  (Hix : forall n n' i, ix !! n = Some i -> ix !! n' = Some i -> n = n').

Abbreviation thru := (through r ix).

(** The documents a tree holds. *)
Definition docs_of (m : gmap bytes bytes) : Docs := omap deserialize_document m.
Definition decodes (m : gmap bytes bytes) : Prop :=
  forall d b, m !! d = Some b -> is_Some (deserialize_document b).

Lemma docs_of_lookup m d : docs_of m !! d = m !! d ≫= deserialize_document.
Proof. apply lookup_omap. Qed.

Lemma docs_of_insert m d b doc : deserialize_document b = Some doc -> docs_of (<[d := b]> m) = <[d := doc]> (docs_of m).
Proof. intros Hd. unfold docs_of. by rewrite (omap_insert_Some _ _ _ _ doc). Qed.

Lemma docs_of_delete m d : docs_of (delete d m) = delete d (docs_of m).
Proof. apply omap_delete. Qed.

Lemma decodes_with_document m d b : decodes m -> stores d b -> decodes (with_document m d b).
Proof.
  intros Hm Hb d' b'. destruct b as [b|]; simpl.
  - intros [[<- <-]|[_ Hd']]%lookup_insert_Some; [|by eapply Hm]. destruct Hb as (doc & -> & _). by eexists.
  - intros [_ Hd']%lookup_delete_Some. by eapply Hm.
Qed.

Lemma decodes_dom m : decodes m -> dom (docs_of m) = dom m.
Proof.
  intros Hm. apply set_eq. intros d. rewrite !elem_of_dom, docs_of_lookup. split.
  - intros [doc (b & Hb & _)%bind_Some]. by eexists.
  - intros [b Hb]. rewrite Hb. simpl. by eapply Hm.
Qed.

Lemma serialized_stores d rev contents b :
  serialize_document (MkDoc (MkHeader d rev) contents) = Some b ->
  deserialize_document b = Some (MkDoc (MkHeader d rev) contents).
Proof. intros Hs. unfold deserialize_document. by rewrite (pot_roundtrip _ _ Hs). Qed.

Definition change_of (res : OperationResult) : list (CollectionName * bytes) :=
  match changed_document res with Some (c, d, _) => [(c, d)] | None => [] end.

(** What an executed operation leaves: the documents [D'] in its collection,
    every other collection and every lazy view as they were. *)
Record op_done (c : CollectionName) (res : OperationResult) (D' : Docs) (chg : list (CollectionName * bytes))
    (tx tx' : Transaction) : Prop := {
  od_docs : docs_of (thru tx' (document_tree_name c)) = D';
  od_decodes : decodes (thru tx' (document_tree_name c));
  od_other k : tree_kind_wf k -> not_entries k -> k <> TDocuments c -> thru tx' (tree_name k) = thru tx (tree_name k);
  od_trees : tx_trees tx' = tx_trees tx;
  od_views : synced_all schema good (settled (change_of res ++ chg)) (thru tx')
}.

Context (chg : list (CollectionName * bytes)).

Lemma op_done_change c d b res tx tx' :
  changes_document schema good r ix c d b chg tx tx' -> decodes (thru tx (document_tree_name c)) -> stores d b ->
  change_of res = [(c, d)] ->
  op_done c res (docs_of (with_document (thru tx (document_tree_name c)) d b)) chg tx tx'.
Proof.
  intros [Hd Ho Ht Hv] Hdec Hb Hch. split; [by rewrite Hd|rewrite Hd; by apply decodes_with_document|done|done|].
  by rewrite Hch.
Qed.

Lemma settled_more x v : settled chg v ⊆ settled (x ++ chg) v.
Proof.
  unfold settled, changed_ids. destruct (is_eager (update_policy v)); [done|].
  rewrite filter_app, fmap_app. apply list_subseteq_app_r. done.
Qed.

Lemma op_done_unchanged c res tx tx' :
  synced_all schema good (settled chg) (thru tx) -> decodes (thru tx (document_tree_name c)) ->
  tx_trees tx' = tx_trees tx -> (forall n, thru tx' n = thru tx n) ->
  op_done c res (docs_of (thru tx (document_tree_name c))) chg tx tx'.
Proof.
  intros Hs Hdec Ht Heq. split; rewrite ?Heq; [done..|].
  intros c' v Hv Hg. apply (synced_frame v _ (thru tx)); [|intros; apply Heq].
  eapply synced_mono; [by eapply Hs|apply settled_more].
Qed.

(** An operation that succeeds does what the specification says, and one that
    reports the state of a document reports what the specification does. *)
Definition refines_command (c : CollectionName) (cmd : Command) (tx : Transaction)
    (m : res DbError (OperationResult * Transaction)) : Prop :=
  match m with
  | Ok (res, tx') =>
      exists D', spec_command schema c cmd (docs_of (thru tx (document_tree_name c))) = Ok (res, D') /\
                 op_done c res D' chg tx tx'
  | Err e =>
      document_error e = true -> spec_command schema c cmd (docs_of (thru tx (document_tree_name c))) = Err e
  | Panic => True
  end.

Context (c : CollectionName) (tx : Transaction) (Hc : qualified_wf c) (Hgood : eager_good schema good c)
  (Hall : synced_all schema good (settled chg) (thru tx)) (Hdec : decodes (thru tx (document_tree_name c))).

(** After the document is changed, mapping it can only fail with other errors. *)
Lemma mapped_refines cmd res d b i tx1 :
  ix !! document_tree_name c = Some i -> stores d b ->
  tx_contents tx1 i = with_document (tx_contents tx i) d b -> tx_frame i tx tx1 ->
  change_of res = [(c, d)] ->
  spec_command schema c cmd (docs_of (thru tx (document_tree_name c))) =
    Ok (res, docs_of (with_document (thru tx (document_tree_name c)) d b)) ->
  refines_command c cmd tx (tx' ← update_eager_views schedule schema d c ix tx1; Ok (res, tx')).
Proof.
  intros Hi Hb Hm Hf Hch Hspec.
  destruct (update_eager_views schedule schema d c ix tx1) as [tx'|e|] eqn:Hup; simpl; [|..|done].
  - eexists. split; [done|]. apply op_done_change; [|done..]. by eapply change_and_map.
  - apply update_eager_views_error in Hup. congruence.
Qed.

Lemma execute_delete_refines h : refines_command c (Delete h) tx (execute_delete schedule schema c ix h tx).
Proof.
  unfold execute_delete, tree_index. destruct (ix !! document_tree_name c) as [i|] eqn:Hi; simpl; [|done].
  destruct (tx_remove tx i (id h)) as [[tx1 removed]|e'|] eqn:Hrm; simpl; [|by intros [=]|done].
  apply tx_remove_law in Hrm as (-> & Hm & Hf). rewrite <- (through_open r ix tx _ _ Hi).
  pose proof (docs_of_lookup (thru tx (document_tree_name c)) (id h)) as Hlook.
  destruct (thru tx (document_tree_name c) !! id h) as [b|] eqn:Hb; simpl in Hlook.
  2: { intros _. unfold spec_command. by rewrite Hlook. }
  destruct (Hdec _ _ Hb) as [doc Hdoc]. rewrite Hdoc in Hlook |- *. simpl.
  case_decide as Hh.
  - rewrite Hh. apply (mapped_refines _ (DocumentDeleted c (id h)) (id h) None i); try done.
    unfold spec_command. rewrite Hlook, decide_True by done. simpl. by rewrite docs_of_delete.
  - intros _. unfold spec_command. by rewrite Hlook, decide_False.
Qed.

Lemma execute_check_refines d rev : refines_command c (Check d rev) tx (execute_check c ix d rev tx).
Proof.
  unfold execute_check, tree_index. destruct (ix !! document_tree_name c) as [i|] eqn:Hi; simpl; [|done].
  destruct (tx_get tx i d) as [v|e'|] eqn:Hget; simpl; [|by intros [=]|done].
  apply tx_get_law in Hget as ->. rewrite <- (through_open r ix tx _ _ Hi).
  pose proof (docs_of_lookup (thru tx (document_tree_name c)) d) as Hlook.
  destruct (thru tx (document_tree_name c) !! d) as [b|] eqn:Hb; simpl in Hlook.
  2: { intros _. unfold spec_command. by rewrite Hlook. }
  destruct (Hdec _ _ Hb) as [doc Hdoc]. rewrite Hdoc in Hlook |- *. simpl.
  assert (op_done c Success (docs_of (thru tx (document_tree_name c))) chg tx tx) as Hdone
    by (by apply op_done_unchanged).
  unfold refines_command, spec_command. rewrite Hlook. destruct rev as [rev|]; simpl; [|eauto].
  case_decide as Hr; simpl.
  - rewrite bool_decide_true by congruence. eauto.
  - rewrite bool_decide_false by congruence. done.
Qed.

Lemma last_key_greatest (m : gmap bytes bytes) k :
  decodes m ->
  match k with
  | None => m = ∅
  | Some k => is_Some (m !! k) /\ forall k', is_Some (m !! k') -> bytes_leb k' k = true
  end ->
  last (btree_set_iter (dom (docs_of m))) = k.
Proof.
  intros Hm Hk. rewrite decodes_dom by done. set (l := btree_set_iter (dom m)).
  assert (forall k', k' ∈ l <-> is_Some (m !! k')) as Hl
    by (intros; unfold l; by rewrite elem_of_btree_set_iter, elem_of_dom).
  destruct (last l) as [k'|] eqn:Hlast.
  - pose proof (last_Some_elem_of _ _ Hlast) as Hk'. destruct k as [k|].
    + destruct Hk as [Hk Hmax]. f_equal. apply bytes_le_antisym.
      * by apply Hmax, Hl.
      * eapply sorted_last_max; [apply btree_set_iter_sorted|done|by apply Hl].
    + apply Hl in Hk'. subst m. rewrite lookup_empty in Hk'. by destruct Hk'.
  - destruct k as [k|]; [|done]. destruct Hk as [Hk%Hl _]. apply last_None in Hlast. rewrite Hlast in Hk.
    by apply elem_of_nil in Hk.
Qed.

Lemma execute_insert_refines o contents :
  refines_command c (Insert o contents) tx (execute_insert schedule schema c ix o contents tx).
Proof.
  unfold execute_insert, tree_index. destruct (ix !! document_tree_name c) as [i|] eqn:Hi; simpl; [|done].
  assert (forall d, (match o with Some d => Ok d | None => spec_next_id schema c
      (docs_of (thru tx (document_tree_name c))) end) = Ok d ->
    refines_command c (Insert o contents) tx (
      serialized ← ok_or DbSerialization (serialize_document (document_new d contents));
      '(tx, replaced) ← db_tx (tx_replace tx i d serialized);
      match replaced with
      | Some document =>
          doc ← ok_or DbSerialization (deserialize_document document);
          Err (DocumentConflict c (header doc))
      | None =>
          tx ← update_eager_views schedule schema d c ix tx;
          Ok (DocumentUpdated c (header (document_new d contents)), tx)
      end)) as Hstore.
  { intros d Hd. destruct (serialize_document (document_new d contents)) as [b|] eqn:Hser; simpl; [|by intros [=]].
    apply serialized_stores in Hser.
    destruct (tx_replace tx i d b) as [[tx1 old]|e'|] eqn:Hrep; simpl; [|by intros [=]|done].
    apply tx_replace_law in Hrep as (-> & Hm & Hf). rewrite <- (through_open r ix tx _ _ Hi).
    pose proof (docs_of_lookup (thru tx (document_tree_name c)) d) as Hlook.
    destruct (thru tx (document_tree_name c) !! d) as [b0|] eqn:Hb; simpl in Hlook.
    - destruct (Hdec _ _ Hb) as [doc Hdoc]. rewrite Hdoc in Hlook |- *. simpl. intros _.
      unfold spec_command. rewrite Hd. simpl. by rewrite Hlook.
    - apply (mapped_refines _ _ d (Some b) i); try done; [by exists (document_new d contents)|].
      unfold spec_command. rewrite Hd. simpl. rewrite Hlook. by rewrite (docs_of_insert _ _ _ _ Hser). }
  destruct o as [d|]; [by apply Hstore|].
  destruct (tx_last_key tx i) as [k|e'|] eqn:Hlast; simpl; [|by intros [=]|done].
  apply tx_last_key_law in Hlast. rewrite <- (through_open r ix tx _ _ Hi) in Hlast.
  apply last_key_greatest in Hlast; [|done].
  match goal with |- refines_command _ _ _ (?m ≫= _) =>
    assert (m = spec_next_id schema c (docs_of (thru tx (document_tree_name c)))) as ->
      by (unfold spec_next_id; by rewrite Hlast) end.
  destruct (spec_next_id schema c (docs_of (thru tx (document_tree_name c)))) as [d|e|] eqn:Hid; [|..|done].
  - by apply Hstore.
  - intros _. unfold spec_command. by rewrite Hid.
Qed.

(** The common form of an update and an overwrite. *)
Definition spec_update (d : bytes) (check : option Revision) (contents : bytes) (D : Docs)
    : res DbError (OperationResult * Docs) :=
  match D !! d with
  | Some doc =>
      if bool_decide (check = None) || bool_decide (Some (revision (header doc)) = check)
      then spec_save c d doc contents D else Err (DocumentConflict c (header doc))
  | None => match check with None => spec_create c d contents D | Some _ => Err (DocumentNotFound c d) end
  end.

Lemma next_revision_error_type {E1 E2} rev contents next :
  next_revision (E := E1) rev contents = Ok next -> next_revision (E := E2) rev contents = Ok next.
Proof. unfold next_revision. case_decide; [by intros [= <-]|]. destruct (checked_add u32 (rev_id rev) 1); simpl; [by intros [= <-]|done]. Qed.

(** What the callback of an update decides, for a stored document that decodes. *)
Lemma update_callback_ok d check contents value op u :
  (forall b, value = Some b -> is_Some (deserialize_document b)) ->
  update_callback c d check contents d value (MkUpdateState None false) = (Ok op, u) ->
  exists result, u_result u = Some result /\
  forall D, D !! d = value ≫= deserialize_document ->
  match result with
  | Ok res =>
      if u_updated u
      then exists b doc, op = OpSet b /\ deserialize_document b = Some doc /\ id (header doc) = d /\
        change_of res = [(c, d)] /\ spec_update d check contents D = Ok (res, <[d := doc]> D)
      else op = OpSkip /\ spec_update d check contents D = Ok (res, D)
  | Err e => u_updated u = false /\ (document_error e = true -> spec_update d check contents D = Err e)
  | Panic => False
  end.
Proof.
  intros Hval Hrun. unfold update_callback in Hrun. unfold spec_update. destruct value as [old|].
  - destruct (Hval old eq_refl) as [doc Hdoc]. rewrite Hdoc in Hrun. simpl. rewrite Hdoc.
    destruct (bool_decide (check = None) || bool_decide (Some (revision (header doc)) = check)) eqn:Hcheck.
    2: { injection Hrun as <- <-. eexists. split; [done|]. intros D ->. rewrite Hcheck. done. }
    destruct (next_revision (revision (header doc)) contents) as [next| |] eqn:Hnext; [|done..].
    rewrite (stm_bind_Ok _ _ (MkUpdateState None false) next (MkUpdateState None false)) in Hrun by done.
    apply (next_revision_error_type (E2 := DbError)) in Hnext.
    assert (forall D, spec_save c d doc contents D = match next with
      | Some rev => Ok (DocumentUpdated c (MkHeader d rev), <[d := MkDoc (MkHeader d rev) contents]> D)
      | None => Ok (DocumentUpdated c (header doc), D) end) as Hsave
      by (intros D; unfold spec_save; by rewrite Hnext).
    destruct next as [rev|].
    + destruct (serialize_document (MkDoc (MkHeader d rev) contents)) as [b|] eqn:Hser.
      * injection Hrun as <- <-. eexists. split; [done|]. intros D ->. rewrite Hcheck. simpl.
        apply serialized_stores in Hser. exists b, (MkDoc (MkHeader d rev) contents). by rewrite Hsave.
      * injection Hrun as <- <-. by eexists.
    + injection Hrun as <- <-. eexists. split; [done|]. intros D ->. rewrite Hcheck. simpl. by rewrite Hsave.
  - destruct check as [rev|].
    + injection Hrun as <- <-. eexists. split; [done|]. intros D ->. done.
    + destruct (serialize_document (document_new d contents)) as [b|] eqn:Hser.
      * injection Hrun as <- <-. eexists. split; [done|]. intros D ->. simpl.
        apply serialized_stores in Hser. by exists b, (document_new d contents).
      * injection Hrun as <- <-. by eexists.
Qed.

Lemma execute_update_refines cmd d check contents :
  (forall D, spec_command schema c cmd D = spec_update d check contents D) ->
  refines_command c cmd tx (execute_update schedule schema c ix d check contents tx).
Proof.
  intros Hspec. unfold execute_update, tree_index.
  destruct (ix !! document_tree_name c) as [i|] eqn:Hi; simpl; [|done].
  destruct (tx_modify tx i [d] _ _) as [[tx1 u]|e'|] eqn:Hmod; simpl; [|by intros [=]|done].
  apply tx_modify_law in Hmod as [Hm Hf]; [|repeat constructor]. simpl in Hm.
  rewrite <- (through_open r ix tx _ _ Hi) in Hm. set (m := thru tx (document_tree_name c)) in *.
  destruct (update_callback c d check contents d (m !! d) (MkUpdateState None false)) as [[op| |] u'] eqn:Hcb;
    [|done..]. injection Hm as Hm ->.
  destruct (update_callback_ok _ _ _ _ _ _ ltac:(intros; by eapply Hdec) Hcb) as (result & -> & Hres).
  specialize (Hres (docs_of m) (docs_of_lookup m d)). destruct result as [res|e|]; [|..|done].
  - destruct (u_updated u).
    + destruct Hres as (b & doc & -> & Hb & Hid & Hch & Hs).
      apply (mapped_refines cmd res d (Some b) i); try done.
      * by exists doc.
      * rewrite <- (through_open r ix tx _ _ Hi). done.
      * rewrite Hspec. simpl. by rewrite (docs_of_insert _ _ _ _ Hb).
    + destruct Hres as [-> Hs]. exists (docs_of m). split; [by rewrite Hspec|].
      apply op_done_unchanged; [done|done|apply Hf|]. intros n.
      destruct (decide (n = document_tree_name c)) as [->|Hne]; [|by eapply through_frame].
      by rewrite (through_open r ix tx1 _ _ Hi).
  - destruct Hres as [-> Hs]. simpl. intros He. rewrite Hspec. auto.
Qed.

Lemma execute_operation_refines op :
  op_collection op = c -> refines_command c (command op) tx (execute_operation schedule schema op ix tx).
Proof.
  intros Hop. unfold execute_operation. rewrite Hop. destruct (command op) as [o b|h b|d b|h|d rev].
  - apply execute_insert_refines.
  - apply execute_update_refines. intros D. unfold spec_command, spec_update.
    destruct (D !! id h) as [doc|]; [|done]. simpl.
    case_decide as Hr; [rewrite bool_decide_true by congruence|rewrite bool_decide_false by congruence]; done.
  - apply execute_update_refines. intros D. unfold spec_command, spec_update. by destruct (D !! d).
  - apply execute_delete_refines.
  - apply execute_check_refines.
Qed.
End Refinement.
