(* ===== verification/TransactionTheorems.v ===== *)
(** * Transactions are atomic and keep the views in step

    A whole transaction over the store: it has the effect its operations have
    on the documents or none at all, and every view of the schema stays in
    step with the documents. *)

From Stdlib Require Import ZArith Lia Sorting.Sorted.
From stdpp Require Import base list option numbers gmap sorting.
From S2P Require Import Prelude Bytes Nebari Document Names Changes Key Schema View Transaction StoreDemo ViewLaws ViewBatch ViewTheorems TransactionLaws TransactionSpec.

Local Open Scope Z_scope.

Section Execution.
Context `{NebariLaws} `{DocumentCodec} `{!DocumentCodecLaws _} `{ViewCodec} `{!ViewCodecLaws _} `{Digest}.
Context (schedule : list MapResult -> list MapResult) (Hsched : forall l, schedule l ≡ₚ l).
Context (schema : Schematic) (Hschema : schema_wf schema) (good : View -> Prop).
Context (r : Roots) (ix : gmap str nat)
  (Hix : forall n n' i, ix !! n = Some i -> ix !! n' = Some i -> n = n').

Abbreviation thru := (through r ix).

(** ** The operations in order *)

(** The database a store or a transaction holds. *)
Definition holds (T : str -> gmap bytes bytes) (D : Database) : Prop :=
  forall c, qualified_wf c -> docs_of (T (document_tree_name c)) = D c /\ decodes (T (document_tree_name c)).

Lemma holds_step c res D M chg tx tx' :
  qualified_wf c -> holds (thru tx) D -> op_done schema good r ix c res M chg tx tx' ->
  holds (thru tx') (set_documents D c M).
Proof.
  intros Hc Hh Hd c' Hc'. unfold set_documents. case_decide as Heq.
  - subst c'. split; [by eapply od_docs|by eapply od_decodes].
  - assert (thru tx' (document_tree_name c') = thru tx (document_tree_name c')) as -> by
      (apply (od_other _ _ _ _ _ _ _ _ _ _ Hd (TDocuments c')); [done|done|congruence]).
    by apply Hh.
Qed.

(** What executing operations leaves. *)
Record executed (results : list OperationResult) (changed : list ChangedDocument) (D' : Database)
    (chg : list (CollectionName * bytes)) (t t' : IndexTable) (tx tx' : Transaction) : Prop := {
  ex_documents : holds (thru tx') D';
  ex_trees : tx_trees tx' = tx_trees tx;
  ex_invalidated w : view_wf w ->
    thru tx' (view_invalidated_docs_tree_name w) = thru tx (view_invalidated_docs_tree_name w);
  ex_versions c : qualified_wf c -> thru tx' (view_versions_tree_name c) = thru tx (view_versions_tree_name c);
  ex_table : table_ok t';
  ex_grows : table t `prefix_of` table t';
  ex_all : length (into_iter_from (table t') changed) = length changed;
  ex_changes : change_item <$> into_iter_from (table t') changed = omap changed_document results;
  ex_views : exists chg', synced_all schema good (settled chg') (thru tx') /\
    forall x, x ∈ chg' -> x ∈ chg \/ x ∈ (omap changed_document results).*1
}.

Definition refines_operations (ops : list Operation) (D : Database) (chg : list (CollectionName * bytes))
    (t : IndexTable) (tx : Transaction)
    (m : res DbError (list OperationResult * list ChangedDocument * IndexTable * Transaction)) : Prop :=
  match m with
  | Ok (results, changed, t', tx') =>
      exists D', spec_operations schema ops D = Ok (results, D') /\
                 executed results changed D' chg t t' tx tx'
  | Err e => document_error e = true -> spec_operations schema ops D = Err e
  | Panic => True
  end.

Lemma record_change_ok res t (changed : list ChangedDocument) t1 :
  table_ok t ->
  (match changed_document res with
   | Some (c, d, deleted) =>
       '(i, t) ← ok_or TransactionTooLarge (collection_index t c);
       Ok (E := DbError) ([MkChangedDocument i d deleted], t)
   | None => Ok ([], t)
   end) = Ok (changed, t1) ->
  table_ok t1 /\ table t `prefix_of` table t1 /\
  length (into_iter_from (table t1) changed) = length changed /\
  change_item <$> into_iter_from (table t1) changed = option_list (changed_document res).
Proof.
  intros Ht Hrun. destruct (changed_document res) as [[[c d] deleted]|]; [|by simplify_eq].
  apply bind_Ok_inv in Hrun as ([i t2] & Hi & Hrun). simplify_eq. apply ok_or_Ok_inv in Hi.
  destruct (collection_index_ok _ _ _ _ Ht Hi) as (Hok & Hl & _ & Hp).
  split_and!; [done|done|..]; simpl; by rewrite Hl.
Qed.

Lemma execute_operations_ok ops D chg t tx :
  (forall op, op ∈ ops -> qualified_wf (op_collection op) /\ eager_good schema good (op_collection op)) -> holds (thru tx) D ->
  synced_all schema good (settled chg) (thru tx) -> table_ok t ->
  refines_operations ops D chg t tx (execute_operations schedule schema ops ix tx t).
Proof.
  revert D chg t tx. induction ops as [|op ops IH]; intros D chg t tx Hwf Hh Hall Ht; simpl.
  { exists D. split; [done|]. split; try done. exists chg. auto. }
  set (c := op_collection op). destruct (Hwf op) as [Hc Hgood]; [left|]. fold c in Hc, Hgood.
  destruct (Hh c Hc) as [HD Hdec].
  pose proof (execute_operation_refines schedule Hsched schema Hschema good r ix Hix chg c tx Hc Hgood Hall Hdec op eq_refl) as Hop.
  unfold refines_command in Hop. rewrite HD in Hop.
  destruct (execute_operation schedule schema op ix tx) as [[res tx1]|e|]; simpl; [|..|done].
  2: { intros He. simpl. fold c. by rewrite Hop. }
  destruct Hop as (M & Hspec & Hdone).
  match goal with |- refines_operations _ _ _ _ _ (?m ≫= _) => destruct m as [[changed t1]|e|] eqn:Hrec end;
    simpl; [|..|done].
  2: { destruct (changed_document res) as [[[c' d] deleted]|]; [|done].
       destruct (collection_index t c') as [[i t2]|]; simplify_eq/=. done. }
  destruct (record_change_ok _ _ _ _ Ht Hrec) as (Ht1 & Hp1 & Hl1 & Hc1).
  assert (refines_operations ops (set_documents D c M) (change_of res ++ chg) t1 tx1
    (execute_operations schedule schema ops ix tx1 t1)) as Hrest.
  { apply IH; [intros; apply Hwf; by right|by eapply holds_step|by eapply od_views|done]. }
  destruct (execute_operations schedule schema ops ix tx1 t1) as [[[[results rest] t'] tx']|e|]; simpl; [|..|done].
  2: { intros He. fold c. rewrite Hspec. simpl. by rewrite Hrest. }
  destruct Hrest as (D' & Hs' & [Hh' Htr Hiv Hver Ht' Hp Hl Hch (chg' & Hv & Hsub)]).
  exists D'. split; [fold c; rewrite Hspec; simpl; by rewrite Hs'|].
  assert (into_iter_from (table t') changed = into_iter_from (table t1) changed) as Hsame
    by (by apply into_iter_prefix).
  split; [done|..].
  - rewrite Htr. by eapply od_trees.
  - intros w Hw. rewrite Hiv by done. by apply (od_other _ _ _ _ _ _ _ _ _ _ Hdone (TInvalidated w)).
  - intros c' Hc'. rewrite Hver by done. by apply (od_other _ _ _ _ _ _ _ _ _ _ Hdone (TVersions c')).
  - done.
  - by etrans.
  - by rewrite into_iter_app, !length_app, Hsame, Hl, Hl1 by (by rewrite Hsame).
  - rewrite into_iter_app, fmap_app, Hsame, Hc1, Hch by (by rewrite Hsame). simpl.
    by destruct (changed_document res).
  - exists chg'. split; [done|]. intros x Hx. apply Hsub in Hx as [Hx|Hx].
    + apply elem_of_app in Hx as [Hx|Hx]; [right|by left]. unfold change_of in Hx. simpl.
      destruct (changed_document res) as [[[c' d] deleted]|]; [|by apply elem_of_nil in Hx].
      apply list_elem_of_singleton in Hx as ->. left.
    + right. simpl. destruct (changed_document res); [by right|done].
Qed.

(** ** Recording the changes for the lazy views *)

(** Invalidated documents are only added. *)
Record invalidates (tx tx' : Transaction) : Prop := {
  inv_trees : tx_trees tx' = tx_trees tx;
  inv_other k : tree_kind_wf k -> (forall c v, v ∈ lazy_views schema c -> k <> TInvalidated (view_name v)) -> thru tx' (tree_name k) = thru tx (tree_name k);
  inv_grows w d : view_wf w -> is_Some (thru tx (view_invalidated_docs_tree_name w) !! d) ->
    is_Some (thru tx' (view_invalidated_docs_tree_name w) !! d)
}.

Lemma invalidates_refl tx : invalidates tx tx.
Proof. by split. Qed.
Lemma invalidates_trans tx1 tx2 tx3 : invalidates tx1 tx2 -> invalidates tx2 tx3 -> invalidates tx1 tx3.
Proof.
  intros [Ht1 Ho1 Hg1] [Ht2 Ho2 Hg2]. split; [congruence| |auto]. intros k Hk Hne. rewrite Ho2, Ho1; done.
Qed.

Lemma invalidate_ids_ok c v i ids tx tx' :
  v ∈ lazy_views schema c -> view_wf (view_name v) -> ix !! view_invalidated_docs_tree_name (view_name v) = Some i ->
  invalidate_ids i ids tx = Ok tx' ->
  invalidates tx tx' /\
  forall d, d ∈ ids -> is_Some (thru tx' (view_invalidated_docs_tree_name (view_name v)) !! d).
Proof.
  intros Hv Hw Hi. revert tx. induction ids as [|d ids IH]; intros tx Hrun; simpl in Hrun; inv_res.
  { split; [apply invalidates_refl|]. intros d Hd. by apply elem_of_nil in Hd. }
  rename x into tx1. match goal with Hs : db_tx _ = Ok _ |- _ => apply map_err_Ok_inv, tx_set_law in Hs as [Hm Hf] end.
  pose proof (through_frame r ix Hix _ _ _ _ Hi Hf) as Hframe.
  assert (thru tx1 (view_invalidated_docs_tree_name (view_name v)) =
    <[d := []]> (thru tx (view_invalidated_docs_tree_name (view_name v)))) as Hd
    by (by rewrite !(through_open r ix _ _ _ Hi)).
  assert (invalidates tx tx1) as Hinv.
  { split; [apply Hf|..].
    - intros k Hk Hne. apply Hframe. intros Heq. apply (tree_name_inj _ (TInvalidated (view_name v))) in Heq; [|done..].
      by apply (Hne c v).
    - intros w d' Hww Hd'. destruct (decide (view_invalidated_docs_tree_name w =
        view_invalidated_docs_tree_name (view_name v))) as [Hsame|Hne]; [|by rewrite Hframe].
      rewrite Hsame in Hd' |- *. rewrite Hd. apply lookup_insert_is_Some'. by right. }
  destruct (IH _ Hrun) as [Hinv' Hids]. split; [by eapply invalidates_trans|].
  intros d' [->|Hd']%elem_of_cons; [|by apply Hids]. apply (inv_grows _ _ Hinv'); [done|].
  rewrite Hd, lookup_insert_eq. by eexists.
Qed.

Lemma invalidate_views_ok c vs ids tx tx' :
  (forall v, v ∈ vs -> v ∈ lazy_views schema c /\ view_wf (view_name v)) -> invalidate_views ix vs ids tx = Ok tx' ->
  invalidates tx tx' /\
  forall v d, v ∈ vs -> d ∈ ids -> is_Some (thru tx' (view_invalidated_docs_tree_name (view_name v)) !! d).
Proof.
  intros Hw. revert tx. induction vs as [|v vs IH]; intros tx Hrun; simpl in Hrun; inv_res.
  { split; [apply invalidates_refl|]. intros v d Hv. by apply elem_of_nil in Hv. }
  rename x into i, x0 into tx1. destruct (Hw v) as [Hlv Hwv]; [left|].
  destruct (invalidate_ids_ok c v i ids tx tx1) as [Hinv1 Hd1]; [done|done|by apply tree_index_Ok|done|].
  destruct (IH ltac:(intros; apply Hw; by right) _ Hrun) as [Hinv2 Hd2].
  split; [by eapply invalidates_trans|]. intros v' d [->|Hv']%elem_of_cons Hd; [|by apply Hd2].
  apply (inv_grows _ _ Hinv2); auto.
Qed.

Lemma lazy_view_in c v :
  v ∈ lazy_views schema c -> v ∈ views_in_collection schema c /\ is_eager (update_policy v) = false.
Proof. unfold lazy_views. intros [? ?]%list_elem_of_filter. done. Qed.

Lemma invalidate_groups_ok groups tx tx' :
  invalidate_groups schema ix groups tx = Ok tx' ->
  invalidates tx tx' /\
  forall c ids v d, (c, ids) ∈ groups -> v ∈ lazy_views schema c -> d ∈ ids ->
    is_Some (thru tx' (view_invalidated_docs_tree_name (view_name v)) !! d).
Proof.
  revert tx. induction groups as [|[c ids] groups IH]; intros tx Hrun; simpl in Hrun; inv_res.
  { split; [apply invalidates_refl|]. intros c ids v d Hin. by apply elem_of_nil in Hin. }
  rename x into tx1.
  assert (forall c v, v ∈ lazy_views schema c -> view_wf (view_name v)) as Hw.
  { intros c' v [Hv _]%lazy_view_in. by apply (wf_views _ Hschema _ _ Hv). }
  destruct (invalidate_views_ok c (lazy_views schema c) ids tx tx1) as [Hinv1 Hd1]; [by eauto|done|].
  destruct (IH _ Hrun) as [Hinv2 Hd2]. split; [by eapply invalidates_trans|].
  intros c' ids' v d [[= -> ->]|Hin]%elem_of_cons Hv Hd; [|by eapply Hd2].
  apply (inv_grows _ _ Hinv2); [by eapply Hw|by apply Hd1].
Qed.

(** Every changed document is in a group of its collection. *)
Lemma group_by_ok cs ds groups :
  group_by cs ds = Ok groups ->
  forall c cd, (c, cd) ∈ into_iter_from cs ds -> exists ids, (c, ids) ∈ groups /\ cd_id cd ∈ ids.
Proof.
  revert groups. induction ds as [|x ds IH]; intros groups Hrun c cd Hin; simpl in *.
  { by apply elem_of_nil in Hin. }
  inv_res. rename x0 into c0, x1 into gs. destruct (cs !! Z.to_nat (cd_collection x)) as [c1|]; simplify_eq.
  assert (forall ids, (c, ids) ∈ gs -> cd_id cd ∈ ids -> exists ids',
    (c, ids') ∈ (match gs with
      | (c', ids) :: rest => if decide (c' = c0) then (c0, cd_id x :: ids) :: rest else (c0, [cd_id x]) :: gs
      | [] => [(c0, [cd_id x])]
      end) /\ cd_id cd ∈ ids') as Hkeep.
  { intros ids Hg Hid. destruct gs as [|[c' ids0] rest]; [by apply elem_of_nil in Hg|].
    case_decide as Hc; [|exists ids; split; [by right|done]]. subst c'.
    apply elem_of_cons in Hg as [[= -> ->]|Hg].
    - exists (cd_id x :: ids0). split; [left|by right].
    - exists ids. split; [by right|done]. }
  apply elem_of_cons in Hin as [[= -> ->]|Hin].
  - destruct gs as [|[c' ids0] rest]; [exists [cd_id x]; split; left|].
    case_decide; eexists; split; [left|left|left|left].
  - destruct (IH _ ltac:(done) _ _ Hin) as (ids & Hg & Hid). eauto.
Qed.

End Execution.

(** ** The whole transaction *)

Section Commit.
Context `{NebariLaws} `{DocumentCodec} `{!DocumentCodecLaws _} `{ViewCodec} `{!ViewCodecLaws _} `{Digest}.
Context `{ChangesCodec}.
Context (schedule : list MapResult -> list MapResult) (Hsched : forall l, schedule l ≡ₚ l).
Context (schema : Schematic) (Hschema : schema_wf schema).
Context (good : View -> Prop).

Definition database (r : Roots) : Database := fun c => docs_of (Nebari.contents r (document_tree_name c)).

(** A store whose documents can be read and whose good views are in step. *)
Definition store_in_step (r : Roots) : Prop :=
  (forall c, qualified_wf c -> decodes (Nebari.contents r (document_tree_name c))) /\
  (forall c v, v ∈ views_in_collection schema c -> good v -> view_synced v r).

Lemma invalidated_synced r ix chg tx tx' :
  synced_all schema good (settled chg) (through r ix tx) -> invalidates schema r ix tx tx' ->
  (forall c v d, (c, d) ∈ chg -> v ∈ lazy_views schema c ->
     is_Some (through r ix tx' (view_invalidated_docs_tree_name (view_name v)) !! d)) ->
  synced_all schema good (fun _ => []) (through r ix tx').
Proof.
  intros Hall [Ht Ho Hg] Hchg c v Hv Hgood. destruct (wf_views _ Hschema _ _ Hv) as (Hw & Hcw & _).
  destruct (view_in_collection _ _ _ (wf_indexes _ Hschema) Hv) as [Hcv _].
  pose proof (Ho (TDocumentMap (view_name v)) Hw ltac:(done)) as E1.
  pose proof (Ho (TEntries (view_name v)) Hw ltac:(done)) as E2.
  pose proof (Ho (TDocuments (view_collection v)) ltac:(by rewrite Hcv) ltac:(done)) as E3.
  cbn [tree_name] in E1, E2, E3. destruct (Hall _ _ Hv Hgood) as [Hi Hid Hf Hu].
  split; rewrite ?E1, ?E2, ?E3; [done..| |done]. intros d Hd _. apply Hf.
  - apply eq_None_not_Some. intros Hs. apply (Hg (view_name v)) in Hs; [|done].
    rewrite Hd in Hs. by destruct Hs.
  - unfold settled. destruct (is_eager (update_policy v)) eqn:He; [apply not_elem_of_nil|].
    unfold changed_ids. intros ([c' d'] & -> & [Hc' Hin]%list_elem_of_filter)%list_elem_of_fmap.
    simpl in Hc', Hd. rewrite Hc', Hcv in Hin. destruct (Hchg c v d' Hin) as [x Hx]; [|congruence].
    unfold lazy_views. by apply list_elem_of_filter.
Qed.

Lemma committed_trees r o tx r' :
  trees_ok o -> tx_trees tx = trees o -> tx_commit r tx = Ok r' ->
  forall n, Nebari.contents r' n = through r (trees_index_by_name o) tx n.
Proof.
  intros [Hix Hn] Ht Hc n. apply tx_commit_law in Hc as [Hin Hout]; [|by rewrite Ht]. unfold through.
  destruct (trees_index_by_name o !! n) as [i|] eqn:Hi.
  - apply Hin. rewrite Ht. by apply Hix.
  - apply Hout. rewrite Ht. intros [i Hi']%list_elem_of_lookup. apply Hix in Hi'. congruence.
Qed.

Lemma holds_frame T T' D :
  holds T D -> (forall c, qualified_wf c -> T' (document_tree_name c) = T (document_tree_name c)) -> holds T' D.
Proof. intros Hh Heq c Hc. rewrite Heq by done. by apply Hh. Qed.

(** The invalidated documents of an eager view are those it had. *)
Definition eager_untouched (r r' : Roots) : Prop :=
  forall c v, v ∈ views_in_collection schema c -> is_eager (update_policy v) = true ->
    Nebari.contents r' (view_invalidated_docs_tree_name (view_name v)) =
    Nebari.contents r (view_invalidated_docs_tree_name (view_name v)).

(** The versions of the views are those they were. *)
Definition versions_untouched (r r' : Roots) : Prop :=
  forall c, qualified_wf c -> Nebari.contents r' (view_versions_tree_name c) = Nebari.contents r (view_versions_tree_name c).

(** From the executed operations to the committed store. *)
Lemma commit_ok r o results changed D t tx0 tx1 tx2 data tx3 r' :
  trees_ok o -> tx_trees tx0 = trees o ->
  (forall n, through r (trees_index_by_name o) tx0 n = Nebari.contents r n) ->
  executed schema good r (trees_index_by_name o) results changed D [] empty_table t tx0 tx1 ->
  invalidate_changed_documents schema o (table t) changed tx1 = Ok tx2 ->
  tx_set_data tx2 data = Ok tx3 -> tx_commit r tx3 = Ok r' ->
  holds (Nebari.contents r') D /\ store_in_step r' /\ eager_untouched r r' /\ versions_untouched r r'.
Proof.
  intros Ho Ht0 Hstart [Hh Ht Hiv Hver _ _ Hlen Hch (chg & Hviews & Hsub)] Hinv Hdata Hcommit.
  set (ix := trees_index_by_name o) in *.
  assert (forall n n' i, ix !! n = Some i -> ix !! n' = Some i -> n = n') as Hix.
  { intros n n' i Hn%(trees_index _ Ho) Hn'%(trees_index _ Ho). congruence. }
  unfold invalidate_changed_documents in Hinv. apply bind_Ok_inv in Hinv as (groups & Hgroups & Hinv).
  destruct (invalidate_groups_ok schema Hschema r ix Hix groups tx1 tx2 Hinv) as [Hinvs Hids].
  destruct (tx_set_data_law _ _ _ Hdata) as (Ht3 & _ & Hc3).
  assert (forall n, Nebari.contents r' n = through r ix tx2 n) as Hfinal.
  { intros n. rewrite (committed_trees r o tx3 r' Ho) by (done || by rewrite Ht3, (inv_trees _ _ _ _ _ Hinvs), Ht).
    unfold through. fold ix. destruct (ix !! n); [apply Hc3|done]. }
  assert (synced_all schema good (fun _ => []) (through r ix tx2)) as Hsync.
  { apply (invalidated_synced r ix chg tx1); [done|done|]. intros c v d Hin Hv.
    apply Hsub in Hin as [Hin|Hin]; [by apply elem_of_nil in Hin|]. rewrite <- Hch in Hin.
    apply list_elem_of_fmap in Hin as (item & Heq & ([c2 cd] & -> & Hin)%list_elem_of_fmap).
    unfold change_item in Heq. simplify_eq/=.
    destruct (group_by_ok _ _ _ Hgroups _ _ Hin) as (ids & Hg & Hid). by eapply Hids. }
  assert (holds (Nebari.contents r') D) as Hh'.
  { apply (holds_frame (through r ix tx1)); [done|]. intros c Hc. rewrite Hfinal.
    by apply (inv_other _ _ _ _ _ Hinvs (TDocuments c)). }
  split_and!; [done|split; [intros c Hc; by apply Hh'|]| |].
  - intros c v Hv Hgood. apply (synced_frame v _ (through r ix tx2)); [by eapply Hsync|]. intros k _. apply Hfinal.
  - intros c v Hv He. destruct (wf_views _ Hschema _ _ Hv) as (Hw & _ & _). rewrite Hfinal, <- Hstart, <- Hiv by done.
    apply (inv_other _ _ _ _ _ Hinvs (TInvalidated (view_name v))); [done|].
    intros c' v' [Hv' He']%lazy_view_in [= Heq].
    rewrite (view_name_inj _ _ _ _ _ (wf_indexes _ Hschema) Hv Hv' Heq) in He. congruence.
  - intros c Hc. rewrite Hfinal, <- Hstart, <- Hver by done. by apply (inv_other _ _ _ _ _ Hinvs (TVersions c)).
Qed.

Lemma open_trees_error ops o : no_document_error (open_trees_for_operations schema ops o).
Proof.
  revert o. induction ops as [|op ops IH]; intros o; simpl; [done|].
  destruct (contained_collections schema !! op_collection op); [apply IH|]. by intros e' [= <-].
Qed.

Lemma invalidate_error o cs changed tx : no_document_error (invalidate_changed_documents schema o cs changed tx).
Proof.
  assert (forall ds, no_document_error (group_by cs ds)) as Hg.
  { induction ds as [|d ds IH]; simpl; [done|].
    apply bind_no_document_error; [apply unwrap_no_document_error|]. intros c _. by apply bind_no_document_error. }
  unfold invalidate_changed_documents. apply bind_no_document_error; [done|]. intros groups _. revert tx.
  induction groups as [|[c ids] groups IH]; intros tx; simpl; [done|]. apply bind_no_document_error; [|auto].
  clear IH. revert tx. induction (lazy_views schema c) as [|v vs IH]; intros tx; simpl; [done|].
  apply bind_no_document_error; [apply unwrap_no_document_error|]. intros i _.
  apply bind_no_document_error; [|auto]. clear IH. revert tx. induction ids as [|d ids IH]; intros tx; simpl; [done|].
  apply bind_no_document_error; [apply db_tx_no_document_error|auto].
Qed.

(** The eager views of the collections the operations change are in step. *)
Definition eager_in_step (ops : list Operation) : Prop := forall op, op ∈ ops -> eager_good schema good (op_collection op).

Lemma start_ok ops r o tx0 :
  store_in_step r -> eager_in_step ops -> open_trees_for_transaction schema ops = Ok o -> transaction r (trees o) = Ok tx0 ->
  trees_ok o /\ tx_trees tx0 = trees o /\
  (forall n, through r (trees_index_by_name o) tx0 n = Nebari.contents r n) /\
  refines_operations schema good r (trees_index_by_name o) ops (database r) [] empty_table tx0
    (execute_operations schedule schema ops (trees_index_by_name o) tx0 empty_table).
Proof.
  intros [Hdec Hviews] Hgood Hopen Htx. apply open_trees_ok in Hopen as (Htrees & _ & Hops); [|apply no_trees_ok].
  apply transaction_law in Htx as (Ht0 & _ & Hc0). set (ix := trees_index_by_name o).
  assert (forall n, through r ix tx0 n = Nebari.contents r n) as Hstart.
  { intros n. unfold through. destruct (ix !! n) as [i|] eqn:Hi; [|done]. apply Hc0. by apply (trees_index _ Htrees). }
  split_and!; [done..|]. apply execute_operations_ok; [done|done|..].
  - intros n n' i Hn%(trees_index _ Htrees) Hn'%(trees_index _ Htrees). congruence.
  - intros op Hin. split; [|by apply Hgood]. apply Hops in Hin as [Hop _]. by apply (wf_collections _ Hschema).
  - intros c Hc. rewrite Hstart. by split; [|apply Hdec].
  - intros c v Hv Hg. apply (synced_frame v _ (Nebari.contents r)); [|by intros].
    eapply synced_mono; [by eapply Hviews|]. apply list_subseteq_nil.
  - apply empty_table_ok.
Qed.

(** How a transaction ends. *)
Definition transaction_outcome (ops : list Operation) (r : Roots) (res : res DbError (list OperationResult))
    (r' : Roots) : Prop :=
  match res with
  | Ok results => exists D', spec_operations schema ops (database r) = Ok (results, D') /\
      holds (Nebari.contents r') D' /\ store_in_step r' /\ eager_untouched r r' /\ versions_untouched r r'
  | Err e => r' = r /\ (document_error e = true -> spec_operations schema ops (database r) = Err e)
  | Panic => r' = r
  end.

Lemma apply_in_step ops r res r' :
  store_in_step r -> eager_in_step ops -> apply_transaction_to_roots schedule schema ops r = (res, r') -> transaction_outcome ops r res r'.
Proof.
  intros Hok Hgood. unfold apply_transaction_to_roots. rewrite (stm_bind_Ok st_get _ r r r) by done.
  destruct (open_trees_for_transaction schema ops) as [o|e|] eqn:Hopen; [|..|by intros [= <- <-]].
  2: { intros [= <- <-]. split; [done|]. apply open_trees_error in Hopen. congruence. }
  rewrite (stm_bind_Ok _ _ r o r) by done. unfold db_tx.
  destruct (transaction r (trees o)) as [tx0|e|] eqn:Htx; [|by intros [= <- <-]..].
  rewrite (stm_bind_Ok _ _ r tx0 r) by done. destruct (start_ok _ _ _ _ Hok Hgood Hopen Htx) as (Ho & Ht0 & Hstart & Hexec).
  destruct (execute_operations _ _ _ _ tx0 empty_table) as [[[[results changed] t] tx1]|e|]; [|by intros [= <- <-]..].
  rewrite (stm_bind_Ok _ _ r (results, changed, t, tx1) r) by done. destruct Hexec as (D & Hspec & Hex).
  destruct (invalidate_changed_documents schema o (table t) changed tx1) as [tx2|e|] eqn:Hinv; [|..|by intros [= <- <-]].
  2: { intros [= <- <-]. split; [done|]. intros He. exfalso. apply invalidate_error in Hinv. congruence. }
  rewrite (stm_bind_Ok _ _ r tx2 r) by done.
  destruct (serialize_executed_transaction_changes _) as [data|]; [|by intros [= <- <-]].
  rewrite (stm_bind_Ok _ _ r data r) by done.
  destruct (tx_set_data tx2 data) as [tx3|e|] eqn:Hdata; [|by intros [= <- <-]..].
  rewrite (stm_bind_Ok _ _ r tx3 r) by done.
  destruct (tx_commit r tx3) as [r1|e|] eqn:Hcommit; [|by intros [= <- <-]..].
  rewrite (stm_bind_Ok _ _ r r1 r) by done. intros [= <- <-]. exists D. split; [done|].
  by eapply commit_ok.
Qed.

End Commit.

(** ** Stores all views of which are in step *)

Section Transactions.
Context `{NebariLaws} `{DocumentCodec} `{!DocumentCodecLaws _} `{ViewCodec} `{!ViewCodecLaws _} `{Digest}.
Context `{ChangesCodec}.
Context (schedule : list MapResult -> list MapResult) (Hsched : forall l, schedule l ≡ₚ l).
Context (schema : Schematic) (Hschema : schema_wf schema).

(** A store whose documents can be read and whose views are in step. *)
Definition store_ok (r : Roots) : Prop :=
  (forall c, qualified_wf c -> decodes (Nebari.contents r (document_tree_name c))) /\
  (forall c v, v ∈ views_in_collection schema c -> view_synced v r).
Lemma store_ok_in_step r : store_ok r <-> store_in_step schema (fun _ => True) r.
Proof. unfold store_ok, store_in_step. naive_solver. Qed.

Lemma apply_transaction_ok ops r res r' :
  store_ok r -> apply_transaction_to_roots schedule schema ops r = (res, r') ->
  match res with
  | Ok results => exists D', spec_operations schema ops (database r) = Ok (results, D') /\
      holds (Nebari.contents r') D' /\ store_ok r' /\ eager_untouched schema r r'
  | Err e => r' = r /\ (document_error e = true -> spec_operations schema ops (database r) = Err e)
  | Panic => r' = r
  end.
Proof.
  intros Hok%store_ok_in_step Hrun. apply (apply_in_step schedule Hsched schema Hschema (fun _ => True)) in Hrun; [|done|by intros op _ v].
  destruct res as [results|e|]; [|done..]. destruct Hrun as (D & Hs & Hh & Hr%store_ok_in_step & He & _). by exists D.
Qed.

(** C1: a transaction is atomic and its operations do what their commands say.
    When it succeeds, its results and the documents of every collection of the
    committed store are those the commands, applied in order, give on the
    documents of the store before; when it fails or panics the store is
    unchanged, and a reported conflict or missing document is the one the
    commands in order run into. *)
Theorem transaction_refines_commands ops r res r' :
  store_ok r -> apply_transaction_to_roots schedule schema ops r = (res, r') ->
  match res with
  | Ok results => exists D', spec_operations schema ops (database r) = Ok (results, D') /\
      forall c, qualified_wf c -> database r' c = D' c
  | Err e => r' = r /\ (document_error e = true -> spec_operations schema ops (database r) = Err e)
  | Panic => r' = r
  end.
Proof.
  intros Hok Hrun. pose proof (apply_transaction_ok _ _ _ _ Hok Hrun) as Hout.
  destruct res as [results|e|]; [|done..]. destruct Hout as (D & Hs & Hh & _). exists D. split; [done|].
  intros c Hc. by apply Hh.
Qed.

(** C2: a transaction keeps every view of the schema in step with the
    documents.  A lazy view has the changed documents recorded as invalidated;
    an eager view with nothing left to map already holds, at the commit,
    exactly what its map function makes of the new documents. *)
Theorem transaction_keeps_views ops r results r' c v :
  store_ok r -> apply_transaction_to_roots schedule schema ops r = (Ok results, r') ->
  v ∈ views_in_collection schema c ->
  view_synced v r' /\
  (is_eager (update_policy v) = true ->
   Nebari.contents r (view_invalidated_docs_tree_name (view_name v)) = ∅ ->
   forall d k, entry_value (Nebari.contents r' (view_entries_tree_name (view_name v))) d k =
               indexed v (Nebari.contents r' (document_tree_name c) !! d) k).
Proof.
  intros Hok Hrun Hv. destruct (apply_transaction_ok _ _ _ _ Hok Hrun) as (D & _ & _ & [_ Hsync] & Heager).
  split; [by eapply Hsync|]. intros He Hinv d k.
  destruct (view_in_collection _ _ _ (wf_indexes _ Hschema) Hv) as [<- _].
  apply (synced_fresh _ _ _ (Hsync _ _ Hv)); [|apply not_elem_of_nil].
  rewrite (Heager _ _ Hv He), Hinv. apply lookup_empty.
Qed.

(** C13: transactions enforce unique views: after a committed transaction no
    two documents of a collection emit the same key of a unique view of the
    collection that has nothing left to map. *)
Theorem transaction_enforces_unique ops r results r' c v d1 d2 k :
  store_ok r -> apply_transaction_to_roots schedule schema ops r = (Ok results, r') ->
  v ∈ views_in_collection schema c -> update_policy v = Unique ->
  Nebari.contents r (view_invalidated_docs_tree_name (view_name v)) = ∅ ->
  is_Some (indexed v (Nebari.contents r' (document_tree_name c) !! d1) k) ->
  is_Some (indexed v (Nebari.contents r' (document_tree_name c) !! d2) k) -> d1 = d2.
Proof.
  intros Hok Hrun Hv Hu Hinv.
  destruct (apply_transaction_ok _ _ _ _ Hok Hrun) as (D & _ & _ & [_ Hsync] & Heager).
  destruct (view_in_collection _ _ _ (wf_indexes _ Hschema) Hv) as [<- _].
  pose proof (Hsync _ _ Hv) as Hs.
  assert (forall d, up_to_date v (Nebari.contents r' (document_tree_name (view_collection v)))
    (Nebari.contents r' (view_entries_tree_name (view_name v))) d) as Hup.
  { intros d. apply (synced_fresh _ _ _ Hs); [|apply not_elem_of_nil].
    rewrite (Heager _ _ Hv), Hinv by (by rewrite Hu). apply lookup_empty. }
  rewrite <- !Hup. by apply at_most_one_source, (synced_entries _ _ _ Hs).
Qed.
End Transactions.

(** ** The theorems on an in-memory store *)

Module TransactionExamples.
Import MemNebari StoreDemo ViewExamples.

Definition empty : Roots := MkRoots ∅ true [].

Lemma demo_views_of c v :
  v ∈ views_in_collection demo_schema c -> c = notes /\ (v = by_contents Unique \/ v = by_length).
Proof.
  destruct (decide (c = notes)) as [->|Hc].
  - assert (views_in_collection demo_schema notes = [by_contents Unique; by_length]) as -> by reflexivity.
    rewrite !elem_of_cons, elem_of_nil. tauto.
  - assert (views_by_collection demo_schema = {[notes := [1; 2]]}) as Hvs by reflexivity.
    unfold views_in_collection. rewrite Hvs, lookup_singleton_ne by done. intros Hv. by apply elem_of_nil in Hv.
Qed.

Lemma by_length_own : own_mappings by_length.
Proof. intros doc ms m [= <-] ->%list_elem_of_singleton. done. Qed.

Lemma demo_schema_wf : schema_wf demo_schema.
Proof.
  split.
  - apply (from_schema_ok notes [demo_collection]); [|apply demo_schema_ok].
    apply (bool_decide_unpack _). vm_compute. exact I.
  - intros c. assert (contained_collections demo_schema = {[notes := Basic KU64]}) as Hcs by reflexivity.
    rewrite Hcs. intros [_ [<- _]%lookup_singleton_Some]. repeat split.
  - intros c v [-> [->| ->]]%demo_views_of; (split; [repeat split|split; [repeat split|]]);
      [apply by_contents_own|apply by_length_own].
Qed.

Lemma empty_ok : store_ok demo_schema empty.
Proof.
  assert (forall t, Nebari.contents empty t = ∅) as He
    by (intros t; cbn; unfold mem_contents; cbn; by rewrite lookup_empty).
  split; [intros c _ d b; by rewrite He, lookup_empty|]. intros c v _. split; rewrite ?He.
  - split; [intros d k; unfold doc_keys, entry_value; rewrite !lookup_empty; simpl|].
    + split; [by intros ?%not_elem_of_empty|by intros []].
    + intros k. rewrite lookup_empty. constructor.
  - intros d b doc. by rewrite lookup_empty.
  - intros d _ _ k. unfold entry_value. rewrite !lookup_empty. done.
  - split; [intros _ k; rewrite lookup_empty; simpl; lia|]. intros k b. by rewrite lookup_empty.
Qed.

Definition ops : list Operation :=
  [op_insert notes None [7]; op_insert notes None [8]; op_overwrite notes [1] [9; 9];
   op_delete notes (MkHeader [1] (revision_new [9; 9]))].
Definition applied : Roots := (apply_transaction_to_roots (fun l => l) demo_schema ops empty).2.
Definition results : list OperationResult :=
  [DocumentUpdated notes (MkHeader [0; 0; 0; 0; 0; 0; 0; 1] (revision_new [7]));
   DocumentUpdated notes (MkHeader [0; 0; 0; 0; 0; 0; 0; 2] (revision_new [8]));
   DocumentUpdated notes (MkHeader [1] (revision_new [9; 9])); DocumentDeleted notes [1]].

Lemma applied_ok : apply_transaction_to_roots (fun l => l) demo_schema ops empty = (Ok results, applied).
Proof.
  unfold applied.
  assert (res_ok (apply_transaction_to_roots (fun l => l) demo_schema ops empty).1 = Some results) as Hr
    by (vm_compute; reflexivity).
  destruct (apply_transaction_to_roots _ _ _ _) as [res r]. apply res_ok_Some in Hr. simpl in *. by subst.
Qed.

Lemma transaction_refines_commands_witness :
  exists D', spec_operations demo_schema ops (database empty) = Ok (results, D') /\
    forall c, qualified_wf c -> database applied c = D' c.
Proof.
  exact (transaction_refines_commands (fun l => l) identity_schedule demo_schema demo_schema_wf ops empty _ _
    empty_ok applied_ok).
Defined.

Lemma demo_unique_view : by_contents Unique ∈ views_in_collection demo_schema notes.
Proof. left. Qed.
Lemma empty_invalidated v : Nebari.contents empty (view_invalidated_docs_tree_name (view_name v)) = ∅.
Proof. cbn. unfold mem_contents. cbn. by rewrite lookup_empty. Qed.

Lemma transaction_keeps_views_witness :
  entry_value (Nebari.contents applied (view_entries_tree_name (view_name (by_contents Unique))))
    [0; 0; 0; 0; 0; 0; 0; 1] [7] = Some (revision_new [7], [1]).
Proof.
  destruct (transaction_keeps_views (fun l => l) identity_schedule demo_schema demo_schema_wf ops empty results
    applied notes (by_contents Unique) empty_ok applied_ok demo_unique_view) as [_ Hv].
  rewrite (Hv eq_refl (empty_invalidated _)). vm_compute. reflexivity.
Defined.

Lemma transaction_enforces_unique_witness :
  is_Some (indexed (by_contents Unique)
    (Nebari.contents applied (document_tree_name notes) !! [0; 0; 0; 0; 0; 0; 0; 1]) [7]) /\
  forall d, is_Some (indexed (by_contents Unique) (Nebari.contents applied (document_tree_name notes) !! d) [7]) ->
    d = [0; 0; 0; 0; 0; 0; 0; 1].
Proof.
  assert (is_Some (indexed (by_contents Unique)
    (Nebari.contents applied (document_tree_name notes) !! [0; 0; 0; 0; 0; 0; 0; 1]) [7])) as H1.
  { exists (revision_new [7], [1]). vm_compute. reflexivity. }
  split; [exact H1|]. intros d Hd.
  exact (transaction_enforces_unique (fun l => l) identity_schedule demo_schema demo_schema_wf ops empty
    results applied notes (by_contents Unique) d [0; 0; 0; 0; 0; 0; 0; 1] [7] empty_ok applied_ok demo_unique_view
    eq_refl (empty_invalidated _) Hd H1).
Defined.
End TransactionExamples.
