(* ===== verification/QueryLaws.v ===== *)
(** * Laws of reading

    A scan with a limit reads a prefix of the pairs of its range, in order; the
    documents and view entries a connection reads are those of the store. *)

From Stdlib Require Import ZArith Lia Sorting.Sorted.
From stdpp Require Import base list option numbers gmap sorting.
From S2P Require Import Prelude Bytes Key Range Nebari Document Names Changes Schema Permissions View Query StoreDemo ViewLaws ViewBatch ViewTheorems TransactionSpec.

Local Open Scope Z_scope.

(** The first values a limit lets through. *)
Definition limited {A} (limit : option Z) (l : list A) : list A :=
  match limit with Some n => take (Z.to_nat n) l | None => l end.

Lemma limited_fmap {A B} (f : A -> B) limit l : f <$> limited limit l = limited limit (f <$> l).
Proof. destruct limit; [apply fmap_take|done]. Qed.

(** ** [collect] *)

Lemma collect_Ok_iff {E A B} (f : A -> res E B) l ys :
  collect f l = Ok ys <-> Forall2 (fun x y => f x = Ok y) l ys.
Proof.
  split.
  - revert ys. induction l as [|x l IH]; intros ys Hc; simpl in Hc; inv_res; constructor; auto.
  - induction 1 as [|x y l ys Hx Hl IH]; simpl; [done|]. by rewrite Hx, IH.
Qed.

Lemma collect_total {E A B} (f : A -> res E B) (g : A -> B) l :
  (forall x, x ∈ l -> f x = Ok (g x)) -> collect f l = Ok (g <$> l).
Proof.
  induction l as [|x l IH]; intros Hf; simpl; [done|]. rewrite Hf by left. simpl. by rewrite IH by (intros; apply Hf; by right).
Qed.

Lemma collect_app {E A B} (f : A -> res E B) l1 l2 :
  collect f (l1 ++ l2) = (ys ← collect f l1; zs ← collect f l2; Ok (ys ++ zs)).
Proof.
  induction l1 as [|x l1 IH]; simpl; [by destruct (collect f l2)|]. destruct (f x); simpl; [|done..].
  rewrite IH. destruct (collect f l1); simpl; [|done..]. by destruct (collect f l2).
Qed.

(** ** Scans *)

Section Scan.
Context {E A : Type} (f : bytes -> res E A).

Definition after_scan (limit : option Z) (n : Z) (l : list (bytes * bytes)) : Z :=
  match limit with Some m => n + Z.min (Z.of_nat (length l)) (Z.max 0 (m - n)) | None => n end.

Lemma scan_limit limit n l found :
  scan_spec l (limit_evaluator limit) (push_value f) n found =
  (vs ← collect f (limited ((fun m => m - n) <$> limit) l).*2; Ok (after_scan limit n l, found ++ vs)).
Proof.
  revert n found. induction l as [|[k b] l IH]; intros n found.
  { destruct limit as [m|]; simpl; rewrite ?take_nil; simpl; rewrite app_nil_r; [|done]. do 2 f_equal. lia. }
  cbn [scan_spec]. destruct limit as [m|]; cbn [limit_evaluator fmap option_fmap option_map limited].
  - destruct (Z.leb_spec m n) as [Hle|Hlt].
    + replace (Z.to_nat (m - n)) with O by lia. cbn [take fmap list_fmap collect].
      simpl. rewrite app_nil_r. do 2 f_equal. lia.
    + replace (Z.to_nat (m - n)) with (S (Z.to_nat (m - (n + 1)))) by lia.
      cbn [take fmap list_fmap collect snd]. unfold push_value, st_lift, st_modify, mbind, stm_bind.
      destruct (f b) as [a|e|]; cbn [res_bind]; [|done..]. rewrite IH. cbn [fmap option_fmap option_map limited].
      destruct (collect f _) as [vs|e|]; cbn; [|done..]. rewrite <- app_assoc. do 2 f_equal.
      unfold after_scan. cbn [length]. lia.
  - cbn [fmap list_fmap collect snd]. unfold push_value, st_lift, st_modify, mbind, stm_bind.
    destruct (f b) as [a|e|]; cbn [res_bind]; [|done..]. rewrite IH. cbn [fmap option_fmap option_map limited].
    destruct (collect f _) as [vs|e|]; cbn; [|done..]. by rewrite <- app_assoc.
Qed.

End Scan.

(** ** The pairs of a decoded tree *)

(** A tree whose values all decode. *)
Definition decodable {A} (dec : bytes -> option A) (m : gmap bytes bytes) : Prop :=
  forall k b, m !! k = Some b -> is_Some (dec b).

Lemma sorted_pairs_omap {A} (dec : bytes -> option A) (m : gmap bytes bytes) :
  decodable dec m ->
  Forall2 (fun p q => p.1 = q.1 /\ dec p.2 = Some q.2) (sorted_pairs m) (sorted_pairs (omap dec m)).
Proof.
  intros Hd.
  set (g := fun p : bytes * bytes => (fun a => (p.1, a)) <$> dec p.2).
  assert (exists l, Forall2 (fun p q => p.1 = q.1 /\ dec p.2 = Some q.2) (sorted_pairs m) l) as [l Hl].
  { assert (forall p, p ∈ sorted_pairs m -> is_Some (dec p.2)) as Hall
      by (intros [k b] Hp%sorted_pairs_elem; by eapply Hd). revert Hall.
    induction (sorted_pairs m) as [|p ps IH]; intros Hall; [by exists []|].
    destruct (Hall p ltac:(left)) as [a Ha]. destruct IH as [l Hl]; [intros; apply Hall; by right|].
    exists ((p.1, a) :: l). by constructor. }
  assert (l = sorted_pairs (omap dec m)) as <-; [|done].
  assert (l.*1 = (sorted_pairs m).*1) as Hk.
  { clear -Hl. induction Hl as [|p q ps qs [Hpq _] Hl IH]; csimpl; [done|]. by rewrite Hpq, IH. }
  apply sorted_pairs_unique; [rewrite Hk; apply sorted_pairs_sorted|apply sorted_pairs_sorted|].
  intros [k a]. rewrite sorted_pairs_elem, lookup_omap_Some. split.
  - intros [i Hi]%list_elem_of_lookup. destruct (Forall2_lookup_r _ _ _ _ _ Hl Hi) as ([k' b] & Hp & Hpk & Hb).
    simpl in *. subst k'. exists b. split; [done|]. by apply sorted_pairs_elem, (list_elem_of_lookup_2 _ i).
  - intros (b & Hb & Hm). apply sorted_pairs_elem, list_elem_of_lookup in Hm as [i Hi].
    destruct (Forall2_lookup_l _ _ _ _ _ Hl Hi) as ([k' a'] & Hq & Hpk & Hb'). simpl in *. simplify_eq.
    by apply (list_elem_of_lookup_2 _ i).
Qed.

Lemma Forall2_filter_fst {A B} (R : bytes * A -> bytes * B -> Prop) (P : bytes -> Prop) `{forall k, Decision (P k)} l1 l2 :
  (forall p q, R p q -> p.1 = q.1) -> Forall2 R l1 l2 ->
  Forall2 R (filter (fun p => P p.1) l1) (filter (fun q => P q.1) l2).
Proof.
  intros HR. induction 1 as [|p q l1 l2 Hpq Hl IH]; [constructor|]. rewrite !filter_cons, (HR p q Hpq).
  case_decide; [by constructor|done].
Qed.

Lemma Forall2_rev {A B} (R : A -> B -> Prop) l1 l2 : Forall2 R l1 l2 -> Forall2 R (rev l1) (rev l2).
Proof. induction 1; simpl; [constructor|]. apply Forall2_app; [done|]. by repeat constructor. Qed.

Lemma scan_order_omap {A} (dec : bytes -> option A) (m : gmap bytes bytes) range fwd :
  decodable dec m ->
  Forall2 (fun p q => p.1 = q.1 /\ dec p.2 = Some q.2) (scan_order m range fwd) (scan_order (omap dec m) range fwd).
Proof.
  intros Hd. pose proof (sorted_pairs_omap dec m Hd) as Hs. unfold scan_order.
  apply (Forall2_filter_fst _ (fun k => range_contains bytes_cmp range k = true)) in Hs; [|by intros ? ? [? _]].
  destruct fwd; [done|]. by apply Forall2_rev.
Qed.

Lemma Forall2_limited {A B} (R : A -> B -> Prop) limit l1 l2 :
  Forall2 R l1 l2 -> Forall2 R (limited limit l1) (limited limit l2).
Proof. destruct limit; simpl; [apply Forall2_take|done]. Qed.

(** ** Reading from the store *)

Section Reads.
Context `{NebariLaws} `{DocumentCodec} `{ViewCodec} `{ChangesCodec} `{Actionable}.

(** Errors only come from the storage engine. *)
Definition engine_error (e : DbError) : Prop := exists e', e = DbNebari e'.

(** A scan of a tree whose values decode: the decoded values of the range, in
    order, up to the limit. *)
Lemma scan_values_map {A B} (dec : bytes -> option A) (g : A -> B) (f : bytes -> res DbError B) r tree range order limit :
  (forall b, f b = ok_or DbSerialization (g <$> dec b)) -> decodable dec (Nebari.contents r tree) ->
  match scan_values r tree range order limit f with
  | Ok found => found = g <$> (limited limit (scan_order (omap dec (Nebari.contents r tree)) range (forwards order))).*2
  | Err e => engine_error e
  | Panic => False
  end.
Proof.
  intros Hf Hd. pose proof (scan_order_omap dec _ range (forwards order) Hd) as Hs.
  apply (Forall2_limited _ limit) in Hs.
  assert (collect f (limited limit (scan_order (Nebari.contents r tree) range (forwards order))).*2 =
    Ok (g <$> (limited limit (scan_order (omap dec (Nebari.contents r tree)) range (forwards order))).*2)) as Hc.
  { apply collect_Ok_iff. rewrite <- list_fmap_compose. apply Forall2_fmap. eapply Forall2_impl; [exact Hs|].
    intros p q [_ Hpq]. simpl. by rewrite Hf, Hpq. }
  pose proof (scan_limit f limit 0 (scan_order (Nebari.contents r tree) range (forwards order)) []) as Hscan.
  replace ((fun m => m - 0) <$> limit) with limit in Hscan by (destruct limit; simpl; [f_equal; lia|done]).
  rewrite Hc in Hscan. cbn in Hscan. unfold scan_values.
  destruct (roots_scan_range _ _ _ _ _ _ _ _) as [[n found]|[e|e]|] eqn:Hrun; simpl.
  - apply roots_scan_range_law in Hrun. rewrite Hscan in Hrun. by injection Hrun as _ <-.
  - by eexists.
  - apply roots_scan_range_abort in Hrun. by rewrite Hscan in Hrun.
  - apply roots_scan_range_panic in Hrun. by rewrite Hscan in Hrun.
Qed.

Lemma scan_values_ok {A} (dec : bytes -> option A) r tree range order limit :
  decodable dec (Nebari.contents r tree) ->
  match scan_values r tree range order limit (fun b => ok_or DbSerialization (dec b)) with
  | Ok found => found = (limited limit (scan_order (omap dec (Nebari.contents r tree)) range (forwards order))).*2
  | Err e => engine_error e
  | Panic => False
  end.
Proof.
  intros Hd. pose proof (scan_values_map dec (fun x => x) (fun b => ok_or DbSerialization (dec b)) r tree range order limit)
    as Hs. rewrite list_fmap_id in Hs. apply Hs; [|done]. intros b. by destruct (dec b).
Qed.

Lemma get_multiple_ok {A} (dec : bytes -> option A) r tree ids :
  decodable dec (Nebari.contents r tree) ->
  match (pairs ← db_tx (roots_get_multiple r tree (merge_sort bytes_le ids));
         collect (fun b => ok_or DbSerialization (dec b)) pairs.*2) with
  | Ok found => forall a, a ∈ found <-> exists k, k ∈ ids /\ omap dec (Nebari.contents r tree) !! k = Some a
  | Err e => engine_error e
  | Panic => False
  end.
Proof.
  intros Hd. unfold db_tx. destruct (roots_get_multiple r tree _) as [pairs|e|] eqn:Hg; cbn [map_err mbind res_bind];
    [|by eexists|by eapply no_panic_get_multiple].
  apply roots_get_multiple_law in Hg as [_ Hin]; [|apply (StronglySorted_merge_sort _)].
  assert (exists l, Forall2 (fun p a => dec p.2 = Some a) pairs l) as [l Hl].
  { assert (forall p, p ∈ pairs -> is_Some (dec p.2)) as Hall by (intros [k b] [_ Hp]%Hin; by eapply Hd).
    clear Hin. induction pairs as [|p ps IH]; [by exists []|]. destruct (Hall p ltac:(left)) as [a Ha].
    destruct IH as [l Hl]; [intros; apply Hall; by right|]. exists (a :: l). by constructor. }
  rewrite (proj2 (collect_Ok_iff _ _ l)).
  2: { apply Forall2_fmap_l. eapply Forall2_impl; [exact Hl|]. intros p a Hp. simpl. by rewrite Hp. }
  intros a. split.
  - intros [i Hi]%list_elem_of_lookup. destruct (Forall2_lookup_r _ _ _ _ _ Hl Hi) as ([k b] & Hp & Hb).
    apply list_elem_of_lookup_2, Hin in Hp as [Hk Hb']. rewrite merge_sort_Permutation in Hk.
    exists k. by rewrite lookup_omap, Hb'.
  - intros (k & Hk & Ha). apply lookup_omap_Some in Ha as (b & Hb & Hm).
    assert ((k, b) ∈ pairs) as [i Hi]%list_elem_of_lookup by (apply Hin; by rewrite merge_sort_Permutation).
    destruct (Forall2_lookup_l _ _ _ _ _ Hl Hi) as (a' & Ha' & Hb'). simpl in *. simplify_eq.
    by apply (list_elem_of_lookup_2 _ i).
Qed.


(** ** Documents *)

Section Documents.
Context (db : str) (session : option Session).

(** What an operation of a connection returns: the error of the permission
    check, an error of the storage engine, or a result as described. *)
Definition reads {A} (resource : list Identifier) (a : DatabaseAction) (run : res CoreError A)
    (returns : A -> Prop) : Prop :=
  if connection_allowed_to session resource (DatabaseAct a) then
    match run with
    | Ok x => returns x
    | Err (CoreDb e) => engine_error e
    | _ => False
    end
  else run = Err (CoreDenied (PermissionDenied resource (DatabaseAct a))).

Lemma reads_permitted {A} resource a (run : res DbError A) (returns : A -> Prop) :
  match run with Ok x => returns x | Err e => engine_error e | Panic => False end ->
  reads resource a (permit session resource a;; map_err CoreDb run) returns.
Proof.
  intros Hrun. unfold reads, permit. rewrite check_permission_allowed.
  destruct (connection_allowed_to _ _ _); [|done]. simpl. by destruct run.
Qed.

Context (r : Roots) (c : CollectionName) (Hdec : decodes (Nebari.contents r (document_tree_name c))).
Abbreviation docs := (docs_of (Nebari.contents r (document_tree_name c))).

Lemma get_from_collection_ok d :
  reads (document_resource_name db c d) (DocumentAct DocGet) (get_from_collection db session r d c)
    (fun found => found = docs !! d).
Proof.
  unfold get_from_collection, reads, permit. rewrite check_permission_allowed.
  destruct (connection_allowed_to _ _ _); [|done]. simpl. unfold db_tx.
  destruct (roots_get r _ d) as [o|e|] eqn:Hg; simpl; [|by eexists|by eapply no_panic_get].
  apply roots_get_law in Hg as ->. rewrite docs_of_lookup.
  destruct (Nebari.contents r _ !! d) as [b|] eqn:Hb; simpl; [|done].
  destruct (Hdec d b Hb) as [doc Hdoc]. unfold read_document. by rewrite Hdoc.
Qed.

Lemma list_from_collection_ok ids sort limit :
  reads (collection_resource_name db c) (DocumentAct DocList) (list_from_collection db session r ids sort limit c)
    (fun found => found = (limited limit (scan_order docs ids (forwards sort))).*2).
Proof. apply reads_permitted, scan_values_ok, Hdec. Qed.

Lemma list_headers_from_collection_ok ids sort limit :
  reads (collection_resource_name db c) (DocumentAct DocListHeaders)
    (list_headers_from_collection db session r ids sort limit c)
    (fun found => found = header <$> (limited limit (scan_order docs ids (forwards sort))).*2).
Proof.
  apply reads_permitted, scan_values_map; [|apply Hdec].
  intros b. unfold read_document. by destruct (deserialize_document b).
Qed.

Lemma count_from_collection_ok ids :
  reads (collection_resource_name db c) (DocumentAct DocCount) (count_from_collection db session r ids c)
    (fun n => n = Z.of_nat (length (scan_order docs ids true))).
Proof.
  apply reads_permitted. unfold db_tx. destruct (roots_alive_keys r _ ids) as [n|e|] eqn:Hn; simpl.
  - apply roots_alive_keys_law in Hn as ->. f_equal.
    exact (Forall2_length _ _ _ (scan_order_omap deserialize_document _ ids true Hdec)).
  - by eexists.
  - by eapply no_panic_alive_keys.
Qed.

Lemma permit_each_spec ids :
  permit_each db session c ids =
  match filter (fun d => connection_allowed_to session (document_resource_name db c d)
                  (DatabaseAct (DocumentAct DocGet)) = false) ids with
  | [] => Ok tt
  | d :: _ => Err (CoreDenied (PermissionDenied (document_resource_name db c d) (DatabaseAct (DocumentAct DocGet))))
  end.
Proof.
  induction ids as [|d ids IH]; [done|]. rewrite filter_cons. simpl. unfold permit. rewrite check_permission_allowed.
  destruct (connection_allowed_to _ _ _) eqn:Ha; simpl; [by rewrite IH|done].
Qed.

Lemma get_multiple_from_collection_ok ids :
  (forall d, d ∈ ids -> connection_allowed_to session (document_resource_name db c d)
                          (DatabaseAct (DocumentAct DocGet)) = true) ->
  match get_multiple_from_collection db session r ids c with
  | Ok found => forall doc, doc ∈ found <-> exists d, d ∈ ids /\ docs !! d = Some doc
  | Err (CoreDb e) => engine_error e
  | _ => False
  end.
Proof.
  intros Hp. unfold get_multiple_from_collection. rewrite permit_each_spec.
  assert (filter (fun d => connection_allowed_to session (document_resource_name db c d)
    (DatabaseAct (DocumentAct DocGet)) = false) ids = []) as ->.
  { clear -Hp. induction ids as [|d ids IH]; [done|]. rewrite filter_cons, decide_False.
    - apply IH. intros; apply Hp. by right.
    - rewrite (Hp d ltac:(left)). done. }
  simpl. pose proof (get_multiple_ok deserialize_document r (document_tree_name c) ids Hdec) as Hg.
  destruct (db_tx (roots_get_multiple r _ _)) as [pairs|e|]; simpl in *; [|done..].
  fold read_document in Hg. change (collect read_document pairs.*2) with
    (collect (fun b => ok_or DbSerialization (deserialize_document b)) pairs.*2).
  by destruct (collect _ pairs.*2).
Qed.

End Documents.


(** ** View entries *)

Definition entries_of (en : gmap bytes bytes) : gmap bytes ViewEntry := omap deserialize_view_entry en.

Lemma entries_good_decodable v en : entries_good v en -> decodable deserialize_view_entry en.
Proof. intros Hg k b Hb. destruct (Hg k b Hb) as (e & He & _). by eexists. Qed.

Lemma scan_values_raw r tree range order limit :
  match scan_values r tree range order limit Ok with
  | Ok found => found = (limited limit (scan_order (Nebari.contents r tree) range (forwards order))).*2
  | Err e => engine_error e
  | Panic => False
  end.
Proof.
  pose proof (scan_values_ok Some r tree range order limit) as Hs.
  assert (omap Some (Nebari.contents r tree) = Nebari.contents r tree) as Ho
    by (apply map_eq; intros k; rewrite lookup_omap; by destruct (_ !! k)).
  rewrite Ho in Hs. apply Hs. intros k b _. by eexists.
Qed.

(** The keys a query selects. *)
Definition key_selected (key : option SerializedQueryKey) (k : bytes) : Prop :=
  match key with
  | None => True
  | Some (InRange range) => range_contains bytes_cmp range k = true
  | Some (Matches k') => k = k'
  | Some (Multiple ks) => k ∈ ks
  end.

Lemma scanned_entries_ok r tree range order limit :
  decodable deserialize_view_entry (Nebari.contents r tree) ->
  match (values ← scan_values r tree range order limit Ok;
         collect (fun value => ok_or DbSerialization (deserialize_view_entry value)) values) with
  | Ok es => es = (limited limit (scan_order (entries_of (Nebari.contents r tree)) range (forwards order))).*2
  | Err e => engine_error e
  | Panic => False
  end.
Proof.
  intros Hd. pose proof (scan_values_raw r tree range order limit) as Hs.
  destruct (scan_values r tree range order limit Ok) as [values|e|]; simpl; [|done..]. subst values.
  pose proof (scan_order_omap deserialize_view_entry _ range (forwards order) Hd) as Ho.
  apply (Forall2_limited _ limit) in Ho. erewrite (proj2 (collect_Ok_iff _ _ (limited limit _).*2)); [reflexivity|].
  apply Forall2_fmap. eapply Forall2_impl; [exact Ho|]. intros p q [_ Hpq]. simpl. by rewrite Hpq.
Qed.

(** What iterating over a view returns: for a range, or without a key, the
    entries in the order of their keys up to the limit; for one key or several
    keys the entries of those keys, whatever the order and the limit. *)
Lemma create_view_iterator_ok r tree key order limit :
  decodable deserialize_view_entry (Nebari.contents r tree) ->
  match create_view_iterator r tree key order limit with
  | Ok es =>
      match key with
      | None => es = (limited limit (scan_order (entries_of (Nebari.contents r tree)) from_range_full (forwards order))).*2
      | Some (InRange range) =>
          es = (limited limit (scan_order (entries_of (Nebari.contents r tree)) range (forwards order))).*2
      | Some (Matches k) => es = option_list (entries_of (Nebari.contents r tree) !! k)
      | Some (Multiple ks) => forall e, e ∈ es <-> exists k, k ∈ ks /\ entries_of (Nebari.contents r tree) !! k = Some e
      end
  | Err e => engine_error e
  | Panic => False
  end.
Proof.
  intros Hd. unfold create_view_iterator. destruct key as [[k|range|ks]|].
  - unfold db_tx. destruct (roots_get r tree k) as [o|e|] eqn:Hg; simpl; [|by eexists|by eapply no_panic_get].
    apply roots_get_law in Hg as ->. unfold entries_of. rewrite lookup_omap.
    destruct (Nebari.contents r tree !! k) as [b|] eqn:Hb; simpl; [|done].
    destruct (Hd k b Hb) as [e He]. by rewrite He.
  - by apply scanned_entries_ok.
  - pose proof (get_multiple_ok deserialize_view_entry r tree ks Hd) as Hg.
    by destruct (db_tx (roots_get_multiple r tree _)).
  - by apply scanned_entries_ok.
Qed.

Lemma from_range_full_all k : range_contains bytes_cmp from_range_full k = true.
Proof. done. Qed.

Lemma create_view_iterator_elem r tree key order es :
  decodable deserialize_view_entry (Nebari.contents r tree) ->
  create_view_iterator r tree key order None = Ok es ->
  forall e, e ∈ es <-> exists k, key_selected key k /\ entries_of (Nebari.contents r tree) !! k = Some e.
Proof.
  intros Hd Hrun e. pose proof (create_view_iterator_ok r tree key order None Hd) as Hok. rewrite Hrun in Hok.
  destruct key as [[k|range|ks]|]; cbn [key_selected limited] in *.
  - subst es. destruct (entries_of _ !! k) as [e'|] eqn:He; simpl.
    + rewrite list_elem_of_singleton. split; [intros ->; by exists k|]. intros (? & -> & ?). congruence.
    + split; [by intros ?%elem_of_nil|]. intros (? & -> & ?). congruence.
  - subst es. rewrite list_elem_of_fmap. split.
    + intros ([k e'] & -> & [? ?]%scan_order_elem). by exists k.
    + intros (k & Hk & He). exists (k, e). split; [done|]. by apply scan_order_elem.
  - apply Hok.
  - subst es. rewrite list_elem_of_fmap. split.
    + intros ([k e'] & -> & [? ?]%scan_order_elem). by exists k.
    + intros (k & Hk & He). exists (k, e). split; [done|]. by apply scan_order_elem.
Qed.

(** Reading a collection agrees with the stored documents.  Retrieving a
    document returns the one stored under the id; a list returns the documents
    of the range in the order of their ids, ascending or descending, up to the
    limit; the list of headers the headers of those documents, and the count
    their number.  Each operation checks its permission first and otherwise
    fails only with an error of the storage engine. *)
Theorem documents_read db session r c d ids sort limit :
  decodes (Nebari.contents r (document_tree_name c)) ->
  let docs := docs_of (Nebari.contents r (document_tree_name c)) in
  reads session (document_resource_name db c d) (DocumentAct DocGet) (get_from_collection db session r d c)
    (fun found => found = docs !! d) /\
  reads session (collection_resource_name db c) (DocumentAct DocList) (list_from_collection db session r ids sort limit c)
    (fun found => found = (limited limit (scan_order docs ids (forwards sort))).*2) /\
  reads session (collection_resource_name db c) (DocumentAct DocListHeaders)
    (list_headers_from_collection db session r ids sort limit c)
    (fun found => found = header <$> (limited limit (scan_order docs ids (forwards sort))).*2) /\
  reads session (collection_resource_name db c) (DocumentAct DocCount) (count_from_collection db session r ids c)
    (fun n => n = Z.of_nat (length (scan_order docs ids true))).
Proof.
  intros Hd docs. split_and!; [by apply get_from_collection_ok|by apply list_from_collection_ok
    |by apply list_headers_from_collection_ok|by apply count_from_collection_ok].
Qed.

(** ** The transaction log *)

Definition has_data (x : Z * option bytes) : Prop := is_Some x.2.

Lemma log_scan_collect n l entries :
  Z.of_nat (length entries) < n ->
  log_scan_spec l (collect_entry n) entries = entries ++ take (Z.to_nat n - length entries) (filter has_data l).
Proof.
  revert entries. induction l as [|x l IH]; intros entries Hn; cbn [log_scan_spec].
  { by rewrite filter_nil, take_nil, app_nil_r. }
  rewrite filter_cons. unfold collect_entry at 1, has_data at 2.
  case_bool_decide as Hx; [rewrite decide_True by done|rewrite decide_False by done].
  - destruct (Z.ltb_spec (Z.of_nat (length (entries ++ [x]))) n) as [Hlt|Hge].
    + rewrite IH by done. rewrite length_app in *. simpl in *.
      replace (Z.to_nat n - length entries)%nat with (S (Z.to_nat n - (length entries + 1)))%nat by lia.
      by rewrite <- app_assoc.
    + rewrite length_app in Hge. simpl in Hge.
      replace (Z.to_nat n - length entries)%nat with 1%nat by lia. cbn [take]. by destruct (filter has_data l).
  - destruct (Z.ltb_spec (Z.of_nat (length entries)) n); [by apply IH|lia].
Qed.

Lemma read_entries_ok l found :
  collect read_entry l = Ok found -> Forall has_data l ->
  Forall2 (fun x e => executed_id e = x.1 /\ exists data, x.2 = Some data /\
    deserialize_executed_transaction_changes data = Ok (executed_changes e)) l (omap (M:=list) (fun x => x) found).
Proof.
  intros Hc%collect_Ok_iff. induction Hc as [|[i o] y l found Hx Hl IH]; intros Hall; [constructor|].
  apply list.Forall_cons in Hall as [[data Hd] Hall]. simpl in Hd. subst o. unfold read_entry in Hx. simpl in Hx. inv_res.
  simpl. constructor; [|by apply IH]. simpl. eauto.
Qed.

(** The list of executed transactions holds, in the order of their ids,
    the first transactions of the log with recorded changes from the id asked
    for, as many as asked for (100 when nothing is asked for) and never more
    than 1000, each with the changes recorded for it. *)
Theorem executed_transactions_listed db session r starting_id result_limit found :
  list_executed_transactions db session r starting_id result_limit = Ok found ->
  let n := Z.min (default 100 result_limit) 1000 in
  let range := match starting_id with Some i => from_range_from i | None => from_range_full end in
  Forall2 (fun x e => executed_id e = x.1 /\ exists data, x.2 = Some data /\
      deserialize_executed_transaction_changes data = Ok (executed_changes e))
    (take (Z.to_nat n) (filter has_data (filter (fun x => range_contains Z.compare range x.1 = true) (tx_log r)))) found.
Proof.
  unfold list_executed_transactions, LIST_TRANSACTIONS_DEFAULT_RESULT_COUNT, LIST_TRANSACTIONS_MAX_RESULTS. intros Hrun.
  inv_res. cbv zeta. set (n := Z.min _ _) in *. destruct (Z.ltb_spec 0 n) as [Hn|Hn].
  2: { inv_res. replace (Z.to_nat n) with O by lia. constructor. }
  unfold db_tx in Hrun. inv_res.
  match goal with Hs : transactions_scan _ _ _ _ = _ |- _ => apply transactions_scan_law in Hs as -> end.
  match goal with Hc : collect _ _ = _ |- _ => rename Hc into Hcol end.
  rewrite log_scan_collect in Hcol by (simpl; lia). simpl in Hcol. rewrite Nat.sub_0_r in Hcol.
  apply read_entries_ok; [done|]. apply Forall_take, List.Forall_forall.
  by intros y [Hy _]%list_elem_of_In%list_elem_of_filter.
Qed.

End Reads.

(** ** Examples *)

Module QueryExamples.
Import MemNebari StoreDemo.

Definition note (d c : bytes) : bytes := bits (encode (document_new d c)).
Definition three_notes : Roots := MkRoots
  (<[document_tree_name notes := <[[1] := note [1] [7]]> (<[[2] := note [2] [8]]> (<[[3] := note [3] [7]]> ∅))]> ∅) true [].

Lemma three_notes_decode : decodes (Nebari.contents three_notes (document_tree_name notes)).
Proof.
  assert (Nebari.contents three_notes (document_tree_name notes) =
    <[[1] := note [1] [7]]> (<[[2] := note [2] [8]]> (<[[3] := note [3] [7]]> ∅))) as -> by (vm_compute; reflexivity).
  assert (forall d c, is_Some (deserialize_document (note d c))) as Hn.
  { intros d c. unfold deserialize_document, note. simpl. rewrite unbits_bits, decode_encode. by eexists. }
  intros d b. rewrite !lookup_insert_Some, lookup_empty. naive_solver.
Qed.

Lemma documents_read_witness :
  list_from_collection [] None three_notes (from_range_from [2]) Descending (Some 1) notes = Ok [document_new [3] [7]].
Proof.
  destruct (documents_read [] None three_notes notes [2] (from_range_from [2]) Descending (Some 1) three_notes_decode)
    as (_ & Hlist & _). unfold reads in Hlist. simpl connection_allowed_to in Hlist. cbv iota in Hlist.
  assert (is_ok (list_from_collection [] None three_notes (from_range_from [2]) Descending (Some 1) notes) = true) as Hok
    by (vm_compute; reflexivity).
  destruct (list_from_collection _ _ _ _ _ _ _) as [found|e|]; [|done..]. rewrite Hlist. f_equal.
Defined.

Lemma executed_transactions_listed_witness :
  let log : Roots := MkRoots ∅ true [Some [VERSION_V1]; None; Some [VERSION_V1]] in
  exists found, list_executed_transactions [] None log (Some 1) None = Ok found /\ executed_id <$> found = [2].
Proof.
  intros log. assert (is_ok (list_executed_transactions [] None log (Some 1) None) = true) as Hok by (vm_compute; reflexivity).
  destruct (list_executed_transactions [] None log (Some 1) None) as [found|e|] eqn:Hrun; [|done..].
  exists found. split; [done|]. pose proof (executed_transactions_listed [] None log (Some 1) None found Hrun) as Hall.
  cbv zeta in Hall.
  match type of Hall with Forall2 ?R ?l ?f =>
    assert (Forall2 R [(2, Some [VERSION_V1])] f) as Hone by exact Hall end.
  inversion Hone as [|? e ? l [He _] Hnil]; subst. inversion Hnil; subst. simpl. by rewrite He.
Defined.
End QueryExamples.
