(* ===== verification/IntegrityTheorems.v ===== *)
(** * The integrity scan establishes the view's invariant

    Whatever the trees of a view hold, a scan that succeeds leaves a store in
    which every document that is not indexed as the view maps it is recorded as
    invalidated.  A document inserted while a scan runs can escape it. *)

From Stdlib Require Import ZArith Lia String Sorting.Sorted.
From stdpp Require Import base list option numbers gmap sorting.
From S2P Require Import Prelude Bytes Utf8 Key Range Nebari Document Names Changes Schema Permissions View Query Integrity Transaction StoreDemo ViewLaws ViewBatch ViewTheorems QueryLaws.

Local Open Scope Z_scope.

(** ** The documents of a tree *)

Lemma scan_keys {E} (l : list (bytes * bytes)) ids :
  scan_spec l (fun key ids => (ScanSkip, ids ++ [key])) (fun _ _ => st_lift (@Panic E unit)) ids tt = Ok (ids ++ l.*1, tt).
Proof.
  revert ids. induction l as [|[k b] l IH]; intros ids; csimpl; [by rewrite app_nil_r|].
  by rewrite IH, <- app_assoc.
Qed.

Section Keys.
Context `{NebariLaws}.

Lemma collect_db_ids ids ids' :
  collect (fun key => map_err DbDocumentId (document_id_try_from key)) ids = Ok ids' -> ids' = ids.
Proof.
  intros Hc%collect_Ok_iff. induction Hc as [|x y l l' Hx Hl IH]; [done|]. unfold document_id_try_from in Hx.
  destruct (_ <=? _); simpl in Hx; inv_res. by rewrite IH.
Qed.

Lemma tree_keys_ok r t s : tree_keys r t = Ok s -> s = dom (Nebari.contents r t).
Proof.
  unfold tree_keys. intros Hrun. inv_res. destruct x as [ids []]. inv_res.
  match goal with Hs : roots_scan_range _ _ _ _ _ _ _ _ = _ |- _ => apply roots_scan_range_law in Hs; rewrite scan_keys in Hs;
    cbn [app] in Hs; apply Ok_inj, (f_equal fst) in Hs; cbn [fst] in Hs; rewrite <- Hs in * end.
  match goal with Hc : collect _ _ = _ |- _ => apply collect_db_ids in Hc as -> end.
  apply set_eq. intros k. rewrite elem_of_list_to_set, list_elem_of_fmap, elem_of_dom. split.
  - intros ([k' b] & -> & [Hb _]%scan_order_elem). by exists b.
  - intros [b Hb]. exists (k, b). split; [done|]. by apply scan_order_elem.
Qed.

End Keys.

(** ** Parts of the scan *)

Section Scan.
Context `{NebariLaws} `{DocumentCodec} `{ViewCodec} `{!ViewCodecLaws _} `{VersionCodec} `{!VersionCodecLaws _}.
Context (v : View) (Hwf : view_wf (view_name v)) (Hcwf : qualified_wf (view_collection v)).

Abbreviation invalidated_tree := (view_invalidated_docs_tree_name (view_name v)).
Abbreviation document_map_tree := (view_document_map_tree_name (view_name v)).
Abbreviation documents_tree := (document_tree_name (view_collection v)).
Abbreviation entries_tree := (view_entries_tree_name (view_name v)).
Abbreviation versions_tree := (view_versions_tree_name (view_collection v)).
Abbreviation tree r t := (Nebari.contents r t).

(** The version stored for the view is that of its definition. *)
Definition version_current (r : Roots) : bool :=
  is_current (stored_version (tree r versions_tree !! view_version_key v)) (Schema.version v).

Lemma cleanup_ok version view r res r' :
  cleanup version view r = (res, r') ->
  (forall t, t <> view_omitted_tree_name view -> tree r' t = tree r t) /\ res <> Panic.
Proof.
  unfold cleanup. destruct (_ <? 2); [|by intros [= <- <-]]. rewrite (stm_bind_Ok st_get _ r r r) by done.
  unfold db_tx. destruct (delete_tree r _) as [r1|e|] eqn:Hd; intros [= <- <-]; [|done|].
  - apply delete_tree_law in Hd as [Hc _]. split; [|done]. intros t Ht. rewrite Hc. by rewrite decide_False.
  - by apply no_panic_delete_tree in Hd.
Qed.

Lemma scan_check_ok r res r' :
  scan_check v r = (res, r') ->
  (forall t, t <> view_omitted_tree_name (view_name v) -> tree r' t = tree r t) /\
  match res with
  | Ok None => version_current r = true
  | Ok (Some missing) => version_current r = false /\ missing = dom (tree r documents_tree)
  | _ => True
  end.
Proof.
  unfold scan_check. rewrite (stm_bind_Ok st_get _ r r r) by done. unfold db_tx.
  destruct (roots_get r versions_tree _) as [value|e|] eqn:Hg; [|by intros [= <- <-]..].
  rewrite (stm_bind_Ok _ _ r value r) by done. apply roots_get_law in Hg as ->.
  cbv zeta. set (version := stored_version _).
  destruct (cleanup version (view_name v) r) as [res1 r1] eqn:Hc. rewrite (stm_bind_run _ _ _ _ _ Hc).
  apply cleanup_ok in Hc as [Hf _]. destruct res1 as [[]|e|]; [|by intros [= <- <-]..].
  rewrite (stm_bind_Ok st_get _ r1 r1 r1) by done. unfold version_current. fold version.
  destruct (is_current version _) eqn:Hcur; [by intros [= <- <-]|].
  destruct (tree_keys r1 documents_tree) as [s|e|] eqn:Hk; [|by intros [= <- <-]..].
  intros [= <- <-]. split; [done|]. apply tree_keys_ok in Hk as ->. split; [done|]. rewrite Hf; [done|].
  intros Heq. by apply (tree_name_inj (TDocuments _) (TOmitted _)) in Heq.
Qed.

Lemma remove_tree_ok t r res r' :
  remove_tree t r = (res, r') ->
  (forall t', t' <> t -> tree r' t' = tree r t') /\ (res = Ok tt -> tree r' t = ∅).
Proof.
  unfold remove_tree. rewrite (stm_bind_Ok st_get _ r r r) by done. unfold db_tx.
  destruct (delete_tree r t) as [r1|e|] eqn:Hd; intros [= <- <-]; [|done..].
  apply delete_tree_law in Hd as [Hc _]. split.
  - intros t' Ht. rewrite Hc. by rewrite decide_False.
  - intros _. rewrite Hc. by rewrite decide_True.
Qed.

Lemma modify_set (ks : list bytes) (m m' : gmap bytes bytes) u :
  modify_spec (E := nebari_error) ks (fun _ _ => mret (OpSet [])) m tt = Ok (m', u) ->
  forall k, m' !! k = if decide (k ∈ ks) then Some [] else m !! k.
Proof.
  revert m. induction ks as [|k0 ks IH]; intros m Hrun k; simpl in Hrun.
  { injection Hrun as <- <-. by rewrite decide_False by apply not_elem_of_nil. }
  rewrite (IH _ Hrun k). destruct (decide (k ∈ ks)) as [Hk|Hk].
  - by rewrite decide_True by (by right).
  - destruct (decide (k = k0)) as [->|Hne].
    + rewrite lookup_insert_eq, decide_True; [done|left].
    + rewrite lookup_insert_ne, decide_False by (done || rewrite elem_of_cons; naive_solver). done.
Qed.

Definition rebuilt_trees : list str := [invalidated_tree; entries_tree; document_map_tree; versions_tree].

Lemma rebuilt_trees_NoDup : NoDup rebuilt_trees.
Proof.
  apply (tree_names_NoDup [TInvalidated (view_name v); TEntries (view_name v);
    TDocumentMap (view_name v); TVersions (view_collection v)]).
  - repeat constructor; rewrite ?elem_of_cons, ?elem_of_nil; naive_solver.
  - repeat constructor; (apply Hwf || apply Hcwf).
Qed.

(** What a rebuild leaves behind. *)
Record rebuilt (missing : gset bytes) (r r' : Roots) : Prop := {
  rebuilt_invalidated d : tree r' invalidated_tree !! d = if decide (d ∈ missing) then Some [] else None;
  rebuilt_entries : tree r' entries_tree = ∅;
  rebuilt_document_map : tree r' document_map_tree = ∅;
  rebuilt_version : exists b, version_to_vec (current_for (Schema.version v)) = Ok b /\
    tree r' versions_tree = <[view_version_key v := b]> (tree r versions_tree)
}.

Lemma scan_rebuild_ok missing r res r' :
  scan_rebuild v missing r = (res, r') ->
  (forall t, t ∉ rebuilt_trees -> tree r' t = tree r t) /\
  (res = Ok tt -> rebuilt missing r r') /\ (res <> Ok tt -> tree r' versions_tree = tree r versions_tree).
Proof.
  pose proof rebuilt_trees_NoDup as Hn. unfold scan_rebuild.
  assert (forall t, t ∉ rebuilt_trees -> t <> invalidated_tree /\ t <> entries_tree /\ t <> document_map_tree /\
    t <> versions_tree) as Hout by (unfold rebuilt_trees; set_solver).
  assert (versions_tree <> invalidated_tree /\ versions_tree <> entries_tree /\ versions_tree <> document_map_tree /\
    invalidated_tree <> entries_tree /\ invalidated_tree <> document_map_tree /\ entries_tree <> document_map_tree)
    as (N1 & N2 & N3 & N4 & N5 & N6) by (unfold rebuilt_trees in Hn; rewrite !NoDup_cons in Hn; set_solver).
  destruct (remove_tree invalidated_tree r) as [res1 r1] eqn:E1. rewrite (stm_bind_run _ _ _ _ _ E1).
  apply remove_tree_ok in E1 as [F1 D1].
  destruct res1 as [[]|e|]; [|intros [= <- <-]; split_and!; [naive_solver|done|auto]..].
  destruct (remove_tree entries_tree r1) as [res2 r2] eqn:E2. rewrite (stm_bind_run _ _ _ _ _ E2).
  apply remove_tree_ok in E2 as [F2 D2].
  destruct res2 as [[]|e|];
    [|intros [= <- <-]; (split_and!; [intros t (? & ? & ? & ?)%Hout; rewrite F2, F1; done|done|rewrite F2, F1; done])..].
  destruct (remove_tree document_map_tree r2) as [res3 r3] eqn:E3. rewrite (stm_bind_run _ _ _ _ _ E3).
  apply remove_tree_ok in E3 as [F3 D3].
  assert (forall t, t ∉ rebuilt_trees -> tree r3 t = tree r t) as Hframe
    by (intros t (? & ? & ? & ?)%Hout; by rewrite F3, F2, F1).
  assert (tree r3 versions_tree = tree r versions_tree) as Hver by (by rewrite F3, F2, F1).
  destruct res3 as [[]|e|]; [|by intros [= <- <-]..]. specialize (D1 eq_refl). specialize (D2 eq_refl). specialize (D3 eq_refl).
  rewrite (stm_bind_Ok st_get _ r3 r3 r3) by done. unfold db_tx.
  destruct (transaction r3 _) as [tx0|e|] eqn:Htx; [|by intros [= <- <-]..]. rewrite (stm_bind_Ok _ _ r3 tx0 r3) by done.
  destruct (version_to_vec _) as [b|e|] eqn:Hb; [|by intros [= <- <-]..]. rewrite (stm_bind_Ok _ _ r3 b r3) by done.
  destruct (tx_set tx0 _ _ _) as [tx1|e|] eqn:Hset; [|by intros [= <- <-]..]. rewrite (stm_bind_Ok _ _ r3 tx1 r3) by done.
  destruct (tx_modify tx1 0 _ _ _) as [[tx2 u]|e|] eqn:Hm; [|by intros [= <- <-]..].
  rewrite (stm_bind_Ok _ _ r3 (tx2, u) r3) by done.
  destruct (tx_commit r3 tx2) as [r4|e|] eqn:Hcommit; [|by intros [= <- <-]..]. rewrite (stm_bind_Ok _ _ r3 r4 r3) by done.
  intros [= <- <-]. apply transaction_law in Htx as (Ht0 & _ & Hc0). apply tx_set_law in Hset as (Hc1 & Ht1 & _ & Hf1).
  apply tx_modify_law in Hm as (Hm & Ht2 & _ & Hf2); [|apply btree_set_iter_sorted].
  rewrite Hf1, (Hc0 0%nat _ eq_refl) in Hm by done. rewrite F3, F2, D1 in Hm by done.
  pose proof (modify_set _ _ _ _ Hm) as Hinv.
  apply tx_commit_law in Hcommit as [Hc4 Hf4].
  2: { rewrite Ht2, Ht1, Ht0. repeat constructor; set_solver. }
  rewrite Ht2, Ht1, Ht0 in Hc4, Hf4. split_and!; [|intros _|done].
  { intros t Ht. rewrite Hf4; [by apply Hframe|]. apply Hout in Ht. set_solver. }
  split.
  - intros d. rewrite (Hc4 0%nat _ eq_refl), Hinv, lookup_empty.
    by rewrite (decide_ext (d ∈ btree_set_iter missing) (d ∈ missing)) by apply elem_of_btree_set_iter.
  - rewrite Hf4 by set_solver. by rewrite F3.
  - rewrite Hf4 by set_solver. done.
  - exists b. split; [done|]. rewrite (Hc4 1%nat _ eq_refl), Hf2 by done. by rewrite Hc1, (Hc0 1%nat _ eq_refl), Hver.
Qed.

(** A rebuilt view has nothing indexed and every document invalidated. *)
Lemma rebuilt_synced missing r r' :
  rebuilt missing r r' -> stored_under_id (tree r' documents_tree) -> dom (tree r' documents_tree) ⊆ missing ->
  view_synced v r'.
Proof.
  intros [Hi He Hd _] Hid Hsub. split; rewrite ?He, ?Hd.
  - split; [intros d k; unfold doc_keys, entry_value; rewrite !lookup_empty; simpl|].
    + split; [by intros ?%not_elem_of_empty|by intros []].
    + intros k. rewrite lookup_empty. constructor.
  - done.
  - intros d Hdn _ k. rewrite Hi in Hdn. case_decide as Hin; [done|].
    assert (tree r' documents_tree !! d = None) as Hnone by (apply not_elem_of_dom; set_solver).
    unfold entry_value, indexed. by rewrite Hnone, lookup_empty.
  - split; [intros _ k; rewrite lookup_empty; simpl; lia|]. intros k b. by rewrite lookup_empty.
Qed.

Lemma rebuilt_current missing r r' : rebuilt missing r r' -> version_current r' = true.
Proof.
  intros [_ _ _ (b & Hb & Hv)]. unfold version_current. rewrite Hv, lookup_insert_eq. unfold stored_version. simpl.
  unfold version_to_vec in Hb. inv_res. unfold version_from_bytes. rewrite (pot_version_roundtrip _ _ Hb). simpl.
  unfold is_current, current_for. simpl. by rewrite !Z.eqb_refl.
Qed.

Lemma view_synced_frame r r' :
  view_synced v r -> (forall t, t ∈ view_trees v -> tree r' t = tree r t) -> view_synced v r'.
Proof.
  intros Hs Ht. unfold view_trees in Ht.
  assert (tree r' invalidated_tree = tree r invalidated_tree) as E1 by (apply Ht; set_solver).
  assert (tree r' document_map_tree = tree r document_map_tree) as E2 by (apply Ht; set_solver).
  assert (tree r' documents_tree = tree r documents_tree) as E3 by (apply Ht; set_solver).
  assert (tree r' entries_tree = tree r entries_tree) as E4 by (apply Ht; set_solver).
  destruct Hs. split; rewrite ?E1, ?E2, ?E3, ?E4; done.
Qed.

(** A view whose stored version is current is in step with the documents. *)
Definition view_disk_ok (r : Roots) : Prop := version_current r = true -> view_synced v r.

(** The trees a scan may change. *)
Definition scanned_kinds : list TreeKind :=
  [TInvalidated (view_name v); TEntries (view_name v); TDocumentMap (view_name v);
   TVersions (view_collection v); TOmitted (view_name v)].

Lemma not_scanned k :
  tree_kind_wf k -> k ∉ scanned_kinds ->
  tree_name k <> view_omitted_tree_name (view_name v) /\ tree_name k ∉ rebuilt_trees.
Proof.
  unfold scanned_kinds, rebuilt_trees. intros Hk Hn.
  assert (forall k', tree_kind_wf k' -> k <> k' -> tree_name k <> tree_name k') as Hne
    by (intros k' Hk' Hkk Heq; by apply Hkk, tree_name_inj).
  split; [apply (Hne (TOmitted (view_name v))); set_solver|].
  pose proof (Hne (TInvalidated (view_name v))). pose proof (Hne (TEntries (view_name v))).
  pose proof (Hne (TDocumentMap (view_name v))). pose proof (Hne (TVersions (view_collection v))).
  cbn [tree_name tree_kind_wf] in *. set_solver.
Qed.

Lemma scan_check_frame r res r' :
  scan_check v r = (res, r') ->
  version_current r' = version_current r /\ (view_synced v r -> view_synced v r') /\
  (forall k, tree_kind_wf k -> k ∉ scanned_kinds -> tree r' (tree_name k) = tree r (tree_name k)).
Proof.
  intros [Hf _]%scan_check_ok.
  assert (forall k, tree_kind_wf k -> k <> TOmitted (view_name v) -> tree r' (tree_name k) = tree r (tree_name k)) as Hk.
  { intros k Hk Hne. apply Hf. intros Heq. by apply (tree_name_inj _ (TOmitted _)) in Heq. }
  split_and!.
  - pose proof (Hk (TVersions (view_collection v)) Hcwf ltac:(done)) as E. cbn [tree_name] in E.
    unfold version_current. by rewrite E.
  - intros Hs. apply (view_synced_frame r); [done|]. intros t Ht. unfold view_trees in Ht.
    repeat (apply elem_of_cons in Ht as [->|Ht]); [..|by apply elem_of_nil in Ht];
      [by apply (Hk (TInvalidated _))|by apply (Hk (TDocumentMap _))|by apply (Hk (TDocuments _))|by apply (Hk (TEntries _))].
  - intros k Hkw Hn. apply Hk; [done|]. unfold scanned_kinds in Hn. set_solver.
Qed.

Lemma integrity_scan_ok r res r' :
  stored_under_id (tree r documents_tree) -> view_disk_ok r -> integrity_scan v r = (res, r') ->
  (view_disk_ok r' /\
   forall k, tree_kind_wf k -> k ∉ scanned_kinds -> tree r' (tree_name k) = tree r (tree_name k)) /\
  (forall rebuild, res = Ok rebuild ->
     view_synced v r' /\ version_current r' = true /\ rebuild = negb (version_current r)).
Proof.
  intros Hid Hdisk. unfold integrity_scan, view_disk_ok in *.
  destruct (scan_check v r) as [res1 r1] eqn:Hc. rewrite (stm_bind_run _ _ _ _ _ Hc).
  pose proof (scan_check_frame _ _ _ Hc) as (Hver & Hsync & Hk). apply scan_check_ok in Hc as [_ Hres].
  destruct res1 as [[missing|]|e|].
  2: { intros [= <- <-]. rewrite Hver, Hres in *. split; [auto|]. intros rebuild [= <-]. auto. }
  2, 3: intros [= <- <-]; rewrite Hver; split; [auto|]; discriminate.
  destruct Hres as [Hold ->]. destruct (scan_rebuild v (dom (tree r documents_tree)) r1) as [res2 r2] eqn:Hr.
  rewrite (stm_bind_run _ _ _ _ _ Hr). apply scan_rebuild_ok in Hr as (Hf & Hok & Herr).
  assert (forall k, tree_kind_wf k -> k ∉ scanned_kinds -> tree r2 (tree_name k) = tree r (tree_name k)) as Hk2.
  { intros k Hkw Hn. rewrite Hf, Hk; [done..|]. by apply not_scanned. }
  destruct res2 as [[]|e|].
  2, 3: intros [= <- <-]; (split; [split; [|done]|discriminate]); intros Hcur; exfalso;
    unfold version_current in Hcur, Hver, Hold; rewrite Herr, Hver in Hcur by done; congruence.
  intros [= <- <-]. specialize (Hok eq_refl).
  assert (tree r2 documents_tree = tree r documents_tree) as Hdocs
    by (apply (Hk2 (TDocuments (view_collection v))); [done|unfold scanned_kinds; set_solver]).
  assert (view_synced v r2) as Hs by (apply (rebuilt_synced _ _ _ Hok); by rewrite Hdocs).
  split; [done|]. intros rebuild [= <-]. split_and!; [done|by eapply rebuilt_current|by rewrite Hold].
Qed.

(** The versions of other views are those they were. *)
Lemma integrity_scan_versions r res r' n :
  integrity_scan v r = (res, r') -> n <> view_version_key v -> tree r' versions_tree !! n = tree r versions_tree !! n.
Proof.
  unfold integrity_scan. destruct (scan_check v r) as [res1 r1] eqn:Hc. rewrite (stm_bind_run _ _ _ _ _ Hc).
  apply scan_check_ok in Hc as [Hf _]. intros Hrun Hn.
  assert (tree r1 versions_tree = tree r versions_tree) as Hv1.
  { apply Hf. intros Heq. by apply (tree_name_inj (TVersions _) (TOmitted _)) in Heq. }
  destruct res1 as [[missing|]|e|]; [|by injection Hrun as _ <-; rewrite Hv1..].
  destruct (scan_rebuild v missing r1) as [res2 r2] eqn:Hr. rewrite (stm_bind_run _ _ _ _ _ Hr) in Hrun.
  apply scan_rebuild_ok in Hr as (_ & Hok & Herr).
  destruct res2 as [[]|e|]; injection Hrun as _ <-; [|by rewrite Herr, Hv1..].
  destruct (rebuilt_version _ _ _ (Hok eq_refl)) as (b & _ & ->). by rewrite lookup_insert_ne, Hv1.
Qed.

(** C32: the integrity scan establishes the invariant of a view.  A view whose
    stored version is that of its definition is in step with the documents, and
    every outcome of the scan, errors included, leaves that so and touches no
    tree of another view or collection; when the scan succeeds the version is
    current and every document that is not indexed as the view maps it is
    recorded as invalidated, whatever the trees of the view held before.  The
    view is rebuilt exactly when its version was not current. *)
Theorem integrity_scan_establishes r res r' :
  stored_under_id (tree r documents_tree) -> view_disk_ok r -> integrity_scan v r = (res, r') ->
  (view_disk_ok r' /\
   forall k, tree_kind_wf k -> k ∉ scanned_kinds -> tree r' (tree_name k) = tree r (tree_name k)) /\
  (forall rebuild, res = Ok rebuild ->
     view_synced v r' /\ version_current r' = true /\ rebuild = negb (version_current r)).
Proof. apply integrity_scan_ok. Qed.

End Scan.

(** ** Examples *)

Module IntegrityExamples.
Import MemNebari StoreDemo ViewExamples.

(** One note and no trace of the view. *)
Definition fresh : Roots := MkRoots (<[document_tree_name notes := <[[1] := note [1] [7]]> ∅]> ∅) true [].

Lemma fresh_documents : stored_under_id (Nebari.contents fresh (document_tree_name notes)).
Proof.
  assert (Nebari.contents fresh (document_tree_name notes) = <[[1] := note [1] [7]]> ∅) as -> by (vm_compute; reflexivity).
  intros d b doc. rewrite lookup_insert_Some, lookup_empty. intros [[<- <-]|[_ [=]]].
  assert (deserialize_document (note [1] [7]) = Some (document_new [1] [7])) as -> by (vm_compute; reflexivity).
  by intros [= <-].
Qed.

Definition scanned : Roots := (integrity_scan by_length fresh).2.

Lemma integrity_scan_establishes_witness :
  version_current by_length fresh = false /\ view_synced by_length scanned /\ version_current by_length scanned = true.
Proof.
  assert (version_current by_length fresh = false) as Hold by (vm_compute; reflexivity).
  assert (view_disk_ok by_length fresh) as Hdisk by (intros Hcur; congruence).
  assert (integrity_scan by_length fresh = (Ok true, scanned)) as Hrun.
  { unfold scanned. assert (res_ok (integrity_scan by_length fresh).1 = Some true) as Hres%res_ok_Some
      by (vm_compute; reflexivity).
    destruct (integrity_scan by_length fresh) as [res r']. simpl in *. by rewrite Hres. }
  destruct (integrity_scan_establishes by_length ltac:(repeat split) ltac:(repeat split) fresh (Ok true) scanned
    fresh_documents Hdisk Hrun) as [_ Hok].
  destruct (Hok true eq_refl) as (Hs & Hcur & _). by split_and!.
Defined.

(** The note inserted between the two parts of a scan. *)
Definition checked : res DbError (option (gset bytes)) * Roots := scan_check by_length fresh.
Definition inserted := apply_transaction_to_roots (fun l => l) demo_schema [op_insert notes (Some [2]) [8; 8]] checked.2.
Definition raced : res DbError unit * Roots := scan_rebuild by_length {[ [1] ]} inserted.2.
Definition remapped : res DbError unit * Roots := map_view (fun l => l) by_length raced.2.

(** A document inserted while a scan of a lazy view runs can be lost from
    the view: the scan lists the documents and then deletes the record of
    invalidated documents, with it the record of a document inserted in
    between.  After the scan and a successful mapping the view counts as
    current and nothing is invalidated, but the document is not indexed. *)
Theorem concurrent_insert_escapes_scan :
  res_ok checked.1 = Some (Some {[ [1] ]}) /\ is_ok inserted.1 = true /\
  is_ok raced.1 = true /\ is_ok remapped.1 = true /\
  version_current by_length remapped.2 = true /\
  Nebari.contents remapped.2 (view_invalidated_docs_tree_name (view_name by_length)) = ∅ /\
  is_Some (indexed by_length (Nebari.contents remapped.2 (document_tree_name notes) !! [2]) [2]) /\
  entry_value (Nebari.contents remapped.2 (view_entries_tree_name (view_name by_length))) [2] [2] = None.
Proof.
  split_and!; try (vm_compute; reflexivity).
  match goal with |- is_Some ?x => destruct x as [p|] eqn:E; [by exists p|] end. vm_compute in E. discriminate E.
Qed.

End IntegrityExamples.
