(* ===== verification/TasksLaws.v ===== *)
(** * Laws of the jobs of a view

    The jobs only delete trees and commit transactions, so the transaction id
    never decreases; what scanning and mapping leave in the store and in the
    statuses. *)

From Stdlib Require Import ZArith Lia Sorting.Sorted.
From stdpp Require Import base list option numbers gmap sorting.
From S2P Require Import Prelude Bytes Key Range Nebari Document Names Changes Schema Permissions View Query Integrity Jobs Transaction Tasks ViewLaws ViewBatch ViewTheorems QueryLaws IntegrityTheorems.

Local Open Scope Z_scope.

(** ** How a store evolves *)

Section Evolves.
Context `{NebariLaws}.

Inductive evolves : Roots -> Roots -> Prop :=
| evolves_refl r : evolves r r
| evolves_delete r t r' r'' : delete_tree r t = Ok r' -> evolves r' r'' -> evolves r r''
| evolves_commit r tx r' r'' : tx_commit r tx = Ok r' -> evolves r' r'' -> evolves r r''.

Lemma evolves_trans r1 r2 r3 : evolves r1 r2 -> evolves r2 r3 -> evolves r1 r3.
Proof. induction 1; eauto using evolves. Qed.

(** The transaction id does not decrease. *)
Definition id_le (r r' : Roots) : Prop :=
  forall m, current_transaction_id r = Some m -> exists n, current_transaction_id r' = Some n /\ m <= n.
(** A store without transactions holds nothing. *)
Definition none_empty (r : Roots) : Prop :=
  current_transaction_id r = None -> forall t, Nebari.contents r t = ∅.

Lemma evolves_id r r' : evolves r r' -> id_le r r' /\ (none_empty r -> none_empty r').
Proof.
  induction 1 as [r|r t r1 r2 Hd _ [IH1 IH2]|r tx r1 r2 Hc _ [IH1 IH2]].
  - split; [|done]. intros m Hm. by exists m.
  - apply delete_tree_law in Hd as (Hcont & Hid & _). split.
    + intros m Hm. apply IH1. by rewrite Hid.
    + intros Hn. apply IH2. intros Hnone t'. rewrite Hid in Hnone. rewrite Hcont. case_decide; [done|by apply Hn].
  - apply tx_commit_id in Hc as (n & Hn & _ & Hlt). split.
    + intros m Hm. destruct (IH1 n Hn) as (k & Hk & Hle). exists k. split; [done|]. specialize (Hlt m Hm). lia.
    + intros _. apply IH2. intros Hnone. congruence.
Qed.

(** A computation that only deletes trees and commits transactions. *)
Definition evolving {E A} (m : stm Roots E A) : Prop := forall r res r', m r = (res, r') -> evolves r r'.

Lemma evolving_bind {E A B} (m : stm Roots E A) (f : A -> stm Roots E B) :
  evolving m -> (forall a, evolving (f a)) -> evolving (m ≫= f).
Proof.
  intros Hm Hf r res r' Hrun. unfold mbind, stm_bind in Hrun. destruct (m r) as [[a|e|] r1] eqn:Hr.
  - eapply evolves_trans; [by eapply Hm|by eapply Hf].
  - injection Hrun as <- <-. by eapply Hm.
  - injection Hrun as <- <-. by eapply Hm.
Qed.

Lemma evolving_lift {E A} (a : res E A) : evolving (st_lift a).
Proof. intros r res r' [= <- <-]. constructor. Qed.

Lemma evolving_ret {E A} (a : A) : evolving (mret a : stm Roots E A).
Proof. intros r res r' [= <- <-]. constructor. Qed.

Lemma evolving_get {E} : evolving (st_get : stm Roots E Roots).
Proof. intros r res r' [= <- <-]. constructor. Qed.

End Evolves.

(** Runs the statements of a computation up to the one that changes the store;
    the runs that stop early leave it as it was. *)
Ltac run_lifts :=
  repeat match goal with
  | |- (st_get ≫= _) ?r = _ -> _ => rewrite (stm_bind_Ok st_get _ r r r) by reflexivity; cbv beta
  | |- (st_lift ?m ≫= _) ?r = _ -> _ =>
      let E := fresh "E" in
      destruct m eqn:E; [erewrite (stm_bind_Ok (st_lift _) _ r _ r) by reflexivity; cbv beta
                        |intros [= <- <-]; constructor..]
  | |- (let (_, _) := ?p in _) _ = _ -> _ => destruct p
  | |- (match ?p with pair _ _ => _ end) _ = _ -> _ => destruct p
  end.

Section Jobs.
Context `{NebariLaws} `{DocumentCodec} `{ViewCodec} `{Digest} `{ChangesCodec} `{VersionCodec}.
Context (schedule : list MapResult -> list MapResult).

Lemma db_commit_Ok r tx r' : db_tx (tx_commit r tx) = Ok r' -> tx_commit r tx = Ok r'.
Proof. apply map_err_Ok_inv. Qed.

Lemma evolving_remove_tree t : evolving (remove_tree t).
Proof.
  intros r res r'. unfold remove_tree. run_lifts. intros [= <- <-]. apply map_err_Ok_inv in E.
  eapply evolves_delete; [done|constructor].
Qed.

Lemma evolving_map_view_round v ids : evolving (map_view_round schedule v ids).
Proof.
  intros r res r'. unfold map_view_round. run_lifts. intros [= <- <-].
  eapply evolves_commit; [by eapply db_commit_Ok|constructor].
Qed.

Lemma evolving_map_view_loop fuel v ids : evolving (map_view_loop schedule fuel v ids).
Proof.
  revert ids. induction fuel as [|fuel IH]; intros [|d ids]; [apply evolving_ret..|].
  apply evolving_bind; [apply evolving_map_view_round|]. intros []. apply IH.
Qed.

Lemma evolving_map_view v : evolving (map_view schedule v).
Proof. intros r res r'. unfold map_view. run_lifts. apply evolving_map_view_loop. Qed.

Lemma evolving_cleanup version view : evolving (cleanup version view).
Proof.
  unfold cleanup. destruct (internal_version version <? 2); [apply (evolving_remove_tree (view_omitted_tree_name view))|apply evolving_ret].
Qed.

Lemma evolving_scan_check v : evolving (scan_check v).
Proof.
  intros r res r'. unfold scan_check. run_lifts. apply evolving_bind; [apply evolving_cleanup|]. intros [].
  apply evolving_bind; [apply evolving_get|]. intros r1. destruct (is_current _ _); [apply evolving_ret|].
  apply evolving_bind; [apply evolving_lift|]. intros. apply evolving_ret.
Qed.

Lemma evolving_scan_rebuild v missing : evolving (scan_rebuild v missing).
Proof.
  unfold scan_rebuild. repeat (apply evolving_bind; [apply evolving_remove_tree|intros []]).
  intros r res r'. run_lifts. intros [= <- <-]. eapply evolves_commit; [by eapply db_commit_Ok|constructor].
Qed.

Lemma evolving_integrity_scan v : evolving (integrity_scan v).
Proof.
  apply evolving_bind; [apply evolving_scan_check|]. intros [missing|]; [|apply evolving_ret].
  apply evolving_bind; [apply evolving_scan_rebuild|]. intros. apply evolving_ret.
Qed.

Lemma evolving_apply_transaction schema ops : evolving (apply_transaction_to_roots schedule schema ops).
Proof.
  intros r res r'. unfold apply_transaction_to_roots. run_lifts.
  erewrite (stm_bind_Ok (st_put _)) by reflexivity. intros [= <- <-].
  eapply evolves_commit; [by eapply db_commit_Ok|constructor].
Qed.

End Jobs.

(** ** The state of a view *)

Section Views.
Context `{NebariLaws} `{DocumentCodec} `{ViewCodec} `{!ViewCodecLaws _} `{VersionCodec} `{!VersionCodecLaws _}
  `{Digest} `{ChangesCodec} `{Actionable}.
Context (schedule : list MapResult -> list MapResult) (Hsched : forall l, schedule l ≡ₚ l).
Context (schema : Schematic) (database : str) (session : option Session).
Context (v : View) (Hown : own_mappings v) (Hwf : view_wf (view_name v)) (Hcwf : qualified_wf (view_collection v)).

Abbreviation tree w t := (Nebari.contents (w_roots w) t).
Abbreviation documents_tree := (document_tree_name (view_collection v)).
Abbreviation invalidated_tree := (view_invalidated_docs_tree_name (view_name v)).
Abbreviation entries_tree := (view_entries_tree_name (view_name v)).
Abbreviation vkey := (view_key database v).
Definition status (w : World) : option Z := view_update_last_status (w_statuses w) !! vkey.
Definition checked (w : World) : bool := view_integrity_checked vkey (w_statuses w).

(** The trees and the statuses of the view agree: a checked view has the
    current version, and a view whose status is the last transaction has
    nothing left to map. *)
Record world_ok (w : World) : Prop := {
  wo_disk : view_disk_ok v (w_roots w);
  wo_docs : stored_under_id (tree w documents_tree);
  wo_none : none_empty (w_roots w);
  wo_checked : checked w = true -> version_current v (w_roots w) = true;
  wo_status n : status w = Some n -> checked w = true /\
    exists cur, current_transaction_id (w_roots w) = Some cur /\ n <= cur;
  wo_fresh n : status w = Some n -> current_transaction_id (w_roots w) = Some n -> tree w invalidated_tree = ∅
}.

Lemma world_synced w : world_ok w -> checked w = true -> view_synced v (w_roots w).
Proof. intros Hw Hc. by apply (wo_disk _ Hw), (wo_checked _ Hw). Qed.

(** What a job or a query leaves as it was. *)
Definition same_documents (w w' : World) : Prop :=
  tree w' documents_tree = tree w documents_tree /\ id_le (w_roots w) (w_roots w').

Lemma same_documents_refl w : same_documents w w.
Proof. split; [done|]. intros m Hm. by exists m. Qed.

Lemma same_documents_trans w1 w2 w3 : same_documents w1 w2 -> same_documents w2 w3 -> same_documents w1 w3.
Proof.
  intros [Hd1 Hi1] [Hd2 Hi2]. split; [congruence|]. intros m Hm. destruct (Hi1 m Hm) as (n & Hn & ?).
  destruct (Hi2 n Hn) as (k & Hk & ?). exists k. split; [done|lia].
Qed.

(** A step that only changed the trees. *)
Lemma world_ok_roots w r :
  world_ok w -> view_disk_ok v r -> same_documents w (MkWorld r (w_statuses w)) -> none_empty r ->
  (checked w = true -> version_current v r = true) ->
  (forall n, status w = Some n -> current_transaction_id r = Some n -> Nebari.contents r invalidated_tree = ∅) ->
  world_ok (MkWorld r (w_statuses w)).
Proof.
  intros [_ Hdocs _ _ Hstatus _] Hdisk [Hd Hle] Hne Hc Hf. split; [done| |done|done| |done].
  - by rewrite Hd.
  - intros n Hn. destruct (Hstatus n Hn) as (Hch & cur & Hcur & Hlt). split; [done|].
    destruct (Hle cur Hcur) as (k & Hk & ?). exists k. split; [done|lia].
Qed.

Lemma integrity_execute_ok w res w' :
  world_ok w -> checked w = false -> integrity_execute database v w = (res, w') ->
  world_ok w' /\ same_documents w w' /\ (is_ok res = true -> checked w' = true).
Proof.
  intros Hw Hc Hrun. pose proof Hw as [Hdisk Hdocs Hnone Hcur Hstatus Hfresh]. unfold integrity_execute in Hrun.
  assert (status w = None) as Hst.
  { destruct (status w) as [n|]; [|done]. destruct (Hstatus n eq_refl). congruence. }
  unfold mbind, stm_bind, on_roots in Hrun. destruct (integrity_scan v (w_roots w)) as [res1 r1] eqn:Hscan.
  destruct (evolves_id _ _ (evolving_integrity_scan v _ _ _ Hscan)) as [Hid Hne].
  destruct (integrity_scan_ok v Hwf Hcwf _ _ _ Hdocs Hdisk Hscan) as [[Hdisk' Hkinds] Hok].
  assert (Nebari.contents r1 documents_tree = tree w documents_tree) as Hd.
  { apply (Hkinds (TDocuments (view_collection v))); [done|]. unfold scanned_kinds. set_solver. }
  set (w1 := MkWorld r1 (w_statuses w)).
  assert (same_documents w w1) as Hsame by (by split).
  assert (world_ok w1) as Hw1 by (apply (world_ok_roots w); [done..|auto|congruence|congruence]).
  destruct res1 as [task|e|]; simpl in Hrun; [|by injection Hrun as <- <-..].
  injection Hrun as <- <-. destruct (Hok task eq_refl) as (Hsync & Hcur' & _). split_and!; [|done|].
  - destruct Hw1. split; [done..| |done]. intros n Hn. change (status w = Some n) in Hn. congruence.
  - intros _. unfold checked, view_integrity_checked. simpl. apply bool_decide_eq_true. set_solver.
Qed.

(** Without invalidated documents there is nothing to map. *)
Lemma map_view_nothing v0 r res r' :
  Nebari.contents r (view_invalidated_docs_tree_name (view_name v0)) = ∅ -> map_view schedule v0 r = (res, r') -> r' = r.
Proof.
  intros He. unfold map_view. rewrite (stm_bind_Ok st_get _ r r r) by done.
  destruct (roots_scan r _) as [l|e|] eqn:Hs; [|by intros [= _ <-]..]. simpl.
  rewrite (stm_bind_Ok (st_lift (Ok l)) _ r l r) by done. apply roots_scan_law in Hs as [_ Hin].
  destruct l as [|[k b] l]; [by intros [= _ <-]|]. assert ((k, b) ∈ (k, b) :: l) as Hk%Hin by left.
  by rewrite He, lookup_empty in Hk.
Qed.

Lemma versions_not_view_tree : view_versions_tree_name (view_collection v) ∉ view_trees v.
Proof.
  unfold view_trees. intros Hin. change (view_versions_tree_name (view_collection v)) with
    (tree_name (TVersions (view_collection v))) in Hin.
  repeat (apply elem_of_cons in Hin as [Heq|Hin]); [..|by apply elem_of_nil in Hin].
  - by apply (tree_name_inj _ (TInvalidated (view_name v))) in Heq.
  - by apply (tree_name_inj _ (TDocumentMap (view_name v))) in Heq.
  - by apply (tree_name_inj _ (TDocuments (view_collection v))) in Heq.
  - by apply (tree_name_inj _ (TEntries (view_name v))) in Heq.
Qed.

Lemma last_transaction_id_Ok r last :
  last_transaction_id database session r = Ok last -> last = current_transaction_id r.
Proof. unfold last_transaction_id. intros Hrun. by inv_res. Qed.

Lemma mapper_execute_ok w res w' :
  world_ok w -> checked w = true -> mapper_execute schedule database session v w = (res, w') ->
  world_ok w' /\ same_documents w w' /\ checked w' = true /\
  (forall id, res = Ok id -> current_transaction_id (w_roots w) = Some id /\ tree w' invalidated_tree = ∅).
Proof.
  intros Hw Hc Hrun. pose proof (world_synced _ Hw Hc) as Hsync. pose proof Hw as [Hdisk Hdocs Hnone Hcur Hstatus Hfresh].
  revert Hrun. unfold mapper_execute, reading, on_roots, st_lift, mbind, stm_bind.
  destruct (last_transaction_id database session (w_roots w)) as [last|e|] eqn:Hlast;
    [|intros [= <- <-]; split_and!; [done|apply same_documents_refl|done|done]..].
  apply last_transaction_id_Ok in Hlast as ->.
  destruct (current_transaction_id (w_roots w)) as [t|] eqn:Hid; cbn [unwrap];
    [|intros [= <- <-]; split_and!; [done|apply same_documents_refl|done|done]].
  destruct (map_view schedule v (w_roots w)) as [res1 r1] eqn:Hmap.
  destruct (evolves_id _ _ (evolving_map_view schedule v _ _ _ Hmap)) as [Hle Hne].
  destruct (map_view_ok schedule Hsched v Hown Hwf Hcwf _ _ _ Hsync Hmap) as [(Hsync' & Hd & Hother) Hok].
  assert (version_current v r1 = version_current v (w_roots w)) as Hver.
  { unfold version_current. rewrite Hother; [done|]. apply versions_not_view_tree. }
  assert (same_documents w (MkWorld r1 (w_statuses w))) as Hsame by (by split).
  assert (res1 <> Ok tt -> world_ok (MkWorld r1 (w_statuses w))) as Hfailed.
  { intros Hres. apply world_ok_roots; [done|by intros _|done|auto|by rewrite Hver|]. intros n Hn Hn'.
    destruct (Hstatus n Hn) as (_ & cur & [= <-] & Hlt). destruct (Hle t Hid) as (k & Hk & Hlt').
    assert (n = t) as -> by (simplify_eq; lia). specialize (Hfresh t Hn eq_refl). simpl.
    by rewrite (map_view_nothing _ _ _ _ Hfresh Hmap). }
  destruct res1 as [[]|e|]; simpl; intros [= <- <-].
  - destruct (Hok eq_refl) as [Hinv _]. split_and!; [|done|done|by intros id [= <-]]. split; simpl.
    + by intros _.
    + by rewrite Hd.
    + auto.
    + by rewrite Hver.
    + intros n. unfold status. simpl. rewrite lookup_insert_eq. intros [= <-]. split; [done|]. by apply Hle.
    + done.
  - split_and!; [|done|done|done]. by apply Hfailed.
  - split_and!; [|done|done|done]. by apply Hfailed.
Qed.

(** What an operation on the view keeps, whatever its outcome. *)
Definition kept (w w' : World) : Prop := world_ok w' /\ same_documents w w'.

Lemma integrity_check_ok w res w' :
  world_ok w -> integrity_check database v w = (res, w') -> kept w w' /\ (res = Ok tt -> checked w' = true).
Proof.
  intros Hw. unfold integrity_check. rewrite (stm_bind_Ok st_get _ w w w) by done.
  fold (checked w). destruct (checked w) eqn:Hc.
  { intros [= <- <-]. split; [split; [done|apply same_documents_refl]|done]. }
  destruct (integrity_execute database v w) as [res1 w1] eqn:Hrun. rewrite (stm_bind_run _ _ _ _ _ Hrun).
  apply integrity_execute_ok in Hrun as (Hw1 & Hs1 & Hc1); [|done|done].
  destruct res1; intros [= <- <-]; (split; [done|]); intros; try done. by apply Hc1.
Qed.

(** One round of the loop is enough: the mapper returns the last transaction. *)
Lemma update_view_loop_ok fuel w res w' cur :
  world_ok w -> checked w = true -> current_transaction_id (w_roots w) = Some cur ->
  update_view_loop schedule database session (S fuel) v cur w = (res, w') ->
  kept w w' /\ (res = Ok tt -> checked w' = true /\ tree w' invalidated_tree = ∅) /\
  update_view_loop schedule database session 1 v cur w = (res, w').
Proof.
  intros Hw Hc Hcur. cbn [update_view_loop].
  destruct (mapper_execute schedule database session v w) as [res1 w1] eqn:Hrun.
  rewrite !(stm_bind_run _ _ _ _ _ Hrun). apply mapper_execute_ok in Hrun as (Hw1 & Hs1 & Hc1 & Hid); [|done|done].
  destruct res1 as [id|e|]; [|by intros [= <- <-]..]. destruct (Hid id eq_refl) as [Hcur' Hinv]. simplify_eq.
  rewrite (proj2 (Z.leb_le cur cur)) by lia. by intros [= <- <-].
Qed.

Lemma update_view_if_needed_ok fuel w res w' :
  world_ok w -> update_view_if_needed schedule database session (S fuel) v true w = (res, w') ->
  kept w w' /\ (res = Ok tt -> checked w' = true /\ tree w' invalidated_tree = ∅) /\
  update_view_if_needed schedule database session 1 v true w = (res, w').
Proof.
  intros Hw. unfold update_view_if_needed.
  destruct (integrity_check database v w) as [res1 w1] eqn:Hcheck. rewrite !(stm_bind_run _ _ _ _ _ Hcheck).
  apply integrity_check_ok in Hcheck as [[Hw1 Hs1] Hc1]; [|done]. destruct res1 as [[]|e|]; [|by intros [= <- <-]..].
  specialize (Hc1 eq_refl).
  assert (reading (last_transaction_id database session) w1 = (last_transaction_id database session (w_roots w1), w1))
    as Hread by done. rewrite !(stm_bind_run _ _ _ _ _ Hread).
  destruct (last_transaction_id database session (w_roots w1)) as [last|e|] eqn:Hlast; [|by intros [= <- <-]..].
  apply last_transaction_id_Ok in Hlast as ->. destruct (current_transaction_id (w_roots w1)) as [cur|] eqn:Hcur.
  2: { intros [= <- <-]. split_and!; [done| |done]. intros _. split; [done|]. by apply (wo_none _ Hw1). }
  rewrite !(stm_bind_Ok st_get _ w1 w1 w1) by done. rewrite andb_true_r. unfold needs_reindex. fold (status w1).
  destruct (match status w1 with Some n => n <? cur | None => true end) eqn:Hneeds.
  - intros Hrun. destruct (update_view_loop_ok _ _ _ _ _ Hw1 Hc1 Hcur Hrun) as ([Hw' Hs'] & Hok & Hone).
    split_and!; [|done..]. split; [done|]. by eapply same_documents_trans.
  - destruct (status w1) as [n|] eqn:Hst; [|done]. apply Z.ltb_ge in Hneeds.
    destruct (wo_status _ Hw1 n Hst) as (_ & cur' & Hcur' & Hle). rewrite Hcur in Hcur'. injection Hcur' as <-.
    assert (n = cur) as -> by lia. intros [= <- <-]. split_and!; [done| |done]. intros _. split; [done|].
    by apply (wo_fresh _ Hw1 cur).
Qed.

(** The entries of a view that has nothing left to map are what the documents
    map to. *)
Lemma fresh_entries w d k :
  world_ok w -> checked w = true -> tree w invalidated_tree = ∅ ->
  entry_value (tree w entries_tree) d k = indexed v (tree w documents_tree !! d) k.
Proof.
  intros Hw Hc Hinv. destruct (world_synced w Hw Hc) as [_ _ Hf _]. apply Hf; [by rewrite Hinv|apply not_elem_of_nil].
Qed.

Lemma for_each_in_view_ok fuel key order limit w res w' :
  world_ok w -> for_each_in_view schedule schema database session (S fuel) v key order limit UpdateBefore w = (res, w') ->
  kept w w' /\
  (forall es, res = Ok es -> checked w' = true /\ tree w' invalidated_tree = ∅ /\
     create_view_iterator (w_roots w') entries_tree key order limit = Ok es) /\
  for_each_in_view schedule schema database session 1 v key order limit UpdateBefore w = (res, w').
Proof.
  intros Hw. unfold for_each_in_view.
  destruct (update_view_if_needed schedule database session (S fuel) v true w) as [res1 w1] eqn:Hup.
  rewrite (stm_bind_run _ _ _ _ _ Hup). destruct (update_view_if_needed_ok _ _ _ _ Hw Hup) as (Hk & Hok & Hone).
  rewrite (stm_bind_run _ _ _ _ _ Hone).
  destruct res1 as [[]|e|]; [|by intros [= <- <-]..]. destruct (Hok eq_refl) as [Hc Hinv].
  set (f := fun r => map_err CoreDb (create_view_iterator r entries_tree key order limit)).
  assert (reading f w1 = (f (w_roots w1), w1)) as Hread by done. rewrite !(stm_bind_run _ _ _ _ _ Hread). unfold f.
  destruct (create_view_iterator _ _ _ _ _) as [es|e|] eqn:Hit; simpl; intros [= <- <-]; split_and!; try done.
  intros es' [= <-]. done.
Qed.

End Views.
