(* ===== verification/TasksTheorems.v ===== *)
(** * What view queries return

    A query that brings the view up to date returns exactly the mappings of the
    stored documents under the selected keys; a reduction the reduced values of
    those mappings. *)

From Stdlib Require Import ZArith Lia String Sorting.Sorted.
From stdpp Require Import base list option numbers gmap sorting.
From S2P Require Import Prelude Bytes Utf8 Key Range Nebari Document Names Changes Schema Permissions View Query Integrity Jobs Transaction Tasks StoreDemo ViewLaws ViewBatch ViewTheorems TransactionLaws TransactionTheorems QueryLaws IntegrityTheorems TasksLaws.

Local Open Scope Z_scope.

(** ** Mappings of an entry *)

Lemma find_mapping_elem d rev value ms :
  NoDup (em_id <$> ms) ->
  MkEntryMapping (MkHeader d rev) value ∈ ms <-> find_mapping d ms = Some (rev, value).
Proof.
  induction ms as [|m ms IH]; intros Hn.
  { split; [by intros ?%elem_of_nil|done]. }
  rewrite fmap_cons, NoDup_cons in Hn. destruct Hn as [Hm Hn]. rewrite elem_of_cons. simpl. case_decide as Hd.
  - split.
    + intros [<-|Hin]; [done|]. exfalso. apply Hm. rewrite Hd.
      apply list_elem_of_fmap. by exists (MkEntryMapping (MkHeader d rev) value).
    + intros [= <- <-]. left. destruct m as [[] ?]. unfold em_id in Hd. simpl in *. by subst.
  - rewrite <- IH by done. split; [|by right]. intros [<-|?]; [done|done].
Qed.

Lemma NoDup_bind_keyed {A B K} (f : A -> list B) (ka : A -> K) (kb : B -> K) l :
  NoDup (ka <$> l) -> (forall a b, a ∈ l -> b ∈ f a -> kb b = ka a) -> (forall a, a ∈ l -> NoDup (f a)) ->
  NoDup (l ≫= f).
Proof.
  induction l as [|a l IH]; intros Hn Hk Hf; [constructor|]. rewrite fmap_cons, NoDup_cons in Hn. destruct Hn as [Ha Hn].
  change (NoDup (f a ++ (l ≫= f))). apply NoDup_app. split_and!.
  - apply Hf. left.
  - intros b Hb (a' & Hb' & Ha')%list_elem_of_bind. apply Ha.
    rewrite <- (Hk a b), (Hk a' b) by (done || by left || by right). by apply list_elem_of_fmap_2.
  - apply IH; [done|intros; apply Hk; [by right|done]|intros; apply Hf; by right].
Qed.

Section Queries.
Context `{NebariLaws} `{DocumentCodec} `{ViewCodec} `{!ViewCodecLaws _} `{VersionCodec} `{!VersionCodecLaws _}
  `{Digest} `{ChangesCodec} `{Actionable}.
Context (schedule : list MapResult -> list MapResult) (Hsched : forall l, schedule l ≡ₚ l).
Context (schema : Schematic) (database : str) (session : option Session).
Context (v : View) (Hown : own_mappings v) (Hwf : view_wf (view_name v)) (Hcwf : qualified_wf (view_collection v)).

Abbreviation tree w t := (Nebari.contents (w_roots w) t).
Abbreviation documents_tree := (document_tree_name (view_collection v)).
Abbreviation entries_tree := (view_entries_tree_name (view_name v)).
Abbreviation world_ok := (world_ok database v).
Abbreviation kept := (kept database v).

(** The entries of an up-to-date view. *)
Record current_entries (w : World) (docs : gmap bytes bytes) : Prop := {
  ce_decodable : decodable deserialize_view_entry (tree w entries_tree);
  ce_key k e : entries_of (tree w entries_tree) !! k = Some e -> entry_good v k e /\ NoDup (em_id <$> mappings e);
  ce_mapping k e d rev value : entries_of (tree w entries_tree) !! k = Some e ->
    MkEntryMapping (MkHeader d rev) value ∈ mappings e <-> indexed v (docs !! d) k = Some (rev, value);
  ce_present k d : is_Some (indexed v (docs !! d) k) -> is_Some (entries_of (tree w entries_tree) !! k)
}.

Lemma fresh_current w :
  world_ok w -> checked database v w = true -> tree w (view_invalidated_docs_tree_name (view_name v)) = ∅ ->
  current_entries w (tree w documents_tree).
Proof.
  intros Hw Hc Hinv. pose proof (fun d k => fresh_entries database v w d k Hw Hc Hinv) as Hval.
  destruct (world_synced database v w Hw Hc) as [[_ Hnd] _ _ [_ Hgood]].
  assert (forall k e, entries_of (tree w entries_tree) !! k = Some e ->
    exists b, tree w entries_tree !! k = Some b /\ deserialize_view_entry b = Some e) as Hstored.
  { intros k e He. unfold entries_of in He. apply lookup_omap_Some in He as (b & Hb & Hk). eauto. }
  assert (forall k e, entries_of (tree w entries_tree) !! k = Some e -> NoDup (em_id <$> mappings e)) as Hnodup.
  { intros k e (b & Hb & He)%Hstored. specialize (Hnd k). unfold stored_mappings in Hnd. rewrite Hb in Hnd. simpl in Hnd.
    by rewrite He in Hnd. }
  split.
  - by eapply entries_good_decodable.
  - intros k e He. split; [|by eapply Hnodup]. apply Hstored in He as (b & Hb & He).
    destruct (Hgood k b Hb) as (e' & He' & Hg). congruence.
  - intros k e d rev value He. rewrite find_mapping_elem by (by eapply Hnodup). rewrite <- Hval.
    apply Hstored in He as (b & Hb & He). unfold entry_value, stored_mappings. rewrite Hb. simpl. by rewrite He.
  - intros k d. rewrite <- Hval. unfold entry_value, stored_mappings, entries_of. rewrite lookup_omap.
    destruct (tree w entries_tree !! k) as [b|] eqn:Hb; simpl; [|by intros []].
    destruct (Hgood k b Hb) as (e & -> & _). by eexists.
Qed.

(** No entry is returned twice, unless keys are given more than once. *)
Definition single_keys (key : option SerializedQueryKey) : Prop :=
  match key with Some (Multiple _) => False | _ => True end.

Lemma scan_order_NoDup {A} (m : gmap bytes A) range fwd : NoDup (scan_order m range fwd).*1.
Proof.
  unfold scan_order. assert (NoDup (filter (fun p => range_contains bytes_cmp range p.1 = true) (sorted_pairs m)).*1) as Hn.
  { pose proof (sorted_pairs_NoDup m) as Hn. induction (sorted_pairs m) as [|p l IH]; [constructor|].
    rewrite fmap_cons, NoDup_cons in Hn. destruct Hn as [Hp Hn]. rewrite filter_cons. case_decide; [|by apply IH].
    rewrite fmap_cons. constructor; [|by apply IH]. intros (q & Heq & [_ Hq]%list_elem_of_filter)%list_elem_of_fmap.
    apply Hp. rewrite Heq. by apply list_elem_of_fmap_2. }
  destruct fwd; [done|]. rewrite map_rev. by rewrite <- Permutation_rev.
Qed.

Lemma iterated_keys_NoDup w docs key order limit es :
  current_entries w docs -> single_keys key ->
  create_view_iterator (w_roots w) entries_tree key order limit = Ok es -> NoDup (ve_key <$> es).
Proof.
  intros Hce Hk Hrun. pose proof (create_view_iterator_ok (w_roots w) entries_tree key order limit (ce_decodable _ _ Hce)) as Hok.
  rewrite Hrun in Hok.
  assert (forall range, NoDup (ve_key <$> (limited limit (scan_order (entries_of (tree w entries_tree)) range (forwards order))).*2)) as Hscan.
  { intros range. set (l := limited limit _).
    assert (ve_key <$> l.*2 = l.*1) as ->.
    { assert (forall p, p ∈ l -> ve_key p.2 = p.1) as Hkey.
      { intros [k e] Hp. assert ((k, e) ∈ scan_order (entries_of (tree w entries_tree)) range (forwards order)) as [Hin _]%scan_order_elem.
        { unfold l, limited in Hp. destruct limit as [n|]; [|done]. apply elem_of_take in Hp as (i & Hi & _). by apply (list_elem_of_lookup_2 _ i). }
        apply (ce_key _ _ Hce) in Hin as [[? _] _]. done. }
      clear -Hkey. induction l as [|p l IH]; [done|]. csimpl. rewrite Hkey by left. f_equal. apply IH.
      intros; apply Hkey. by right. }
    unfold l, limited. destruct limit as [n|]; [rewrite fmap_take; eapply sublist_NoDup; [|apply sublist_take]|]; apply scan_order_NoDup. }
  destruct key as [[k|range|ks]|]; [|by rewrite Hok|done|by rewrite Hok].
  subst es. destruct (entries_of _ !! k); csimpl; [apply NoDup_singleton|constructor].
Qed.

(** ** Queries *)

Context (vn : ViewName) (Hview : view_by_name schema vn = Ok v).

Lemma find_view_Ok : find_view schema vn = Ok v.
Proof. unfold find_view. by rewrite Hview. Qed.

(** What runs before the entries are read: nothing of the view changes. *)
Lemma permitted_query {A} resource a fuel key order limit (f : list ViewEntry -> A) w res w' :
  world_ok w ->
  (x ← st_lift (find_view schema vn);
   st_lift (permit session (resource x) a);;
   entries ← for_each_in_view schedule schema database session (S fuel) x key order limit UpdateBefore;
   mret (f entries)) w = (res, w') ->
  kept w w' /\
  (forall y, res = Ok y -> exists es, y = f es /\ current_entries w' (tree w documents_tree) /\
     create_view_iterator (w_roots w') entries_tree key order limit = Ok es).
Proof.
  intros Hw. rewrite find_view_Ok. rewrite (stm_bind_Ok (st_lift (Ok v)) _ w v w) by done.
  assert (kept w w) as Hrefl by (split; [done|apply same_documents_refl]).
  destruct (permit session (resource v) a) as [[]|e|]; [|by intros [= <- <-]..].
  rewrite (stm_bind_Ok (st_lift (Ok tt)) _ w tt w) by done.
  destruct (for_each_in_view schedule schema database session (S fuel) v key order limit UpdateBefore w) as [res1 w1] eqn:Hrun. rewrite (stm_bind_run _ _ _ _ _ Hrun).
  apply for_each_in_view_ok in Hrun as (Hk & Hok & _); [|done..].
  destruct res1 as [es|e|]; intros [= <- <-]; (split; [done|]); [|done..].
  intros y [= <-]. exists es. destruct (Hok es eq_refl) as (Hc & Hinv & Hit). split_and!; [done| |done].
  destruct Hk as [Hw1 [Hd _]]. rewrite <- Hd. by apply fresh_current.
Qed.

(** C5: a view query without a limit that brings the view up to date first is
    exact: it returns, for every stored document and every key of it that the query
    selects, the value the view's map function gives the document under that
    key, with the document's revision; nothing else, and nothing twice unless
    a list of keys is given.  The documents are not changed, and the invariant
    of the view's trees and statuses is kept on every outcome.  (A limit bounds
    the entries that are visited, not the results, so it is left out here.) *)
Theorem query_exact fuel key order w res w' :
  world_ok w ->
  query_by_name schedule schema database session (S fuel) vn key order None UpdateBefore w = (res, w') ->
  kept w w' /\
  (forall results, res = Ok results ->
     (single_keys key -> NoDup results) /\
     forall d rev k value, MkMapSerialized (MkHeader d rev) k value ∈ results <->
       key_selected key k /\ indexed v (tree w documents_tree !! d) k = Some (rev, value)).
Proof.
  intros Hw Hrun. destruct (permitted_query _ _ _ _ _ _ (fun es => es ≫= entry_maps) _ _ _ Hw Hrun) as [Hk Hok].
  split; [done|]. intros results Hres. destruct (Hok results Hres) as (es & -> & Hce & Hit). split.
  - intros Hs. apply (NoDup_bind_keyed entry_maps ve_key ms_key).
    + by eapply iterated_keys_NoDup.
    + intros e m _ (x & -> & _)%list_elem_of_fmap. done.
    + intros e He. apply (create_view_iterator_elem _ _ _ _ _ (ce_decodable _ _ Hce) Hit) in He as (k & _ & He).
      destruct (ce_key _ _ Hce k e He) as [_ Hn]. unfold entry_maps. apply (NoDup_fmap_1 (fun m => id (ms_source m))).
      by rewrite <- list_fmap_compose.
  - intros d rev k value. rewrite list_elem_of_bind.
    pose proof (create_view_iterator_elem _ _ _ _ _ (ce_decodable _ _ Hce) Hit) as Hin. split.
    + intros (e & (m & Hm & Hme)%list_elem_of_fmap & He). apply Hin in He as (k' & Hsel & He).
      destruct (ce_key _ _ Hce k' e He) as [[Hkey _] _]. injection Hm as Hs -> ->. rewrite Hkey. split; [done|].
      apply (ce_mapping _ _ Hce k' e); [done|]. rewrite Hs. by destruct m.
    + intros [Hsel Hix]. destruct (ce_present _ _ Hce k d) as [e He]; [by eexists|]. exists e.
      destruct (ce_key _ _ Hce k e He) as [[Hkey _] _]. split; [|apply Hin; eauto]. unfold entry_maps.
      apply list_elem_of_fmap. exists (MkEntryMapping (MkHeader d rev) value). simpl. rewrite Hkey. split; [done|].
      by apply (ce_mapping _ _ Hce k e).
Qed.

(** Updating a view ends after one mapping: the loop that waits for the
    view to reach the last transaction returns as soon as the mapping has, with
    its error if it fails, since the mapping covers the last transaction. *)
Theorem update_loop_ends fuel cur w :
  world_ok w -> checked database v w = true -> current_transaction_id (w_roots w) = Some cur ->
  update_view_loop schedule database session (S fuel) v cur w =
  (fmap (fun _ => tt) (mapper_execute schedule database session v w).1,
   (mapper_execute schedule database session v w).2).
Proof.
  intros Hw Hc Hcur. cbn [update_view_loop].
  destruct (mapper_execute schedule database session v w) as [res1 w1] eqn:Hrun.
  rewrite (stm_bind_run _ _ _ _ _ Hrun). apply mapper_execute_ok in Hrun as (_ & _ & _ & Hid); [|done..].
  destruct res1 as [id|e|]; [|done..]. destruct (Hid id eq_refl) as [Hcur' _]. rewrite Hcur in Hcur'. injection Hcur' as <-.
  by rewrite (proj2 (Z.leb_le cur cur)) by lia.
Qed.

(** ** Reductions *)

(** The mappings of the stored documents under a key. *)
Definition mappings_under (docs : gmap bytes bytes) (k : bytes) (ms : list EntryMapping) : Prop :=
  ms <> [] /\ NoDup (em_id <$> ms) /\
  forall d rev value, MkEntryMapping (MkHeader d rev) value ∈ ms <-> indexed v (docs !! d) k = Some (rev, value).

Lemma current_mappings w docs k e :
  current_entries w docs -> entries_of (tree w entries_tree) !! k = Some e -> mappings_under docs k (mappings e).
Proof.
  intros Hce He. destruct (ce_key _ _ Hce k e He) as [(_ & Hne & _) Hn]. split_and!; [done..|].
  intros d rev value. by apply (ce_mapping _ _ Hce k e).
Qed.

Lemma reduce_grouped_ok fuel key w res w' :
  world_ok w -> implemented v ->
  reduce_grouped_by_name schedule schema database session (S fuel) vn key UpdateBefore w = (res, w') ->
  kept w w' /\
  (forall values, res = Ok values -> exists groups : list (bytes * list EntryMapping),
     Forall2 (fun g x => mv_key x = g.1 /\ view_reduce v (reduce_input g.1 g.2) false = Ok (mv_value x)) groups values /\
     (forall k ms, (k, ms) ∈ groups -> key_selected key k /\ mappings_under (tree w documents_tree) k ms) /\
     (forall k d, key_selected key k -> is_Some (indexed v (tree w documents_tree !! d) k) -> k ∈ groups.*1) /\
     (single_keys key -> NoDup groups.*1)).
Proof.
  intros Hw Himp Hrun.
  destruct (permitted_query _ _ _ _ _ _ (fun es => (fun e => MkMappedSerializedValue (ve_key e) (reduced_value e)) <$> es)
    _ _ _ Hw Hrun) as [Hk Hok].
  split; [done|]. intros values Hres. destruct (Hok values Hres) as (es & -> & Hce & Hit).
  pose proof (create_view_iterator_elem _ _ _ _ _ (ce_decodable _ _ Hce) Hit) as Hin.
  exists ((fun e => (ve_key e, mappings e)) <$> es). rewrite <- list_fmap_compose. split_and!.
  - apply Forall2_fmap, Forall_Forall2_diag, List.Forall_forall. intros e (k & _ & He)%list_elem_of_In%Hin.
    destruct (ce_key _ _ Hce k e He) as [(Hkey & _ & Hred) _]. simpl. split; [done|]. rewrite Hkey. by apply Hred.
  - intros k ms (e & [= -> ->] & He)%list_elem_of_fmap. apply Hin in He as (k & Hsel & He).
    destruct (ce_key _ _ Hce k e He) as [(Hkey & _) _]. rewrite Hkey. split; [done|]. by eapply current_mappings.
  - intros k d Hsel Hix. destruct (ce_present _ _ Hce k d Hix) as [e He]. apply list_elem_of_fmap. exists e.
    destruct (ce_key _ _ Hce k e He) as [(Hkey & _) _]. split; [done|]. apply Hin. eauto.
  - intros Hs. by eapply iterated_keys_NoDup.
Qed.

(** A grouped reduction that brings the view up to date first returns, for
    every selected key that a stored document emits, the value to which the
    view reduces the mappings of the stored documents under that key. *)
Theorem reduce_grouped_exact fuel key w res w' :
  world_ok w -> implemented v ->
  reduce_grouped_by_name schedule schema database session (S fuel) vn key UpdateBefore w = (res, w') ->
  kept w w' /\
  (forall values, res = Ok values -> exists groups : list (bytes * list EntryMapping),
     Forall2 (fun g x => mv_key x = g.1 /\ view_reduce v (reduce_input g.1 g.2) false = Ok (mv_value x)) groups values /\
     (forall k ms, (k, ms) ∈ groups -> key_selected key k /\ mappings_under (tree w documents_tree) k ms) /\
     (forall k d, key_selected key k -> is_Some (indexed v (tree w documents_tree !! d) k) -> k ∈ groups.*1) /\
     (single_keys key -> NoDup groups.*1)).
Proof. apply reduce_grouped_ok. Qed.

(** Reducing the reduced values of some groups is reducing all their mappings. *)
Definition rereduces : Prop :=
  forall (groups : list (bytes * list EntryMapping)) xs,
    Forall2 (fun g x => view_reduce v (reduce_input g.1 g.2) false = Ok x) groups xs ->
    view_reduce v (zip groups.*1 xs) true = view_reduce v (groups ≫= fun g => reduce_input g.1 g.2) false.

(** A reduction over several keys is the reduction of all mappings of the
    stored documents under these keys, for a view whose [reduce] function can
    reduce its own results; also when no or only one key is found. *)
Theorem reduce_whole fuel key w res w' x :
  world_ok w -> implemented v -> rereduces ->
  reduce_by_name schedule schema database session (S fuel) vn key UpdateBefore w = (res, w') -> res = Ok x ->
  exists groups : list (bytes * list EntryMapping),
    (forall k ms, (k, ms) ∈ groups -> key_selected key k /\ mappings_under (tree w documents_tree) k ms) /\
    (forall k d, key_selected key k -> is_Some (indexed v (tree w documents_tree !! d) k) -> k ∈ groups.*1) /\
    (single_keys key -> NoDup groups.*1) /\
    view_reduce v (groups ≫= fun g => reduce_input g.1 g.2) false = Ok x.
Proof.
  intros Hw Himp Hre. unfold reduce_by_name.
  destruct (reduce_grouped_by_name schedule schema database session (S fuel) vn key UpdateBefore w) as [res1 w1] eqn:Hrun.
  rewrite (stm_bind_run _ _ _ _ _ Hrun). apply reduce_grouped_ok in Hrun as [_ Hok]; [|done..].
  destruct res1 as [values|e|]; [|by intros [= <- <-]..]. destruct (Hok values eq_refl) as (groups & Hall & Hin & Hpres & Hnd).
  intros Hres Hx. exists groups. split_and!; [done..|].
  assert (match values with [m] => Ok (mv_value m) | _ =>
    map_err (fun e => CoreDb (DbView e)) (view_reduce v ((fun m => (mv_key m, mv_value m)) <$> values) true) end = res) as Hval.
  { destruct values as [|m [|]]; [|by injection Hres|];
      rewrite find_view_Ok, (stm_bind_Ok (st_lift (Ok v)) _ w1 v w1) in Hres by done; by injection Hres. }
  assert (Forall2 (fun g x => view_reduce v (reduce_input g.1 g.2) false = Ok x) groups (mv_value <$> values)) as Hall'.
  { apply Forall2_fmap_r. eapply Forall2_impl; [exact Hall|]. by intros g y [_ ?]. }
  assert (zip groups.*1 (mv_value <$> values) = (fun m => (mv_key m, mv_value m)) <$> values) as Hzip.
  { clear -Hall. induction Hall as [|g y groups values [Hk _] Hall IH]; [done|]. csimpl. by rewrite Hk, IH. }
  specialize (Hre _ _ Hall'). rewrite Hzip in Hre. rewrite <- Hre. rewrite Hx in Hval.
  destruct values as [|m [|m' values]].
  - by apply map_err_Ok_inv in Hval.
  - injection Hval as <-. rewrite Hre. inversion Hall' as [|g ? groups' ? Hg Hnil]; subst. inversion Hnil; subst.
    csimpl. by rewrite app_nil_r.
  - by apply map_err_Ok_inv in Hval.
Qed.

End Queries.

(** ** Examples *)

Module TasksExamples.
Import MemNebari StoreDemo.

Definition note (d c : bytes) : bytes := bits (encode (document_new d c)).
(** Three notes, written by a transaction; the view has not been used. *)
Definition three_notes : gmap bytes bytes :=
  <[[1] := note [1] [7]]> (<[[2] := note [2] [8]]> (<[[3] := note [3] [9; 9]]> ∅)).
Definition world : World :=
  MkWorld (MkRoots (<[document_tree_name notes := three_notes]> ∅) true [None]) statuses_default.

Lemma notes_tree : Nebari.contents (w_roots world) (document_tree_name notes) = three_notes.
Proof. vm_compute. reflexivity. Qed.

Lemma three_notes_ids : stored_under_id three_notes.
Proof.
  assert (forall d c doc, deserialize_document (note d c) = Some doc -> id (header doc) = d) as Hn.
  { intros d c doc. unfold deserialize_document, note. simpl. rewrite unbits_bits, decode_encode. by intros [= <-]. }
  intros d b doc. unfold three_notes. rewrite !lookup_insert_Some, lookup_empty. naive_solver.
Qed.

Lemma fresh_world_ok v : view_collection v = notes -> version_current v (w_roots world) = false -> world_ok [] v world.
Proof.
  intros Hc Hver. split; try done.
  - intros Hcur. congruence.
  - rewrite Hc, notes_tree. apply three_notes_ids.
Qed.

Lemma lengths_ok : world_ok [] by_length world.
Proof. by apply fresh_world_ok; [|vm_compute]. Qed.
Lemma contents_ok : world_ok [] (by_contents Unique) world.
Proof. by apply fresh_world_ok; [|vm_compute]. Qed.

Abbreviation by_contents_own := ViewExamples.by_contents_own.
Abbreviation by_length_own := TransactionExamples.by_length_own.
Abbreviation same_schedule := ViewExamples.identity_schedule.

(** The notes of length one. *)
Definition length_one : option SerializedQueryKey := Some (Matches [1]).
Definition queried := query_by_name (fun l => l) demo_schema [] None 1 (view_name by_length) length_one Ascending None
  UpdateBefore world.

Lemma query_exact_witness :
  exists results, res_ok queried.1 = Some results /\
    MkMapSerialized (MkHeader [2] (revision_new [8])) [1] [] ∈ results.
Proof.
  assert (is_ok queried.1 = true) as Hok by (vm_compute; reflexivity).
  destruct queried as [res w'] eqn:Hrun. destruct (query_exact (fun l => l) same_schedule demo_schema [] None by_length by_length_own
    ltac:(repeat split) ltac:(repeat split) (view_name by_length) ltac:(reflexivity) 0 length_one Ascending world res w'
    lengths_ok Hrun) as [_ Hres].
  destruct res as [results|e|]; [|done..]. exists results. split; [done|]. apply (Hres results eq_refl). split; [done|].
  change (view_collection by_length) with notes. rewrite notes_tree. vm_compute. reflexivity.
Defined.

(** The world after the view's integrity check. *)
Definition checked_world : World := (integrity_execute [] by_length world).2.

Lemma checked_world_ok : world_ok [] by_length checked_world /\ checked [] by_length checked_world = true.
Proof.
  destruct (integrity_execute [] by_length world) as [res w'] eqn:Hrun.
  assert (checked_world = w') as -> by (unfold checked_world; by rewrite Hrun).
  assert (is_ok res = true) as Hok.
  { assert (is_ok (integrity_execute [] by_length world).1 = true) as Hr by (vm_compute; reflexivity). by rewrite Hrun in Hr. }
  destruct (integrity_execute_ok (fun l => l) same_schedule [] by_length by_length_own ltac:(repeat split) ltac:(repeat split) world res w' lengths_ok
    ltac:(reflexivity) Hrun) as (Hw & _ & Hc). auto.
Qed.

Lemma update_loop_ends_witness :
  is_ok (update_view_loop (fun l => l) [] None 1 by_length 1 checked_world).1 = true.
Proof.
  destruct checked_world_ok as [Hw Hc].
  rewrite (update_loop_ends (fun l => l) same_schedule [] None by_length by_length_own ltac:(repeat split) ltac:(repeat split)
    0 1 checked_world Hw Hc ltac:(vm_compute; reflexivity)).
  assert (is_ok (mapper_execute (fun l => l) [] None by_length checked_world).1 = true) as Hok by (vm_compute; reflexivity).
  by destruct (mapper_execute (fun l => l) [] None by_length checked_world) as [[] ?].
Defined.

Lemma counts_implemented p : implemented (by_contents p).
Proof. done. Qed.

Definition grouped := reduce_grouped_by_name (fun l => l) demo_schema [] None 1 (view_name (by_contents Unique)) None
  UpdateBefore world.

Lemma reduce_grouped_exact_witness :
  exists values, res_ok grouped.1 = Some values /\ [8] ∈ mv_key <$> values.
Proof.
  assert (is_ok grouped.1 = true) as Hok by (vm_compute; reflexivity).
  destruct grouped as [res w'] eqn:Hrun. destruct (reduce_grouped_exact (fun l => l) same_schedule demo_schema [] None
    (by_contents Unique) (by_contents_own Unique) ltac:(repeat split) ltac:(repeat split) (view_name (by_contents Unique))
    ltac:(reflexivity) 0 None world res w' contents_ok (counts_implemented Unique) Hrun) as [_ Hres].
  destruct res as [values|e|]; [|done..]. exists values. split; [done|].
  destruct (Hres values eq_refl) as (groups & Hall & _ & Hpres & _).
  assert (mv_key <$> values = groups.*1) as ->.
  { clear -Hall. induction Hall as [|g x groups values [Hk _] Hall IH]; [done|]. csimpl. by rewrite Hk, IH. }
  apply (Hpres [8] [2]); [done|]. change (view_collection (by_contents Unique)) with notes. rewrite notes_tree.
  exists (revision_new [8], [1]). vm_compute. reflexivity.
Defined.

Lemma sum_heads_app l1 l2 : sum_heads (l1 ++ l2) = sum_heads l1 + sum_heads l2.
Proof. induction l1 as [|m l1 IH]; [done|]. simpl. rewrite IH. lia. Qed.

Lemma counts_rereduce p : rereduces (by_contents p).
Proof.
  intros groups xs Hall. simpl. do 2 f_equal. induction Hall as [|[k ms] x groups xs Hx Hall IH]; [done|].
  rewrite bind_cons, sum_heads_app, <- IH. by injection Hx as <-.
Qed.

Definition reduced := reduce_by_name (fun l => l) demo_schema [] None 1 (view_name (by_contents Unique)) None
  UpdateBefore world.

Lemma reduce_whole_witness : exists x, res_ok reduced.1 = Some x /\ x = [3].
Proof.
  assert (res_ok reduced.1 = Some [3]) as Hok by (vm_compute; reflexivity). pose proof Hok as Hres%res_ok_Some.
  destruct reduced as [res w'] eqn:Hrun. destruct (reduce_whole (fun l => l) same_schedule demo_schema [] None
    (by_contents Unique) (by_contents_own Unique) ltac:(repeat split) ltac:(repeat split) (view_name (by_contents Unique))
    ltac:(reflexivity) 0 None world res w' [3] contents_ok (counts_implemented Unique) (counts_rereduce Unique) Hrun Hres)
    as (groups & _ & _ & _ & Hred).
  exists [3]. split; [exact Hok|]. by apply Ok_inj in Hred.
Defined.


(** ** Unexpected behaviour *)

Definition lengths (session : option Session) (key : option SerializedQueryKey) (limit : option Z) :=
  query_by_name (fun l => l) demo_schema [] session 1 (view_name by_length) key Ascending limit UpdateBefore world.

(** The limit of a query counts keys, not results, and has no effect when the
    key is given: a limit of one lets both notes of length one through, and so
    does a limit of none for that key. *)
Theorem query_limit_not_results :
  option_map (map ms_key) (res_ok (lengths None None (Some 1)).1) = Some [[1]; [1]] /\
  option_map (map ms_key) (res_ok (lengths None length_one (Some 0)).1) = Some [[1]; [1]].
Proof. split; vm_compute; reflexivity. Qed.

(** A session that may query a view but not read the last transaction id cannot
    query it. *)
Theorem query_needs_last_id :
  (lengths (session_without (DatabaseAct (TransactionAct GetLastId))) None None).1 =
    Err (CoreDenied (PermissionDenied (database_resource_name []) (DatabaseAct (TransactionAct GetLastId)))).
Proof.
  assert ((match (lengths (session_without (DatabaseAct (TransactionAct GetLastId))) None None).1 with
    | Err (CoreDenied (PermissionDenied r a)) =>
        bool_decide (r = database_resource_name []) && bool_decide (a = DatabaseAct (TransactionAct GetLastId))
    | _ => false end) = true) as Hrun by (vm_compute; reflexivity).
  destruct (lengths _ None None).1 as [|e|]; [done| |done]. destruct e as [|[r a]| | | | | | |]; try done.
  apply andb_true_iff in Hrun as [->%bool_decide_eq_true ->%bool_decide_eq_true]. done.
Qed.

(** Deleting the documents of a view does not need the permission for it. *)
Definition deleted (session : option Session) :=
  delete_docs_by_name (fun l => l) demo_schema [] session 1 (view_name by_length) length_one UpdateBefore world.
Theorem delete_docs_without_permission :
  res_ok (deleted (session_without (DatabaseAct (ViewAct ViewDeleteDocs)))).1 = Some 2.
Proof. vm_compute. reflexivity. Qed.

(** A view that emits every byte of a note. *)
Definition by_byte : View :=
  MkView (MkViewName notes (name_from (lit "by-byte"))) notes 0 Lazy
    (fun doc => Ok ((fun b => MkMapping (header doc) [b] []) <$> contents doc))
    (fun _ _ => Err ReduceUnimplemented).
Definition bytes_schema : Schematic :=
  (define_collections [MkCollection 0 notes None key_u64 [(1, by_byte)]] (schematic_new notes)).2.
Definition two_bytes : World :=
  MkWorld (MkRoots (<[document_tree_name notes := <[[1] := note [1] [7; 8]]> ∅]> ∅) true [None]) statuses_default.

(** Documents that emit two of the selected keys cannot be deleted through the
    view: the second deletion of the document fails, and with it the whole
    transaction. *)
Theorem delete_docs_emitting_twice :
  (delete_docs_by_name (fun l => l) bytes_schema [] None 1 (view_name by_byte) None UpdateBefore two_bytes).1 =
    Err (CoreDb (DocumentNotFound notes [1])).
Proof.
  assert ((match (delete_docs_by_name (fun l => l) bytes_schema [] None 1 (view_name by_byte) None UpdateBefore two_bytes).1 with
    | Err (CoreDb (DocumentNotFound c d)) => bool_decide (c = notes) && bool_decide (d = [1])
    | _ => false end) = true) as Hrun by (vm_compute; reflexivity).
  destruct (delete_docs_by_name _ _ _ _ _ _ _ _ two_bytes).1 as [|[[]| | | | | | | |]|]; try done.
  apply andb_true_iff in Hrun as [->%bool_decide_eq_true ->%bool_decide_eq_true]. done.
Qed.

End TasksExamples.
