(* ===== verification/JobsTheorems.v ===== *)
(** * What the job manager guarantees

    In every state the workers and clients can reach, at most one job per key is
    queued or running, and every handle waits for a job of its key or has
    received that job's result.  Jobs that wait for other jobs need a worker
    that does not. *)

From Stdlib Require Import ZArith Lia.
From stdpp Require Import base list option numbers gmap.
From S2P Require Import Prelude Jobs.

Local Open Scope Z_scope.

(** A key determines the type of the result and the jobs a job waits for:
    the keys of different kinds of jobs are different.  A job that is waited
    for does not wait itself. *)
Class JobsLaws (Job Key Outcome Ty : Type) `{Jobs_of Job Key Outcome Ty} := {
  key_type a b : job_key a = job_key b -> job_type a = job_type b;
  key_jobs a b : job_key a = job_key b -> jobs_of a = [] -> jobs_of b = [];
  jobs_flat a b : b ∈ jobs_of a -> jobs_of b = []
}.

Lemma NoDup_fmap_elem {A B} (f : A -> B) (l : list A) x y :
  NoDup (f <$> l) -> x ∈ l -> y ∈ l -> f x = f y -> x = y.
Proof.
  intros Hn Hx Hy Hf. apply list_elem_of_lookup in Hx as [i Hi], Hy as [k Hk].
  assert (i = k) as ->; [|congruence]. apply (NoDup_lookup (f <$> l) i k (f x)); [done|..].
  - by rewrite list_lookup_fmap, Hi.
  - by rewrite list_lookup_fmap, Hk, Hf.
Qed.

Lemma elem_of_replaced {A} (before after : list A) x x' w :
  w ∈ before ++ x' :: after -> w ∈ before ++ x :: after \/ w = x'.
Proof. rewrite !elem_of_app, !elem_of_cons. tauto. Qed.

Section Laws.
Context {Job Key Outcome Ty : Type} `{Countable Key} `{EqDecision Ty} `{Jobs_of Job Key Outcome Ty}
  `{!JobsLaws Job Key Outcome Ty}.

Abbreviation Jobs := (Jobs Job Key Outcome Ty).
Abbreviation ManagedJob := (ManagedJob Job Key).
Abbreviation event := (event Job Key Outcome).
Implicit Types (j : Jobs) (m : ManagedJob) (es : list event).

(** A channel on which the result of a job is to be sent. *)
Definition pending j (c : nat) (i : Z) : Prop :=
  exists l sd, result_senders j !! i = Some l /\ sd ∈ l /\ sender_channel sd = c.

(** ** Sending results *)

Definition with_mail j (mail' : gmap nat Outcome) : Jobs :=
  MkJobs (last_task_id j) (result_senders j) (keyed_jobs j) (queue j) (next_channel j) mail'.
Definition sent (result : Outcome) (senders : list (Sender (Ty:=Ty))) (mail0 : gmap nat Outcome) : gmap nat Outcome :=
  foldl (fun mail s => <[sender_channel s := result]> mail) mail0 senders.

Lemma send_results_ok ty result senders j :
  (forall s, s ∈ senders -> sender_type s = ty) ->
  send_results ty result senders j = (Ok tt, with_mail j (sent result senders (mail j))).
Proof.
  revert j. induction senders as [|s senders IH]; intros j Hty; simpl.
  { by destruct j. }
  rewrite decide_True by (apply Hty; left). stm_step. rewrite IH by (intros; apply Hty; by right). done.
Qed.

Lemma sent_lookup result senders mail0 c :
  sent result senders mail0 !! c = if decide (c ∈ sender_channel <$> senders) then Some result else mail0 !! c.
Proof.
  revert mail0. induction senders as [|s senders IH]; intros mail0; simpl; [done|]. rewrite IH.
  destruct (decide (c ∈ sender_channel <$> senders)) as [Hc|Hc].
  - by rewrite decide_True by (by right).
  - destruct (decide (c = sender_channel s)) as [->|Hne].
    + rewrite lookup_insert_eq, decide_True; [done|left].
    + rewrite lookup_insert_ne, decide_False; [done| |done]. rewrite elem_of_cons. naive_solver.
Qed.

(** ** The invariant *)

Definition serves m (job : Job) (h : Handle) : Prop := mj_id m = handle_id h /\ mj_key m = Some (job_key job).

(** [L] are the jobs that are queued, running or crashed, [es] the events so far. *)
Record jobs_wf j (L : list ManagedJob) es : Prop := {
  wf_ids m : m ∈ L -> 0 < mj_id m <= last_task_id j;
  wf_ids_NoDup : NoDup (mj_id <$> L);
  wf_keys m : m ∈ L -> mj_key m = Some (job_key (mj_job m));
  wf_keyed k i : keyed_jobs j !! k = Some i <-> exists m, m ∈ L /\ mj_id m = i /\ mj_key m = Some k;
  wf_senders i l : result_senders j !! i = Some l -> exists m, m ∈ L /\ mj_id m = i /\
    forall s, s ∈ l -> sender_type s = job_type (mj_job m);
  wf_pending c i : pending j c i -> (c < next_channel j)%nat /\ mail j !! c = None;
  wf_pending_fun c i i' : pending j c i -> pending j c i' -> i = i';
  wf_mail c : is_Some (mail j !! c) -> (c < next_channel j)%nat;
  wf_handles job h : Submitted job h ∈ es ->
    (pending j (receiver h) (handle_id h) /\ exists m, m ∈ L /\ serves m job h) \/
    (exists m result, Completed m result ∈ es /\ serves m job h /\ mail j !! receiver h = Some result);
  wf_completed m result : Completed m result ∈ es -> mj_id m <= last_task_id j /\ mj_id m ∉ mj_id <$> L;
  wf_count : 0 <= last_task_id j <= Z.of_nat (length es)
}.

Lemma jobs_wf_default : jobs_wf jobs_default [] [].
Proof.
  split; simpl; try done.
  - intros m ?%elem_of_nil. done.
  - constructor.
  - intros m ?%elem_of_nil. done.
  - intros k i. rewrite lookup_empty. split; [done|]. by intros (m & ?%elem_of_nil & _).
  - intros c i (l & s & Hl & _). simpl in Hl. by rewrite lookup_empty in Hl.
  - intros c i i' (l & s & Hl & _). simpl in Hl. by rewrite lookup_empty in Hl.
  - intros c [? Hc]. by rewrite lookup_empty in Hc.
  - intros job h ?%elem_of_nil. done.
  - intros m result ?%elem_of_nil. done.
Qed.

Lemma jobs_wf_perm j L L' es : L ≡ₚ L' -> jobs_wf j L es -> jobs_wf j L' es.
Proof.
  intros HL []. split; try done.
  - intros m Hm. rewrite <- HL in Hm. auto.
  - by rewrite <- HL.
  - intros m Hm. rewrite <- HL in Hm. auto.
  - intros k i. rewrite wf_keyed0. by setoid_rewrite HL.
  - intros i l Hl. destruct (wf_senders0 i l Hl) as (m & Hm & ?). rewrite HL in Hm. eauto.
  - intros job h [[Hp (m & Hm & Hs)]|Hr]%wf_handles0; [left|by right]. rewrite HL in Hm. eauto.
  - intros m result Hc. rewrite <- HL. eauto.
Qed.

Lemma jobs_wf_queue j q L es :
  jobs_wf j L es ->
  jobs_wf (MkJobs (last_task_id j) (result_senders j) (keyed_jobs j) q (next_channel j) (mail j)) L es.
Proof. by intros []. Qed.

Lemma jobs_wf_internal j L es : jobs_wf j L es -> jobs_wf j L (es ++ [Internal]).
Proof.
  intros []. split; try done.
  - intros job h [Hh|?%list_elem_of_singleton]%elem_of_app; [|done].
    destruct (wf_handles0 job h Hh) as [?|(m & res & ? & ?)]; [by left|right]. exists m, res.
    split; [|done]. apply elem_of_app. by left.
  - intros m result [Hc|?%list_elem_of_singleton]%elem_of_app; [eauto|done].
  - rewrite length_app. simpl. lia.
Qed.

(** ** Submitting a job *)

Lemma pending_create i ty j h j' c i' :
  create_new_task_handle i ty j = (h, j') ->
  pending j' c i' <-> pending j c i' \/ (c = next_channel j /\ i' = i).
Proof.
  intros [= <- <-]. unfold pending. simpl. split.
  - intros (l & s & Hl & Hs & Hc). apply lookup_insert_Some in Hl as [[<- <-]|[Hne Hl]]; [|by left; eauto].
    apply elem_of_app in Hs as [Hs| ->%list_elem_of_singleton].
    + left. destruct (result_senders j !! i) as [l|]; [|by apply elem_of_nil in Hs]. eauto.
    + right. by rewrite <- Hc.
  - intros [(l & s & Hl & Hs & Hc)|[-> ->]].
    + destruct (decide (i' = i)) as [->|Hne].
      * rewrite lookup_insert_eq, Hl. eexists _, s. split_and!; [done| |done]. apply elem_of_app. by left.
      * rewrite lookup_insert_ne by done. eauto.
    + rewrite lookup_insert_eq. eexists _, (MkSender (next_channel j) ty). split_and!; [done| |done].
      apply elem_of_app. right. by left.
Qed.

(** A new handle for a job in progress. *)
Lemma wf_new_handle j L es m job h j' :
  jobs_wf j L es -> m ∈ L -> mj_key m = Some (job_key job) ->
  create_new_task_handle (mj_id m) (job_type job) j = (h, j') ->
  jobs_wf j' L (es ++ [Submitted job h]).
Proof.
  intros [] Hm Hkey Hrun. pose proof (fun c i => pending_create _ _ _ _ _ c i Hrun) as Hpend.
  injection Hrun as <- <-. split; simpl; try done.
  - intros i l [[<- <-]|[Hne Hl]]%lookup_insert_Some; [|by eapply wf_senders0].
    exists m. split_and!; [done..|]. intros s [Hs| ->%list_elem_of_singleton]%elem_of_app.
    + destruct (result_senders j !! mj_id m) as [l|] eqn:Hl; [|by apply elem_of_nil in Hs].
      destruct (wf_senders0 _ _ Hl) as (m' & Hm' & Hid & Hty). rewrite (Hty s Hs).
      apply wf_keys0 in Hm' as Hk'. apply key_type. f_equal.
      assert (m' = m) as -> by (by apply (NoDup_fmap_elem mj_id L)). done.
    + simpl. apply wf_keys0 in Hm as Hk'. apply key_type. congruence.
  - intros c i [Hp|[-> ->]]%Hpend; [destruct (wf_pending0 c i Hp); split; [lia|done]|]. split; [lia|].
    apply eq_None_not_Some. intros Hs%wf_mail0. lia.
  - intros c i i' [Hp|[Hc Hi]]%Hpend [Hp'|[Hc' Hi']]%Hpend.
    + by eapply wf_pending_fun0.
    + apply wf_pending0 in Hp as [? _]. lia.
    + apply wf_pending0 in Hp' as [? _]. lia.
    + congruence.
  - intros c Hc. pose proof (wf_mail0 c Hc). lia.
  - intros job' h' [Hh|[= -> ->]%list_elem_of_singleton]%elem_of_app.
    + destruct (wf_handles0 job' h' Hh) as [[Hp Hs]|(m' & res & Hc & Hs & Hr)].
      * left. split; [|done]. apply Hpend. by left.
      * right. exists m', res. split_and!; [|done..]. apply elem_of_app. by left.
    + left. simpl. split; [apply Hpend; by right|]. exists m. done.
  - intros m' result [Hc|?%list_elem_of_singleton]%elem_of_app; [eauto|done].
  - rewrite length_app. simpl. lia.
Qed.

Lemma wf_submit j L es job h j' :
  jobs_wf j L es -> Z.of_nat (length es) < 2 ^ 64 - 1 -> lookup_or_enqueue job j = (h, j') ->
  exists new, queue j' = queue j ++ new /\ jobs_wf j' (new ++ L) (es ++ [Submitted job h]).
Proof.
  intros Hwf Hbound Hrun. unfold lookup_or_enqueue in Hrun.
  destruct (keyed_jobs j !! job_key job) as [i|] eqn:Hk.
  { apply (wf_keyed _ _ _ Hwf) in Hk as (m & Hm & <- & Hkey). exists []. split.
    - injection Hrun as <- <-. simpl. by rewrite app_nil_r.
    - by eapply wf_new_handle. }
  unfold enqueue in Hrun. pose proof (wf_count _ _ _ Hwf) as Hcount.
  assert (wrapping_add u64 (last_task_id j) 1 = last_task_id j + 1) as Hwrap.
  { unfold wrapping_add. apply wrap_id; [done|]. apply in_range_spec. unfold int_min, int_max. simpl. lia. }
  rewrite Hwrap in Hrun. set (i := last_task_id j + 1) in *. set (m := MkManagedJob i job (Some (job_key job))) in *.
  destruct (create_new_task_handle _ _ _) as [h1 j1] eqn:Hc. injection Hrun as <- <-.
  exists [m]. split; [by injection Hc as <- <-|].
  assert (result_senders j !! i = None) as Hfresh.
  { destruct (result_senders j !! i) as [l|] eqn:Hl; [|done]. apply (wf_senders _ _ _ Hwf) in Hl as (m' & Hm' & Hid & _).
    apply (wf_ids _ _ _ Hwf) in Hm'. lia. }
  assert (jobs_wf (MkJobs i (result_senders j) (<[job_key job := i]> (keyed_jobs j)) (queue j ++ [m]) (next_channel j) (mail j))
    (m :: L) (es ++ [Internal])) as Hwf1.
  { destruct Hwf. split; simpl; try done.
    - intros m' [->|Hm']%elem_of_cons; simpl; [lia|]. pose proof (wf_ids0 m' Hm'). lia.
    - constructor; [|done]. intros (m' & Hid & Hm')%list_elem_of_fmap. apply wf_ids0 in Hm'. simpl in Hid. lia.
    - intros m' [->|Hm']%elem_of_cons; [done|auto].
    - intros k i'. rewrite lookup_insert_Some. split.
      + intros [[<- <-]|[Hne (m' & Hm' & ?)%wf_keyed0]]; [exists m; split; [left|done]|].
        exists m'. split; [by right|done].
      + intros (m' & [->|Hm']%elem_of_cons & Hid & Hkk); [left; simpl in *; naive_solver|]. right. split.
        * intros <-. assert (keyed_jobs j !! job_key job = Some i') by (apply wf_keyed0; eauto). congruence.
        * apply wf_keyed0. eauto.
    - intros i' l Hl. destruct (wf_senders0 i' l Hl) as (m' & ? & ?). exists m'. split; [by right|done].
    - intros job' h' [Hh|?%list_elem_of_singleton]%elem_of_app; [|done].
      destruct (wf_handles0 job' h' Hh) as [[Hp (m' & ? & ?)]|(m' & res & ? & ?)].
      + left. split; [done|]. exists m'. split; [by right|done].
      + right. exists m', res. split; [|done]. apply elem_of_app. by left.
    - intros m' result [Hcm|?%list_elem_of_singleton]%elem_of_app; [|done].
      destruct (wf_completed0 m' result Hcm) as [Hle Hnin]. split; [lia|]. rewrite elem_of_cons. intros [Heq|?]; [|done].
      simpl in Heq. lia.
    - rewrite length_app. simpl. lia. }
  assert (forall e, e ∈ es ++ [Submitted job h1] -> e ∈ (es ++ [Internal]) ++ [Submitted job h1]) as Hsub
    by (intros e; rewrite !elem_of_app; tauto).
  pose proof (wf_new_handle _ _ _ m job h1
    (MkJobs (last_task_id j1) (result_senders j1) (<[job_key job := handle_id h1]> (keyed_jobs j1)) (queue j1)
       (next_channel j1) (mail j1)) Hwf1 ltac:(left) eq_refl) as Hwf2.
  injection Hc as <- <-. specialize (Hwf2 eq_refl). destruct Hwf2. split; try done.
  - intros job' h' Hh. destruct (wf_handles0 job' h' (Hsub _ Hh)) as [?|(m' & res & Hres & ?)]; [by left|right].
    exists m', res. split; [|done]. rewrite !elem_of_app, !list_elem_of_singleton in Hres. rewrite elem_of_app.
    destruct Hres as [[Hres|Hres]|Hres]; [by left|discriminate Hres|discriminate Hres].
  - intros m' result [Hc'|?%list_elem_of_singleton]%elem_of_app; [|done].
    apply (wf_completed0 m' result), elem_of_app. left. apply elem_of_app. by left.
  - simpl. rewrite length_app. simpl. lia.
Qed.

(** ** Completing a job *)

Lemma wf_complete j m L es result :
  jobs_wf j (m :: L) es ->
  exists j', job_completed (mj_id m) (mj_key m) (job_type (mj_job m)) result j = (Ok tt, j') /\
    queue j' = queue j /\ jobs_wf j' L (es ++ [Completed m result]).
Proof.
  intros []. assert (m ∈ m :: L) as Hm by left. pose proof (wf_keys0 m Hm) as Hkey.
  unfold job_completed. rewrite Hkey. stm_step. rewrite (stm_bind_Ok st_get _ _ _ _ eq_refl). simpl.
  assert (forall m', m' ∈ L -> mj_id m' <> mj_id m) as Hids.
  { intros m' Hm' Heq. rewrite fmap_cons, NoDup_cons in wf_ids_NoDup0. apply (proj1 wf_ids_NoDup0).
    rewrite <- Heq. by apply list_elem_of_fmap_2. }
  assert (forall m', m' ∈ L -> mj_key m' <> mj_key m) as Hkeys.
  { intros m' Hm' Heq. apply (Hids m' Hm').
    assert (keyed_jobs j !! job_key (mj_job m) = Some (mj_id m)) as E1 by (apply wf_keyed0; eauto).
    assert (keyed_jobs j !! job_key (mj_job m) = Some (mj_id m')) as E2
      by (apply wf_keyed0; exists m'; split; [by right|split; [done|congruence]]). congruence. }
  set (senders := default [] (result_senders j !! mj_id m)).
  exists (MkJobs (last_task_id j) (delete (mj_id m) (result_senders j)) (delete (job_key (mj_job m)) (keyed_jobs j))
            (queue j) (next_channel j) (sent result senders (mail j))).
  split.
  { unfold senders. destruct (result_senders j !! mj_id m) as [l|] eqn:Hl.
    - stm_step. rewrite send_results_ok; [done|]. intros s Hs.
      destruct (wf_senders0 _ _ Hl) as (m' & [->|Hm']%elem_of_cons & Hid & Hty); [by apply Hty|].
      by apply Hids in Hm'.
    - simpl. by rewrite (delete_id (result_senders j)). }
  split; [done|].
  assert (forall c, c ∈ sender_channel <$> senders <-> pending j c (mj_id m)) as Hsend.
  { intros c. unfold senders, pending. rewrite list_elem_of_fmap. split.
    - intros (s & -> & Hs). destruct (result_senders j !! mj_id m); [eauto 10|by apply elem_of_nil in Hs].
    - intros (l & s & Hl & Hs & <-). rewrite Hl. eauto. }
  set (j' := MkJobs _ _ _ _ _ _). assert (forall c i, pending j' c i <-> pending j c i /\ i <> mj_id m) as Hpend.
  { intros c i. unfold pending, j'. simpl. split.
    - intros (l & s & [Hne Hl]%lookup_delete_Some & Hs). split; [by exists l, s|congruence].
    - intros [(l & s & Hl & Hs) Hne]. exists l, s. by rewrite lookup_delete_Some. }
  assert (forall c, mail j' !! c = Some result /\ pending j c (mj_id m) \/
    mail j' !! c = mail j !! c /\ ~ pending j c (mj_id m)) as Hmail.
  { intros c. unfold j'. simpl. rewrite sent_lookup, <- Hsend. case_decide; auto. }
  rewrite fmap_cons, NoDup_cons in wf_ids_NoDup0. split; try done.
  - intros m' Hm'. apply wf_ids0. by right.
  - apply wf_ids_NoDup0.
  - intros m' Hm'. apply wf_keys0. by right.
  - intros k i. unfold j'. cbn [keyed_jobs]. rewrite lookup_delete_Some, wf_keyed0. split.
    + intros [Hne (m' & [->|Hm']%elem_of_cons & Hid & Hk)]; [congruence|eauto].
    + intros (m' & Hm' & Hid & Hk). split; [|exists m'; split; [by right|done]].
      intros <-. apply (Hkeys m' Hm'). congruence.
  - intros i l. unfold j'. cbn [result_senders]. intros [Hne Hl]%lookup_delete_Some.
    destruct (wf_senders0 i l Hl) as (m' & [->|Hm']%elem_of_cons & Hid & ?); [done|eauto].
  - intros c i [Hp Hne]%Hpend. destruct (wf_pending0 c i Hp) as [? Hnone]. split; [done|].
    destruct (Hmail c) as [[_ Hp']|[-> _]]; [|done]. exfalso. apply Hne. by eapply wf_pending_fun0.
  - intros c i i' [Hp _]%Hpend [Hp' _]%Hpend. by eapply wf_pending_fun0.
  - intros c Hc. destruct (Hmail c) as [[_ Hp']|[Heq _]]; [by apply wf_pending0 in Hp' as [? _]|].
    apply wf_mail0. by rewrite <- Heq.
  - intros job h [Hh|?%list_elem_of_singleton]%elem_of_app; [|done].
    destruct (wf_handles0 job h Hh) as [[Hp (m' & [->|Hm']%elem_of_cons & Hs)]|(m' & res & Hc & Hs & Hr)].
    + right. exists m, result. split_and!; [apply elem_of_app; right; by left|done|].
      destruct (Hmail (receiver h)) as [[? _]|[_ Hno]]; [done|]. exfalso. apply Hno. by rewrite (proj1 Hs).
    + left. split; [|eauto]. apply Hpend. split; [done|]. rewrite <- (proj1 Hs). by apply Hids.
    + right. exists m', res. split_and!; [apply elem_of_app; by left|done|].
      destruct (Hmail (receiver h)) as [[_ Hp]|[-> _]]; [|done]. apply wf_pending0 in Hp as [_ Hnone]. congruence.
  - intros m' result' [Hc|[= -> ->]%list_elem_of_singleton]%elem_of_app.
    + destruct (wf_completed0 m' result' Hc) as [Hle Hnin]. split; [done|]. rewrite fmap_cons in Hnin. set_solver.
    + split; [by apply wf_ids0|apply wf_ids_NoDup0].
  - rewrite length_app. unfold j'. simpl. lia.
Qed.

(** ** The system *)

Abbreviation System := (System Job Key Outcome Ty).
Implicit Types (s : System).

(** The jobs that are not completed. *)
Definition live s : list ManagedJob := queue (jobs s) ++ (w_job <$> running s) ++ crashed s.

(** What a worker enqueues and waits for are the jobs its job depends on. *)
Definition worker_ok es (w : Worker Job Key) : Prop :=
  (forall job, job ∈ to_enqueue w -> job ∈ jobs_of (mj_job (w_job w))) /\
  (forall c, c ∈ waiting w -> exists job h,
     Submitted job h ∈ es /\ receiver h = c /\ job ∈ jobs_of (mj_job (w_job w))).

Record system_wf s es : Prop := {
  sys_jobs : jobs_wf (jobs s) (live s) es;
  sys_workers w : w ∈ running s -> worker_ok es w
}.

Lemma worker_ok_mono es es' w : (forall e, e ∈ es -> e ∈ es') -> worker_ok es w -> worker_ok es' w.
Proof. intros Hsub [He Hw]. split; [done|]. intros c (job & h & ? & ?)%Hw. exists job, h. auto. Qed.

Lemma work_wf s es e s' :
  system_wf s es -> Z.of_nat (length es) < 2 ^ 64 - 1 -> work s e s' -> system_wf s' (es ++ [e]).
Proof.
  intros [Hj Hw] Hlen Hstep. assert (forall e', e' ∈ es -> e' ∈ es ++ [e]) as Hsub by (intros; apply elem_of_app; by left).
  destruct Hstep as [m q n s Hq Hi|s before after m job rest ws h j Hr Hl|s before after m c ws result Hr Hm Ho
    |s before after m ws result j Hr Hws Hc]; unfold live in *; simpl in *.
  - split; simpl.
    + apply jobs_wf_internal, jobs_wf_queue. eapply jobs_wf_perm; [|exact Hj]. rewrite Hq. unfold live. simpl. solve_Permutation.
    + intros w [->|Hin]%elem_of_cons; [split; simpl; [done|]; intros c ?%elem_of_nil; done|].
      eapply worker_ok_mono; [exact Hsub|auto].
  - destruct (wf_submit _ _ _ _ _ _ Hj Hlen Hl) as (new & Hqueue & Hwf). split.
    + eapply jobs_wf_perm; [|exact Hwf]. unfold live. simpl. rewrite Hqueue, Hr, !fmap_app. simpl. solve_Permutation.
    + simpl. rewrite Hr in Hw. intros w Hin. assert (w ∈ before ++ MkWorker m (job :: rest) ws :: after \/
        w = MkWorker m rest (ws ++ [receiver h])) as [Hin'| ->] by (by apply elem_of_replaced).
      { eapply worker_ok_mono; [exact Hsub|auto]. }
      destruct (Hw (MkWorker m (job :: rest) ws)) as [He Hc]; [apply elem_of_app; right; left|]. simpl in *. split; simpl.
      * intros job' Hj'. apply He. by right.
      * intros c [Hin'| ->%list_elem_of_singleton]%elem_of_app.
        -- destruct (Hc c Hin') as (job' & h' & ? & ?). exists job', h'. auto.
        -- exists job, h. split_and!; [apply elem_of_app; right; by left|done|]. apply He. left.
  - split; simpl.
    + apply jobs_wf_internal. eapply jobs_wf_perm; [|exact Hj]. unfold live. simpl. by rewrite Hr, !fmap_app.
    + rewrite Hr in Hw. intros w Hin. assert (w ∈ before ++ MkWorker m [] (c :: ws) :: after \/ w = MkWorker m [] ws)
        as [Hin'| ->] by (by apply elem_of_replaced).
      { eapply worker_ok_mono; [exact Hsub|auto]. }
      destruct (Hw (MkWorker m [] (c :: ws))) as [He Hc]; [apply elem_of_app; right; left|]. simpl in *.
      split; simpl; [done|]. intros c' Hc'. destruct (Hc c') as (job' & h' & ? & ?); [by right|]. exists job', h'. auto.
  - destruct (wf_complete (jobs s) m (queue (jobs s) ++ (w_job <$> before ++ after) ++ crashed s) es result)
      as (j' & Hrun & Hqueue & Hwf).
    { eapply jobs_wf_perm; [|exact Hj]. rewrite Hr, !fmap_app. simpl. solve_Permutation. }
    rewrite Hc in Hrun. injection Hrun as ->. split; simpl.
    + eapply jobs_wf_perm; [|exact Hwf]. unfold live. simpl. by rewrite Hqueue.
    + intros w Hin. eapply worker_ok_mono; [exact Hsub|]. apply Hw. rewrite Hr, elem_of_app, elem_of_cons.
      apply elem_of_app in Hin. tauto.
Qed.

Lemma step_wf s es e s' :
  system_wf s es -> Z.of_nat (length es) < 2 ^ 64 - 1 -> step s e s' -> system_wf s' (es ++ [e]).
Proof.
  intros Hwf Hlen Hstep. destruct Hstep as [s e s' Hs|job h j s Hl|s before after m result j Hr Hc|s before after m es' ws Hr].
  { by eapply work_wf. }
  all: destruct Hwf as [Hj Hw]; assert (forall e e', e' ∈ es -> e' ∈ es ++ [e]) as Hsub by (intros; apply elem_of_app; by left).
  - destruct (wf_submit _ _ _ _ _ _ Hj Hlen Hl) as (new & Hqueue & Hwf). split.
    + eapply jobs_wf_perm; [|exact Hwf]. unfold live. simpl. rewrite Hqueue. solve_Permutation.
    + intros w Hin. eapply worker_ok_mono; [apply Hsub|auto].
  - exfalso. destruct (wf_complete (jobs s) m (queue (jobs s) ++ (w_job <$> before ++ after) ++ crashed s) es result)
      as (j' & Hrun & _).
    { eapply jobs_wf_perm; [|exact Hj]. unfold live. rewrite Hr, !fmap_app. simpl. solve_Permutation. }
    by rewrite Hc in Hrun.
  - split; simpl.
    + apply jobs_wf_internal. eapply jobs_wf_perm; [|exact Hj]. unfold live. simpl. rewrite Hr, !fmap_app. simpl.
      solve_Permutation.
    + intros w Hin. eapply worker_ok_mono; [apply Hsub|]. apply Hw. rewrite Hr, elem_of_app, elem_of_cons.
      apply elem_of_app in Hin. tauto.
Qed.

Lemma run_wf n es s : run (started n) es s -> Z.of_nat (length es) < 2 ^ 64 -> system_wf s es.
Proof.
  intros Hrun. remember (started n) as s0 eqn:Hs0. induction Hrun as [s|s es s' e s'' Hrun IH Hstep]; intros Hlen.
  - subst. split; [apply jobs_wf_default|]. intros w ?%elem_of_nil. done.
  - rewrite length_app in Hlen. simpl in Hlen. eapply step_wf; [apply IH; [done|lia]|lia|done].
Qed.

(** C34: background jobs are not lost or run twice at once.  In every state that
    clients and any number of workers reach with fewer than 2^64 steps, at most
    one job of a key is queued, running or crashed, and every handle either
    waits for such a job of the key it was asked for and has nothing in its
    channel, or holds in its channel the result with which a job of that key
    completed. *)
Theorem handles_served n es s :
  run (started n) es s -> Z.of_nat (length es) < 2 ^ 64 ->
  (forall m m', m ∈ live s -> m' ∈ live s -> mj_key m = mj_key m' -> m = m') /\
  (forall job h, Submitted job h ∈ es ->
     (mail (jobs s) !! receiver h = None /\ exists m, m ∈ live s /\ serves m job h) \/
     (exists m result, Completed m result ∈ es /\ serves m job h /\ mail (jobs s) !! receiver h = Some result)).
Proof.
  intros Hrun Hlen. destruct (run_wf _ _ _ Hrun Hlen) as [Hwf _]. split.
  - intros m m' Hm Hm' Hkey. apply (NoDup_fmap_elem mj_id (live s)); [apply Hwf|done..|].
    pose proof (wf_keys _ _ _ Hwf m Hm) as Hk.
    assert (keyed_jobs (jobs s) !! job_key (mj_job m) = Some (mj_id m)) by (apply (wf_keyed _ _ _ Hwf); eauto).
    assert (keyed_jobs (jobs s) !! job_key (mj_job m) = Some (mj_id m'))
      by (apply (wf_keyed _ _ _ Hwf); exists m'; split_and!; [done..|congruence]). congruence.
  - intros job h Hh. destruct (wf_handles _ _ _ Hwf job h Hh) as [[Hp Hm]|Hr]; [left|by right].
    split; [|done]. by apply (wf_pending _ _ _ Hwf) in Hp as [_ ?].
Qed.

(** ** Termination *)

Definition composite m : Prop := jobs_of (mj_job m) <> [].
#[local] Instance composite_dec m : Decision (composite m).
Proof.
  unfold composite. destruct (jobs_of (mj_job m)); [right; by intros []|by left].
Defined.

Definition queued_weight m : nat := 2 + 4 * length (jobs_of (mj_job m)).
Definition worker_weight (w : Worker Job Key) : nat := 1 + 4 * length (to_enqueue w) + length (waiting w).
Definition weight s : nat :=
  sum_list (queued_weight <$> queue (jobs s)) + sum_list (worker_weight <$> running s).

Lemma sum_list_app l1 l2 : sum_list (l1 ++ l2) = (sum_list l1 + sum_list l2)%nat.
Proof. induction l1; simpl; lia. Qed.

Lemma sum_list_cons x l : sum_list (x :: l) = (x + sum_list l)%nat.
Proof. done. Qed.
Lemma worker_weight_eq m jobs cs : worker_weight (MkWorker m jobs cs) = (1 + 4 * length jobs + length cs)%nat.
Proof. done. Qed.

(** The jobs a submission adds to the queue. *)
Lemma lookup_or_enqueue_queue job (j : Jobs) h j' :
  lookup_or_enqueue job j = (h, j') ->
  queue j' = queue j \/ exists m, queue j' = queue j ++ [m] /\ mj_job m = job.
Proof.
  unfold lookup_or_enqueue, enqueue. destruct (keyed_jobs j !! job_key job); intros [= <- <-]; simpl; eauto.
Qed.

Lemma job_completed_queue i key ty result (j : Jobs) res j' :
  job_completed i key ty result j = (res, j') -> queue j' = queue j.
Proof.
  assert (forall senders (j : Jobs) res j', send_results ty result senders j = (res, j') -> queue j' = queue j) as Hsend.
  { clear. induction senders as [|s senders IH]; intros j res j'; simpl; [by intros [= _ <-]|].
    case_decide; [|by intros [= _ <-]]. stm_step. intros Hrun%IH. done. }
  unfold job_completed. intros Hrun.
  assert (exists j1, queue j1 = queue j /\ (match result_senders j1 !! i with
    | Some senders => st_put (MkJobs (last_task_id j1) (delete i (result_senders j1)) (keyed_jobs j1) (queue j1)
        (next_channel j1) (mail j1));; send_results ty result senders
    | None => mret tt end) j1 = (res, j')) as (j1 & Hq & Hrun').
  { destruct key; [eexists; split; [|exact Hrun]; done|by exists j]. }
  rewrite <- Hq. destruct (result_senders j1 !! i); [|by injection Hrun' as _ <-].
  revert Hrun'. stm_step. intros Hrun'%Hsend. done.
Qed.

Lemma work_decreases s es e s' : system_wf s es -> work s e s' -> (weight s' < weight s)%nat.
Proof.
  intros [_ Hw] Hstep. unfold weight.
  destruct Hstep as [m q n s Hq Hi|s before after m job rest ws h j Hr Hl|s before after m c ws result Hr Hm Ho
    |s before after m ws result j Hr Hws Hc]; cbn [jobs running queue].
  - rewrite Hq, !fmap_cons, !sum_list_cons, worker_weight_eq. unfold queued_weight at 2. cbn [length]. lia.
  - assert (jobs_of job = []) as Hleaf.
    { destruct (Hw (MkWorker m (job :: rest) ws)) as [He _]; [rewrite Hr; apply elem_of_app; right; left|].
      eapply jobs_flat, He. left. }
    rewrite Hr, !fmap_app, !fmap_cons, !sum_list_app, !sum_list_cons, !worker_weight_eq, length_app. cbn [length].
    apply lookup_or_enqueue_queue in Hl as [->|(m' & -> & <-)]; [lia|].
    rewrite fmap_app, fmap_cons, fmap_nil, sum_list_app, sum_list_cons. unfold queued_weight at 2. rewrite Hleaf.
    cbn [length]. change (sum_list []) with 0%nat. lia.
  - rewrite Hr, !fmap_app, !fmap_cons, !sum_list_app, !sum_list_cons, !worker_weight_eq. cbn [length]. lia.
  - rewrite (job_completed_queue _ _ _ _ _ _ _ Hc), Hr, !fmap_app, !fmap_cons, !sum_list_app, !sum_list_cons,
      worker_weight_eq. lia.
Qed.

(** ** Progress *)

(** A worker that does not wait for other jobs is left. *)
Definition worker_left s : Prop :=
  crashed s = [] /\ (length (filter composite (live s)) < idle s + length (running s))%nat.

Lemma work_worker_left s es e s' : system_wf s es -> work s e s' -> worker_left s -> worker_left s'.
Proof.
  intros [_ Hw] Hstep [Hcr Hlt]. destruct Hstep as [m q n s Hq Hi|s before after m job rest ws h j Hr Hl
    |s before after m c ws result Hr Hm Ho|s before after m ws result j Hr Hws Hc];
    (split; [exact Hcr|]); unfold live in *; cbn [jobs running queue idle crashed] in *; rewrite Hcr in *.
  - rewrite Hq, Hi in Hlt. eapply Nat.le_lt_trans; [|eapply Nat.lt_le_trans; [exact Hlt|]]; [|simpl; lia].
    apply Nat.eq_le_incl, Permutation_length, filter_Permutation. simpl. solve_Permutation.
  - assert (jobs_of job = []) as Hleaf.
    { destruct (Hw (MkWorker m (job :: rest) ws)) as [He _]; [rewrite Hr; apply elem_of_app; right; left|].
      eapply jobs_flat, He. left. }
    assert (filter composite (queue j) = filter composite (queue (jobs s))) as Hqueue.
    { apply lookup_or_enqueue_queue in Hl as [->|(m' & -> & <-)]; [done|]. rewrite filter_app.
      rewrite filter_cons, decide_False; [by rewrite app_nil_r|]. intros Hc. by apply Hc. }
    rewrite Hr in Hlt. rewrite !filter_app, Hqueue, !fmap_app, !length_app in *. exact Hlt.
  - rewrite Hr in Hlt. by rewrite !fmap_app, !length_app in *.
  - rewrite (job_completed_queue _ _ _ _ _ _ _ Hc). rewrite Hr in Hlt.
    rewrite !fmap_app, fmap_cons, !filter_app, filter_cons, !length_app in *. cbn [w_job length] in *.
    case_decide; cbn [length] in *; lia.
Qed.

Lemma served_leaf s es job h :
  system_wf s es -> Submitted job h ∈ es -> jobs_of job = [] -> mail (jobs s) !! receiver h = None ->
  exists m, m ∈ live s /\ ~ composite m.
Proof.
  intros [Hwf _] Hh Hleaf Hnone. destruct (wf_handles _ _ _ Hwf job h Hh) as [[_ (m & Hm & _ & Hk)]|(m & r & _ & _ & Hr)];
    [|congruence]. exists m. split; [done|]. intros Hc. apply Hc. eapply key_jobs; [|exact Hleaf].
  rewrite (wf_keys _ _ _ Hwf m Hm) in Hk. congruence.
Qed.

Context `{!Inhabited Outcome}.

Lemma work_progress s es :
  system_wf s es -> worker_left s -> live s <> [] -> exists e s', work s e s'.
Proof.
  intros Hwf [Hcr Hlt] Hlive. pose proof Hwf as [Hj Hw].
  destruct (decide (Exists (fun w => to_enqueue w <> []) (running s))) as [Hex|Hno1].
  { apply List.Exists_exists in Hex as ([m js ws] & Hin%list_elem_of_In & He). apply list_elem_of_split in Hin as (b & a & Hr).
    destruct js as [|job rest]; [done|]. destruct (lookup_or_enqueue job (jobs s)) as [h j] eqn:Hl.
    eexists _, _. by eapply work_enqueue. }
  assert (forall m js ws, MkWorker m js ws ∈ running s -> js = []) as Hall1.
  { intros m js ws Hin. destruct js as [|job rest]; [done|]. exfalso. apply Hno1, List.Exists_exists.
    exists (MkWorker m (job :: rest) ws). split; [by apply list_elem_of_In|done]. }
  assert (forall before after m ws result, running s = before ++ MkWorker m [] ws :: after ->
    exists j, job_completed (mj_id m) (mj_key m) (job_type (mj_job m)) result (jobs s) = (Ok tt, j)) as Hcomplete.
  { intros before after m ws result Hr.
    destruct (wf_complete (jobs s) m (queue (jobs s) ++ (w_job <$> before ++ after) ++ crashed s) es result)
      as (j & Hrun & _); [|eauto].
    eapply jobs_wf_perm; [|exact Hj]. unfold live. rewrite Hr, !fmap_app. simpl. solve_Permutation. }
  destruct (decide (Exists (fun w => waiting w = []) (running s))) as [Hex|Hno2].
  { apply List.Exists_exists in Hex as ([m js ws] & Hin%list_elem_of_In & He). simpl in He. subst ws.
    rewrite (Hall1 _ _ _ Hin) in Hin. apply list_elem_of_split in Hin as (b & a & Hr).
    destruct (Hcomplete _ _ _ _ inhabitant Hr) as [j Hc]. eexists _, _. eapply work_finish; [exact Hr|by left|exact Hc]. }
  destruct (decide (Exists (fun w => is_Some (head (waiting w) ≫= fun c => mail (jobs s) !! c)) (running s))) as [Hex|Hno3].
  { apply List.Exists_exists in Hex as ([m js ws] & Hin%list_elem_of_In & [result Hm]). simpl in Hm.
    rewrite (Hall1 _ _ _ Hin) in Hin. apply list_elem_of_split in Hin as (b & a & Hr). destruct ws as [|c ws]; [done|].
    simpl in Hm. destruct (outcome_ok result) eqn:Ho; [eexists _, _; by eapply work_receive|].
    destruct (Hcomplete _ _ _ _ result Hr) as [j Hc]. eexists _, _.
    eapply work_finish; [exact Hr| |exact Hc]. right. by exists c, result. }
  assert (forall w, w ∈ running s -> composite (w_job w) /\ exists m, m ∈ live s /\ ~ composite m) as Hblocked.
  { intros [m js ws] Hin. destruct ws as [|c ws].
    { exfalso. apply Hno2, List.Exists_exists. exists (MkWorker m js []). split; [by apply list_elem_of_In|done]. }
    destruct (Hw _ Hin) as [_ Hwait]. destruct (Hwait c) as (job & h & Hh & Hc & Hjob); [left|].
    split; [unfold composite; simpl in *; intros He; rewrite He in Hjob; by apply elem_of_nil in Hjob|].
    eapply served_leaf; [done|exact Hh|by eapply jobs_flat|]. rewrite Hc. apply eq_None_not_Some. intros Hs.
    apply Hno3, List.Exists_exists. exists (MkWorker m js (c :: ws)). split; [by apply list_elem_of_In|done]. }
  assert (queue (jobs s) <> []) as Hq.
  { intros Hq. unfold live in Hlive, Hblocked. rewrite Hq, Hcr, app_nil_r in *. destruct (running s) as [|w l] eqn:Hr; [done|].
    destruct (Hblocked w ltac:(left)) as [_ (m & Hm & Hc)]. simpl in Hm. change (m ∈ w_job <$> w :: l) in Hm.
    apply list_elem_of_fmap in Hm as (w' & -> & Hw'). by apply Hblocked in Hw' as [? _]. }
  destruct (queue (jobs s)) as [|m q] eqn:Hqueue; [done|]. destruct (idle s) as [|k] eqn:Hi.
  - exfalso. unfold live in Hlt. rewrite !filter_app, !length_app in Hlt.
    assert (filter composite (w_job <$> running s) = w_job <$> running s) as Hf.
    { clear -Hblocked. induction (running s) as [|w l IH]; [done|]. rewrite fmap_cons, filter_cons, decide_True.
      - f_equal. apply IH. intros w' Hw'. apply Hblocked. by right.
      - apply Hblocked. left. }
    rewrite Hf, length_fmap in Hlt. lia.
  - eexists _, _. by eapply work_take.
Qed.

(** The steps of the workers alone. *)
Inductive working : System -> list event -> System -> Prop :=
| working_nil s : working s [] s
| working_cons s e s' es s'' : work s e s' -> working s' es s'' -> working s (e :: es) s''.

Lemma working_wf s es es' s' :
  working s es' s' -> system_wf s es -> worker_left s -> Z.of_nat (length (es ++ es')) < 2 ^ 64 ->
  system_wf s' (es ++ es') /\ worker_left s' /\ (weight s' + length es' <= weight s)%nat.
Proof.
  intros Hrun. revert es. induction Hrun as [s|s e s1 es' s' Hstep Hrun IH]; intros es Hwf Hleft Hlen.
  { rewrite app_nil_r. split_and!; [done..|]. simpl. lia. }
  pose proof (work_decreases _ _ _ _ Hwf Hstep). rewrite length_app in Hlen. simpl in Hlen.
  destruct (IH (es ++ [e])) as (Hwf' & Hleft' & Hweight).
  - eapply work_wf; [done|lia|done].
  - by eapply work_worker_left.
  - rewrite <- app_assoc, length_app. simpl. lia.
  - rewrite <- app_assoc in Hwf'. split_and!; [done..|]. simpl. lia.
Qed.

(** C35: the workers finish what is queued.  From a state with no crashed job
    and with fewer jobs that wait for other jobs than workers, the workers take
    at most [weight s] steps, and when they can take no more, no job is left and
    every handle holds the result of a completed job of its key. *)
Theorem workers_finish n es s es' s' :
  run (started n) es s -> Z.of_nat (length es + length es') < 2 ^ 64 -> worker_left s -> working s es' s' ->
  (length es' <= weight s)%nat /\
  ((forall e s'', ~ work s' e s'') ->
   live s' = [] /\
   forall job h, Submitted job h ∈ es ++ es' ->
     exists m result, Completed m result ∈ es ++ es' /\ serves m job h /\ mail (jobs s') !! receiver h = Some result).
Proof.
  intros Hrun Hlen Hleft Hwork. rewrite <- length_app in Hlen.
  assert (system_wf s es) as Hwf by (apply (run_wf n); [done|rewrite length_app in Hlen; lia]).
  destruct (working_wf _ _ _ _ Hwork Hwf Hleft Hlen) as (Hwf' & Hleft' & Hweight). split; [lia|]. intros Hstuck.
  assert (live s' = []) as Hlive.
  { destruct (decide (live s' = [])) as [|Hne]; [done|]. destruct (work_progress _ _ Hwf' Hleft' Hne) as (e & s'' & Hs).
    by apply Hstuck in Hs. }
  split; [done|]. intros job h Hh.
  destruct (wf_handles _ _ _ (sys_jobs _ _ Hwf') job h Hh) as [[_ (m & Hm & _)]|]; [|done].
  rewrite Hlive in Hm. by apply elem_of_nil in Hm.
Qed.

(** ** Jobs that never complete *)

Lemma lookup_or_enqueue_keyed (j : Jobs) job i h j' :
  keyed_jobs j !! job_key job = Some i -> lookup_or_enqueue job j = (h, j') -> handle_id h = i.
Proof. unfold lookup_or_enqueue. intros ->. by intros [= <- <-]. Qed.

Lemma crashed_run s es s' es0 m :
  run s es s' -> m ∈ crashed s -> system_wf s es0 -> Z.of_nat (length (es0 ++ es)) < 2 ^ 64 ->
  m ∈ crashed s' /\ system_wf s' (es0 ++ es) /\
  forall job h, Submitted job h ∈ es -> mj_key m = Some (job_key job) -> handle_id h = mj_id m.
Proof.
  intros Hrun Hm. induction Hrun as [s|s es s1 e s' Hrun IH Hstep]; intros Hwf Hlen.
  { rewrite app_nil_r. split_and!; [done..|]. intros job h ?%elem_of_nil. done. }
  rewrite app_assoc, length_app in Hlen. simpl in Hlen.
  destruct IH as (Hm1 & Hwf1 & Hids); [done|done|lia|]. rewrite app_assoc. split_and!.
  - by destruct Hstep as [? ? ? []| | |]; simpl; try right.
  - eapply step_wf; [done|lia|done].
  - intros job h [Hh|<-%list_elem_of_singleton]%elem_of_app Hk; [by eapply Hids|].
    assert (keyed_jobs (jobs s1) !! job_key job = Some (mj_id m)) as Hkeyed.
    { apply (wf_keyed _ _ _ (sys_jobs _ _ Hwf1)). exists m. split_and!; [|done..]. unfold live. rewrite !elem_of_app. tauto. }
    remember (Submitted job h) as e eqn:He. destruct Hstep as [s1 e s' Hw|job' h' j s1 Hl| |]; [|by simplify_eq; eapply lookup_or_enqueue_keyed|done..].
    destruct Hw; simplify_eq. by eapply lookup_or_enqueue_keyed.
Qed.

(** A job that panics blocks its key for good: a handle asked for later for
    a job of the same key never receives a result. *)
Theorem crashed_job_blocks_key n es s m es' s' job h :
  run (started n) es s -> m ∈ crashed s -> run s es' s' -> Z.of_nat (length es + length es') < 2 ^ 64 ->
  Submitted job h ∈ es' -> mj_key m = Some (job_key job) -> mail (jobs s') !! receiver h = None.
Proof.
  intros Hrun Hm Hrun' Hlen Hh Hk. rewrite <- length_app in Hlen.
  assert (system_wf s es) as Hwf by (apply (run_wf n); [done|rewrite length_app in Hlen; lia]).
  destruct (crashed_run _ _ _ _ _ Hrun' Hm Hwf Hlen) as (Hm' & [Hwf' _] & Hid).
  assert (Submitted job h ∈ es ++ es') as Hh' by (apply elem_of_app; by right).
  destruct (wf_handles _ _ _ Hwf' job h Hh') as [[Hp _]|(m' & result & Hc & [Hid' _] & _)].
  - by apply (wf_pending _ _ _ Hwf') in Hp as [_ ?].
  - exfalso. apply (wf_completed _ _ _ Hwf' _ _ Hc). rewrite Hid', (Hid job h Hh Hk). apply list_elem_of_fmap_2.
    unfold live. rewrite !elem_of_app. tauto.
Qed.

(** A worker that waits for a result that has not been sent. *)
Definition blocked s (w : Worker Job Key) : Prop :=
  to_enqueue w = [] /\ exists c, head (waiting w) = Some c /\ mail (jobs s) !! c = None.
Definition all_blocked s : Prop := idle s = 0%nat /\ forall w, w ∈ running s -> blocked s w.

Lemma lookup_or_enqueue_mail job (j : Jobs) h j' : lookup_or_enqueue job j = (h, j') -> mail j' = mail j.
Proof. unfold lookup_or_enqueue, enqueue. destruct (keyed_jobs j !! job_key job); by intros [= <- <-]. Qed.

(** Once every worker waits, nothing is ever sent again. *)
Lemma all_blocked_run s es s' :
  run s es s' -> all_blocked s -> all_blocked s' /\ mail (jobs s') = mail (jobs s).
Proof.
  intros Hrun Hb. induction Hrun as [s|s es s1 e s' Hrun IH Hstep]; [done|]. destruct (IH Hb) as [[Hi Hbl] <-]. clear IH.
  assert (forall before after m js ws, running s1 = before ++ MkWorker m js ws :: after -> blocked s1 (MkWorker m js ws)) as Hw
    by (intros before after m js ws Hr; apply Hbl; rewrite Hr; apply elem_of_app; right; left).
  destruct Hstep as [s1 e s' Hs|job h j s1 Hl|s1 before after m result j Hr Hc|s1 before after m js ws Hr].
  - destruct Hs as [m q k s1 Hq Hi'|s1 before after m job rest ws h j Hr Hl|s1 before after m c ws result Hr Hm Ho
      |s1 before after m ws result j Hr Hws Hc]; [congruence|..]; destruct (Hw _ _ _ _ _ Hr) as [He (c' & Hc' & Hn)].
    + done.
    + simpl in Hc'. congruence.
    + destruct Hws as [->|(c & err & Hh & Hm & _)]; [done|]. simpl in Hc'. congruence.
  - apply lookup_or_enqueue_mail in Hl. unfold all_blocked, blocked. simpl. by rewrite Hl.
  - by destruct (Hw _ _ _ _ _ Hr) as [_ (c & [=] & _)].
  - split; [|done]. split; [done|]. intros w Hin. apply Hbl. rewrite Hr, elem_of_app, elem_of_cons.
    simpl in Hin. apply elem_of_app in Hin. tauto.
Qed.

End Laws.
