(* ===== verification/CompactionTheorems.v ===== *)
(** * Compaction and the workers

    The jobs of a database obey the laws the job manager relies on.  Compacting
    a collection or a database is a job that waits for other jobs: it needs a
    second worker. *)

From Stdlib Require Import ZArith Lia String.
From stdpp Require Import base list option numbers gmap.
From S2P Require Import Prelude Bytes Nebari Document Names Schema View Jobs Tasks StoreDemo JobsTheorems.

Local Open Scope Z_scope.

Abbreviation Sys := (System BackgroundJob Task JobOutcome JobType).

Section Compaction.
Context (schema : Schematic).
#[local] Existing Instance background_jobs.

Lemma gather_leaves c t : t ∈ gather_collection_trees schema c -> compact_targets schema t = [].
Proof.
  unfold gather_collection_trees. intros [Ht|(v & Ht & _)%list_elem_of_bind]%elem_of_app;
    repeat (apply elem_of_cons in Ht as [->|Ht]; [done|]); by apply elem_of_nil in Ht.
Qed.

Lemma compact_targets_flat t t' : t' ∈ compact_targets schema t -> compact_targets schema t' = [].
Proof.
  destruct t; simpl; try (by intros ?%elem_of_nil); [apply gather_leaves|].
  intros [(c & Ht & _)%list_elem_of_bind| ->%list_elem_of_singleton]%elem_of_app; [by eapply gather_leaves|done].
Qed.

#[export] Instance background_jobs_laws : JobsLaws BackgroundJob Task JobOutcome JobType (H := background_jobs schema).
Proof.
  split; simpl.
  - by intros [] [].
  - intros [] []; simpl; try done. by intros [= ->].
  - intros [] j; simpl; try (by intros ?%elem_of_nil). intros (t & -> & Ht)%list_elem_of_fmap. simpl.
    by rewrite (compact_targets_flat _ _ Ht).
Qed.

Abbreviation runs := (run (H0 := background_jobs schema)).

Lemma run_trans (s1 s2 s3 : Sys) es1 es2 : runs s1 es1 s2 -> runs s2 es2 s3 -> runs s1 (es1 ++ es2) s3.
Proof.
  intros Hrun. induction 1 as [s|s es s' e s'' Hr IH Hs]; [by rewrite app_nil_r|]. rewrite app_assoc.
  econstructor; [by apply IH|done].
Qed.

(** A worker enqueues the jobs it depends on without receiving anything. *)
Lemma enqueue_all (s : Sys) m js ws :
  running s = [MkWorker m js ws] -> exists es s' cs,
    runs s es s' /\ running s' = [MkWorker m [] (ws ++ cs)] /\ idle s' = idle s /\
    mail (jobs s') = mail (jobs s) /\ length cs = length js.
Proof.
  revert s ws. induction js as [|j js IH]; intros s ws Hr.
  { exists [], s, []. rewrite app_nil_r. split_and!; [constructor|done..]. }
  destruct (lookup_or_enqueue (H0 := background_jobs schema) j (jobs s)) as [h j'] eqn:Hl.
  set (s1 := MkSystem j' (idle s) [MkWorker m js (ws ++ [receiver h])] (crashed s) : Sys).
  destruct (IH s1 (ws ++ [receiver h]) eq_refl) as (es & s' & cs & Hrun & Hr' & Hi & Hm & Hlen).
  exists ([Submitted j h] ++ es), s', (receiver h :: cs). split_and!.
  - eapply run_trans; [|exact Hrun]. apply (run_snoc s [] s); [constructor|]. apply step_work.
    by apply (work_enqueue (H0 := background_jobs schema) s [] []).
  - by rewrite Hr', <- app_assoc.
  - done.
  - rewrite Hm. simpl. by eapply lookup_or_enqueue_mail.
  - simpl. by rewrite Hlen.
Qed.

(** With a single worker, compacting a collection never finishes: the
    worker takes the job, enqueues the compaction of every tree and waits for
    them; from then on no result is sent on any channel, whatever clients do. *)
Theorem single_worker_compaction_blocks database c :
  exists es s h,
    runs (started 1) es s /\
    Submitted (Compactor (MkCompaction database (TargetCollection c))) h ∈ es /\
    forall es' s', runs s es' s' -> mail (jobs s') !! receiver h = None.
Proof.
  set (job := Compactor (MkCompaction database (TargetCollection c))).
  destruct (lookup_or_enqueue (H0 := background_jobs schema) job jobs_default) as [h j] eqn:Hl.
  set (s1 := MkSystem j 1 [] [] : Sys).
  assert (runs (started 1) [Submitted job h] s1) as Hrun1.
  { apply (run_snoc (started 1) [] (started 1)); [constructor|]. by apply (step_submit job h j (started 1)). }
  assert (exists m, queue j = [m] /\ mj_job m = job) as (m & Hq & Hmj).
  { destruct (lookup_or_enqueue_queue _ _ _ _ Hl) as [Hq|(m & Hq & Hm)]; [|by exists m].
    unfold lookup_or_enqueue in Hl. simpl in Hl. rewrite lookup_empty in Hl. by injection Hl as _ <-. }
  apply lookup_or_enqueue_mail in Hl as Hmail.
  set (s2 := MkSystem (MkJobs (last_task_id j) (result_senders j) (keyed_jobs j) [] (next_channel j) (mail j)) 0
    [MkWorker m (compact_trees schema (mj_job m)) []] [] : Sys).
  assert (runs s1 [Internal] s2) as Hrun2.
  { apply (run_snoc s1 [] s1); [constructor|]. apply step_work. by apply (work_take (H0 := background_jobs schema) m [] 0 s1). }
  destruct (enqueue_all s2 m (compact_trees schema (mj_job m)) [] eq_refl) as (es & s3 & cs & Hrun3 & Hr3 & Hi3 & Hm3 & Hlen).
  eexists _, s3, _. split; [eapply run_trans; [exact Hrun1|eapply run_trans; [exact Hrun2|exact Hrun3]]|]. split; [left|].
  intros es' s' Hrun. destruct (all_blocked_run s3 es' s' Hrun) as [_ ->].
  - split; [by rewrite Hi3|]. intros w Hw. rewrite Hr3 in Hw. apply list_elem_of_singleton in Hw as ->. split; [done|].
    rewrite Hmj in Hlen. destruct cs as [|ch cs]; [done|]. exists ch. split; [done|]. rewrite Hm3. simpl. by rewrite Hmail.
  - rewrite Hm3. simpl. by rewrite Hmail.
Qed.

End Compaction.

(** ** Examples

    Two clients ask for the compaction of the key-value store, one worker runs
    it for both; and the same job panicking. *)

Module JobsExamples.
Import StoreDemo.

#[local] Instance demo_jobs : Jobs_of BackgroundJob Task JobOutcome JobType := background_jobs demo_schema.
#[local] Instance outcome_inhabited : Inhabited JobOutcome := populate UnitDone.
#[local] Instance demo_jobs_laws : JobsLaws BackgroundJob Task JobOutcome JobType := background_jobs_laws demo_schema.

Definition compaction : BackgroundJob := Compactor (MkCompaction [] TargetKeyValue).
Definition asked (s : Sys) : Sys :=
  MkSystem (lookup_or_enqueue compaction (jobs s)).2 (idle s) (running s) (crashed s).
Definition submitted (s : Sys) : event BackgroundJob Task JobOutcome :=
  Submitted compaction (lookup_or_enqueue compaction (jobs s)).1.

Lemma run_asked s0 es s : run s0 es s -> run s0 (es ++ [submitted s]) (asked s).
Proof.
  intros Hrun. eapply run_snoc; [exact Hrun|]. apply step_submit. by destruct (lookup_or_enqueue _ _).
Qed.

Definition asked_twice : Sys := asked (asked (started 1)).
Definition asked_events := [submitted (started 1); submitted (asked (started 1))].
Lemma run_asked_twice : run (started 1) asked_events asked_twice.
Proof. apply (run_asked _ [_]), (run_asked _ []). constructor. Qed.

(** The worker takes the job. *)
Definition managed : ManagedJob BackgroundJob Task := MkManagedJob 1 compaction (Some (job_key compaction)).
Definition taken : Sys :=
  let j := jobs asked_twice in
  MkSystem (MkJobs (last_task_id j) (result_senders j) (keyed_jobs j) [] (next_channel j) (mail j)) 0
    [MkWorker managed [] []] [].
Lemma work_taken : work asked_twice Internal taken.
Proof. pose proof (work_take managed [] 0 asked_twice eq_refl eq_refl) as Hw. exact Hw. Qed.

(** It completes the job, or panics. *)
Definition completed := job_completed 1 (Some (job_key compaction)) (job_type compaction) UnitDone (jobs taken).
Definition finished : Sys := MkSystem completed.2 1 [] [].
Lemma completed_ok : completed = (Ok tt, jobs finished).
Proof.
  assert (completed.1 = Ok tt) as Hok by (vm_compute; reflexivity). unfold finished. simpl. rewrite <- Hok. by destruct completed.
Qed.
Lemma work_finished : work taken (Completed managed UnitDone) finished.
Proof. apply (work_finish taken [] [] managed [] UnitDone (jobs finished)); [done|by left|exact completed_ok]. Qed.
Lemma finished_working : working asked_twice [Internal; Completed managed UnitDone] finished.
Proof. econstructor; [exact work_taken|]. econstructor; [exact work_finished|]. constructor. Qed.

Definition panicked : Sys := MkSystem (jobs taken) 0 [] [managed].
Lemma run_panicked : run (started 1) (asked_events ++ [Internal; Internal]) panicked.
Proof.
  apply (run_snoc _ (asked_events ++ [Internal]) taken).
  - eapply run_snoc; [exact run_asked_twice|]. apply step_work, work_taken.
  - by apply (step_crash taken [] [] managed [] []).
Qed.

Lemma run_finished : run (started 1) (asked_events ++ [Internal; Completed managed UnitDone]) finished.
Proof.
  apply (run_snoc _ (asked_events ++ [Internal]) taken).
  - eapply run_snoc; [exact run_asked_twice|]. apply step_work, work_taken.
  - apply step_work, work_finished.
Qed.

Lemma handles_served_witness :
  exists m result, Completed m result ∈ asked_events ++ [Internal; Completed managed UnitDone] /\
    serves m compaction (MkHandle 1 1) /\ mail (jobs finished) !! 1%nat = Some result.
Proof.
  destruct (handles_served 1 _ finished run_finished ltac:(vm_compute; reflexivity)) as [_ Hall].
  destruct (Hall compaction (MkHandle 1 1)) as [[_ (m & Hm & _)]|Hdone]; [|by apply elem_of_nil in Hm|exact Hdone].
  right. left.
Defined.

Lemma workers_finish_witness :
  (2 <= weight asked_twice)%nat /\
  exists m result, Completed m result ∈ asked_events ++ [Internal; Completed managed UnitDone] /\
    serves m compaction (MkHandle 1 1) /\ mail (jobs finished) !! 1%nat = Some result.
Proof.
  destruct (workers_finish 1 asked_events asked_twice [Internal; Completed managed UnitDone] finished run_asked_twice
    ltac:(vm_compute; reflexivity) ltac:(split; [reflexivity|vm_compute; lia]) finished_working) as [Hw Hdone].
  split; [exact Hw|]. destruct Hdone as [_ Hall].
  - intros e s'' Hs. inversion Hs; subst; try done;
      match goal with Hr : running finished = ?b ++ _ :: _ |- _ => by destruct b end.
  - apply (Hall compaction (MkHandle 1 1)). right. left.
Defined.

Lemma crashed_job_blocks_key_witness :
  submitted panicked = Submitted compaction (MkHandle 1 2) /\ mail (jobs (asked panicked)) !! 2%nat = None.
Proof.
  split; [reflexivity|].
  apply (crashed_job_blocks_key 1 _ panicked managed [submitted panicked] (asked panicked) compaction (MkHandle 1 2)
    run_panicked).
  - left.
  - apply (run_asked _ []). constructor.
  - vm_compute. reflexivity.
  - left.
  - reflexivity.
Defined.
End JobsExamples.
