(* ===== verification/Connection.v ===== *)
(** * Connections: typed collections, views and documents

    The trait [LowLevelConnection] of [connection/lowlevel.rs] as a class: its
    required methods are the fields, its provided methods definitions on top of
    them.  Above it the types clients use: [Collection], [List] and [View] of
    [connection.rs], [SerializedCollection], [NamedCollection] and [Entry] of
    [schema/collection.rs], and [CollectionDocument] of
    [document/collection.rs].

    A database ([Tasks]) is an instance.  Other clients may act between two
    calls of a method that makes several; where the result depends on it, the
    method takes what they do as an argument. *)

From Stdlib Require Import ZArith Lia.
From stdpp Require Import base list option numbers gmap.
From S2P Require Import Prelude Bytes Utf8 Key KeyLaws Range Nebari Document Names Changes Schema Permissions View Query Integrity Jobs Transaction Tasks.

Local Open Scope Z_scope.

(** ** The interface *)

Class LowLevelConnection `{Nebari} `{Actionable} (St : Type) := {
  ll_schematic : Schematic;
  ll_apply_transaction : list Operation -> stm St CoreError (list OperationResult);
  ll_get_from_collection : bytes -> CollectionName -> stm St CoreError (option Doc);
  ll_get_multiple_from_collection : list bytes -> CollectionName -> stm St CoreError (list Doc);
  ll_list_from_collection : Range bytes -> Sort -> option Z -> CollectionName -> stm St CoreError (list Doc);
  ll_list_headers_from_collection : Range bytes -> Sort -> option Z -> CollectionName -> stm St CoreError (list Header);
  ll_count_from_collection : Range bytes -> CollectionName -> stm St CoreError Z;
  ll_query_by_name : ViewName -> option SerializedQueryKey -> Sort -> option Z -> AccessPolicy ->
    stm St CoreError (list MapSerialized);
  ll_reduce_by_name : ViewName -> option SerializedQueryKey -> AccessPolicy -> stm St CoreError bytes;
  ll_reduce_grouped_by_name : ViewName -> option SerializedQueryKey -> AccessPolicy ->
    stm St CoreError (list MappedSerializedValue);
  ll_delete_docs_by_name : ViewName -> option SerializedQueryKey -> AccessPolicy -> stm St CoreError Z
}.

(** A [SerializedCollection]: its name, primary key, contents and their format.
    The format is a third-party serializer. *)
Record CollectionTy := MkCollectionTy {
  cl_name : CollectionName;
  cl_key : key_ty;
  cl_contents : Type;
  cl_serialize : cl_contents -> option bytes;
  cl_deserialize : bytes -> option cl_contents;
  cl_natural_id : cl_contents -> option (k_type cl_key)
}.
(** A [SerializedView] of a collection. *)
Record ViewTy := MkViewTy {
  vt_id : TypeId;
  vt_collection : CollectionTy;
  vt_key : key_ty;
  vt_value : Type;
  vt_deserialize : bytes -> option vt_value
}.

Record CollectionHeader (K : Type) := MkCollectionHeader { ch_id : K; ch_revision : Revision }.
Arguments MkCollectionHeader {K} _ _.
Arguments ch_id {K} _.
Arguments ch_revision {K} _.
Record CollectionMap (K V P : Type) := MkCollectionMap { cm_source : CollectionHeader P; cm_key : K; cm_value : V }.
Arguments MkCollectionMap {K V P} _ _ _.
Arguments cm_source {K V P} _.
Arguments cm_key {K V P} _.
Arguments cm_value {K V P} _.
Record MappedDocuments (M D : Type) := MkMappedDocuments { md_mappings : list M; md_documents : list D }.
Arguments MkMappedDocuments {M D} _ _.
Arguments md_mappings {M D} _.
Arguments md_documents {M D} _.
Record CollectionDocument (C : CollectionTy) := MkCollectionDocument {
  cd_header : CollectionHeader (k_type (cl_key C)); cd_contents : cl_contents C }.
Arguments MkCollectionDocument {C} _ _.
Arguments cd_header {C} _.
Arguments cd_contents {C} _.

Section Connection.
Context `{Nebari} `{Actionable} {St : Type} `{!LowLevelConnection St}.
Abbreviation connm := (stm St CoreError).

(** ** Ids and headers *)

(** [DocumentId::new] and [DocumentId::deserialize]. *)
Definition document_id_new (k : key_ty) (value : k_type k) : res CoreError bytes :=
  bs ← map_err CoreKey (as_ord_bytes k value);
  map_err (fun e => CoreDb (DbDocumentId e)) (document_id_try_from bs).
Definition document_id_deserialize (k : key_ty) (d : bytes) : res CoreError (k_type k) :=
  map_err CoreKey (from_ord_bytes k (Borrowed d)).

(** The conversions between [Header] and [CollectionHeader]. *)
Definition collection_header_try_from (k : key_ty) (h : Header) : res CoreError (CollectionHeader (k_type k)) :=
  d ← document_id_deserialize k (id h);
  Ok (MkCollectionHeader d (revision h)).
Definition header_try_from (k : key_ty) (h : CollectionHeader (k_type k)) : res CoreError Header :=
  d ← document_id_new k (ch_id h);
  Ok (MkHeader d (ch_revision h)).

Definition cl_to_vec (C : CollectionTy) (contents : cl_contents C) : res CoreError bytes :=
  ok_or (CoreDb DbSerialization) (cl_serialize C contents).
Definition cl_from_slice (C : CollectionTy) (bs : bytes) : res CoreError (cl_contents C) :=
  ok_or (CoreDb DbSerialization) (cl_deserialize C bs).

(** [TryFrom<&OwnedDocument> for CollectionDocument] and [to_document]. *)
Definition collection_document_try_from (C : CollectionTy) (d : Doc) : res CoreError (CollectionDocument C) :=
  contents ← cl_from_slice C (contents d);
  h ← collection_header_try_from (cl_key C) (header d);
  Ok (MkCollectionDocument h contents).
Definition to_document {C : CollectionTy} (d : CollectionDocument C) : res CoreError Doc :=
  contents ← cl_to_vec C (cd_contents d);
  h ← header_try_from (cl_key C) (cd_header d);
  Ok (MkDoc h contents).
(** [OwnedDocuments::collection_documents]. *)
Definition collection_documents (C : CollectionTy) (docs : list Doc) : res CoreError (list (CollectionDocument C)) :=
  collect (collection_document_try_from C) docs.

(** The header of the first result; another result is unreachable. *)
Definition updated_header (results : list OperationResult) : res CoreError Header :=
  match results with
  | DocumentUpdated _ h :: _ => Ok h
  | _ => Panic
  end.

(** ** Provided methods of [LowLevelConnection] *)

Definition conn_insert (c : CollectionName) (k : key_ty) (d : option (k_type k)) (contents : bytes)
    : connm (CollectionHeader (k_type k)) :=
  d ← st_lift (match d with Some d => d ← document_id_new k d; Ok (Some d) | None => Ok None end);
  results ← ll_apply_transaction [op_insert c d contents];
  h ← st_lift (updated_header results);
  st_lift (collection_header_try_from k h).

(** [update] of an [OwnedDocument]: the document with its new header. *)
Definition conn_update (c : CollectionName) (doc : Doc) : connm Doc :=
  results ← ll_apply_transaction [op_update c (header doc) (contents doc)];
  h ← st_lift (updated_header results);
  mret (MkDoc h (contents doc)).

Definition conn_overwrite (c : CollectionName) (k : key_ty) (d : k_type k) (contents : bytes)
    : connm (CollectionHeader (k_type k)) :=
  d ← st_lift (document_id_new k d);
  results ← ll_apply_transaction [op_overwrite c d contents];
  h ← st_lift (updated_header results);
  st_lift (collection_header_try_from k h).

Definition conn_get (c : CollectionName) (k : key_ty) (d : k_type k) : connm (option Doc) :=
  d ← st_lift (document_id_new k d);
  ll_get_from_collection d c.

Definition conn_get_multiple (c : CollectionName) (k : key_ty) (ids : list (k_type k)) : connm (list Doc) :=
  ids ← st_lift (collect (document_id_new k) ids);
  ll_get_multiple_from_collection ids c.

Definition conn_list (c : CollectionName) (k : key_ty) (ids : Range (k_type k)) (order : Sort) (limit : option Z)
    : connm (list Doc) :=
  ids ← st_lift (range_map_result (document_id_new k) ids);
  ll_list_from_collection ids order limit c.
Definition conn_list_headers (c : CollectionName) (k : key_ty) (ids : Range (k_type k)) (order : Sort) (limit : option Z)
    : connm (list Header) :=
  ids ← st_lift (range_map_result (document_id_new k) ids);
  ll_list_headers_from_collection ids order limit c.
Definition conn_count (c : CollectionName) (k : key_ty) (ids : Range (k_type k)) : connm Z :=
  ids ← st_lift (range_map_result (document_id_new k) ids);
  ll_count_from_collection ids c.

(** [&results[0]] panics on an empty list. *)
Definition conn_delete (c : CollectionName) (h : Header) : connm unit :=
  results ← ll_apply_transaction [op_delete c h];
  match results with
  | DocumentDeleted _ _ :: _ => mret tt
  | _ => st_lift Panic
  end.

(** [Schematic::view]. *)
Definition schematic_view (t : TypeId) : res CoreError View :=
  ok_or (CoreDb (DbSchema ViewNotFound)) (views ll_schematic !! t).
Definition serialized_key (k : key_ty) (key : option (QueryKey (k_type k))) : res CoreError (option SerializedQueryKey) :=
  match key with
  | Some key => q ← map_err CoreKey (serialized k key); Ok (Some q)
  | None => Ok None
  end.
Abbreviation view_map_ty V := (CollectionMap (k_type (vt_key V)) (vt_value V) (k_type (cl_key (vt_collection V)))).
Definition vt_from_slice (V : ViewTy) (bs : bytes) : res CoreError (vt_value V) :=
  ok_or (CoreDb DbSerialization) (vt_deserialize V bs).

Definition deserialize_mapping (V : ViewTy) (m : MapSerialized) : res CoreError (view_map_ty V) :=
  key ← map_err CoreKey (from_ord_bytes (vt_key V) (Borrowed (ms_key m)));
  value ← vt_from_slice V (ms_value m);
  source ← collection_header_try_from (cl_key (vt_collection V)) (ms_source m);
  Ok (MkCollectionMap source key value).

Definition conn_query (V : ViewTy) (key : option (QueryKey (k_type (vt_key V)))) (order : Sort) (limit : option Z)
    (access_policy : AccessPolicy) : connm (list (view_map_ty V)) :=
  view ← st_lift (schematic_view (vt_id V));
  key ← st_lift (serialized_key (vt_key V) key);
  mappings ← ll_query_by_name (view_name view) key order limit access_policy;
  st_lift (collect (deserialize_mapping V) mappings).

(** [collect::<BTreeMap<_, _>>] by the primary key: the last document of an id,
    in the order of the ids. *)
Fixpoint btree_insert {K A} (cmp : K -> K -> comparison) (k : K) (a : A) (l : list (K * A)) : list (K * A) :=
  match l with
  | [] => [(k, a)]
  | (k', a') :: l =>
      match cmp k k' with
      | Lt => (k, a) :: (k', a') :: l
      | Eq => (k', a) :: l
      | Gt => (k', a') :: btree_insert cmp k a l
      end
  end.
Definition btree_collect {K A} (cmp : K -> K -> comparison) (l : list (K * A)) : list (K * A) :=
  fold_left (fun m p => btree_insert cmp p.1 p.2 m) l [].

Definition conn_query_with_docs (V : ViewTy) (key : option (QueryKey (k_type (vt_key V)))) (order : Sort) (limit : option Z)
    (access_policy : AccessPolicy) : connm (MappedDocuments (view_map_ty V) (k_type (cl_key (vt_collection V)) * Doc)) :=
  let k := cl_key (vt_collection V) in
  results ← conn_query V key order limit access_policy;
  docs ← conn_get_multiple (cl_name (vt_collection V)) k ((fun m => ch_id (cm_source m)) <$> results);
  docs ← st_lift (collect (fun doc => d ← document_id_deserialize k (id (header doc)); Ok (d, doc)) docs);
  mret (MkMappedDocuments results (btree_collect (k_cmp k) docs)).

Definition conn_query_with_collection_docs (V : ViewTy) (key : option (QueryKey (k_type (vt_key V)))) (order : Sort)
    (limit : option Z) (access_policy : AccessPolicy)
    : connm (MappedDocuments (view_map_ty V) (k_type (cl_key (vt_collection V)) * CollectionDocument (vt_collection V))) :=
  mapped ← conn_query_with_docs V key order limit access_policy;
  docs ← st_lift (collect (fun p => d ← collection_document_try_from (vt_collection V) p.2; Ok (p.1, d)) (md_documents mapped));
  mret (MkMappedDocuments (md_mappings mapped) docs).

Definition conn_reduce (V : ViewTy) (key : option (QueryKey (k_type (vt_key V)))) (access_policy : AccessPolicy)
    : connm (vt_value V) :=
  view ← st_lift (schematic_view (vt_id V));
  key ← st_lift (serialized_key (vt_key V) key);
  value ← ll_reduce_by_name (view_name view) key access_policy;
  st_lift (vt_from_slice V value).
Definition conn_reduce_grouped (V : ViewTy) (key : option (QueryKey (k_type (vt_key V)))) (access_policy : AccessPolicy)
    : connm (list (k_type (vt_key V) * vt_value V)) :=
  view ← st_lift (schematic_view (vt_id V));
  key ← st_lift (serialized_key (vt_key V) key);
  maps ← ll_reduce_grouped_by_name (view_name view) key access_policy;
  st_lift (collect (fun m => k ← map_err CoreKey (from_ord_bytes (vt_key V) (Borrowed (mv_key m)));
                             v ← vt_from_slice V (mv_value m); Ok (k, v)) maps).
Definition conn_delete_docs (V : ViewTy) (key : option (QueryKey (k_type (vt_key V)))) (access_policy : AccessPolicy) : connm Z :=
  view ← st_lift (schematic_view (vt_id V));
  key ← st_lift (serialized_key (vt_key V) key);
  ll_delete_docs_by_name (view_name view) key access_policy.

(** ** [Collection] *)

Definition push_bytes (C : CollectionTy) (contents : bytes) : connm (CollectionHeader (k_type (cl_key C))) :=
  conn_insert (cl_name C) (cl_key C) None contents.
Definition insert_bytes (C : CollectionTy) (d : k_type (cl_key C)) (contents : bytes)
    : connm (CollectionHeader (k_type (cl_key C))) :=
  conn_insert (cl_name C) (cl_key C) (Some d) contents.
Definition collection_push (C : CollectionTy) (item : cl_contents C) : connm (CollectionHeader (k_type (cl_key C))) :=
  contents ← st_lift (cl_to_vec C item);
  match cl_natural_id C item with
  | Some natural_id => insert_bytes C natural_id contents
  | None => push_bytes C contents
  end.
Definition collection_insert (C : CollectionTy) (d : k_type (cl_key C)) (item : cl_contents C)
    : connm (CollectionHeader (k_type (cl_key C))) :=
  contents ← st_lift (cl_to_vec C item);
  conn_insert (cl_name C) (cl_key C) (Some d) contents.
(** [overwrite] of an [OwnedDocument], whose id is serialized. *)
Definition collection_overwrite (C : CollectionTy) (doc : Doc) : connm Doc :=
  results ← ll_apply_transaction [op_overwrite (cl_name C) (id (header doc)) (contents doc)];
  h ← st_lift (updated_header results);
  ch ← st_lift (collection_header_try_from (cl_key C) h);
  h ← st_lift (header_try_from (cl_key C) ch);
  mret (MkDoc h (contents doc)).

(** [List]: a builder of the arguments of a listing. *)
Record ListBuilder (K : Type) := MkListBuilder { list_range : Range K; list_sort : Sort; list_limit : option Z }.
Arguments MkListBuilder {K} _ _ _.
Arguments list_range {K} _.
Arguments list_sort {K} _.
Arguments list_limit {K} _.
Definition list_new {K} (range : Range K) : ListBuilder K := MkListBuilder range Ascending None.
Definition list_all {K} : ListBuilder K := list_new from_range_full.
Definition list_ascending {K} (l : ListBuilder K) := MkListBuilder (list_range l) Ascending (list_limit l).
Definition list_descending {K} (l : ListBuilder K) := MkListBuilder (list_range l) Descending (list_limit l).
Definition list_limited {K} (maximum_results : Z) (l : ListBuilder K) :=
  MkListBuilder (list_range l) (list_sort l) (Some maximum_results).
Definition list_query (C : CollectionTy) (l : ListBuilder (k_type (cl_key C))) : connm (list Doc) :=
  conn_list (cl_name C) (cl_key C) (list_range l) (list_sort l) (list_limit l).
Definition list_headers (C : CollectionTy) (l : ListBuilder (k_type (cl_key C))) : connm (list Header) :=
  conn_list_headers (cl_name C) (cl_key C) (list_range l) (list_sort l) (list_limit l).
Definition list_count (C : CollectionTy) (l : ListBuilder (k_type (cl_key C))) : connm Z :=
  conn_count (cl_name C) (cl_key C) (list_range l).

(** [View]: a builder of the arguments of a query. *)
Record ViewBuilder (K : Type) := MkViewBuilder {
  vb_key : option (QueryKey K); vb_access_policy : AccessPolicy; vb_sort : Sort; vb_limit : option Z }.
Arguments MkViewBuilder {K} _ _ _ _.
Arguments vb_key {K} _.
Arguments vb_access_policy {K} _.
Arguments vb_sort {K} _.
Arguments vb_limit {K} _.
Definition view_new {K} : ViewBuilder K := MkViewBuilder None UpdateBefore Ascending None.
Definition set_vb_key {K} (key : QueryKey K) (b : ViewBuilder K) :=
  MkViewBuilder (Some key) (vb_access_policy b) (vb_sort b) (vb_limit b).
Definition with_key {K} (key : K) (b : ViewBuilder K) := set_vb_key (Matches key) b.
Definition with_keys {K} (keys : list K) (b : ViewBuilder K) := set_vb_key (Multiple keys) b.
Definition with_key_range {K} (range : Range K) (b : ViewBuilder K) := set_vb_key (InRange range) b.
Definition with_access_policy {K} (p : AccessPolicy) (b : ViewBuilder K) :=
  MkViewBuilder (vb_key b) p (vb_sort b) (vb_limit b).
Definition view_ascending {K} (b : ViewBuilder K) := MkViewBuilder (vb_key b) (vb_access_policy b) Ascending (vb_limit b).
Definition view_descending {K} (b : ViewBuilder K) := MkViewBuilder (vb_key b) (vb_access_policy b) Descending (vb_limit b).
Definition view_limited {K} (maximum_results : Z) (b : ViewBuilder K) :=
  MkViewBuilder (vb_key b) (vb_access_policy b) (vb_sort b) (Some maximum_results).
Definition view_query (V : ViewTy) (b : ViewBuilder (k_type (vt_key V))) := conn_query V (vb_key b) (vb_sort b) (vb_limit b) (vb_access_policy b).
Definition view_query_with_docs (V : ViewTy) (b : ViewBuilder (k_type (vt_key V))) :=
  conn_query_with_docs V (vb_key b) (vb_sort b) (vb_limit b) (vb_access_policy b).
Definition view_query_with_collection_docs (V : ViewTy) (b : ViewBuilder (k_type (vt_key V))) :=
  conn_query_with_collection_docs V (vb_key b) (vb_sort b) (vb_limit b) (vb_access_policy b).
Definition view_reduced (V : ViewTy) (b : ViewBuilder (k_type (vt_key V))) := conn_reduce V (vb_key b) (vb_access_policy b).
Definition view_reduced_grouped (V : ViewTy) (b : ViewBuilder (k_type (vt_key V))) :=
  conn_reduce_grouped V (vb_key b) (vb_access_policy b).
Definition view_delete_docs (V : ViewTy) (b : ViewBuilder (k_type (vt_key V))) := conn_delete_docs V (vb_key b) (vb_access_policy b).

(** ** [SerializedCollection]

    [InsertError] also returns the contents; the error is what is kept here. *)

Definition sc_get (C : CollectionTy) (d : k_type (cl_key C)) : connm (option (CollectionDocument C)) :=
  doc ← conn_get (cl_name C) (cl_key C) d;
  match doc with
  | Some doc => doc ← st_lift (collection_document_try_from C doc); mret (Some doc)
  | None => mret None
  end.
Definition sc_get_multiple (C : CollectionTy) (ids : list (k_type (cl_key C))) : connm (list (CollectionDocument C)) :=
  docs ← conn_get_multiple (cl_name C) (cl_key C) ids;
  st_lift (collection_documents C docs).
Definition sc_list_query (C : CollectionTy) (l : ListBuilder (k_type (cl_key C))) : connm (list (CollectionDocument C)) :=
  docs ← list_query C l;
  st_lift (collection_documents C docs).
Definition sc_push (C : CollectionTy) (contents : cl_contents C) : connm (CollectionDocument C) :=
  h ← collection_push C contents;
  mret (MkCollectionDocument h contents).
Definition sc_insert (C : CollectionTy) (d : k_type (cl_key C)) (contents : cl_contents C) : connm (CollectionDocument C) :=
  h ← collection_insert C d contents;
  mret (MkCollectionDocument h contents).
Definition sc_overwrite (C : CollectionTy) (d : k_type (cl_key C)) (contents : cl_contents C) : connm (CollectionDocument C) :=
  bs ← st_lift (cl_to_vec C contents);
  h ← conn_overwrite (cl_name C) (cl_key C) d bs;
  mret (MkCollectionDocument h contents).

(** [Operation::push_serialized]. *)
Definition op_push_serialized (C : CollectionTy) (item : cl_contents C) : res CoreError Operation :=
  d ← match cl_natural_id C item with
      | Some natural_id => d ← document_id_new (cl_key C) natural_id; Ok (Some d)
      | None => Ok None
      end;
  bs ← cl_to_vec C item;
  Ok (op_insert (cl_name C) d bs).
(** The loop over the results of [push_all], zipped with the documents. *)
Fixpoint assign_headers (C : CollectionTy) (results : list OperationResult) (items : list (cl_contents C))
    : res CoreError (list (CollectionDocument C)) :=
  match results, items with
  | DocumentUpdated _ h :: results, item :: items =>
      h ← collection_header_try_from (cl_key C) h;
      docs ← assign_headers C results items;
      Ok (MkCollectionDocument h item :: docs)
  | _ :: _, _ :: _ => Panic
  | _, _ => Ok []
  end.
Definition sc_push_all (C : CollectionTy) (items : list (cl_contents C)) : connm (list (CollectionDocument C)) :=
  ops ← st_lift (collect (op_push_serialized C) items);
  results ← ll_apply_transaction ops;
  st_lift (assign_headers C results items).

(** ** [CollectionDocument]

    Methods on [&mut self] return the document they leave. *)

Definition cd_update {C} (d : CollectionDocument C) : connm (CollectionDocument C) :=
  doc ← st_lift (to_document d);
  doc ← conn_update (cl_name C) doc;
  h ← st_lift (collection_header_try_from (cl_key C) (header doc));
  mret (MkCollectionDocument h (cd_contents d)).
Definition cd_delete {C} (d : CollectionDocument C) : connm unit :=
  h ← st_lift (header_try_from (cl_key C) (cd_header d));
  conn_delete (cl_name C) h.
Definition cd_refresh {C} (d : CollectionDocument C) : connm (CollectionDocument C) :=
  did ← st_lift (document_id_new (cl_key C) (ch_id (cd_header d)));
  doc ← ll_get_from_collection did (cl_name C);
  match doc with
  | Some doc => st_lift (collection_document_try_from C doc)
  | None => st_lift (Err (CoreDb (DocumentNotFound (cl_name C) did)))
  end.

(** The document a retry of [modify] starts from. *)
Definition reload {C} (d : CollectionDocument C) : connm (CollectionDocument C) :=
  doc ← sc_get C (ch_id (cd_header d));
  match doc with
  | Some doc => mret doc
  | None =>
      did ← st_lift (document_id_new (cl_key C) (ch_id (cd_header d)));
      st_lift (Err (CoreDb (DocumentNotFound (cl_name C) did)))
  end.

Section Interference.
(** What the other clients do between the calls of a method, in order. *)
Context (others : nat -> St -> St).

(** [modify]: [None] stands for more than [fuel] attempts; what the modifier
    does may depend on the attempt.  The document left by a failed call is not
    kept. *)
Fixpoint modify_loop {C} (fuel i : nat) (is_first_loop : bool) (modifier : nat -> CollectionDocument C -> CollectionDocument C)
    (d : CollectionDocument C) (s : St) : option (res CoreError (CollectionDocument C) * St) :=
  match fuel with
  | O => None
  | S fuel =>
      match (if is_first_loop then (Ok d, s) else reload d (others (2 * i) s)) with
      | (Ok d, s) =>
          let d := modifier i d in
          match cd_update d (others (2 * i + 1) s) with
          | (Err (CoreDb (DocumentConflict _ _)), s) => modify_loop fuel (S i) false modifier d s
          | other => Some other
          end
      | (Err e, s) => Some (Err e, s)
      | (Panic, s) => Some (Panic, s)
      end
  end.
Definition modify {C} (fuel : nat) := modify_loop (C := C) fuel 0 true.

(** ** [NamedCollection] *)

Inductive NamedReference (K : Type) := RefName (name : str) | RefId (d : bytes) | RefKey (key : K).
Arguments RefName {K} _.
Arguments RefId {K} _.
Arguments RefKey {K} _.

(** A view of the collection by name. *)
Record NamedCollectionTy := MkNamedCollectionTy {
  nc_collection : CollectionTy;
  nc_view : TypeId;
  nc_value : Type;
  nc_deserialize : bytes -> option nc_value
}.
Definition by_name_view (N : NamedCollectionTy) : ViewTy :=
  MkViewTy (nc_view N) (nc_collection N) key_string (nc_value N) (nc_deserialize N).

Definition load_document (N : NamedCollectionTy) (r : NamedReference (k_type (cl_key (nc_collection N)))) : connm (option Doc) :=
  match r with
  | RefId d => ll_get_from_collection d (cl_name (nc_collection N))
  | RefKey key => conn_get (cl_name (nc_collection N)) (cl_key (nc_collection N)) key
  | RefName name =>
      mapped ← view_query_with_docs (by_name_view N) (with_key (K := k_type (vt_key (by_name_view N))) name view_new);
      mret (snd <$> head (md_documents mapped))
  end.
Definition named_load (N : NamedCollectionTy) (r : NamedReference (k_type (cl_key (nc_collection N))))
    : connm (option (CollectionDocument (nc_collection N))) :=
  doc ← load_document N r;
  match doc with
  | Some doc => doc ← st_lift (collection_document_try_from (nc_collection N) doc); mret (Some doc)
  | None => mret None
  end.
Definition delete_by_name (N : NamedCollectionTy) (name : str) : connm bool :=
  n ← view_delete_docs (by_name_view N) (with_key (K := k_type (vt_key (by_name_view N))) name view_new);
  mret (0 <? n).
(** [NamedReference::id]. *)
Definition reference_id (N : NamedCollectionTy) (r : NamedReference (k_type (cl_key (nc_collection N))))
    : connm (option (k_type (cl_key (nc_collection N)))) :=
  match r with
  | RefName name =>
      ms ← view_query (by_name_view N) (with_key (K := k_type (vt_key (by_name_view N))) name view_new);
      mret ((fun m => ch_id (cm_source m)) <$> head ms)
  | RefId d => key ← st_lift (document_id_deserialize (cl_key (nc_collection N)) d); mret (Some key)
  | RefKey key => mret (Some key)
  end.

(** [Entry]: what to insert, how to update, and how often to try again. *)
Record Entry (N : NamedCollectionTy) := MkEntry {
  entry_name : NamedReference (k_type (cl_key (nc_collection N)));
  entry_insert : option (cl_contents (nc_collection N));
  entry_update : option (cl_contents (nc_collection N) -> cl_contents (nc_collection N));
  entry_retry_limit : nat
}.
Arguments MkEntry {N} _ _ _ _.
Arguments entry_name {N} _.
Arguments entry_insert {N} _.
Arguments entry_update {N} _.
Arguments entry_retry_limit {N} _.
Definition entry_new {N} (name : NamedReference (k_type (cl_key (nc_collection N)))) : Entry N := MkEntry name None None 0.
Definition or_insert_with {N} (cb : cl_contents (nc_collection N)) (e : Entry N) : Entry N :=
  MkEntry (entry_name e) (Some cb) (entry_update e) (entry_retry_limit e).
Definition update_with {N} (cb : cl_contents (nc_collection N) -> cl_contents (nc_collection N)) (e : Entry N) : Entry N :=
  MkEntry (entry_name e) (entry_insert e) (Some cb) (entry_retry_limit e).
Definition retry_limit {N} (attempts : nat) (e : Entry N) : Entry N :=
  MkEntry (entry_name e) (entry_insert e) (entry_update e) attempts.

(** The loop of [execute]. *)
Fixpoint entry_update_loop (N : NamedCollectionTy) (retry_limit : nat) (i : nat)
    (update : cl_contents (nc_collection N) -> cl_contents (nc_collection N))
    (existing : CollectionDocument (nc_collection N)) : connm (option (CollectionDocument (nc_collection N))) := fun s =>
  let existing := MkCollectionDocument (cd_header existing) (update (cd_contents existing)) in
  match cd_update existing (others (2 * i) s) with
  | (Ok existing, s) => (Ok (Some existing), s)
  | (Err (CoreDb (DocumentConflict c h)), s) =>
      match retry_limit with
      | S retry_limit =>
          match named_load N (RefId (id h)) (others (2 * i + 1) s) with
          | (Ok (Some doc), s) => entry_update_loop N retry_limit (S i) update doc s
          | (Ok None, s) => (Ok None, s)
          | (Err e, s) => (Err e, s)
          | (Panic, s) => (Panic, s)
          end
      | O => (Err (CoreDb (DocumentConflict c h)), s)
      end
  | (Err e, s) => (Err e, s)
  | (Panic, s) => (Panic, s)
  end.
Definition execute {N} (e : Entry N) : connm (option (CollectionDocument (nc_collection N))) :=
  existing ← named_load N (entry_name e);
  match existing with
  | Some existing =>
      match entry_update e with
      | Some update => entry_update_loop N (entry_retry_limit e) 0 update existing
      | None => mret (Some existing)
      end
  | None =>
      match entry_insert e with
      | Some new_document => doc ← sc_push (nc_collection N) new_document; mret (Some doc)
      | None => mret None
      end
  end.
End Interference.

End Connection.

(** ** A database *)

Section Database.
Context `{Nebari} `{DocumentCodec} `{ViewCodec} `{VersionCodec} `{ChangesCodec} `{Actionable} `{Digest} `{Profile}.
Context (schedule : list MapResult -> list MapResult) (schema : Schematic) (database : str) (session : option Session) (fuel : nat).

(** [LowLevelConnection for Database]. *)
Definition database_connection : LowLevelConnection World := {|
  ll_schematic := schema;
  ll_apply_transaction := apply_transaction schedule schema database session;
  ll_get_from_collection d c := reading (fun r => get_from_collection database session r d c);
  ll_get_multiple_from_collection ids c := reading (fun r => get_multiple_from_collection database session r ids c);
  ll_list_from_collection range order limit c := reading (fun r => list_from_collection database session r range order limit c);
  ll_list_headers_from_collection range order limit c := reading (fun r => list_headers_from_collection database session r range order limit c);
  ll_count_from_collection range c := reading (fun r => count_from_collection database session r range c);
  ll_query_by_name := query_by_name schedule schema database session fuel;
  ll_reduce_by_name := reduce_by_name schedule schema database session fuel;
  ll_reduce_grouped_by_name := reduce_grouped_by_name schedule schema database session fuel;
  ll_delete_docs_by_name := delete_docs_by_name schedule schema database session fuel
|}.
End Database.
