(* ===== verification/Admin.v ===== *)
(** * The administration schema

    The collections of [bonsaidb-core/src/admin/]: databases, users, roles,
    groups of permissions and authentication tokens, with the permissions they
    give and the challenges of a token.  The formats of the collections are the
    serializer's, [blake3] is another crate: parameters. *)

From Stdlib Require Import ZArith Lia String.
From stdpp Require Import base list option numbers gmap.
From S2P Require Import Prelude Bytes Utf8 Key Time Nebari Document Names Schema Permissions View Query Transaction Connection.

Local Open Scope Z_scope.


(** ** The collections *)

Record DatabaseRecord := MkDatabaseRecord { dr_name : str; dr_schema : SchemaName }.
Record User := MkUser { username : str; user_groups : list Z; user_roles : list Z; argon_hash : option str }.
Record Role := MkRole { role_name : str; role_groups : list Z }.
Record PermissionGroup `{Actionable} := MkPermissionGroup { group_name : str; statements : list Statement }.
Arguments MkPermissionGroup {_} _ _.
Inductive IdentityId := IdUser (id : Z) | IdRole (id : Z).
Record AuthenticationToken := MkAuthenticationToken { tok_identity : IdentityId; tok_token : str; tok_created_at : Z }.

(** [User::default_with_username], [Role::named] and [PermissionGroup::named]
    with their builders. *)
Definition default_with_username (name : str) : User := MkUser name [] [] None.
Definition role_named (name : str) : Role := MkRole name [].
Definition with_group_ids (ids : list Z) (r : Role) : Role := MkRole (role_name r) ids.
Definition group_named `{Actionable} (name : str) : PermissionGroup := MkPermissionGroup name [].
Definition with_statements `{Actionable} (l : list Statement) (g : PermissionGroup) : PermissionGroup :=
  MkPermissionGroup (group_name g) l.

(** The formats, and the [TypeId]s of the views by name. *)
Class AdminFormats `{Actionable} := {
  database_to_vec : DatabaseRecord -> option bytes;
  database_from_slice : bytes -> option DatabaseRecord;
  user_to_vec : User -> option bytes;
  user_from_slice : bytes -> option User;
  role_to_vec : Role -> option bytes;
  role_from_slice : bytes -> option Role;
  group_to_vec : PermissionGroup -> option bytes;
  group_from_slice : bytes -> option PermissionGroup;
  token_to_vec : AuthenticationToken -> option bytes;
  token_from_slice : bytes -> option AuthenticationToken;
  schema_name_to_vec : SchemaName -> option bytes;
  schema_name_from_slice : bytes -> option SchemaName;
  unit_to_vec : unit -> option bytes;
  unit_from_slice : bytes -> option unit;
  databases_by_name : TypeId;
  users_by_name : TypeId;
  roles_by_name : TypeId;
  groups_by_name : TypeId
}.

(** [bonsaidb_core::Error], as far as a storage returns it. *)
Inductive StorageError `{Nebari} `{Actionable} :=
| StorageCore (e : CoreError)
| StorageFaulted (f : StorageFault).
Abbreviation StorageTime e := (StorageFaulted (FaultTime e)).
Abbreviation StorageSchema e := (StorageFaulted (FaultSchema e)).
Abbreviation SchemaNotRegistered s := (StorageFaulted (FaultSchemaNotRegistered s)).
Abbreviation SchemaAlreadyRegistered s := (StorageFaulted (FaultSchemaAlreadyRegistered s)).
Abbreviation SchemaMismatch database schema stored := (StorageFaulted (FaultSchemaMismatch database schema stored)).
Abbreviation InvalidDatabaseName name := (StorageFaulted (FaultInvalidDatabaseName name)).
Abbreviation DatabaseNotFound name := (StorageFaulted (FaultDatabaseNotFound name)).
Abbreviation DatabaseNameAlreadyTaken name := (StorageFaulted (FaultDatabaseNameAlreadyTaken name)).
Abbreviation UserNotFound := (StorageFaulted FaultUserNotFound).
Abbreviation InvalidCredentials := (StorageFaulted FaultInvalidCredentials).
Abbreviation PasswordHashFailed := (StorageFaulted FaultPassword).

(** [blake3]: [derive_key] and [keyed_hash]. *)
Class Blake3 := {
  derive_key : bytes -> bytes -> bytes;
  keyed_hash : bytes -> bytes -> bytes
}.
Definition OUT_LEN : Z := 32.

Section Admin.
Context `{Nebari} `{Actionable} `{!AdminFormats} {St : Type} `{!LowLevelConnection St}.
Abbreviation connm := (stm St CoreError).

Definition database_collection : CollectionTy :=
  MkCollectionTy (qualified_new (lit "bonsaidb") (lit "databases")) key_u64 DatabaseRecord database_to_vec database_from_slice (fun _ => None).
Definition user_collection : CollectionTy :=
  MkCollectionTy (qualified_new (lit "khonsulabs") (lit "user")) key_u64 User user_to_vec user_from_slice (fun _ => None).
Definition role_collection : CollectionTy :=
  MkCollectionTy (qualified_new (lit "khonsulabs") (lit "role")) key_u64 Role role_to_vec role_from_slice (fun _ => None).
Definition group_collection : CollectionTy :=
  MkCollectionTy (qualified_new (lit "khonsulabs") (lit "permission-group")) key_u64 PermissionGroup group_to_vec group_from_slice (fun _ => None).
Definition token_collection : CollectionTy :=
  MkCollectionTy (qualified_new (lit "bonsaidb") (lit "authentication-tokens")) key_u64 AuthenticationToken token_to_vec token_from_slice (fun _ => None).

Definition databases : NamedCollectionTy := MkNamedCollectionTy database_collection databases_by_name SchemaName schema_name_from_slice.
Definition users : NamedCollectionTy := MkNamedCollectionTy user_collection users_by_name unit unit_from_slice.
Definition roles : NamedCollectionTy := MkNamedCollectionTy role_collection roles_by_name unit unit_from_slice.
Definition groups : NamedCollectionTy := MkNamedCollectionTy group_collection groups_by_name unit unit_from_slice.

Definition database_of (d : CollectionDocument database_collection) : DatabaseRecord := cd_contents d.
Definition user_of (d : CollectionDocument user_collection) : User := cd_contents d.
Definition role_of (d : CollectionDocument role_collection) : Role := cd_contents d.
Definition group_of (d : CollectionDocument group_collection) : PermissionGroup := cd_contents d.
Definition token_of (d : CollectionDocument token_collection) : AuthenticationToken := cd_contents d.

(** The views by name: the name of the contents, with the schema for databases. *)
Definition emit_name (name : str) (value : option bytes) (doc : Doc) : res ViewError (list Mapping) :=
  key ← map_err (fun _ => ViewFailure 0) (as_ord_bytes key_string name);
  value ← ok_or (ViewFailure 0) value;
  Ok [MkMapping (header doc) key value].
Definition in_map {A} (m : res CoreError A) : res ViewError A := map_err (fun _ => ViewFailure 0) m.
Definition databases_by_name_map (doc : Doc) : res ViewError (list Mapping) :=
  d ← in_map (collection_document_try_from database_collection doc);
  emit_name (dr_name (database_of d)) (schema_name_to_vec (dr_schema (database_of d))) doc.
Definition users_by_name_map (doc : Doc) : res ViewError (list Mapping) :=
  d ← in_map (collection_document_try_from user_collection doc);
  emit_name (username (user_of d)) (unit_to_vec ()) doc.
Definition roles_by_name_map (doc : Doc) : res ViewError (list Mapping) :=
  d ← in_map (collection_document_try_from role_collection doc);
  emit_name (role_name (role_of d)) (unit_to_vec ()) doc.
Definition groups_by_name_map (doc : Doc) : res ViewError (list Mapping) :=
  d ← in_map (collection_document_try_from group_collection doc);
  emit_name (group_name (group_of d)) (unit_to_vec ()) doc.

(** ** Permissions *)

Definition merge_groups (groups : list (CollectionDocument group_collection)) (inherit_permissions : Permissions) : Permissions :=
  permissions_merged (((fun g => permissions_from (statements (group_of g))) <$> groups) ++ [inherit_permissions]).

(** [Role::effective_permissions]. *)
Definition role_effective_permissions (r : Role) (inherit_permissions : Permissions) : connm Permissions :=
  groups ← sc_get_multiple group_collection (role_groups r);
  mret (merge_groups groups inherit_permissions).

(** [Itertools::unique] keeps first occurrences, [Vec::dedup] removes repeated
    neighbours. *)
Fixpoint unique_from (seen l : list Z) : list Z :=
  match l with
  | [] => []
  | x :: l => if decide (x ∈ seen) then unique_from seen l else x :: unique_from (x :: seen) l
  end.
Definition unique (l : list Z) : list Z := unique_from [] l.
Fixpoint dedup (l : list Z) : list Z :=
  match l with
  | x :: rest =>
      match dedup rest with
      | y :: l' => if x =? y then y :: l' else x :: y :: l'
      | [] => [x]
      end
  | [] => []
  end.

(** [User::effective_permissions]. *)
Definition user_effective_permissions (u : User) (inherit_permissions : Permissions) : connm Permissions :=
  from_roles ← match user_roles u with
    | [] => mret []
    | _ =>
        found ← sc_get_multiple role_collection (user_groups u);
        mret (unique (found ≫= fun doc => role_groups (role_of doc)))
    end;
  groups ← match from_roles with
    | [] => sc_get_multiple group_collection (user_groups u)
    | _ => sc_get_multiple group_collection (dedup (from_roles ++ user_groups u))
    end;
  mret (merge_groups groups inherit_permissions).

(** ** Tokens *)

Inductive IdentityReference := RefUser (name : NamedReference Z) | RefRole (name : NamedReference Z).
(** [IdentityReference::resolve]. *)
Definition resolve (i : IdentityReference) : connm (option IdentityId) :=
  match i with
  | RefUser name => d ← reference_id users name; mret (IdUser <$> d)
  | RefRole name => d ← reference_id roles name; mret (IdRole <$> d)
  end.

(** [Error::conflicting_document]. *)
Definition conflicting_document (c : CollectionName) (e : CoreError) : option Header :=
  match e with
  | CoreDb (DocumentConflict c' h) => if decide (c' = c) then Some h else None
  | _ => None
  end.

(** [AuthenticationToken::create]: the attempts take their id and token from a
    stream; [None] stands for more than [fuel] attempts. *)
Fixpoint create_loop (fuel i : nat) (random : nat -> Z * str) (now : Z) (identity : IdentityId) (s : St)
    : option (res CoreError (CollectionDocument token_collection) * St) :=
  match fuel with
  | O => None
  | S fuel =>
      let '(id, token) := random i in
      match sc_insert token_collection id (MkAuthenticationToken identity token now) s with
      | (Err e, s) =>
          match conflicting_document (cl_name token_collection) e with
          | Some _ => create_loop fuel (S i) random now identity s
          | None => Some (Err e, s)
          end
      | other => Some other
      end
  end.
Definition token_create (fuel : nat) (random : nat -> Z * str) (now : Z) (identity : IdentityReference) (s : St)
    : option (res StorageError (CollectionDocument token_collection) * St) :=
  match resolve identity s with
  | (Ok (Some id), s) => (fun x : res CoreError _ * St => (map_err StorageCore x.1, x.2)) <$> create_loop fuel 0 random now id s
  | (Ok None, s) => Some (Err InvalidCredentials, s)
  | (Err e, s) => Some (Err (StorageCore e), s)
  | (Panic, s) => Some (Panic, s)
  end.

Section Challenge.
Context `{!Blake3}.

(** [format!] of a timestamp. *)
Definition timestamp_text (t : Z) : res StorageError str := unwrap (res_ok (timestamp_display Nanoseconds BonsaiEpoch t)).

Definition compute_challenge_response_blake3 (token : str) (nonce : bytes) (timestamp : Z) : res StorageError bytes :=
  text ← timestamp_text timestamp;
  let context := lit "bonsaidb " ++ text ++ lit " token-challenge" in
  Ok (keyed_hash (derive_key context (as_bytes token)) nonce).
Definition compute_request_time_hash_blake3 (request_time : Z) (private_token : str) : res StorageError bytes :=
  text ← timestamp_text request_time;
  let context := lit "bonsaidb " ++ text ++ lit " token-authentication" in
  Ok (keyed_hash (derive_key context (as_bytes private_token)) (to_be_bytes i64 request_time)).

(** [TryInto<[u8; OUT_LEN]>]. *)
Definition hash_array (hash : bytes) : res StorageError bytes :=
  if blen hash =? OUT_LEN then Ok hash else Err InvalidCredentials.

Definition validate_challenge (t : AuthenticationToken) (server_timestamp : Z) (nonce hash : bytes) : res StorageError unit :=
  computed_hash ← compute_challenge_response_blake3 (tok_token t) nonce server_timestamp;
  hash ← hash_array hash;
  if bool_decide (computed_hash = hash) then Ok tt else Err InvalidCredentials.
Definition check_request_time (request_time : Z) (request_time_check : bytes) (token : str) : res StorageError unit :=
  request_time_check ← hash_array request_time_check;
  hash ← compute_request_time_hash_blake3 request_time token;
  if bool_decide (hash = request_time_check) then Ok tt else Err InvalidCredentials.
End Challenge.
End Admin.
