(* ===== verification/Storage.v ===== *)
(** * Storage: databases, users and sessions

    [bonsaidb-local/src/storage.rs] and [storage/token_authentication.rs]: the
    names and schemas of the databases of a storage, its users with their groups
    and roles, and the sessions of those who have authenticated, over a
    connection to the administration database.

    The state is the one behind the locks of [Data].  An [AuthenticatedSession]
    is shared: the map of sessions and every [Storage] that authenticated hold a
    reference, and it is dropped when the last one goes; its identity is the id
    it was created with.  Time, randomness and the outcome of opening and
    deleting directories are arguments; password hashing is a parameter. *)

From Stdlib Require Import ZArith Lia String.
From stdpp Require Import base list option numbers gmap.
From S2P Require Import Prelude Bytes Utf8 Digits Timestamp Key Time Nebari Document Names Schema Permissions View Query Transaction Vault Connection Admin.

Local Open Scope Z_scope.

Definition ADMIN_DATABASE_NAME : str := lit "_admin".
Definition admin_schema_name : SchemaName := qualified_new (lit "khonsulabs") (lit "bonsaidb-admin").

(** ** State *)

(** [argon::Hasher]: a hash from the user, the password and a salt. *)
Class PasswordHasher := {
  hash_password : Z -> str -> bytes -> option str;
  verify_password : str -> str -> bool
}.
(** The errors of the directories of databases. *)
Class StorageIO `{Nebari} := {
  open_error : str -> option nebari_error;
  delete_error : str -> option nebari_error
}.
Record Ambient := MkAmbient { now_at_request : Z; now_at_challenge : Z; random_nonce : bytes; random_salt : bytes }.

Record AuthenticatedSession `{Actionable} := MkAuthenticatedSession { as_session : Session; as_storages : nat }.
Record SessionSubscribers := MkSessionSubscribers {
  subscribers : gmap Z (option Z);
  subscribers_by_session : gmap Z (gset Z);
  last_id : Z
}.
Record Data `{Actionable} (St : Type) := MkData {
  admin_state : St;
  schemas : gmap SchemaName Schematic;
  available_databases : gmap str SchemaName;
  open_names : gset str;
  folders : gset str;
  authenticated_permissions : Permissions;
  authenticated : gmap Z AuthenticatedSession;
  registered : gset Z;
  last_session_id : Z;
  session_subscribers : SessionSubscribers
}.
Arguments MkAuthenticatedSession {_} _ _.
Arguments MkData {_ St} _ _ _ _ _ _ _ _ _ _.
Arguments admin_state {_ St} _.
Arguments schemas {_ St} _.
Arguments available_databases {_ St} _.
Arguments open_names {_ St} _.
Arguments folders {_ St} _.
Arguments authenticated_permissions {_ St} _.
Arguments authenticated {_ St} _.
Arguments registered {_ St} _.
Arguments last_session_id {_ St} _.
Arguments session_subscribers {_ St} _.

(** [Storage]: what it shares is the state. *)
Record Storage `{Actionable} := MkStorage { st_authentication : option Z; effective_session : option Session }.
Arguments MkStorage {_} _ _.
(** [Database]: its name, schema and the session it acts with. *)
Record OpenDatabase `{Actionable} := MkOpenDatabase { od_name : str; od_schema : SchemaName; od_session : option Session }.
Arguments MkOpenDatabase {_} _ _ _.

Inductive Authentication :=
| AuthToken (id now : Z) (now_hash : bytes)
| AuthChallengeResponse (hash : bytes)
| AuthPassword (user : NamedReference Z) (password : str).

Section Storage.
Context `{Nebari} `{Actionable} `{!AdminFormats} `{Blake3} `{PasswordHasher} `{!StorageIO} `{Profile}.
Context {St : Type} `{!LowLevelConnection St}.
Abbreviation storagem := (stm (Data St) StorageError).
Abbreviation admin_schematic := (ll_schematic (St := St)).

Definition with_admin (a : St) (d : Data St) : Data St :=
  MkData a (schemas d) (available_databases d) (open_names d) (folders d) (authenticated_permissions d) (authenticated d) (registered d)
    (last_session_id d) (session_subscribers d).
Definition with_schemas (m : gmap SchemaName Schematic) (d : Data St) : Data St :=
  MkData (admin_state d) m (available_databases d) (open_names d) (folders d) (authenticated_permissions d) (authenticated d) (registered d)
    (last_session_id d) (session_subscribers d).
Definition with_available (m : gmap str SchemaName) (d : Data St) : Data St :=
  MkData (admin_state d) (schemas d) m (open_names d) (folders d) (authenticated_permissions d) (authenticated d) (registered d)
    (last_session_id d) (session_subscribers d).
Definition with_folders (opened f : gset str) (d : Data St) : Data St :=
  MkData (admin_state d) (schemas d) (available_databases d) opened f (authenticated_permissions d) (authenticated d) (registered d)
    (last_session_id d) (session_subscribers d).
Definition with_sessions (a : gmap Z AuthenticatedSession) (r : gset Z) (n : Z) (d : Data St) : Data St :=
  MkData (admin_state d) (schemas d) (available_databases d) (open_names d) (folders d) (authenticated_permissions d) a r n
    (session_subscribers d).
Definition with_subscribers (l : SessionSubscribers) (d : Data St) : Data St :=
  MkData (admin_state d) (schemas d) (available_databases d) (open_names d) (folders d) (authenticated_permissions d) (authenticated d)
    (registered d) (last_session_id d) l.

(** ** Names and directories *)

Definition is_ascii_alphanumeric (c : Z) : bool :=
  (48 <=? c) && (c <=? 57) || (65 <=? c) && (c <=? 90) || (97 <=? c) && (c <=? 122).
Definition name_char (index : nat) (c : Z) : bool :=
  is_ascii_alphanumeric c || ((index =? 0)%nat && (c =? 95)) || ((0 <? index)%nat && ((c =? 46) || (c =? 45))).
Definition validate_name (name : str) : res StorageError unit :=
  if forallb (fun p => name_char p.1 p.2) (imap pair name) then Ok tt else Err (InvalidDatabaseName name).

(** A directory below that of the storage; the empty name is the directory of
    the storage itself, with everything in it. *)
Definition folder_exists (name : str) (d : Data St) : bool := bool_decide (name = [] \/ name ∈ folders d).
Definition without_folder (name : str) (f : gset str) : gset str := if decide (name = []) then ∅ else f ∖ {[name]}.

Definition open_roots (name : str) : storagem unit := fun d =>
  if decide (name ∈ open_names d) then (Ok tt, d)
  else match open_error name with
       | Some e => (Err (StorageCore (CoreDb (DbNebari e))), d)
       | None => (Ok tt, with_folders ({[name]} ∪ open_names d) ({[name]} ∪ folders d) d)
       end.

(** [admin]: the administration database is opened, or the call panics. *)
Definition admin : storagem unit := fun d =>
  match open_roots ADMIN_DATABASE_NAME d with
  | (Ok tt, d) => (Ok tt, d)
  | (_, d) => (Panic, d)
  end.
Definition in_admin {A} (m : stm St CoreError A) : storagem A := fun d =>
  let '(r, a) := m (admin_state d) in (map_err StorageCore r, with_admin a d).

(** ** Databases *)

Definition register_schema (name : SchemaName) (schematic : res SchemaError Schematic) : storagem unit := fun d =>
  match schematic with
  | Ok schematic =>
      (if decide (schemas d !! name = None) then Ok tt else Err (SchemaAlreadyRegistered name),
       with_schemas (<[name := schematic]> (schemas d)) d)
  | Err e => (Err (StorageSchema e), d)
  | Panic => (Panic, d)
  end.

Definition cache_available_databases : storagem unit :=
  _ ← admin;
  ms ← in_admin (view_query (by_name_view databases) view_new);
  st_modify (with_available (list_to_map (reverse ((fun m => (cm_key m, cm_value m)) <$> ms)))).

(** [database_without_schema]: the database acts with the session of the
    storage that is passed, and with none if none is. *)
Definition database_without_schema (name : str) (storage : option Storage) (expected_schema : option SchemaName)
    : storagem OpenDatabase :=
  d ← st_get;
  stored_schema ← st_lift (ok_or (DatabaseNotFound name) (available_databases d !! name));
  _ ← st_lift (match expected_schema with
               | Some expected => if decide (stored_schema = expected) then Ok tt else Err (SchemaMismatch name expected stored_schema)
               | None => Ok tt
               end);
  match schemas d !! stored_schema with
  | Some _ =>
      _ ← open_roots name;
      mret (MkOpenDatabase name stored_schema (storage ≫= effective_session))
  | None => st_lift (Err (SchemaNotRegistered stored_schema))
  end.

Definition inst_database (schema : SchemaName) (name : str) : storagem OpenDatabase :=
  database_without_schema name None (Some schema).

Definition inst_create_database_with_schema (name : str) (schema : SchemaName) (only_if_needed : bool) : storagem unit :=
  _ ← st_lift (validate_name name);
  d ← st_get;
  if decide (schemas d !! schema = None) then st_lift (Err (SchemaNotRegistered schema))
  else
    _ ← admin;
    if decide (available_databases d !! name = None) then
      _ ← in_admin (collection_push database_collection (MkDatabaseRecord name schema));
      st_modify (fun d => with_available (<[name := schema]> (available_databases d)) d)
    else if only_if_needed then mret tt
    else st_lift (Err (DatabaseNameAlreadyTaken name)).

(** [create_database]. *)
Definition inst_create_database (schema : SchemaName) (name : str) (only_if_needed : bool) : storagem OpenDatabase :=
  _ ← inst_create_database_with_schema name schema only_if_needed;
  inst_database schema name.

Definition inst_delete_database (name : str) : storagem unit :=
  _ ← admin;
  _ ← st_modify (fun d => with_available (delete name (available_databases d)) d);
  _ ← st_modify (fun d => with_folders (open_names d ∖ {[name]}) (folders d) d);
  d ← st_get;
  _ ← (if folder_exists name d then
         match delete_error name with
         | Some e => st_lift (Err (StorageCore (CoreDb (DbNebari e))))
         | None => st_modify (fun d => with_folders (open_names d) (without_folder name (folders d)) d)
         end
       else mret tt);
  ms ← in_admin (view_query (by_name_view databases) (with_key (K := k_type (vt_key (by_name_view databases))) name view_new));
  match ms with
  | entry :: _ =>
      h ← st_lift (map_err StorageCore (header_try_from (cl_key database_collection) (cm_source entry)));
      in_admin (conn_delete (cl_name database_collection) h)
  | [] => st_lift (Err (DatabaseNotFound name))
  end.

(** The maps are listed in no particular order. *)
Definition inst_list_databases : storagem (list (str * SchemaName)) :=
  d ← st_get; mret (map_to_list (available_databases d)).
(** The schematics that are summarized. *)
Definition inst_list_available_schemas : storagem (list Schematic) :=
  d ← st_get;
  mret (omap (fun name => schemas d !! name) (remove_dups ((map_to_list (available_databases d)).*2))).

(** ** Users *)

Abbreviation UserDoc := (CollectionDocument user_collection).
Definition user_id (u : UserDoc) : Z := ch_id (cd_header u).
Definition set_user (f : User -> User) (u : UserDoc) : UserDoc := MkCollectionDocument (C := user_collection) (cd_header u) (f (user_of u)).
Definition set_groups (l : list Z) (u : User) : User := MkUser (username u) l (user_roles u) (argon_hash u).
Definition set_roles (l : list Z) (u : User) : User := MkUser (username u) (user_groups u) l (argon_hash u).
Definition set_hash (h : str) (u : User) : User := MkUser (username u) (user_groups u) (user_roles u) (Some h).

Definition inst_create_user (name : str) : storagem Z :=
  _ ← admin;
  h ← in_admin (collection_push user_collection (default_with_username name));
  mret (ch_id h).
Definition load_user {E} (none : E) (r : NamedReference Z) (lift : CoreError -> E) : stm (Data St) E UserDoc := fun d =>
  let '(r, a) := named_load users r (admin_state d) in
  (u ← map_err lift r; ok_or none u, with_admin a d).
Definition inst_delete_user (user : NamedReference Z) : storagem unit :=
  _ ← admin;
  u ← load_user UserNotFound user StorageCore;
  in_admin (cd_delete u).
Definition inst_set_user_password (salt : bytes) (user : NamedReference Z) (password : str) : storagem unit :=
  _ ← admin;
  u ← load_user UserNotFound user StorageCore;
  hash ← st_lift (ok_or PasswordHashFailed (hash_password (user_id u) password salt));
  _ ← in_admin (cd_update (set_user (set_hash hash) u));
  mret tt.

(** [update_user_with_named_id]: [other_id] looks up the other name; the
    callback returns the user to store, or nothing when nothing changes. *)
Definition update_user_with_named_id (user : NamedReference Z) (other_id : stm St CoreError (option Z))
    (callback : UserDoc -> Z -> res StorageError (option UserDoc)) : storagem unit :=
  _ ← admin;
  u ← in_admin (named_load users user);
  o ← in_admin other_id;
  match u, o with
  | Some u, Some o =>
      changed ← st_lift (callback u o);
      match changed with
      | Some u => _ ← in_admin (cd_update u); mret tt
      | None => mret tt
      end
  | _, _ => st_lift (Err UserNotFound)
  end.

Definition add_id (x : Z) (l : list Z) : option (list Z) := if decide (x ∈ l) then None else Some (l ++ [x]).
(** [Vec::retain]; whether the length changed. *)
Definition remove_id (x : Z) (l : list Z) : option (list Z) :=
  let kept := filter (fun y => y <> x) l in
  if decide (length l = length kept) then None else Some kept.
Definition add_permission_group_to_user_inner (u : UserDoc) (id : Z) : option UserDoc :=
  (fun l => set_user (set_groups l) u) <$> add_id id (user_groups (user_of u)).
Definition remove_permission_group_from_user_inner (u : UserDoc) (id : Z) : option UserDoc :=
  (fun l => set_user (set_groups l) u) <$> remove_id id (user_groups (user_of u)).
Definition add_role_to_user_inner (u : UserDoc) (id : Z) : option UserDoc :=
  (fun l => set_user (set_roles l) u) <$> add_id id (user_roles (user_of u)).
Definition remove_role_from_user_inner (u : UserDoc) (id : Z) : option UserDoc :=
  (fun l => set_user (set_roles l) u) <$> remove_id id (user_roles (user_of u)).

(** The permission a callback checks first. *)
Definition checked (session : option Session) (a : ServerAction) (f : UserDoc -> Z -> option UserDoc) (u : UserDoc) (id : Z)
    : res StorageError (option UserDoc) :=
  _ ← map_err (fun e => StorageCore (CoreDenied e)) (check_permission session (user_resource_name (user_id u)) (ServerAct a));
  Ok (f u id).

(** The methods of a [Storage]; those of its instance are those without a
    session.  The name of the role to add is looked up among the groups. *)
Definition add_permission_group_to_user (s : Storage) (user group : NamedReference Z) : storagem unit :=
  update_user_with_named_id user (reference_id groups group)
    (checked (effective_session s) ModifyUserPermissionGroups add_permission_group_to_user_inner).
Definition remove_permission_group_from_user (s : Storage) (user group : NamedReference Z) : storagem unit :=
  update_user_with_named_id user (reference_id groups group)
    (checked (effective_session s) ModifyUserPermissionGroups remove_permission_group_from_user_inner).
Definition add_role_to_user (s : Storage) (user role : NamedReference Z) : storagem unit :=
  update_user_with_named_id user (reference_id groups role)
    (checked (effective_session s) ModifyUserRoles add_role_to_user_inner).
Definition remove_role_from_user (s : Storage) (user role : NamedReference Z) : storagem unit :=
  update_user_with_named_id user (reference_id roles role)
    (checked (effective_session s) ModifyUserRoles remove_role_from_user_inner).

(** ** Sessions *)

(** A session is created, registered and held by the storage returned. *)
Definition new_session (a : SessionAuthentication) (p : Permissions) : storagem Storage :=
  d ← st_get;
  id ← st_lift (op_add u64 (last_session_id d) 1);
  let session := MkSession (Some id) a p in
  _ ← st_modify (with_sessions (<[id := MkAuthenticatedSession session 1]> (authenticated d)) ({[id]} ∪ registered d) id);
  mret (MkStorage (Some id) (Some session)).

Definition assume_user (u : UserDoc) : storagem Storage :=
  d ← st_get;
  p ← in_admin (user_effective_permissions (user_of u) (authenticated_permissions d));
  new_session (AuthIdentity (IdentityUser (user_id u) (username (user_of u)))) p.
Definition assume_role (r : CollectionDocument role_collection) : storagem Storage :=
  d ← st_get;
  p ← in_admin (role_effective_permissions (role_of r) (authenticated_permissions d));
  new_session (AuthIdentity (IdentityRole (ch_id (cd_header r)) (role_name (role_of r)))) p.

(** [SessionSubscribers::unregister]. *)
Definition unregister (subscriber_id : Z) (l : SessionSubscribers) : SessionSubscribers :=
  let rest := delete subscriber_id (subscribers l) in
  match subscribers l !! subscriber_id with
  | Some (Some session_id) =>
      MkSessionSubscribers rest (alter (fun ids => ids ∖ {[subscriber_id]}) session_id (subscribers_by_session l)) (last_id l)
  | _ => MkSessionSubscribers rest (subscribers_by_session l) (last_id l)
  end.
(** [register_subscriber]: the first vacant id after the last one used; at most
    one attempt per subscriber, and one more. *)
Fixpoint vacant_id (fuel : nat) (m : gmap Z (option Z)) (last : Z) : option Z :=
  match fuel with
  | O => None
  | S fuel =>
      let id := wrapping_add u64 last 1 in
      if decide (m !! id = None) then Some id else vacant_id fuel m id
  end.
Definition register_subscriber (session_id : option Z) : storagem Z :=
  d ← st_get;
  let l := session_subscribers d in
  id ← st_lift (unwrap (vacant_id (S (size (subscribers l))) (subscribers l) (last_id l)));
  _ ← st_modify (with_subscribers (MkSessionSubscribers (<[id := session_id]> (subscribers l)) (subscribers_by_session l) id));
  mret id.

(** [Drop for AuthenticatedSession]. *)
Definition drop_session (session : Session) (d : Data St) : Data St :=
  match session_id session with
  | Some id =>
      let l := session_subscribers d in
      let gone := default ∅ (subscribers_by_session l !! id) in
      with_subscribers (MkSessionSubscribers (filter (fun p => p.1 ∉ gone) (subscribers l)) (delete id (subscribers_by_session l)) (last_id l))
        (with_sessions (authenticated d) (registered d ∖ {[id]}) (last_session_id d) d)
  | None => d
  end.
(** A reference is gone: the session is dropped with the last one. *)
Definition release (id : Z) (d : Data St) : Data St :=
  match authenticated d !! id with
  | Some a =>
      if decide (as_storages a = O /\ id ∉ registered d)
      then let d := drop_session (as_session a) d in
           with_sessions (delete id (authenticated d)) (registered d) (last_session_id d) d
      else d
  | None => d
  end.
Definition set_storages (f : nat -> nat) (id : Z) (d : Data St) : Data St :=
  with_sessions (alter (fun a => MkAuthenticatedSession (as_session a) (f (as_storages a))) id (authenticated d)) (registered d)
    (last_session_id d) d.
(** [Clone] and [Drop] of a [Storage]. *)
Definition clone_storage (s : Storage) (d : Data St) : Data St :=
  match st_authentication s with Some id => set_storages S id d | None => d end.
Definition drop_storage (s : Storage) (d : Data St) : Data St :=
  match st_authentication s with Some id => release id (set_storages Nat.pred id d) | None => d end.

(** ** Tokens *)

Definition begin_token_authentication (env : Ambient) (id request_time : Z) (request_time_check : bytes) : storagem Storage :=
  between ← st_lift (map_err (fun e => StorageTime e)
    (duration_between Nanoseconds BonsaiEpoch request_time (duration_since_unix_epoch Nanoseconds BonsaiEpoch (now_at_request env))));
  if 300 <? as_secs between then st_lift (Err InvalidCredentials)
  else
    token ← in_admin (sc_get token_collection id);
    token ← st_lift (ok_or InvalidCredentials token);
    _ ← st_lift (check_request_time request_time request_time_check (tok_token (token_of token)));
    new_session (AuthTokenChallenge id (random_nonce env) (now_at_challenge env)) permissions_default.

Definition answer_challenge (session : Session) (hash : bytes) : storagem Storage :=
  match authentication session with
  | AuthTokenChallenge id nonce server_timestamp =>
      token ← in_admin (sc_get token_collection id);
      token ← st_lift (ok_or InvalidCredentials token);
      _ ← st_lift (validate_challenge (token_of token) server_timestamp nonce hash);
      match tok_identity (token_of token) with
      | IdUser id =>
          user ← in_admin (sc_get user_collection id);
          user ← st_lift (ok_or InvalidCredentials user);
          assume_user user
      | IdRole id =>
          role ← in_admin (sc_get role_collection id);
          role ← st_lift (ok_or InvalidCredentials role);
          assume_role role
      end
  | AuthNone | AuthIdentity _ => st_lift (Err InvalidCredentials)
  end.
(** The session is taken out of the map first, and released at the end. *)
Definition finish_token_authentication (id : Z) (hash : bytes) : storagem Storage := fun d =>
  if decide (id ∈ registered d) then
    let d := with_sessions (authenticated d) (registered d ∖ {[id]}) (last_session_id d) d in
    match authenticated d !! id with
    | Some a => let '(r, d) := answer_challenge (as_session a) hash d in (r, release id d)
    | None => (Panic, d)
    end
  else (Err InvalidCredentials, d).

(** ** Authentication *)

Definition authenticate_inner (env : Ambient) (a : Authentication) (loaded_user : option UserDoc) (current_session_id : option Z)
    : storagem Storage :=
  match a with
  | AuthToken id now now_hash => begin_token_authentication env id now now_hash
  | AuthChallengeResponse hash =>
      id ← st_lift (ok_or InvalidCredentials current_session_id);
      finish_token_authentication id hash
  | AuthPassword user password =>
      u ← match loaded_user with Some u => mret u | None => load_user InvalidCredentials user StorageCore end;
      saved_hash ← st_lift (ok_or InvalidCredentials (argon_hash (user_of u)));
      if verify_password password saved_hash then assume_user u else st_lift (Err InvalidCredentials)
  end.

Definition inst_authenticate (env : Ambient) (a : Authentication) : storagem Storage :=
  _ ← admin; authenticate_inner env a None None.

Definition load_role (r : NamedReference Z) : storagem (CollectionDocument role_collection) :=
  o ← in_admin (named_load roles r); st_lift (ok_or InvalidCredentials o).

(** ** Operations of a [Storage] *)

Definition require (s : Storage) (resource : list Identifier) (a : ServerAction) : storagem unit :=
  st_lift (map_err (fun e => StorageCore (CoreDenied e)) (check_permission (effective_session s) resource (ServerAct a))).

(** [Storage::from]. *)
Definition unauthenticated : Storage := MkStorage None None.

Definition create_database_with_schema (s : Storage) (name : str) (schema : SchemaName) (only_if_needed : bool) : storagem unit :=
  _ ← require s (database_resource_name name) CreateDatabase;
  inst_create_database_with_schema name schema only_if_needed.
(** [Storage::database] asks the instance. *)
Definition database (s : Storage) (schema : SchemaName) (name : str) : storagem OpenDatabase := inst_database schema name.
Definition delete_database (s : Storage) (name : str) : storagem unit :=
  _ ← require s (database_resource_name name) DeleteDatabase;
  inst_delete_database name.
Definition list_databases (s : Storage) : storagem (list (str * SchemaName)) :=
  _ ← require s bonsaidb_resource_name ListDatabases;
  inst_list_databases.
Definition list_available_schemas (s : Storage) : storagem (list Schematic) :=
  _ ← require s bonsaidb_resource_name ListAvailableSchemas;
  inst_list_available_schemas.
Definition create_user (s : Storage) (name : str) : storagem Z :=
  _ ← require s bonsaidb_resource_name CreateUser;
  inst_create_user name.
Definition require_user (s : Storage) (user : NamedReference Z) (a : ServerAction) : storagem unit :=
  _ ← admin;
  id ← in_admin (reference_id users user);
  id ← st_lift (ok_or UserNotFound id);
  require s (user_resource_name id) a.
Definition delete_user (s : Storage) (user : NamedReference Z) : storagem unit :=
  _ ← require_user s user DeleteUser;
  inst_delete_user user.
Definition set_user_password (s : Storage) (salt : bytes) (user : NamedReference Z) (password : str) : storagem unit :=
  _ ← require_user s user SetPassword;
  inst_set_user_password salt user password.

(** The id of the session held by a storage. *)
Definition held_session_id (s : Storage) (d : Data St) : option Z :=
  st_authentication s ≫= fun id => authenticated d !! id ≫= fun a => session_id (as_session a).
Definition authenticate (env : Ambient) (s : Storage) (a : Authentication) : storagem Storage :=
  _ ← admin;
  loaded_user ← match a with
    | AuthToken id _ _ => _ ← require s (authentication_token_resource_name id) (Authenticate Token); mret None
    | AuthPassword user _ =>
        u ← load_user InvalidCredentials user StorageCore;
        _ ← require s (user_resource_name (user_id u)) (Authenticate PasswordHash);
        mret (Some u)
    | AuthChallengeResponse _ => mret None
    end;
  d ← st_get;
  authenticate_inner env a loaded_user (held_session_id s d).
Definition assume_identity (s : Storage) (i : IdentityReference) : storagem Storage :=
  _ ← admin;
  match i with
  | RefUser user =>
      u ← load_user InvalidCredentials user StorageCore;
      _ ← require s (user_resource_name (user_id u)) AssumeIdentity;
      assume_user u
  | RefRole role =>
      r ← load_role role;
      _ ← require s (role_resource_name (ch_id (cd_header r))) AssumeIdentity;
      assume_role r
  end.

(** [with_effective_permissions]. *)
Definition with_effective_permissions (s : Storage) (p : Permissions) : option Storage :=
  match effective_session s with
  | Some _ => None
  | None => Some (MkStorage (st_authentication s) (Some (MkSession None AuthNone p)))
  end.
(** [assume_session]. *)
Definition assume_session (s : Storage) (session : Session) : storagem Storage :=
  match st_authentication s with
  | Some _ => st_lift (Err InvalidCredentials)
  | None =>
      match session_id session with
      | None => mret (MkStorage None (Some session))
      | Some id =>
          d ← st_get;
          if decide (id ∈ registered d) then
            a ← st_lift (unwrap (authenticated d !! id));
            let held := as_session a in
            let effective := MkSession (session_id held) (authentication held)
              (permissions_merged [permissions session; permissions held]) in
            _ ← st_modify (set_storages S id);
            mret (MkStorage (Some id) (Some effective))
          else st_lift (Err InvalidCredentials)
      end
  end.

(** ** Opening a storage *)

Definition admin_database_if_needed : storagem unit := fun d =>
  match inst_database admin_schema_name ADMIN_DATABASE_NAME d with
  | (Ok _, d) => (Ok tt, d)
  | (Err (DatabaseNotFound _), d) => (_ ← inst_create_database admin_schema_name ADMIN_DATABASE_NAME true; mret tt) d
  | (Err e, d) => (Err e, d)
  | (Panic, d) => (Panic, d)
  end.
Definition create_admin_database_if_needed : storagem unit :=
  _ ← register_schema admin_schema_name (Ok admin_schematic);
  admin_database_if_needed.
Definition initial_data (a : St) (initial_schemas : gmap SchemaName Schematic) (stored_folders : gset str) (p : Permissions) : Data St :=
  MkData a initial_schemas ∅ ∅ stored_folders p ∅ ∅ 0 (MkSessionSubscribers ∅ ∅ 0).
Definition storage_open (a : St) (initial_schemas : gmap SchemaName Schematic) (stored_folders : gset str) (p : Permissions)
    : res StorageError Storage * Data St :=
  (_ ← cache_available_databases; _ ← create_admin_database_if_needed; mret unauthenticated)
    (initial_data a initial_schemas stored_folders p).
End Storage.

(** ** The id of a storage *)

Section StorageId.
Context `{Nebari} `{Actionable} {Fs : Type} `{!FileSystem Fs}.

Definition id_path (s : Fs) : str := if file_exists (lit "server-id") s then lit "server-id" else lit "storage-id".
(** [lookup_or_create_id]: [None] is an error of the file system. *)
Definition lookup_or_create_id (unique_id : option Z) (random : Z) : stm Fs unit Z := fun s =>
  let path := id_path s in
  match unique_id with
  | Some id =>
      if file_exists path s then
        match file_read path s with Some _ => (Ok id, s) | None => (Err tt, s) end
      else let '(b, s) := file_write path (display_uint id) s in (if b : bool then Ok id else Err tt, s)
  | None =>
      if file_exists path s then
        match file_read path s with
        | Some bs =>
            (text ← unwrap (from_utf8 bs); unwrap (parse_uint u64 text), s)
        | None => (Err tt, s)
        end
      else let '(b, s) := file_write path (display_uint random) s in (if b : bool then Ok random else Err tt, s)
  end.
End StorageId.
