(* ===== verification/ConnectionTheorems.v ===== *)
(** * What a connection promises

    The laws of [LowLevelConnection] over the documents a database holds, and
    what the typed operations of [Connection] do on any connection that keeps
    them: pushed documents are read back, updates never overwrite a revision
    they have not seen, and [modify] is atomic and ends once the other clients
    let it. *)

From Stdlib Require Import ZArith Lia.
From stdpp Require Import base list option numbers gmap.
From S2P Require Import Prelude Bytes Utf8 Key KeyLaws Range Nebari Document Names Changes Schema Permissions View Query Integrity Jobs Transaction Tasks StoreDemo ViewBatch TransactionLaws TransactionSpec QueryLaws TasksLaws TasksTheorems Connection.

Local Open Scope Z_scope.

Lemma Forall2_elem_r {A B} (R : A -> B -> Prop) l k y : Forall2 R l k -> y ∈ k -> exists x, x ∈ l /\ R x y.
Proof.
  intros HR Hy. apply list_elem_of_lookup in Hy as [i Hi]. destruct (Forall2_lookup_r _ _ _ _ _ HR Hi) as (x & Hx & ?).
  exists x. split; [by eapply list_elem_of_lookup_2|done].
Qed.
Lemma Forall2_elem_l {A B} (R : A -> B -> Prop) l k x : Forall2 R l k -> x ∈ l -> exists y, y ∈ k /\ R x y.
Proof. intros HR%Forall2_flip Hx. by apply (Forall2_elem_r _ _ _ _ HR). Qed.

Lemma conn_query_run `{Nebari} `{Actionable} {St} `{!LowLevelConnection St} (V : ViewTy) key k v order limit policy (s : St) :
  schematic_view (vt_id V) = Ok v -> serialized_key (vt_key V) key = Ok k ->
  conn_query V key order limit policy s =
    (let '(r, s1) := ll_query_by_name (view_name v) k order limit policy s in (ms ← r; collect (deserialize_mapping V) ms, s1)).
Proof.
  intros Hv Hk. unfold conn_query, mbind, stm_bind, st_lift. rewrite Hv, Hk.
  destruct (ll_query_by_name (view_name v) k order limit policy s) as [[ms| |] s1]; [|done..]. done.
Qed.

(** What the index of a view holds for a document. *)
Definition doc_output (v : View) (o : option Doc) : list Mapping :=
  match o with Some doc => match view_map v doc with Ok ms => ms | _ => [] end | None => [] end.
Definition doc_indexed (v : View) (o : option Doc) (k : bytes) : option (Revision * bytes) := emitted (doc_output v o) k.

(** The documents seen through a connection, and the states it can be in.
    [DatabaseLaws] shows these laws of a local database, [RemoteLaws] of a
    remote one. *)
Class ConnectionLaws `{LowLevelConnection St} `{Digest} (conn_ok : St -> Prop) (documents : St -> Database) : Prop := {
  law_apply ops s r s' :
    conn_ok s -> ll_apply_transaction ops s = (r, s') ->
    conn_ok s' /\
    match r with
    | Ok results => exists D', spec_operations ll_schematic ops (documents s) = Ok (results, D') /\
        forall c, qualified_wf c -> documents s' c = D' c
    | Err e => (forall c, qualified_wf c -> documents s' c = documents s c) /\
        (forall e', e = CoreDb e' -> document_error e' = true ->
           spec_operations ll_schematic ops (documents s) = Err e')
    | Panic => forall c, qualified_wf c -> documents s' c = documents s c
    end;
  law_get d c s r s' :
    conn_ok s -> qualified_wf c -> ll_get_from_collection d c s = (r, s') ->
    conn_ok s' /\ (forall c', qualified_wf c' -> documents s' c' = documents s c') /\
    (forall o, r = Ok o -> o = documents s c !! d) /\
    (forall e, r = Err (CoreDb e) -> document_error e = false);
  law_get_multiple ids c s r s' :
    conn_ok s -> qualified_wf c -> ll_get_multiple_from_collection ids c s = (r, s') ->
    conn_ok s' /\ (forall c', qualified_wf c' -> documents s' c' = documents s c') /\
    (forall found, r = Ok found -> forall doc, doc ∈ found <-> exists d, d ∈ ids /\ documents s c !! d = Some doc);
  law_list c s r s' :
    conn_ok s -> qualified_wf c -> ll_list_from_collection from_range_full Ascending None c s = (r, s') ->
    conn_ok s' /\ (forall c', qualified_wf c' -> documents s' c' = documents s c') /\
    (forall found, r = Ok found -> forall doc, doc ∈ found <-> exists d, documents s c !! d = Some doc);
  law_query name v key order s r s' :
    conn_ok s -> view_by_name ll_schematic name = Ok v -> qualified_wf (view_collection v) ->
    ll_query_by_name name key order None UpdateBefore s = (r, s') ->
    conn_ok s' /\ (forall c', qualified_wf c' -> documents s' c' = documents s c') /\
    (forall results, r = Ok results ->
       (single_keys key -> NoDup results) /\
       forall d rev k value, MkMapSerialized (MkHeader d rev) k value ∈ results <->
         key_selected key k /\ doc_indexed v (documents s (view_collection v) !! d) k = Some (rev, value));
  law_ids c s d doc :
    conn_ok s -> qualified_wf c -> documents s c !! d = Some doc -> id (header doc) = d
}.

(** Formats that read what they write, and keys that keep their contract. *)
Class FormatLaws (C : CollectionTy) : Prop :=
  cl_roundtrip x b : cl_serialize C x = Some b -> cl_deserialize C b = Some x.
Class GeneratedKey (k : key_ty) : Prop := {
  generated_roundtrip :: KeyRoundTrip k;
  generated_sequence :: KeySequence k;
  generated_first x : first_value k = Ok x -> k_wf k x
}.

Section Clients.
Context `{Nebari} `{Actionable} `{Digest} {St : Type} `{!LowLevelConnection St} (conn_ok : St -> Prop) (documents : St -> Database)
  `{!ConnectionLaws conn_ok documents}.
Context (C : CollectionTy) (Hwf : qualified_wf (cl_name C)).

Abbreviation docs s := (documents s (cl_name C)).
Abbreviation key := (cl_key C).

(** The ids of the collection are keys. *)
Definition typed_ids (D : Docs) : Prop :=
  forall d, is_Some (D !! d) -> exists v, k_wf key v /\ as_ord_bytes key v = Ok d /\ blen d <= MAX_LENGTH.

Lemma id_alloc d : blen d <= MAX_LENGTH -> alloc_ok d.
Proof. unfold alloc_ok, MAX_LENGTH. change (int_max isize) with (2 ^ 63 - 1). lia. Qed.

Lemma document_id_new_Ok k v d : document_id_new k v = Ok d <-> as_ord_bytes k v = Ok d /\ blen d <= MAX_LENGTH.
Proof.
  unfold document_id_new, document_id_try_from. split.
  - intros Hd. inv_res. destruct (Z.leb_spec (blen x) MAX_LENGTH); [|done]. inv_res. done.
  - intros [-> Hl]. simpl. by rewrite (proj2 (Z.leb_le _ _) Hl).
Qed.

Lemma document_id_roundtrip k `{!KeyRoundTrip k} v d :
  k_wf k v -> document_id_new k v = Ok d -> document_id_deserialize k d = Ok v.
Proof.
  intros Hv [Hd Hl]%document_id_new_Ok. unfold document_id_deserialize.
  by rewrite (key_roundtrip v d (Borrowed d) Hv Hd (id_alloc d Hl) eq_refl).
Qed.
(** ** A transaction of one operation *)

Definition same_documents_all (s s' : St) : Prop := forall c, qualified_wf c -> documents s' c = documents s c.

Lemma apply_one c cmd s r s' :
  conn_ok s -> qualified_wf c -> ll_apply_transaction [MkOperation c cmd] s = (r, s') ->
  conn_ok s' /\
  match r with
  | Ok results => exists result M, results = [result] /\
      spec_command ll_schematic c cmd (documents s c) = Ok (result, M) /\ documents s' c = M /\
      forall c', qualified_wf c' -> c' <> c -> documents s' c' = documents s c'
  | Err e => same_documents_all s s' /\
      (forall e', e = CoreDb e' -> document_error e' = true -> spec_command ll_schematic c cmd (documents s c) = Err e')
  | Panic => same_documents_all s s'
  end.
Proof.
  intros Hok Hc Hrun. destruct (law_apply _ _ _ _ Hok Hrun) as [Hok' Hr]. split; [done|]. destruct r as [results|e|].
  - destruct Hr as (D' & Hspec & Hd). cbn [spec_operations op_collection command] in Hspec.
    apply bind_Ok_inv in Hspec as ([result M] & Hcmd & Hspec). simpl in Hspec. injection Hspec as <- <-.
    exists result, M. split_and!; [done|done| |].
    + rewrite Hd by done. unfold set_documents. by rewrite decide_True.
    + intros c' Hc' Hne. rewrite Hd by done. unfold set_documents. by rewrite decide_False.
  - destruct Hr as [Hsame Herr]. split; [done|]. intros e' He Hde. specialize (Herr e' He Hde).
    cbn [spec_operations op_collection command] in Herr.
    destruct (spec_command ll_schematic c cmd (documents s c)) as [[]|e''|]; [done| |done]. by injection Herr as ->.
  - done.
Qed.

(** ** Updating a document *)

(** The document is stored with the revision the client has seen. *)
Definition seen (d : CollectionDocument C) (s : St) (did : bytes) (stored : Doc) : Prop :=
  document_id_new key (ch_id (cd_header d)) = Ok did /\ docs s !! did = Some stored /\
  revision (header stored) = ch_revision (cd_header d).

(** What an update that succeeds leaves: the new contents under the next
    revision, or the document as it was when the contents are the same. *)
Definition stores (d d' : CollectionDocument C) (s s' : St) (did : bytes) (stored : Doc) : Prop :=
  cd_contents d' = cd_contents d /\
  exists bs h, cl_serialize C (cd_contents d) = Some bs /\ collection_header_try_from key h = Ok (cd_header d') /\ id h = did /\
    if decide (digest bs = sha256 (revision (header stored)))
    then docs s' = docs s /\ h = header stored
    else docs s' = <[did := MkDoc h bs]> (docs s) /\ revision h = MkRevision (rev_id (revision (header stored)) + 1) (digest bs).

Context `{!KeyRoundTrip key}.

Lemma update_result d s r s' :
  k_wf key (ch_id (cd_header d)) -> conn_ok s -> cd_update d s = (r, s') ->
  conn_ok s' /\
  match r with
  | Ok d' => ch_id (cd_header d') = ch_id (cd_header d) /\ exists did stored, seen d s did stored /\ stores d d' s s' did stored
  | Err e => same_documents_all s s' /\
      forall c h, e = CoreDb (DocumentConflict c h) -> exists did stored,
        document_id_new key (ch_id (cd_header d)) = Ok did /\ docs s !! did = Some stored /\
        revision (header stored) <> ch_revision (cd_header d)
  | Panic => same_documents_all s s'
  end.
Proof.
  intros Hid Hok Hrun. unfold cd_update, to_document, header_try_from, cl_to_vec in Hrun.
  destruct (cl_serialize C (cd_contents d)) as [bs|] eqn:Hbs; [|injection Hrun as <- <-; by split_and!].
  destruct (document_id_new key (ch_id (cd_header d))) as [did|e|] eqn:Hdid;
    [|injection Hrun as <- <-; split_and!; [done|done|]; unfold document_id_new in Hdid..|by injection Hrun as <- <-].
  2: { intros c h ->. unfold document_id_try_from in Hdid. destruct (as_ord_bytes key _); simpl in Hdid; [|done..].
       destruct (_ <=? _); done. }
  cbn [ok_or mbind res_bind] in Hrun. rewrite (stm_bind_Ok (st_lift (Ok _)) _ s _ s) in Hrun by reflexivity.
  unfold conn_update, op_update in Hrun. cbn [header contents] in Hrun.
  destruct (ll_apply_transaction [MkOperation (cl_name C) (Update (MkHeader did (ch_revision (cd_header d))) bs)] s) as [r1 s1] eqn:Happly.
  pose proof Happly as Hone. apply apply_one in Hone as [Hok1 Hone]; [|done|done].
  unfold mbind, stm_bind in Hrun. rewrite Happly in Hrun. destruct r1 as [results|e|].
  - destruct Hone as (result & M & -> & Hcmd & HM & _). cbn [spec_command id revision] in Hcmd.
    destruct (docs s !! did) as [stored|] eqn:Hst; [|done]. case_decide as Hrev; [|done].
    unfold spec_save, next_revision in Hcmd.
    assert (exists h, result = DocumentUpdated (cl_name C) h /\ id h = did /\
      if decide (digest bs = sha256 (revision (header stored)))
      then docs s1 = docs s /\ h = header stored
      else docs s1 = <[did := MkDoc h bs]> (docs s) /\ revision h = MkRevision (rev_id (revision (header stored)) + 1) (digest bs))
      as (h & -> & Hh & Hcase).
    { case_decide as Hdg; simpl in Hcmd.
      - injection Hcmd as <- <-. exists (header stored). split_and!; [done|exact (law_ids _ _ _ _ Hok Hwf Hst)|done|done].
      - unfold checked_add in Hcmd. destruct (in_range u32 (rev_id (revision (header stored)) + 1)); [|done]. simpl in Hcmd.
        injection Hcmd as <- <-. eexists. by split_and!. }
    simpl in Hrun. unfold collection_header_try_from in Hrun. rewrite Hh, (document_id_roundtrip key _ _ Hid Hdid) in Hrun.
    simpl in Hrun. injection Hrun as <- <-. split; [done|]. split; [done|]. exists did, stored. split; [by split_and!|].
    split; [done|]. exists bs, h. split_and!; [done| |done|done]. unfold collection_header_try_from. by rewrite Hh, (document_id_roundtrip key _ _ Hid Hdid).
  - destruct Hone as [Hsame Herr]. injection Hrun as <- <-. split_and!; [done|done|]. intros c h ->. specialize (Herr _ eq_refl eq_refl).
    cbn [spec_command id revision] in Herr. exists did. destruct (docs s !! did) as [stored|]; [|done]. exists stored. split_and!; [done|done|].
    case_decide; [|done]. unfold spec_save, next_revision in Herr. case_decide; [done|]. by destruct (checked_add u32 _ _).
  - by injection Hrun as <- <-.
Qed.

(** ** Reading a document *)

Definition conflict_free {A} (r : res CoreError A) : Prop := forall c h, r <> Err (CoreDb (DocumentConflict c h)).

Lemma document_id_new_no_conflict k v e : document_id_new k v = Err e -> forall c h, e <> CoreDb (DocumentConflict c h).
Proof.
  unfold document_id_new, document_id_try_from. destruct (as_ord_bytes k v); simpl; [|by intros [= <-]..].
  destruct (_ <=? _); simpl; [done|]. by intros [= <-].
Qed.

Lemma try_from_no_conflict doc e : collection_document_try_from C doc = Err e -> forall c h, e <> CoreDb (DocumentConflict c h).
Proof.
  unfold collection_document_try_from, cl_from_slice, collection_header_try_from, document_id_deserialize.
  destruct (cl_deserialize C (contents doc)); simpl; [|by intros [= <-]].
  destruct (from_ord_bytes key _); simpl; by intros [= <-].
Qed.

(** Reading returns the stored document, with the id that was asked for. *)
Lemma get_result v s r s' :
  k_wf key v -> conn_ok s -> sc_get C v s = (r, s') ->
  conn_ok s' /\ same_documents_all s s' /\ conflict_free r /\
  (forall o, r = Ok o -> exists did, document_id_new key v = Ok did /\
     match o with
     | Some d => exists stored, docs s !! did = Some stored /\ collection_document_try_from C stored = Ok d /\ ch_id (cd_header d) = v
     | None => docs s !! did = None
     end).
Proof.
  intros Hv Hok Hrun. unfold sc_get, conn_get in Hrun. destruct (document_id_new key v) as [did|e|] eqn:Hdid; last first.
  { by injection Hrun as <- <-. }
  { injection Hrun as <- <-. split_and!; [done|done| |done]. intros c h [= ->]. by eapply document_id_new_no_conflict. }
  unfold mbind, stm_bind, st_lift in Hrun. destruct (ll_get_from_collection did (cl_name C) s) as [r1 s1] eqn:Hget.
  apply law_get in Hget as (Hok1 & Hsame & Hr & He); [|done|done]. destruct r1 as [[stored|]|e|].
  - specialize (Hr _ eq_refl). symmetry in Hr. destruct (collection_document_try_from C stored) as [d|e|] eqn:Hd; injection Hrun as <- <-;
      (split_and!; [done|done| |]); try done.
    + intros o [= <-]. exists did. split; [done|]. exists stored. split_and!; [done|done|].
      unfold collection_document_try_from, collection_header_try_from in Hd. inv_res.
      rewrite (law_ids _ _ _ _ Hok Hwf Hr), (document_id_roundtrip key v did Hv Hdid) in *. by simplify_eq.
    + intros c h [= ->]. by eapply try_from_no_conflict.
  - injection Hrun as <- <-. split_and!; [done|done|done|]. intros o [= <-]. exists did. split; [done|]. by rewrite (Hr _ eq_refl).
  - injection Hrun as <- <-. split_and!; [done|done| |done]. intros c h [= ->]. by specialize (He _ eq_refl).
  - by injection Hrun as <- <-.
Qed.

Lemma reload_result d s r s' :
  k_wf key (ch_id (cd_header d)) -> conn_ok s -> reload d s = (r, s') ->
  conn_ok s' /\ same_documents_all s s' /\ conflict_free r /\
  (forall d0, r = Ok d0 -> exists did stored, document_id_new key (ch_id (cd_header d)) = Ok did /\ docs s !! did = Some stored /\
     collection_document_try_from C stored = Ok d0 /\ ch_id (cd_header d0) = ch_id (cd_header d)).
Proof.
  intros Hv Hok Hrun. unfold reload in Hrun. destruct (sc_get C (ch_id (cd_header d)) s) as [r1 s1] eqn:Hget.
  rewrite (stm_bind_run _ _ _ _ _ Hget) in Hrun. apply get_result in Hget as (Hok1 & Hsame & Hcf & Hr); [|done|done].
  destruct r1 as [[d0|]|e|]; [| |injection Hrun as <- <-; split_and!; [done|done| |done]; intros c h [= ->]; by apply (Hcf c h)|by injection Hrun as <- <-].
  - injection Hrun as <- <-. split_and!; [done..|]. intros d1 [= <-]. destruct (Hr _ eq_refl) as (did & Hdid & stored & ? & ? & ?). by exists did, stored.
  - destruct (Hr _ eq_refl) as (did & Hdid & Hnone). rewrite Hdid in Hrun. injection Hrun as <- <-. by split_and!.
Qed.

(** ** [modify]

    The other clients keep the database a database; the modifier may change
    everything, but leaves a key that can be encoded. *)

Section Modify.
Context (others : nat -> St -> St) (Hothers : forall i s, conn_ok s -> conn_ok (others i s)).
Context (modifier : nat -> CollectionDocument C -> CollectionDocument C)
  (Hmodifier : forall i d, k_wf key (ch_id (cd_header d)) -> k_wf key (ch_id (cd_header (modifier i d)))).

(** Attempt [i] of the run that starts with the caller's document [d] in state
    [s] hands [d0] to the modifier in state [s0]: the first attempt the caller's
    document, a later one what was read after the conflict before it. *)
Inductive handed (d : CollectionDocument C) (s : St) : nat -> CollectionDocument C -> St -> Prop :=
| handed_first : handed d s 0 d s
| handed_retry i d0 s0 c h s1 d1 s2 :
    handed d s i d0 s0 ->
    cd_update (modifier i d0) (others (2 * i + 1) s0) = (Err (CoreDb (DocumentConflict c h)), s1) ->
    reload (modifier i d0) (others (2 * S i) s1) = (Ok d1, s2) -> handed d s (S i) d1 s2.

(** The document as it is stored in a state. *)
Definition stored_in (d : CollectionDocument C) (s : St) : Prop :=
  exists did read, docs s !! did = Some read /\ collection_document_try_from C read = Ok d.

Lemma handed_ok d s i d0 s0 :
  k_wf key (ch_id (cd_header d)) -> conn_ok s -> handed d s i d0 s0 ->
  k_wf key (ch_id (cd_header d0)) /\ conn_ok s0 /\ (i = 0%nat /\ d0 = d /\ s0 = s \/ (0 < i)%nat /\ stored_in d0 s0).
Proof.
  intros Hd Hok. induction 1 as [|i d0 s0 c h s1 d1 s2 Hh IH Hup Hre]; [split_and!; [done|done|by left]|].
  destruct IH as (Hd0 & Hok0 & _). apply update_result in Hup as [Hok1 _]; [|auto..].
  apply reload_result in Hre as (Hok2 & Hsame & _ & Hr); [|auto..]. destruct (Hr d1 eq_refl) as (did & stored & _ & Hst & Htry & Hid).
  split_and!; [rewrite Hid; auto|done|]. right. split; [lia|]. exists did, stored. by rewrite (Hsame _ Hwf).
Qed.

(** The last attempt of a run that succeeds: what was handed to the modifier,
    and what its result replaced in the state of that moment. *)
Definition last_attempt (d : CollectionDocument C) (s : St) (d' : CollectionDocument C) (s' : St) : Prop :=
  exists i d0 s0 did stored, handed d s i d0 s0 /\
    seen (modifier i d0) (others (2 * i + 1) s0) did stored /\
    stores (modifier i d0) d' (others (2 * i + 1) s0) s' did stored.

Lemma modify_loop_result d s fuel i (first : bool) d1 s1 r s' :
  k_wf key (ch_id (cd_header d)) -> conn_ok s -> k_wf key (ch_id (cd_header d1)) -> conn_ok s1 ->
  (if first then handed d s i d1 s1 else forall d2 s2, reload d1 (others (2 * i) s1) = (Ok d2, s2) -> handed d s i d2 s2) ->
  modify_loop others fuel i first modifier d1 s1 = Some (r, s') ->
  conn_ok s' /\ conflict_free r /\ (forall d', r = Ok d' -> last_attempt d s d' s').
Proof.
  intros Hd Hok. revert i first d1 s1. induction fuel as [|fuel IH]; intros i first d1 s1 Hd1 Hok1 Hfrom; [done|]. cbn [modify_loop].
  destruct (if first then (Ok d1, s1) else reload d1 (others (2 * i) s1)) as [r0 s0] eqn:Hr0.
  assert (conn_ok s0 /\ conflict_free r0 /\ forall d0, r0 = Ok d0 -> handed d s i d0 s0) as (Hok0 & Hcf0 & Hread).
  { destruct first; [injection Hr0 as <- <-; split_and!; [done|done|]; by intros d0 [= <-]|].
    pose proof Hr0 as Hre. apply reload_result in Hre as (? & ? & ? & _); [|done|auto]. split_and!; [done..|].
    intros d0 ->. by apply Hfrom. }
  destruct r0 as [d0|e|]; [|by intros [= <- <-]; split_and!; [done| |done]; intros c h [= ->]; apply (Hcf0 c h)|by intros [= <- <-]].
  specialize (Hread d0 eq_refl). destruct (handed_ok _ _ _ _ _ Hd Hok Hread) as (Hd0 & _ & _).
  destruct (cd_update (modifier i d0) (others (2 * i + 1) s0)) as [r1 s2] eqn:Hup.
  pose proof Hup as Hres. apply update_result in Hres as [Hok2 Hres]; [|auto..].
  destruct r1 as [d2|e|].
  - intros [= <- <-]. split_and!; [done|done|]. intros d' [= <-]. destruct Hres as (_ & did & stored & Hseen & Hst).
    by exists i, d0, s0, did, stored.
  - assert (forall c h, e = CoreDb (DocumentConflict c h) ->
      modify_loop others fuel (S i) false modifier (modifier i d0) s2 = Some (r, s') ->
      conn_ok s' /\ conflict_free r /\ (forall d', r = Ok d' -> last_attempt d s d' s')) as Hrec.
    { intros c h -> Hrun. eapply IH; [..|exact Hrun]; [auto..|]. intros d3 s3 Hre. by eapply handed_retry. }
    destruct Hres as [_ Hconf]. destruct e as [[]| | | | | | | |]; try (intros [= <- <-]; by split_and!). by eapply Hrec.
  - intros [= <- <-]. by split_and!.
Qed.

(** C15: [modify] is an atomic read-modify-write, whatever other clients do in
    between.  When it succeeds, consider its last attempt: the modifier was
    handed the caller's document, or in a retry the document as it was stored
    when the retry read it; what its result replaced, in the state at the moment
    of the write, was the document with the id and revision in the header that
    the modifier returned, which is the revision handed to it if it leaves the
    header alone; and the contents stored are the modifier's.  [modify] never
    returns a conflict. *)
Theorem modify_atomic fuel d s r s' :
  k_wf key (ch_id (cd_header d)) -> conn_ok s -> modify others fuel modifier d s = Some (r, s') ->
  conn_ok s' /\ (forall c h, r <> Err (CoreDb (DocumentConflict c h))) /\
  (forall d', r = Ok d' -> exists i d0 s0 did stored,
     handed d s i d0 s0 /\ (i = 0%nat /\ d0 = d /\ s0 = s \/ (0 < i)%nat /\ stored_in d0 s0) /\
     seen (modifier i d0) (others (2 * i + 1) s0) did stored /\
     (cd_header (modifier i d0) = cd_header d0 -> seen d0 (others (2 * i + 1) s0) did stored) /\
     stores (modifier i d0) d' (others (2 * i + 1) s0) s' did stored).
Proof.
  intros Hd Hok Hrun. apply (modify_loop_result d s) in Hrun as (? & ? & Hr); [|done..|apply handed_first]. split_and!; [done|done|].
  intros d' Hd'. destruct (Hr d' Hd') as (i & d0 & s0 & did & stored & Hh & Hseen & Hst). exists i, d0, s0, did, stored.
  destruct (handed_ok _ _ _ _ _ Hd Hok Hh) as (_ & _ & Hfrom). split_and!; [done..| |done].
  intros Hhead. unfold seen in *. by rewrite <- Hhead.
Qed.

(** An attempt in which nobody else writes the collection between the read and
    the update, and the modifier leaves the header alone. *)
Definition undisturbed (i : nat) : Prop :=
  (forall s, docs (others (2 * i + 1) s) = docs s) /\ (forall d, cd_header (modifier i d) = cd_header d).

Lemma undisturbed_attempt i d s r s' :
  undisturbed i -> k_wf key (ch_id (cd_header d)) -> conn_ok s -> reload d s = (r, s') ->
  forall d0 c h, r = Ok d0 -> (cd_update (modifier i d0) (others (2 * i + 1) s')).1 <> Err (CoreDb (DocumentConflict c h)).
Proof.
  intros [Hquiet Hhead] Hd Hok Hrun d0 c h Hd0 Hconf. apply reload_result in Hrun as (Hok1 & Hsame & _ & Hr); [|done|done].
  destruct (Hr d0 Hd0) as (did & stored & Hdid & Hst & Htry & Hid).
  destruct (cd_update (modifier i d0) (others (2 * i + 1) s')) as [r2 s2] eqn:Hup. simpl in Hconf.
  apply update_result in Hup as [_ Hup]; [|rewrite Hhead, Hid; done|by apply Hothers]. rewrite Hconf in Hup.
  destruct Hup as [_ Hup]. destruct (Hup c h eq_refl) as (did' & stored' & Hdid' & Hst' & Hrev).
  rewrite Hhead, Hid, Hdid in Hdid'. injection Hdid' as <-. rewrite Hquiet, (Hsame _ Hwf), Hst in Hst'. injection Hst' as <-.
  apply Hrev. rewrite Hhead. unfold collection_document_try_from, collection_header_try_from in Htry. by inv_res.
Qed.

Lemma modify_loop_ends fuel i j first d s :
  undisturbed i -> k_wf key (ch_id (cd_header d)) -> conn_ok s -> (j <= i)%nat -> (first = true -> j < i)%nat -> (i < fuel + j)%nat ->
  modify_loop others fuel j first modifier d s <> None.
Proof.
  intros Hq. revert j first d s. induction fuel as [|fuel IH]; intros j first d s Hd Hok Hj Hfirst Hfuel; [lia|]. cbn [modify_loop].
  destruct (if first then (Ok d, s) else reload d (others (2 * j) s)) as [r0 s0] eqn:Hr0.
  destruct r0 as [d0|e|]; [|done..].
  assert (conn_ok s0 /\ k_wf key (ch_id (cd_header d0))) as [Hok0 Hd0].
  { destruct first; [by injection Hr0 as <- <-|]. apply reload_result in Hr0 as (? & _ & _ & Hr); [|done|auto].
    destruct (Hr d0 eq_refl) as (? & ? & _ & _ & _ & ->). done. }
  pose proof (undisturbed_attempt j d (others (2 * j) s)) as Hno.
  destruct (cd_update (modifier j d0) (others (2 * j + 1) s0)) as [r1 s1] eqn:Hup.
  assert (conn_ok s1) as Hok1 by (apply update_result in Hup as [? _]; auto).
  destruct r1 as [|[[]| | | | | | | |]|]; try done. destruct (decide (j = i)) as [->|Hne].
  - destruct first; [specialize (Hfirst eq_refl); lia|]. exfalso.
    eapply (Hno _ _ Hq Hd (Hothers _ _ Hok) Hr0 d0); [done|]. by rewrite Hup.
  - apply IH; [by apply Hmodifier|done|lia|done|lia].
Qed.

(** C36: [modify] ends: if in one retry the modifier leaves the header of its
    document alone and no other client writes the collection between the read
    and the update, it has returned by then.  (A modifier that always changes
    the revision is retried for ever.) *)
Theorem modify_ends fuel i d s :
  undisturbed i -> (0 < i < fuel)%nat -> k_wf key (ch_id (cd_header d)) -> conn_ok s ->
  modify others fuel modifier d s <> None.
Proof. intros Hq Hi Hd Hok. apply (modify_loop_ends fuel i); [done|done|done|lia|lia|lia]. Qed.
End Modify.

(** ** Pushing a document *)

Section Push.
Context `{!GeneratedKey key} (Hgenerator : collection_id_generators ll_schematic !! cl_name C = Some key).

Lemma generated_key_wf last d :
  (forall l, last = Some l -> exists v, k_wf key v /\ as_ord_bytes key v = Ok l /\ blen l <= MAX_LENGTH) ->
  next_id (cl_name C) key last = Ok d -> exists v, k_wf key v /\ as_ord_bytes key v = Ok d /\ blen d <= MAX_LENGTH.
Proof.
  intros Hlast Hn. unfold next_id in Hn.
  apply bind_Ok_inv in Hn as (start & Hstart & Hn). apply bind_Ok_inv in Hn as (next & Hnext & Hn). apply bind_Ok_inv in Hn as (bs & Hbs & Hn).
  apply map_err_Ok_inv in Hnext, Hbs, Hn. unfold document_id_try_from in Hn. destruct (Z.leb_spec (blen bs) MAX_LENGTH); [|done]. injection Hn as <-.
  assert (k_wf key start) as Hwfs.
  { destruct last as [l|]; [|apply map_err_Ok_inv in Hstart; by apply generated_first].
    destruct (Hlast l eq_refl) as (v & Hv & Hvl & Hl). apply map_err_Ok_inv in Hstart.
    rewrite (key_roundtrip v l (Borrowed l) Hv Hvl (id_alloc l Hl) eq_refl) in Hstart. by injection Hstart as <-. }
  exists next. split_and!; [|done|done]. by apply (key_next_greater start next).
Qed.

Lemma spec_next_id_typed D d :
  typed_ids D -> spec_next_id ll_schematic (cl_name C) D = Ok d ->
  exists v, k_wf key v /\ as_ord_bytes key v = Ok d /\ blen d <= MAX_LENGTH.
Proof.
  intros Hids Hn. unfold spec_next_id in Hn. apply bind_Ok_inv in Hn as (last & Hlast & Hn). apply map_err_Ok_inv in Hn.
  unfold next_id_for_collection in Hn. rewrite Hgenerator in Hn. cbn [ok_or mbind res_bind] in Hn. apply (generated_key_wf last); [|done].
  intros l ->. destruct (list.last (btree_set_iter (dom D))) as [k|] eqn:Hk; [|done]. inv_res.
  unfold document_id_try_from in *. destruct (_ <=? _); [|done]. simplify_eq. apply Hids, elem_of_dom.
  apply elem_of_btree_set_iter. rewrite last_lookup in Hk. by eapply list_elem_of_lookup_2.
Qed.

Lemma insert_result o bs s r s' :
  conn_ok s -> typed_ids (docs s) -> (forall v, o = Some v -> k_wf key v) ->
  conn_insert (cl_name C) key o bs s = (r, s') ->
  conn_ok s' /\
  match r with
  | Ok h => exists did, document_id_new key (ch_id h) = Ok did /\ k_wf key (ch_id h) /\ (forall v, o = Some v -> ch_id h = v) /\
      docs s !! did = None /\ docs s' = <[did := document_new did bs]> (docs s) /\ ch_revision h = revision_new bs
  | _ => same_documents_all s s'
  end.
Proof.
  intros Hok Hids Ho Hrun. unfold conn_insert in Hrun.
  set (enc := match o with Some d => d ← document_id_new key d; Ok (Some d) | None => Ok None end) in Hrun.
  destruct enc as [od|e|] eqn:Hod; [|by injection Hrun as <- <-..].
  rewrite (stm_bind_Ok (st_lift (Ok od)) _ s od s) in Hrun by done.
  destruct (ll_apply_transaction [op_insert (cl_name C) od bs] s) as [r1 s1] eqn:Happly. rewrite (stm_bind_run _ _ _ _ _ Happly) in Hrun.
  apply apply_one in Happly as [Hok1 Hone]; [|done|done]. destruct r1 as [results|e|];
    [|injection Hrun as <- <-; split; [done|apply Hone]|by injection Hrun as <- <-].
  destruct Hone as (result & M & -> & Hcmd & HM & _). cbn [spec_command] in Hcmd.
  apply bind_Ok_inv in Hcmd as (did & Hdid & Hcmd). destruct (docs s !! did) as [|] eqn:Hnone; [done|].
  unfold spec_create in Hcmd. injection Hcmd as <- <-.
  assert (exists v, k_wf key v /\ document_id_new key v = Ok did /\ forall v', o = Some v' -> v = v') as (v & Hv & Hvd & Hov).
  { unfold enc in Hod. destruct o as [v|].
    - apply bind_Ok_inv in Hod as (d & Hd & [= <-]). injection Hdid as <-. exists v. split_and!; [auto|done|]. by intros ? [= <-].
    - injection Hod as <-. apply spec_next_id_typed in Hdid as (v & Hv & Hvd & Hl); [|done]. exists v.
      split_and!; [done|by apply document_id_new_Ok|done]. }
  rewrite (stm_bind_Ok (st_lift (updated_header _)) _ s1 _ s1) in Hrun by reflexivity.
  unfold collection_header_try_from in Hrun. cbn [id] in Hrun. rewrite (document_id_roundtrip key v did Hv Hvd) in Hrun.
  injection Hrun as <- <-. split; [done|]. exists did. simpl. by split_and!.
Qed.

(** C27: a pushed document is read back: pushing stores the contents under a key
    of its own, the natural one if the contents have one and otherwise a
    generated one, that no other document had, and retrieving that key returns
    the document that was returned for the push. *)
Theorem push_then_get `{!FormatLaws C} item s d s' r s'' :
  conn_ok s -> typed_ids (docs s) -> (forall v, cl_natural_id C item = Some v -> k_wf key v) ->
  sc_push C item s = (Ok d, s') -> sc_get C (ch_id (cd_header d)) s' = (r, s'') ->
  cd_contents d = item /\ typed_ids (docs s') /\
  (forall v, cl_natural_id C item = Some v -> ch_id (cd_header d) = v) /\
  (exists did doc, document_id_new key (ch_id (cd_header d)) = Ok did /\ docs s !! did = None /\ docs s' = <[did := doc]> (docs s)) /\
  (forall o, r = Ok o -> o = Some d).
Proof.
  intros Hok Hids Hnat Hpush Hget. unfold sc_push, collection_push, cl_to_vec in Hpush.
  destruct (cl_serialize C item) as [bs|] eqn:Hbs; [|done]. cbn [ok_or] in Hpush.
  apply stm_bind_Ok_inv in Hpush as (h & s1 & Hpush & [= <- <-]). rewrite (stm_bind_Ok (st_lift (Ok bs)) _ s bs s) in Hpush by done.
  assert (conn_insert (cl_name C) key (cl_natural_id C item) bs s = (Ok h, s1)) as Hins by (by destruct (cl_natural_id C item)).
  apply insert_result in Hins as (Hok1 & did & Hdid & Hh & Hv & Hnone & Hdocs & Hrev); [|done..].
  split; [done|]. split; [|split; [done|split; [by exists did, (document_new did bs)|]]].
  - intros k Hk. rewrite Hdocs in Hk. destruct (decide (k = did)) as [->|Hne].
    + exists (ch_id h). split; [done|]. by apply document_id_new_Ok.
    + rewrite lookup_insert_ne in Hk by done. by apply Hids.
  - cbn [cd_header] in Hget. apply get_result in Hget as (_ & _ & _ & Hr); [|done|done]. intros o Ho.
    destruct (Hr o Ho) as (did' & Hdid' & Hcase). rewrite Hdid in Hdid'. injection Hdid' as <-.
    rewrite Hdocs, lookup_insert_eq in Hcase. destruct o as [d'|]; [|done]. destruct Hcase as (stored & [= <-] & Htry & _).
    unfold collection_document_try_from, cl_from_slice, document_new, collection_header_try_from in Htry. cbn [contents header id revision] in Htry.
    rewrite (cl_roundtrip item bs Hbs), (document_id_roundtrip key _ _ Hh Hdid) in Htry. simpl in Htry. injection Htry as <-. rewrite <- Hrev. by destruct h.
Qed.
End Push.
End Clients.

(** ** The specification as a connection

    The documents themselves as the state: every operation is its
    specification.  It keeps the laws. *)

Section Reference.
Context `{Nebari} `{Actionable} `{Digest} (schema : Schematic).

Definition spec_read {A} (f : Database -> A) : stm Database CoreError A := fun D => (Ok (f D), D).
Definition spec_apply (ops : list Operation) : stm Database CoreError (list OperationResult) := fun D =>
  match spec_operations schema ops D with
  | Ok (results, D') => (Ok results, D')
  | Err e => (Err (CoreDb e), D)
  | Panic => (Panic, D)
  end.

Definition selectedb (key : option SerializedQueryKey) (k : bytes) : bool :=
  match key with Some q => selects bytes_cmp q k | None => true end.
(** The mappings of a document under the selected keys. *)
Definition spec_mappings (v : View) (key : option SerializedQueryKey) (p : bytes * Doc) : list MapSerialized :=
  omap (fun k => if selectedb key k
                 then (fun rv : Revision * bytes => MkMapSerialized (MkHeader p.1 rv.1) k rv.2) <$> doc_indexed v (Some p.2) k
                 else None)
    (remove_dups (map_key <$> doc_output v (Some p.2))).
Definition spec_query (name : ViewName) (key : option SerializedQueryKey) : stm Database CoreError (list MapSerialized) := fun D =>
  match view_by_name schema name with
  | Ok v => (Ok (map_to_list (D (view_collection v)) ≫= spec_mappings v key), D)
  | Err e => (Err (CoreDb (DbSchema e)), D)
  | Panic => (Panic, D)
  end.

#[local] Instance reference_connection : LowLevelConnection Database := {|
  ll_schematic := schema;
  ll_apply_transaction := spec_apply;
  ll_get_from_collection d c := spec_read (fun D => D c !! d);
  ll_get_multiple_from_collection ids c := spec_read (fun D => omap (fun d => D c !! d) ids);
  ll_list_from_collection range order limit c := spec_read (fun D => (map_to_list (D c)).*2);
  ll_list_headers_from_collection range order limit c := spec_read (fun D => header <$> (map_to_list (D c)).*2);
  ll_count_from_collection range c := spec_read (fun D => Z.of_nat (size (D c)));
  ll_query_by_name name key order limit policy := spec_query name key;
  ll_reduce_by_name name key policy := fun D => (Panic, D);
  ll_reduce_grouped_by_name name key policy := fun D => (Panic, D);
  ll_delete_docs_by_name name key policy := fun D => (Panic, D)
|}.

Definition ids_ok (M : Docs) : Prop := forall d doc, M !! d = Some doc -> id (header doc) = d.
Definition ids_match (D : Database) : Prop := forall c, ids_ok (D c).

Lemma insert_ids_ok M d h bs : ids_ok M -> id h = d -> ids_ok (<[d := MkDoc h bs]> M).
Proof. intros HM Hh d' doc [[<- <-]|[_ ?]]%lookup_insert_Some; [done|by apply HM]. Qed.

Lemma spec_save_ids c d doc bs M result M' : ids_ok M -> spec_save c d doc bs M = Ok (result, M') -> ids_ok M'.
Proof.
  intros HM Hs. unfold spec_save in Hs. apply bind_Ok_inv in Hs as ([rev|] & _ & Hs); injection Hs as <- <-; [|done].
  by apply insert_ids_ok.
Qed.

Lemma spec_command_ids c cmd M result M' : ids_ok M -> spec_command schema c cmd M = Ok (result, M') -> ids_ok M'.
Proof.
  intros HM Hcmd. destruct cmd as [o bs|h bs|d0 bs|h|d0 rev]; simpl in Hcmd.
  - apply bind_Ok_inv in Hcmd as (d1 & _ & Hcmd). destruct (M !! d1); [done|]. injection Hcmd as <- <-. by apply insert_ids_ok.
  - destruct (M !! id h); [|done]. case_decide; [|done]. by eapply spec_save_ids.
  - destruct (M !! d0); [by eapply spec_save_ids|]. injection Hcmd as <- <-. by apply insert_ids_ok.
  - destruct (M !! id h); [|done]. case_decide; [|done]. injection Hcmd as <- <-. intros d' doc [_ ?]%lookup_delete_Some. by apply HM.
  - destruct (M !! d0); [|done]. destruct (_ || _); [|done]. by injection Hcmd as <- <-.
Qed.

Lemma spec_operations_ids ops D results D' :
  ids_match D -> spec_operations schema ops D = Ok (results, D') -> ids_match D'.
Proof.
  revert D results. induction ops as [|op ops IH]; intros D results HD Hrun; simpl in Hrun; [by injection Hrun as _ <-|].
  apply bind_Ok_inv in Hrun as ([result M] & Hcmd & Hrun). apply bind_Ok_inv in Hrun as ([rest D1] & Hrun & [= _ <-]).
  eapply IH; [|exact Hrun]. intros c. unfold set_documents. case_decide as Hc; [|apply HD]. by eapply spec_command_ids.
Qed.

Lemma selectedb_spec key k : selectedb key k = true <-> key_selected key k.
Proof.
  destruct key as [[k'|range|ks]|]; simpl; [| done| |done].
  - destruct (bytes_cmp k k') eqn:Hc; [apply bytes_cmp_eq in Hc; naive_solver|..]; (split; [done|]); intros ->; by rewrite bytes_cmp_refl in Hc.
  - rewrite existsb_exists. split.
    + intros (k' & Hin & Hc). destruct (bytes_cmp k k') eqn:Hk; [|done..]. apply bytes_cmp_eq in Hk as ->. by apply list_elem_of_In.
    + intros Hin. exists k. split; [by apply list_elem_of_In|]. by rewrite bytes_cmp_refl.
Qed.

Lemma emitted_key ms k rv : emitted ms k = Some rv -> k ∈ map_key <$> ms.
Proof.
  unfold emitted. intros (m & Hm & _)%fmap_Some. rewrite last_lookup in Hm. apply list_elem_of_lookup_2, list_elem_of_filter in Hm as [<- Hm].
  by apply list_elem_of_fmap_2.
Qed.

Lemma NoDup_omap_key {A B} (f : A -> option B) (g : B -> A) l :
  (forall x y, f x = Some y -> g y = x) -> NoDup l -> NoDup (omap f l).
Proof.
  intros Hf. induction 1 as [|x l Hx Hl IH]; [constructor|]. csimpl. destruct (f x) as [y|] eqn:Hy; [|done]. constructor; [|done].
  intros (x' & Hx' & Hfx')%list_elem_of_omap. apply Hx. by rewrite <- (Hf _ _ Hy), (Hf _ _ Hfx').
Qed.

Lemma elem_of_spec_mappings v key p d rev k value :
  MkMapSerialized (MkHeader d rev) k value ∈ spec_mappings v key p <->
  d = p.1 /\ key_selected key k /\ doc_indexed v (Some p.2) k = Some (rev, value).
Proof.
  unfold spec_mappings. rewrite list_elem_of_omap. split.
  - intros (k' & _ & Hk'). destruct (selectedb key k') eqn:Hsel; [|done].
    apply fmap_Some in Hk' as ([rev' value'] & Hix & [= <- <- <- <-]). rewrite <- selectedb_spec. auto.
  - intros (-> & Hsel & Hix). exists k. rewrite elem_of_remove_dups. split; [by eapply emitted_key|].
    apply selectedb_spec in Hsel as ->. by rewrite Hix.
Qed.

Lemma spec_mappings_NoDup v key p : NoDup (spec_mappings v key p).
Proof.
  unfold spec_mappings. apply (NoDup_omap_key _ ms_key); [|apply NoDup_remove_dups].
  intros k m Hm. destruct (selectedb key k); [|done]. by apply fmap_Some in Hm as (? & _ & ->).
Qed.

#[local] Instance reference_laws : ConnectionLaws ids_match (fun D => D).
Proof.
  split.
  - intros ops D r D' HD. simpl. unfold spec_apply.
    destruct (spec_operations schema ops D) as [[results D1]|e|] eqn:Hrun; intros [= <- <-].
    + split; [by eapply spec_operations_ids|]. by exists D1.
    + split_and!; [done|done|]. by intros e' [= <-].
    + done.
  - intros d c D r D' HD _ [= <- <-]. split_and!; [done|done|by intros ? [= <-]|done].
  - intros ids c D r D' HD _ [= <- <-]. split_and!; [done|done|]. intros found [= <-] doc. by rewrite list_elem_of_omap.
  - intros c D r D' HD _ [= <- <-]. split_and!; [done|done|]. intros found [= <-] doc. rewrite list_elem_of_fmap. split.
    + intros ([d doc'] & -> & Hd%elem_of_map_to_list). by exists d.
    + intros [d Hd]. exists (d, doc). by rewrite elem_of_map_to_list.
  - intros name v key order D r D' HD Hv _. simpl in *. unfold spec_query. rewrite Hv. intros [= <- <-]. split_and!; [done|done|].
    intros results [= <-]. split.
    + intros _. apply NoDup_bind; [|intros; apply spec_mappings_NoDup|apply NoDup_map_to_list].
      intros [d1 doc1] [d2 doc2] [[d rev] k value] Hin1 Hin2 Hm1 Hm2.
      apply elem_of_spec_mappings in Hm1 as [-> _], Hm2 as [Heq _]. simpl in Heq. subst d2.
      apply elem_of_map_to_list in Hin1, Hin2. congruence.
    + intros d rev k value. rewrite list_elem_of_bind. split.
      * intros ([d' doc] & (-> & ? & ?)%elem_of_spec_mappings & Hd'%elem_of_map_to_list). simpl. by rewrite Hd'.
      * intros [Hsel Hix]. destruct (D (view_collection v) !! d) as [doc|] eqn:Hd; [|done].
        exists (d, doc). split; [by apply elem_of_spec_mappings|by apply elem_of_map_to_list].
  - intros c D d doc HD _ Hd. by eapply HD.
Qed.
End Reference.

Module ConnectionExamples.
Import MemNebari StoreDemo.

(** Notes whose contents are two bytes, stored as they are. *)
Definition pairs : CollectionTy := MkCollectionTy notes key_u64 (Z * Z) (fun p => Some [p.1; p.2])
  (fun bs => match bs with [a; b] => Some (a, b) | _ => None end) (fun _ => None).
#[local] Instance pairs_format : FormatLaws pairs.
Proof. by intros [a b] bs [= <-]. Qed.
#[local] Instance key_u64_generated : GeneratedKey key_u64.
Proof. split; [apply _..|]. by intros x [= <-]. Qed.

#[local] Instance demo_connection : LowLevelConnection Database := reference_connection demo_schema.
#[local] Instance demo_connection_laws : ConnectionLaws ids_match (fun D => D) := reference_laws demo_schema.

Definition nothing : Database := fun _ => ∅.
Definition pushed : CollectionDocument pairs := MkCollectionDocument (C := pairs) (MkCollectionHeader 1 (revision_new [7; 8])) (7, 8).
Definition one_pair : Database := set_documents nothing notes {[ to_be_bytes u64 1 := document_new (to_be_bytes u64 1) [7; 8] ]}.

Lemma nothing_ok : ids_match nothing /\ typed_ids pairs (nothing notes).
Proof. split; [intros c d doc Hd|intros d [doc Hd]]; unfold nothing in Hd; by rewrite lookup_empty in Hd. Qed.
Lemma one_pair_ok : ids_match one_pair.
Proof.
  intros c d doc. unfold one_pair, set_documents. case_decide; [|unfold nothing; by rewrite lookup_empty].
  intros [<- <-]%lookup_singleton_Some. done.
Qed.

Lemma push_then_get_witness :
  sc_push pairs (7, 8) nothing = (Ok pushed, one_pair) /\ forall o, (sc_get pairs 1 one_pair).1 = Ok o -> o = Some pushed.
Proof.
  assert (sc_push pairs (7, 8) nothing = (Ok pushed, one_pair)) as Hpush by reflexivity. split; [done|].
  destruct (sc_get pairs 1 one_pair) as [r s''] eqn:Hget.
  exact (proj2 (proj2 (proj2 (proj2 (push_then_get ids_match (fun D => D) pairs ltac:(done) eq_refl (7, 8) nothing pushed one_pair r s''
    (proj1 nothing_ok) (proj2 nothing_ok) ltac:(done) Hpush Hget))))).
Defined.

(** Another client writes the document before the first two attempts. *)
Definition writes (i : nat) (D : Database) : Database :=
  match i with
  | 1%nat => (spec_apply demo_schema [op_overwrite notes (to_be_bytes u64 1) [0; 0]] D).2
  | 3%nat => (spec_apply demo_schema [op_overwrite notes (to_be_bytes u64 1) [5; 5]] D).2
  | _ => D
  end.
Lemma writes_ok i D : ids_match D -> ids_match (writes i D).
Proof.
  intros HD. assert (forall ops, ids_match (spec_apply demo_schema ops D).2) as Hops.
  { intros ops. unfold spec_apply. destruct (spec_operations demo_schema ops D) as [[]| |] eqn:Hrun; try done. by eapply spec_operations_ids. }
  destruct i as [|[|[|[|]]]]; simpl; auto.
Qed.
Definition count_up (i : nat) (d : CollectionDocument pairs) : CollectionDocument pairs :=
  MkCollectionDocument (C := pairs) (cd_header d) ((cd_contents d).1 + 1, (cd_contents d).2).

Lemma pairs_wf : qualified_wf (cl_name pairs).
Proof. done. Qed.
Lemma pushed_ok : k_wf (cl_key pairs) (ch_id (cd_header pushed)).
Proof. done. Qed.
Lemma count_up_ok i d : k_wf (cl_key pairs) (ch_id (cd_header d)) -> k_wf (cl_key pairs) (ch_id (cd_header (count_up i d))).
Proof. done. Qed.

Lemma modify_ends_witness : modify writes 3 count_up pushed one_pair <> None.
Proof.
  apply (modify_ends ids_match (fun D => D) pairs ltac:(done) writes writes_ok count_up ltac:(done) 3 2); [|lia|done|apply one_pair_ok].
  split; [by intros D|done].
Defined.

Lemma modify_atomic_witness :
  option_map (fun x : res CoreError (CollectionDocument pairs) * Database => option_map cd_contents (res_ok x.1)) (modify writes 3 count_up pushed one_pair) = Some (Some (6, 5)) /\
  forall r s', modify writes 3 count_up pushed one_pair = Some (r, s') ->
  forall d', r = Ok d' -> exists i d0 s0 did stored,
     handed pairs writes count_up pushed one_pair i d0 s0 /\
     (i = 0%nat /\ d0 = pushed /\ s0 = one_pair \/ (0 < i)%nat /\ stored_in (fun D => D) pairs d0 s0) /\
     seen (fun D => D) pairs (count_up i d0) (writes (2 * i + 1) s0) did stored /\
     (cd_header (count_up i d0) = cd_header d0 -> seen (fun D => D) pairs d0 (writes (2 * i + 1) s0) did stored) /\
     stores (fun D => D) pairs (count_up i d0) d' (writes (2 * i + 1) s0) s' did stored.
Proof.
  split; [vm_compute; reflexivity|]. intros r s' Hrun.
  apply (modify_atomic ids_match (fun D => D) pairs pairs_wf writes writes_ok count_up count_up_ok 3 pushed one_pair r s' pushed_ok one_pair_ok Hrun).
Defined.
End ConnectionExamples.
