(* ===== verification/DatabaseLaws.v ===== *)
(** * A local database keeps the laws of a connection

    What the jobs of one view leave of the others, and with it the invariant of
    all views of a database; the laws of [ConnectionTheorems] for
    [database_connection].  A view may be of an older version than its
    definition: it is in step only after its integrity scan. *)

From Stdlib Require Import ZArith Lia String.
From stdpp Require Import base list option numbers gmap sets.
From S2P Require Import Prelude Bytes Utf8 Digits Timestamp Key KeyLaws Range Time Nebari Document Names Changes Schema Permissions View Query Integrity Jobs Transaction Tasks StoreDemo ViewLaws ViewBatch ViewTheorems TransactionLaws TransactionSpec TransactionTheorems QueryLaws IntegrityTheorems TasksLaws TasksTheorems Connection ConnectionTheorems.

Local Open Scope Z_scope.

(** ** Versions of the views of a collection *)

Lemma view_display_inj n1 n2 :
  collection n1 = collection n2 -> view_wf n1 -> view_wf n2 -> as_bytes (view_display n1) = as_bytes (view_display n2) -> n1 = n2.
Proof.
  intros Hc [[[Ha1 _] [Hq1 _]] [Hs1 Hn1]] [[[Ha2 _] [Hq2 _]] [Hs2 Hn2]] Heq.
  assert (forall n, is_str (name (authority (collection n))) = true -> is_str (name (qname (collection n))) = true ->
    is_str (name (vname n)) = true -> is_str (view_display n) = true) as Hstr.
  { intros n Ha Hq Hv. unfold view_display, qualified_display, is_str in *. rewrite !forallb_app. cbn [forallb]. by rewrite Ha, Hq, Hv. }
  apply as_bytes_inj in Heq; [|by apply Hstr..]. destruct n1 as [c1 v1], n2 as [c2 v2]. cbn in *. subst c2.
  unfold view_display in Heq. cbn in Heq. apply app_inv_head in Heq. injection Heq as Heq. by rewrite Hn1, Hn2, Heq.
Qed.

Section Frame.
Context `{NebariLaws} `{DocumentCodec} `{!DocumentCodecLaws _} `{ViewCodec} `{!ViewCodecLaws _} `{VersionCodec} `{!VersionCodecLaws _}
  `{Digest} `{ChangesCodec} `{Actionable}.
Context (db : str).

Abbreviation tree w t := (Nebari.contents (w_roots w) t).
Abbreviation world_ok := (world_ok db).
Abbreviation checked := (checked db).
Abbreviation status := (status db).

(** What the jobs of a view leave alone. *)
Record spares (v : View) (w w' : World) : Prop := {
  sp_trees k : tree_kind_wf k -> k ∉ scanned_kinds v -> tree w' (tree_name k) = tree w (tree_name k);
  sp_versions n : n <> view_version_key v ->
    tree w' (view_versions_tree_name (view_collection v)) !! n = tree w (view_versions_tree_name (view_collection v)) !! n;
  sp_checked u : view_name u <> view_name v -> checked u w' = checked u w;
  sp_status u : view_name u <> view_name v -> status u w' = status u w;
  sp_id : id_le (w_roots w) (w_roots w');
  sp_none : none_empty (w_roots w) -> none_empty (w_roots w')
}.
Lemma spares_refl v w : spares v w w.
Proof. split; try done. intros m Hm. by exists m. Qed.
Lemma spares_trans v w1 w2 w3 : spares v w1 w2 -> spares v w2 w3 -> spares v w1 w3.
Proof.
  intros [Ht1 Hv1 Hc1 Hs1 Hi1 Hn1] [Ht2 Hv2 Hc2 Hs2 Hi2 Hn2]. split.
  - intros k Hk Hn. by rewrite Ht2, Ht1.
  - intros n Hn. by rewrite Hv2, Hv1.
  - intros u Hu. by rewrite Hc2, Hc1.
  - intros u Hu. by rewrite Hs2, Hs1.
  - intros m Hm. destruct (Hi1 m Hm) as (n & Hn & ?). destruct (Hi2 n Hn) as (k & Hk & ?). exists k. split; [done|lia].
  - auto.
Qed.

(** The trees of a view that the jobs of another one may change: its versions
    tree, if they are of the same collection. *)
Lemma spared_view u v w w' :
  view_name u <> view_name v -> view_wf (view_name u) -> view_wf (view_name v) ->
  qualified_wf (view_collection u) -> collection (view_name u) = view_collection u -> collection (view_name v) = view_collection v ->
  spares v w w' ->
  (forall t, t ∈ view_trees u -> tree w' t = tree w t) /\ version_current u (w_roots w') = version_current u (w_roots w).
Proof.
  intros Hne Hu Hv Hcu Hnu Hnv [Ht Hver _ _ _ _]. split.
  - intros t Hin. unfold view_trees in Hin.
    assert (forall k, k ∈ [TInvalidated (view_name u); TDocumentMap (view_name u); TDocuments (view_collection u); TEntries (view_name u)] ->
      tree w' (tree_name k) = tree w (tree_name k)) as Hk.
    { intros k Hk. apply Ht; unfold scanned_kinds.
      - by repeat (apply elem_of_cons in Hk as [->|Hk]; [done|]); apply not_elem_of_nil in Hk.
      - intros Hs. repeat (apply elem_of_cons in Hk as [->|Hk]; [set_solver|]). by apply not_elem_of_nil in Hk. }
    repeat (apply elem_of_cons in Hin as [->|Hin]); [..|by apply not_elem_of_nil in Hin].
    + apply (Hk (TInvalidated _)). left.
    + apply (Hk (TDocumentMap _)). set_solver.
    + apply (Hk (TDocuments _)). set_solver.
    + apply (Hk (TEntries _)). set_solver.
  - unfold version_current. do 2 f_equal. destruct (decide (view_collection u = view_collection v)) as [Hc|Hc].
    + rewrite Hc. apply Hver. intros Heq. apply Hne. apply view_display_inj; [congruence|done..].
    + apply (f_equal (fun m : gmap bytes bytes => m !! view_version_key u)). apply (Ht (TVersions (view_collection u))); [done|].
      unfold scanned_kinds. set_solver.
Qed.

(** The other views keep their invariant. *)
Lemma spared_ok u v w w' :
  view_name u <> view_name v -> view_wf (view_name u) -> view_wf (view_name v) ->
  qualified_wf (view_collection u) -> collection (view_name u) = view_collection u -> collection (view_name v) = view_collection v ->
  spares v w w' -> world_ok u w -> world_ok u w'.
Proof.
  intros Hne Hu Hv Hcu Hnu Hnv Hsp Hok. destruct (spared_view u v w w' Hne Hu Hv Hcu Hnu Hnv Hsp) as [Ht Hver].
  destruct Hsp as [_ _ Hc Hs Hi Hn], Hok as [Hdisk Hdocs Hnone Hcur Hst Hfresh].
  assert (tree w' (view_invalidated_docs_tree_name (view_name u)) = tree w (view_invalidated_docs_tree_name (view_name u))) as Hinv
    by (apply Ht; unfold view_trees; set_solver).
  assert (tree w' (document_tree_name (view_collection u)) = tree w (document_tree_name (view_collection u))) as Hd
    by (apply Ht; unfold view_trees; set_solver).
  split.
  - intros Hcur'. rewrite Hver in Hcur'. apply (view_synced_frame u Hu Hcu (w_roots w)); [by apply Hdisk|done].
  - by rewrite Hd.
  - auto.
  - rewrite Hc, Hver by done. done.
  - intros n. rewrite Hc, Hs by done. intros Hn'. destruct (Hst n Hn') as (Hch & cur & Hcur' & Hle). split; [done|].
    destruct (Hi cur Hcur') as (k & Hk & ?). exists k. split; [done|lia].
  - intros n. rewrite Hs by done. intros Hn' Hid. rewrite Hinv. destruct (Hst n Hn') as (_ & cur & Hcur' & Hle).
    destruct (Hi cur Hcur') as (k & Hk & ?). assert (cur = n) as -> by (rewrite Hid in Hk; injection Hk as <-; lia). by eapply Hfresh.
Qed.

(** ** Jobs *)

Section Job.
Context (schedule : list MapResult -> list MapResult) (Hsched : forall l, schedule l ≡ₚ l).
Context (schema : Schematic) (session : option Session).
Context (v : View) (Hown : own_mappings v) (Hwf : view_wf (view_name v)) (Hcwf : qualified_wf (view_collection v)).

Lemma not_view_tree k : tree_kind_wf k -> k ∉ scanned_kinds v -> k <> TDocuments (view_collection v) -> tree_name k ∉ view_trees v.
Proof.
  intros Hk Hs Hd. unfold scanned_kinds in Hs. unfold view_trees. intros Hin.
  repeat (apply elem_of_cons in Hin as [Heq|Hin]); [..|by apply not_elem_of_nil in Hin].
  - apply (tree_name_inj _ (TInvalidated (view_name v))) in Heq; [set_solver|done..].
  - apply (tree_name_inj _ (TDocumentMap (view_name v))) in Heq; [set_solver|done..].
  - by apply (tree_name_inj _ (TDocuments (view_collection v))) in Heq.
  - apply (tree_name_inj _ (TEntries (view_name v))) in Heq; [set_solver|done..].
Qed.

Lemma integrity_execute_spares w res w' :
  world_ok v w -> integrity_execute db v w = (res, w') -> spares v w w'.
Proof.
  intros Hw. unfold integrity_execute, mbind, stm_bind, on_roots. destruct (integrity_scan v (w_roots w)) as [res1 r1] eqn:Hscan.
  destruct (evolves_id _ _ (evolving_integrity_scan v _ _ _ Hscan)) as [Hid Hne].
  destruct (integrity_scan_ok v Hwf Hcwf _ _ _ (wo_docs _ _ _ Hw) (wo_disk _ _ _ Hw) Hscan) as [[_ Hkinds] _].
  pose proof (fun n => integrity_scan_versions v Hwf Hcwf _ _ _ n Hscan) as Hver.
  assert (spares v w (MkWorld r1 (w_statuses w))) as Hsp by (by split).
  destruct res1 as [task|e|]; cbn; intros [= <- <-]; [|done..]. destruct Hsp as [? ? _ _ ? ?]. split; [done..| | |done|done].
  - intros u Hu. unfold TasksLaws.checked, view_integrity_checked. cbn. apply bool_decide_ext. unfold view_key. set_solver.
  - done.
Qed.
Lemma mapper_execute_spares w res w' :
  world_ok v w -> checked v w = true -> mapper_execute schedule db session v w = (res, w') -> spares v w w'.
Proof.
  intros Hw Hc. pose proof (world_synced db v _ Hw Hc) as Hsync. unfold mapper_execute, reading, on_roots, st_lift, mbind, stm_bind.
  destruct (last_transaction_id db session (w_roots w)) as [[t|]|e|] eqn:Hlast; [|intros [= <- <-]; apply spares_refl..].
  cbn [unwrap]. destruct (map_view schedule v (w_roots w)) as [res1 r1] eqn:Hmap.
  destruct (evolves_id _ _ (evolving_map_view schedule v _ _ _ Hmap)) as [Hle Hne].
  destruct (map_view_ok schedule Hsched v Hown Hwf Hcwf _ _ _ Hsync Hmap) as [(_ & Hd & Hother) _].
  assert (spares v w (MkWorld r1 (w_statuses w))) as Hsp.
  { split; [| |done..].
    - intros k Hk Hs. destruct (decide (k = TDocuments (view_collection v))) as [->|Hkd]; [done|]. apply Hother. by apply not_view_tree.
    - intros n _. cbn. rewrite Hother; [done|]. by apply versions_not_view_tree. }
  destruct res1 as [[]|e|]; cbn; intros [= <- <-]; [|done..]. destruct Hsp as [? ? _ _ ? ?]. split; [done..| |done|done].
  intros u Hu. unfold TasksLaws.status. cbn. rewrite lookup_insert_ne; [done|]. unfold view_key. congruence.
Qed.

Lemma integrity_check_spares w res w' : world_ok v w -> integrity_check db v w = (res, w') -> spares v w w'.
Proof.
  intros Hw. unfold integrity_check. rewrite (stm_bind_Ok st_get _ w w w) by done.
  destruct (view_integrity_checked _ _); [intros [= <- <-]; apply spares_refl|].
  destruct (integrity_execute db v w) as [res1 w1] eqn:Hrun. rewrite (stm_bind_run _ _ _ _ _ Hrun).
  apply integrity_execute_spares in Hrun; [|done]. by destruct res1; intros [= <- <-].
Qed.
Lemma update_view_loop_spares fuel w res w' wait :
  world_ok v w -> checked v w = true -> update_view_loop schedule db session fuel v wait w = (res, w') -> spares v w w'.
Proof.
  revert w. induction fuel as [|fuel IH]; intros w Hw Hc; cbn [update_view_loop]; [intros [= <- <-]; apply spares_refl|].
  destruct (mapper_execute schedule db session v w) as [res1 w1] eqn:Hrun. rewrite (stm_bind_run _ _ _ _ _ Hrun).
  pose proof (mapper_execute_spares _ _ _ Hw Hc Hrun) as Hsp.
  apply (mapper_execute_ok schedule Hsched db session v Hown Hwf Hcwf) in Hrun as (Hw1 & _ & Hc1 & _); [|done|done].
  destruct res1 as [id|e|]; [|by intros [= <- <-]..]. destruct (wait <=? id); [by intros [= <- <-]|].
  intros Hrest. eapply spares_trans; [done|]. by eapply IH.
Qed.
Lemma update_view_if_needed_spares fuel block w res w' :
  world_ok v w -> update_view_if_needed schedule db session fuel v block w = (res, w') -> spares v w w'.
Proof.
  intros Hw. unfold update_view_if_needed. destruct (integrity_check db v w) as [res1 w1] eqn:Hcheck. rewrite (stm_bind_run _ _ _ _ _ Hcheck).
  pose proof (integrity_check_spares _ _ _ Hw Hcheck) as Hsp.
  apply (integrity_check_ok schedule Hsched db v Hown Hwf Hcwf) in Hcheck as [[Hw1 _] Hc1]; [|done]. destruct res1 as [[]|e|]; [|by intros [= <- <-]..].
  specialize (Hc1 eq_refl). unfold reading at 1. unfold mbind at 1, stm_bind at 1.
  destruct (last_transaction_id db session (w_roots w1)) as [[cur|]|e|]; [|by intros [= <- <-]..].
  rewrite (stm_bind_Ok st_get _ w1 w1 w1) by done. destruct (_ && _); [|by intros [= <- <-]].
  intros Hrest. eapply spares_trans; [done|]. by eapply update_view_loop_spares.
Qed.
Lemma for_each_in_view_spares fuel key order limit w res w' :
  world_ok v w -> for_each_in_view schedule schema db session fuel v key order limit UpdateBefore w = (res, w') -> spares v w w'.
Proof.
  intros Hw. unfold for_each_in_view.
  destruct (update_view_if_needed schedule db session fuel v true w) as [res1 w1] eqn:Hup. rewrite (stm_bind_run _ _ _ _ _ Hup).
  apply update_view_if_needed_spares in Hup; [|done]. destruct res1 as [[]|e|]; [|by intros [= <- <-]..].
  unfold reading, mbind, stm_bind. by destruct (map_err CoreDb _); intros [= <- <-].
Qed.
End Job.
End Frame.

(** ** All views of a database *)

Section Connection.
Context `{NebariLaws} `{DocumentCodec} `{!DocumentCodecLaws _} `{ViewCodec} `{!ViewCodecLaws _} `{VersionCodec} `{!VersionCodecLaws _}
  `{Digest} `{ChangesCodec} `{Actionable}.
Context (schedule : list MapResult -> list MapResult) (Hsched : forall l, schedule l ≡ₚ l).
Context (schema : Schematic) (Hschema : schema_wf schema).
(** A view is named in its collection, as [view_name] of [SerializedView] does. *)
Context (Hnamed : forall c v, v ∈ views_in_collection schema c -> collection (view_name v) = c).
Context (db : str) (session : option Session).

Abbreviation tree w t := (Nebari.contents (w_roots w) t).
Abbreviation world_ok := (world_ok db).
Abbreviation checked := (checked db).
Abbreviation status := (status db).

Record connection_ok (w : World) : Prop := {
  co_decodes c : qualified_wf c -> decodes (tree w (document_tree_name c));
  co_ids c : qualified_wf c -> stored_under_id (tree w (document_tree_name c));
  co_views c v : v ∈ views_in_collection schema c -> world_ok v w
}.
Definition documents_of (w : World) : Database := database (w_roots w).
Definition unchanged (w w' : World) : Prop := forall c, qualified_wf c -> tree w' (document_tree_name c) = tree w (document_tree_name c).

Lemma unchanged_documents w w' c : unchanged w w' -> qualified_wf c -> documents_of w' c = documents_of w c.
Proof. intros Hw Hc. unfold documents_of, database. by rewrite Hw. Qed.
Lemma unchanged_trans w1 w2 w3 : unchanged w1 w2 -> unchanged w2 w3 -> unchanged w1 w3.
Proof. intros H12 H23 c Hc. by rewrite H23, H12. Qed.

Lemma schema_view c v : v ∈ views_in_collection schema c ->
  own_mappings v /\ view_wf (view_name v) /\ qualified_wf (view_collection v) /\ view_collection v = c /\ collection (view_name v) = view_collection v.
Proof.
  intros Hv. destruct (wf_views _ Hschema _ _ Hv) as (? & ? & ?). destruct (view_in_collection _ _ _ (wf_indexes _ Hschema) Hv) as [Hc _].
  split_and!; [done|done|by rewrite Hc|done|]. rewrite Hc. by apply Hnamed.
Qed.

(** A job of one view keeps them all. *)
Lemma job_keeps c v w w' :
  v ∈ views_in_collection schema c -> connection_ok w -> world_ok v w' -> spares db v w w' -> connection_ok w' /\ unchanged w w'.
Proof.
  intros Hv [Hdec Hids Hviews] Hw' Hsp. destruct (schema_view _ _ Hv) as (_ & Hwf & Hcwf & _ & Hn).
  assert (unchanged w w') as Hun.
  { intros c' Hc'. apply (sp_trees _ _ _ _ Hsp (TDocuments c')); [done|]. unfold scanned_kinds. set_solver. }
  split; [|done]. split.
  - intros c' Hc'. rewrite Hun by done. by apply Hdec.
  - intros c' Hc'. rewrite Hun by done. by apply Hids.
  - intros c' u Hu. destruct (decide (view_name u = view_name v)) as [Heq|Hne].
    + by rewrite (view_name_inj _ _ _ _ _ (wf_indexes _ Hschema) Hu Hv Heq).
    + destruct (schema_view _ _ Hu) as (_ & Hwu & Hcu & _ & Hnu). apply (spared_ok db u v w w'); try done. by eapply Hviews.
Qed.

(** ** Errors of the jobs *)

Definition clean {A} (m : stm Roots DbError A) : Prop := forall r e r', m r = (Err e, r') -> document_error e = false.

Lemma clean_bind {A B} (m : stm Roots DbError A) (f : A -> stm Roots DbError B) : clean m -> (forall a, clean (f a)) -> clean (m ≫= f).
Proof.
  intros Hm Hf r e r' Hrun. unfold mbind, stm_bind in Hrun. destruct (m r) as [[a|e1|] r1] eqn:Hr.
  - by eapply Hf.
  - injection Hrun as <- <-. by eapply Hm.
  - done.
Qed.
Lemma clean_lift {A} (m : res DbError A) : no_document_error m -> clean (st_lift m).
Proof. intros Hm r e r' [= Hr _]. by apply Hm. Qed.
Lemma clean_ret {A} (a : A) : clean (mret a).
Proof. done. Qed.
Lemma clean_get : clean st_get.
Proof. done. Qed.
Lemma clean_put r : clean (st_put r).
Proof. done. Qed.
#[local] Hint Resolve clean_lift clean_ret clean_get clean_put db_tx_no_document_error ok_or_no_document_error : core.

Lemma remove_tree_clean t : clean (remove_tree t).
Proof. unfold remove_tree. repeat (apply clean_bind; [auto|intros ?]). auto. Qed.
Lemma tree_keys_clean r t : no_document_error (tree_keys r t).
Proof.
  unfold tree_keys. apply bind_no_document_error.
  - intros e. destruct (roots_scan_range _ _ _ _ _ _ _ _) as [|[e'|e']|] eqn:Hs; intros [= <-]; [done|].
    apply roots_scan_range_abort in Hs. exfalso. revert Hs.
    assert (forall l acc, scan_spec (E := DbError) (T := unit) l (fun key ids => (ScanSkip, ids ++ [key])) (fun _ _ => st_lift Panic) acc tt <> Err e') as Hskip;
      [|apply Hskip].
    induction l as [|[k b] l IH]; intros acc; cbn [scan_spec]; [done|apply IH].
  - intros [ids u] _. apply bind_no_document_error; [|done]. induction ids as [|d ids IH]; [done|]. cbn [collect].
    apply bind_no_document_error; [|intros; by apply bind_no_document_error]. intros e. by destruct (document_id_try_from d); intros [= <-].
Qed.
Lemma integrity_scan_clean v : clean (integrity_scan v).
Proof.
  apply clean_bind.
  - unfold scan_check. apply clean_bind; [auto|]. intros r. apply clean_bind; [auto|]. intros value. apply clean_bind.
    + unfold cleanup. destruct (_ <? 2); [|auto]. repeat (apply clean_bind; [auto|intros ?]). auto.
    + intros []. apply clean_bind; [auto|]. intros r1. destruct (is_current _ _); [auto|]. apply clean_bind; [apply clean_lift, tree_keys_clean|auto].
  - intros [missing|]; [|auto]. apply clean_bind; [|auto]. unfold scan_rebuild.
    repeat (apply clean_bind; [apply remove_tree_clean|intros []]). apply clean_bind; [auto|]. intros r. apply clean_bind; [auto|]. intros tx.
    apply clean_bind; [apply clean_lift; by apply ok_or_no_document_error|]. intros version. apply clean_bind; [auto|]. intros tx1.
    apply clean_bind; [auto|]. intros [tx2 u]. apply clean_bind; auto.
Qed.
Lemma map_view_clean v : clean (map_view schedule v).
Proof.
  unfold map_view. apply clean_bind; [auto|]. intros r. apply clean_bind; [auto|]. intros l. generalize (l.*1). generalize (length l). intros fuel.
  induction fuel as [|fuel IH]; intros [|d ids]; cbn [map_view_loop]; [auto..|]. apply clean_bind; [|auto]. unfold map_view_round.
  apply clean_bind; [auto|]. intros r1. apply clean_bind; [auto|]. intros tx. apply clean_bind; [apply clean_lift, map_request_error|]. intros tx1.
  apply clean_bind; [auto|]. intros [tx2 u]. apply clean_bind; auto.
Qed.

(** Errors of a connection that say nothing of the documents. *)
Definition core_clean {A} (res : res CoreError A) : Prop := forall e, res = Err (CoreDb e) -> document_error e = false.

Lemma on_roots_clean {A} (m : stm Roots DbError A) w : clean m -> core_clean (on_roots m w).1.
Proof. intros Hm e. unfold on_roots. destruct (m (w_roots w)) as [[a|e'|] r] eqn:Hr; cbn; intros [= <-]. by eapply Hm. Qed.
Lemma permit_clean resource a : core_clean (permit session resource a).
Proof. unfold permit. intros e. by destruct (check_permission _ _ _). Qed.
Lemma permit_operations_clean ops : core_clean (permit_operations db session ops).
Proof.
  induction ops as [|op ops IH]; [done|]. cbn [permit_operations]. pose proof (permit_clean (operation_permission db op).1 (operation_permission db op).2) as Hp.
  by destruct (permit session _ _).
Qed.
Lemma integrity_execute_clean v w : core_clean (integrity_execute db v w).1.
Proof.
  pose proof (on_roots_clean (integrity_scan v) w (integrity_scan_clean v)) as Hc. unfold integrity_execute, mbind, stm_bind.
  by destruct (on_roots (integrity_scan v) w) as [[] ?].
Qed.
Lemma mapper_execute_clean v w : core_clean (mapper_execute schedule db session v w).1.
Proof.
  pose proof (on_roots_clean (map_view schedule v) w (map_view_clean v)) as Hc.
  unfold mapper_execute, reading, st_lift, mbind, stm_bind. unfold last_transaction_id.
  pose proof (permit_clean (database_resource_name db) (TransactionAct GetLastId)) as Hp.
  destruct (permit session _ _); cbn; [|intros e' [= ->]; by apply Hp|done]. destruct (current_transaction_id _); [|done]. cbn.
  destruct (on_roots (map_view schedule v) w) as [[] ?]; [done|intros e' [= ->]; by apply Hc|done].
Qed.

(** ** Transactions *)

Lemma eager_scans_keep vs w res w' :
  (forall v, v ∈ vs -> exists c, v ∈ views_in_collection schema c) -> NoDup (view_name <$> vs) -> (forall v, v ∈ vs -> checked v w = false) ->
  connection_ok w -> eager_scans db vs w = (res, w') ->
  connection_ok w' /\ unchanged w w' /\ (forall u, view_name u ∉ view_name <$> vs -> checked u w' = checked u w) /\
  forall mapping, res = Ok mapping -> (forall v, v ∈ vs -> checked v w' = true) /\ mapping ⊆ vs.
Proof.
  revert w res w'. induction vs as [|v vs IH]; intros w res w' Hvs Hnd Hun Hok; cbn [eager_scans].
  { intros [= <- <-]. split_and!; [done|done|done|]. intros mapping [= <-]. split; [intros ? ?%not_elem_of_nil; done|done]. }
  rewrite fmap_cons in Hnd. apply NoDup_cons in Hnd as [Hv Hnd]. destruct (Hvs v) as [c Hc]; [left|].
  destruct (schema_view _ _ Hc) as (Hown & Hwf & Hcwf & _).
  destruct (integrity_execute db v w) as [res1 w1] eqn:Hrun.
  assert (world_ok v w) as Hw by (by eapply co_views).
  assert (spares db v w w1) as Hsp by (by eapply integrity_execute_spares).
  apply (integrity_execute_ok schedule Hsched db v Hown Hwf Hcwf) in Hrun as (Hw1 & _ & Hc1); [|done|apply Hun; left].
  destruct (job_keeps _ _ _ _ Hc Hok Hw1 Hsp) as [Hok1 Hsame1].
  assert (forall u, view_name u ∉ view_name <$> v :: vs -> checked u w1 = checked u w) as Hother.
  { intros u Hu. apply (sp_checked _ _ _ _ Hsp). rewrite fmap_cons in Hu. by apply not_elem_of_cons in Hu as [? _]. }
  destruct (eager_scans db vs w1) as [res2 w2] eqn:Hrest.
  apply IH in Hrest as (Hok2 & Hsame2 & Hother2 & Hres2); [|intros; apply Hvs; by right|done| |done].
  2: { intros u Hu. rewrite (sp_checked _ _ _ _ Hsp); [apply Hun; by right|]. intros Heq. apply Hv. rewrite <- Heq. by apply list_elem_of_fmap_2. }
  assert (forall u, view_name u ∉ view_name <$> v :: vs -> checked u w2 = checked u w) as Hother'.
  { intros u Hu. rewrite Hother2; [by apply Hother|]. rewrite fmap_cons in Hu. by apply not_elem_of_cons in Hu as [_ ?]. }
  intros [= <- <-]. split_and!; [done|by eapply unchanged_trans|done|].
  destruct res1 as [task|e|]; [|done..]. specialize (Hc1 eq_refl). destruct res2 as [rest|e|]; [|done..]. cbn [mbind res_bind].
  destruct (Hres2 rest eq_refl) as [Hall Hsub]. intros mapping [= <-]. split.
  - intros u [->|Hu]%elem_of_cons; [by rewrite Hother2|by apply Hall].
  - destruct task; set_solver.
Qed.
Lemma eager_mappings_keep vs w res w' :
  (forall v, v ∈ vs -> exists c, v ∈ views_in_collection schema c) -> (forall v, v ∈ vs -> checked v w = true) ->
  connection_ok w -> eager_mappings schedule db session vs w = (res, w') ->
  connection_ok w' /\ unchanged w w' /\ (forall c u, u ∈ views_in_collection schema c -> checked u w = true -> checked u w' = true).
Proof.
  revert w res w'. induction vs as [|v vs IH]; intros w res w' Hvs Hch Hok; cbn [eager_mappings]; [by intros [= <- <-]|].
  destruct (Hvs v) as [c Hc]; [left|]. destruct (schema_view _ _ Hc) as (Hown & Hwf & Hcwf & _).
  destruct (mapper_execute schedule db session v w) as [res1 w1] eqn:Hrun. rewrite (stm_bind_run _ _ _ _ _ Hrun).
  assert (world_ok v w) as Hw by (by eapply co_views). assert (checked v w = true) as Hcv by (apply Hch; left).
  assert (spares db v w w1) as Hsp by (by eapply mapper_execute_spares).
  apply (mapper_execute_ok schedule Hsched db session v Hown Hwf Hcwf) in Hrun as (Hw1 & _ & Hc1 & _); [|done|done].
  destruct (job_keeps _ _ _ _ Hc Hok Hw1 Hsp) as [Hok1 Hsame1].
  assert (forall c' u, u ∈ views_in_collection schema c' -> checked u w = true -> checked u w1 = true) as Hkeep.
  { intros c' u Hu Hcu. destruct (decide (view_name u = view_name v)) as [Heq|Hne]; [|by rewrite (sp_checked _ _ _ _ Hsp)].
    by rewrite (view_name_inj _ _ _ _ _ (wf_indexes _ Hschema) Hu Hc Heq). }
  destruct res1 as [id|e|]; [|by intros [= <- <-]..]. intros Hrest.
  apply IH in Hrest as (Hok2 & Hsame2 & Hkeep2); [|intros; apply Hvs; by right| |done].
  - split_and!; [done|by eapply unchanged_trans|]. intros c' u Hu Hcu. by eapply Hkeep2, Hkeep.
  - intros u Hu. destruct (Hvs u) as [c' Hc']; [by right|]. eapply Hkeep; [done|]. apply Hch. by right.
Qed.

Lemma eager_scans_clean vs w : core_clean (eager_scans db vs w).1.
Proof.
  revert w. induction vs as [|v vs IH]; intros w; [done|]. cbn [eager_scans]. pose proof (integrity_execute_clean v w) as Hc.
  destruct (integrity_execute db v w) as [res1 w1]. specialize (IH w1). destruct (eager_scans db vs w1) as [res2 w2].
  destruct res1 as [task|e|]; [|intros e' [= ->]; by apply Hc|done]. destruct res2 as [rest|e|]; [done|intros e' [= ->]; by apply IH|done].
Qed.
Lemma eager_mappings_clean vs w : core_clean (eager_mappings schedule db session vs w).1.
Proof.
  revert w. induction vs as [|v vs IH]; intros w; [done|]. cbn [eager_mappings]. pose proof (mapper_execute_clean v w) as Hc.
  unfold mbind, stm_bind. destruct (mapper_execute schedule db session v w) as [[id|e|] w1]; [apply IH|intros e' [= ->]; by apply Hc|done].
Qed.

(** Commands only look at the collections they name. *)
Lemma spec_operations_same ops D1 D2 :
  (forall op, op ∈ ops -> qualified_wf (op_collection op)) -> (forall c, qualified_wf c -> D1 c = D2 c) ->
  match spec_operations schema ops D1, spec_operations schema ops D2 with
  | Ok (r1, D1'), Ok (r2, D2') => r1 = r2 /\ forall c, qualified_wf c -> D1' c = D2' c
  | Err e1, Err e2 => e1 = e2
  | Panic, Panic => True
  | _, _ => False
  end.
Proof.
  revert D1 D2. induction ops as [|op ops IH]; intros D1 D2 Hops HD; cbn [spec_operations]; [done|].
  rewrite (HD (op_collection op)) by (apply Hops; left).
  destruct (spec_command schema (op_collection op) (Transaction.command op) (D2 (op_collection op))) as [[result M]|e|]; cbn; [|done..].
  specialize (IH (set_documents D1 (op_collection op) M) (set_documents D2 (op_collection op) M) ltac:(intros; apply Hops; by right)).
  destruct (spec_operations schema ops (set_documents D1 _ M)) as [[r1 D1']|e1|], (spec_operations schema ops (set_documents D2 _ M)) as [[r2 D2']|e2|];
    cbn; try (apply IH; intros c Hc; unfold set_documents; case_decide; [done|by apply HD]).
  destruct IH as [-> Hsame]; [|done]. intros c Hc. unfold set_documents. case_decide; [done|by apply HD].
Qed.

Lemma committed_id ops r results r' :
  apply_transaction_to_roots schedule schema ops r = (Ok results, r') ->
  exists n, current_transaction_id r' = Some n /\ forall m, current_transaction_id r = Some m -> m < n.
Proof.
  unfold apply_transaction_to_roots. rewrite (stm_bind_Ok st_get _ r r r) by done.
  destruct (open_trees_for_transaction schema ops) as [o|e|]; [|done..]. rewrite (stm_bind_Ok _ _ r o r) by done.
  destruct (db_tx (transaction r (trees o))) as [tx0|e|]; [|done..]. rewrite (stm_bind_Ok _ _ r tx0 r) by done.
  destruct (execute_operations _ _ _ _ tx0 empty_table) as [[[[results' changed] t] tx1]|e|]; [|done..].
  rewrite (stm_bind_Ok _ _ r (results', changed, t, tx1) r) by done.
  destruct (invalidate_changed_documents schema o (table t) changed tx1) as [tx2|e|]; [|done..]. rewrite (stm_bind_Ok _ _ r tx2 r) by done.
  destruct (serialize_executed_transaction_changes _) as [data|]; [|done]. rewrite (stm_bind_Ok _ _ r data r) by done.
  destruct (db_tx (tx_set_data tx2 data)) as [tx3|e|]; [|done..]. rewrite (stm_bind_Ok _ _ r tx3 r) by done.
  destruct (tx_commit r tx3) as [r1|e|] eqn:Hcommit; [|done..]. rewrite (stm_bind_Ok _ _ r r1 r) by done. intros [= _ <-].
  destruct (tx_commit_id _ _ _ Hcommit) as (n & Hn & _ & Hlt). eauto.
Qed.

(** What a transaction does to the documents. *)
Definition applied (ops : list Operation) (w w' : World) (res : res CoreError (list OperationResult)) : Prop :=
  match res with
  | Ok results => exists D', spec_operations schema ops (documents_of w) = Ok (results, D') /\
      forall c, qualified_wf c -> documents_of w' c = D' c
  | Err e => unchanged w w' /\
      (forall e', e = CoreDb e' -> document_error e' = true -> spec_operations schema ops (documents_of w) = Err e')
  | Panic => unchanged w w'
  end.

Lemma spec_operations_collection_ids ops D results D' c :
  ids_ok (D c) -> spec_operations schema ops D = Ok (results, D') -> ids_ok (D' c).
Proof.
  revert D results. induction ops as [|op ops IH]; intros D results HD Hrun; simpl in Hrun; [by injection Hrun as _ <-|].
  apply bind_Ok_inv in Hrun as ([result M] & Hcmd & Hrun). apply bind_Ok_inv in Hrun as ([rest D1] & Hrun & [= _ <-]).
  eapply IH; [|exact Hrun]. unfold set_documents. case_decide as Hc; [|apply HD]. eapply spec_command_ids; [|exact Hcmd]. by rewrite <- Hc.
Qed.
Lemma documents_ids w c :
  decodes (tree w (document_tree_name c)) -> stored_under_id (tree w (document_tree_name c)) <-> ids_ok (documents_of w c).
Proof.
  intros Hdec. unfold documents_of, database. split.
  - intros Hs d doc Hd. rewrite docs_of_lookup in Hd. apply bind_Some in Hd as (b & Hb & Hd). by eapply Hs.
  - intros Hs d b doc Hb Hd. apply (Hs d doc). by rewrite docs_of_lookup, Hb.
Qed.

(** The commit, when the eager views of the collections are checked. *)
Lemma commit_keeps ops w res w' :
  connection_ok w ->
  (forall op v, op ∈ ops -> v ∈ views_in_collection schema (op_collection op) -> is_eager (update_policy v) = true -> checked v w = true) ->
  on_roots (apply_transaction_to_roots schedule schema ops) w = (res, w') -> connection_ok w' /\ applied ops w w' res.
Proof.
  intros Hok Heager. pose proof Hok as [Hdec Hids Hviews]. unfold on_roots.
  destruct (apply_transaction_to_roots schedule schema ops (w_roots w)) as [res1 r1] eqn:Hrun.
  set (good := fun v => version_current v (w_roots w) = true).
  assert (store_in_step schema good (w_roots w)) as Hstep.
  { split; [done|]. intros c v Hv Hg. by apply (wo_disk _ _ _ (Hviews _ _ Hv)). }
  assert (eager_in_step schema good ops) as Hes.
  { intros op Hop v Hv He. apply (wo_checked _ _ _ (Hviews _ _ Hv)). by eapply Heager. }
  pose proof (apply_in_step schedule Hsched schema Hschema good ops _ _ _ Hstep Hes Hrun) as Hout.
  destruct res1 as [results|e|]; cbn; intros [= <- <-].
  - destruct Hout as (D & Hspec & Hholds & [Hdec1 Hsync1] & _ & Hver). destruct (committed_id _ _ _ _ Hrun) as (n & Hn & Hlt).
    destruct (evolves_id _ _ (evolving_apply_transaction schedule schema ops _ _ _ Hrun)) as [Hid Hne].
    set (w1 := MkWorld r1 (w_statuses w)).
    assert (forall c, qualified_wf c -> stored_under_id (tree w1 (document_tree_name c))) as Hids1.
    { intros c Hc. apply (documents_ids w1 c); [by apply Hdec1|]. destruct (Hholds c Hc) as [Hd _]. change (ids_ok (docs_of (Nebari.contents r1 (document_tree_name c)))). rewrite Hd.
      eapply spec_operations_collection_ids; [|exact Hspec]. by apply (documents_ids w c); [apply Hdec|apply Hids]. }
    split; [|exists D; split; [done|]; intros c Hc; by apply Hholds]. split; [done|done|].
    intros c v Hv. destruct (schema_view _ _ Hv) as (_ & _ & Hcwf & _). destruct (Hviews _ _ Hv) as [Hdisk _ Hnone Hcur Hst Hfresh].
    assert (version_current v r1 = version_current v (w_roots w)) as Hvc by (unfold version_current; by rewrite Hver).
    split; cbn.
    + intros Hc. rewrite Hvc in Hc. by apply (Hsync1 c).
    + by apply Hids1.
    + auto.
    + intros Hc. rewrite Hvc. by apply Hcur.
    + intros m Hm. destruct (Hst m Hm) as (Hch & cur & Hcur' & Hle). split; [done|]. exists n. split; [done|]. specialize (Hlt _ Hcur'). lia.
    + intros m Hm Hm'. destruct (Hst m Hm) as (Hch & cur & Hcur' & Hle). rewrite Hn in Hm'. injection Hm' as <-. specialize (Hlt _ Hcur'). lia.
  - destruct Hout as [-> Hspec]. destruct w as [r st]. split; [done|]. split; [by intros c|]. by intros e' [= <-].
  - rewrite Hout. destruct w as [r st]. split; [done|]. by intros c.
Qed.

(** Jobs before the commit change no document. *)
Lemma applied_from ops w w2 w' res :
  unchanged w w2 -> on_roots (apply_transaction_to_roots schedule schema ops) w2 = (res, w') -> applied ops w2 w' res -> applied ops w w' res.
Proof.
  intros Hun Hrun Happ.
  assert (forall e, res = Err (CoreDb e) -> document_error e = true -> forall op, op ∈ ops -> qualified_wf (op_collection op)) as Herr.
  { intros e -> He. unfold on_roots, apply_transaction_to_roots in Hrun. rewrite (stm_bind_Ok st_get _ _ _ _ eq_refl) in Hrun.
    destruct (open_trees_for_transaction schema ops) as [o|e'|] eqn:Hopen.
    - apply open_trees_ok in Hopen as (_ & _ & Hops); [|apply no_trees_ok]. intros op [Hop _]%Hops. by apply (wf_collections _ Hschema).
    - apply open_trees_error in Hopen. cbn in Hrun. injection Hrun as -> _. congruence.
    - done. }
  assert (forall results, res = Ok results -> forall op, op ∈ ops -> qualified_wf (op_collection op)) as Hok.
  { intros results ->. unfold on_roots, apply_transaction_to_roots in Hrun. rewrite (stm_bind_Ok st_get _ _ _ _ eq_refl) in Hrun.
    destruct (open_trees_for_transaction schema ops) as [o|e'|] eqn:Hopen; [|done..].
    apply open_trees_ok in Hopen as (_ & _ & Hops); [|apply no_trees_ok]. intros op [Hop _]%Hops. by apply (wf_collections _ Hschema). }
  assert (forall c, qualified_wf c -> documents_of w c = documents_of w2 c) as Hdocs by (intros c Hc; by rewrite (unchanged_documents w w2)).
  destruct res as [results|e|]; cbn in Happ |- *.
  - destruct Happ as (D' & Hspec & HD'). pose proof (spec_operations_same ops _ _ (Hok _ eq_refl) Hdocs) as Hsame. rewrite Hspec in Hsame.
    destruct (spec_operations schema ops (documents_of w)) as [[r1 D1]|e|]; [|done..]. destruct Hsame as [-> HD1]. exists D1. split; [done|].
    intros c Hc. by rewrite HD', HD1.
  - destruct Happ as [Hun2 Hspec]. split; [by eapply unchanged_trans|]. intros e' -> He'. specialize (Hspec e' eq_refl He').
    pose proof (spec_operations_same ops _ _ (Herr _ eq_refl He') Hdocs) as Hsame. rewrite Hspec in Hsame.
    by destruct (spec_operations schema ops (documents_of w)) as [[]|e|]; simplify_eq.
  - by eapply unchanged_trans.
Qed.

(** The eager views of the collections of a transaction. *)
Definition unchecked_views (ops : list Operation) (w : World) : list View :=
  filter (fun v => view_integrity_checked (view_key db v) (w_statuses w) = false)
    (elements (list_to_set (op_collection <$> ops) : gset CollectionName) ≫= eager_views_in_collection schema).
Lemma elem_of_unchecked ops w v :
  v ∈ unchecked_views ops w <-> checked v w = false /\ exists op, op ∈ ops /\ v ∈ eager_views_in_collection schema (op_collection op).
Proof.
  unfold unchecked_views. rewrite list_elem_of_filter, list_elem_of_bind. apply and_iff_compat_l. split.
  - intros (c & Hv & Hc). rewrite elem_of_elements, elem_of_list_to_set in Hc. apply list_elem_of_fmap in Hc as (op & -> & Hop). eauto.
  - intros (op & Hop & Hv). exists (op_collection op). rewrite elem_of_elements, elem_of_list_to_set. split; [done|]. by apply list_elem_of_fmap_2.
Qed.
Lemma fmap_bind {A B C} (g : B -> C) (f : A -> list B) (l : list A) : g <$> (l ≫= f) = l ≫= (fun x => g <$> f x).
Proof. induction l as [|x l IH]; [done|]. cbn. rewrite fmap_app. by f_equal. Qed.
Lemma unchecked_NoDup ops w : NoDup (view_name <$> unchecked_views ops w).
Proof.
  unfold unchecked_views. eapply sublist_NoDup; [|apply fmap_sublist, sublist_filter]. rewrite fmap_bind.
  apply (NoDup_bind_keyed _ (fun c : CollectionName => c) collection).
  - rewrite list_fmap_id. apply NoDup_elements.
  - intros c n _ (v & -> & [Hv _]%(eager_view_in _ Hschema))%list_elem_of_fmap. by apply Hnamed.
  - intros c _. by apply eager_names_NoDup.
Qed.

Lemma apply_transaction_keeps ops w res w' :
  connection_ok w -> apply_transaction schedule schema db session ops w = (res, w') -> connection_ok w' /\ applied ops w w' res.
Proof.
  intros Hok. unfold apply_transaction. pose proof (permit_operations_clean ops) as Hperm.
  assert (forall e, core_clean (Err e : Prelude.res CoreError (list OperationResult)) -> forall w1, unchanged w w1 -> applied ops w w1 (Err e)) as Hfailed.
  { intros e He w1 Hun. split; [done|]. intros e' -> He'. rewrite (He e' eq_refl) in He'. done. }
  destruct (permit_operations db session ops) as [[]|e|].
  2: { intros [= <- <-]. split; [done|]. apply Hfailed; [intros e' [= ->]; by apply Hperm|by intros c]. }
  2: { intros [= <- <-]. split; [done|by intros c]. }
  rewrite (stm_bind_Ok (st_lift (Ok tt)) _ w tt w) by done. rewrite (stm_bind_Ok st_get _ w w w) by done. fold (unchecked_views ops w).
  assert (forall v, v ∈ unchecked_views ops w -> exists c, v ∈ views_in_collection schema c) as Hviews.
  { intros v (_ & op & _ & [Hv _]%(eager_view_in _ Hschema))%elem_of_unchecked. by eexists. }
  destruct (eager_scans db (unchecked_views ops w) w) as [res1 w1] eqn:Hscan. rewrite (stm_bind_run _ _ _ _ _ Hscan).
  pose proof (eager_scans_clean (unchecked_views ops w) w) as Hc1. rewrite Hscan in Hc1. cbn in Hc1.
  apply eager_scans_keep in Hscan as (Hok1 & Hun1 & Hother1 & Hres1); [|done|apply unchecked_NoDup|by intros v [? _]%elem_of_unchecked|done].
  destruct res1 as [mapping|e|].
  2: { intros [= <- <-]. split; [done|]. apply Hfailed; [intros e' [= ->]; by apply Hc1|done]. }
  2: { intros [= <- <-]. by split. }
  destruct (Hres1 mapping eq_refl) as [Hch1 Hsub].
  destruct (eager_mappings schedule db session mapping w1) as [res2 w2] eqn:Hmap. rewrite (stm_bind_run _ _ _ _ _ Hmap).
  pose proof (eager_mappings_clean mapping w1) as Hc2. rewrite Hmap in Hc2. cbn in Hc2.
  apply eager_mappings_keep in Hmap as (Hok2 & Hun2 & Hkeep2); [|by intros v Hv%Hsub; apply Hviews|by intros v Hv%Hsub; apply Hch1|done].
  assert (unchanged w w2) as Hun by (by eapply unchanged_trans).
  destruct res2 as [[]|e|].
  2: { intros [= <- <-]. split; [done|]. apply Hfailed; [intros e' [= ->]; by apply Hc2|done]. }
  2: { intros [= <- <-]. by split. }
  intros Hrun. destruct (commit_keeps ops w2 res w' Hok2) as [Hok' Happ]; [|exact Hrun|split; [done|by eapply applied_from]].
  intros op v Hop Hv He. eapply Hkeep2; [done|].
  assert (v ∈ eager_views_in_collection schema (op_collection op)) as Hev.
  { rewrite (eager_views_filter _ _ (wf_indexes _ Hschema)). by apply list_elem_of_filter. }
  destruct (checked v w) eqn:Hcv; [|apply Hch1, elem_of_unchecked; eauto].
  rewrite Hother1; [done|]. intros (u & Hname & Hu)%list_elem_of_fmap. destruct (Hviews u Hu) as [c Hc].
  apply elem_of_unchecked in Hu as [Hcu _]. rewrite <- (view_name_inj _ _ _ _ _ (wf_indexes _ Hschema) Hv Hc Hname) in Hcu. congruence.
Qed.

(** ** Reading *)

Lemma reads_documents {A} resource a (run : res CoreError A) (returns : A -> Prop) :
  reads session resource a run returns ->
  (forall x, run = Ok x -> returns x) /\ (forall e, run = Err (CoreDb e) -> document_error e = false).
Proof.
  unfold reads. destruct (connection_allowed_to _ _ _).
  - destruct run as [x|[]|]; intros Hrun; try done. split; [by intros x' [= <-]|by intros e' [= <-]]. split; [done|]. intros e' [= <-]. by destruct Hrun as [? ->].
  - intros ->. done.
Qed.
Lemma read_multiple r c ids found :
  decodes (Nebari.contents r (document_tree_name c)) -> get_multiple_from_collection db session r ids c = Ok found ->
  forall doc, doc ∈ found <-> exists d, d ∈ ids /\ docs_of (Nebari.contents r (document_tree_name c)) !! d = Some doc.
Proof.
  intros Hdec Hrun.
  assert (forall d, d ∈ ids -> connection_allowed_to session (document_resource_name db c d) (DatabaseAct (DocumentAct DocGet)) = true) as Hallowed.
  { intros d Hd. destruct (connection_allowed_to _ _ _) eqn:Ha; [done|]. exfalso. unfold get_multiple_from_collection in Hrun.
    rewrite permit_each_spec in Hrun.
    assert (d ∈ filter (fun d => connection_allowed_to session (document_resource_name db c d) (DatabaseAct (DocumentAct DocGet)) = false) ids)
      as Hin by (by apply list_elem_of_filter).
    destruct (filter _ ids); [by apply not_elem_of_nil in Hin|done]. }
  pose proof (get_multiple_from_collection_ok db session r c Hdec ids Hallowed) as Hok. by rewrite Hrun in Hok.
Qed.
Lemma scan_all {A} (m : gmap bytes A) x : x ∈ (scan_order m from_range_full true).*2 <-> exists d, m !! d = Some x.
Proof.
  rewrite list_elem_of_fmap. split.
  - intros ([d y] & -> & [Hd _]%scan_order_elem). by exists d.
  - intros [d Hd]. exists (d, x). split; [done|]. by apply scan_order_elem.
Qed.
Lemma indexed_document v m d k : indexed v (m !! d) k = doc_indexed v (docs_of m !! d) k.
Proof.
  unfold indexed, doc_indexed. f_equal. rewrite docs_of_lookup. destruct (m !! d) as [b|]; [|done]. cbn.
  destruct (deserialize_document b) as [doc|]; [|done]. cbn. by destruct (view_map v doc).
Qed.

Lemma query_keeps c v vn fuel key order w res w' :
  v ∈ views_in_collection schema c -> view_by_name schema vn = Ok v -> connection_ok w ->
  query_by_name schedule schema db session (S fuel) vn key order None UpdateBefore w = (res, w') ->
  connection_ok w' /\ unchanged w w'.
Proof.
  intros Hv Hvn Hok Hrun. destruct (schema_view _ _ Hv) as (Hown & Hwf & Hcwf & _). assert (world_ok v w) as Hw by (by eapply co_views).
  destruct (query_exact schedule Hsched schema db session v Hown Hwf Hcwf vn Hvn fuel key order w res w' Hw Hrun) as [[Hw' _] _].
  eapply job_keeps; [done|done|done|]. revert Hrun. unfold query_by_name, find_view. rewrite Hvn.
  rewrite (stm_bind_Ok (st_lift (map_err _ (Ok v))) _ w v w) by done.
  destruct (permit session _ _) as [[]|e|]; [|intros [= <- <-]; apply spares_refl..]. rewrite (stm_bind_Ok (st_lift (Ok tt)) _ w tt w) by done.
  destruct (for_each_in_view schedule schema db session (S fuel) v key order None UpdateBefore w) as [res1 w1] eqn:Hrun. rewrite (stm_bind_run _ _ _ _ _ Hrun).
  assert (spares db v w w1) as Hsp by (by eapply for_each_in_view_spares). by destruct res1; intros [= <- <-].
Qed.

(** ** The laws *)

(** C3: A local database keeps the laws of a connection, whatever its views are
    when it is opened: a transaction does what its commands say or nothing,
    documents are read as they are stored, and a query returns the mappings of
    the documents.  The jobs of the views, which operations start before they
    do their own work, change no document and keep every other view in step. *)
Theorem local_database_laws fuel :
  @ConnectionLaws _ _ World (database_connection schedule schema db session (S fuel)) _ connection_ok documents_of.
Proof.
  assert (forall w w' : World, unchanged w w' -> forall c, qualified_wf c -> documents_of w' c = documents_of w c) as Hdocs
    by (intros w w' Hun c Hc; by apply unchanged_documents).
  split; cbn [ll_schematic ll_apply_transaction ll_get_from_collection ll_get_multiple_from_collection ll_list_from_collection ll_query_by_name database_connection].
  - intros ops w res w' Hok Hrun. destruct (apply_transaction_keeps ops w res w' Hok Hrun) as [Hok' Happ]. split; [done|].
    destruct res as [results|e|]; cbn in Happ; [done|destruct Happ as [Hun Hspec]; split; [by apply Hdocs|done]|by apply Hdocs].
  - intros d c w res w' Hok Hc [= <- <-].
    destruct (reads_documents _ _ _ _ (get_from_collection_ok db session (w_roots w) c (co_decodes _ Hok c Hc) d)) as [Hr He]. by split_and!.
  - intros ids c w res w' Hok Hc [= <- <-]. split_and!; [done|done|]. intros found Hf. by apply read_multiple; [apply (co_decodes _ Hok)|].
  - intros c w res w' Hok Hc [= <- <-]. split_and!; [done|done|]. intros found Hf doc.
    destruct (reads_documents _ _ _ _ (list_from_collection_ok db session (w_roots w) c (co_decodes _ Hok c Hc) from_range_full Ascending None)) as [Hr _].
    rewrite (Hr _ Hf). apply scan_all.
  - intros vn v key order w res w' Hok Hvn Hc Hrun. destruct (view_by_name_listed _ _ _ (wf_indexes _ Hschema) Hvn) as [_ Hv].
    destruct (query_keeps _ _ _ _ _ _ _ _ _ Hv Hvn Hok Hrun) as [Hok' Hun]. split_and!; [done|by apply Hdocs|].
    destruct (schema_view _ _ Hv) as (Hown & Hwf & Hcwf & _).
    destruct (query_exact schedule Hsched schema db session v Hown Hwf Hcwf vn Hvn fuel key order w res w' (co_views _ Hok _ _ Hv) Hrun) as [_ Hres].
    intros results ->. destruct (Hres results eq_refl) as [Hnd Hin]. split; [done|]. intros d rev k value. rewrite Hin.
    unfold documents_of, database. by rewrite indexed_document.
  - intros c w d doc Hok Hc Hd. by eapply (proj1 (documents_ids w c (co_decodes _ Hok c Hc)) (co_ids _ Hok c Hc)).
Qed.
End Connection.

(** * Example *)

Module LawsExamples.
Import MemNebari StoreDemo TasksExamples.

Lemma demo_named c v : v ∈ views_in_collection demo_schema c -> collection (view_name v) = c.
Proof. by intros [-> [->| ->]]%TransactionExamples.demo_views_of. Qed.

Lemma notes_decode : decodes three_notes.
Proof.
  assert (forall d c, is_Some (deserialize_document (note d c))) as Hn.
  { intros d c. unfold deserialize_document, note. simpl. rewrite unbits_bits, decode_encode. by eexists. }
  intros d b. unfold three_notes. rewrite !lookup_insert_Some, lookup_empty. naive_solver.
Qed.

(** No other tree of documents has been written. *)
Lemma other_documents c : qualified_wf c -> c <> notes -> Nebari.contents (w_roots world) (document_tree_name c) = ∅.
Proof.
  intros Hc Hne. cbn. unfold mem_contents. cbn. rewrite lookup_insert_ne; [by rewrite lookup_empty|].
  intros Heq. apply Hne. symmetry. assert (TDocuments notes = TDocuments c) as [= ?] by (by apply tree_name_inj). done.
Qed.

Lemma world_connection_ok : connection_ok demo_schema [] world.
Proof.
  split.
  - intros c Hc. destruct (decide (c = notes)) as [->|Hne]; [rewrite notes_tree; apply notes_decode|].
    rewrite other_documents by done. intros d b. by rewrite lookup_empty.
  - intros c Hc. destruct (decide (c = notes)) as [->|Hne]; [rewrite notes_tree; apply three_notes_ids|].
    rewrite other_documents by done. intros d b doc. by rewrite lookup_empty.
  - intros c v [_ [->| ->]]%TransactionExamples.demo_views_of; [apply contents_ok|apply lengths_ok].
Qed.

Abbreviation local := (database_connection (fun l => l) demo_schema [] None 1).
(** A note is inserted, which has the view of contents checked and kept. *)
Definition inserting := ll_apply_transaction (LowLevelConnection := local) [op_insert notes (Some [5]) [4]] world.

Lemma local_database_laws_witness :
  connection_ok demo_schema [] inserting.2 /\ documents_of inserting.2 notes !! [5] = Some (document_new [5] [4]).
Proof.
  assert (is_ok inserting.1 = true) as Hdone by (vm_compute; reflexivity).
  destruct (@law_apply _ _ _ _ _ _ _ (local_database_laws (fun l => l) same_schedule demo_schema TransactionExamples.demo_schema_wf demo_named [] None 0)
    [op_insert notes (Some [5]) [4]] world inserting.1 inserting.2 world_connection_ok (surjective_pairing _)) as [Hok Happ].
  split; [exact Hok|]. destruct inserting as [[results|e|] w']; [|done..]. destruct Happ as (D' & Hspec & HD).
  simpl. rewrite HD by done. revert Hspec. cbn. intros [= <- <-]. reflexivity.
Defined.
End LawsExamples.
