(* ===== verification/ViewSystem.v ===== *)
(** * A lazy view while other clients write

    The mapping job of a view reads the last transaction id, lists the
    invalidated documents and maps them in several transactions; transactions of
    clients, the integrity scans of all views and the jobs of other views come in
    between.  The steps below are the atomic actions: a transaction of the
    storage engine holds the locks of the trees it opened until it is committed.
    A scan reads and deletes outside of such a transaction, and its step here is
    the whole scan: [IntegrityTheorems.concurrent_insert_escapes_scan] shows what
    happens when a transaction comes between its two parts.
    [status_covers_transactions] is what makes it right to skip mapping a view
    whose status has reached the last transaction. *)

From Stdlib Require Import ZArith Lia Sorting.Sorted.
From stdpp Require Import base list option numbers gmap sorting.
From S2P Require Import Prelude Bytes Nebari Document Names Changes Key Schema View Integrity Transaction Tasks StoreDemo ViewLaws ViewBatch ViewTheorems TransactionLaws TransactionSpec TransactionTheorems QueryLaws IntegrityTheorems TasksLaws Connection ConnectionTheorems DatabaseLaws.

Local Open Scope Z_scope.

Inductive MapperState :=
| MapperIdle
| MapperStarted (transaction_id : Z)
| MapperMapping (transaction_id : Z) (invalidated_ids : list bytes).

Section System.
Context `{NebariLaws} `{DocumentCodec} `{!DocumentCodecLaws _} `{ViewCodec} `{!ViewCodecLaws _}
  `{VersionCodec} `{!VersionCodecLaws _} `{Digest} `{ChangesCodec}.
Context (schedule : list MapResult -> list MapResult) (Hsched : forall l, schedule l ≡ₚ l).
Context (schema : Schematic) (Hschema : schema_wf schema).
(** A view is named in its collection. *)
Context (Hnamed : forall c u, u ∈ views_in_collection schema c -> collection (view_name u) = c).
Context (c : CollectionName) (v : View) (Hv : v ∈ views_in_collection schema c).

Abbreviation tree r t := (Nebari.contents r t).
Abbreviation invalidated_tree := (view_invalidated_docs_tree_name (view_name v)).

(** The store, the views whose integrity scan is complete, the status of the
    view, its mapping job, and for every document the last transaction that
    reported it as changed. *)
Record ViewState := MkViewState {
  vs_roots : Roots;
  vs_checked : gset ViewName;
  vs_status : option Z;
  vs_mapper : MapperState;
  vs_changed : gmap bytes Z
}.

Definition changed_documents (results : list OperationResult) : list bytes :=
  (filter (fun x => x.1.1 = c) (omap changed_document results)).*1.*2.
Definition record_changes (n : Z) (ds : list bytes) (changed : gmap bytes Z) : gmap bytes Z :=
  foldr (fun d changed => <[d := n]> changed) changed ds.

Inductive view_step : ViewState -> ViewState -> Prop :=
| vstep_transaction s ops results r' n :
    (** the eager views of the collections were scanned first *)
    (forall op u, op ∈ ops -> u ∈ views_in_collection schema (op_collection op) ->
       is_eager (update_policy u) = true -> view_name u ∈ vs_checked s) ->
    apply_transaction_to_roots schedule schema ops (vs_roots s) = (Ok results, r') ->
    current_transaction_id r' = Some n ->
    view_step s (MkViewState r' (vs_checked s) (vs_status s) (vs_mapper s)
                   (record_changes n (changed_documents results) (vs_changed s)))
| vstep_scan s c' u res r' :
    (** the scan of this or another view, with any outcome; it runs once *)
    u ∈ views_in_collection schema c' -> view_name u ∉ vs_checked s ->
    integrity_scan u (vs_roots s) = (res, r') ->
    view_step s (MkViewState r' (if is_ok res then {[ view_name u ]} ∪ vs_checked s else vs_checked s)
                   (vs_status s) (vs_mapper s) (vs_changed s))
| vstep_other s c' w ids res r' :
    w ∈ views_in_collection schema c' -> view_name w <> view_name v -> view_name w ∈ vs_checked s ->
    StronglySorted bytes_lt ids -> map_view_round schedule w ids (vs_roots s) = (res, r') ->
    view_step s (MkViewState r' (vs_checked s) (vs_status s) (vs_mapper s) (vs_changed s))
| vstep_start s t :
    view_name v ∈ vs_checked s -> vs_mapper s = MapperIdle -> current_transaction_id (vs_roots s) = Some t ->
    view_step s (MkViewState (vs_roots s) (vs_checked s) (vs_status s) (MapperStarted t) (vs_changed s))
| vstep_list s t l :
    vs_mapper s = MapperStarted t -> roots_scan (vs_roots s) invalidated_tree = Ok l ->
    view_step s (MkViewState (vs_roots s) (vs_checked s) (vs_status s) (MapperMapping t l.*1) (vs_changed s))
| vstep_round s t ids r' :
    vs_mapper s = MapperMapping t ids -> ids <> [] ->
    let keep := (length ids - CHUNK_SIZE)%nat in
    map_view_round schedule v (drop keep ids) (vs_roots s) = (Ok tt, r') ->
    view_step s (MkViewState r' (vs_checked s) (vs_status s) (MapperMapping t (take keep ids)) (vs_changed s))
| vstep_done s t :
    vs_mapper s = MapperMapping t [] ->
    view_step s (MkViewState (vs_roots s) (vs_checked s) (Some t) MapperIdle (vs_changed s))
| vstep_failed s :
    view_step s (MkViewState (vs_roots s) (vs_checked s) (vs_status s) MapperIdle (vs_changed s)).

(** A database that was just opened: no view is known to be current. *)
Definition view_start (r : Roots) : ViewState := MkViewState r ∅ None MapperIdle ∅.

(** The documents can be read, a view of the current version is in step with
    them, and the scanned views are of the current version. *)
Record disk_ok (checked : gset ViewName) (r : Roots) : Prop := {
  do_decodes c' : qualified_wf c' -> decodes (tree r (document_tree_name c'));
  do_ids c' : qualified_wf c' -> stored_under_id (tree r (document_tree_name c'));
  do_disk c' u : u ∈ views_in_collection schema c' -> view_disk_ok u r;
  do_checked c' u : u ∈ views_in_collection schema c' -> view_name u ∈ checked -> version_current u r = true
}.
Definition current (r : Roots) (u : View) : Prop := version_current u r = true.

Lemma disk_in_step checked r : disk_ok checked r -> store_in_step schema (current r) r.
Proof. intros [Hdec _ Hdisk _]. split; [done|]. intros c' u Hu Hcur. by eapply Hdisk. Qed.
Lemma checked_synced checked r c' u :
  disk_ok checked r -> u ∈ views_in_collection schema c' -> view_name u ∈ checked -> view_synced u r.
Proof. intros [_ _ Hdisk Hch] Hu Hin. by eapply Hdisk, Hch. Qed.

(** ** What a transaction invalidates *)

Lemma invalidate_ids_from r ix (Hix : forall n n' i, ix !! n = Some i -> ix !! n' = Some i -> n = n') n i ids tx tx' w d :
  ix !! n = Some i -> invalidate_ids i ids tx = Ok tx' -> is_Some (through r ix tx' w !! d) ->
  is_Some (through r ix tx w !! d) \/ (w = n /\ d ∈ ids).
Proof.
  intros Hi. revert tx. induction ids as [|d' ids IH]; intros tx Hrun Hd; simpl in Hrun; inv_res; [by left|].
  rename x into tx1. match goal with Hs : db_tx _ = Ok _ |- _ => apply map_err_Ok_inv, tx_set_law in Hs as [Hm Hf] end.
  destruct (IH _ Hrun Hd) as [Hs|[? ?]]; [|right; split; [done|by right]].
  destruct (decide (w = n)) as [->|Hne].
  - rewrite !(through_open r ix _ _ _ Hi) in *. rewrite Hm, lookup_insert_is_Some in Hs.
    destruct Hs as [<-|[_ ?]]; [right; split; [done|left]|by left].
  - left. by rewrite (through_frame r ix Hix _ _ _ _ Hi Hf) in Hs.
Qed.

Lemma invalidate_views_from r ix (Hix : forall n n' i, ix !! n = Some i -> ix !! n' = Some i -> n = n') vs ids tx tx' w d :
  invalidate_views ix vs ids tx = Ok tx' -> is_Some (through r ix tx' w !! d) ->
  is_Some (through r ix tx w !! d) \/ (d ∈ ids /\ exists u, u ∈ vs /\ w = view_invalidated_docs_tree_name (view_name u)).
Proof.
  revert tx. induction vs as [|u vs IH]; intros tx Hrun Hd; simpl in Hrun; inv_res; [by left|].
  rename x into i, x0 into tx1. destruct (IH _ Hrun Hd) as [Hs|(Hid & u' & Hu' & Hw)].
  - destruct (invalidate_ids_from r ix Hix (view_invalidated_docs_tree_name (view_name u)) i ids tx tx1 w d) as [?|[-> ?]];
      [by apply tree_index_Ok|done|done|by left|]. right. split; [done|]. exists u. split; [left|done].
  - right. split; [done|]. exists u'. split; [by right|done].
Qed.

Lemma invalidate_groups_from r ix (Hix : forall n n' i, ix !! n = Some i -> ix !! n' = Some i -> n = n') groups tx tx' w d :
  invalidate_groups schema ix groups tx = Ok tx' -> is_Some (through r ix tx' w !! d) ->
  is_Some (through r ix tx w !! d) \/
  (exists c' ids u, (c', ids) ∈ groups /\ d ∈ ids /\ u ∈ lazy_views schema c' /\ w = view_invalidated_docs_tree_name (view_name u)).
Proof.
  revert tx. induction groups as [|[c' ids] groups IH]; intros tx Hrun Hd; simpl in Hrun; inv_res; [by left|].
  rename x into tx1. destruct (IH _ Hrun Hd) as [Hs|(c2 & ids2 & u & Hg & ?)].
  - destruct (invalidate_views_from r ix Hix (lazy_views schema c') ids tx tx1 w d) as [?|(Hid & u & Hu & Hw)]; [done|done|by left|].
    right. exists c', ids, u. split_and!; [left|done..].
  - right. exists c2, ids2, u. split; [by right|done].
Qed.

Lemma group_by_from cs ds (groups : list (CollectionName * list bytes)) c' ids d :
  group_by cs ds = Ok groups -> (c', ids) ∈ groups -> d ∈ ids -> exists cd, (c', cd) ∈ into_iter_from cs ds /\ cd_id cd = d.
Proof.
  revert groups ids. induction ds as [|x ds IH]; intros groups ids Hrun Hg Hd; simpl in *.
  { inv_res. by apply elem_of_nil in Hg. }
  inv_res. rename x0 into c0, x1 into gs. destruct (cs !! Z.to_nat (cd_collection x)) as [c1|]; simplify_eq.
  assert (forall ids, (c', ids) ∈ gs -> d ∈ ids -> exists cd, (c', cd) ∈ (c0, x) :: into_iter_from cs ds /\ cd_id cd = d) as Hrest.
  { intros ids' Hg' Hd'. destruct (IH gs ids') as (cd & ? & ?); [done..|]. exists cd. split; [by right|done]. }
  assert (c' = c0 -> d = cd_id x -> exists cd, (c', cd) ∈ (c0, x) :: into_iter_from cs ds /\ cd_id cd = d) as Hfirst.
  { intros -> ->. exists x. split; [left|done]. }
  destruct gs as [|[c2 ids2] rest].
  - apply list_elem_of_singleton in Hg as [= -> ->]. apply list_elem_of_singleton in Hd. auto.
  - case_decide as Hc.
    + apply elem_of_cons in Hg as [[= -> ->]|Hg]; [|eapply Hrest; [by right|done]].
      apply elem_of_cons in Hd as [Hd|Hd]; [auto|]. eapply Hrest; [rewrite <- Hc; left|done].
    + apply elem_of_cons in Hg as [[= -> ->]|Hg]; [|by eapply Hrest].
      apply list_elem_of_singleton in Hd. auto.
Qed.

Lemma view_facts : view_wf (view_name v) /\ qualified_wf c /\ own_mappings v /\ view_collection v = c.
Proof.
  destruct (wf_views _ Hschema _ _ Hv) as (? & ? & ?).
  by destruct (view_in_collection _ _ _ (wf_indexes _ Hschema) Hv) as [? _].
Qed.

(** A committed transaction gets a new id, and records as invalidated for the
    view only documents it reports as changed. *)
Lemma transaction_invalidates good ops r results r' :
  store_in_step schema good r -> eager_in_step schema good ops ->
  apply_transaction_to_roots schedule schema ops r = (Ok results, r') ->
  (exists n, current_transaction_id r' = Some n /\ forall m, current_transaction_id r = Some m -> m < n) /\
  forall d, is_Some (tree r' invalidated_tree !! d) ->
    is_Some (tree r invalidated_tree !! d) \/ d ∈ changed_documents results.
Proof.
  intros Hok Heager. unfold apply_transaction_to_roots. rewrite (stm_bind_Ok st_get _ r r r) by done.
  destruct (open_trees_for_transaction schema ops) as [o|e|] eqn:Hopen; [|done..].
  rewrite (stm_bind_Ok _ _ r o r) by done. unfold db_tx.
  destruct (transaction r (trees o)) as [tx0|e|] eqn:Htx; [|done..].
  rewrite (stm_bind_Ok _ _ r tx0 r) by done.
  destruct (start_ok schedule Hsched schema Hschema good _ _ _ _ Hok Heager Hopen Htx) as (Ho & Ht0 & Hstart & Hexec).
  destruct (execute_operations _ _ _ _ tx0 empty_table) as [[[[results' changed] t] tx1]|e|]; [|done..].
  rewrite (stm_bind_Ok _ _ r (results', changed, t, tx1) r) by done. destruct Hexec as (D & _ & Hex).
  destruct (invalidate_changed_documents schema o (table t) changed tx1) as [tx2|e|] eqn:Hinv; [|done..].
  rewrite (stm_bind_Ok _ _ r tx2 r) by done.
  destruct (serialize_executed_transaction_changes _) as [data|]; [|done].
  rewrite (stm_bind_Ok _ _ r data r) by done.
  destruct (tx_set_data tx2 data) as [tx3|e|] eqn:Hdata; [|done..].
  rewrite (stm_bind_Ok _ _ r tx3 r) by done.
  destruct (tx_commit r tx3) as [r1|e|] eqn:Hcommit; [|done..].
  rewrite (stm_bind_Ok _ _ r r1 r) by done. intros [= <- <-]. split.
  { destruct (tx_commit_id _ _ _ Hcommit) as (n & Hn & _ & Hlt). eauto. }
  set (ix := trees_index_by_name o) in *.
  assert (forall n n' i, ix !! n = Some i -> ix !! n' = Some i -> n = n') as Hix.
  { intros n n' i Hn%(trees_index _ Ho) Hn'%(trees_index _ Ho). congruence. }
  unfold invalidate_changed_documents in Hinv. apply bind_Ok_inv in Hinv as (groups & Hgroups & Hinv).
  destruct (invalidate_groups_ok schema Hschema r ix Hix groups tx1 tx2 Hinv) as [Hinvs _].
  destruct (tx_set_data_law _ _ _ Hdata) as (Ht3 & _ & Hc3). destruct Hex as [_ Ht Hiv _ _ _ _ Hch _].
  destruct view_facts as (Hwf & _ & _ & _). intros d.
  rewrite (committed_trees r o tx3 r1 Ho) by (done || by rewrite Ht3, (inv_trees _ _ _ _ _ Hinvs), Ht). fold ix.
  assert (through r ix tx3 invalidated_tree = through r ix tx2 invalidated_tree) as ->
    by (unfold through; destruct (ix !! _); [apply Hc3|done]).
  intros Hd. destruct (invalidate_groups_from r ix Hix groups tx1 tx2 _ d Hinv Hd) as [Hs|(c' & ids & u & Hg & Hid & Hu & Hname)].
  { left. by rewrite Hiv, Hstart in Hs by done. }
  right. apply lazy_view_in in Hu as [Hu _]. destruct (wf_views _ Hschema _ _ Hu) as (Hwu & _ & _).
  apply (tree_name_inj (TInvalidated _) (TInvalidated _)) in Hname; [|done..]. injection Hname as Hname.
  assert (u = v) as -> by (by eapply (view_name_inj schema c' c); [apply (wf_indexes _ Hschema)|..]).
  assert (c' = c) as ->.
  { destruct (view_in_collection _ _ _ (wf_indexes _ Hschema) Hu) as [<- _]. by apply view_facts. }
  destruct (group_by_from _ _ _ _ _ _ Hgroups Hg Hid) as (cd & Hin & <-).
  assert ((c, cd_id cd, cd_deleted cd) ∈ omap changed_document results') as Hres.
  { rewrite <- Hch. apply list_elem_of_fmap. exists (c, cd). split; [done|done]. }
  unfold changed_documents. apply list_elem_of_fmap. exists (c, cd_id cd). split; [done|].
  apply list_elem_of_fmap. exists (c, cd_id cd, cd_deleted cd). split; [done|]. by apply list_elem_of_filter.
Qed.

(** ** The jobs of one view leave the others in step *)

Lemma known_view c' u :
  u ∈ views_in_collection schema c' ->
  view_wf (view_name u) /\ qualified_wf (view_collection u) /\ own_mappings u /\ collection (view_name u) = view_collection u.
Proof.
  intros Hu. destruct (wf_views _ Hschema _ _ Hu) as (Hw & Hc & Ho).
  destruct (view_in_collection _ _ _ (wf_indexes _ Hschema) Hu) as [Hcu _]. split_and!; [done|by rewrite Hcu|done|].
  rewrite Hcu. by apply Hnamed.
Qed.

(** What a scan or a round of the job of [u] leaves as it was. *)
Definition job_spares (u : View) (r r' : Roots) : Prop :=
  (forall k, tree_kind_wf k -> k ∉ scanned_kinds u -> tree r' (tree_name k) = tree r (tree_name k)) /\
  (forall n, n <> view_version_key u ->
     tree r' (view_versions_tree_name (view_collection u)) !! n = tree r (view_versions_tree_name (view_collection u)) !! n).

Lemma other_view c1 c2 u w r r' :
  u ∈ views_in_collection schema c1 -> w ∈ views_in_collection schema c2 -> view_name u <> view_name w ->
  job_spares w r r' -> evolves r r' ->
  (forall t, t ∈ view_trees u -> tree r' t = tree r t) /\ version_current u r' = version_current u r.
Proof.
  intros Hu Hw Hne [Ht Hver] [Hid Hnone]%evolves_id. destruct (known_view _ _ Hu) as (Hwu & Hcu & _ & Hnu), (known_view _ _ Hw) as (Hww & Hcw & _ & Hnw).
  apply (spared_view [] u w (MkWorld r statuses_default) (MkWorld r' (MkStatuses ∅ ∅ ∅))); [done..|].
  by split.
Qed.

(** A job of [u] keeps the invariant of the store if it keeps that of [u]. *)
Lemma job_disk_ok c' u checked checked' r r' :
  disk_ok checked r -> u ∈ views_in_collection schema c' -> job_spares u r r' -> evolves r r' ->
  view_disk_ok u r' -> (view_name u ∈ checked' -> version_current u r' = true) ->
  (forall n, n ∈ checked' -> n ∈ checked \/ n = view_name u) -> disk_ok checked' r'.
Proof.
  intros [Hdec Hids Hdisk Hch] Hu Hsp Hid Hdisk' Hcur Hsub. pose proof Hsp as [Ht _].
  assert (forall c2, qualified_wf c2 -> tree r' (document_tree_name c2) = tree r (document_tree_name c2)) as Hdocs.
  { intros c2 Hc2. apply (Ht (TDocuments c2)); [done|]. unfold scanned_kinds. set_solver. }
  split; [intros c2 Hc2; rewrite Hdocs by done; auto..| |].
  - intros c2 w Hw. destruct (decide (view_name w = view_name u)) as [Heq|Hne].
    { by rewrite (view_name_inj _ _ _ _ _ (wf_indexes _ Hschema) Hw Hu Heq). }
    destruct (other_view _ _ _ _ _ _ Hw Hu Hne Hsp Hid) as [Htr Hver]. destruct (known_view _ _ Hw) as (Hww & Hcw & _).
    intros Hc. rewrite Hver in Hc. apply (view_synced_frame w Hww Hcw r); [by eapply Hdisk|done].
  - intros c2 w Hw Hin. destruct (decide (view_name w = view_name u)) as [Heq|Hne].
    { rewrite (view_name_inj _ _ _ _ _ (wf_indexes _ Hschema) Hw Hu Heq). apply Hcur. by rewrite <- Heq. }
    destruct (other_view _ _ _ _ _ _ Hw Hu Hne Hsp Hid) as [_ ->]. destruct (Hsub _ Hin); [by eapply Hch|done].
Qed.

Lemma map_view_round_store c' w ids checked r res r' :
  disk_ok checked r -> w ∈ views_in_collection schema c' -> view_name w ∈ checked -> StronglySorted bytes_lt ids ->
  map_view_round schedule w ids r = (res, r') ->
  disk_ok checked r' /\ id_le r r' /\ (res = Ok tt -> mapped_round w r r' ids) /\ job_spares w r r'.
Proof.
  intros Hok Hw Hin Hs Hrun. destruct (known_view _ _ Hw) as (Hww & Hcw & How & _).
  destruct (map_view_round_ok schedule Hsched w How Hww Hcw ids r res r' (checked_synced _ _ _ _ Hok Hw Hin) Hs Hrun)
    as [(Hw' & Hd & Hout) Hround].
  pose proof (evolving_map_view_round schedule w ids _ _ _ Hrun) as Hev. destruct (evolves_id _ _ Hev) as [Hle _].
  assert (forall k, tree_kind_wf k -> k <> TInvalidated (view_name w) -> k <> TDocumentMap (view_name w) ->
    k <> TEntries (view_name w) -> tree r' (tree_name k) = tree r (tree_name k)) as Hk.
  { intros k Hkw N1 N2 N3. destruct (decide (k = TDocuments (view_collection w))) as [->|N4]; [done|].
    apply Hout. unfold view_trees. rewrite !elem_of_cons, elem_of_nil. intros [Heq|[Heq|[Heq|[Heq|[]]]]].
    - by apply (tree_name_inj _ (TInvalidated (view_name w))) in Heq.
    - by apply (tree_name_inj _ (TDocumentMap (view_name w))) in Heq.
    - by apply (tree_name_inj _ (TDocuments (view_collection w))) in Heq.
    - by apply (tree_name_inj _ (TEntries (view_name w))) in Heq. }
  assert (job_spares w r r') as Hsp.
  { split; [intros k Hkw Hn; unfold scanned_kinds in Hn; apply Hk; [done|set_solver..]|].
    intros n _. apply (f_equal (fun m : gmap bytes bytes => m !! n)). by apply (Hk (TVersions (view_collection w))). }
  assert (version_current w r' = version_current w r) as Hver.
  { unfold version_current. do 2 f_equal. apply (f_equal (fun m : gmap bytes bytes => m !! view_version_key w)).
    by apply (Hk (TVersions (view_collection w))). }
  split_and!; [|done..]. eapply job_disk_ok; [done|exact Hw|done|done|by intros _| |by left].
  intros _. rewrite Hver. by eapply do_checked.
Qed.

Lemma integrity_scan_store c' u checked r res r' :
  disk_ok checked r -> u ∈ views_in_collection schema c' -> view_name u ∉ checked -> integrity_scan u r = (res, r') ->
  disk_ok (if is_ok res then {[ view_name u ]} ∪ checked else checked) r' /\ id_le r r' /\ job_spares u r r'.
Proof.
  intros Hok Hu Hnot Hrun. destruct (known_view _ _ Hu) as (Hwu & Hcu & _ & _).
  pose proof (evolving_integrity_scan u _ _ _ Hrun) as Hev. destruct (evolves_id _ _ Hev) as [Hle _].
  destruct (integrity_scan_ok u Hwu Hcu r res r' (do_ids _ _ Hok _ Hcu) (do_disk _ _ Hok _ _ Hu) Hrun) as [[Hdisk Hk] Hres].
  assert (job_spares u r r') as Hsp.
  { split; [done|]. intros n Hn. by apply (integrity_scan_versions u Hwu Hcu r res r'). }
  split_and!; [|done..]. eapply job_disk_ok; [done|exact Hu|done|done|done|..].
  - destruct res as [b|e|]; simpl; [|done..]. intros _. by destruct (Hres b eq_refl) as (_ & ? & _).
  - destruct res as [b|e|]; simpl; [|by left..]. intros n [->%elem_of_singleton|?]%elem_of_union; auto.
Qed.

(** The trees of this view are not those of a job of another. *)
Lemma other_invalidated c' w r r' :
  w ∈ views_in_collection schema c' -> view_name w <> view_name v -> job_spares w r r' ->
  tree r' invalidated_tree = tree r invalidated_tree.
Proof.
  intros Hw Hne [Ht _]. apply (Ht (TInvalidated (view_name v))); [by apply view_facts|]. unfold scanned_kinds. set_solver.
Qed.

(** ** The invariant *)

(** An invalidated document was changed after transaction [n]. *)
Definition changed_after (s : ViewState) (n : Z) (d : bytes) : Prop :=
  exists m, vs_changed s !! d = Some m /\ n < m.
Definition id_at_most (s : ViewState) (n : Z) : Prop :=
  exists cur, current_transaction_id (vs_roots s) = Some cur /\ n <= cur.

Record view_inv (s : ViewState) : Prop := {
  vi_store : disk_ok (vs_checked s) (vs_roots s);
  vi_checked : view_name v ∉ vs_checked s -> vs_status s = None /\ vs_mapper s = MapperIdle;
  vi_status n : vs_status s = Some n -> id_at_most s n /\
    forall d, is_Some (tree (vs_roots s) invalidated_tree !! d) -> changed_after s n d;
  vi_started t : vs_mapper s = MapperStarted t -> id_at_most s t;
  vi_mapping t ids : vs_mapper s = MapperMapping t ids -> id_at_most s t /\ StronglySorted bytes_lt ids /\
    forall d, is_Some (tree (vs_roots s) invalidated_tree !! d) -> d ∈ ids \/ changed_after s t d
}.

Lemma record_changes_lookup n ds changed d :
  record_changes n ds changed !! d = if decide (d ∈ ds) then Some n else changed !! d.
Proof.
  induction ds as [|d' ds IH]; simpl; [done|]. destruct (decide (d = d')) as [->|Hne].
  - rewrite lookup_insert_eq, decide_True; [done|left].
  - rewrite lookup_insert_ne, IH by done. destruct (decide (d ∈ ds)); [rewrite decide_True by (by right)
      |rewrite decide_False by (rewrite elem_of_cons; tauto)]; done.
Qed.

Lemma id_le_at_most r r' s s' n :
  vs_roots s = r -> vs_roots s' = r' -> id_le r r' -> id_at_most s n -> id_at_most s' n.
Proof.
  intros Hr Hr' Hle (cur & Hcur & Hn). rewrite Hr in Hcur. destruct (Hle cur Hcur) as (k & Hk & ?).
  exists k. rewrite Hr'. split; [done|lia].
Qed.

(** A committed transaction keeps the invariant of the store. *)
Lemma transaction_store checked ops r results r' :
  disk_ok checked r -> eager_in_step schema (current r) ops ->
  apply_transaction_to_roots schedule schema ops r = (Ok results, r') -> disk_ok checked r'.
Proof.
  intros Hok Heager Hrun. pose proof (apply_in_step schedule Hsched schema Hschema _ _ _ _ _ (disk_in_step _ _ Hok) Heager Hrun)
    as (D & Hspec & Hholds & [Hdec Hsync] & _ & Hver).
  assert (forall c' u, u ∈ views_in_collection schema c' -> version_current u r' = version_current u r) as Hcur.
  { intros c' u Hu. unfold version_current. by rewrite Hver by apply (known_view _ _ Hu). }
  split; [done|..].
  - intros c' Hc'. apply (documents_ids (MkWorld r' statuses_default)); [by apply Hdec|].
    change (ids_ok (docs_of (tree r' (document_tree_name c')))). destruct (Hholds c' Hc') as [-> _].
    eapply spec_operations_collection_ids; [|exact Hspec].
    apply (documents_ids (MkWorld r statuses_default)); [by apply (do_decodes _ _ Hok)|by apply (do_ids _ _ Hok)].
  - intros c' u Hu Hc. rewrite (Hcur _ _ Hu) in Hc. by eapply Hsync.
  - intros c' u Hu Hin. rewrite (Hcur _ _ Hu). by eapply do_checked.
Qed.

Lemma transaction_keeps_inv s ops results r' n :
  view_inv s -> eager_in_step schema (current (vs_roots s)) ops ->
  apply_transaction_to_roots schedule schema ops (vs_roots s) = (Ok results, r') -> current_transaction_id r' = Some n ->
  view_inv (MkViewState r' (vs_checked s) (vs_status s) (vs_mapper s)
              (record_changes n (changed_documents results) (vs_changed s))).
Proof.
  intros [Hok Hnone Hst Hstart Hmap] Heager Hrun Hn. set (s' := MkViewState _ _ _ _ _).
  destruct (transaction_invalidates _ _ _ _ _ (disk_in_step _ _ Hok) Heager Hrun) as [(n' & Hn' & Hlt) Hinv].
  assert (n' = n) as -> by congruence. pose proof (transaction_store _ _ _ _ _ Hok Heager Hrun) as Hok'.
  assert (forall m, id_at_most s m -> id_at_most s' m /\ m < n) as Hids.
  { intros m (cur & Hcur & Hle). specialize (Hlt cur Hcur). split; [|lia]. exists n. split; [done|lia]. }
  assert (forall m d, m < n -> changed_after s m d \/ d ∈ changed_documents results -> changed_after s' m d) as Hch.
  { intros m d Hm Hd. unfold changed_after, s'. simpl. rewrite record_changes_lookup.
    case_decide as Hin; [exists n; split; [done|lia]|]. destruct Hd as [(k & Hk & ?)|?]; [eauto|done]. }
  split; simpl.
  - done.
  - done.
  - intros m Hm. destruct (Hst m Hm) as [Hid Hall]. destruct (Hids m Hid) as [? Hmn]. split; [done|].
    intros d [Hd|Hd]%Hinv; apply Hch; auto.
  - intros t Ht. by apply Hids, Hstart.
  - intros t ids Ht. destruct (Hmap t ids Ht) as (Hid & Hs & Hall). destruct (Hids t Hid) as [? Htn].
    split_and!; [done..|]. intros d [Hd|Hd]%Hinv; [|right; apply Hch; auto].
    destruct (Hall d Hd) as [?|?]; [by left|right; apply Hch; auto].
Qed.

(** A job of another view changes neither the invalidated documents nor the
    last transaction backwards. *)
Lemma other_keeps_inv s r' checked' :
  view_inv s -> disk_ok checked' r' -> (view_name v ∉ checked' -> view_name v ∉ vs_checked s) -> id_le (vs_roots s) r' ->
  tree r' invalidated_tree = tree (vs_roots s) invalidated_tree ->
  view_inv (MkViewState r' checked' (vs_status s) (vs_mapper s) (vs_changed s)).
Proof.
  intros [_ Hnone Hst Hstart Hmap] Hok Hsub Hle Heq. split; simpl; rewrite ?Heq; [done|auto|..].
  - intros n Hn. destruct (Hst n Hn) as [? ?]. split; [|done]. by eapply id_le_at_most.
  - intros t Ht. eapply id_le_at_most; [done..|auto].
  - intros t ids' Ht. destruct (Hmap t ids' Ht) as (? & ? & ?). split_and!; [|done..]. by eapply id_le_at_most.
Qed.

Lemma scan_keeps_inv s c' u res r' :
  view_inv s -> u ∈ views_in_collection schema c' -> view_name u ∉ vs_checked s -> integrity_scan u (vs_roots s) = (res, r') ->
  view_inv (MkViewState r' (if is_ok res then {[ view_name u ]} ∪ vs_checked s else vs_checked s)
              (vs_status s) (vs_mapper s) (vs_changed s)).
Proof.
  intros Hinv Hu Hnot Hrun. destruct (integrity_scan_store _ _ _ _ _ _ (vi_store _ Hinv) Hu Hnot Hrun) as (Hok & Hle & Hsp).
  destruct (decide (view_name u = view_name v)) as [Heq|Hne].
  - destruct (vi_checked _ Hinv) as [Hst Hm]; [by rewrite <- Heq|]. split; simpl; rewrite ?Hst, ?Hm; done.
  - apply other_keeps_inv; [done..| |done|by eapply other_invalidated].
    destruct (is_ok res); [set_solver|done].
Qed.

Lemma round_keeps_inv s t ids keep r' :
  view_inv s -> vs_mapper s = MapperMapping t ids -> map_view_round schedule v (drop keep ids) (vs_roots s) = (Ok tt, r') ->
  view_inv (MkViewState r' (vs_checked s) (vs_status s) (MapperMapping t (take keep ids)) (vs_changed s)).
Proof.
  intros [Hok Hnone Hst Hstart Hmap] Hm Hrun.
  assert (view_name v ∈ vs_checked s) as Hch.
  { destruct (decide (view_name v ∈ vs_checked s)) as [|Hn]; [done|]. destruct (Hnone Hn) as [_ Hidle]. congruence. }
  destruct (Hmap t ids Hm) as (Hid & Hs & Hall). destruct (sorted_take_drop ids keep Hs) as [Hs1 Hs2].
  destruct (map_view_round_store _ _ _ _ _ _ _ Hok Hv Hch Hs2 Hrun) as (Hok' & Hle & Hround & _).
  destruct (Hround eq_refl) as (_ & Hgone & _).
  assert (forall d, is_Some (tree r' invalidated_tree !! d) ->
    is_Some (tree (vs_roots s) invalidated_tree !! d) /\ d ∉ drop keep ids) as Hstill.
  { intros d. rewrite Hgone. case_decide; [by intros []|done]. }
  split; simpl; [done|done|..].
  - intros n Hn. destruct (Hst n Hn) as [? Hc]. split; [by eapply id_le_at_most|]. intros d [Hd _]%Hstill. by apply Hc.
  - done.
  - intros t' ids' [= <- <-]. split_and!; [by eapply id_le_at_most|done|]. intros d [Hd Hnot]%Hstill.
    destruct (Hall d Hd) as [Hin|?]; [left|by right]. rewrite <- (take_drop keep ids) in Hin.
    by apply elem_of_app in Hin as [?|?].
Qed.

Lemma view_step_inv s s' : view_inv s -> view_step s s' -> view_inv s'.
Proof.
  intros Hinv Hstep. destruct Hstep as [s ops results r' n Heager Hrun Hn|s c' u res r' Hu Hnot Hrun|s c' w ids res r' Hw Hne Hch Hs Hrun
    |s t Hch Hm Ht|s t l Hm Hl|s t ids r' Hm Hids keep Hrun|s t Hm|s].
  - apply transaction_keeps_inv with (ops := ops); [done| |done..]. intros op Hop u Hu He.
    apply (do_checked _ _ (vi_store _ Hinv) _ _ Hu). by eapply Heager.
  - by eapply scan_keeps_inv.
  - destruct (map_view_round_store _ _ _ _ _ _ _ (vi_store _ Hinv) Hw Hch Hs Hrun) as (Hok' & Hle & _ & Hsp).
    apply other_keeps_inv; [done..|by eapply other_invalidated].
  - destruct Hinv as [Hok Hnone Hst Hstart Hmap]. split; simpl; [done|done|done| |done].
    intros t' [= <-]. exists t. split; [done|lia].
  - destruct Hinv as [Hok Hnone Hst Hstart Hmap]. apply roots_scan_law in Hl as [Hs Hin].
    split; simpl; [done| |done..|]; [intros Hn; destruct (Hnone Hn); congruence|].
    intros t' ids [= <- <-]. split_and!; [by apply Hstart|done|].
    intros d [b Hd]. left. apply list_elem_of_fmap. exists (d, b). split; [done|]. by apply Hin.
  - by eapply round_keeps_inv.
  - destruct Hinv as [Hok Hnone Hst Hstart Hmap]. destruct (Hmap t [] Hm) as (Hid & _ & Hall).
    split; simpl; [done|intros Hn; destruct (Hnone Hn); congruence|..|done|done].
    intros n [= <-]. split; [done|]. intros d [Hin|?]%Hall; [by apply elem_of_nil in Hin|done].
  - destruct Hinv as [Hok Hnone Hst Hstart Hmap]. split; simpl; [done|naive_solver|done..].
Qed.

(** C11: the status of a view covers the transactions up to it.  From a
    database that was just opened, whose views may be of any version, let client
    transactions, the integrity scans of the views (each once, with any outcome,
    and not interrupted by another step) and the rounds of the mapping jobs come
    in any order that has the eager views of a changed collection and the views
    that are mapped scanned first.  Whenever the status of the view is
    transaction [n], every document that no later transaction changed is indexed
    exactly as the view maps the stored document: a query that finds the status
    at the last transaction it has to see need not wait.  A transaction that
    commits between the two parts of a scan is not covered, and breaks this. *)
Theorem status_covers_transactions r s n d :
  disk_ok ∅ r -> rtc view_step (view_start r) s -> vs_status s = Some n ->
  (forall m, vs_changed s !! d = Some m -> m <= n) ->
  up_to_date v (tree (vs_roots s) (document_tree_name c)) (tree (vs_roots s) (view_entries_tree_name (view_name v))) d.
Proof.
  intros Hok Hrun Hn Hd. assert (view_inv (view_start r)) as Hinit by (by split).
  assert (view_inv s) as Hinv.
  { clear Hn Hd. induction Hrun as [s|s s1 s2 Hs Hrun IH]; [done|]. apply IH. by eapply view_step_inv. }
  destruct Hinv as [Hdisk Hnone Hst _ _]. destruct (Hst n Hn) as [_ Hall]. destruct view_facts as (_ & _ & _ & Hc).
  assert (view_synced v (vs_roots s)) as [_ _ Hf _].
  { destruct (decide (view_name v ∈ vs_checked s)) as [Hin|Hout]; [by eapply checked_synced|].
    destruct (Hnone Hout) as [? _]. congruence. }
  rewrite Hc in Hf. apply Hf; [|apply not_elem_of_nil].
  apply eq_None_not_Some. intros (m & Hm & Hlt)%Hall. specialize (Hd m Hm). lia.
Qed.
End System.

(** ** Example

    In an empty database both views of the notes are scanned, then a transaction
    inserts notes and the lazy view is mapped in one round. *)

Module ViewSystemExamples.
Import MemNebari StoreDemo ViewExamples TransactionExamples.

Definition scanned1 : Roots := (integrity_scan (by_contents Unique) empty).2.
Definition scanned2 : Roots := (integrity_scan by_length scanned1).2.
Definition inserted : Roots := (apply_transaction_to_roots (fun l => l) demo_schema ops scanned2).2.
Definition inserted_results : list OperationResult :=
  default [] (res_ok (apply_transaction_to_roots (fun l => l) demo_schema ops scanned2).1).
Definition invalidated : list bytes := [[0; 0; 0; 0; 0; 0; 0; 1]; [0; 0; 0; 0; 0; 0; 0; 2]; [1]].
Definition mapped : Roots := (map_view_round (fun l => l) by_length invalidated inserted).2.

(** A run is its result and the store it leaves. *)
Lemma run_ok {A} (x : res DbError A * Roots) a : res_ok x.1 = Some a -> x = (Ok a, x.2).
Proof. destruct x as [[b|e|] r]; simpl; [|done..]. by intros [= ->]. Qed.

Lemma scanned1_ok : integrity_scan (by_contents Unique) empty = (Ok true, scanned1).
Proof. apply run_ok. vm_compute. reflexivity. Qed.
Lemma scanned2_ok : integrity_scan by_length scanned1 = (Ok true, scanned2).
Proof. apply run_ok. vm_compute. reflexivity. Qed.
Lemma inserted_ok : apply_transaction_to_roots (fun l => l) demo_schema ops scanned2 = (Ok inserted_results, inserted).
Proof.
  apply run_ok. unfold inserted_results.
  assert (is_ok (apply_transaction_to_roots (fun l => l) demo_schema ops scanned2).1 = true) as Hr by (vm_compute; reflexivity).
  by destruct (apply_transaction_to_roots _ _ _ _) as [[results|e|] r].
Qed.
Lemma mapped_ok : map_view_round (fun l => l) by_length invalidated inserted = (Ok tt, mapped).
Proof.
  apply run_ok.
  assert (is_ok (map_view_round (fun l => l) by_length invalidated inserted).1 = true) as Hr by (vm_compute; reflexivity).
  by destruct (map_view_round _ _ _ _) as [[[]| |] r].
Qed.
Lemma invalidated_scan :
  exists l, roots_scan inserted (view_invalidated_docs_tree_name (view_name by_length)) = Ok l /\ l.*1 = invalidated.
Proof. eexists. split; [reflexivity|]. vm_compute. reflexivity. Qed.

Definition both : gset ViewName := {[ view_name by_length ]} ∪ ({[ view_name (by_contents Unique) ]} ∪ ∅).
Definition changes : gmap bytes Z := record_changes 2 (changed_documents notes inserted_results) ∅.
Definition final : ViewState := MkViewState mapped both (Some 2) MapperIdle changes.

Lemma by_length_in_notes : by_length ∈ views_in_collection demo_schema notes.
Proof. right. left. Qed.
Lemma by_contents_in_notes : by_contents Unique ∈ views_in_collection demo_schema notes.
Proof. left. Qed.

Abbreviation demo_step := (view_step (fun l => l) demo_schema notes by_length).
Lemma contents_not_checked : view_name (by_contents Unique) ∉ (∅ : gset ViewName).
Proof. apply not_elem_of_empty. Qed.
Lemma length_not_checked : view_name by_length ∉ ({[ view_name (by_contents Unique) ]} ∪ ∅ : gset ViewName).
Proof. rewrite elem_of_union, elem_of_singleton. intros [?|?%elem_of_empty]; done. Qed.
Lemma both_checked u : u = by_contents Unique \/ u = by_length -> view_name u ∈ both.
Proof. unfold both. rewrite !elem_of_union, !elem_of_singleton. intros [->| ->]; auto. Qed.

Definition after_scans : ViewState := MkViewState scanned2 both None MapperIdle ∅.
Definition after_insert : ViewState := MkViewState inserted both None MapperIdle changes.

Lemma scan_run : rtc demo_step (view_start empty) after_scans.
Proof.
  apply (rtc_l _ _ (MkViewState scanned1 ({[ view_name (by_contents Unique) ]} ∪ ∅) None MapperIdle ∅)).
  - exact (vstep_scan _ _ _ _ (view_start empty) _ _ _ _ by_contents_in_notes contents_not_checked scanned1_ok).
  - apply rtc_once.
    exact (vstep_scan _ _ _ _ (MkViewState scanned1 _ None MapperIdle ∅) _ _ _ _ by_length_in_notes length_not_checked scanned2_ok).
Qed.

Lemma insert_run : demo_step after_scans after_insert.
Proof.
  assert (current_transaction_id inserted = Some 2) as Hid by (vm_compute; reflexivity).
  refine (vstep_transaction _ _ _ _ after_scans ops _ _ _ _ inserted_ok Hid).
  intros op u _ [_ Hu]%demo_views_of _. by apply both_checked.
Qed.

Lemma map_run : rtc demo_step after_insert final.
Proof.
  destruct invalidated_scan as (l & Hl & Hids).
  assert (current_transaction_id inserted = Some 2) as Hid by (vm_compute; reflexivity).
  apply (rtc_l _ _ (MkViewState inserted both None (MapperStarted 2) changes)).
  { apply (vstep_start _ _ _ _ after_insert); [apply both_checked; by right|done|exact Hid]. }
  apply (rtc_l _ _ (MkViewState inserted both None (MapperMapping 2 invalidated) changes)).
  { rewrite <- Hids. by apply (vstep_list _ _ _ _ (MkViewState inserted both None (MapperStarted 2) changes)). }
  apply (rtc_l _ _ (MkViewState mapped both None (MapperMapping 2 []) changes)).
  { by apply (vstep_round _ _ _ _ (MkViewState inserted both None (MapperMapping 2 invalidated) changes) 2 invalidated mapped eq_refl ltac:(done) mapped_ok). }
  apply rtc_once. by apply (vstep_done _ _ _ _ (MkViewState mapped both None (MapperMapping 2 []) changes)).
Qed.

Lemma mapping_run : rtc demo_step (view_start empty) final.
Proof. etrans; [exact scan_run|]. eapply rtc_l; [exact insert_run|exact map_run]. Qed.

Lemma empty_disk : disk_ok demo_schema ∅ empty.
Proof.
  destruct empty_ok as [Hdec Hsync]. split; [done| |intros c' u Hu _; by eapply Hsync|by intros c' u _ ?%elem_of_empty].
  intros c' Hc' d b doc. change (Nebari.contents empty (document_tree_name c')) with (∅ : gmap bytes bytes). by rewrite lookup_empty.
Qed.

Lemma status_covers_transactions_witness :
  vs_changed final !! [0; 0; 0; 0; 0; 0; 0; 1] = Some 2 /\
  is_Some (entry_value (Nebari.contents mapped (view_entries_tree_name (view_name by_length))) [0; 0; 0; 0; 0; 0; 0; 1] [1]) /\
  up_to_date by_length (Nebari.contents mapped (document_tree_name notes))
    (Nebari.contents mapped (view_entries_tree_name (view_name by_length))) [0; 0; 0; 0; 0; 0; 0; 1].
Proof.
  assert (vs_changed final !! [0; 0; 0; 0; 0; 0; 0; 1] = Some 2) as Hc by (vm_compute; reflexivity).
  split; [exact Hc|]. split; [eexists; vm_compute; reflexivity|].
  apply (status_covers_transactions (fun l => l) identity_schedule demo_schema demo_schema_wf LawsExamples.demo_named notes by_length
    by_length_in_notes empty final 2); [exact empty_disk|exact mapping_run|reflexivity|].
  intros m Hm. rewrite Hc in Hm. injection Hm as <-. lia.
Defined.
End ViewSystemExamples.
