(* ===== verification/AdminTheorems.v ===== *)
(** * What users and roles are permitted

    The permissions of users and roles in terms of the stored documents, over
    any connection that keeps the laws of [ConnectionTheorems]. *)

From Stdlib Require Import ZArith Lia String.
From stdpp Require Import base list option numbers gmap.
From S2P Require Import Prelude Bytes Utf8 Key KeyLaws Time Nebari Document Names Changes Schema Permissions View Query Integrity Jobs Transaction Tasks StoreDemo ViewBatch TransactionLaws TransactionSpec QueryLaws TasksLaws TasksTheorems Connection ConnectionTheorems Admin.

Local Open Scope Z_scope.

Section Lists.
Lemma elem_of_unique_from x seen l : x ∈ unique_from seen l <-> x ∈ l /\ x ∉ seen.
Proof.
  revert seen. induction l as [|y l IH]; intros seen; cbn [unique_from].
  - split; [by intros ?%not_elem_of_nil|by intros [? _]].
  - case_decide; rewrite ?elem_of_cons, IH; [|rewrite elem_of_cons]; destruct (decide (x = y)); naive_solver.
Qed.
Lemma elem_of_unique x l : x ∈ unique l <-> x ∈ l.
Proof. unfold unique. rewrite elem_of_unique_from. split; [by intros []|]. split; [done|]. apply not_elem_of_nil. Qed.
Lemma elem_of_dedup x l : x ∈ dedup l <-> x ∈ l.
Proof.
  induction l as [|y l IH]; cbn [dedup]; [done|]. destruct (dedup l) as [|z l'].
  - by rewrite !elem_of_cons, <- IH.
  - destruct (Z.eqb_spec y z) as [->|]; rewrite !elem_of_cons, <- IH, !elem_of_cons; naive_solver.
Qed.
End Lists.

Section Stored.
Context `{Nebari} `{Actionable} `{Digest} {St : Type} `{!LowLevelConnection St} (conn_ok : St -> Prop) (documents : St -> Database)
  `{!ConnectionLaws conn_ok documents}.

(** A document of a collection under a key. *)
Definition stored_at (C : CollectionTy) (D : Database) (v : k_type (cl_key C)) (d : CollectionDocument C) : Prop :=
  exists did doc, document_id_new (cl_key C) v = Ok did /\ D (cl_name C) !! did = Some doc /\ collection_document_try_from C doc = Ok d.

(** Reading several documents returns those that are stored. *)
Lemma get_multiple_exact C ids s found s' :
  conn_ok s -> qualified_wf (cl_name C) -> sc_get_multiple C ids s = (Ok found, s') ->
  conn_ok s' /\ same_documents_all documents s s' /\
  forall d, d ∈ found <-> exists v, v ∈ ids /\ stored_at C (documents s) v d.
Proof.
  intros Hok Hwf Hrun. unfold sc_get_multiple, conn_get_multiple in Hrun.
  apply stm_bind_Ok_inv in Hrun as (docs & s1 & Hget & Hdocs). unfold st_lift, collection_documents in Hdocs. injection Hdocs as Hdocs <-.
  apply stm_bind_Ok_inv in Hget as (dids & s2 & Hids & Hget). unfold st_lift in Hids. injection Hids as Hids <-.
  apply law_get_multiple in Hget as (Hok1 & Hsame & Hfound); [|done|done]. split_and!; [done|done|].
  apply collect_Ok_iff in Hdocs, Hids. specialize (Hfound docs eq_refl). intros d. split.
  - intros Hd. destruct (Forall2_elem_r _ _ _ _ Hdocs Hd) as (doc & Hdoc & Htry).
    apply Hfound in Hdoc as (did & Hdid & Hst). destruct (Forall2_elem_r _ _ _ _ Hids Hdid) as (v & Hv & Hnew).
    exists v. split; [done|]. by exists did, doc.
  - intros (v & Hv & did & doc & Hnew & Hst & Htry). destruct (Forall2_elem_l _ _ _ _ Hids Hv) as (did' & Hdid & Hnew').
    rewrite Hnew in Hnew'. injection Hnew' as <-. assert (doc ∈ docs) as Hin by (apply Hfound; eauto).
    destruct (Forall2_elem_l _ _ _ _ Hdocs Hin) as (d' & Hd' & Htry'). rewrite Htry in Htry'. by injection Htry' as <-.
Qed.

Context `{!AdminFormats} `{!ActionableLaws}.

(** A stored group whose statements allow the action. *)
Definition group_allows (D : Database) (ids : list Z) (r : list Identifier) (a : BonsaiAction) : Prop :=
  exists gid g, gid ∈ ids /\ stored_at group_collection D gid g /\ allowed_to (permissions_from (statements (group_of g))) r a = true.

Lemma merged_exact ids s found inherit s' r a :
  conn_ok s -> sc_get_multiple group_collection ids s = (Ok found, s') ->
  conn_ok s' /\ same_documents_all documents s s' /\
  (allowed_to (merge_groups found inherit) r a = true <-> allowed_to inherit r a = true \/ group_allows (documents s) ids r a).
Proof.
  intros Hok Hrun. apply get_multiple_exact in Hrun as (Hok1 & Hsame & Hfound); [|done|done]. split_and!; [done|done|].
  unfold merge_groups. rewrite merged_allows. unfold group_allows. split.
  - intros (p & Hp & Ha). apply elem_of_app in Hp as [Hp|Hp%list_elem_of_singleton]; [|left; congruence].
    apply list_elem_of_fmap in Hp as (g & -> & Hg). apply Hfound in Hg as (gid & ? & ?). right. by exists gid, g.
  - intros [Ha|(gid & g & Hgid & Hst & Ha)].
    + exists inherit. rewrite elem_of_app, list_elem_of_singleton. auto.
    + exists (permissions_from (statements (group_of g))). split; [|done]. apply elem_of_app. left.
      apply (list_elem_of_fmap_2 (fun g => permissions_from (statements (group_of g)))), Hfound. eauto.
Qed.

(** A role is permitted what its groups allow, and what everybody who is
    authenticated is. *)
Theorem role_permissions_exact role inherit s p s' r a :
  conn_ok s -> role_effective_permissions role inherit s = (Ok p, s') ->
  allowed_to p r a = true <-> allowed_to inherit r a = true \/ group_allows (documents s) (role_groups role) r a.
Proof.
  intros Hok Hrun. apply stm_bind_Ok_inv in Hrun as (found & s1 & Hget & [= <- <-]). by eapply merged_exact.
Qed.

Lemma group_allows_same D D' ids r a :
  (forall c, qualified_wf c -> D' c = D c) -> group_allows D' ids r a <-> group_allows D ids r a.
Proof.
  intros Hsame. unfold group_allows, stored_at. cbn [group_collection cl_name]. by rewrite Hsame by done.
Qed.
Lemma group_allows_equiv D ids ids' r a :
  (forall x, x ∈ ids <-> x ∈ ids') -> group_allows D ids r a <-> group_allows D ids' r a.
Proof. intros He. unfold group_allows. by setoid_rewrite He. Qed.

(** The groups that count for a user: the user's own, and, when the user has any
    role, those of the roles whose ids are the ids of the user's groups. *)
Definition counted_group (D : Database) (u : User) (gid : Z) : Prop :=
  gid ∈ user_groups u \/
  (user_roles u <> [] /\ exists rid role, rid ∈ user_groups u /\ stored_at role_collection D rid role /\ gid ∈ role_groups (role_of role)).

Lemma user_permissions_counted u inherit s p s' r a :
  conn_ok s -> user_effective_permissions u inherit s = (Ok p, s') ->
  allowed_to p r a = true <-> allowed_to inherit r a = true \/
    exists gid g, counted_group (documents s) u gid /\ stored_at group_collection (documents s) gid g /\
      allowed_to (permissions_from (statements (group_of g))) r a = true.
Proof.
  intros Hok Hrun. unfold user_effective_permissions in Hrun. apply stm_bind_Ok_inv in Hrun as (from_roles & s1 & Hroles & Hrun).
  assert (conn_ok s1 /\ same_documents_all documents s s1 /\ forall gid, gid ∈ from_roles <->
    user_roles u <> [] /\ exists rid role, rid ∈ user_groups u /\ stored_at role_collection (documents s) rid role /\ gid ∈ role_groups (role_of role))
    as (Hok1 & Hsame1 & Hfrom).
  { destruct (user_roles u) as [|x l].
    - injection Hroles as <- <-. split_and!; [done|done|]. intros gid. split; [by intros []%not_elem_of_nil|by intros []].
    - apply stm_bind_Ok_inv in Hroles as (found & s2 & Hget & [= <- <-]).
      apply get_multiple_exact in Hget as (? & ? & Hfound); [|done|done]. split_and!; [done|done|]. intros gid.
      rewrite elem_of_unique, list_elem_of_bind. split.
      + intros (role & Hg & Hrole). apply Hfound in Hrole as (rid & ? & ?). split; [done|]. by exists rid, role.
      + intros (_ & rid & role & ? & ? & ?). exists role. split; [done|]. apply Hfound. eauto. }
  apply stm_bind_Ok_inv in Hrun as (found & s3 & Hget & [= <- <-]).
  assert (allowed_to (merge_groups found inherit) r a = true <->
    allowed_to inherit r a = true \/ group_allows (documents s1) (from_roles ++ user_groups u) r a) as ->.
  { destruct from_roles as [|x l]; [by eapply merged_exact|]. rewrite (group_allows_equiv _ _ (dedup ((x :: l) ++ user_groups u))).
    - by eapply merged_exact.
    - intros y. by rewrite elem_of_dedup. }
  rewrite (group_allows_same (documents s)) by done. unfold group_allows, counted_group. setoid_rewrite elem_of_app. setoid_rewrite Hfrom.
  split; intros [?|(gid & g & ? & ?)]; auto; right; exists gid, g; naive_solver.
Qed.
(** C29: what a user is permitted: what everybody who is authenticated is, and
    what the user's groups allow.  Of the user's roles only matters whether there
    are any: the roles whose groups count are looked up with the ids of the
    user's groups, not with the ids of the roles the user has; without groups, roles give
    nothing. *)
Theorem user_permissions_exact u inherit s p s' r a :
  conn_ok s -> user_effective_permissions u inherit s = (Ok p, s') ->
  (allowed_to p r a = true <-> allowed_to inherit r a = true \/
    exists gid g, counted_group (documents s) u gid /\ stored_at group_collection (documents s) gid g /\
      allowed_to (permissions_from (statements (group_of g))) r a = true) /\
  (user_groups u = [] -> allowed_to p r a = allowed_to inherit r a).
Proof.
  intros Hok Hrun. pose proof (user_permissions_counted _ _ _ _ _ r a Hok Hrun) as Hp. split; [done|]. intros Hno.
  apply eq_bool_prop_intro. rewrite !Is_true_true. rewrite Hp. split; [|by left]. intros [?|(gid & g & Hc & _)]; [done|exfalso].
  unfold counted_group in Hc. rewrite Hno in Hc. destruct Hc as [?%not_elem_of_nil|(_ & rid & role & ?%not_elem_of_nil & _)]; done.
Qed.
End Stored.
