(* ===== verification/StorageRegistry.v ===== *)
(** * The databases of a storage

    The names of the databases kept in memory are those of the records in the
    administration database, and creating and deleting databases are insertion
    and deletion in a map from names to schemas, over any connection that keeps
    the laws of [ConnectionTheorems]. *)

From Stdlib Require Import ZArith Lia String.
From stdpp Require Import base list option numbers gmap.
From S2P Require Import Prelude Bytes Utf8 Digits Timestamp Key KeyLaws Range Time Nebari Document Names Changes Schema Permissions View Query Integrity Jobs Transaction Tasks StoreDemo ViewBatch TransactionLaws TransactionSpec QueryLaws TasksLaws TasksTheorems Vault Connection ConnectionTheorems Admin AdminTheorems Storage.

Local Open Scope Z_scope.

#[export] Instance admin_key_generated : GeneratedKey key_u64.
Proof. split; [apply _..|]. by intros x [= <-]. Qed.

(** ** The specification *)

Section Spec.
Context `{Nebari} `{Actionable}.
Abbreviation Registry := (gmap str SchemaName).

(** The names the documentation allows: a letter or digit, then letters,
    digits, periods and hyphens. *)
Definition letter_or_digit (c : Z) : Prop := 48 <= c <= 57 \/ 65 <= c <= 90 \/ 97 <= c <= 122.
Definition later_chars : str -> Prop := Forall (fun c => letter_or_digit c \/ c = 46 \/ c = 45).
Definition documented_name (name : str) : Prop :=
  match name with [] => False | c :: rest => letter_or_digit c /\ later_chars rest end.
(** The names that are accepted: also the empty one, and an underscore in the
    first place. *)
Definition accepted_name (name : str) : Prop :=
  documented_name name \/ match name with [] => True | c :: rest => c = 95 /\ later_chars rest end.
#[global] Instance letter_or_digit_dec c : Decision (letter_or_digit c).
Proof. unfold letter_or_digit. apply _. Defined.
#[global] Instance later_chars_dec s : Decision (later_chars s).
Proof. unfold later_chars. apply _. Defined.
#[global] Instance accepted_name_dec name : Decision (accepted_name name).
Proof. unfold accepted_name, documented_name. destruct name; apply _. Defined.

Definition spec_create_database (schemas : gmap SchemaName Schematic) (name : str) (schema : SchemaName) (only_if_needed : bool)
    (M : Registry) : res StorageError Registry :=
  if decide (~ accepted_name name) then Err (InvalidDatabaseName name)
  else if decide (schemas !! schema = None) then Err (SchemaNotRegistered schema)
  else if decide (M !! name = None) then Ok (<[name := schema]> M)
  else if only_if_needed then Ok M else Err (DatabaseNameAlreadyTaken name).
Definition spec_delete_database (name : str) (M : Registry) : res StorageError Registry :=
  if decide (M !! name = None) then Err (DatabaseNotFound name) else Ok (delete name M).
End Spec.

Section Databases.
Context `{Nebari} `{Actionable} `{Digest} `{!AdminFormats} `{Blake3} `{PasswordHasher} `{!StorageIO} `{Profile}.
Context {St : Type} `{!LowLevelConnection St} (conn_ok : St -> Prop) (documents : St -> Database) `{!ConnectionLaws conn_ok documents}.
Context (w : View) (Hview : views ll_schematic !! databases_by_name = Some w) (Hname : view_by_name ll_schematic (view_name w) = Ok w)
  (Hmap : view_map w = databases_by_name_map) (Hcollection : view_collection w = cl_name database_collection).
Context (Hgenerator : collection_id_generators ll_schematic !! cl_name database_collection = Some key_u64).
Context (Hschema : forall n, exists b, schema_name_to_vec n = Some b /\ schema_name_from_slice b = Some n) `{!FormatLaws database_collection}.

Abbreviation records a := (documents a (cl_name database_collection)).
Abbreviation RecordDoc := (CollectionDocument database_collection).
Definition record_name (r : RecordDoc) : str := dr_name (database_of r).
Definition record_schema (r : RecordDoc) : SchemaName := dr_schema (database_of r).

(** The records are databases with different names that can be encoded. *)
Record records_ok (D : Docs) : Prop := {
  ro_typed : typed_ids database_collection D;
  ro_stored did doc : D !! did = Some doc -> exists r, collection_document_try_from database_collection doc = Ok r /\
    is_str (record_name r) = true /\ alloc_ok (as_bytes (record_name r));
  ro_unique did did' doc doc' r r' : D !! did = Some doc -> D !! did' = Some doc' ->
    collection_document_try_from database_collection doc = Ok r -> collection_document_try_from database_collection doc' = Ok r' ->
    record_name r = record_name r' -> did = did'
}.

Lemma databases_wf : qualified_wf (cl_name database_collection).
Proof. done. Qed.

(** A record of the administration database. *)
Definition recorded (D : Docs) (name : str) (schema : SchemaName) : Prop :=
  exists did doc r, D !! did = Some doc /\ collection_document_try_from database_collection doc = Ok r /\
    record_name r = name /\ record_schema r = schema.

Lemma record_indexed doc r k rev value :
  collection_document_try_from database_collection doc = Ok r ->
  doc_indexed w (Some doc) k = Some (rev, value) <->
  k = as_bytes (record_name r) /\ rev = revision (header doc) /\ schema_name_to_vec (record_schema r) = Some value.
Proof.
  intros Hr. unfold doc_indexed, doc_output. rewrite Hmap. unfold databases_by_name_map, in_map. rewrite Hr. cbn [map_err mbind res_bind].
  unfold emit_name. cbn [as_ord_bytes key_string map_err mbind res_bind].
  destruct (Hschema (record_schema r)) as (b & Hb & _). unfold record_schema in *. rewrite Hb. cbn [ok_or mbind res_bind].
  unfold emitted. rewrite filter_cons, filter_nil. cbn [map_key]. unfold record_name. case_decide as Hk; simpl; naive_solver.
Qed.

Abbreviation by_name := (by_name_view databases).
Abbreviation name_map := (CollectionMap str SchemaName Z).
Definition record_map (r : RecordDoc) : name_map := MkCollectionMap (cd_header r) (record_name r) (record_schema r).

Lemma mapping_record doc r m :
  collection_document_try_from database_collection doc = Ok r -> is_str (record_name r) = true -> alloc_ok (as_bytes (record_name r)) ->
  schema_name_to_vec (record_schema r) = Some (ms_value m) -> ms_source m = header doc -> ms_key m = as_bytes (record_name r) ->
  deserialize_mapping by_name m = Ok (record_map r).
Proof.
  intros Hr Hs Ha Hval Hsrc Hk. unfold deserialize_mapping. cbn [by_name_view vt_key vt_collection].
  rewrite (key_roundtrip (k:=key_string) (record_name r) (as_bytes (record_name r)) (Borrowed (ms_key m))) by done.
  destruct (Hschema (record_schema r)) as (b & Hb & Hdes). rewrite Hval in Hb. injection Hb as <-.
  unfold vt_from_slice. cbn [by_name_view vt_deserialize databases nc_deserialize]. rewrite Hdes. cbn [map_err ok_or mbind res_bind].
  unfold collection_document_try_from in Hr. apply bind_Ok_inv in Hr as (rec & Hrec & Hr). apply bind_Ok_inv in Hr as (h & Hh & [= <-]).
  rewrite Hsrc. cbn [databases nc_collection]. by rewrite Hh.
Qed.

Lemma header_eta (h : Header) : MkHeader (id h) (revision h) = h.
Proof. by destruct h. Qed.

(** The mappings a query by name returns are those of the records it selects. *)
Lemma records_query (key : option (QueryKey (k_type (vt_key by_name)))) sk order s ms s' :
  conn_ok s -> records_ok (records s) -> serialized_key (vt_key by_name) key = Ok sk ->
  view_query by_name (MkViewBuilder _ key UpdateBefore order None) s = (Ok ms, s') ->
  conn_ok s' /\ same_documents_all documents s s' /\
  forall m : name_map, m ∈ (ms : list name_map) <-> exists did doc r, records s !! did = Some doc /\
    collection_document_try_from database_collection doc = Ok r /\ key_selected sk (as_bytes (record_name r)) /\ m = record_map r.
Proof.
  intros Hok HD Hsk Hrun. unfold view_query in Hrun. cbn [vb_key vb_sort vb_limit vb_access_policy] in Hrun.
  rewrite (conn_query_run by_name _ sk w) in Hrun; [|by unfold schematic_view; simpl; rewrite Hview|done].
  destruct (ll_query_by_name (view_name w) sk order None UpdateBefore s) as [r1 s1] eqn:Hq. injection Hrun as Hr <-.
  apply law_query with (v := w) in Hq as (Hok1 & Hsame & Hres); [|done|done|by rewrite Hcollection].
  split_and!; [done|done|]. apply bind_Ok_inv in Hr as (raw & -> & Hms). destruct (Hres raw eq_refl) as [_ Hraw]. rewrite Hcollection in Hraw.
  apply collect_Ok_iff in Hms.
  assert (forall did doc r value, records s !! did = Some doc -> collection_document_try_from database_collection doc = Ok r ->
    schema_name_to_vec (record_schema r) = Some value ->
    deserialize_mapping by_name (MkMapSerialized (MkHeader did (revision (header doc))) (as_bytes (record_name r)) value) = Ok (record_map r)) as Hdes.
  { intros did doc r value Hdoc Htry Hval. destruct (ro_stored _ HD did doc Hdoc) as (r' & Htry' & Hs & Ha). rewrite Htry in Htry'. injection Htry' as <-.
    eapply mapping_record; try done. simpl. rewrite <- (law_ids _ _ _ _ Hok databases_wf Hdoc). apply header_eta. }
  intros m. split.
  - intros Hm. destruct (Forall2_elem_r _ _ _ _ Hms Hm) as ([[did rev] k value] & Hin & Hd). apply Hraw in Hin as [Hsel Hix].
    destruct (records s !! did) as [doc|] eqn:Hdoc; [|done]. destruct (ro_stored _ HD did doc Hdoc) as (r & Htry & _ & _).
    apply (record_indexed doc r k rev value Htry) in Hix as (-> & -> & Hval). exists did, doc, r. split_and!; [done..|].
    rewrite (Hdes did doc r value Hdoc Htry Hval) in Hd. by injection Hd as <-.
  - intros (did & doc & r & Hdoc & Htry & Hsel & ->). destruct (Hschema (record_schema r)) as (value & Hval & _).
    set (raw_m := MkMapSerialized (MkHeader did (revision (header doc))) (as_bytes (record_name r)) value).
    assert (raw_m ∈ raw) as Hin by (apply Hraw; split; [done|]; rewrite Hdoc; by apply (record_indexed doc r)).
    destruct (Forall2_elem_l _ _ _ _ Hms Hin) as (m & Hm & Hd). unfold raw_m in Hd. rewrite (Hdes did doc r value Hdoc Htry Hval) in Hd.
    by injection Hd as <-.
Qed.

(** ** The names kept in memory *)

(** They are those of the records. *)
Definition synced (d : Data St) : Prop :=
  conn_ok (admin_state d) /\ records_ok (records (admin_state d)) /\
  forall name schema, available_databases d !! name = Some schema <-> recorded (records (admin_state d)) name schema.

Lemma with_folders_id (d : Data St) : with_folders (open_names d) (folders d) d = d.
Proof. by destruct d. Qed.

Lemma admin_run (d : Data St) : exists r o f, admin d = (r, with_folders o f d) /\ (r = Ok tt \/ r = Panic).
Proof.
  unfold admin, open_roots. case_decide; [by exists (Ok tt), (open_names d), (folders d); rewrite with_folders_id; auto|].
  destruct (open_error ADMIN_DATABASE_NAME); [|by eexists (Ok tt), _, _; auto].
  exists Panic, (open_names d), (folders d). rewrite with_folders_id. auto.
Qed.

Lemma record_header a did doc r :
  conn_ok a -> records_ok (records a) -> records a !! did = Some doc -> collection_document_try_from database_collection doc = Ok r ->
  header_try_from (cl_key database_collection) (cd_header r) = Ok (header doc).
Proof.
  intros Hok HD Hdoc Hr. destruct (ro_typed _ HD did ltac:(by rewrite Hdoc)) as (v & Hv & Hbs & Hl).
  assert (document_id_new key_u64 v = Ok did) as Hnew by (by apply document_id_new_Ok).
  unfold collection_document_try_from, collection_header_try_from in Hr. inv_res.
  match goal with Hd : document_id_deserialize _ _ = _ |- _ =>
    rewrite (law_ids _ _ _ _ Hok databases_wf Hdoc) in Hd; cbn [database_collection cl_key] in Hd;
    rewrite (document_id_roundtrip key_u64 v did Hv Hnew) in Hd; injection Hd as <- end.
  unfold header_try_from. cbn [cd_header ch_id ch_revision database_collection cl_key]. rewrite Hnew. simpl.
  by rewrite <- (law_ids _ _ _ _ Hok databases_wf Hdoc), header_eta.
Qed.

Lemma records_insert D did doc r :
  records_ok D -> D !! did = None -> collection_document_try_from database_collection doc = Ok r ->
  is_str (record_name r) = true -> alloc_ok (as_bytes (record_name r)) -> (forall s, ~ recorded D (record_name r) s) ->
  typed_ids database_collection (<[did := doc]> D) ->
  records_ok (<[did := doc]> D) /\
  forall n s, recorded (<[did := doc]> D) n s <-> n = record_name r /\ s = record_schema r \/ recorded D n s.
Proof.
  intros HD Hnone Htry Hs Ha Hfresh Htyped. split; [split; [done| |]|].
  - intros did' doc' [[<- <-]|[_ Hdoc']]%lookup_insert_Some; [by exists r|by eapply ro_stored].
  - intros did1 did2 doc1 doc2 r1 r2 [[<- <-]|[Hne1 H1']]%lookup_insert_Some [[<- <-]|[Hne2 H2']]%lookup_insert_Some Ht1 Ht2 Hn; [done|..].
    + rewrite Htry in Ht1. injection Ht1 as <-. destruct (Hfresh (record_schema r2)). by exists did2, doc2, r2.
    + rewrite Htry in Ht2. injection Ht2 as <-. destruct (Hfresh (record_schema r1)). by exists did1, doc1, r1.
    + by eapply (ro_unique _ HD did1 did2).
  - intros n s. split.
    + intros (did' & doc' & r' & [[<- <-]|[_ Hdoc']]%lookup_insert_Some & Ht & <- & <-); [|right; by exists did', doc', r'].
      rewrite Htry in Ht. injection Ht as <-. by left.
    + intros [[-> ->]|(did' & doc' & r' & Hdoc' & Ht & <- & <-)]; [exists did, doc, r; by rewrite lookup_insert_eq|].
      exists did', doc', r'. rewrite lookup_insert_ne by congruence. done.
Qed.

Lemma record_push name schema a r a' :
  conn_ok a -> records_ok (records a) -> is_str name = true -> alloc_ok (as_bytes name) -> (forall s, ~ recorded (records a) name s) ->
  collection_push database_collection (MkDatabaseRecord name schema) a = (r, a') ->
  conn_ok a' /\
  match r with
  | Ok _ => records_ok (records a') /\
      forall n s, recorded (records a') n s <-> n = name /\ s = schema \/ recorded (records a) n s
  | _ => records a' = records a
  end.
Proof.
  intros Hok HD Hs Ha Hfresh Hrun. unfold collection_push, cl_to_vec in Hrun.
  destruct (cl_serialize database_collection (MkDatabaseRecord name schema)) as [bs|] eqn:Hbs; [|injection Hrun as <- <-; done].
  cbn [ok_or] in Hrun. rewrite (stm_bind_Ok (st_lift (Ok bs)) _ a bs a) in Hrun by done.
  change (conn_insert (cl_name database_collection) (cl_key database_collection) None bs a = (r, a')) in Hrun.
  apply (insert_result conn_ok documents database_collection databases_wf Hgenerator) in Hrun as [Hok1 Hrun]; [|done|by apply ro_typed|done].
  split; [done|]. destruct r as [h|e|]; [|by apply Hrun..].
  destruct Hrun as (did & Hdid & Hwf & _ & Hnone & Hdocs & Hrev). rewrite Hdocs.
  set (rec := MkCollectionDocument (C := database_collection) (MkCollectionHeader (ch_id h) (revision_new bs)) (MkDatabaseRecord name schema)).
  apply (records_insert _ did (document_new did bs) rec); try done; [|].
  - unfold collection_document_try_from, cl_from_slice, document_new, collection_header_try_from. cbn [contents header id revision].
    rewrite (cl_roundtrip _ bs Hbs), (document_id_roundtrip _ _ _ Hwf Hdid). done.
  - intros k Hk. destruct (decide (k = did)) as [->|Hne]; [exists (ch_id h); split; [done|by apply document_id_new_Ok]|].
    rewrite lookup_insert_ne in Hk by done. by apply (ro_typed _ HD).
Qed.

Lemma records_delete D did doc r :
  records_ok D -> D !! did = Some doc -> collection_document_try_from database_collection doc = Ok r ->
  records_ok (delete did D) /\ forall n s, recorded (delete did D) n s <-> n <> record_name r /\ recorded D n s.
Proof.
  intros HD Hdoc Htry. split; [split|].
  - intros k [x [_ Hx]%lookup_delete_Some]. apply (ro_typed _ HD). by rewrite Hx.
  - intros did' doc' [_ Hdoc']%lookup_delete_Some. by eapply ro_stored.
  - intros did1 did2 doc1 doc2 r1 r2 [_ H1']%lookup_delete_Some [_ H2']%lookup_delete_Some. by eapply (ro_unique _ HD).
  - intros n s. split.
    + intros (did' & doc' & r' & [Hne Hdoc']%lookup_delete_Some & Ht & <- & <-). split; [|by exists did', doc', r'].
      intros Hn. apply Hne. by eapply (ro_unique _ HD did did' doc doc' r r').
    + intros (Hne & did' & doc' & r' & Hdoc' & Ht & <- & <-). exists did', doc', r'. rewrite lookup_delete_ne; [done|].
      intros <-. rewrite Hdoc in Hdoc'. injection Hdoc' as <-. rewrite Htry in Ht. by injection Ht as <-.
Qed.

Lemma record_delete a did doc r res' a' :
  conn_ok a -> records_ok (records a) -> records a !! did = Some doc -> collection_document_try_from database_collection doc = Ok r ->
  conn_delete (cl_name database_collection) (header doc) a = (res', a') ->
  conn_ok a' /\ (res' = Ok tt -> records a' = delete did (records a)).
Proof.
  intros Hok HD Hdoc Htry Hrun. unfold conn_delete in Hrun.
  destruct (ll_apply_transaction [op_delete (cl_name database_collection) (header doc)] a) as [r1 a1] eqn:Happly.
  rewrite (stm_bind_run _ _ _ _ _ Happly) in Hrun. apply (apply_one conn_ok documents) in Happly as [Hok1 Hone]; [|done|apply databases_wf].
  destruct r1 as [results|e|]; [|by injection Hrun as <- <-..].
  destruct Hone as (result & M & -> & Hcmd & HM & _). cbn [spec_command] in Hcmd. rewrite (law_ids _ _ _ _ Hok databases_wf Hdoc), Hdoc in Hcmd.
  rewrite decide_True in Hcmd by done. injection Hcmd as <- <-. injection Hrun as <- <-. done.
Qed.

(** ** Creating and deleting databases *)

Lemma name_char_is_char i c : name_char i c = true -> is_char c = true.
Proof.
  intros Hc. unfold name_char, is_ascii_alphanumeric in Hc. unfold is_char.
  rewrite !orb_true_iff, !andb_true_iff, ?orb_true_iff, !Z.leb_le, !Z.eqb_eq in *. lia.
Qed.
Lemma validate_name_str name : validate_name name = Ok tt -> is_str name = true.
Proof.
  unfold validate_name. destruct (forallb _ _) eqn:Hall; [|done]. intros _. apply is_str_forall, List.Forall_forall. intros c Hc%list_elem_of_In.
  apply list_elem_of_lookup in Hc as [i Hi]. rewrite forallb_forall in Hall.
  assert ((i, c) ∈ imap pair name) as Hin by (apply list_elem_of_lookup; exists i; by rewrite list_lookup_imap, Hi).
  by eapply name_char_is_char, (Hall (i, c)), list_elem_of_In.
Qed.

Lemma is_ascii_alphanumeric_spec c : is_ascii_alphanumeric c = true <-> letter_or_digit c.
Proof. unfold is_ascii_alphanumeric, letter_or_digit. rewrite !orb_true_iff, !andb_true_iff, !Z.leb_le. lia. Qed.
Lemma name_char_first c : name_char 0 c = true <-> letter_or_digit c \/ c = 95.
Proof. unfold name_char. rewrite !orb_true_iff, is_ascii_alphanumeric_spec. simpl. rewrite Z.eqb_eq. intuition congruence. Qed.
Lemma name_char_later i c : name_char (S i) c = true <-> letter_or_digit c \/ c = 46 \/ c = 45.
Proof. unfold name_char. rewrite !orb_true_iff, is_ascii_alphanumeric_spec. simpl. rewrite orb_true_iff, !Z.eqb_eq. intuition congruence. Qed.
Lemma name_chars_later i name : forallb (fun p => name_char p.1 p.2) (imap (fun j c => (S (j + i), c)) name) = true <-> later_chars name.
Proof.
  revert i. induction name as [|c name IH]; intros i; [by split; [constructor|]|].
  rewrite imap_cons. cbn [forallb fst snd]. rewrite andb_true_iff, name_char_later. unfold later_chars. rewrite Forall_cons.
  rewrite (imap_ext _ (fun j c => (S (j + S i), c))), IH; [done|]. intros j x _. simpl. do 2 f_equal. lia.
Qed.
(** The code accepts exactly these names. *)
Lemma validate_name_spec name :
  validate_name name = if decide (accepted_name name) then Ok tt else Err (InvalidDatabaseName name).
Proof.
  unfold validate_name. assert (forallb (fun p => name_char p.1 p.2) (imap pair name) = true <-> accepted_name name) as Hiff.
  { destruct name as [|c name]; [by split; [right|]|]. rewrite imap_cons. cbn [forallb fst snd].
    rewrite andb_true_iff, name_char_first. rewrite (imap_ext _ (fun j c => (S (j + 0), c))), (name_chars_later 0).
    2: { intros j x _. simpl. do 2 f_equal. lia. }
    unfold accepted_name, documented_name. tauto. }
  case_decide as Ha; destruct (forallb _ _); naive_solver.
Qed.

Lemma not_available d name : synced d -> available_databases d !! name = None -> forall s, ~ recorded (records (admin_state d)) name s.
Proof. intros (_ & _ & Hav) Hn s Hr. apply Hav in Hr. congruence. Qed.

(** The administration database changed, but not its records. *)
Lemma synced_same d d' :
  synced d -> conn_ok (admin_state d') -> records (admin_state d') = records (admin_state d) ->
  available_databases d' = available_databases d -> synced d'.
Proof. intros (_ & HD & Hav) Hok Hrec Heq. unfold synced. rewrite Hrec, Heq. done. Qed.

(** C7: creating a database is insertion in the map of names to schemas: it
    succeeds exactly when the specification does, unless the administration
    database fails; its errors are those of the specification; and the names
    kept in memory remain those of the records, also when it fails.  The
    specification refuses a name that is not accepted, then a schema that is not
    registered, then a name that is taken unless the database is only wanted if
    needed.  Accepted are the names the documentation allows (a letter or digit,
    then letters, digits, periods and hyphens) and two kinds it does not: the
    empty name, and names that begin with an underscore. *)
Theorem create_database_refines name schema only_if_needed d r d' :
  synced d -> alloc_ok (as_bytes name) -> inst_create_database_with_schema name schema only_if_needed d = (r, d') ->
  synced d' /\
  match r with
  | Ok _ => spec_create_database (schemas d) name schema only_if_needed (available_databases d) = Ok (available_databases d')
  | Err (StorageCore _) | Panic => available_databases d' = available_databases d
  | Err e => available_databases d' = available_databases d /\
      spec_create_database (schemas d) name schema only_if_needed (available_databases d) = Err e
  end.
Proof.
  intros Hsync Ha Hrun. unfold inst_create_database_with_schema in Hrun. unfold spec_create_database.
  destruct (decide (~ accepted_name name)) as [Hbad|Hgood].
  { rewrite validate_name_spec, decide_False in Hrun by done. by injection Hrun as <- <-. }
  assert (validate_name name = Ok tt) as Hval by (rewrite validate_name_spec, decide_True; [done|by apply dec_stable]).
  rewrite Hval in Hrun.
  rewrite (stm_bind_Ok (st_lift (Ok tt)) _ d tt d), (stm_bind_Ok st_get _ d d d) in Hrun by done. cbn [mbind res_bind].
  case_decide as Hs; [by injection Hrun as <- <-|].
  destruct (admin_run d) as (r1 & o & f & Hadmin & Hr1). rewrite (stm_bind_run _ _ _ _ _ Hadmin) in Hrun.
  destruct Hr1 as [->| ->]; [|injection Hrun as <- <-; by split; [destruct d|]].
  case_decide as Hn; last first.
  { destruct only_if_needed; injection Hrun as <- <-; (split; [by destruct d|]); done. }
  pose proof Hsync as (Hok & HD & Hav). set (d1 := with_folders o f d) in *.
  destruct (collection_push database_collection (MkDatabaseRecord name schema) (admin_state d1)) as [r2 a2] eqn:Hpush.
  assert (in_admin (collection_push database_collection (MkDatabaseRecord name schema)) d1 = (map_err StorageCore r2, with_admin a2 d1)) as Hin
    by (unfold in_admin; by rewrite Hpush).
  rewrite (stm_bind_run _ _ _ _ _ Hin) in Hrun.
  apply record_push in Hpush as [Hok2 Hpush]; [|done|done|by apply validate_name_str|done|by eapply (not_available d)].
  destruct r2 as [h|e|]; simpl in Hrun; injection Hrun as <- <-.
  - destruct Hpush as [HD2 Hrec]. split; [|done]. split_and!; [done|done|]. intros n s. cbn. rewrite Hrec, lookup_insert_Some, Hav.
    split; [naive_solver|]. intros [[-> ->]|Hr]; [by left|]. right. split; [|done]. intros <-. apply Hav in Hr. congruence.
  - split; [|done]. apply (synced_same d); done.
  - split; [|done]. apply (synced_same d); done.
Qed.

Lemma in_admin_run {A} (m : stm St CoreError A) (d : Data St) r a :
  m (admin_state d) = (r, a) -> in_admin m d = (map_err StorageCore r, with_admin a d).
Proof. intros Hm. unfold in_admin. by rewrite Hm. Qed.

(** The part of [delete_database] after the directory is gone. *)
Definition delete_record (name : str) : stm (Data St) StorageError unit :=
  ms ← in_admin (view_query by_name (with_key (K := k_type (vt_key by_name)) name view_new));
  match ms with
  | entry :: _ =>
      h ← st_lift (map_err StorageCore (header_try_from (cl_key database_collection) (cm_source entry)));
      in_admin (conn_delete (cl_name database_collection) h)
  | [] => st_lift (Err (DatabaseNotFound name))
  end.

Lemma delete_record_result name d r d' :
  conn_ok (admin_state d) -> records_ok (records (admin_state d)) -> is_str name = true -> delete_record name d = (r, d') ->
  (exists a, d' = with_admin a d) /\
  match r with
  | Ok _ => conn_ok (admin_state d') /\ records_ok (records (admin_state d')) /\ (exists s, recorded (records (admin_state d)) name s) /\
      forall n s, recorded (records (admin_state d')) n s <-> n <> name /\ recorded (records (admin_state d)) n s
  | Err (DatabaseNotFound n) => n = name /\ conn_ok (admin_state d') /\ records (admin_state d') = records (admin_state d) /\
      forall s, ~ recorded (records (admin_state d)) name s
  | _ => True
  end.
Proof.
  intros Hok HD Hs Hrun. unfold delete_record in Hrun.
  destruct (view_query by_name (with_key (K := k_type (vt_key by_name)) name view_new) (admin_state d)) as [r1 a1] eqn:Hq.
  rewrite (stm_bind_run _ _ _ _ _ (in_admin_run _ _ _ _ Hq)) in Hrun.
  destruct r1 as [ms|e|]; cbn [map_err] in Hrun; [|injection Hrun as <- <-; split; [by eexists|]; by destruct e|by injection Hrun as <- <-; eauto].
  apply (records_query _ (Some (Matches (as_bytes name)))) in Hq as (Hok1 & Hsame & Hms); [|done..].
  assert (records a1 = records (admin_state d)) as Hrec by (apply Hsame, databases_wf).
  assert (forall did doc r', records (admin_state d) !! did = Some doc -> collection_document_try_from database_collection doc = Ok r' ->
    key_selected (Some (Matches (as_bytes name))) (as_bytes (record_name r')) <-> record_name r' = name) as Hsel.
  { intros did doc r' Hdoc Htry. destruct (ro_stored _ HD did doc Hdoc) as (r'' & Htry' & Hs' & _). rewrite Htry in Htry'. injection Htry' as <-.
    simpl. split; [|by intros ->]. intros Heq. by apply as_bytes_inj. }
  destruct ms as [|entry ms].
  - injection Hrun as <- <-. split; [by eexists|]. split_and!; [done|done|done|]. intros s (did & doc & r' & Hdoc & Htry & Hn & _).
    destruct ((fun e => not_elem_of_nil (record_map r') (proj2 (Hms (record_map r')) e))). exists did, doc, r'. split_and!; [done..| |done].
    by eapply Hsel.
  - destruct (proj1 (Hms entry) ltac:(left)) as (did & doc & r' & Hdoc & Htry & Hn & ->). apply (Hsel did doc r' Hdoc Htry) in Hn.
    rewrite <- Hrec in Hdoc, HD. pose proof (record_header a1 did doc r' Hok1 HD Hdoc Htry) as Hh.
    erewrite stm_bind_Ok in Hrun; [|unfold st_lift; change (cm_source (record_map r')) with (cd_header r'); by rewrite Hh].
    destruct (conn_delete (cl_name database_collection) (header doc) (admin_state (with_admin a1 d))) as [r2 a2] eqn:Hdel.
    change (in_admin (conn_delete (cl_name database_collection) (header doc)) (with_admin a1 d) = (r, d')) in Hrun.
    rewrite (in_admin_run _ _ _ _ Hdel) in Hrun. injection Hrun as <- <-. split; [by exists a2|].
    apply (record_delete a1 did doc r') in Hdel as [Hok2 Hdel]; [|done..]. destruct r2 as [[]|e|]; cbn [map_err]; [|done..].
    cbn [with_admin admin_state]. rewrite (Hdel eq_refl). destruct (records_delete _ did doc r' HD Hdoc Htry) as [HD2 Hrec2].
    rewrite Hrec in *. split_and!; [done|done| |by rewrite <- Hn].
    exists (record_schema r'), did, doc, r'. done.
Qed.

(** C8: deleting a database whose name is neither empty nor that of the
    administration database is deletion in the map of names to schemas, and its
    directory is gone: it succeeds exactly when the name is there, unless the
    file system or the administration database fails.  If one of them fails, the
    name is gone from memory although its record may remain.  For the empty name
    this does not hold: its directory is that of the whole storage. *)
Theorem delete_database_refines name d r d' :
  synced d -> is_str name = true -> name <> [] -> name <> ADMIN_DATABASE_NAME -> inst_delete_database name d = (r, d') ->
  match r with
  | Ok _ => synced d' /\ spec_delete_database name (available_databases d) = Ok (available_databases d') /\
      name ∉ folders d' /\ name ∉ open_names d'
  | Err (DatabaseNotFound n) => synced d' /\ spec_delete_database name (available_databases d) = Err (DatabaseNotFound n) /\
      available_databases d' = available_databases d /\ name ∉ folders d' /\ name ∉ open_names d'
  | Err _ => available_databases d' = delete name (available_databases d)
  | Panic => True
  end.
Proof.
  intros (Hok & HD & Hav) Hs Hne _ Hrun. unfold inst_delete_database in Hrun.
  destruct (admin_run d) as (r1 & o & f & Hadmin & Hr1). rewrite (stm_bind_run _ _ _ _ _ Hadmin) in Hrun.
  destruct Hr1 as [->| ->]; [|by injection Hrun as <- <-].
  set (d0 := with_available (delete name (available_databases d)) (with_folders o f d)). set (d1 := with_folders (o ∖ {[name]}) f d0).
  rewrite (stm_bind_Ok (st_modify _) _ (with_folders o f d) tt d0), (stm_bind_Ok (st_modify _) _ d0 tt d1), (stm_bind_Ok st_get _ d1 d1 d1) in Hrun by done.
  set (gone := if folder_exists name d1 then _ else _) in Hrun. change ((gone ≫= fun _ => delete_record name) d1 = (r, d')) in Hrun.
  assert ((exists e, gone d1 = (Err (StorageCore e), d1)) \/
          exists f', gone d1 = (Ok tt, with_folders (open_names d1) f' d1) /\ name ∉ f') as [(e & Hgone)|(f' & Hgone & Hnot)].
  { unfold gone, folder_exists. case_bool_decide as Hex.
    - destruct (delete_error name) as [e|]; [left; by eexists|]. right. exists (without_folder name (folders d1)). split; [done|].
      unfold without_folder. rewrite decide_False by done. set_solver.
    - right. exists (folders d1). rewrite with_folders_id. split; [done|]. naive_solver. }
  { rewrite (stm_bind_Err _ _ _ _ _ Hgone) in Hrun. by injection Hrun as <- <-. }
  rewrite (stm_bind_Ok _ _ _ _ _ Hgone) in Hrun. apply delete_record_result in Hrun as [(a & ->) Hres]; [|done..].
  assert (name ∉ open_names d1) by (cbn; set_solver).
  unfold spec_delete_database. destruct r as [[]|[e|[]]|]; try done.
  - destruct Hres as (Hok' & HD' & (s & Hex) & Hrec). split; [split_and!; [done|done|]|split_and!; [|done|done]].
    + intros n s'. rewrite Hrec. cbn [with_admin with_folders with_available available_databases d0 d1].
      rewrite lookup_delete_Some, Hav. naive_solver.
    + rewrite decide_False; [done|]. apply Hav in Hex. congruence.
  - destruct Hres as (-> & Hok' & Hsame & Hnone).
    assert (available_databases d !! name = None) as Hn.
    { destruct (available_databases d !! name) eqn:E; [|done]. apply Hav in E. by destruct (Hnone _ E). }
    assert (delete name (available_databases d) = available_databases d) as Hdel by (by apply delete_id).
    split; [by apply (synced_same d)|]. split_and!; [by rewrite decide_True|done|done|done].
Qed.

(** Opening a storage reads the names of its databases: whatever was kept
    in memory, it is what the records say afterwards. *)
Theorem cache_restores d d' :
  conn_ok (admin_state d) -> records_ok (records (admin_state d)) -> cache_available_databases d = (Ok tt, d') -> synced d'.
Proof.
  intros Hok HD Hrun. unfold cache_available_databases in Hrun.
  destruct (admin_run d) as (r1 & o & f & Hadmin & Hr1). rewrite (stm_bind_run _ _ _ _ _ Hadmin) in Hrun.
  destruct Hr1 as [->| ->]; [|done]. apply stm_bind_Ok_inv in Hrun as (ms & d2 & Hq & [= <-]). unfold in_admin in Hq.
  destruct (view_query by_name view_new (admin_state (with_folders o f d))) as [r1 a1] eqn:Hv. injection Hq as Hr <-. apply map_err_Ok_inv in Hr as ->.
  apply (records_query None None Ascending) in Hv as (Hok1 & Hsame & Hms); [|done..].
  assert (records a1 = records (admin_state d)) as Hrec by (apply Hsame, databases_wf).
  split_and!; cbn [with_available with_admin admin_state available_databases]; [done|by rewrite Hrec|]. rewrite Hrec. intros name schema.
  set (l := reverse _).
  assert (forall n s, (n, s) ∈ l <-> recorded (records (admin_state d)) n s) as Hl.
  { intros n s. unfold l. rewrite elem_of_reverse, list_elem_of_fmap. split.
    - intros (m & [= -> ->] & Hm). apply Hms in Hm as (did & doc & r & Hdoc & Htry & _ & ->). by exists did, doc, r.
    - intros (did & doc & r & Hdoc & Htry & <- & <-). exists (record_map r). split; [done|]. apply Hms. by exists did, doc, r. }
  rewrite <- Hl. symmetry. apply elem_of_list_to_map'. intros s' Hs Hs'. apply Hl in Hs as (did & doc & r & ? & ? & Hn & <-), Hs' as (did' & doc' & r' & ? & ? & Hn' & <-).
  assert (did = did') as <- by (eapply (ro_unique _ HD); [done..|]; congruence). congruence.
Qed.
End Databases.
