(* ===== verification/PubSub.v ===== *)
(** * Publish/subscribe

    [bonsaidb-core/src/pubsub.rs], [bonsaidb-local/src/database/pubsub.rs] and
    [storage/pubsub.rs]: subscribers of a database, the topics of databases in
    the one relay of a storage, and what a receiver makes of a message.  The
    relay is that of the crate [circulate]: a class of operations with their
    documented behaviour. *)

From Stdlib Require Import ZArith Lia String.
From stdpp Require Import base list option numbers gmap sets.
From S2P Require Import Prelude Bytes Utf8 Digits Timestamp Key KeyLaws Range Time Nebari Document Names Schema Permissions View Query Transaction Vault StoreDemo Connection Admin Storage StorageRegistry.

Local Open Scope Z_scope.

(** ** The relay *)

(** A message is a topic and a payload. *)
Class Relay (R : Type) := {
  relay_create_subscriber : R -> Z * R;
  subscribe_to_raw : Z -> bytes -> R -> R;
  unsubscribe_from_raw : Z -> bytes -> R -> R;
  publish_raw : bytes -> bytes -> R -> R;
  publish_raw_to_all : list bytes -> bytes -> R -> R;
  subscribed : R -> Z -> bytes -> bool;
  queued : R -> Z -> list (bytes * bytes)
}.
(** A message is queued once for every subscriber of its topic. *)
Class RelayLaws `{Relay R} : Prop := {
  create_subscribed r s t : subscribed (relay_create_subscriber r).2 s t = (if decide (s = (relay_create_subscriber r).1) then false else subscribed r s t);
  create_queued r s : queued (relay_create_subscriber r).2 s = (if decide (s = (relay_create_subscriber r).1) then [] else queued r s);
  subscribe_subscribed r s t s' t' :
    subscribed (subscribe_to_raw s t r) s' t' = if decide (s' = s /\ t' = t) then true else subscribed r s' t';
  subscribe_queued r s t s' : queued (subscribe_to_raw s t r) s' = queued r s';
  unsubscribe_subscribed r s t s' t' :
    subscribed (unsubscribe_from_raw s t r) s' t' = if decide (s' = s /\ t' = t) then false else subscribed r s' t';
  unsubscribe_queued r s t s' : queued (unsubscribe_from_raw s t r) s' = queued r s';
  publish_subscribed r t p s t' : subscribed (publish_raw t p r) s t' = subscribed r s t';
  publish_queued r t p s : queued (publish_raw t p r) s = queued r s ++ (if subscribed r s t then [(t, p)] else []);
  publish_all_subscribed r ts p s t' : subscribed (publish_raw_to_all ts p r) s t' = subscribed r s t';
  publish_all_queued r ts p s : queued (publish_raw_to_all ts p r) s =
    queued r s ++ ((fun t => (t, p)) <$> filter (fun t => subscribed r s t = true) ts)
}.

(** ** Topics *)

Definition database_topic (database : str) (topic : bytes) : bytes := as_bytes database ++ 0 :: topic.

(** [iter().position(|b| b == 0)]. *)
Fixpoint null_position (bs : bytes) : option nat :=
  match bs with
  | [] => None
  | b :: bs => if b =? 0 then Some O else S <$> null_position bs
  end.
Definition remove_database_prefix (strip_database : bool) (message : bytes * bytes) : bytes * bytes :=
  if strip_database then
    match null_position message.1 with
    | Some database_length => (drop (S database_length) message.1, message.2)
    | None => message
    end
  else message.

Section PubSub.
Context `{Nebari} `{Actionable} `{!AdminFormats} `{Profile} {St : Type} `{!LowLevelConnection St} {R : Type} `{!Relay R}.
Abbreviation pubsubm := (stm (Data St * R) StorageError).

Record Subscriber := MkSubscriber { sub_id : Z; sub_database : OpenDatabase; sub_subscriber : Z }.

Definition on_data {A} (m : stm (Data St) StorageError A) : pubsubm A := fun s => let '(r, d) := m s.1 in (r, (d, s.2)).
Definition check_pubsub (db : OpenDatabase) (resource : list Identifier) (a : PubSubAction) : res StorageError unit :=
  map_err (fun e => StorageCore (CoreDenied e)) (check_permission (od_session db) resource (DatabaseAct (PubSubAct a))).

Definition create_subscriber (db : OpenDatabase) : pubsubm Subscriber :=
  _ ← st_lift (check_pubsub db (database_resource_name (od_name db)) CreateSuscriber);
  '(_, r) ← st_get;
  let '(subscriber, r) := relay_create_subscriber r in
  _ ← st_modify (fun s => (s.1, r));
  id ← on_data (register_subscriber (od_session db ≫= session_id));
  mret (MkSubscriber id db subscriber).
(** [Drop for Subscriber]. *)
Definition drop_subscriber (sub : Subscriber) (s : Data St * R) : Data St * R :=
  (with_subscribers (unregister (sub_id sub) (session_subscribers s.1)) s.1, s.2).

Definition publish_bytes (db : OpenDatabase) (topic payload : bytes) : pubsubm unit :=
  _ ← st_lift (check_pubsub db (pubsub_topic_resource_name (od_name db) topic) Publish);
  st_modify (fun s => (s.1, publish_raw (database_topic (od_name db) topic) payload s.2)).
Definition publish_bytes_to_all (db : OpenDatabase) (topics : list bytes) (payload : bytes) : pubsubm unit :=
  topics ← st_lift (collect (fun topic =>
    _ ← check_pubsub db (pubsub_topic_resource_name (od_name db) topic) Publish; Ok (database_topic (od_name db) topic)) topics);
  st_modify (fun s => (s.1, publish_raw_to_all topics payload s.2)).
Definition subscribe_to_bytes (sub : Subscriber) (topic : bytes) : pubsubm unit :=
  let db := sub_database sub in
  _ ← st_lift (check_pubsub db (pubsub_topic_resource_name (od_name db) topic) SubscribeTo);
  st_modify (fun s => (s.1, subscribe_to_raw (sub_subscriber sub) (database_topic (od_name db) topic) s.2)).
Definition unsubscribe_from_bytes (sub : Subscriber) (topic : bytes) : pubsubm unit :=
  let db := sub_database sub in
  _ ← st_lift (check_pubsub db (pubsub_topic_resource_name (od_name db) topic) UnsubscribeFrom);
  st_modify (fun s => (s.1, unsubscribe_from_raw (sub_subscriber sub) (database_topic (od_name db) topic) s.2)).

(** What the receiver of a subscriber will return. *)
Definition messages (sub : Subscriber) (r : R) : list (bytes * bytes) := remove_database_prefix true <$> queued r (sub_subscriber sub).
Definition listens (sub : Subscriber) (topic : bytes) (r : R) : bool :=
  subscribed r (sub_subscriber sub) (database_topic (od_name (sub_database sub)) topic).

(** ** Topics of different databases *)

Definition null_free_name (name : str) : Prop := is_str name = true /\ 0 ∉ as_bytes name.

Lemma null_position_app a b : 0 ∉ a -> null_position (a ++ 0 :: b) = Some (length a).
Proof.
  induction a as [|x a IH]; intros Ha; [done|]. apply not_elem_of_cons in Ha as [Hx Ha]. cbn. destruct (Z.eqb_spec x 0); [done|]. by rewrite IH.
Qed.
Lemma strip_topic name topic payload :
  null_free_name name -> remove_database_prefix true (database_topic name topic, payload) = (topic, payload).
Proof.
  intros [_ Hn]. unfold remove_database_prefix, database_topic. cbn [fst snd]. rewrite null_position_app by done.
  f_equal. replace (S (length (as_bytes name))) with (length (as_bytes name ++ [0])) by (rewrite length_app; simpl; lia).
  by rewrite (app_assoc _ [0] topic), drop_app_length.
Qed.
Lemma database_topic_inj n1 n2 t1 t2 :
  null_free_name n1 -> null_free_name n2 -> database_topic n1 t1 = database_topic n2 t2 -> n1 = n2 /\ t1 = t2.
Proof.
  intros [Hs1 H1'] [Hs2 H2'] Heq. assert (length (as_bytes n1) = length (as_bytes n2)) as Hl.
  { apply (f_equal null_position) in Heq. unfold database_topic in Heq. rewrite !null_position_app in Heq by done. congruence. }
  unfold database_topic in Heq. apply app_inj_1 in Heq as [Hn [= ->]]; [|done]. split; [by apply as_bytes_inj|done].
Qed.

Context `{!RelayLaws}.

(** C37: A message published to a topic of a database is received exactly by the
    subscribers of that topic of that database, once, with the topic it was
    published to; the subscribers of other databases do not see it. *)
Theorem published_received db sub topic payload s s' :
  null_free_name (od_name db) -> null_free_name (od_name (sub_database sub)) ->
  (forall t, subscribed s.2 (sub_subscriber sub) t = true -> exists topic', t = database_topic (od_name (sub_database sub)) topic') ->
  publish_bytes db topic payload s = (Ok tt, s') ->
  messages sub s'.2 = messages sub s.2 ++
    (if decide (od_name db = od_name (sub_database sub) /\ listens sub topic s.2 = true) then [(topic, payload)] else []).
Proof.
  intros Hdb Hsub Hown Hrun. unfold publish_bytes in Hrun. apply stm_bind_Ok_inv in Hrun as ([] & s1 & Hc & Hrun). unfold st_lift in Hc.
  injection Hc as _ <-. injection Hrun as <-. unfold messages. cbn [fst snd]. rewrite publish_queued, fmap_app. f_equal. unfold listens.
  destruct (subscribed s.2 (sub_subscriber sub) (database_topic (od_name db) topic)) eqn:Hs.
  - destruct (Hown _ Hs) as [topic' Heq]. apply database_topic_inj in Heq as [Hn ->]; [|done..]. rewrite decide_True by (by rewrite <- Hn).
    change ([remove_database_prefix true (database_topic (od_name db) topic', payload)] = [(topic', payload)]). by rewrite strip_topic.
  - rewrite decide_False; [done|]. intros [Hn Hl]. rewrite Hn in Hs. congruence.
Qed.

(** Subscribers subscribe only to topics of their own database. *)
Lemma subscribe_own sub topic s s' :
  subscribe_to_bytes sub topic s = (Ok tt, s') ->
  (forall t, subscribed s.2 (sub_subscriber sub) t = true -> exists topic', t = database_topic (od_name (sub_database sub)) topic') ->
  listens sub topic s'.2 = true /\
  (forall t, subscribed s'.2 (sub_subscriber sub) t = true -> exists topic', t = database_topic (od_name (sub_database sub)) topic').
Proof.
  intros Hrun Hown. unfold subscribe_to_bytes in Hrun. apply stm_bind_Ok_inv in Hrun as ([] & s1 & Hc & Hrun). unfold st_lift in Hc.
  injection Hc as _ <-. injection Hrun as <-. unfold listens. cbn [fst snd]. rewrite subscribe_subscribed, decide_True by done. split; [done|].
  intros t. rewrite subscribe_subscribed. case_decide as Hd; [destruct Hd as [_ ->]; eauto|apply Hown].
Qed.

(** Publishing to several topics is all or nothing: if one of them is
    denied, nothing is published. *)
Theorem publish_to_all_denied db topics payload topic s r s' :
  topic ∈ topics -> check_permission (od_session db) (pubsub_topic_resource_name (od_name db) topic) (DatabaseAct (PubSubAct Publish)) <> Ok tt ->
  publish_bytes_to_all db topics payload s = (r, s') -> s' = s /\ is_ok r = false.
Proof.
  intros Hin Hdeny Hrun. unfold publish_bytes_to_all in Hrun.
  assert (forall l, topic ∈ l -> is_ok (collect (fun topic => _ ← check_pubsub db (pubsub_topic_resource_name (od_name db) topic) Publish;
    Ok (database_topic (od_name db) topic)) l) = false) as Hfail.
  { clear Hin Hrun. induction l as [|t l IH]; intros Hin; [by apply not_elem_of_nil in Hin|]. cbn [collect].
    apply elem_of_cons in Hin as [<-|Hin].
    - unfold check_pubsub. destruct (check_permission _ _ _) as [[]|e|]; done.
    - destruct (check_pubsub db _ Publish); [|done..]. cbn [mbind res_bind].
      specialize (IH Hin). destruct (collect _ l); done. }
  specialize (Hfail topics Hin). destruct (collect _ topics); [done|..]; by injection Hrun as <- <-.
Qed.

(** ** Ids of subscribers *)

Lemma wrapping_succ x : 0 <= x < 2 ^ 64 -> wrapping_add u64 x 1 = (x + 1) `mod` 2 ^ 64.
Proof. intros Hx. unfold wrapping_add, wrap. simpl. done. Qed.

(** The ids that are tried are those after the last one. *)
Lemma vacant_id_tried fuel (m : gmap Z (option Z)) last :
  0 <= last < 2 ^ 64 ->
  match vacant_id fuel m last with
  | Some id => m !! id = None /\ 0 <= id < 2 ^ 64
  | None => forall i, 1 <= i <= Z.of_nat fuel -> is_Some (m !! ((last + i) `mod` 2 ^ 64))
  end.
Proof.
  revert last. induction fuel as [|fuel IH]; intros last Hl; cbn [vacant_id]; [intros i Hi; lia|]. rewrite wrapping_succ by done.
  pose proof (Z.mod_pos_bound (last + 1) (2 ^ 64) ltac:(lia)) as Hb. case_decide as Hv; [done|]. specialize (IH _ Hb).
  destruct (vacant_id fuel m _); [done|]. intros i Hi. destruct (decide (i = 1)) as [->|]; [destruct (m !! _); [by eexists|done]|].
  specialize (IH (i - 1) ltac:(lia)). rewrite Zplus_mod_idemp_l in IH. by replace (last + 1 + (i - 1)) with (last + i) in IH by lia.
Qed.

Lemma mod_inj_range a i j n : 0 < n -> 0 < i <= n -> 0 < j <= n -> (a + i) `mod` n = (a + j) `mod` n -> i = j.
Proof.
  intros Hn Hi Hj Heq. pose proof (Z.div_mod (a + i) n ltac:(lia)). pose proof (Z.div_mod (a + j) n ltac:(lia)).
  assert (n * ((a + i) / n - (a + j) / n) = i - j) as Hd by lia.
  assert ((a + i) / n - (a + j) / n = 0) by nia. lia.
Qed.

(** Registering a subscriber ends: while fewer than 2^64 are registered,
    an id that no subscriber has is found within one attempt more than there are
    subscribers, also after the counter has wrapped around. *)
Theorem subscriber_id_found (m : gmap Z (option Z)) last :
  0 <= last < 2 ^ 64 -> Z.of_nat (size m) < 2 ^ 64 -> exists id, vacant_id (S (size m)) m last = Some id /\ m !! id = None.
Proof.
  intros Hl Hsize. pose proof (vacant_id_tried (S (size m)) m last Hl) as Ht. destruct (vacant_id (S (size m)) m last) as [id|]; [by exists id; destruct Ht|].
  exfalso. set (tried := (fun i => (last + Z.of_nat i) `mod` 2 ^ 64) <$> seq 1 (S (size m))).
  assert (NoDup tried) as Hnd.
  { apply NoDup_fmap_2_strong; [|apply NoDup_seq]. intros i j Hi%elem_of_seq Hj%elem_of_seq Heq.
    apply mod_inj_range in Heq; lia. }
  assert (list_to_set tried ⊆ dom m) as Hsub.
  { intros x Hx%elem_of_list_to_set. apply list_elem_of_fmap in Hx as (i & -> & Hi%elem_of_seq). apply elem_of_dom, Ht. lia. }
  apply subseteq_size in Hsub. rewrite size_list_to_set in Hsub by done. rewrite size_dom in Hsub. unfold tried in Hsub.
  rewrite length_fmap, length_seq in Hsub. lia.
Qed.
End PubSub.

(** ** Examples *)

Module PubSubExamples.
Import MemNebari StoreDemo.
#[local] Instance debug : Profile := true.

Record FunRelay := MkFunRelay { fr_next : Z; fr_subscribed : Z -> bytes -> bool; fr_queued : Z -> list (bytes * bytes) }.
#[local] Instance fun_relay : Relay FunRelay := {|
  relay_create_subscriber r := (fr_next r, MkFunRelay (fr_next r + 1)
    (fun s t => if decide (s = fr_next r) then false else fr_subscribed r s t) (fun s => if decide (s = fr_next r) then [] else fr_queued r s));
  subscribe_to_raw s t r := MkFunRelay (fr_next r) (fun s' t' => if decide (s' = s /\ t' = t) then true else fr_subscribed r s' t') (fr_queued r);
  unsubscribe_from_raw s t r := MkFunRelay (fr_next r) (fun s' t' => if decide (s' = s /\ t' = t) then false else fr_subscribed r s' t') (fr_queued r);
  publish_raw t p r := MkFunRelay (fr_next r) (fr_subscribed r) (fun s => fr_queued r s ++ (if fr_subscribed r s t then [(t, p)] else []));
  publish_raw_to_all ts p r := MkFunRelay (fr_next r) (fr_subscribed r)
    (fun s => fr_queued r s ++ ((fun t => (t, p)) <$> filter (fun t => fr_subscribed r s t = true) ts));
  subscribed := fr_subscribed; queued := fr_queued |}.
#[local] Instance fun_relay_laws : RelayLaws.
Proof. by split. Qed.

Definition empty_relay : FunRelay := MkFunRelay 0 (fun _ _ => false) (fun _ => []).
Definition alice : OpenDatabase := MkOpenDatabase (lit "a") notes None.
Definition bob : OpenDatabase := MkOpenDatabase (lit "b") notes None.
Definition storage_data : Data unit := initial_data tt ∅ ∅ permissions_default.
Definition listener : Subscriber := MkSubscriber 1 alice 0.
Definition listening : Data unit * FunRelay := (subscribe_to_bytes listener [5] (storage_data, empty_relay)).2.

Lemma listening_own t : subscribed listening.2 0 t = true -> exists topic', t = database_topic (lit "a") topic'.
Proof.
  change (subscribed listening.2 0 t) with (if decide (0 = 0 /\ t = database_topic (lit "a") [5]) then true else false).
  case_decide as Hd; [|done]. intros _. destruct Hd as [_ ->]. by eexists. Qed.
Lemma names_null_free : null_free_name (lit "a") /\ null_free_name (lit "b").
Proof. split; (split; [done|]); [change (0 ∉ [97])|change (0 ∉ [98])]; by rewrite list_elem_of_singleton. Qed.

Definition published := publish_bytes alice [5] [9] listening.
Lemma published_runs : published = (Ok tt, published.2).
Proof. reflexivity. Qed.
Lemma published_received_witness : messages listener published.2.2 = [([5], [9])].
Proof.
  rewrite (published_received alice listener [5] [9] listening published.2 (proj1 names_null_free) (proj1 names_null_free) listening_own published_runs).
  reflexivity.
Defined.

Definition one_subscriber : gmap Z (option Z) := {[ 0 := None ]}.
Lemma subscriber_id_found_witness :
  exists id, vacant_id (S (size one_subscriber)) one_subscriber (2 ^ 64 - 1) = Some id /\ one_subscriber !! id = None.
Proof. apply (subscriber_id_found one_subscriber (2 ^ 64 - 1)); [lia|vm_compute; reflexivity]. Defined.

Definition silenced : OpenDatabase := MkOpenDatabase (lit "a") notes (session_without (DatabaseAct (PubSubAct Publish))).
Definition refused := publish_bytes_to_all silenced [[5]; [6]] [9] listening.
Lemma refused_runs : refused = (refused.1, refused.2).
Proof. reflexivity. Qed.
Lemma publish_to_all_denied_witness : refused.2 = listening.
Proof.
  exact (proj1 (publish_to_all_denied silenced [[5]; [6]] [9] [6] listening refused.1 refused.2 ltac:(right; left) ltac:(discriminate) refused_runs)).
Defined.
End PubSubExamples.
