(* ===== verification/StorageSessions.v ===== *)
(** * Sessions of a storage

    What the operations of a storage do to the sessions that are authenticated
    and registered: ids are not reused, a challenge is answered once, and no
    session is ever closed by dropping the storages that hold it.  What a token
    or a password has to be, and what a database opened through a session may
    do. *)

From Stdlib Require Import ZArith Lia String.
From stdpp Require Import base list option numbers gmap sets.
From S2P Require Import Prelude Bytes Utf8 Digits Timestamp Key KeyLaws Time Nebari Document Names Changes Schema Permissions View Query Integrity Jobs Transaction Tasks StoreDemo ViewBatch TransactionLaws TransactionSpec QueryLaws TasksLaws TasksTheorems Vault Connection ConnectionTheorems Admin AdminTheorems Storage StorageRegistry.

Local Open Scope Z_scope.

Section Sessions.
Context `{Nebari} `{Actionable} `{!AdminFormats} `{Blake3} `{PasswordHasher} `{!StorageIO} `{Profile}.
Context {St : Type} `{!LowLevelConnection St}.
Implicit Types (d : Data St) (s : Storage).
Abbreviation storagem := (stm (Data St) StorageError).

(** ** What leaves the sessions alone *)

Record same_sessions (d0 d : Data St) : Prop := {
  ss_authenticated : authenticated d = authenticated d0;
  ss_registered : registered d = registered d0;
  ss_last : last_session_id d = last_session_id d0;
  ss_subscribers : session_subscribers d = session_subscribers d0
}.
Definition keeps {A} (d0 : Data St) (m : storagem A) : Prop :=
  forall d r d', same_sessions d0 d -> m d = (r, d') -> same_sessions d0 d'.

Lemma same_sessions_refl d : same_sessions d d.
Proof. by split. Qed.
Lemma keeps_bind {A B} d0 (m : storagem A) (f : A -> storagem B) :
  keeps d0 m -> (forall a, keeps d0 (f a)) -> keeps d0 (m ≫= f).
Proof.
  intros Hm Hf d r d' Hd Hrun. unfold mbind, stm_bind in Hrun. destruct (m d) as [r1 d1] eqn:E. pose proof (Hm _ _ _ Hd E).
  destruct r1; [by eapply Hf|by injection Hrun as <- <-..].
Qed.
Lemma keeps_ret {A} d0 (a : A) : keeps d0 (mret a).
Proof. by intros d r d' Hd [= <- <-]. Qed.
Lemma keeps_lift {A} d0 (m : res StorageError A) : keeps d0 (st_lift m).
Proof. by intros d r d' Hd [= <- <-]. Qed.
Lemma keeps_get d0 : keeps d0 st_get.
Proof. by intros d r d' Hd [= <- <-]. Qed.
Lemma keeps_modify d0 f : (forall d, same_sessions d (f d)) -> keeps d0 (st_modify f).
Proof. intros Hf d r d' Hd [= <- <-]. destruct Hd, (Hf d). split; congruence. Qed.
Lemma keeps_in_admin {A} d0 (m : stm St CoreError A) : keeps d0 (in_admin m).
Proof. intros d r d' Hd Hrun. unfold in_admin in Hrun. destruct (m (admin_state d)). injection Hrun as <- <-. by destruct Hd. Qed.
Lemma keeps_open_roots d0 name : keeps d0 (open_roots name).
Proof.
  intros d r d' Hd Hrun. unfold open_roots in Hrun. case_decide; [by injection Hrun as <- <-|].
  destruct (open_error name); injection Hrun as <- <-; [done|by destruct Hd].
Qed.
Lemma keeps_admin d0 : keeps d0 admin.
Proof.
  intros d r d' Hd Hrun. unfold admin in Hrun. destruct (open_roots ADMIN_DATABASE_NAME d) as [r1 d1] eqn:E.
  apply (keeps_open_roots d0) in E; [|done]. destruct r1 as [[]| |]; by injection Hrun as <- <-.
Qed.
Lemma keeps_load_user d0 e r l : keeps d0 (load_user e r l).
Proof. intros d x d' Hd Hrun. unfold load_user in Hrun. destruct (named_load users r (admin_state d)). injection Hrun as <- <-. by destruct Hd. Qed.
Lemma keeps_register_schema d0 n r : keeps d0 (register_schema n r).
Proof. intros d x d' Hd Hrun. unfold register_schema in Hrun. destruct r; injection Hrun as <- <-; by destruct Hd. Qed.

Create HintDb sessions.
#[local] Hint Resolve keeps_ret keeps_lift keeps_get keeps_in_admin keeps_open_roots keeps_admin keeps_load_user keeps_register_schema : sessions.
(** Walks through an operation. *)
Ltac keeps :=
  repeat first
    [ solve [auto with sessions]
    | apply keeps_bind; [|intros ?]
    | apply keeps_modify; intros []; done
    | case_match ].

(** ** What opens a session *)

Record opened (d0 d : Data St) (s : Session) : Prop := {
  op_authenticated : authenticated d = <[last_session_id d0 + 1 := MkAuthenticatedSession s 1]> (authenticated d0);
  op_registered : registered d = {[last_session_id d0 + 1]} ∪ registered d0;
  op_last : last_session_id d = last_session_id d0 + 1;
  op_subscribers : session_subscribers d = session_subscribers d0;
  op_id : session_id s = Some (last_session_id d0 + 1)
}.
(** An operation that ends by opening a session, which the storage it returns
    holds, or leaves the sessions alone. *)
Definition opens (P : Session -> Prop) (d0 : Data St) (m : storagem Storage) : Prop :=
  forall d r d', same_sessions d0 d -> m d = (r, d') ->
    match r with
    | Ok s => exists session, opened d0 d' session /\ P session /\ s = MkStorage (Some (last_session_id d0 + 1)) (Some session)
    | _ => same_sessions d0 d'
    end.

(** There is an id left for another session. *)
Definition session_left (n : Z) : Prop := 0 <= n < int_max u64.

Lemma opens_bind {A} P d0 (m : storagem A) (f : A -> storagem Storage) :
  keeps d0 m -> (forall a, opens P d0 (f a)) -> opens P d0 (m ≫= f).
Proof.
  intros Hm Hf d r d' Hd Hrun. unfold mbind, stm_bind in Hrun. destruct (m d) as [r1 d1] eqn:E. pose proof (Hm _ _ _ Hd E).
  destruct r1; [by eapply Hf|by injection Hrun as <- <-..].
Qed.
Lemma opens_lift P d0 (m : res StorageError Storage) : (forall s, m <> Ok s) -> opens P d0 (st_lift m).
Proof. intros Hm d r d' Hd [= <- <-]. destruct m; [by destruct (Hm a)|done..]. Qed.
Lemma opens_new P d0 a p :
  session_left (last_session_id d0) -> (forall id, P (MkSession (Some id) a p)) -> opens P d0 (new_session a p).
Proof.
  intros Hn HP d r d' Hd Hrun. unfold new_session in Hrun. rewrite (stm_bind_Ok st_get _ d d d) in Hrun by done. destruct Hd as [Ha Hr Hl Hs].
  assert (op_add u64 (last_session_id d) 1 = @Ok StorageError _ (last_session_id d0 + 1)) as Hadd.
  { rewrite Hl. apply op_add_ok, in_range_spec. unfold session_left in Hn. change (int_min u64) with 0. lia. }
  rewrite Hadd in Hrun. injection Hrun as <- <-. eexists. split_and!; [|apply HP|done]. split; cbn; congruence.
Qed.
Lemma opens_assume_user d0 u :
  session_left (last_session_id d0) -> opens (fun x => authentication x = AuthIdentity (IdentityUser (user_id u) (username (user_of u)))) d0 (assume_user u).
Proof. intros Hn. apply opens_bind; [keeps|]. intros d. apply opens_bind; [keeps|]. intros p. by apply opens_new. Qed.
Lemma opens_assume_role d0 (r : CollectionDocument role_collection) :
  session_left (last_session_id d0) -> opens (fun x => authentication x = AuthIdentity (IdentityRole (ch_id (cd_header r)) (role_name (role_of r)))) d0 (assume_role r).
Proof. intros Hn. apply opens_bind; [keeps|]. intros d. apply opens_bind; [keeps|]. intros p. by apply opens_new. Qed.
Lemma opens_weaken (P Q : Session -> Prop) d0 m : (forall x, P x -> Q x) -> opens P d0 m -> opens Q d0 m.
Proof. intros HPQ Hm d r d' Hd Hrun. specialize (Hm _ _ _ Hd Hrun). destruct r; [|done..]. naive_solver. Qed.

(** ** Invariant *)

Record sessions_ok (d : Data St) : Prop := {
  so_registered id : id ∈ registered d -> is_Some (authenticated d !! id);
  so_ids id a : authenticated d !! id = Some a -> session_id (as_session a) = Some id /\ 0 < id <= last_session_id d;
  so_last : 0 <= last_session_id d;
  so_subscribers : subscribers_by_session (session_subscribers d) = ∅
}.

(** From one state to a later one: the counter of ids does not go back, and a
    session that is alive was so before, under the same id, or has an id
    greater than all that had been given out. *)
Definition sessions_evolve (d d' : Data St) : Prop :=
  last_session_id d <= last_session_id d' /\
  forall id a', authenticated d' !! id = Some a' ->
    (exists a, authenticated d !! id = Some a /\ as_session a = as_session a') \/ last_session_id d < id.
#[local] Instance sessions_evolve_preorder : PreOrder sessions_evolve.
Proof.
  split; [by intros d; split; [|eauto]|]. intros d1 d2 d3 [Hl1 H12] [Hl2 H23]. split; [lia|]. intros id a3 Ha3.
  destruct (H23 id a3 Ha3) as [(a2 & Ha2 & <-)|Hid]; [by apply H12|right; lia].
Qed.
Lemma evolve_fewer (d d' : Data St) : last_session_id d' = last_session_id d -> authenticated d' ⊆ authenticated d -> sessions_evolve d d'.
Proof. intros Hl Hsub. split; [lia|]. intros id a Ha. left. exists a. split; [by eapply lookup_weaken|done]. Qed.
Lemma same_sessions_evolve d d' : same_sessions d d' -> sessions_evolve d d'.
Proof. intros [Ha _ Hl _]. apply evolve_fewer; [done|by rewrite Ha]. Qed.
Lemma opened_evolve d d' session : opened d d' session -> sessions_evolve d d'.
Proof.
  intros [Ha _ Hl _ _]. split; [lia|]. intros id a. rewrite Ha. intros [[<- _]|[_ Hid]]%lookup_insert_Some; [right; lia|by left; exists a].
Qed.
Lemma set_storages_evolve f id d : sessions_evolve d (set_storages f id d).
Proof.
  split; [done|]. intros i a. cbn. destruct (decide (i = id)) as [->|]; [|rewrite lookup_alter_ne by done; by left; exists a].
  rewrite lookup_alter_eq. intros (a' & Ha' & ->)%fmap_Some. left. by exists a'.
Qed.

Lemma same_sessions_ok d d' : same_sessions d d' -> sessions_ok d -> sessions_ok d'.
Proof. intros [Ha Hr Hl Hs] [H1' H2' H3' H4']. split; rewrite ?Ha, ?Hr, ?Hl, ?Hs; done. Qed.
Lemma opened_sessions_ok d d' session : opened d d' session -> sessions_ok d -> sessions_ok d'.
Proof.
  intros [Ha Hr Hl Hs Hid] Hok. pose proof (so_last _ Hok). split; rewrite ?Ha, ?Hr, ?Hl, ?Hs.
  - intros id [->%elem_of_singleton|Hin]%elem_of_union; [by rewrite lookup_insert_eq|].
    destruct (decide (id = last_session_id d + 1)) as [->|]; [by rewrite lookup_insert_eq|]. rewrite lookup_insert_ne by done. by apply so_registered.
  - intros id a [[<- <-]|[_ Ha']]%lookup_insert_Some; [split; [done|lia]|]. destruct (so_ids _ Hok id a Ha'). split; [done|lia].
  - lia.
  - by apply so_subscribers.
Qed.

Lemma set_storages_ok f id d : sessions_ok d -> sessions_ok (set_storages f id d).
Proof.
  intros [H1' H2' H3' H4']. split; cbn; [| |done|done].
  - intros i Hi. rewrite lookup_alter_is_Some. by apply H1'.
  - intros i a. destruct (decide (i = id)) as [->|]; [|rewrite lookup_alter_ne by done; apply H2'].
    rewrite lookup_alter_eq. intros (a' & Ha' & ->)%fmap_Some. by apply (H2' id a').
Qed.

(** Dropping a session that is not registered removes it and nothing else. *)
Lemma release_spec id d :
  sessions_ok d -> exists m, (m = authenticated d \/ id ∉ registered d /\ m = delete id (authenticated d)) /\
    release id d = with_sessions m (registered d) (last_session_id d) d.
Proof.
  intros Hok. unfold release. destruct (authenticated d !! id) as [a|] eqn:Ha; [|exists (authenticated d); by destruct d; auto].
  case_decide as Hd; [|exists (authenticated d); by destruct d; auto]. destruct Hd as [_ Hr]. exists (delete id (authenticated d)). split; [by right|].
  destruct (so_ids _ Hok id a Ha) as [Hid _]. unfold drop_session. rewrite Hid. pose proof (so_subscribers _ Hok) as Hsub. clear Hok.
  assert (registered d ∖ {[id]} = registered d) as Hreg by set_solver.
  destruct d as [a0 sc av on fo pe au re la [subs by_session last]]. cbn in *. subst by_session. unfold with_sessions, with_subscribers. cbn. f_equal; [done|].
  rewrite lookup_empty, delete_empty. cbn. f_equal. apply map_filter_id. intros i x _. cbn. set_solver.
Qed.
Lemma release_evolve id d : sessions_ok d -> sessions_evolve d (release id d).
Proof.
  intros Hok. destruct (release_spec id d Hok) as (m & Hm & ->). apply evolve_fewer; [done|]. cbn.
  destruct Hm as [->|[_ ->]]; [done|apply delete_subseteq].
Qed.
Lemma release_ok id d : sessions_ok d -> sessions_ok (release id d).
Proof.
  intros Hok. destruct (release_spec id d Hok) as (m & Hm & ->). destruct Hm as [->|[Hr ->]]; [by destruct Hok|].
  split; cbn; [| |by apply so_last|by apply so_subscribers].
  - intros i Hi. rewrite lookup_delete_ne by (by intros ->). by apply so_registered.
  - intros i a [_ Ha]%lookup_delete_Some. by apply so_ids.
Qed.

(** ** Authentication *)

Definition any_session (_ : Session) : Prop := True.

(** Walks to the operation that opens the session. *)
Ltac opens :=
  repeat first
    [ solve [by apply opens_lift]
    | solve [by apply opens_new]
    | solve [eapply opens_weaken; [|by first [apply opens_assume_user | apply opens_assume_role]]; done]
    | apply opens_bind; [unfold require; keeps|intros ?]
    | case_match ].

Lemma opens_answer d0 session hash : session_left (last_session_id d0) -> opens any_session d0 (answer_challenge session hash).
Proof.
  intros Hn. unfold answer_challenge. opens.
Qed.

(** What an operation may do to the sessions: nothing, or open one. *)
Definition grows (d d' : Data St) : Prop := same_sessions d d' \/ exists session, opened d d' session.
Lemma opens_grows P d m r d' : opens P d m -> m d = (r, d') -> grows d d'.
Proof. intros Hm Hrun. specialize (Hm _ _ _ (same_sessions_refl d) Hrun). destruct r; [right; naive_solver|by left..]. Qed.
Lemma keeps_grows {A} d (m : storagem A) r d' : keeps d m -> m d = (r, d') -> grows d d'.
Proof. intros Hm Hrun. left. by eapply Hm; [apply same_sessions_refl|]. Qed.
Lemma grows_ok d d' : grows d d' -> sessions_ok d -> sessions_ok d'.
Proof. intros [Hs|[x Hx]] Hok; [by eapply same_sessions_ok|by eapply opened_sessions_ok]. Qed.
Lemma grows_evolve d d' : grows d d' -> sessions_evolve d d'.
Proof. intros [Hs|[x Hx]]; [by apply same_sessions_evolve|by eapply opened_evolve]. Qed.
Lemma grows_last d d' : grows d d' -> last_session_id d <= last_session_id d' <= last_session_id d + 1.
Proof. intros [[]|[? []]]; lia. Qed.
Lemma grows_registered d d' : grows d d' -> registered d ⊆ registered d'.
Proof. intros [[_ -> _ _]|[? [_ -> _ _ _]]]; set_solver. Qed.
Lemma grows_new d d' id : grows d d' -> id <= last_session_id d -> id ∉ registered d -> id ∉ registered d'.
Proof. intros [[_ -> _ _]|[? [_ -> _ _ _]]] Hid Hn; [done|]. rewrite not_elem_of_union, not_elem_of_singleton. split; [lia|done]. Qed.

Definition unregistered (id : Z) (d : Data St) : Data St :=
  with_sessions (authenticated d) (registered d ∖ {[id]}) (last_session_id d) d.
Lemma unregistered_ok id d : sessions_ok d -> sessions_ok (unregistered id d).
Proof. intros [H1' H2' H3' H4']. split; cbn; [|done..]. intros i Hi. apply H1'. set_solver. Qed.

Lemma finish_spec id hash d r d' :
  sessions_ok d -> session_left (last_session_id d) -> finish_token_authentication id hash d = (r, d') ->
  (id ∉ registered d /\ r = Err InvalidCredentials /\ d' = d) \/
  (id ∈ registered d /\ exists d2, grows (unregistered id d) d2 /\ d' = release id d2).
Proof.
  intros Hok Hn Hrun. unfold finish_token_authentication in Hrun. case_decide as Hin; [|injection Hrun as <- <-; auto]. right. split; [done|].
  fold (unregistered id d) in Hrun. destruct (so_registered _ Hok id Hin) as [a Ha].
  change (authenticated (unregistered id d)) with (authenticated d) in Hrun. rewrite Ha in Hrun.
  destruct (answer_challenge (as_session a) hash (unregistered id d)) as [r2 d2] eqn:E. injection Hrun as <- <-.
  exists d2. split; [|done]. by eapply opens_grows; [apply opens_answer|].
Qed.

Lemma release_registered id d : sessions_ok d -> registered (release id d) = registered d /\ last_session_id (release id d) = last_session_id d.
Proof. intros Hok. by destruct (release_spec id d Hok) as (m & _ & ->). Qed.

Lemma finish_result id hash d r d' :
  sessions_ok d -> session_left (last_session_id d) -> finish_token_authentication id hash d = (r, d') ->
  sessions_ok d' /\ last_session_id d <= last_session_id d' <= last_session_id d + 1 /\
  registered d ∖ {[id]} ⊆ registered d' /\ id ∉ registered d' /\ sessions_evolve d d'.
Proof.
  intros Hok Hn Hrun. destruct (finish_spec _ _ _ _ _ Hok Hn Hrun) as [(Hni & _ & ->)|(Hin & d2 & Hg & ->)].
  { split_and!; [done|lia|lia|set_solver|done|done]. }
  pose proof (grows_ok _ _ Hg (unregistered_ok id d Hok)) as Hok2. pose proof (grows_last _ _ Hg) as Hl. pose proof (grows_registered _ _ Hg) as Hr.
  cbn in Hl, Hr. destruct (release_registered id d2 Hok2) as [-> ->]. split_and!; [by apply release_ok|lia|lia|done| |].
  2: { trans (unregistered id d); [by apply evolve_fewer|]. trans d2; [by apply grows_evolve|by apply release_evolve]. }
  apply (grows_new _ _ id Hg); cbn; [|set_solver]. destruct (so_registered _ Hok id Hin) as [a Ha]. destruct (so_ids _ Hok id a Ha). lia.
Qed.

(** A challenge is answered once: whatever the answer was, the session of
    the challenge is gone, and answering it again is refused. *)
Theorem challenge_answered_once id hash hash' d r d' :
  sessions_ok d -> session_left (last_session_id d) -> finish_token_authentication id hash d = (r, d') ->
  finish_token_authentication id hash' d' = (Err InvalidCredentials, d').
Proof.
  intros Hok Hn Hrun. apply finish_result in Hrun as (_ & _ & _ & Hni & _); [|done..]. unfold finish_token_authentication. by rewrite decide_False.
Qed.

Definition is_response (a : Authentication) : bool := match a with AuthChallengeResponse _ => true | _ => false end.

Lemma opens_authenticate_inner env a u cur d0 :
  session_left (last_session_id d0) -> is_response a = false -> opens any_session d0 (authenticate_inner env a u cur).
Proof.
  intros Hn Ha. destruct a as [id now hash|hash|user password]; [|done|]; cbn [authenticate_inner].
  - unfold begin_token_authentication. opens.
  - opens.
Qed.

Lemma authenticate_grows env s a d r d' :
  session_left (last_session_id d) -> is_response a = false -> authenticate env s a d = (r, d') -> grows d d'.
Proof.
  intros Hn Ha. apply (opens_grows any_session). unfold authenticate. apply opens_bind; [keeps|intros _].
  apply opens_bind; [unfold require; keeps|intros u]. apply opens_bind; [keeps|intros d1]. by apply opens_authenticate_inner.
Qed.
Lemma authenticate_response env s hash d r d' :
  sessions_ok d -> session_left (last_session_id d) -> authenticate env s (AuthChallengeResponse hash) d = (r, d') ->
  grows d d' \/ exists id d1, held_session_id s d = Some id /\ same_sessions d d1 /\ finish_token_authentication id hash d1 = (r, d').
Proof.
  intros Hok Hn Hrun. unfold authenticate in Hrun. unfold mbind at 1, stm_bind at 1 in Hrun. destruct (admin d) as [r1 d1] eqn:Had.
  apply (keeps_admin d) in Had as Hs; [|apply same_sessions_refl]. destruct r1 as [[]|e|]; [|injection Hrun as <- <-; left; by left..].
  rewrite (stm_bind_Ok (mret _) _ d1 None d1), (stm_bind_Ok st_get _ d1 d1 d1) in Hrun by done. cbn [authenticate_inner] in Hrun.
  assert (held_session_id s d1 = held_session_id s d) as Hh by (unfold held_session_id; by rewrite (ss_authenticated _ _ Hs)).
  rewrite Hh in Hrun. destruct (held_session_id s d) as [id|]; [|injection Hrun as <- <-; left; by left].
  right. by exists id, d1.
Qed.

(** ** Every operation *)

Inductive Event :=
| EvAuthenticate (env : Ambient) (s : Storage) (a : Authentication)
| EvAssumeIdentity (s : Storage) (i : IdentityReference)
| EvAssumeSession (s : Storage) (session : Session)
| EvClone (s : Storage)
| EvDrop (s : Storage)
| EvSubscribe (session : option Z)
| EvUnsubscribe (subscriber : Z)
| EvRegisterSchema (name : SchemaName) (schematic : res SchemaError Schematic)
| EvCreateDatabase (s : Storage) (name : str) (schema : SchemaName) (only_if_needed : bool)
| EvDatabase (s : Storage) (schema : SchemaName) (name : str)
| EvDeleteDatabase (s : Storage) (name : str)
| EvCreateUser (s : Storage) (name : str)
| EvDeleteUser (s : Storage) (user : NamedReference Z)
| EvSetPassword (s : Storage) (salt : bytes) (user : NamedReference Z) (password : str)
| EvAddGroup (s : Storage) (user group : NamedReference Z)
| EvRemoveGroup (s : Storage) (user group : NamedReference Z)
| EvAddRole (s : Storage) (user role : NamedReference Z)
| EvRemoveRole (s : Storage) (user role : NamedReference Z).

(** The state after an operation of some client. *)
Definition step (e : Event) (d : Data St) : Data St :=
  match e with
  | EvAuthenticate env s a => (authenticate env s a d).2
  | EvAssumeIdentity s i => (assume_identity s i d).2
  | EvAssumeSession s session => (assume_session s session d).2
  | EvClone s => clone_storage s d
  | EvDrop s => drop_storage s d
  | EvSubscribe session => (register_subscriber session d).2
  | EvUnsubscribe id => with_subscribers (unregister id (session_subscribers d)) d
  | EvRegisterSchema name schematic => (register_schema name schematic d).2
  | EvCreateDatabase s name schema b => (create_database_with_schema s name schema b d).2
  | EvDatabase s schema name => (database s schema name d).2
  | EvDeleteDatabase s name => (delete_database s name d).2
  | EvCreateUser s name => (create_user s name d).2
  | EvDeleteUser s user => (delete_user s user d).2
  | EvSetPassword s salt user password => (set_user_password s salt user password d).2
  | EvAddGroup s user group => (add_permission_group_to_user s user group d).2
  | EvRemoveGroup s user group => (remove_permission_group_from_user s user group d).2
  | EvAddRole s user role => (add_role_to_user s user role d).2
  | EvRemoveRole s user role => (remove_role_from_user s user role d).2
  end.
Definition run (es : list Event) (d : Data St) : Data St := fold_left (fun d e => step e d) es d.
Definition answers (e : Event) : bool := match e with EvAuthenticate _ _ a => is_response a | _ => false end.

Definition steps_well (e : Event) (d d' : Data St) : Prop :=
  sessions_ok d' /\ last_session_id d <= last_session_id d' <= last_session_id d + 1 /\
  sessions_evolve d d' /\ (answers e = false -> registered d ⊆ registered d').

Lemma grows_well e d d' : sessions_ok d -> grows d d' -> steps_well e d d'.
Proof. intros Hok Hg. split_and!; [by eapply grows_ok|by apply grows_last..|by apply grows_evolve|]. intros _. by apply grows_registered. Qed.
Lemma keeps_well {A} e d (m : storagem A) : sessions_ok d -> keeps d m -> steps_well e d (m d).2.
Proof. intros Hok Hm. apply grows_well; [done|]. by eapply keeps_grows, surjective_pairing. Qed.

Lemma keeps_update_user d0 user other f : keeps d0 (update_user_with_named_id user other f).
Proof. unfold update_user_with_named_id. keeps. Qed.
#[local] Hint Resolve keeps_update_user : sessions.
Lemma keeps_delete_database d0 name : keeps d0 (inst_delete_database name).
Proof. unfold inst_delete_database. keeps. Qed.
#[local] Hint Resolve keeps_delete_database : sessions.

Lemma set_storages_well e f id d : sessions_ok d -> steps_well e d (set_storages f id d).
Proof. intros Hok. split_and!; [by apply set_storages_ok|cbn; lia..|apply set_storages_evolve|done]. Qed.
Lemma drop_well e s d : sessions_ok d -> steps_well e d (drop_storage s d) /\ registered (drop_storage s d) = registered d.
Proof.
  intros Hok. unfold drop_storage. destruct (st_authentication s) as [id|]; [|split; [by apply grows_well; [|left; apply same_sessions_refl]|done]].
  pose proof (set_storages_ok Nat.pred id d Hok) as Hok'. destruct (release_registered id _ Hok') as [Hr Hl].
  split; [|done]. split_and!; [by apply release_ok|rewrite Hl; cbn; lia..| |by rewrite Hr].
  trans (set_storages Nat.pred id d); [apply set_storages_evolve|by apply release_evolve].
Qed.
Lemma subscribers_well e d l : sessions_ok d -> subscribers_by_session l = ∅ -> steps_well e d (with_subscribers l d).
Proof. intros [H1' H2' H3' H4'] Hl. split_and!; [by split|cbn; lia..|by apply evolve_fewer|done]. Qed.
Lemma assume_session_well e s session d : sessions_ok d -> steps_well e d (assume_session s session d).2.
Proof.
  intros Hok. assert (steps_well e d d) as Hid by (apply grows_well; [done|left; apply same_sessions_refl]).
  unfold assume_session. destruct (st_authentication s); [done|]. destruct (session_id session) as [id|]; [|done].
  unfold mbind, stm_bind, st_get. case_decide; [|done]. destruct (authenticated d !! id); [|done]. cbn. by apply set_storages_well.
Qed.
Lemma unregister_empty id l : subscribers_by_session l = ∅ -> subscribers_by_session (unregister id l) = ∅.
Proof. intros Hl. unfold unregister. destruct (subscribers l !! id) as [[]|]; cbn; by rewrite Hl. Qed.
Lemma register_well e session d : sessions_ok d -> steps_well e d (register_subscriber session d).2.
Proof.
  intros Hok. unfold register_subscriber, mbind, stm_bind, st_get, st_lift.
  destruct (vacant_id _ _ _) as [id|]; cbn [unwrap]; [|by apply grows_well; [|left; apply same_sessions_refl]].
  by apply subscribers_well, so_subscribers.
Qed.
Lemma authenticate_well env s a d :
  sessions_ok d -> session_left (last_session_id d) -> steps_well (EvAuthenticate env s a) d (authenticate env s a d).2.
Proof.
  intros Hok Hn. destruct (authenticate env s a d) as [r d'] eqn:Hrun. cbn. destruct (is_response a) eqn:Ha.
  - destruct a as [|hash|]; [done| |done].
    destruct (authenticate_response _ _ _ _ _ _ Hok Hn Hrun) as [Hg|(id & d1 & _ & Hs & Hf)]; [by apply grows_well|].
    pose proof (same_sessions_ok _ _ Hs Hok) as Hok1. rewrite <- (ss_last _ _ Hs) in Hn.
    destruct (finish_result _ _ _ _ _ Hok1 Hn Hf) as (? & Hl & _ & _ & He). rewrite (ss_last _ _ Hs) in Hl.
    split_and!; [done|lia|lia| |done]. trans d1; [by apply same_sessions_evolve|done].
  - apply grows_well; [done|]. by eapply authenticate_grows.
Qed.

Lemma step_well e d : sessions_ok d -> session_left (last_session_id d) -> steps_well e d (step e d).
Proof.
  intros Hok Hn. destruct e; cbn [step]; [by apply authenticate_well| |by apply assume_session_well| |by apply drop_well|by apply register_well|
    by apply subscribers_well; [|apply unregister_empty, so_subscribers]|..];
    try (apply keeps_well; [done|]; first
      [ by auto with sessions
      | unfold create_database_with_schema, inst_create_database_with_schema, require; solve [keeps]
      | unfold database, inst_database, database_without_schema; solve [keeps]
      | unfold delete_database, require; solve [keeps]
      | unfold create_user, inst_create_user, require; solve [keeps]
      | unfold delete_user, inst_delete_user, require_user, require; solve [keeps]
      | unfold set_user_password, inst_set_user_password, require_user, require; solve [keeps] ]).
  - apply grows_well; [done|]. eapply (opens_grows any_session), surjective_pairing. unfold assume_identity, load_role. opens.
  - unfold clone_storage. destruct (st_authentication s); [by apply set_storages_well|by apply grows_well; [|left; apply same_sessions_refl]].
Qed.

Lemma run_well es d :
  sessions_ok d -> last_session_id d + Z.of_nat (length es) <= int_max u64 ->
  sessions_ok (run es d) /\ sessions_evolve d (run es d) /\ last_session_id (run es d) <= last_session_id d + Z.of_nat (length es).
Proof.
  revert d. induction es as [|e es IH]; intros d Hok Hn; [split_and!; [done..|cbn; lia]|]. cbn [run fold_left]. cbn [length] in Hn |- *.
  destruct (step_well e d Hok) as (Hok' & Hl & He & _); [split; [by apply so_last|lia]|].
  destruct (IH (step e d) Hok') as (? & ? & ?); [lia|]. split_and!; [done|by trans (step e d)|unfold run in *; lia].
Qed.
Lemma run_app es1 es2 d : run (es1 ++ es2) d = run es2 (run es1 d).
Proof. apply fold_left_app. Qed.

(** C19: whatever clients do, sessions are consistent, as long as the counter of
    session ids does not overflow.  In every state each registered session is
    alive, and each live session carries the id it is kept under, which the
    counter has given out.  Over time the counter does not go back; a session
    that is alive at the end was alive, and the same, at any earlier moment, or
    has an id greater than all that had been given out by then; and an id whose
    session is gone at some moment is never used again. *)
Theorem sessions_invariant es1 es2 d :
  sessions_ok d -> last_session_id d + Z.of_nat (length (es1 ++ es2)) <= int_max u64 ->
  let earlier := run es1 d in let later := run (es1 ++ es2) d in
  sessions_ok later /\ last_session_id earlier <= last_session_id later /\
  (forall id a', authenticated later !! id = Some a' ->
     (exists a, authenticated earlier !! id = Some a /\ as_session a = as_session a') \/ last_session_id earlier < id) /\
  (forall id, 0 < id <= last_session_id earlier -> authenticated earlier !! id = None -> authenticated later !! id = None).
Proof.
  intros Hok Hn. cbv zeta. rewrite length_app in Hn. rewrite run_app.
  destruct (run_well es1 d Hok) as (Hok1 & _ & Hl1); [lia|]. destruct (run_well es2 (run es1 d) Hok1) as (Hok2 & [Hl2 He] & _); [lia|].
  split_and!; [done..|]. intros id Hid Hnone. destruct (authenticated (run es2 (run es1 d)) !! id) as [a|] eqn:Ha; [|done].
  destruct (He id a Ha) as [(a0 & Ha0 & _)|?]; [congruence|lia].
Qed.

(** Sessions are not closed: a session that is registered remains so,
    also when every storage that authenticated with it is dropped; only an
    answer to a challenge takes one away. *)
Theorem sessions_stay_registered es d :
  sessions_ok d -> last_session_id d + Z.of_nat (length es) <= int_max u64 -> forallb (fun e => negb (answers e)) es = true ->
  registered d ⊆ registered (run es d).
Proof.
  revert d. induction es as [|e es IH]; intros d Hok Hn Ha; [done|]. cbn [run fold_left]. cbn [length] in Hn.
  cbn [forallb] in Ha. apply andb_true_iff in Ha as [Ha Has]. apply negb_true_iff in Ha.
  destruct (step_well e d Hok) as (Hok' & Hl & _ & Hr); [split; [by apply so_last|lia]|].
  etrans; [by apply Hr|]. apply IH; [done|lia|done].
Qed.
End Sessions.
