(* ===== verification/StorageTheorems.v ===== *)
(** * Access to a storage

    What a token and a password have to be, what a session is denied, the names
    of databases, the id of a storage and the ids of subscribers. *)

From Stdlib Require Import ZArith Lia String.
From stdpp Require Import base list option numbers gmap sets.
From S2P Require Import Prelude Bytes Utf8 Digits Timestamp Key KeyLaws Range Time TimeTheorems Nebari Document Names Changes Schema Permissions View Query Integrity Jobs Transaction Tasks StoreDemo ViewBatch TransactionLaws TransactionSpec QueryLaws TasksLaws TasksTheorems Vault Connection ConnectionTheorems Admin AdminTheorems Storage StorageRegistry StorageSessions.

Local Open Scope Z_scope.

Section Access.
Context `{Nebari} `{Actionable} `{!AdminFormats} `{Blake3} `{PasswordHasher} `{!StorageIO} `{Profile}.
Context {St : Type} `{!LowLevelConnection St}.
Implicit Types (d : Data St) (s : Storage).
Abbreviation storagem := (stm (Data St) StorageError).

Lemma in_admin_Ok {A} (m : stm St CoreError A) d x d' :
  in_admin m d = (Ok x, d') -> m (admin_state d) = (Ok x, admin_state d') /\ d' = with_admin (admin_state d') d.
Proof.
  intros Hrun. unfold in_admin in Hrun. destruct (m (admin_state d)) as [r a]. injection Hrun as Hr <-. apply map_err_Ok_inv in Hr as ->. done.
Qed.

(** The session of a storage is that of an identity, with its permissions. *)
Definition acts_as (s : Storage) (i : Identity) (p : Permissions) : Prop :=
  exists session, effective_session s = Some session /\ authentication session = AuthIdentity i /\ permissions session = p.

Lemma new_session_acts i p d s d' : new_session (AuthIdentity i) p d = (Ok s, d') -> acts_as s i p.
Proof.
  intros Hrun. unfold new_session in Hrun. apply stm_bind_Ok_inv in Hrun as (d0 & d1 & [= <- <-] & Hrun).
  apply stm_bind_Ok_inv in Hrun as (id & d2 & _ & Hrun). apply stm_bind_Ok_inv in Hrun as ([] & d3 & _ & [= <- <-]). by eexists.
Qed.
Lemma assume_user_acts u d s d' :
  assume_user u d = (Ok s, d') -> exists p a, user_effective_permissions (user_of u) (authenticated_permissions d) (admin_state d) = (Ok p, a) /\
    acts_as s (IdentityUser (user_id u) (username (user_of u))) p.
Proof.
  intros Hrun. unfold assume_user in Hrun. apply stm_bind_Ok_inv in Hrun as (d0 & d1 & [= <- <-] & Hrun).
  apply stm_bind_Ok_inv in Hrun as (p & d2 & Hp%in_admin_Ok & Hrun). exists p, (admin_state d2). split; [apply Hp|by eapply new_session_acts].
Qed.
Lemma assume_role_acts r d s d' :
  assume_role r d = (Ok s, d') -> exists p a, role_effective_permissions (role_of r) (authenticated_permissions d) (admin_state d) = (Ok p, a) /\
    acts_as s (IdentityRole (ch_id (cd_header r)) (role_name (role_of r))) p.
Proof.
  intros Hrun. unfold assume_role in Hrun. apply stm_bind_Ok_inv in Hrun as (d0 & d1 & [= <- <-] & Hrun).
  apply stm_bind_Ok_inv in Hrun as (p & d2 & Hp%in_admin_Ok & Hrun). exists p, (admin_state d2). split; [apply Hp|by eapply new_session_acts].
Qed.

(** The identity of a token, loaded. *)
Definition token_identity (t : AuthenticationToken) (i : Identity) : Prop :=
  match tok_identity t with
  | IdUser id => exists u (a a' : St), sc_get user_collection id a = (Ok (Some u), a') /\ i = IdentityUser (user_id u) (username (user_of u))
  | IdRole id => exists (r : CollectionDocument role_collection) (a a' : St),
      sc_get role_collection id a = (Ok (Some r), a') /\ i = IdentityRole (ch_id (cd_header r)) (role_name (role_of r))
  end.

Lemma validate_challenge_Ok t ts nonce hash :
  validate_challenge t ts nonce hash = Ok tt -> compute_challenge_response_blake3 (tok_token t) nonce ts = Ok hash.
Proof.
  intros Hv. unfold validate_challenge, hash_array in Hv. apply bind_Ok_inv in Hv as (computed & Hc & Hv).
  destruct (blen hash =? OUT_LEN); [|done]. simpl in Hv. case_bool_decide as Heq; [|done]. by rewrite Hc, Heq.
Qed.

(** C20: answering a challenge gives a session only to who knows the token: the
    answer is the keyed hash of the nonce and the time of the challenge under the
    stored token, and the session is that of the token's identity. *)
Theorem challenge_sound id hash d s d' :
  finish_token_authentication id hash d = (Ok s, d') ->
  exists a tid nonce ts token a', id ∈ registered d /\ authenticated d !! id = Some a /\
    authentication (as_session a) = AuthTokenChallenge tid nonce ts /\
    sc_get token_collection tid (admin_state d) = (Ok (Some token), a') /\
    compute_challenge_response_blake3 (tok_token (token_of token)) nonce ts = Ok hash /\
    exists i p, token_identity (token_of token) i /\ acts_as s i p.
Proof.
  intros Hrun. unfold finish_token_authentication in Hrun. case_decide as Hin; [|done]. cbn [with_sessions authenticated] in Hrun.
  destruct (authenticated d !! id) as [a|] eqn:Ha; [|done].
  destruct (answer_challenge (as_session a) hash _) as [r2 d2] eqn:Hans. injection Hrun as -> <-.
  unfold answer_challenge in Hans. destruct (authentication (as_session a)) as [| |tid nonce ts] eqn:Hauth; [done..|].
  apply stm_bind_Ok_inv in Hans as (o & d3 & [Hget _]%in_admin_Ok & Hans). apply stm_bind_Ok_inv in Hans as (token & d4 & Ho & Hans).
  unfold st_lift in Ho. injection Ho as Ho <-. apply ok_or_Ok_inv in Ho as ->.
  apply stm_bind_Ok_inv in Hans as ([] & d5 & Hv & Hans). unfold st_lift in Hv. injection Hv as Hv <-.
  exists a, tid, nonce, ts, token, (admin_state d3). split_and!; [done..|by apply validate_challenge_Ok|].
  unfold token_identity. destruct (tok_identity (token_of token)) as [uid|rid];
    apply stm_bind_Ok_inv in Hans as (o & d6 & [Hload _]%in_admin_Ok & Hans); apply stm_bind_Ok_inv in Hans as (x & d7 & Ho & Hans);
    unfold st_lift in Ho; injection Ho as Ho <-; apply ok_or_Ok_inv in Ho as ->.
  - apply assume_user_acts in Hans as (p & a' & _ & Hacts). eexists _, p. split; [|done]. by exists x, (admin_state d3), (admin_state d6).
  - apply assume_role_acts in Hans as (p & a' & _ & Hacts). eexists _, p. split; [|done]. by exists x, (admin_state d3), (admin_state d6).
Qed.

(** A password gives a session only if it verifies against the hash stored
    with the user, and the session is that user's. *)
Theorem password_sound env user password cur d s d' :
  authenticate_inner env (AuthPassword user password) None cur d = (Ok s, d') ->
  exists u h a p, named_load users user (admin_state d) = (Ok (Some u), a) /\ argon_hash (user_of u) = Some h /\
    verify_password password h = true /\ acts_as s (IdentityUser (user_id u) (username (user_of u))) p.
Proof.
  intros Hrun. cbn [authenticate_inner] in Hrun. apply stm_bind_Ok_inv in Hrun as (u & d1 & Hload & Hrun).
  apply stm_bind_Ok_inv in Hrun as (h & d2 & Hh & Hrun). unfold st_lift in Hh. injection Hh as Hh <-. apply ok_or_Ok_inv in Hh.
  destruct (verify_password password h) eqn:Hv; [|done]. apply assume_user_acts in Hrun as (p & a & _ & Hacts).
  unfold load_user in Hload. destruct (named_load users user (admin_state d)) as [r a1] eqn:Hl. injection Hload as Hr <-.
  apply bind_Ok_inv in Hr as (o & Ho & Hu). apply map_err_Ok_inv in Ho as ->. apply ok_or_Ok_inv in Hu as ->. by exists u, h, a1, p.
Qed.

(** ** Sessions and databases *)

(** A database opened with [Storage::database] has no session, whatever the
    session of the storage is: nothing it does is checked.  Opened with the
    storage passed on, it has the session of the storage. *)
Theorem opened_database_session s schema name d db d' :
  (database s schema name d = (Ok db, d') -> od_session db = None) /\
  (database_without_schema name (Some s) (Some schema) d = (Ok db, d') -> od_session db = effective_session s).
Proof.
  unfold database, inst_database, database_without_schema. split; intros Hrun;
    apply stm_bind_Ok_inv in Hrun as (d0 & d1 & [= <- <-] & Hrun); apply stm_bind_Ok_inv in Hrun as (stored & d2 & _ & Hrun);
    apply stm_bind_Ok_inv in Hrun as ([] & d3 & _ & Hrun); destruct (schemas d !! stored); try done;
    by apply stm_bind_Ok_inv in Hrun as ([] & d4 & _ & [= <- <-]).
Qed.

(** What a session is not permitted changes nothing: the operation returns
    the denial and the state is as before. *)
Theorem denied_changes_nothing s d name schema only_if_needed :
  (forall r, check_permission (effective_session s) (database_resource_name name) (ServerAct CreateDatabase) = Err r ->
     create_database_with_schema s name schema only_if_needed d = (Err (StorageCore (CoreDenied r)), d)) /\
  (forall r, check_permission (effective_session s) (database_resource_name name) (ServerAct DeleteDatabase) = Err r ->
     delete_database s name d = (Err (StorageCore (CoreDenied r)), d)) /\
  (forall r, check_permission (effective_session s) bonsaidb_resource_name (ServerAct ListDatabases) = Err r ->
     list_databases s d = (Err (StorageCore (CoreDenied r)), d)) /\
  (forall r, check_permission (effective_session s) bonsaidb_resource_name (ServerAct CreateUser) = Err r ->
     create_user s name d = (Err (StorageCore (CoreDenied r)), d)).
Proof.
  split_and!; intros r Hr;
    unfold create_database_with_schema, delete_database, list_databases, create_user, require, mbind, stm_bind, st_lift; by rewrite Hr.
Qed.

(** A session that is assumed has the permissions of both. *)
Lemma assumed_permissions `{!ActionableLaws} s session d s' d' r a :
  session_id session <> None -> assume_session s session d = (Ok s', d') ->
  exists held effective, effective_session s' = Some effective /\
    (allowed_to (permissions effective) r a = true <->
     allowed_to (permissions session) r a = true \/ allowed_to (permissions (as_session held)) r a = true).
Proof.
  intros Hid Hrun. unfold assume_session in Hrun. destruct (st_authentication s); [done|].
  destruct (session_id session) as [id|]; [|done]. apply stm_bind_Ok_inv in Hrun as (d0 & d1 & [= <- <-] & Hrun).
  case_decide; [|done]. apply stm_bind_Ok_inv in Hrun as (held & d2 & _ & Hrun). apply stm_bind_Ok_inv in Hrun as ([] & d3 & _ & [= <- <-]).
  exists held. eexists. split; [done|]. cbn [permissions]. rewrite merged_allows. setoid_rewrite elem_of_cons. setoid_rewrite list_elem_of_singleton.
  split; [intros (p & [->| ->] & ?); auto|]. intros [?|?]; eauto.
Qed.

(** ** Names of databases *)

(** A name that is accepted is one component of a path: no separator, no
    reference to a parent directory, no hidden file, no null byte; but the empty
    name is accepted too. *)
Theorem valid_names name :
  @validate_name _ _ name = Ok tt ->
  Forall (fun c => c <> 47 /\ c <> 92 /\ c <> 0) name /\ (forall c rest, name = c :: rest -> c <> 46).
Proof.
  unfold validate_name. destruct (forallb _ _) eqn:Hall; [|done]. intros _. rewrite forallb_forall in Hall.
  assert (forall i c, name !! i = Some c -> name_char i c = true) as Hc.
  { intros i c Hi. apply (Hall (i, c)), list_elem_of_In, list_elem_of_lookup. exists i. by rewrite list_lookup_imap, Hi. }
  split.
  - apply Forall_lookup. intros i c Hi%Hc. unfold name_char, is_ascii_alphanumeric in Hi.
    rewrite !orb_true_iff, !andb_true_iff, ?orb_true_iff, !Z.leb_le, !Z.eqb_eq in Hi. lia.
  - intros c rest ->. specialize (Hc 0%nat c eq_refl). intros ->. by vm_compute in Hc.
Qed.

(** Deleting the database with the empty name deletes the directories of
    every database, whether or not there is one of that name. *)
Theorem deleting_the_empty_name d r d' :
  delete_error [] = None -> inst_delete_database [] d = (r, d') -> r = Panic \/ folders d' = ∅.
Proof.
  intros Herr Hrun. unfold inst_delete_database in Hrun.
  destruct (admin_run d) as (r1 & o & f & Hadmin & Hr1). rewrite (stm_bind_run _ _ _ _ _ Hadmin) in Hrun.
  destruct Hr1 as [->| ->]; [|injection Hrun as <- <-; by left]. right.
  set (d0 := with_available (delete [] (available_databases d)) (with_folders o f d)). set (d1 := with_folders (o ∖ {[[]]}) f d0).
  set (d2 := with_folders (o ∖ {[[]]}) ∅ d0).
  rewrite (stm_bind_Ok (st_modify _) _ (with_folders o f d) tt d0), (stm_bind_Ok (st_modify _) _ d0 tt d1), (stm_bind_Ok st_get _ d1 d1 d1) in Hrun by done.
  unfold folder_exists in Hrun. rewrite bool_decide_eq_true_2 in Hrun by auto. rewrite Herr in Hrun.
  rewrite (stm_bind_Ok (st_modify _) _ d1 tt d2) in Hrun by done. change (delete_record [] d2 = (r, d')) in Hrun.
  unfold delete_record in Hrun.
  assert (forall A (m : stm St CoreError A) x y z, in_admin m x = (y, z) -> folders z = folders x) as Hfr.
  { intros A m x y z. unfold in_admin. destruct (m (admin_state x)). by intros [= <- <-]. }
  unfold mbind at 1, stm_bind at 1 in Hrun. destruct (in_admin _ d2) as [r2 d3] eqn:E in Hrun. apply Hfr in E.
  destruct r2 as [[|m ms]|e|]; try (injection Hrun as <- <-; by rewrite E).
  unfold mbind, stm_bind, st_lift in Hrun. destruct (map_err StorageCore _); [|injection Hrun as <- <-; by rewrite E..].
  apply Hfr in Hrun. by rewrite Hrun, E.
Qed.
(** The empty name and a name that begins with an underscore are accepted,
    although neither begins with a letter or digit. *)
Theorem undocumented_names_valid rest :
  later_chars rest ->
  ~ documented_name [] /\ @validate_name _ _ [] = Ok tt /\
  ~ documented_name (95 :: rest) /\ @validate_name _ _ (95 :: rest) = Ok tt.
Proof.
  intros Hrest. split; [by intros []|]. split; [done|]. split; [unfold documented_name, letter_or_digit; lia|].
  rewrite validate_name_spec, decide_True; [done|]. right. done.
Qed.
End Access.

(** ** Passwords *)

(** A hash verifies the password it was made of. *)
Class PasswordHasherLaws `{PasswordHasher} : Prop :=
  hash_verifies id p salt h : hash_password id p salt = Some h -> verify_password p h = true.

Section Passwords.
Context `{Nebari} `{Actionable} `{Digest} `{!AdminFormats} `{Blake3} `{PasswordHasher} `{!StorageIO} `{Profile} `{!PasswordHasherLaws}.
Context {St : Type} `{!LowLevelConnection St} (conn_ok : St -> Prop) (documents : St -> Database) `{!ConnectionLaws conn_ok documents}.
Context `{!FormatLaws user_collection}.

Abbreviation users_of a := (documents a (cl_name user_collection)).
Lemma users_wf : qualified_wf (cl_name user_collection).
Proof. done. Qed.

(** The revision of a stored user tells its contents apart. *)
Definition revisions_identify (D : Docs) : Prop :=
  forall did doc bs, D !! did = Some doc -> digest bs = sha256 (revision (header doc)) -> contents doc = bs.

Lemma load_user_key none uid (d : Data St) r d' :
  load_user none (RefKey Z uid) StorageCore d = (r, d') ->
  exists r1 a1, sc_get user_collection uid (admin_state d) = (r1, a1) /\ d' = with_admin a1 d /\
    r = (o ← map_err StorageCore r1; ok_or none o).
Proof.
  intros Hrun. unfold load_user in Hrun. change (named_load users (RefKey Z uid)) with (sc_get user_collection uid) in Hrun.
  destruct (sc_get user_collection uid (admin_state d)) as [r1 a1]. injection Hrun as <- <-. by exists r1, a1.
Qed.

(** What is stored after a user was updated. *)
Lemma updated_user_stored (u : CollectionDocument user_collection) uid a u' a' :
  ch_id (cd_header u) = uid -> in_range u64 uid = true -> conn_ok a -> revisions_identify (users_of a) ->
  cd_update u a = (Ok u', a') ->
  conn_ok a' /\ exists did doc, document_id_new (cl_key user_collection) uid = Ok did /\ users_of a' !! did = Some doc /\
    cl_deserialize user_collection (contents doc) = Some (user_of u).
Proof.
  intros Hid Hr Hok Hrev Hrun. apply (update_result conn_ok documents user_collection users_wf) in Hrun as [Hok' (_ & did & stored & Hseen & Hst)];
    [|by rewrite Hid|done]. split; [done|]. destruct Hseen as (Hdid & Hstored & _). rewrite Hid in Hdid.
  destruct Hst as (_ & bs & h & Hbs & _ & _ & Hcase). apply cl_roundtrip in Hbs. case_decide as Hd.
  - destruct Hcase as [-> _]. exists did, stored. split_and!; [done|done|]. by rewrite (Hrev did stored bs).
  - destruct Hcase as [-> _]. exists did, (MkDoc h bs). by rewrite lookup_insert_eq.
Qed.

(** A call fails as a call of the administration database that is part of it. *)
Definition fails_as {A} (inner : res CoreError A) (r : res StorageError Storage) : Prop :=
  match inner with
  | Ok _ => False
  | Err e => r = Err (StorageCore e)
  | Panic => r = Panic
  end.

Lemma assume_user_outcome u (d : Data St) r d' :
  assume_user u d = (r, d') ->
  (exists s p, r = Ok s /\ acts_as s (IdentityUser (user_id u) (username (user_of u))) p) \/
  fails_as (user_effective_permissions (user_of u) (authenticated_permissions d) (admin_state d)).1 r \/
  (r = Panic /\ in_range u64 (last_session_id d + 1) = false).
Proof.
  intros Hrun. destruct r as [s|e|].
  { apply assume_user_acts in Hrun as (p & a & _ & Hacts). left. eauto. }
  all: unfold assume_user, new_session, in_admin, mbind, stm_bind, st_get, st_lift, st_modify in Hrun;
    right; destruct (user_effective_permissions _ _ _) as [[p|e'|] a]; cbn in Hrun |- *; try (left; congruence).
  all: unfold op_add in Hrun; destruct (in_range u64 (last_session_id d + 1)) eqn:E; [discriminate Hrun|].
  all: destruct overflow_checks; try discriminate Hrun; by right.
Qed.

(** What can keep a user from authenticating with the right password: the
    administration database cannot be opened, the user or its permissions cannot
    be read from it, or there is no id for another session. *)
Definition authentication_fails (uid : Z) (d : Data St) (r : res StorageError Storage) : Prop :=
  (r = Panic /\ (admin d).1 = Panic) \/
  fails_as (sc_get user_collection uid (admin_state d)).1 r \/
  (exists u a, fails_as (user_effective_permissions u (authenticated_permissions d) a).1 r) \/
  (r = Panic /\ in_range u64 (last_session_id d + 1) = false).

(** The user as the password left it. *)
Lemma set_password_stored uid salt password (d d1 : Data St) :
  in_range u64 uid = true -> conn_ok (admin_state d) -> revisions_identify (users_of (admin_state d)) ->
  inst_set_user_password salt (RefKey Z uid) password d = (Ok tt, d1) ->
  conn_ok (admin_state d1) /\
  exists did doc u h, document_id_new (cl_key user_collection) uid = Ok did /\ users_of (admin_state d1) !! did = Some doc /\
    cl_deserialize user_collection (contents doc) = Some u /\ argon_hash u = Some h /\ verify_password password h = true.
Proof.
  intros Hr Hok Hrev Hset. unfold inst_set_user_password in Hset.
  destruct (admin_run d) as (r0 & o & f & Hadmin & _). apply stm_bind_Ok_inv in Hset as ([] & d0 & Had & Hset). rewrite Hadmin in Had. injection Had as -> <-.
  apply stm_bind_Ok_inv in Hset as (u & d3 & (r1 & a1 & Hget & -> & Hu)%load_user_key & Hset). symmetry in Hu.
  apply bind_Ok_inv in Hu as (ou & Hou & Hu). apply map_err_Ok_inv in Hou as ->. apply ok_or_Ok_inv in Hu as ->.
  destruct (get_result conn_ok documents user_collection users_wf uid _ _ _ Hr Hok Hget) as (Hok1 & Hsame & _ & Hres).
  destruct (Hres _ eq_refl) as (did & Hdid & stored & _ & _ & Hid).
  apply stm_bind_Ok_inv in Hset as (h & d4 & Hh & Hset). unfold st_lift in Hh. injection Hh as Hh <-. apply ok_or_Ok_inv in Hh.
  apply stm_bind_Ok_inv in Hset as (u' & d5 & [Hup Hd5]%in_admin_Ok & [= <-]).
  destruct (updated_user_stored (set_user (set_hash h) u) uid a1 u' (admin_state d5) Hid Hr Hok1 ltac:(by rewrite (Hsame _ users_wf)) Hup) as (Hok' & did' & doc & Hdid' & Hdoc & Hdes).
  split; [done|]. exists did', doc, (user_of (set_user (set_hash h) u)), h. split_and!; [done..|]. by eapply hash_verifies.
Qed.

(** C31: A user who was given a password can authenticate with it: as long as the
    stored user is not changed, authenticating with the id of the user and that
    password returns a session of that user, or fails because the administration
    database cannot be opened, the user or its permissions cannot be read from
    it, or no session id is left; it is not refused.  This supposes that no other
    contents have the digest of the stored user (an update whose contents have
    the digest of the stored ones is not written). *)
Theorem password_accepted env uid salt password d d1 d2 r d3 :
  in_range u64 uid = true -> conn_ok (admin_state d) -> revisions_identify (users_of (admin_state d)) ->
  inst_set_user_password salt (RefKey Z uid) password d = (Ok tt, d1) ->
  conn_ok (admin_state d2) ->
  (forall did, document_id_new (cl_key user_collection) uid = Ok did -> users_of (admin_state d2) !! did = users_of (admin_state d1) !! did) ->
  inst_authenticate env (AuthPassword (RefKey Z uid) password) d2 = (r, d3) ->
  (exists s name p, r = Ok s /\ acts_as s (IdentityUser uid name) p) \/ authentication_fails uid d2 r.
Proof.
  intros Hr Hok Hrev Hset Hok2 Hkept Hauth.
  destruct (set_password_stored _ _ _ _ _ Hr Hok Hrev Hset) as (_ & did & doc & u & h & Hdid & Hdoc & Hdes & Hhash & Hver).
  rewrite <- (Hkept did Hdid) in Hdoc. unfold inst_authenticate in Hauth. unfold authentication_fails.
  destruct (admin_run d2) as (r6 & o6 & f6 & Hadmin6 & Hr6). rewrite (stm_bind_run _ _ _ _ _ Hadmin6) in Hauth. rewrite Hadmin6.
  destruct Hr6 as [->| ->]; [|injection Hauth as <- <-; right; by left]. cbn [authenticate_inner] in Hauth.
  unfold mbind at 1, stm_bind at 1 in Hauth. destruct (load_user InvalidCredentials (RefKey Z uid) StorageCore (with_folders o6 f6 d2)) as [r7 d7] eqn:Hl in Hauth.
  apply load_user_key in Hl as (r8 & a8 & Hget8 & -> & ->). cbn [with_folders admin_state] in Hget8. rewrite Hget8.
  destruct (get_result conn_ok documents user_collection users_wf uid _ _ _ Hr Hok2 Hget8) as (_ & _ & _ & Hres8).
  destruct r8 as [[u8|]|e|]; cbn [map_err mbind res_bind ok_or] in Hauth; [| |injection Hauth as <- <-; right; right; by left..].
  - destruct (Hres8 _ eq_refl) as (did8 & Hdid8 & stored8 & Hst8 & Htry8 & Hid8). rewrite Hdid in Hdid8. injection Hdid8 as <-.
    rewrite Hdoc in Hst8. injection Hst8 as <-.
    unfold collection_document_try_from, cl_from_slice in Htry8. rewrite Hdes in Htry8. apply bind_Ok_inv in Htry8 as (? & [= <-] & Htry8).
    apply bind_Ok_inv in Htry8 as (h8 & _ & [= <-]). unfold user_of in Hauth at 1. cbn [cd_contents] in Hauth. rewrite Hhash in Hauth. cbn [ok_or] in Hauth.
    rewrite (stm_bind_Ok (st_lift _) _ _ h _ eq_refl), Hver in Hauth. apply assume_user_outcome in Hauth as [(s & p & -> & Hacts)|[Hfail|[-> Hfull]]].
    + left. unfold user_id in Hacts. rewrite Hid8 in Hacts. eauto.
    + do 3 right. left. eexists _, _. exact Hfail.
    + by do 4 right.
  - destruct (Hres8 _ eq_refl) as (did8 & Hdid8 & Hnone). rewrite Hdid8 in Hdid. injection Hdid as <-. congruence.
Qed.
End Passwords.

(** ** The id of a storage *)

Section Id.
Context {Fs : Type} `{!FileSystem Fs} `{!FileSystemLaws}.

Lemma storage_id_not_server : lit "storage-id" <> lit "server-id".
Proof. done. Qed.
Lemma from_utf8_display_uint n : 0 <= n <= int_max u64 -> from_utf8 (display_uint n) = Some (display_uint n).
Proof.
  intros Hn. destruct (display_uint_spec n (u64_digits n Hn)) as (Hd & _).
  assert (as_bytes (display_uint n) = display_uint n) as Heq by (by apply as_bytes_digits).
  rewrite <- Heq at 1. apply from_utf8_as_bytes. apply is_str_forall. eapply List.Forall_impl; [|exact Hd].
  unfold is_digit, is_char. intros c Hc. lia.
Qed.

Lemma written_id_read n random' (s s' : Fs) :
  0 <= n <= int_max u64 -> file_exists (id_path s) s = false -> file_write (id_path s) (display_uint n) s = (true, s') ->
  lookup_or_create_id None random' s' = (Ok n, s').
Proof.
  intros Hr Hnew Hw.
  assert (file_exists (lit "server-id") s = false) as Hserver by (unfold id_path in Hnew; destruct (file_exists (lit "server-id") s) eqn:E; congruence).
  unfold id_path in Hw. rewrite Hserver in Hw. destruct (write_read _ _ _ _ Hw) as [Hread Hex].
  destruct (write_others _ _ _ _ _ (lit "server-id") Hw ltac:(done)) as [_ Hs].
  unfold lookup_or_create_id, id_path. rewrite Hs, Hserver, Hex, Hread, from_utf8_display_uint by done. cbn [unwrap mbind res_bind]. by rewrite parse_display_u64.
Qed.

(** A storage keeps its id: the id drawn when it is created is read when
    it is opened again, whatever would be drawn then. *)
Theorem storage_id_stable random random' (s : Fs) id s' :
  0 <= random <= int_max u64 -> file_exists (id_path s) s = false -> lookup_or_create_id None random s = (Ok id, s') ->
  id = random /\ lookup_or_create_id None random' s' = (Ok id, s').
Proof.
  intros Hr Hnew Hrun. unfold lookup_or_create_id in Hrun at 1. rewrite Hnew in Hrun.
  destruct (file_write (id_path s) (display_uint random) s) as [[] s1] eqn:Hw; [|done]. injection Hrun as <- <-. split; [done|].
  by eapply written_id_read.
Qed.

(** An id given in the configuration is written when the storage has none:
    opened without it later, the storage has that id. *)
Theorem configured_id_is_stored configured random random' (s : Fs) s' :
  0 <= configured <= int_max u64 -> file_exists (id_path s) s = false ->
  lookup_or_create_id (Some configured) random s = (Ok configured, s') -> lookup_or_create_id None random' s' = (Ok configured, s').
Proof.
  intros Hc Hnew Hrun. unfold lookup_or_create_id in Hrun at 1. rewrite Hnew in Hrun.
  destruct (file_write (id_path s) (display_uint configured) s) as [[] s1] eqn:Hw; [|done]. injection Hrun as <-. by eapply written_id_read.
Qed.
End Id.
