(* ===== verification/StorageExamples.v ===== *)
(** * A concrete storage

    Formats for the administration schema, a storage with a user, a role, a
    group and a token, and the theorems on storages at concrete states of it. *)

From Stdlib Require Import ZArith Lia String.
From stdpp Require Import base list option numbers gmap sets.
From S2P Require Import Prelude Bytes Utf8 Digits Timestamp Key KeyLaws Range Time Nebari Document Names Changes Schema Permissions View Query Integrity Jobs Transaction Tasks StoreDemo ViewBatch TransactionLaws TransactionSpec QueryLaws TasksLaws TasksTheorems Vault VaultTheorems Connection ConnectionTheorems Admin AdminTheorems Storage StorageRegistry StorageSessions StorageTheorems.

Local Open Scope Z_scope.

Module StorageDemo.
Import MemNebari StoreDemo.
#[local] Instance debug : Profile := true.

Definition pack {A} `{Countable A} (x : A) : option bytes := Some (bits (encode x)).
Definition unpack {A} `{Countable A} (bs : bytes) : option A := decode (unbits bs).
Lemma unpack_pack {A} `{Countable A} (x : A) b : pack x = Some b -> unpack b = Some x.
Proof. intros [= <-]. unfold unpack. by rewrite unbits_bits, decode_encode. Qed.

(** Groups allow listing and creating databases. *)
Definition action_code (a : BonsaiAction) : option Z :=
  match a with ServerAct ListDatabases => Some 0 | ServerAct CreateDatabase => Some 1 | _ => None end.
Definition code_action (z : Z) : option BonsaiAction :=
  match z with 0 => Some (ServerAct ListDatabases) | 1 => Some (ServerAct CreateDatabase) | _ => None end.

Definition identity_code (i : IdentityId) : Z + Z := match i with IdUser id => inl id | IdRole id => inr id end.
Definition code_identity (x : Z + Z) : IdentityId := match x with inl id => IdUser id | inr id => IdRole id end.

#[local] Instance demo_formats : AdminFormats := {|
  database_to_vec d := pack (dr_name d, dr_schema d);
  database_from_slice bs := '(n, s) ← unpack bs; Some (MkDatabaseRecord n s);
  user_to_vec u := pack (username u, user_groups u, user_roles u, argon_hash u);
  user_from_slice bs := '(n, g, r, h) ← unpack bs; Some (MkUser n g r h);
  role_to_vec r := pack (role_name r, role_groups r);
  role_from_slice bs := '(n, g) ← unpack bs; Some (MkRole n g);
  group_to_vec g := codes ← mapM action_code (statements g); pack (group_name g, codes);
  group_from_slice bs := '(n, codes) ← unpack bs; l ← mapM code_action codes; Some (MkPermissionGroup n l);
  token_to_vec t := pack (identity_code (tok_identity t), tok_token t, tok_created_at t);
  token_from_slice bs := '(i, t, c) ← unpack bs; Some (MkAuthenticationToken (code_identity i) t c);
  schema_name_to_vec n := pack n;
  schema_name_from_slice bs := unpack bs;
  unit_to_vec _ := Some []; unit_from_slice _ := Some tt;
  databases_by_name := 30; users_by_name := 31; roles_by_name := 32; groups_by_name := 33 |}.

#[local] Instance database_format : FormatLaws database_collection.
Proof. intros [n s] b Hb. cbn in Hb. apply unpack_pack in Hb. cbn. by rewrite Hb. Qed.
#[local] Instance user_format : FormatLaws user_collection.
Proof. intros [n g r h] b Hb. cbn in Hb. apply unpack_pack in Hb. cbn. by rewrite Hb. Qed.
Lemma schema_name_format n : exists b, schema_name_to_vec n = Some b /\ schema_name_from_slice b = Some n.
Proof. eexists. split; [done|]. by apply unpack_pack. Qed.

(** A keyed hash that keeps the key and what is hashed. *)
#[local] Instance demo_blake3 : Blake3 := {| derive_key _ m := m; keyed_hash k n := take 32 (k ++ n ++ replicate 32 0) |}.
(** Passwords in clear text. *)
#[local] Instance demo_hasher : PasswordHasher := {| hash_password _ p _ := Some p; verify_password p h := bool_decide (p = h) |}.
#[local] Instance demo_hasher_laws : PasswordHasherLaws.
Proof. intros id p salt h [= <-]. by apply bool_decide_eq_true. Qed.
#[local] Instance demo_io : StorageIO := {| open_error _ := None; delete_error _ := None |}.

Definition name_view (c : CollectionName) (map : Doc -> res ViewError (list Mapping)) : View :=
  MkView (MkViewName c (name_from (lit "by-name"))) c 1 Unique map (fun _ _ => Err ReduceUnimplemented).
Definition databases_view : View := name_view (cl_name database_collection) databases_by_name_map.
Definition admin_schema : Schematic :=
  (define_collections
     [MkCollection 40 (cl_name database_collection) None key_u64 [(30, databases_view)];
      MkCollection 41 (cl_name group_collection) None key_u64 [(33, name_view (cl_name group_collection) groups_by_name_map)];
      MkCollection 42 (cl_name role_collection) None key_u64 [(32, name_view (cl_name role_collection) roles_by_name_map)];
      MkCollection 43 (cl_name user_collection) (Some KeyIdMaster) key_u64 [(31, name_view (cl_name user_collection) users_by_name_map)];
      MkCollection 44 (cl_name token_collection) None key_u64 []] (schematic_new admin_schema_name)).2.

#[local] Instance admin_connection : LowLevelConnection Database := reference_connection admin_schema.
#[local] Instance admin_connection_laws : ConnectionLaws ids_match (fun D => D) := reference_laws admin_schema.

Lemma databases_view_found : views ll_schematic !! databases_by_name = Some databases_view /\
  view_by_name ll_schematic (view_name databases_view) = Ok databases_view.
Proof. split; reflexivity. Qed.
Lemma databases_generator : collection_id_generators ll_schematic !! cl_name database_collection = Some key_u64.
Proof. reflexivity. Qed.

(** ** Databases *)

Definition nothing : Database := fun _ => ∅.
Definition nobody : Permissions := permissions_default.
Definition fresh : Data Database := initial_data nothing {[ notes := demo_schema ]} ∅ nobody.

Lemma nothing_ids : ids_match nothing.
Proof. intros c d doc Hd. unfold nothing in Hd. by rewrite lookup_empty in Hd. Qed.
Lemma no_records : records_ok ∅.
Proof.
  split; [intros d [doc Hd]|intros d doc Hd|intros d d' doc doc' r r' Hd]; by rewrite lookup_empty in Hd.
Qed.
Lemma fresh_synced : synced ids_match (fun D => D) fresh.
Proof.
  split_and!; [apply nothing_ids|apply no_records|]. intros n s. cbn. rewrite lookup_empty. split; [done|].
  intros (did & doc & r & Hd & _). unfold nothing in Hd. by rewrite lookup_empty in Hd.
Qed.
Definition name_a : str := lit "a".
Lemma name_a_fits : alloc_ok (as_bytes name_a).
Proof. vm_compute. congruence. Qed.
Definition created := inst_create_database_with_schema name_a notes false fresh.
Lemma create_runs : created = (Ok tt, created.2).
Proof. rewrite (surjective_pairing created) at 1. f_equal. Qed.

Lemma create_spec : spec_create_database (schemas fresh) name_a notes false (available_databases fresh) = Ok {[ name_a := notes ]}.
Proof. reflexivity. Qed.

Lemma create_database_refines_witness : available_databases created.2 = {[ name_a := notes ]} /\ synced ids_match (fun D => D) created.2.
Proof.
  destruct (create_database_refines ids_match (fun D => D) databases_generator name_a notes false fresh (Ok tt) created.2 fresh_synced name_a_fits create_runs)
    as [Hs Hspec].
  split; [exact (eq_sym (Ok_inj _ _ (eq_trans (eq_sym create_spec) Hspec)))|exact Hs].
Defined.

(** One database, [a], as its record. *)
Definition record_bytes : bytes := default [] (database_to_vec (MkDatabaseRecord name_a notes)).
Definition record_doc : Doc := document_new (to_be_bytes u64 1) record_bytes.
Definition one_record : Database := set_documents nothing (cl_name database_collection) {[ to_be_bytes u64 1 := record_doc ]}.
Definition record_a : CollectionDocument database_collection :=
  MkCollectionDocument (C := database_collection) (MkCollectionHeader 1 (revision_new record_bytes)) (MkDatabaseRecord name_a notes).
Lemma record_reads : collection_document_try_from database_collection record_doc = Ok record_a.
Proof. reflexivity. Qed.

Lemma one_record_ids : ids_match one_record.
Proof.
  intros c d doc. unfold one_record, set_documents. case_decide; [|unfold nothing; by rewrite lookup_empty].
  intros [<- <-]%lookup_singleton_Some. done.
Qed.
Lemma one_record_ok : records_ok (one_record (cl_name database_collection)).
Proof.
  unfold one_record, set_documents. rewrite decide_True by done. split.
  - intros d [doc [<- <-]%lookup_singleton_Some]. exists 1. split_and!; [done|done|]. vm_compute. congruence.
  - intros d doc [<- <-]%lookup_singleton_Some. exists record_a. split_and!; [apply record_reads|done|apply name_a_fits].
  - by intros d d' doc doc' r r' [<- <-]%lookup_singleton_Some [<- <-]%lookup_singleton_Some.
Qed.
Lemma one_record_recorded n s : recorded (one_record (cl_name database_collection)) n s <-> n = name_a /\ s = notes.
Proof.
  unfold recorded, one_record, set_documents. rewrite decide_True by done. split.
  - intros (d & doc & r & [<- <-]%lookup_singleton_Some & Hr & <- & <-). rewrite record_reads in Hr. by injection Hr as <-.
  - intros [-> ->]. exists (to_be_bytes u64 1), record_doc, record_a. rewrite lookup_singleton_eq. by split_and!; [|apply record_reads|..].
Qed.

Definition opened_a : Data Database :=
  MkData one_record {[ notes := demo_schema ]} {[ name_a := notes ]} ∅ {[ name_a ]} nobody ∅ ∅ 0 (MkSessionSubscribers ∅ ∅ 0).
Lemma opened_a_synced : synced ids_match (fun D => D) opened_a.
Proof.
  split_and!; [apply one_record_ids|apply one_record_ok|]. intros n s. cbn [opened_a available_databases admin_state].
  rewrite one_record_recorded, lookup_singleton_Some. naive_solver.
Qed.

Definition deleted := inst_delete_database name_a opened_a.
Lemma delete_runs : deleted = (Ok tt, deleted.2).
Proof. rewrite (surjective_pairing deleted) at 1. f_equal. Qed.
Lemma delete_spec : spec_delete_database name_a (available_databases opened_a) = Ok ∅.
Proof. reflexivity. Qed.
Lemma delete_database_refines_witness : available_databases deleted.2 !! name_a = None /\ name_a ∉ folders deleted.2.
Proof.
  destruct (delete_database_refines ids_match (fun D => D) databases_view (proj1 databases_view_found) (proj2 databases_view_found)
    eq_refl eq_refl databases_generator schema_name_format name_a opened_a (Ok tt) deleted.2 opened_a_synced eq_refl ltac:(done) ltac:(done) delete_runs)
    as (_ & Hspec & Hf & _).
  split; [|exact Hf]. pose proof (Ok_inj _ _ (eq_trans (eq_sym delete_spec) Hspec)) as Heq. rewrite <- Heq. reflexivity.
Defined.

Definition cached := cache_available_databases (initial_data one_record ∅ ∅ nobody).
Lemma cache_runs : cached = (Ok tt, cached.2).
Proof. rewrite (surjective_pairing cached) at 1. f_equal. Qed.
Lemma cache_restores_witness : synced ids_match (fun D => D) cached.2.
Proof.
  exact (cache_restores ids_match (fun D => D) databases_view (proj1 databases_view_found) (proj2 databases_view_found) eq_refl eq_refl schema_name_format
    (initial_data one_record ∅ ∅ nobody) cached.2 one_record_ids one_record_ok cache_runs).
Defined.

(** Three databases are gone with the one that has no name. *)
Definition three : Data Database := with_folders ∅ {[ name_a; lit "b"; ADMIN_DATABASE_NAME ]} opened_a.
Lemma no_delete_error : delete_error [] = None.
Proof. done. Qed.
Lemma deleting_the_empty_name_witness :
  let '(r, d) := inst_delete_database [] three in r = Err (DatabaseNotFound []) /\ folders d = ∅.
Proof.
  destruct (inst_delete_database [] three) as [r d] eqn:E.
  assert (r = Err (DatabaseNotFound [])) as -> by (assert ((inst_delete_database [] three).1 = Err (DatabaseNotFound [])) as Hr by reflexivity; by rewrite E in Hr).
  split; [reflexivity|]. destruct (deleting_the_empty_name three _ d no_delete_error E) as [Hp|Hf]; [discriminate|exact Hf].
Defined.

(** ** Users, roles and tokens *)

Definition stored (C : CollectionTy) (d : Z) (x : cl_contents C) (D : Database) : Database :=
  set_documents D (cl_name C) (<[ to_be_bytes u64 d := document_new (to_be_bytes u64 d) (default [] (cl_serialize C x)) ]> (D (cl_name C))).
Lemma demo_stored_ids C d x D : ids_match D -> ids_match (stored C d x D).
Proof.
  intros HD c k doc. unfold stored, set_documents. case_decide; [|apply HD]. subst c.
  intros [[<- <-]|[_ Hk]]%lookup_insert_Some; [done|by eapply HD].
Qed.

(** The user has the group 1 and the role 7; a role has the id 1, and its group
    may list databases. *)
Definition ann : User := MkUser (lit "ann") [1] [7] None.
Definition people : Database :=
  stored user_collection 5 ann (stored role_collection 1 (MkRole (lit "r") [2])
    (stored group_collection 2 (MkPermissionGroup (lit "g") [ServerAct ListDatabases]) nothing)).
Lemma people_ids : ids_match people.
Proof. repeat apply demo_stored_ids. apply nothing_ids. Qed.

Definition listing_role : CollectionDocument role_collection :=
  MkCollectionDocument (C := role_collection) (MkCollectionHeader 1 (revision_new (default [] (role_to_vec (MkRole (lit "r") [2]))))) (MkRole (lit "r") [2]).
Definition listing_group : CollectionDocument group_collection :=
  MkCollectionDocument (C := group_collection)
    (MkCollectionHeader 2 (revision_new (default [] (group_to_vec (MkPermissionGroup (lit "g") [ServerAct ListDatabases])))))
    (MkPermissionGroup (lit "g") [ServerAct ListDatabases]).
Lemma listing_role_stored : stored_at role_collection people 1 listing_role.
Proof. eexists _, _. split_and!; reflexivity. Qed.
Lemma listing_group_stored : stored_at group_collection people 2 listing_group.
Proof. eexists _, _. split_and!; reflexivity. Qed.

Definition permitted := user_effective_permissions ann nobody people.
Definition ann_permissions : Permissions := default nobody (res_ok permitted.1).
Lemma permitted_runs : permitted = (Ok ann_permissions, people).
Proof. reflexivity. Qed.
Lemma user_permissions_exact_witness : allowed_to ann_permissions [] (ServerAct ListDatabases) = true.
Proof.
  apply (proj1 (user_permissions_exact ids_match (fun D => D) ann nobody people ann_permissions people [] (ServerAct ListDatabases) people_ids permitted_runs)).
  right. exists 2, listing_group. split_and!; [|exact listing_group_stored|reflexivity].
  right. split; [done|]. exists 1, listing_role. split_and!; [by left|exact listing_role_stored|by left].
Defined.

(** Sessions: one is opened for the user, and the storage that holds it is
    dropped. *)
Definition with_people : Data Database := initial_data people ∅ ∅ nobody.
Lemma with_people_ok : sessions_ok with_people.
Proof. split; [set_solver|intros id a Ha; change (authenticated with_people) with (∅ : gmap Z AuthenticatedSession) in Ha; by rewrite lookup_empty in Ha|done|done]. Qed.
Definition login : list Event := [EvAssumeIdentity unauthenticated (RefUser (RefKey Z 5)); EvDrop (MkStorage (Some 1) None)].
Definition login_again : list Event := [EvAssumeIdentity unauthenticated (RefUser (RefKey Z 5))].
Lemma login_short : last_session_id with_people + Z.of_nat (length (login ++ login_again)) <= int_max u64.
Proof. vm_compute. congruence. Qed.
Lemma sessions_invariant_witness :
  registered (run login with_people) = {[ 1 ]} /\ registered (run (login ++ login_again) with_people) = {[ 2; 1 ]} /\
  sessions_ok (run (login ++ login_again) with_people) /\
  last_session_id (run login with_people) <= last_session_id (run (login ++ login_again) with_people).
Proof.
  split; [reflexivity|]. split; [reflexivity|].
  destruct (sessions_invariant login login_again with_people with_people_ok login_short) as (Hok & Hlast & _).
  split; [exact Hok|exact Hlast].
Defined.

Definition logged_in : Data Database := run (take 1 login) with_people.
Lemma logged_in_ok : sessions_ok logged_in.
Proof.
  assert (authenticated logged_in = {[ 1 := default (MkAuthenticatedSession (MkSession None AuthNone nobody) 0) (authenticated logged_in !! 1) ]}) as Ha by reflexivity.
  assert (registered logged_in = {[ 1 ]}) as Hr by reflexivity.
  split; [|..|done|done].
  - intros id. rewrite Hr, elem_of_singleton. intros ->. by eexists.
  - intros id a. rewrite Ha. intros [<- <-]%lookup_singleton_Some. by split_and!.
Qed.
Lemma logged_in_registered : 1 ∈ registered logged_in.
Proof. assert (registered logged_in = {[ 1 ]}) as -> by reflexivity. by apply elem_of_singleton. Qed.
Lemma drop_short : last_session_id logged_in + Z.of_nat (length (drop 1 login)) <= int_max u64.
Proof. assert (last_session_id logged_in = 1) as -> by reflexivity. vm_compute. congruence. Qed.
Lemma sessions_stay_registered_witness : 1 ∈ registered (run (drop 1 login) logged_in).
Proof. exact (sessions_stay_registered (drop 1 login) logged_in logged_in_ok drop_short eq_refl 1 logged_in_registered). Defined.

(** A token of the user: its challenge and the answer to it. *)
Definition secret : str := lit "s".
Definition tokens : Database := stored token_collection 9 (MkAuthenticationToken (IdUser 5) secret 0) people.
Definition ambient : Ambient := MkAmbient 0 0 [4] [].
Definition time_hash : bytes := default [] (res_ok (compute_request_time_hash_blake3 0 secret)).
Definition begun := begin_token_authentication ambient 9 0 time_hash (initial_data tokens ∅ ∅ nobody).
Definition answer : bytes := default [] (res_ok (compute_challenge_response_blake3 secret [4] 0)).
Definition challenged : Data Database := begun.2.
Lemma begun_runs : is_ok begun.1 = true.
Proof. reflexivity. Qed.
Definition finished := finish_token_authentication 1 answer challenged.
Definition ann_storage : Storage := default unauthenticated (res_ok finished.1).
Lemma finish_runs : finished = (Ok ann_storage, finished.2).
Proof. rewrite (surjective_pairing finished) at 1. f_equal. Qed.

Lemma challenged_ok : sessions_ok challenged.
Proof.
  assert (authenticated challenged = {[ 1 := default (MkAuthenticatedSession (MkSession None AuthNone nobody) 0) (authenticated challenged !! 1) ]}) as Ha by reflexivity.
  assert (registered challenged = {[ 1 ]}) as Hr by reflexivity.
  split; [|..|done|done].
  - intros id. rewrite Hr, elem_of_singleton. intros ->. by eexists.
  - intros id a. rewrite Ha. intros [<- <-]%lookup_singleton_Some. by split_and!.
Qed.
Lemma challenged_left : session_left (last_session_id challenged).
Proof. assert (last_session_id challenged = 1) as -> by reflexivity. split; vm_compute; congruence. Qed.
Lemma challenge_answered_once_witness : (finish_token_authentication 1 answer finished.2).1 = Err InvalidCredentials.
Proof.
  rewrite (challenge_answered_once 1 answer answer challenged (Ok ann_storage) finished.2 challenged_ok challenged_left finish_runs). reflexivity.
Defined.
Lemma challenge_sound_witness : exists i p, acts_as ann_storage i p.
Proof.
  destruct (challenge_sound 1 answer challenged ann_storage finished.2 finish_runs) as (a & tid & nonce & ts & token & a' & _ & _ & _ & _ & _ & i & p & _ & Hacts).
  exists i, p. exact Hacts.
Defined.

(** The user gets a password. *)
Definition password_set := inst_set_user_password [] (RefKey Z 5) (lit "pw") with_people.
Lemma password_set_runs : password_set = (Ok tt, password_set.2).
Proof. rewrite (surjective_pairing password_set) at 1. f_equal. Qed.
Definition tried := inst_authenticate ambient (AuthPassword (RefKey Z 5) (lit "pw")) password_set.2.
Definition pw_storage : Storage := default unauthenticated (res_ok tried.1).
Lemma tried_runs : tried = (Ok pw_storage, tried.2).
Proof. rewrite (surjective_pairing tried) at 1. f_equal. Qed.
(** The digest of the examples keeps the contents. *)
Lemma people_identify : revisions_identify (people (cl_name user_collection)).
Proof.
  intros did doc bs. unfold people, stored at 1, set_documents. rewrite decide_True by done.
  assert (forall D, stored role_collection 1 (MkRole (lit "r") [2]) D (cl_name user_collection) = D (cl_name user_collection)) as -> by done.
  intros [[<- <-]|[_ Hd]]%lookup_insert_Some Hbs; [exact (eq_sym Hbs)|].
  unfold stored, set_documents in Hd. rewrite decide_False in Hd by done. unfold nothing in Hd. by rewrite lookup_empty in Hd.
Qed.
Lemma password_set_ids : ids_match (admin_state password_set.2).
Proof. exact (proj1 (set_password_stored ids_match (fun D => D) 5 [] (lit "pw") with_people password_set.2 eq_refl people_ids people_identify password_set_runs)). Qed.
Lemma password_accepted_witness : exists name p, acts_as pw_storage (IdentityUser 5 name) p.
Proof.
  destruct (password_accepted ids_match (fun D => D) ambient 5 [] (lit "pw") with_people password_set.2 password_set.2 (Ok pw_storage) tried.2
    eq_refl people_ids people_identify password_set_runs password_set_ids (fun _ _ => eq_refl) tried_runs)
    as [(s & name & p & Hs & Hacts)|[[[=] _]|[Hf|[(u & a & Hf)|[[=] _]]]]].
  - injection Hs as <-. exists name, p. exact Hacts.
  - unfold fails_as in Hf. destruct (sc_get user_collection 5 _).1; [destruct Hf|discriminate Hf..].
  - unfold fails_as in Hf. destruct (user_effective_permissions _ _ _).1; [destruct Hf|discriminate Hf..].
Defined.

(** The name of a role to add is looked up among the groups: the role [r]
    exists and is not found, and the group [g] is assigned as if it were a role. *)
Theorem role_names_are_group_names :
  (add_role_to_user unauthenticated (RefKey Z 5) (RefName Z (lit "r")) with_people).1 = Err UserNotFound /\
  (add_role_to_user unauthenticated (RefKey Z 5) (RefName Z (lit "g")) with_people).1 = Ok tt /\
  (remove_role_from_user unauthenticated (RefKey Z 5) (RefName Z (lit "r")) with_people).1 = Ok tt.
Proof. split_and!; reflexivity. Qed.

(** ** The id of a storage *)

#[local] Existing Instance VaultExamples.memory_files.
#[local] Existing Instance VaultExamples.memory_files_laws.
Definition no_files : gmap str bytes := ∅.
Definition drawn := lookup_or_create_id None 77 no_files.
Lemma drawn_runs : drawn = (Ok 77, drawn.2).
Proof. vm_compute. reflexivity. Qed.
Lemma drawn_range : 0 <= 77 <= int_max u64.
Proof. split; vm_compute; congruence. Qed.
Lemma no_id_file : file_exists (id_path no_files) no_files = false.
Proof. reflexivity. Qed.
Lemma storage_id_stable_witness : lookup_or_create_id None 8 drawn.2 = (Ok 77, drawn.2).
Proof. exact (proj2 (storage_id_stable 77 8 no_files 77 drawn.2 drawn_range no_id_file drawn_runs)). Defined.

Definition configured := lookup_or_create_id (Some 77) 5 no_files.
Lemma configured_runs : configured = (Ok 77, configured.2).
Proof. vm_compute. reflexivity. Qed.
Lemma configured_id_is_stored_witness : lookup_or_create_id None 8 configured.2 = (Ok 77, configured.2).
Proof. exact (configured_id_is_stored 77 5 8 no_files configured.2 drawn_range no_id_file configured_runs). Defined.
End StorageDemo.
