(* ===== verification/Backup.v ===== *)
(** * Backup and restore

    [bonsaidb-local/src/storage/backup.rs]: the trait [BackupLocation] as a
    class, directories as a location, copying a database to a location and
    restoring it, and the same for a whole storage.  The documents of a database
    are behind a connection, its keys and values are those of [KeyValue].

    The file system and the serializer of entries ([pot]) are parameters; the
    order in which the collections of a schematic are visited, that of a hash
    map, is an argument. *)

From Stdlib Require Import ZArith Lia String.
From stdpp Require Import base list option numbers gmap sorting.
From S2P Require Import Prelude Bytes Utf8 Digits Timestamp Numeric Persistence Key Range Nebari Document Names KeyValue Schema Permissions View Query Transaction Vault Connection Admin Storage.

Local Open Scope Z_scope.

(** ** Locations *)

(** A container of named objects: schema, database and container. *)
Record Container := MkContainer { ct_schema : SchemaName; ct_database : str; ct_name : str }.
#[export] Instance Container_eq_dec : EqDecision Container.
Proof. solve_decision. Defined.

Class BackupLocation (L : Type) := {
  location_error : Type;
  store : Container -> str -> bytes -> stm L location_error unit;
  list_schemas : L -> res location_error (list SchemaName);
  location_databases : SchemaName -> L -> res location_error (list str);
  list_stored : Container -> L -> res location_error (list str);
  load : Container -> str -> L -> res location_error bytes
}.

(** ** Directories *)

Inductive FileType := TypeDir | TypeFile | TypeOther.
(** An entry of a directory: its name if it is UTF-8, and its type. *)
Record DirEntry (E : Type) := MkDirEntry { entry_name : option str; entry_type : res E FileType }.
Arguments MkDirEntry {E} _ _.
Arguments entry_name {E} _.
Arguments entry_type {E} _.

Class Directories (F : Type) := {
  io_error : Type;
  is_not_found : io_error -> bool;
  create_dir_all : str -> stm F io_error unit;
  fs_write : str -> bytes -> stm F io_error unit;
  fs_read : str -> F -> res io_error bytes;
  read_dir : str -> F -> res io_error (list (res io_error (DirEntry io_error)))
}.

Definition slash : Z := 47.
(** [Path::join]: an absolute path replaces the base. *)
Definition join (base name : str) : str :=
  if bool_decide (head name = Some slash) then name
  else match last base with
       | None => name
       | Some c => if c =? slash then base ++ name else base ++ slash :: name
       end.

Section Directories.
Context {F : Type} `{!Directories F}.

Definition ignore_not_found {A} (r : res io_error A) : res io_error (option A) :=
  match r with
  | Ok value => Ok (Some value)
  | Err err => if is_not_found err then Ok None else Err err
  | Panic => Panic
  end.

(** The loop of [iterate_directory]: it ends at an entry that is not found. *)
Fixpoint iterate_entries {T} (callback : DirEntry io_error -> str -> res io_error (option T))
    (directories : list (res io_error (DirEntry io_error))) : res io_error (list T) :=
  match directories with
  | [] => Ok []
  | next :: directories =>
      entry ← ignore_not_found next;
      match entry with
      | None => Ok []
      | Some entry =>
          match entry_name entry with
          | Some file_name =>
              result ← callback entry file_name;
              collected ← iterate_entries callback directories;
              Ok (option_list result ++ collected)
          | None => iterate_entries callback directories
          end
      end
  end.
Definition iterate_directory {T} (path : str) (callback : DirEntry io_error -> str -> res io_error (option T)) (f : F)
    : res io_error (list T) :=
  directories ← ignore_not_found (read_dir path f);
  match directories with
  | Some directories => iterate_entries callback directories
  | None => Ok []
  end.

Definition schema_folder (base : str) (schema : SchemaName) : str := join base (qualified_encoded schema).
Definition database_folder (base : str) (schema : SchemaName) (database_name : str) : str :=
  join (schema_folder base schema) database_name.
Definition container_folder (base : str) (c : Container) : str :=
  join (database_folder base (ct_schema c) (ct_database c)) (ct_name c).

Definition schema_entry (entry : DirEntry io_error) (file_name : str) : res io_error (option SchemaName) :=
  type ← entry_type entry;
  Ok match type, qualified_parse_encoded file_name with
     | TypeDir, Ok schema_name => Some schema_name
     | _, _ => None
     end.
Definition database_entry (entry : DirEntry io_error) (file_name : str) : res io_error (option str) :=
  type ← entry_type entry;
  Ok match type with
     | TypeDir => if decide (file_name = lit "_kv") then None else Some file_name
     | _ => None
     end.
Definition file_entry (entry : DirEntry io_error) (file_name : str) : res io_error (option str) :=
  type ← entry_type entry;
  Ok match type with TypeFile => Some file_name | _ => None end.

Definition path_store (base : str) (c : Container) (name : str) (object : bytes) : stm F io_error unit :=
  create_dir_all (container_folder base c);;
  fs_write (join (container_folder base c) name) object.

(** [BackupLocation for Path]. *)
Definition path_location (base : str) : BackupLocation F := {|
  location_error := io_error;
  store := path_store base;
  list_schemas := iterate_directory base schema_entry;
  location_databases schema := iterate_directory (schema_folder base schema) database_entry;
  list_stored c := iterate_directory (container_folder base c) file_entry;
  load c name := fs_read (join (container_folder base c) name)
|}.
End Directories.

(** ** Names of keys *)

Definition key_marker : str := lit "._key._".
(** [str::split_once] on a string. *)
Fixpoint split_at_str (pattern s : str) : option (str * str) :=
  if decide (take (length pattern) s = pattern) then Some ([], drop (length pattern) s)
  else match s with
       | [] => None
       | c :: s => '(a, b) ← split_at_str pattern s; Some (c :: a, b)
       end.
Definition full_name (namespace : option str) (key : str) : str := default [] namespace ++ key_marker ++ key.
Definition KV_CONTAINER : str := lit "_kv".

(** ** Databases *)

(** A [for] loop that returns early. *)
Fixpoint for_each {S E A} (f : A -> stm S E unit) (l : list A) : stm S E unit :=
  match l with
  | [] => mret tt
  | x :: l => f x;; for_each f l
  end.

Class EntryFormat := { entry_to_vec : KeyValue.Entry -> option bytes; entry_from_slice : bytes -> option KeyValue.Entry }.

Inductive BackupError `{Nebari} `{Actionable} (E : Type) :=
| LocationFailed (e : E)
| BackupCore (e : CoreError)
| BackupKeyValue (e : KvError)
| BackupFormat
| BackupStorage (e : StorageError).
Arguments LocationFailed {_ _ _} _.
Arguments BackupCore {_ _ _} _.
Arguments BackupKeyValue {_ _ _} _.
Arguments BackupFormat {_ _ _}.
Arguments BackupStorage {_ _ _} _.

Section Database.
Context `{Nebari} `{Actionable} `{!AdminFormats} `{EntryCodec} `{Profile} `{!EntryFormat}.
Context {St : Type} `{!LowLevelConnection St} {L : Type} `{!BackupLocation L} (clock : nat -> Timestamp).

(** A database and a location. *)
Record Copying := MkCopying { cp_conn : St; cp_kv : World; cp_location : L }.
Abbreviation backupm := (stm Copying (BackupError location_error)).

Definition on_conn {A} (m : stm St CoreError A) : backupm A := fun b =>
  let '(r, s) := m (cp_conn b) in (map_err BackupCore r, MkCopying s (cp_kv b) (cp_location b)).
Definition on_kv {A} (m : stm World KvError A) : backupm A := fun b =>
  let '(r, w) := m (cp_kv b) in (map_err BackupKeyValue r, MkCopying (cp_conn b) w (cp_location b)).
Definition on_location {A} (m : stm L location_error A) : backupm A := fun b =>
  let '(r, l) := m (cp_location b) in (map_err LocationFailed r, MkCopying (cp_conn b) (cp_kv b) l).
Definition from_location {A} (f : L -> res location_error A) : backupm A := fun b =>
  (map_err LocationFailed (f (cp_location b)), b).

Definition container (name container_name : str) : Container := MkContainer (schematic_name (ll_schematic (St := St))) name container_name.

Definition backup_document (name : str) (collection : CollectionName) (document : Doc) : backupm unit :=
  on_location (store (container name (qualified_encoded collection)) (document_id_display (id (header document))) (contents document)).
Definition backup_entry (name : str) (e : option str * str * KeyValue.Entry) : backupm unit :=
  object ← st_lift (ok_or BackupFormat (entry_to_vec e.2));
  on_location (store (container name KV_CONTAINER) (full_name e.1.1 e.1.2) object).
Definition backup_entries (name : str) : backupm unit :=
  b ← st_get;
  entries ← st_lift (map_err BackupKeyValue (all_key_value_entries (kv (cp_kv b))));
  for_each (backup_entry name) (merge_sort entry_key_le (map_to_list entries)).

(** The entries are stored once for every collection. *)
Definition backup_collection (name : str) (collection : CollectionName) : backupm unit :=
  documents ← on_conn (ll_list_from_collection from_range_full Ascending None collection);
  for_each (backup_document name collection) documents;;
  backup_entries name.
Definition backup_database (name : str) (collections : list CollectionName) : backupm unit :=
  for_each (backup_collection name) collections.

(** The objects of a collection whose names are ids, as insertions. *)
Fixpoint restore_objects (name : str) (collection : CollectionName) (names : list str) : backupm (list Operation) :=
  match names with
  | [] => mret []
  | id_string :: names =>
      match document_id_from_str (as_bytes id_string) with
      | Ok d =>
          contents ← from_location (load (container name (qualified_encoded collection)) id_string);
          rest ← restore_objects name collection names;
          mret (op_insert collection (Some d) contents :: rest)
      | Err _ => restore_objects name collection names
      | Panic => st_lift Panic
      end
  end.
Fixpoint restore_collections (name : str) (collections : list CollectionName) : backupm (list Operation) :=
  match collections with
  | [] => mret []
  | collection :: collections =>
      names ← from_location (list_stored (container name (qualified_encoded collection)));
      objects ← restore_objects name collection names;
      rest ← restore_collections name collections;
      mret (objects ++ rest)
  end.

(** [Entry::restore]. *)
Definition restore_operation (namespace : option str) (key : str) (e : KeyValue.Entry) : KeyOperation :=
  KeyValue.MkKeyOp namespace key (KeyValue.CSet (KeyValue.MkSet (KeyValue.value e) (KeyValue.expiration e) false None false)).
Definition execute_key_operation (name : str) (session : option Session) (op : KeyOperation) : backupm Output :=
  st_lift (map_err (fun e => BackupCore (CoreDenied e))
    (check_permission session (keyvalue_key_resource_name name (KeyValue.namespace op) (KeyValue.key op)) (DatabaseAct (KeyValueAct ExecuteOperation))));;
  on_kv (perform_kv_operation clock op).
Definition restore_entry (name : str) (session : option Session) (full_key : str) : backupm unit :=
  match split_at_str key_marker full_key with
  | Some (namespace, key) =>
      entry ← from_location (load (container name KV_CONTAINER) full_key);
      entry ← st_lift (ok_or BackupFormat (entry_from_slice entry));
      let namespace := match namespace with [] => None | _ => Some namespace end in
      execute_key_operation name session (restore_operation namespace key entry);;
      mret tt
  | None => mret tt
  end.

(** The collection of databases is not restored. *)
Definition restored_collections (collections : list CollectionName) : list CollectionName :=
  filter (fun c => c <> cl_name database_collection) collections.
Definition restore_database (name : str) (session : option Session) (collections : list CollectionName) : backupm unit :=
  operations ← restore_collections name (restored_collections collections);
  on_conn (ll_apply_transaction operations);;
  full_keys ← from_location (list_stored (container name KV_CONTAINER));
  for_each (restore_entry name session) full_keys.
End Database.

(** ** A whole storage *)

Section Storage.
Context `{Nebari} `{Actionable} `{!AdminFormats} `{EntryCodec} `{Profile} `{!EntryFormat} `{!StorageIO}.
Context {St : Type} `{!LowLevelConnection St} {L : Type} `{!BackupLocation L} (clock : nat -> Timestamp).
(** The connection of a database with a schema, and the orders of hash maps. *)
Context (conns : SchemaName -> LowLevelConnection St).
Context (database_order : gmap str SchemaName -> list str) (collection_order : Schematic -> list CollectionName).

(** A storage with its databases, and a location.  The documents of the
    administration database are those the storage uses. *)
Record Copies := MkCopies { cs_data : Data St; cs_databases : str -> St * World; cs_location : L }.
Abbreviation copiesm := (stm Copies (BackupError location_error)).

Definition on_storage {A} (m : stm (Data St) StorageError A) : copiesm A := fun h =>
  let '(r, d) := m (cs_data h) in (map_err BackupStorage r, MkCopies d (cs_databases h) (cs_location h)).
Definition from_backup {A} (f : L -> res location_error A) : copiesm A := fun h =>
  (map_err LocationFailed (f (cs_location h)), h).
Definition database_state (name : str) (h : Copies) : St * World :=
  (if decide (name = ADMIN_DATABASE_NAME) then admin_state (cs_data h) else (cs_databases h name).1, (cs_databases h name).2).
Definition set_database_state (name : str) (b : Copying) (h : Copies) : Copies :=
  MkCopies (if decide (name = ADMIN_DATABASE_NAME) then with_admin (cp_conn b) (cs_data h) else cs_data h)
    (fun n => if decide (n = name) then (cp_conn b, cp_kv b) else cs_databases h n) (cp_location b).
Definition in_database (name : str) (m : stm Copying (BackupError location_error) unit) : copiesm unit := fun h =>
  let '(s, w) := database_state name h in
  let '(r, b) := m (MkCopying s w (cs_location h)) in (r, set_database_state name b h).

Definition backup_one (s : Storage) (name : str) : copiesm unit :=
  db ← on_storage (database_without_schema name (Some s) None);
  in_database name (backup_database (LowLevelConnection0 := conns (od_schema db)) name
    (collection_order (ll_schematic (LowLevelConnection := conns (od_schema db))))).
Definition backup (s : Storage) : copiesm unit :=
  h ← st_get;
  for_each (backup_one s) (database_order (available_databases (cs_data h))).

Definition restore_one (s : Storage) (schema : SchemaName) (name : str) : copiesm unit :=
  on_storage (create_database_with_schema s name schema true);;
  db ← on_storage (database_without_schema name (Some s) None);
  in_database name (restore_database (LowLevelConnection0 := conns (od_schema db)) clock name (od_session db)
    (collection_order (ll_schematic (LowLevelConnection := conns (od_schema db))))).
Definition restore (s : Storage) : copiesm unit :=
  schemas ← from_backup list_schemas;
  for_each (fun schema =>
    databases ← from_backup (location_databases schema);
    for_each (restore_one s schema) databases) schemas.
End Storage.
