(* ===== verification/BackupTheorems.v ===== *)
(** * Backup and restore: what is stored comes back

    The laws of a location as a class, and with them: the objects a backup
    leaves, and the documents and keys that restoring it gives a new database. *)

From Stdlib Require Import ZArith Lia String.
From stdpp Require Import base list option numbers gmap sorting.
From S2P Require Import Prelude Bytes Utf8 Digits Timestamp Numeric Persistence Key KeyLaws Range Nebari Document Names KeyValue KeyValueLaws KeyValueSpec KeyValueSystem Schema Permissions View Query Transaction TransactionSpec Vault Connection Admin Storage ConnectionTheorems Backup.

Local Open Scope Z_scope.

(** ** Locations *)

(** The objects of a container.  A location may keep only some containers and
    names, and every operation may fail; what it returns is what was stored. *)
Class LocationLaws `{BackupLocation L} (container_ok : Container -> Prop) (name_ok : str -> Prop)
    (stored : L -> Container -> gmap str bytes) : Prop := {
  store_stored k n b l l' k' :
    container_ok k -> container_ok k' -> name_ok n -> store k n b l = (Ok tt, l') ->
    stored l' k' = if decide (k' = k) then <[n := b]> (stored l k) else stored l k';
  stored_listed k l ns n : container_ok k -> list_stored k l = Ok ns -> n ∈ ns <-> is_Some (stored l k !! n);
  stored_names k l n : container_ok k -> is_Some (stored l k !! n) -> name_ok n;
  stored_loaded k n l b : container_ok k -> name_ok n -> load k n l = Ok b -> stored l k !! n = Some b
}.

(** ** Loops *)

(** What holds of the elements a loop has gone through. *)
Lemma for_each_Ok {S E A} (R : list A -> S -> Prop) (f : A -> stm S E unit) l s s' :
  R [] s -> (forall pre x s1 s2, x ∈ l -> R pre s1 -> f x s1 = (Ok tt, s2) -> R (pre ++ [x]) s2) ->
  for_each f l s = (Ok tt, s') -> R l s'.
Proof.
  intros H0 Hstep Hrun. cut (forall pre l', l = pre ++ l' -> forall s1, R pre s1 -> for_each f l' s1 = (Ok tt, s') -> R l s').
  { intros Hc. by apply (Hc [] l eq_refl s). }
  clear H0 Hrun s. intros pre l'. revert pre. induction l' as [|x l' IH]; intros pre -> s1 HR Hrun.
  - injection Hrun as <-. by rewrite app_nil_r.
  - cbn [for_each] in Hrun. apply stm_bind_Ok_inv in Hrun as ([] & s2 & Hx & Hrun). rewrite cons_middle, app_assoc in *.
    eapply (IH (pre ++ [x])); [done| |done]. eapply Hstep; [|done..]. set_solver.
Qed.

Section Backup.
Context `{Nebari} `{Actionable} `{!AdminFormats} `{EntryCodec} `{Profile} `{!EntryFormat} `{Digest}.
Context {St : Type} `{!LowLevelConnection St} (conn_ok : St -> Prop) (documents : St -> Database) `{!ConnectionLaws conn_ok documents}.
Context {L : Type} `{!BackupLocation L} (container_ok : Container -> Prop) (name_ok : str -> Prop)
  (stored : L -> Container -> gmap str bytes) `{!LocationLaws container_ok name_ok stored}.
Context (name : str).

Abbreviation copying := (Copying (St := St) (L := L)).
Abbreviation collection_container c := (container (St := St) name (qualified_encoded c)).
Abbreviation kv_container := (container (St := St) name KV_CONTAINER).

(** ** Storing objects *)

(** A computation that stores one object with a name for every element. *)
Definition stores {A} (k : Container) (nm : A -> str) (ob : A -> option bytes) (f : A -> stm copying (BackupError location_error) unit) : Prop :=
  forall x b b', f x b = (Ok tt, b') ->
    cp_conn b' = cp_conn b /\ cp_kv b' = cp_kv b /\
    exists o, ob x = Some o /\ store k (nm x) o (cp_location b) = (Ok tt, cp_location b').

(** The objects of the elements, and the older ones with other names. *)
Definition objects_of {A} (nm : A -> str) (ob : A -> option bytes) (l : list A) (old : gmap str bytes) (n : str) (o : bytes) : Prop :=
  (exists x, x ∈ l /\ nm x = n /\ ob x = Some o) \/ ((forall x, x ∈ l -> nm x <> n) /\ old !! n = Some o).

Record stored_each {A} (k : Container) (nm : A -> str) (ob : A -> option bytes) (l : list A) (b b' : copying) : Prop := {
  se_conn : cp_conn b' = cp_conn b;
  se_kv : cp_kv b' = cp_kv b;
  se_some x : x ∈ l -> is_Some (ob x);
  se_others k' : container_ok k' -> k' <> k -> stored (cp_location b') k' = stored (cp_location b) k';
  se_objects n o : stored (cp_location b') k !! n = Some o <-> objects_of nm ob l (stored (cp_location b) k) n o
}.

Lemma for_each_stores {A} k (nm : A -> str) ob f l b b' :
  stores k nm ob f -> container_ok k -> (forall x, x ∈ l -> name_ok (nm x)) ->
  (forall x y, x ∈ l -> y ∈ l -> nm x = nm y -> ob x = ob y) ->
  for_each f l b = (Ok tt, b') -> stored_each k nm ob l b b'.
Proof.
  intros Hf Hk Hnm Hsame Hrun.
  assert (stored_each k nm ob l b b' /\ l ⊆ l) as [? _]; [|done].
  revert Hrun. apply (for_each_Ok (fun pre s => stored_each k nm ob pre b s /\ pre ⊆ l)).
  - split; [|set_solver]. split; [done..|set_solver|done|]. intros n o. unfold objects_of. split; [|by intros [(? & ? & _)|[_ ?]]; [set_solver|]].
    intros Ho. right. split; [set_solver|done].
  - intros pre x s1 s2 Hx [[Hc Hw Hsome Hothers Hobj] Hpre] Hrun. apply Hf in Hrun as (Hc2 & Hw2 & o & Ho & Hst).
    pose proof (fun k' Hk' => store_stored _ _ _ _ _ k' Hk Hk' (Hnm x Hx) Hst) as Hstored.
    split; [|set_solver]. split; [congruence..| | |].
    + intros y [?| ->%list_elem_of_singleton]%elem_of_app; [auto|by eexists].
    + intros k' Hk' Hne. rewrite Hstored, decide_False by done. auto.
    + intros n o'. rewrite Hstored, decide_True by done. rewrite lookup_insert_Some, Hobj. unfold objects_of. split.
      * intros [[<- <-]|[Hne [(y & Hy & ? & ?)|[Hno ?]]]]; [left; exists x; set_solver|left; exists y; set_solver|].
        right. split; [|done]. intros y [?|Hy%list_elem_of_singleton]%elem_of_app; [by apply Hno|by subst].
      * intros [(y & [Hy| ->%list_elem_of_singleton]%elem_of_app & <- & Hoy)|[Hno Hold]].
        -- destruct (decide (nm x = nm y)) as [Heq|]; [left|right; split; [done|left; by exists y]].
           split; [done|]. pose proof (Hsame x y Hx ltac:(set_solver) Heq). congruence.
        -- left. split; [done|congruence].
        -- right. split; [apply Hno; set_solver|]. right. split; [|done]. intros y Hy. apply Hno. set_solver.
Qed.

Lemma on_location_Ok {A} (m : stm L location_error A) (b b' : copying) a :
  on_location m b = (Ok a, b') ->
  cp_conn b' = cp_conn b /\ cp_kv b' = cp_kv b /\ m (cp_location b) = (Ok a, cp_location b').
Proof. unfold on_location. destruct (m (cp_location b)) as [[?|?|] l] eqn:Hm; intros [= <- <-]; done. Qed.
Lemma on_conn_Ok {A} (m : stm St CoreError A) (b b' : copying) a :
  on_conn m b = (Ok a, b') -> cp_kv b' = cp_kv b /\ cp_location b' = cp_location b /\ m (cp_conn b) = (Ok a, cp_conn b').
Proof. unfold on_conn. destruct (m (cp_conn b)) as [[?|?|] s] eqn:Hm; intros [= <- <-]; done. Qed.

Lemma backup_document_stores c :
  stores (collection_container c) (fun doc => document_id_display (id (header doc))) (fun doc => Some (contents doc)) (backup_document name c).
Proof. intros doc b b' (? & ? & ?)%on_location_Ok. split_and!; [done..|]. by eexists. Qed.
Lemma backup_entry_stores :
  stores kv_container (fun e => full_name e.1.1 e.1.2) (fun e => entry_to_vec e.2) (backup_entry name).
Proof.
  intros e b b' Hrun. unfold backup_entry in Hrun. apply stm_bind_Ok_inv in Hrun as (o & b1 & Ho & (? & ? & ?)%on_location_Ok).
  unfold st_lift in Ho. injection Ho as Ho <-. apply ok_or_Ok_inv in Ho. split_and!; [done..|]. by exists o.
Qed.

(** ** What a backup leaves *)

Lemma encoded_not_kv c : qualified_encoded c <> KV_CONTAINER.
Proof.
  intros Heq. assert (dot ∈ KV_CONTAINER) as Hdot by (rewrite <- Heq; unfold qualified_encoded; set_solver).
  vm_compute in Hdot. repeat (apply elem_of_cons in Hdot as [?|Hdot]; [done|]). by apply not_elem_of_nil in Hdot.
Qed.
Lemma encoded_inj c c' : qualified_wf c -> qualified_wf c' -> qualified_encoded c = qualified_encoded c' -> c = c'.
Proof. intros Hc%qualified_roundtrip Hc'%qualified_roundtrip Heq. rewrite Heq in Hc. congruence. Qed.
Lemma container_inj a b : container (St := St) name a = container (St := St) name b -> a = b.
Proof. by intros [=]. Qed.

(** Names the location keeps and from which the id or the key is found again. *)
Definition id_kept (d : bytes) : Prop :=
  name_ok (document_id_display d) /\ document_id_from_str (as_bytes (document_id_display d)) = Ok d.
Definition key_kept (x : option str * str) : Prop :=
  name_ok (full_name x.1 x.2) /\ split_at_str key_marker (default [] x.1 ++ key_marker) = Some (default [] x.1, []).

Lemma split_at_str_eq pattern s :
  split_at_str pattern s =
    if decide (take (length pattern) s = pattern) then Some ([], drop (length pattern) s)
    else match s with
         | [] => None
         | c :: s => '(a, b) ← split_at_str pattern s; Some (c :: a, b)
         end.
Proof. by destruct s. Qed.
(** A namespace ends at the first marker. *)
Lemma split_at_str_app pattern a rest :
  split_at_str pattern (a ++ pattern) = Some (a, []) -> split_at_str pattern (a ++ pattern ++ rest) = Some (a, rest).
Proof.
  induction a as [|c a IH]; intros Ha.
  - cbn [app]. rewrite split_at_str_eq, decide_True by apply take_app_length. by rewrite drop_app_length.
  - rewrite split_at_str_eq in Ha. rewrite split_at_str_eq. case_decide as Hd; [by injection Ha|].
    rewrite decide_False.
    + cbn [app] in *. destruct (split_at_str pattern (a ++ pattern)) as [[a' b']|] eqn:Hs; [|done].
      injection Ha as -> ->. by rewrite IH.
    + rewrite (app_assoc (c :: a)), take_app_le; [done|]. rewrite length_app. simpl. lia.
Qed.
Lemma full_name_split x : key_kept x -> split_at_str key_marker (full_name x.1 x.2) = Some (default [] x.1, x.2).
Proof. intros [_ Hs]. by apply split_at_str_app. Qed.

Definition document_object (D : Database) (c : CollectionName) (n : str) (o : bytes) : Prop :=
  exists d doc, D c !! d = Some doc /\ document_id_display d = n /\ contents doc = o.
Definition entry_object (m : gmap (option str * str) KeyValue.Entry) (n : str) (o : bytes) : Prop :=
  exists x e, m !! x = Some e /\ full_name x.1 x.2 = n /\ entry_to_vec e = Some o.

(** The containers of the database and the names of what is in it. *)
Record keeps_names (cs : list CollectionName) (s : St) (w : World) : Prop := {
  kn_wf c : c ∈ cs -> qualified_wf c;
  kn_containers c : c ∈ cs -> container_ok (collection_container c);
  kn_kv : container_ok kv_container;
  kn_ids c d : c ∈ cs -> is_Some (documents s c !! d) -> id_kept d;
  kn_store : kv_inv w;
  kn_keys m x : all_key_value_entries (kv w) = Ok m -> is_Some (m !! x) -> key_kept x
}.

(** ** What has to hold of the names

    Three conditions of different kinds: what the location keeps, which document
    ids their printed form identifies, and which namespaces the name of an entry
    identifies. *)

(** The location keeps the names of the containers of the database and of the
    objects in them. *)
Record location_keeps (cs : list CollectionName) (s : St) (w : World) : Prop := {
  lk_containers c : c ∈ cs -> container_ok (collection_container c);
  lk_kv : container_ok kv_container;
  lk_ids c d : c ∈ cs -> is_Some (documents s c !! d) -> name_ok (document_id_display d);
  lk_keys m x : all_key_value_entries (kv w) = Ok m -> is_Some (m !! x) -> name_ok (full_name x.1 x.2)
}.
(** An id within the maximum length that is not a printable one with a dollar. *)
Definition readable_id (d : bytes) : Prop :=
  bytes_ok d /\ blen d <= MAX_LENGTH /\ (forallb printable d = false \/ dollar ∉ d).
Definition readable_ids (cs : list CollectionName) (s : St) : Prop :=
  forall c d, c ∈ cs -> is_Some (documents s c !! d) -> readable_id d.
(** The marker between namespace and key cannot be found before the end of the
    namespace: it is not in it, nor does the namespace end with its beginning. *)
Definition unmarked (ns : str) : Prop := forall a b, ns ++ key_marker = a ++ key_marker ++ b -> a = ns.
Definition unmarked_namespaces (w : World) : Prop :=
  forall m x, all_key_value_entries (kv w) = Ok m -> is_Some (m !! x) -> unmarked (default [] x.1).

Lemma split_at_str_sound pattern s a b : split_at_str pattern s = Some (a, b) -> s = a ++ pattern ++ b.
Proof.
  revert a. induction s as [|c s IH]; intros a; rewrite split_at_str_eq; case_decide as Hd.
  - intros [= <- <-]. rewrite <- (take_drop (length pattern) []) at 1. by rewrite Hd.
  - done.
  - intros [= <- <-]. rewrite <- (take_drop (length pattern) (c :: s)) at 1. by rewrite Hd.
  - destruct (split_at_str pattern s) as [[a' b']|]; [|done]. intros [= <- <-]. by rewrite (IH a' eq_refl).
Qed.
Lemma split_at_str_found pattern a b : is_Some (split_at_str pattern (a ++ pattern ++ b)).
Proof.
  induction a as [|c a IH]; rewrite split_at_str_eq.
  - rewrite decide_True; [by eexists|]. cbn [app]. apply take_app_length.
  - case_decide; [by eexists|]. cbn [app]. destruct IH as [[a' b'] ->]. by eexists.
Qed.
Lemma unmarked_split ns : unmarked ns -> split_at_str key_marker (ns ++ key_marker) = Some (ns, []).
Proof.
  intros Hns. destruct (split_at_str_found key_marker ns []) as [[a b] Hs]. rewrite app_nil_r in Hs.
  pose proof (split_at_str_sound _ _ _ _ Hs) as Heq. pose proof (Hns _ _ Heq) as ->. rewrite Hs.
  apply app_inv_head in Heq. rewrite <- (app_nil_r key_marker) in Heq at 1. by apply app_inv_head in Heq as <-.
Qed.
Lemma readable_id_parse d : readable_id d -> document_id_from_str (as_bytes (document_id_display d)) = Ok d.
Proof.
  intros (Hok & Hlen & Hd). rewrite as_bytes_ascii by (by apply document_id_display_ascii). by apply document_id_display_parse.
Qed.
Lemma names_kept cs s w :
  (forall c, c ∈ cs -> qualified_wf c) -> kv_inv w -> location_keeps cs s w -> readable_ids cs s -> unmarked_namespaces w ->
  keeps_names cs s w.
Proof.
  intros Hwf Hinv [Hc Hkv Hids Hkeys] Hread Hun. split; [done..| |done|].
  - intros c d Hin Hd. split; [by eapply Hids|]. by eapply readable_id_parse, Hread.
  - intros m x Hm Hx. split; [by eapply Hkeys|]. by eapply unmarked_split, Hun.
Qed.

(** The containers of the collections that were visited hold the objects of
    their documents, and that of keys the objects of the snapshot. *)
Record backed_up (cs : list CollectionName) (s : St) (w : World) (pre : list CollectionName) (b : copying) : Prop := {
  bu_conn : conn_ok (cp_conn b);
  bu_documents c : qualified_wf c -> documents (cp_conn b) c = documents s c;
  bu_kv : cp_kv b = w;
  bu_done c n o : c ∈ pre ->
    stored (cp_location b) (collection_container c) !! n = Some o <-> document_object (documents s) c n o;
  bu_left c : c ∈ cs -> c ∉ pre -> stored (cp_location b) (collection_container c) = ∅;
  bu_entries : pre <> [] -> exists m, all_key_value_entries (kv w) = Ok m /\ (forall x e, m !! x = Some e -> is_Some (entry_to_vec e)) /\
    forall n o, stored (cp_location b) kv_container !! n = Some o <-> entry_object m n o;
  bu_no_entries : pre = [] -> stored (cp_location b) kv_container = ∅
}.

Lemma document_names_determine cs s w c d d' :
  keeps_names cs s w -> c ∈ cs -> is_Some (documents s c !! d) -> is_Some (documents s c !! d') ->
  document_id_display d = document_id_display d' -> d = d'.
Proof.
  intros Hk Hc Hd Hd' Heq. destruct (kn_ids _ _ _ Hk _ _ Hc Hd) as [_ Hp], (kn_ids _ _ _ Hk _ _ Hc Hd') as [_ Hp'].
  rewrite Heq in Hp. congruence.
Qed.
Lemma kn_split cs s w m x :
  keeps_names cs s w -> all_key_value_entries (kv w) = Ok m -> is_Some (m !! x) -> split_key (full_key x.1 x.2) = Some x.
Proof. intros Hk Hm Hx. by apply (all_entries_wf w m (kn_store _ _ _ Hk) Hm). Qed.
Lemma key_names_determine cs s w m x y :
  keeps_names cs s w -> all_key_value_entries (kv w) = Ok m -> is_Some (m !! x) -> is_Some (m !! y) ->
  full_name x.1 x.2 = full_name y.1 y.2 -> x = y.
Proof.
  intros Hk Hm Hx Hy Heq. pose proof (kn_keys _ _ _ Hk _ _ Hm Hx) as Hkx. pose proof (kn_keys _ _ _ Hk _ _ Hm Hy) as Hky.
  pose proof (kn_split _ _ _ _ _ Hk Hm Hx) as Hsx. pose proof (kn_split _ _ _ _ _ Hk Hm Hy) as Hsy.
  apply full_name_split in Hkx, Hky. rewrite Heq in Hkx. rewrite Hkx in Hky. injection Hky as Hns Hkey.
  unfold full_key in Hsx, Hsy. change (match x.1 with Some ns => ns | None => [] end) with (default [] x.1) in Hsx.
  change (match y.1 with Some ns => ns | None => [] end) with (default [] y.1) in Hsy. rewrite Hns, Hkey in Hsx. congruence.
Qed.

(** One collection: its documents, and the entries, over what was there. *)
Record collection_stored (s : St) (w : World) (c : CollectionName) (b b' : copying) : Prop := {
  cs_conn : conn_ok (cp_conn b');
  cs_documents c' : qualified_wf c' -> documents (cp_conn b') c' = documents (cp_conn b) c';
  cs_kv : cp_kv b' = cp_kv b;
  cs_objects n o : stored (cp_location b') (collection_container c) !! n = Some o <->
    document_object (documents s) c n o \/
    (forall o', ~ document_object (documents s) c n o') /\ stored (cp_location b) (collection_container c) !! n = Some o;
  cs_entries : exists m, all_key_value_entries (kv w) = Ok m /\ (forall x e, m !! x = Some e -> is_Some (entry_to_vec e)) /\ forall n o,
    stored (cp_location b') kv_container !! n = Some o <->
    entry_object m n o \/
    (forall x, is_Some (m !! x) -> full_name x.1 x.2 <> n) /\ stored (cp_location b) kv_container !! n = Some o;
  cs_others k : container_ok k -> k <> collection_container c -> k <> kv_container ->
    stored (cp_location b') k = stored (cp_location b) k
}.

Lemma store_documents cs s w c found b b' :
  keeps_names cs s w -> c ∈ cs -> (forall d doc, documents s c !! d = Some doc -> id (header doc) = d) ->
  (forall doc, doc ∈ found <-> exists d, documents s c !! d = Some doc) ->
  for_each (backup_document name c) found b = (Ok tt, b') ->
  cp_conn b' = cp_conn b /\ cp_kv b' = cp_kv b /\
  (forall k, container_ok k -> k <> collection_container c -> stored (cp_location b') k = stored (cp_location b) k) /\
  forall n o, stored (cp_location b') (collection_container c) !! n = Some o <->
    document_object (documents s) c n o \/
    (forall o', ~ document_object (documents s) c n o') /\ stored (cp_location b) (collection_container c) !! n = Some o.
Proof.
  intros Hk Hc Hids Hfound Hrun.
  assert (forall doc, doc ∈ found -> documents s c !! id (header doc) = Some doc) as Hin.
  { intros doc [d Hd]%Hfound. by rewrite (Hids d doc Hd). }
  apply (for_each_stores (collection_container c) (fun doc => document_id_display (id (header doc))) (fun doc => Some (contents doc)))
    in Hrun as [Hc2 Hw2 _ Hothers2 Hobj2]; [|apply backup_document_stores|by eapply kn_containers|..]; cycle 1.
  { intros doc Hd%Hin. eapply kn_ids; [done..|]. by eexists. }
  { intros x y Hx%Hin Hy%Hin Heq. eapply document_names_determine in Heq; [|done|exact Hc|by eexists..]. congruence. }
  split_and!; [done..|]. intros n o. rewrite Hobj2. unfold objects_of, document_object. split.
  - intros [(doc & Hd%Hin & <- & [= <-])|[Hno Hold]]; [left; by eexists _, doc|right; split; [|done]].
    intros o' (d & doc & Hd & <- & <-). apply (Hno doc); [apply Hfound; by exists d|by rewrite (Hids d doc Hd)].
  - intros [(d & doc & Hd & <- & <-)|[Hno Hold]]; [left|right; split; [|done]].
    + exists doc. rewrite (Hids d doc Hd), Hfound. split; [by exists d|done].
    + intros doc Hd%Hin <-. apply (Hno (contents doc)). by eexists _, doc.
Qed.

Lemma store_entries cs s w m b b' :
  keeps_names cs s w -> all_key_value_entries (kv w) = Ok m ->
  for_each (backup_entry name) (merge_sort entry_key_le (map_to_list m)) b = (Ok tt, b') ->
  cp_conn b' = cp_conn b /\ cp_kv b' = cp_kv b /\
  (forall k, container_ok k -> k <> kv_container -> stored (cp_location b') k = stored (cp_location b) k) /\
  (forall x e, m !! x = Some e -> is_Some (entry_to_vec e)) /\
  forall n o, stored (cp_location b') kv_container !! n = Some o <->
    entry_object m n o \/ (forall x, is_Some (m !! x) -> full_name x.1 x.2 <> n) /\ stored (cp_location b) kv_container !! n = Some o.
Proof.
  intros Hk Hm Hrun.
  assert (forall e, e ∈ merge_sort entry_key_le (map_to_list m) <-> m !! e.1 = Some e.2) as Hsorted.
  { intros [x e]. rewrite merge_sort_Permutation. apply elem_of_map_to_list. }
  apply (for_each_stores kv_container (fun e => full_name e.1.1 e.1.2) (fun e => entry_to_vec e.2))
    in Hrun as [Hc3 Hw3 Hsome3 Hothers3 Hobj3]; [|apply backup_entry_stores|by eapply kn_kv|..]; cycle 1.
  { intros e He%Hsorted. eapply kn_keys; [done..|]. by eexists. }
  { intros x y Hx%Hsorted Hy%Hsorted Heq. eapply key_names_determine in Heq; [|done..|by eexists|by eexists].
    rewrite Heq in Hx. congruence. }
  split_and!; [done..| |]; [intros x e He; apply (Hsome3 (x, e)); by rewrite Hsorted|]. intros n o. rewrite Hobj3. unfold objects_of, entry_object. split.
  - intros [([x e] & He%Hsorted & <- & Ho)|[Hno Hold]]; [left; by exists x, e|right; split; [|done]].
    intros x [e He]. apply (Hno (x, e)). by apply Hsorted.
  - intros [(x & e & He & <- & Ho)|[Hno Hold]]; [left; exists (x, e); by rewrite Hsorted|right; split; [|done]].
    intros [x e] He%Hsorted. apply Hno. by eexists.
Qed.

Lemma backup_collection_stored cs s w c b b' :
  keeps_names cs s w -> c ∈ cs -> conn_ok (cp_conn b) -> (forall c', qualified_wf c' -> documents (cp_conn b) c' = documents s c') ->
  cp_kv b = w -> backup_collection name c b = (Ok tt, b') -> collection_stored s w c b b'.
Proof.
  intros Hk Hc Hok Hdocs Hw Hrun. unfold backup_collection in Hrun.
  apply stm_bind_Ok_inv in Hrun as (found & b1 & (Hw1 & Hl1 & Hlist)%on_conn_Ok & Hrun).
  apply stm_bind_Ok_inv in Hrun as ([] & b2 & Hstore & Hrun). unfold backup_entries in Hrun.
  apply stm_bind_Ok_inv in Hrun as (b2' & b3 & [= <- <-] & Hrun). apply stm_bind_Ok_inv in Hrun as (m & b4 & Hm & Hrun).
  unfold st_lift in Hm. injection Hm as Hm <-. apply map_err_Ok_inv in Hm. pose proof (kn_wf _ _ _ Hk c Hc) as Hwf.
  destruct (law_list _ _ _ _ Hok Hwf Hlist) as (Hok1 & Hsame1 & Hfound). specialize (Hfound _ eq_refl). rewrite Hdocs in Hfound by done.
  eapply store_documents in Hstore as (Hc2 & Hw2 & Hothers2 & Hobj2); [|done..| |exact Hfound]; last first.
  { intros d doc Hd. rewrite <- (Hdocs c Hwf) in Hd. exact (law_ids c _ d doc Hok Hwf Hd). }
  rewrite Hw2, Hw1, Hw in Hm. eapply store_entries in Hrun as (Hc3 & Hw3 & Hothers3 & Hsome3 & Hobj3); [|done..].
  assert (collection_container c <> kv_container) as Hne by (intros ?%container_inj; by eapply encoded_not_kv).
  pose proof (kn_kv _ _ _ Hk) as Hkv. pose proof (kn_containers _ _ _ Hk c Hc) as Hcc. rewrite Hl1 in *.
  split; [by rewrite Hc3, Hc2|intros c' Hc'; by rewrite Hc3, Hc2, Hsame1|congruence| | |].
  - intros n o. by rewrite Hothers3, Hobj2.
  - exists m. split_and!; [done..|]. intros n o. by rewrite Hobj3, Hothers2.
  - intros k Hko ??. by rewrite Hothers3, Hothers2.
Qed.

Lemma backup_collection_step cs s w pre c b b' :
  keeps_names cs s w -> c ∈ cs -> pre ⊆ cs -> backed_up cs s w pre b -> backup_collection name c b = (Ok tt, b') ->
  backed_up cs s w (pre ++ [c]) b'.
Proof.
  intros Hk Hc Hpre [Hok Hdocs Hw Hdone Hleft Hent Hno] Hrun.
  destruct (backup_collection_stored cs s w c b b') as [Hok' Hdocs' Hw' Hobj (m & Hm & Hsome & Hkeys) Hothers]; [done..|].
  assert (forall c', c' ∈ cs -> c' <> c -> stored (cp_location b') (collection_container c') = stored (cp_location b) (collection_container c'))
    as Hframe.
  { intros c' Hc' Hne. apply Hothers; [by eapply kn_containers|intros Heq%container_inj|intros ?%container_inj; by eapply encoded_not_kv].
    apply Hne. eapply encoded_inj; [by eapply kn_wf..|done]. }
  split; [done|intros; by rewrite Hdocs', Hdocs|congruence|..|intros ?%app_eq_nil; naive_solver].
  - intros c' n o Hin. destruct (decide (c' = c)) as [->|Hne].
    + rewrite Hobj. destruct (decide (c ∈ pre)) as [Hcp|Hcp]; [rewrite (Hdone c) by done|rewrite (Hleft c), lookup_empty by done]; naive_solver.
    + rewrite Hframe by set_solver. apply Hdone. set_solver.
  - intros c' Hc' Hnin. rewrite Hframe by set_solver. apply Hleft; set_solver.
  - intros _. exists m. split_and!; [done..|]. intros n o. rewrite Hkeys. destruct pre as [|c0 pre].
    + rewrite Hno, lookup_empty by done. naive_solver.
    + destruct Hent as (m' & Hm' & _ & Hold); [done|]. rewrite Hold. rewrite Hm in Hm'. injection Hm' as <-. split; [|naive_solver].
      by intros [|[_ ?]].
Qed.

Lemma backup_database_stored cs s w l b :
  keeps_names cs s w -> conn_ok s -> (forall n, stored l (container (St := St) name n) = ∅) ->
  backup_database name cs (MkCopying s w l) = (Ok tt, b) -> backed_up cs s w cs b.
Proof.
  intros Hk Hok Hfresh Hrun. assert (backed_up cs s w cs b /\ cs ⊆ cs) as [? _]; [|done].
  revert Hrun. apply (for_each_Ok (fun pre b => backed_up cs s w pre b /\ pre ⊆ cs)).
  - split; [|set_solver]. split; simpl; try done. intros c n o ?%not_elem_of_nil. done.
  - intros pre c b1 b2 Hc [Hb Hpre] Hrun. split; [by eapply backup_collection_step|set_solver].
Qed.

(** ** What restoring reads *)

Lemma from_location_Ok {A} (f : L -> res location_error A) (b b' : copying) a :
  from_location f b = (Ok a, b') -> b' = b /\ f (cp_location b) = Ok a.
Proof. unfold from_location. intros [= Hf <-]. by apply map_err_Ok_inv in Hf. Qed.

Lemma restore_objects_Ok c names ops (b b' : copying) :
  restore_objects name c names b = (Ok ops, b') ->
  b' = b /\
  (forall n d, n ∈ names -> document_id_from_str (as_bytes n) = Ok d -> exists o, load (collection_container c) n (cp_location b) = Ok o) /\
  forall op, op ∈ ops <-> exists n d o, n ∈ names /\ document_id_from_str (as_bytes n) = Ok d /\
    load (collection_container c) n (cp_location b) = Ok o /\ op = op_insert c (Some d) o.
Proof.
  revert ops b'. induction names as [|n names IH]; intros ops b' Hrun; cbn [restore_objects] in Hrun.
  - injection Hrun as <- <-. split; [done|]. set_solver.
  - destruct (document_id_from_str (as_bytes n)) as [d|e|] eqn:Hd; [|apply IH in Hrun as (-> & Hloads & Hops); split_and!; [done|..]|done].
    + apply stm_bind_Ok_inv in Hrun as (o & b1 & [-> Ho]%from_location_Ok & Hrun).
      apply stm_bind_Ok_inv in Hrun as (rest & b2 & (-> & Hloads & Hops)%IH & [= <- <-]). split_and!; [done|..].
      { intros n' d' [->|Hn']%elem_of_cons Hd'; [by exists o|by eapply Hloads]. }
      intros op. rewrite elem_of_cons, Hops. split.
      * intros [->|(n' & d' & o' & ? & ?)]; [exists n, d, o|exists n', d', o']; set_solver.
      * intros (n' & d' & o' & [->|Hn']%elem_of_cons & Hd' & Ho' & ->); [left; congruence|right; by exists n', d', o'].
    + intros n' d' [->|Hn']%elem_of_cons Hd'; [congruence|by eapply Hloads].
    + intros op. rewrite Hops. split.
      * intros (n' & d' & o' & ? & ?). exists n', d', o'. set_solver.
      * intros (n' & d' & o' & [->|Hn']%elem_of_cons & Hd' & Ho' & ->); [congruence|by exists n', d', o'].
Qed.

(** The insertions of the objects stored under a name that is an id. *)
Definition restored_operation (l : L) (cs : list CollectionName) (op : Operation) : Prop :=
  exists c n d o, c ∈ cs /\ stored l (collection_container c) !! n = Some o /\
    document_id_from_str (as_bytes n) = Ok d /\ op = op_insert c (Some d) o.

Lemma restore_collections_Ok cs ops (b b' : copying) :
  (forall c, c ∈ cs -> container_ok (collection_container c)) -> restore_collections name cs b = (Ok ops, b') ->
  b' = b /\ forall op, op ∈ ops <-> restored_operation (cp_location b) cs op.
Proof.
  revert ops b'. induction cs as [|c cs IH]; intros ops b' Hcs Hrun; cbn [restore_collections] in Hrun.
  - injection Hrun as <- <-. split; [done|]. intros op. split; [set_solver|]. by intros (c & n & d & o & ?%not_elem_of_nil & _).
  - apply stm_bind_Ok_inv in Hrun as (names & b1 & [-> Hnames]%from_location_Ok & Hrun).
    apply stm_bind_Ok_inv in Hrun as (objects & b2 & (-> & Hloads & Hobjs)%restore_objects_Ok & Hrun).
    apply stm_bind_Ok_inv in Hrun as (rest & b3 & Hrest & [= <- <-]). apply IH in Hrest as [-> Hrest]; [|set_solver].
    pose proof (Hcs c ltac:(set_solver)) as Hc. split; [done|]. intros op. rewrite elem_of_app, Hobjs, Hrest. unfold restored_operation. split.
    + intros [(n & d & o & Hn & Hd & Ho & ->)|(c' & n & d & o & ? & ? & ? & ->)]; [|exists c', n, d, o; set_solver].
      exists c, n, d, o. split_and!; [set_solver| |done..]. eapply stored_loaded; [done| |done].
      eapply stored_names; [done|]. by eapply stored_listed.
    + intros (c' & n & d & o & [->|Hc']%elem_of_cons & Ho & Hd & ->); [left|right; by exists c', n, d, o].
      assert (n ∈ names) as Hn by (by eapply stored_listed; [..|eexists]).
      destruct (Hloads n d Hn Hd) as [o' Ho']. exists n, d, o. split_and!; [done..| |done]. rewrite Ho'. f_equal.
      eapply stored_loaded in Ho'; [congruence|done|]. eapply stored_names; [done|]. by eexists.
Qed.

(** A transaction of insertions that succeeds adds the documents. *)
Lemma spec_insertions ops D rs D' :
  (forall op, op ∈ ops -> exists c d o, op = op_insert c (Some d) o) -> spec_operations ll_schematic ops D = Ok (rs, D') ->
  forall c d doc, D' c !! d = Some doc <-> D c !! d = Some doc \/ exists o, op_insert c (Some d) o ∈ ops /\ doc = document_new d o.
Proof.
  revert D rs. induction ops as [|op ops IH]; intros D rs Hops Hrun c d doc; cbn [spec_operations] in Hrun.
  - injection Hrun as _ <-. set_solver.
  - destruct (Hops op ltac:(set_solver)) as (c0 & d0 & o0 & ->). apply bind_Ok_inv in Hrun as ([r M] & Hc & Hrun).
    apply bind_Ok_inv in Hrun as ([rs' D1] & Hrest & [= _ <-]). rewrite (IH _ _ ltac:(set_solver) Hrest c d doc).
    cbn in Hc. destruct (D c0 !! d0) as [old|] eqn:Hold; [done|]. injection Hc as _ <-. unfold set_documents.
    assert ((if decide (c = c0) then <[d0 := document_new d0 o0]> (D c0) else D c) !! d = Some doc <->
      D c !! d = Some doc \/ c = c0 /\ d = d0 /\ doc = document_new d0 o0) as ->.
    { case_decide as Hcc; [subst c|naive_solver]. rewrite lookup_insert_Some. naive_solver. }
    split.
    + intros [[?|(-> & -> & ->)]|(o & ? & ?)]; [by left|right; exists o0; set_solver|right; exists o; set_solver].
    + intros [?|(o & [Heq|Ho]%elem_of_cons & ->)]; [by left; left| |right; by exists o]. injection Heq as -> -> ->. left. by right.
Qed.

Definition non_empty (ns : str) : option str := match ns with [] => None | _ => Some ns end.
Lemma restore_entry_Ok clock session n (b b' : copying) :
  restore_entry clock name session n b = (Ok tt, b') ->
  cp_conn b' = cp_conn b /\ cp_location b' = cp_location b /\
  match split_at_str key_marker n with
  | Some (ns, key) => exists o e out, load kv_container n (cp_location b) = Ok o /\ entry_from_slice o = Some e /\
      perform_kv_operation clock (restore_operation (non_empty ns) key e) (cp_kv b) = (Ok out, cp_kv b')
  | None => cp_kv b' = cp_kv b
  end.
Proof.
  intros Hrun. unfold restore_entry in Hrun. destruct (split_at_str key_marker n) as [[ns key]|]; [|by injection Hrun as <-].
  apply stm_bind_Ok_inv in Hrun as (o & b1 & [-> Ho]%from_location_Ok & Hrun).
  apply stm_bind_Ok_inv in Hrun as (e & b2 & He & Hrun). unfold st_lift in He. injection He as He <-. apply ok_or_Ok_inv in He.
  apply stm_bind_Ok_inv in Hrun as (out & b3 & Hrun & [= ->]). unfold execute_key_operation in Hrun.
  apply stm_bind_Ok_inv in Hrun as ([] & b4 & Hp & Hrun). unfold st_lift in Hp. injection Hp as _ <-. unfold on_kv in Hrun.
  change (match ns with [] => None | _ :: _ => Some ns end) with (non_empty ns) in Hrun.
  destruct (perform_kv_operation clock _ (cp_kv b)) as [[out'|?|] w] eqn:Hw; try done. injection Hrun as <- <-. split_and!; [done..|].
  by exists o, e, out'.
Qed.

Lemma restore_entries_conn clock session names (b b' : copying) :
  for_each (restore_entry clock name session) names b = (Ok tt, b') -> cp_conn b' = cp_conn b /\ cp_location b' = cp_location b.
Proof.
  apply (for_each_Ok (fun _ b1 => cp_conn b1 = cp_conn b /\ cp_location b1 = cp_location b)); [done|].
  intros pre n b1 b2 _ [] (? & ? & _)%restore_entry_Ok. split; congruence.
Qed.

(** The parts of a restoration that succeeds. *)
Lemma restore_database_Ok clock session cs (b b' : copying) :
  (forall c, c ∈ cs -> container_ok (collection_container c)) -> restore_database clock name session cs b = (Ok tt, b') ->
  exists ops rs names b1,
    (forall op, op ∈ ops <-> restored_operation (cp_location b) (restored_collections cs) op) /\
    ll_apply_transaction ops (cp_conn b) = (Ok rs, cp_conn b') /\
    cp_kv b1 = cp_kv b /\ cp_location b1 = cp_location b /\ list_stored kv_container (cp_location b) = Ok names /\
    for_each (restore_entry clock name session) names b1 = (Ok tt, b').
Proof.
  intros Hcs Hrun. unfold restore_database in Hrun. apply stm_bind_Ok_inv in Hrun as (ops & b1 & Hops & Hrun).
  apply restore_collections_Ok in Hops as [-> Hops]; [|intros c [_ Hc]%list_elem_of_filter; auto].
  apply stm_bind_Ok_inv in Hrun as (rs & b2 & (Hw & Hl & Happly)%on_conn_Ok & Hrun).
  apply stm_bind_Ok_inv in Hrun as (names & b3 & [-> Hnames]%from_location_Ok & Hrun). rewrite Hl in Hnames.
  destruct (restore_entries_conn _ _ _ _ _ Hrun) as [Hc _]. rewrite <- Hc in Happly. by exists ops, rs, names, b2.
Qed.

(** ** Documents *)

(** The insertions are those of the documents that were backed up. *)
Lemma restored_documents cs cs' s w b c d o :
  keeps_names cs s w -> backed_up cs s w cs b -> (forall c, c ∈ cs' <-> c ∈ cs) -> c ∈ cs -> c <> cl_name database_collection ->
  restored_operation (cp_location b) (restored_collections cs') (op_insert c (Some d) o) <-> contents <$> documents s c !! d = Some o.
Proof.
  intros Hk [_ _ _ Hdone _ _ _] Hcs Hc Hdb. rewrite fmap_Some. split.
  - intros (c' & n & d' & o' & _ & Ho & Hd & [= <- <- <-]). apply Hdone in Ho as (d0 & doc & Hdoc & <- & <-); [|done].
    destruct (kn_ids _ _ _ Hk c d0 Hc ltac:(by eexists)) as [_ Hparse]. rewrite Hparse in Hd. injection Hd as <-. by exists doc.
  - intros (doc & Hdoc & ->). destruct (kn_ids _ _ _ Hk c d Hc ltac:(by eexists)) as [_ Hparse].
    exists c, (document_id_display d), d, (contents doc). split_and!; [|by apply Hdone; [|eexists _, doc]|done|done].
    apply list_elem_of_filter. by rewrite Hcs.
Qed.

(** C21: A database restored from its backup has the documents it had: when the
    backup and the restore succeed, every collection, except that of databases,
    has the same ids with the same contents.  The conditions: the location holds
    nothing of the database before and keeps the names of its containers and
    objects; no document id is a printable one with a dollar sign, whose printed
    form is read as another id; no key is in a namespace that holds the marker
    between namespace and key, or ends with its beginning; and the database that
    is restored into has no documents. *)
Theorem backup_restores_documents clock session cs cs' s w l b t w' b' :
  (forall c, c ∈ cs -> qualified_wf c) -> kv_inv w ->
  location_keeps cs s w -> readable_ids cs s -> unmarked_namespaces w -> conn_ok s -> (forall n, stored l (container (St := St) name n) = ∅) ->
  backup_database name cs (MkCopying s w l) = (Ok tt, b) ->
  conn_ok t -> (forall c, qualified_wf c -> documents t c = ∅) -> (forall c, c ∈ cs' <-> c ∈ cs) ->
  restore_database clock name session cs' (MkCopying t w' (cp_location b)) = (Ok tt, b') ->
  forall c d, c ∈ cs -> c <> cl_name database_collection ->
    contents <$> documents (cp_conn b') c !! d = contents <$> documents s c !! d.
Proof.
  intros Hcwf Hw Hloc Hread Hun Hs Hfresh Hbackup Ht Hempty Hcs Hrestore c d Hc Hdb.
  pose proof (names_kept cs s w Hcwf Hw Hloc Hread Hun) as Hk.
  apply (backup_database_stored cs s w) in Hbackup; [|done..].
  apply restore_database_Ok in Hrestore as (ops & rs & names & b1 & Hops & Happly & _); [|intros c' ?%Hcs; by eapply kn_containers].
  pose proof (kn_wf _ _ _ Hk c Hc) as Hwf. cbn [cp_conn cp_location] in *.
  destruct (law_apply _ _ _ _ Ht Happly) as (_ & D' & Hspec & Hdocs). rewrite Hdocs by done.
  assert (forall op, op ∈ ops -> exists c d o, op = op_insert c (Some d) o) as Hins by (intros op (c' & n & d' & o & _ & _ & _ & ->)%Hops; eauto).
  pose proof (spec_insertions _ _ _ _ Hins Hspec c d) as Hrestored. rewrite Hempty, lookup_empty in Hrestored by done.
  apply option_eq. intros o. rewrite <- (restored_documents cs cs' s w b c d o), <- Hops by done. rewrite fmap_Some. split.
  - intros (doc & [?|(o' & Ho & ->)]%Hrestored & ->); done.
  - intros Ho. exists (document_new d o). rewrite Hrestored. eauto.
Qed.

(** ** Keys and values *)

Context `{!NebariLaws _} `{!EntryCodecLaws _} (clock : nat -> Timestamp) (clock_normal : forall n, timestamp_normal (clock n)).
Context (entry_format_roundtrip : forall e o, entry_to_vec e = Some o -> entry_from_slice o = Some e).

(** Whether an entry is there, with its value and expiration. *)
Definition value_and_expiration (o : option KeyValue.Entry) : option (Value * option Timestamp) :=
  (fun e => (KeyValue.value e, KeyValue.expiration e)) <$> o.

Lemma value_validate_same v v' : value_validate v = Ok v' -> v' = v.
Proof.
  destruct v as [bs|n]; cbn; [by intros [= <-]|]. destruct n as [?|?|f]; cbn; [by intros [= <-]..|]. destruct (is_nan f); by intros [= <-].
Qed.

(** Restoring one entry, when no key expires. *)
Lemma restore_operation_ok ns key e w out w' :
  kv_inv w -> is_str (default [] ns) = true -> is_str key = true ->
  (forall k t n, expiring_keys (kv w) !! k = Some t -> timestamp_leb t (clock n) = false) ->
  perform_kv_operation clock (restore_operation ns key e) w = (Ok out, w') ->
  kv_inv w' /\
  forall k, (value_and_expiration (KeyValueLaws.view (kv w') k), expiring_keys (kv w') !! k) =
    if decide (k = full_key ns key) then (Some (KeyValue.value e, KeyValue.expiration e), KeyValue.expiration e)
    else (value_and_expiration (KeyValueLaws.view (kv w) k), expiring_keys (kv w) !! k).
Proof.
  intros Hinv Hns Hkey Hlast Hrun.
  destruct (perform_kv_operation_ok clock clock_normal (restore_operation ns key e) w) as (r & w1 & Hrun' & Hinv' & _ & _ & _ & _ & Hr); [done..|].
  rewrite Hrun in Hrun'. injection Hrun' as <- <-. split; [done|]. destruct Hr as [[Hout [Hexp Hview]]|[[? ?] _]]; [|done].
  set (now := clock (ticks w)) in *.
  assert (forall k, expired now (expiring_keys (kv w) !! k) = false) as Hnow.
  { intros k. destruct (expiring_keys (kv w) !! k) eqn:Hk; [by eapply Hlast|done]. }
  clearbody now. set (key_of := full_key ns key) in *.
  unfold spec_operation, KeyValueSpec.spec_command, spec_set in Hout, Hexp, Hview. cbn in Hout, Hexp, Hview.
  destruct (value_validate (KeyValue.value e)) as [v|?|] eqn:Hv; [|done..]. apply value_validate_same in Hv as ->. cbn in Hexp, Hview.
  change (match ns with Some ns => ns | None => [] end ++ 0 :: key) with key_of in Hexp, Hview. clearbody key_of.
  intros k. rewrite Hexp, Hview. rewrite Hnow. case_decide as Hk; destruct (decide (k = key_of)) as [->|Hne]; try done.
  - by rewrite set_expiry_eq.
  - by rewrite set_expiry_ne, unexpired_lookup, Hnow by done.
Qed.

(** The entry of a key in a snapshot, if its name is among some. *)
Definition restored_entry (m : gmap (option str * str) KeyValue.Entry) (pre : list str) (k : str) : option KeyValue.Entry :=
  split_key k ≫= fun x => if decide (full_name x.1 x.2 ∈ pre) then m !! x else None.
Record keys_restored (m : gmap (option str * str) KeyValue.Entry) (l : L) (pre : list str) (b : copying) : Prop := {
  kr_inv : kv_inv (cp_kv b);
  kr_location : cp_location b = l;
  kr_entries k : (value_and_expiration (KeyValueLaws.view (kv (cp_kv b)) k), expiring_keys (kv (cp_kv b)) !! k) =
    (value_and_expiration (restored_entry m pre k), restored_entry m pre k ≫= KeyValue.expiration)
}.
(** None of the entries expires while the backup is restored. *)
Definition lasting (m : gmap (option str * str) KeyValue.Entry) : Prop :=
  forall x e t n, m !! x = Some e -> KeyValue.expiration e = Some t -> timestamp_leb t (clock n) = false.

Lemma restored_entry_Some m pre k e : restored_entry m pre k = Some e -> exists x, m !! x = Some e /\ full_key x.1 x.2 = k.
Proof.
  unfold restored_entry. intros ([ns key] & Hs & Hm)%bind_Some. case_decide; [|done]. exists (ns, key). split; [done|]. by apply full_key_split.
Qed.
Lemma restored_entry_app cs s w m pre x e k :
  keeps_names cs s w -> all_key_value_entries (kv w) = Ok m -> m !! x = Some e ->
  restored_entry m (pre ++ [full_name x.1 x.2]) k = if decide (k = full_key x.1 x.2) then Some e else restored_entry m pre k.
Proof.
  intros Hk Hm Hx. assert (is_Some (m !! x)) as Hsx by by eexists. unfold restored_entry. case_decide as Hkx.
  - rewrite Hkx, (kn_split _ _ _ _ _ Hk Hm Hsx). cbn. rewrite decide_True by set_solver. done.
  - destruct (split_key k) as [y|] eqn:Hs; [|done]. cbn. destruct (m !! y) as [e'|] eqn:Hy; [|by do 2 case_decide].
    f_equal. apply decide_ext. rewrite elem_of_app, list_elem_of_singleton. split; [|by left]. intros [|Heq]; [done|].
    eapply key_names_determine in Heq; [|done..|by eexists|done]. subst y. destruct Hkx. destruct x. symmetry. by apply full_key_split.
Qed.

Lemma restore_entry_step cs s w m l session pre n (b b' : copying) :
  keeps_names cs s w -> all_key_value_entries (kv w) = Ok m -> lasting m ->
  (forall n o, stored l kv_container !! n = Some o <-> entry_object m n o) -> is_Some (stored l kv_container !! n) ->
  keys_restored m l pre b -> restore_entry clock name session n b = (Ok tt, b') -> keys_restored m l (pre ++ [n]) b'.
Proof.
  intros Hk Hm Hlast Hstored [o Ho] [Hinv Hl Hent] (Hc & Hl' & Hrun)%restore_entry_Ok. rewrite Hl in *.
  pose proof Ho as (x & e & Hx & <- & Hpot)%Hstored. assert (is_Some (m !! x)) as Hsx by by eexists.
  rewrite (full_name_split x) in Hrun by (by eapply kn_keys). destruct Hrun as (o' & e' & out & Hload & Hfrom & Hrun).
  apply stored_loaded in Hload; [|by eapply kn_kv|by eapply kn_keys]. rewrite Ho in Hload. injection Hload as <-.
  rewrite (entry_format_roundtrip e o Hpot) in Hfrom. injection Hfrom as <-.
  pose proof (kn_split _ _ _ _ _ Hk Hm Hsx) as Hsplit. destruct (all_entries_wf w m (kn_store _ _ _ Hk) Hm x Hsx) as [[Hstr _] _].
  assert (non_empty (default [] x.1) = x.1) as Hns.
  { unfold split_key in Hsplit. apply bind_Some in Hsplit as ([a k] & _ & [= <-]). by destruct a. }
  unfold full_key in Hstr. rewrite !is_str_app, !andb_true_iff in Hstr. destruct Hstr as (Hstr & _ & Hkey).
  rewrite Hns in Hrun. apply restore_operation_ok in Hrun as [Hinv' Hkeys]; [|done|by destruct x.1|done|]; last first.
  { intros k t n Ht. pose proof (f_equal snd (Hent k)) as Hexp. cbn in Hexp. rewrite Ht in Hexp.
    symmetry in Hexp. apply bind_Some in Hexp as (e0 & (y & Hy & _)%restored_entry_Some & Ht0). by eapply Hlast. }
  split; [done..|]. intros k. rewrite Hkeys, (restored_entry_app cs s w m pre x e k) by done. by case_decide.
Qed.

(** C22: A database restored from its backup has the keys it had, with their
    values and expirations, and no others, when the backup and the restore
    succeed.  The conditions: the database has a collection and no key expires
    meanwhile; the location holds nothing of the database before and keeps the
    names of its containers and objects; no document id is a printable one with
    a dollar sign; no key is in a namespace that holds the marker between
    namespace and key, or ends with its beginning (such a key is restored into
    another namespace); and the store that is restored into is empty. *)
Theorem backup_restores_keys session cs cs' s w m l b t w' b' :
  (forall c, c ∈ cs -> qualified_wf c) -> kv_inv w ->
  location_keeps cs s w -> readable_ids cs s -> unmarked_namespaces w -> conn_ok s -> (forall n, stored l (container (St := St) name n) = ∅) -> cs <> [] ->
  all_key_value_entries (kv w) = Ok m -> lasting m -> backup_database name cs (MkCopying s w l) = (Ok tt, b) ->
  kv_inv w' -> (forall k, KeyValueLaws.view (kv w') k = None /\ expiring_keys (kv w') !! k = None) -> (forall c, c ∈ cs' <-> c ∈ cs) ->
  restore_database clock name session cs' (MkCopying t w' (cp_location b)) = (Ok tt, b') ->
  forall k, is_str k = true -> 0 ∈ k ->
    value_and_expiration (KeyValueLaws.view (kv (cp_kv b')) k) = value_and_expiration (KeyValueLaws.view (kv w) k).
Proof.
  intros Hcwf Hw Hloc Hread Hun Hs Hfresh Hne Hm Hlast Hbackup Hinv Hempty Hcs Hrestore k Hstr Hnull.
  pose proof (names_kept cs s w Hcwf Hw Hloc Hread Hun) as Hk.
  apply (backup_database_stored cs s w) in Hbackup as [_ _ _ _ _ Hent _]; [|done..]. destruct (Hent Hne) as (m' & Hm' & Hsome & Hobjs).
  rewrite Hm in Hm'. injection Hm' as <-. pose proof (kn_kv _ _ _ Hk) as Hkv.
  apply restore_database_Ok in Hrestore as (ops & rs & names & b1 & _ & _ & Hw1 & Hl1 & Hnames & Hrun);
    [|intros c' ?%Hcs; by eapply kn_containers]. cbn [cp_kv cp_location] in *.
  assert (keys_restored m (cp_location b) names b') as [_ _ Hentries].
  { revert Hrun. apply (for_each_Ok (keys_restored m (cp_location b))).
    - split; [by rewrite Hw1|done|]. intros k0. rewrite Hw1. destruct (Hempty k0) as [-> ->]. unfold restored_entry.
      destruct (split_key k0); [|done]. cbn. by case_decide as Hin; [apply not_elem_of_nil in Hin|].
    - intros pre n b2 b3 Hn Hpre Hrun. eapply restore_entry_step; [done..| |done|done]. by eapply stored_listed. }
  pose proof (f_equal fst (Hentries k)) as Hk'. cbn in Hk'. rewrite Hk'. unfold restored_entry.
  apply split_key_null in Hnull as [x Hx]. rewrite Hx. cbn. rewrite <- (all_entries_lookup _ _ _ _ Hm Hstr Hx).
  case_decide as Hin; [done|]. destruct (m !! x) as [e|] eqn:He; [|done]. destruct Hin.
  eapply stored_listed; [done..|]. destruct (Hsome x e He) as [o Ho]. exists o. apply Hobjs. by exists x, e.
Qed.

End Backup.
