(* ===== verification/BackupPaths.v ===== *)
(** * Directories as a location of backups

    What is assumed of a file system, and that with it [BackupLocation for
    Path] keeps the laws of a location for names that are single components of
    a path; a file system in memory.  At the end a database with one document and
    one key is backed up to directories in memory and restored, with names that
    a backup does not keep. *)

From Stdlib Require Import ZArith Lia String.
From stdpp Require Import base list option numbers gmap sorting.
From S2P Require Import Prelude Bytes Utf8 Digits Timestamp Numeric Persistence Key KeyLaws Range Nebari Document Names KeyValue KeyValueLaws KeyValueSpec KeyValueSystem KeyValueTheorems Schema Permissions View Query Transaction TransactionSpec StoreDemo Vault Connection Admin Storage ConnectionTheorems StorageExamples Backup BackupTheorems.

Local Open Scope Z_scope.

(** ** Names and directories *)

(** A component that names an entry of a directory. *)
Definition plain_nameb (n : str) : bool :=
  negb (bool_decide (n = [])) && forallb (fun c => negb (c =? slash) && negb (c =? 0)) n &&
  negb (bool_decide (n = lit ".")) && negb (bool_decide (n = lit "..")).
Definition plain_name (n : str) : Prop := plain_nameb n = true.

Lemma plain_name_slash n : plain_name n -> slash ∉ n.
Proof.
  unfold plain_name, plain_nameb. rewrite !andb_true_iff, forallb_forall. intros (((_ & Hn) & _) & _) Hin%list_elem_of_In%Hn.
  by rewrite Z.eqb_refl in Hin.
Qed.
Lemma plain_not_nil n : plain_name n -> n <> [].
Proof. by intros Hn ->. Qed.

(** The directories below a base. *)
Definition below (base d : str) : Prop := exists components, components <> [] /\ Forall plain_name components /\ d = foldl join base components.

(** The regular files of a directory.  Operations may fail; what succeeds has
    its documented effect. *)
Class DirectoriesLaws `{Directories F} (base : str) (files : F -> str -> gmap str bytes) : Prop := {
  create_files d f r f' d' : create_dir_all d f = (r, f') -> below base d' -> files f' d' = files f d';
  write_files d n b f f' d' :
    below base d -> below base d' -> plain_name n -> fs_write (join d n) b f = (Ok tt, f') ->
    files f' d' = if decide (d' = d) then <[n := b]> (files f d) else files f d';
  read_files d n f b : below base d -> plain_name n -> fs_read (join d n) f = Ok b -> files f d !! n = Some b;
  read_dir_files d f es : below base d -> read_dir d f = Ok es ->
    (forall e, Err e ∈ es -> is_not_found e = false) /\
    forall n, is_Some (files f d !! n) <-> exists entry, Ok entry ∈ es /\ entry_name entry = Some n /\ entry_type entry = Ok TypeFile;
  read_dir_missing d f e : below base d -> read_dir d f = Err e -> is_not_found e = true -> files f d = ∅;
  files_plain d f n : below base d -> is_Some (files f d !! n) -> plain_name n
}.

(** ** Joining *)

Definition join_prefix (base : str) : str :=
  match last base with None => [] | Some c => if c =? slash then base else base ++ [slash] end.
Lemma join_plain base n : plain_name n -> join base n = join_prefix base ++ n.
Proof.
  intros Hn. unfold join, join_prefix. rewrite bool_decide_false.
  - destruct (last base) as [c|]; [|done]. destruct (c =? slash); [done|]. by rewrite <- app_assoc.
  - intros Hh. apply (plain_name_slash n Hn). destruct n; [done|]. injection Hh as ->. left.
Qed.
Lemma join_prefix_plain d n : plain_name n -> join_prefix (d ++ n) = d ++ n ++ [slash].
Proof.
  intros Hn. unfold join_prefix. destruct (last n) as [c|] eqn:Hl; [|by apply last_None in Hl; subst].
  rewrite (proj2 (last_app_Some d n c) (or_introl Hl)). destruct (Z.eqb_spec c slash) as [->|]; [|by rewrite app_assoc].
  destruct (plain_name_slash n Hn). by apply last_Some_elem_of.
Qed.

Lemma slash_split a b x y : slash ∉ a -> slash ∉ b -> a ++ slash :: x = b ++ slash :: y -> a = b /\ x = y.
Proof.
  revert b. induction a as [|c a IH]; intros [|c' b] Ha Hb; cbn; [by intros [=]|..].
  - intros [= <- _]. set_solver.
  - intros [= -> _]. set_solver.
  - intros [= <- Heq]. destruct (IH b) as [-> ->]; set_solver.
Qed.

Section Paths.
Context `{DirectoriesLaws F base files}.

(** The containers whose parts are components of a path. *)
Definition path_container (k : Container) : Prop :=
  qualified_wf (ct_schema k) /\ plain_name (qualified_encoded (ct_schema k)) /\ plain_name (ct_database k) /\ plain_name (ct_name k).

Lemma container_folder_plain k : path_container k ->
  container_folder base k = join_prefix base ++ qualified_encoded (ct_schema k) ++ slash :: ct_database k ++ slash :: ct_name k.
Proof.
  intros (_ & Hs & Hd & Hn). unfold container_folder, database_folder, schema_folder.
  rewrite (join_plain base) by done. rewrite (join_plain _ (ct_database k)) by done. rewrite (join_prefix_plain _ _ Hs).
  rewrite (join_plain _ (ct_name k)) by done. rewrite (join_prefix_plain _ _ Hd). rewrite <- !app_assoc. done.
Qed.
Lemma container_folder_below k : path_container k -> below base (container_folder base k).
Proof.
  intros (_ & Hs & Hd & Hn). exists [qualified_encoded (ct_schema k); ct_database k; ct_name k]. split_and!; [done| |done]. by repeat constructor.
Qed.
Lemma container_folder_inj k k' : path_container k -> path_container k' -> container_folder base k = container_folder base k' -> k = k'.
Proof.
  intros Hk Hk'. rewrite !container_folder_plain by done. destruct Hk as (Hw & Hs & Hd & Hn), Hk' as (Hw' & Hs' & Hd' & Hn').
  intros Heq%app_inv_head. apply slash_split in Heq as [Hs0 Heq]; [|by apply plain_name_slash..].
  apply slash_split in Heq as [Hd0 Hn0]; [|by apply plain_name_slash..]. destruct k, k'. cbn in *. subst. f_equal.
  by eapply encoded_inj.
Qed.

(** The names of the regular files, unless the type of an entry is not known. *)
Lemma iterate_files es l :
  (forall e, Err e ∈ es -> is_not_found e = false) -> iterate_entries file_entry es = Ok l ->
  forall n, n ∈ l <-> exists entry, Ok entry ∈ es /\ entry_name entry = Some n /\ entry_type entry = Ok TypeFile.
Proof.
  revert l. induction es as [|next es IH]; intros l Herr Hrun n; cbn [iterate_entries] in Hrun.
  - injection Hrun as <-. split; [set_solver|]. by intros (? & ?%not_elem_of_nil & _).
  - assert (forall e, Err e ∈ es -> is_not_found e = false) as Herr' by (intros; apply Herr; set_solver).
    destruct next as [entry|e|]; [|cbn in Hrun; rewrite (Herr e) in Hrun by set_solver; done|done].
    cbn in Hrun. destruct (entry_name entry) as [n0|] eqn:Hname.
    + apply bind_Ok_inv in Hrun as (o & Ho & Hrun). apply bind_Ok_inv in Hrun as (rest & Hrest & [= <-]).
      unfold file_entry in Ho. apply bind_Ok_inv in Ho as (ty & Hty & [= <-]). rewrite elem_of_app, (IH rest Herr' Hrest n). split.
      * intros [Hn|(en & ? & ? & ?)]; [|exists en; set_solver]. exists entry. destruct ty; try by apply not_elem_of_nil in Hn.
        apply list_elem_of_singleton in Hn as ->. split; [left|done].
      * intros (en & [Heq|Hen]%elem_of_cons & Hnn & Hft); [left|right; by exists en]. injection Heq as ->. rewrite Hname in Hnn.
        rewrite Hft in Hty. injection Hnn as ->. injection Hty as <-. left.
    + rewrite (IH l Herr' Hrun n). split.
      * intros (en & ? & ?). exists en. set_solver.
      * intros (en & [Heq|Hen]%elem_of_cons & Hnn & Hft); [injection Heq as ->; congruence|by exists en].
Qed.

(** The names of a container are the files of its folder. *)
Theorem path_location_laws :
  LocationLaws (H := path_location base) path_container plain_name (fun f k => files f (container_folder base k)).
Proof.
  split.
  - intros k n b l l' k' Hk Hk' Hn Hrun. apply stm_bind_Ok_inv in Hrun as ([] & l1 & Hdir & Hrun).
    apply container_folder_below in Hk as Hb, Hk' as Hb'. rewrite (write_files _ _ _ _ _ _ Hb Hb' Hn Hrun).
    rewrite !(create_files _ _ _ _ _ Hdir) by done. destruct (decide (k' = k)) as [->|Hne]; [by rewrite !decide_True|].
    rewrite decide_False; [done|]. intros ?. by apply Hne, container_folder_inj.
  - intros k l ns n Hk Hrun. apply container_folder_below in Hk. cbn in Hrun. unfold iterate_directory in Hrun.
    apply bind_Ok_inv in Hrun as ([es|] & Hes & Hrun); unfold ignore_not_found in Hes; destruct (read_dir _ l) as [es'|e|] eqn:Hr; try done.
    + injection Hes as <-. destruct (read_dir_files _ _ _ Hk Hr) as [Herr ->]. by apply iterate_files.
    + by destruct (is_not_found e).
    + destruct (is_not_found e) eqn:He; [|done]. injection Hrun as <-. rewrite (read_dir_missing _ _ _ Hk Hr He), lookup_empty.
      split; [set_solver|]. by intros [].
  - intros k l n Hk%container_folder_below. by eapply files_plain.
  - intros k n l b Hk%container_folder_below Hn Hrun. by eapply read_files.
Qed.
End Paths.

Lemma below_join base d n : below base d -> plain_name n -> join d n = d ++ slash :: n.
Proof.
  intros (cs & Hne & Hcs & ->) Hn. destruct cs as [|c cs _] using rev_ind; [done|]. apply Forall_app in Hcs as [_ [Hc _]%Forall_cons].
  rewrite foldl_app. cbn [foldl]. rewrite (join_plain _ n Hn), (join_plain _ c Hc), (join_prefix_plain _ c Hc). by rewrite <- !app_assoc.
Qed.

(** ** A file system in memory *)

Module MemDirectories.

(** The files of every directory. *)
Abbreviation tree := (gmap str (gmap str bytes)).

Fixpoint split_last (s : str) : option (str * str) :=
  match s with
  | [] => None
  | c :: s =>
      match split_last s with
      | Some (a, b) => Some (c :: a, b)
      | None => if c =? slash then Some ([], s) else None
      end
  end.
Lemma split_last_None s : slash ∉ s -> split_last s = None.
Proof.
  induction s as [|c s IH]; intros Hs; [done|]. cbn. rewrite IH by set_solver. destruct (Z.eqb_spec c slash); [set_solver|done].
Qed.
Lemma split_last_app d n : slash ∉ n -> split_last (d ++ slash :: n) = Some (d, n).
Proof. intros Hn. induction d as [|c d IH]; cbn; [by rewrite split_last_None|by rewrite IH]. Qed.

(** The prefixes that end before a slash. *)
Fixpoint parents (pre s : str) : list str :=
  match s with
  | [] => []
  | c :: s => if c =? slash then pre :: parents (pre ++ [c]) s else parents (pre ++ [c]) s
  end.
Definition add_dir (f : tree) (d : str) : tree := match f !! d with Some _ => f | None => <[d := ∅]> f end.
Definition contents_of (f : tree) (d : str) : gmap str bytes := default ∅ (f !! d).
Definition files_of (f : tree) (d : str) : gmap str bytes := filter (fun p => plain_nameb p.1 = true) (contents_of f d).

Definition subdirectories (d : str) (f : tree) : list str :=
  omap (fun p => match split_last p with Some (a, n) => if decide (a = d) then Some n else None | None => None end) (elements (dom f)).

#[export] Instance mem_directories : Directories tree := {|
  io_error := unit;
  is_not_found _ := true;
  create_dir_all d f := (Ok tt, fold_left add_dir (parents [] d ++ [d]) f);
  fs_write p b f :=
    match split_last p with
    | Some (d, n) => match f !! d with Some m => (Ok tt, <[d := <[n := b]> m]> f) | None => (Err tt, f) end
    | None => (Err tt, f)
    end;
  fs_read p f :=
    match split_last p with
    | Some (d, n) => ok_or tt (contents_of f d !! n)
    | None => Err tt
    end;
  read_dir d f :=
    match f !! d with
    | Some _ =>
        Ok (((fun p : str * bytes => Ok (MkDirEntry (Some p.1) (Ok TypeFile))) <$> map_to_list (files_of f d)) ++
            ((fun n : str => Ok (MkDirEntry (Some n) (Ok TypeDir))) <$> subdirectories d f))
    | None => Err tt
    end
|}.

Lemma add_dir_contents f d d' : contents_of (add_dir f d) d' = contents_of f d'.
Proof.
  unfold add_dir, contents_of. destruct (f !! d) eqn:Hd; [done|]. destruct (decide (d' = d)) as [->|]; [by rewrite lookup_insert_eq, Hd|].
  by rewrite lookup_insert_ne.
Qed.
Lemma add_dirs_contents ds f d' : contents_of (fold_left add_dir ds f) d' = contents_of f d'.
Proof. revert f. induction ds as [|d ds IH]; intros f; cbn; [done|]. by rewrite IH, add_dir_contents. Qed.

#[export] Instance mem_directories_laws base : DirectoriesLaws base files_of.
Proof.
  split.
  - intros d f r f' d' [= _ <-] _. unfold files_of. by rewrite add_dirs_contents.
  - intros d n b f f' d' Hd _ Hn. rewrite (below_join base d n) by done. cbn. rewrite split_last_app by (by apply plain_name_slash).
    destruct (f !! d) as [m|] eqn:Hm; [|done]. intros [= <-]. unfold files_of, contents_of. case_decide as Heq; [subst d'|by rewrite lookup_insert_ne].
    rewrite lookup_insert_eq, Hm. cbn. by rewrite map_filter_insert_True.
  - intros d n f b Hd Hn. rewrite (below_join base d n) by done. cbn. rewrite split_last_app by (by apply plain_name_slash).
    intros Hb%ok_or_Ok_inv. unfold files_of. by apply map_lookup_filter_Some.
  - intros d f es _ Hr. cbn in Hr. destruct (f !! d) as [m|] eqn:Hm; [|done]. injection Hr as <-. split.
    + intros e [Hin|Hin]%elem_of_app; apply list_elem_of_fmap in Hin as (? & ? & _); done.
    + intros n. split.
      * intros [b Hb]. exists (MkDirEntry (Some n) (Ok TypeFile)). split; [|done]. apply elem_of_app. left. apply list_elem_of_fmap.
        exists (n, b). by rewrite elem_of_map_to_list.
      * intros (entry & [Hin|Hin]%elem_of_app & Hname & Hty); apply list_elem_of_fmap in Hin as (x & [= ->] & Hx); [|done].
        injection Hname as <-. destruct x as [n b]. apply elem_of_map_to_list in Hx. by exists b.
  - intros d f e _ Hr _. cbn in Hr. unfold files_of, contents_of. destruct (f !! d); [done|]. apply map_filter_empty.
  - intros d f n _ [b (_ & Hn)%map_lookup_filter_Some]. done.
Qed.
End MemDirectories.

(** ** Backups of a small database *)

Module BackupDemo.
Import MemNebari StoreDemo Demo MemDirectories.
#[local] Existing Instance StorageDemo.demo_formats.
#[local] Instance demo_entry_format : EntryFormat := {| entry_to_vec e := Some (bits (encode e)); entry_from_slice bs := decode (unbits bs) |}.
Lemma demo_entry_roundtrip e o : entry_to_vec e = Some o -> entry_from_slice o = Some e.
Proof. intros [= <-]. simpl. by rewrite unbits_bits, decode_encode. Qed.
#[local] Instance notes_connection : LowLevelConnection Database := reference_connection demo_schema.
#[local] Instance notes_connection_laws : ConnectionLaws ids_match (fun D => D) := reference_laws demo_schema.

Definition base : str := lit "backup".
#[local] Instance demo_location : BackupLocation (gmap str (gmap str bytes)) := path_location base.
#[local] Instance demo_location_laws : LocationLaws path_container plain_name (fun f k => files_of f (container_folder base k)) := path_location_laws.

(** One note, and a key that expires much later. *)
Definition db : str := lit "db".
Definition note_id : bytes := to_be_bytes u64 1.
Definition one_note : Database := set_documents (fun _ => ∅) notes {[ note_id := document_new note_id [7; 8] ]}.
Definition later : Timestamp := MkTimestamp 1_000_000 0.
Definition key_a : KeyOperation := MkKeyOp (Some (lit "ns")) (lit "a") (CSet (MkSet (VBytes [9]) (Some later) false None false)).
Definition store_a : World := (perform_kv_operation clock key_a start).2.
Definition empty_tree : gmap str (gmap str bytes) := ∅.
Definition backed := backup_database db [notes] (MkCopying one_note store_a empty_tree).
Definition restored := restore_database clock db None [notes] (MkCopying (fun _ => ∅) start (cp_location backed.2)).

Lemma backed_runs : backup_database db [notes] (MkCopying one_note store_a empty_tree) = (Ok tt, backed.2).
Proof. change (backed = (Ok tt, backed.2)). rewrite (surjective_pairing backed) at 1. f_equal. Qed.
Lemma restored_runs :
  restore_database clock db None [notes] (MkCopying (fun _ => ∅) start (cp_location backed.2)) = (Ok tt, restored.2).
Proof. change (restored = (Ok tt, restored.2)). rewrite (surjective_pairing restored) at 1. f_equal. Qed.
Lemma empty_location n : files_of empty_tree (container_folder base (container (St := Database) db n)) = ∅.
Proof. reflexivity. Qed.

Definition entry_a : KeyValue.Entry := KeyValue.MkEntry (VBytes [9]) (Some later) (clock (ticks start)).
Definition snapshot : gmap (option str * str) KeyValue.Entry := match all_key_value_entries (kv store_a) with Ok m => m | _ => ∅ end.
Lemma snapshot_a : all_key_value_entries (kv store_a) = Ok snapshot.
Proof. reflexivity. Qed.
Lemma snapshot_list : map_to_list snapshot = [((Some (lit "ns"), lit "a"), entry_a)].
Proof. vm_compute. reflexivity. Qed.
Lemma snapshot_entry x e : snapshot !! x = Some e -> x = (Some (lit "ns"), lit "a") /\ e = entry_a.
Proof. intros Hx%elem_of_map_to_list. rewrite snapshot_list in Hx. by apply list_elem_of_singleton in Hx as [= -> ->]. Qed.
Lemma start_empty k : KeyValueLaws.view (kv start) k = None /\ expiring_keys (kv start) !! k = None.
Proof. split; reflexivity. Qed.
Lemma one_note_ids : ids_match one_note.
Proof.
  intros c d doc Hd. unfold one_note, set_documents in Hd. case_decide; [|by rewrite lookup_empty in Hd].
  by apply lookup_singleton_Some in Hd as [<- <-].
Qed.
Lemma empty_ids : ids_match (fun _ => ∅).
Proof. intros c d doc Hd. by rewrite lookup_empty in Hd. Qed.
Lemma store_a_inv : kv_inv store_a.
Proof.
  pose proof (perform_kv_operation_ok clock clock_normal key_a start ltac:(split; done) (initial_inv clock clock_normal _ _)) as Hrun.
  destruct Hrun as (r & w & Hrun & Hinv & _). unfold store_a. rewrite Hrun. exact Hinv.
Qed.
Lemma notes_wf : qualified_wf notes.
Proof. split; done. Qed.

Lemma demo_wf c : c ∈ [notes] -> qualified_wf c.
Proof. intros ->%list_elem_of_singleton. apply notes_wf. Qed.
Lemma one_note_id c d : c ∈ [notes] -> is_Some (one_note c !! d) -> d = note_id.
Proof.
  intros ->%list_elem_of_singleton [doc Hd]. change (one_note notes) with ({[ note_id := document_new note_id [7; 8] ]} : gmap bytes Doc) in Hd.
  by apply lookup_singleton_Some in Hd as [<- _].
Qed.
Lemma one_key m x : all_key_value_entries (kv store_a) = Ok m -> is_Some (m !! x) -> x = (Some (lit "ns"), lit "a").
Proof. intros Hm [e Hx]. rewrite <- (Ok_inj _ _ (eq_trans (eq_sym snapshot_a) Hm)) in Hx. by apply snapshot_entry in Hx as [-> _]. Qed.
Lemma demo_location_keeps : location_keeps (fun D => D) path_container plain_name db [notes] one_note store_a.
Proof.
  split.
  - intros c ->%list_elem_of_singleton. split; [apply notes_wf|by vm_compute].
  - split; [apply notes_wf|by vm_compute].
  - intros c d Hc Hd. rewrite (one_note_id c d Hc Hd). by vm_compute.
  - intros m x Hm Hx. rewrite (one_key m x Hm Hx). by vm_compute.
Qed.
Lemma demo_readable : readable_ids (fun D => D) [notes] one_note.
Proof.
  intros c d Hc Hd. rewrite (one_note_id c d Hc Hd). split_and!; [|by vm_compute|by left].
  apply (bool_decide_unpack _). vm_compute. exact I.
Qed.
Lemma demo_unmarked : unmarked_namespaces store_a.
Proof.
  intros m x Hm Hx a b Heq. rewrite (one_key m x Hm Hx) in *. cbn [fst default] in *.
  assert (length a <= 2)%nat as Hlen by (apply (f_equal length) in Heq; rewrite !length_app in Heq; cbn in Heq; lia).
  destruct a as [|c0 [|c1 [|c2 a]]]; [discriminate Heq|discriminate Heq| |cbn in Hlen; lia].
  injection Heq as H0 H1 _. rewrite <- H0, <- H1. reflexivity.
Qed.
Lemma demo_lasting : lasting clock snapshot.
Proof.
  intros x e t n [_ ->]%snapshot_entry [= <-]. unfold timestamp_leb, timestamp_cmp. change (seconds later) with 1_000_000.
  change (seconds (clock n)) with (1000 + Z.of_nat n `mod` 1000). pose proof (Z.mod_pos_bound (Z.of_nat n) 1000 ltac:(lia)).
  by rewrite (proj2 (Z.compare_gt_iff _ _)) by lia.
Qed.
Lemma same_collections c : c ∈ [notes] <-> c ∈ [notes].
Proof. done. Qed.

Lemma backup_restores_documents_witness :
  contents <$> cp_conn restored.2 notes !! note_id = Some [7; 8].
Proof.
  rewrite (backup_restores_documents ids_match (fun D => D) path_container plain_name (fun f k => files_of f (container_folder base k)) db
    clock None [notes] [notes] one_note store_a empty_tree backed.2 (fun _ => ∅) start restored.2 demo_wf store_a_inv demo_location_keeps demo_readable demo_unmarked one_note_ids
    empty_location backed_runs empty_ids (fun _ _ => eq_refl) same_collections restored_runs notes note_id).
  - reflexivity.
  - by apply list_elem_of_singleton.
  - done.
Defined.

Lemma backup_restores_keys_witness :
  value_and_expiration (KeyValueLaws.view (kv (cp_kv restored.2)) (full_key (Some (lit "ns")) (lit "a"))) = Some (VBytes [9], Some later).
Proof.
  rewrite (backup_restores_keys ids_match (fun D => D) path_container plain_name (fun f k => files_of f (container_folder base k)) db
    clock clock_normal demo_entry_roundtrip None [notes] [notes] one_note store_a _ empty_tree backed.2 (fun _ => ∅) start restored.2
    demo_wf store_a_inv demo_location_keeps demo_readable demo_unmarked one_note_ids empty_location ltac:(done) snapshot_a demo_lasting backed_runs (initial_inv clock clock_normal _ _) start_empty
    same_collections restored_runs).
  - reflexivity.
  - done.
  - unfold full_key. set_solver.
Defined.

(** ** What a backup does not keep *)

(** An id with a dollar is stored, but its name is read as another id or as
    none. *)
Lemma dollar_id_lost : ~ id_kept plain_name [97; 36; 98].
Proof. intros [_ Hd]. by vm_compute in Hd. Qed.
(** An id with a slash names a file in a directory that does not exist. *)
Lemma slash_id_fails :
  (backup_document db notes (document_new [97; 47; 98] [7]) (MkCopying one_note store_a empty_tree)).1 = Err (LocationFailed tt).
Proof. reflexivity. Qed.
(** Without collections the keys are not stored. *)
Lemma no_collections_no_keys b : backup_database db [] b = (Ok tt, b).
Proof. reflexivity. Qed.
(** The ids the theorems exclude are not read back, and a marker in a namespace
    is found. *)
Lemma excluded_names : ~ readable_id [97; 36; 98] /\ ~ unmarked (lit "x._key._y") /\ ~ unmarked (lit "._key").
Proof.
  split_and!.
  - intros (_ & _ & [?|Hd]); [done|]. apply Hd. set_solver.
  - intros Hns. specialize (Hns (lit "x") (lit "y._key._") eq_refl). discriminate Hns.
  - intros Hns. specialize (Hns [] (lit "key._") eq_refl). discriminate Hns.
Qed.
(** A namespace that holds the marker is restored as another one. *)
Lemma marker_in_namespace : split_at_str key_marker (full_name (Some (lit "x._key._y")) (lit "a")) = Some (lit "x", lit "y._key._a").
Proof. reflexivity. Qed.
(** A database named [_kv] is valid and stored, but not listed. *)
Lemma kv_database_not_listed :
  validate_name (lit "_kv") = Ok tt /\
  location_databases notes (path_store base (MkContainer notes (lit "_kv") (qualified_encoded notes)) (lit "a") [7] empty_tree).2 = Ok [].
Proof. split; reflexivity. Qed.
End BackupDemo.
