(* ===== verification/Networking.v ===== *)
(** * Requests, responses and payloads

    [bonsaidb-core/src/networking.rs], [api.rs] and [schema/summary.rs]: the
    requests a client can send to a server, each with its name and the type of
    its response, and the payloads that carry them.

    Every request is a type that implements the trait [Api]; here the types are
    indexed by [api], one constructor per implementor.  Requests and responses
    are serialized with [pot], a class with its round trip as the law. *)

From Stdlib Require Import ZArith Lia String.
From stdpp Require Import base list option numbers gmap.
From S2P Require Import Prelude Bytes Utf8 Timestamp Numeric Key Range Nebari Document Names KeyValue Changes Schema Permissions View Query Transaction Tasks Vault Connection Admin Storage.

Local Open Scope Z_scope.

Definition CURRENT_PROTOCOL_VERSION : str := lit "bonsai-pre-1".

Definition ApiName := QualifiedName.
#[export] Instance ApiName_eq_dec : EqDecision ApiName := QualifiedName_eq_dec.
#[export] Instance ApiName_countable : Countable ApiName := QualifiedName_countable.

(** ** Summaries of schemas

    Without the description of the keys of a view: views are their serialized
    functions here, and their keys are bytes. *)

Record ViewSummary := MkViewSummary { vs_name : ViewName; vs_policy : ViewUpdatePolicy; vs_version : Z }.
Record CollectionSummary := MkCollectionSummary {
  cs_name : CollectionName;
  cs_primary_key : KeyDescription;
  cs_views : gmap ViewName ViewSummary
}.
Record SchemaSummary := MkSchemaSummary { ss_name : SchemaName; ss_collections : gmap CollectionName CollectionSummary }.

Definition view_summary (v : View) : ViewSummary := MkViewSummary (view_name v) (update_policy v) (version v).
Definition schema_summary (s : Schematic) : SchemaSummary :=
  MkSchemaSummary (schematic_name s)
    (map_imap (fun c primary_key => Some (MkCollectionSummary c primary_key
       (list_to_map (reverse ((fun v => (view_name v, view_summary v)) <$> views_in_collection s c)))))
       (contained_collections s)).

(** ** Requests *)

Record CreateDatabaseReq := MkCreateDatabaseReq { rq_new_name : str; rq_new_schema : SchemaName; rq_only_if_needed : bool }.
Record AlterMembershipReq := MkAlterMembershipReq { rq_user : NamedReference Z; rq_group : NamedReference Z; rq_should_be_member : bool }.
Record SetUserPasswordReq := MkSetUserPasswordReq { rq_password_user : NamedReference Z; rq_password : str }.
Record GetReq := MkGetReq { rq_get_database : str; rq_get_collection : CollectionName; rq_get_id : bytes }.
Record GetMultipleReq := MkGetMultipleReq { rq_multi_database : str; rq_multi_collection : CollectionName; rq_multi_ids : list bytes }.
Record ListReq := MkListReq {
  rq_list_database : str; rq_list_collection : CollectionName; rq_list_ids : Range bytes; rq_list_order : Sort; rq_list_limit : option Z }.
Record CountReq := MkCountReq { rq_count_database : str; rq_count_collection : CollectionName; rq_count_ids : Range bytes }.
Record QueryReq := MkQueryReq {
  rq_query_database : str; rq_query_view : ViewName; rq_query_key : option SerializedQueryKey; rq_query_order : Sort;
  rq_query_limit : option Z; rq_query_access_policy : AccessPolicy }.
(** [Reduce] and [DeleteDocs] have the same fields. *)
Record ReduceReq := MkReduceReq {
  rq_reduce_database : str; rq_reduce_view : ViewName; rq_reduce_key : option SerializedQueryKey; rq_reduce_access_policy : AccessPolicy }.
Record ApplyTransactionReq := MkApplyTransactionReq { rq_apply_database : str; rq_transaction : list Operation }.
Record ListExecutedReq := MkListExecutedReq { rq_executed_database : str; rq_starting_id : option Z; rq_result_limit : option Z }.
Record PublishReq := MkPublishReq { rq_publish_database : str; rq_publish_topic : bytes; rq_publish_payload : bytes }.
Record PublishToAllReq := MkPublishToAllReq { rq_all_database : str; rq_all_topics : list bytes; rq_all_payload : bytes }.
(** [SubscribeTo] and [UnsubscribeFrom] have the same fields. *)
Record SubscribeToReq := MkSubscribeToReq { rq_sub_database : str; rq_subscriber_id : Z; rq_sub_topic : bytes }.
Record MessageReceived := MkMessageReceived { mr_subscriber_id : Z; mr_topic : bytes; mr_payload : bytes }.
Record UnregisterSubscriberReq := MkUnregisterSubscriberReq { rq_unreg_database : str; rq_unreg_subscriber_id : Z }.
Record ExecuteKeyOperationReq := MkExecuteKeyOperationReq { rq_kv_database : str; rq_op : KeyOperation }.
Record CompactCollectionReq := MkCompactCollectionReq { rq_compact_database : str; rq_compact_name : CollectionName }.

(** The implementors of [Api] that are requests. *)
Inductive api :=
| ApiCreateDatabase | ApiDeleteDatabase | ApiListDatabases | ApiListAvailableSchemas
| ApiCreateUser | ApiDeleteUser | ApiSetUserPassword | ApiAuthenticate | ApiAssumeIdentity | ApiLogOutSession
| ApiAlterUserPermissionGroupMembership | ApiAlterUserRoleMembership
| ApiGet | ApiGetMultiple | ApiList | ApiListHeaders | ApiCount
| ApiQuery | ApiQueryWithDocs | ApiReduce | ApiReduceGrouped | ApiDeleteDocs
| ApiApplyTransaction | ApiListExecutedTransactions | ApiLastTransactionId
| ApiCreateSubscriber | ApiPublish | ApiPublishToAll | ApiSubscribeTo | ApiUnsubscribeFrom | ApiUnregisterSubscriber
| ApiExecuteKeyOperation | ApiCompactCollection | ApiCompactKeyValueStore | ApiCompact.
#[export] Instance api_eq_dec : EqDecision api.
Proof. solve_decision. Defined.

Definition all_apis : list api :=
  [ApiAlterUserPermissionGroupMembership; ApiAlterUserRoleMembership; ApiApplyTransaction; ApiAssumeIdentity; ApiCompact;
   ApiCompactCollection; ApiCompactKeyValueStore; ApiCount; ApiCreateDatabase; ApiCreateSubscriber; ApiCreateUser;
   ApiDeleteDatabase; ApiDeleteDocs; ApiDeleteUser; ApiExecuteKeyOperation; ApiGet; ApiGetMultiple; ApiLastTransactionId;
   ApiList; ApiListHeaders; ApiListAvailableSchemas; ApiListDatabases; ApiListExecutedTransactions; ApiLogOutSession;
   ApiPublish; ApiPublishToAll; ApiQuery; ApiQueryWithDocs; ApiReduce; ApiReduceGrouped; ApiSubscribeTo;
   ApiUnregisterSubscriber; ApiUnsubscribeFrom; ApiAuthenticate; ApiSetUserPassword].

Definition api_local_name (a : api) : string :=
  match a with
  | ApiCreateDatabase => "CreateDatabase" | ApiDeleteDatabase => "DeleteDatabase" | ApiListDatabases => "ListDatabases"
  | ApiListAvailableSchemas => "ListAvailableSchemas" | ApiCreateUser => "CreateUser" | ApiDeleteUser => "DeleteUser"
  | ApiSetUserPassword => "SetUserPassword" | ApiAuthenticate => "Authenticate" | ApiAssumeIdentity => "AssumeIdentity"
  | ApiLogOutSession => "LogOutSession"
  | ApiAlterUserPermissionGroupMembership => "AlterUserPermissionGroupMembership"
  | ApiAlterUserRoleMembership => "AlterUserRoleMembership"
  | ApiGet => "Get" | ApiGetMultiple => "GetMultiple" | ApiList => "List" | ApiListHeaders => "ListHeaders" | ApiCount => "Count"
  | ApiQuery => "Query" | ApiQueryWithDocs => "QueryWithDocs" | ApiReduce => "Reduce" | ApiReduceGrouped => "ReduceGrouped"
  | ApiDeleteDocs => "DeleteDocs" | ApiApplyTransaction => "ApplyTransaction"
  | ApiListExecutedTransactions => "ListExecutedTransactions" | ApiLastTransactionId => "LastTransactionId"
  | ApiCreateSubscriber => "CreateSubscriber" | ApiPublish => "Publish" | ApiPublishToAll => "PublishToAll"
  | ApiSubscribeTo => "SubscribeTo" | ApiUnsubscribeFrom => "UnsubscribeFrom" | ApiUnregisterSubscriber => "UnregisterSubscriber"
  | ApiExecuteKeyOperation => "ExecuteKeyOperation" | ApiCompactCollection => "CompactCollection"
  | ApiCompactKeyValueStore => "CompactKeyValueStore" | ApiCompact => "Compact"
  end.
Definition api_name (a : api) : ApiName := qualified_new (lit "bonsaidb") (lit (api_local_name a)).
(** [MessageReceived::name()]. *)
Definition message_received_name : ApiName := qualified_new (lit "bonsaidb") (lit "MessageReceived").

Lemma elem_of_all_apis a : a ∈ all_apis.
Proof. apply (bool_decide_eq_true (a ∈ all_apis)). by destruct a. Qed.
Lemma api_names_distinct : NoDup (message_received_name :: (api_name <$> all_apis)).
Proof. apply (bool_decide_eq_true (NoDup _)). vm_compute. reflexivity. Qed.
Lemma api_name_inj a b : api_name a = api_name b -> a = b.
Proof.
  intros Heq. pose proof (elem_of_all_apis a) as Ha. pose proof (elem_of_all_apis b) as Hb.
  apply list_elem_of_lookup in Ha as [i Hi]. apply list_elem_of_lookup in Hb as [j Hj].
  pose proof api_names_distinct as [_ Hnd]%NoDup_cons.
  assert (i = j) as ->; [|congruence].
  eapply (NoDup_lookup _ i j (api_name a) Hnd); rewrite list_lookup_fmap; [by rewrite Hi|by rewrite Hj, Heq].
Qed.

Section Networking.
Context `{Nebari} `{Actionable}.

(** A [Result] of Rust that can be sent: [inl] is [Ok]. *)
Abbreviation Result A := (A + CoreError)%type.
Definition to_res {A} (r : Result A) : res CoreError A := match r with inl a => Ok a | inr e => Err e end.

(** [Payload]. *)
Record Payload := MkPayload {
  py_session_id : option Z;
  py_id : option Z;
  py_name : ApiName;
  py_value : Result bytes
}.

Definition request (a : api) : Type :=
  match a with
  | ApiCreateDatabase => CreateDatabaseReq
  | ApiDeleteDatabase => str
  | ApiListDatabases | ApiListAvailableSchemas => unit
  | ApiCreateUser => str
  | ApiDeleteUser => NamedReference Z
  | ApiSetUserPassword => SetUserPasswordReq
  | ApiAuthenticate => Authentication
  | ApiAssumeIdentity => IdentityReference
  | ApiLogOutSession => Z
  | ApiAlterUserPermissionGroupMembership | ApiAlterUserRoleMembership => AlterMembershipReq
  | ApiGet => GetReq
  | ApiGetMultiple => GetMultipleReq
  | ApiList | ApiListHeaders => ListReq
  | ApiCount => CountReq
  | ApiQuery | ApiQueryWithDocs => QueryReq
  | ApiReduce | ApiReduceGrouped | ApiDeleteDocs => ReduceReq
  | ApiApplyTransaction => ApplyTransactionReq
  | ApiListExecutedTransactions => ListExecutedReq
  | ApiLastTransactionId | ApiCreateSubscriber | ApiCompactKeyValueStore | ApiCompact => str
  | ApiPublish => PublishReq
  | ApiPublishToAll => PublishToAllReq
  | ApiSubscribeTo | ApiUnsubscribeFrom => SubscribeToReq
  | ApiUnregisterSubscriber => UnregisterSubscriberReq
  | ApiExecuteKeyOperation => ExecuteKeyOperationReq
  | ApiCompactCollection => CompactCollectionReq
  end.

Definition response (a : api) : Type :=
  match a with
  | ApiCreateDatabase | ApiDeleteDatabase | ApiDeleteUser | ApiSetUserPassword | ApiLogOutSession
  | ApiAlterUserPermissionGroupMembership | ApiAlterUserRoleMembership | ApiPublish | ApiPublishToAll
  | ApiSubscribeTo | ApiUnsubscribeFrom | ApiUnregisterSubscriber
  | ApiCompactCollection | ApiCompactKeyValueStore | ApiCompact => unit
  | ApiListDatabases => list (str * SchemaName)
  | ApiListAvailableSchemas => list SchemaSummary
  | ApiCreateUser | ApiCount | ApiDeleteDocs | ApiCreateSubscriber => Z
  | ApiAuthenticate | ApiAssumeIdentity => Session
  | ApiGet => option Doc
  | ApiGetMultiple | ApiList => list Doc
  | ApiListHeaders => list Header
  | ApiQuery => list MapSerialized
  | ApiQueryWithDocs => MappedSerializedDocuments
  | ApiReduce => bytes
  | ApiReduceGrouped => list MappedSerializedValue
  | ApiApplyTransaction => list OperationResult
  | ApiListExecutedTransactions => list Executed
  | ApiLastTransactionId => option Z
  | ApiExecuteKeyOperation => Output
  end.

(** [pot] on requests, on the results of handlers and on what a subscriber has
    received. *)
Class ApiFormats := {
  request_to_vec : forall a, request a -> option bytes;
  request_from_slice : forall a, bytes -> option (request a);
  result_to_vec : forall a, Result (response a) -> option bytes;
  result_from_slice : forall a, bytes -> option (Result (response a));
  message_to_vec : Result MessageReceived -> option bytes;
  message_from_slice : bytes -> option (Result MessageReceived)
}.
Class ApiFormatLaws `{ApiFormats} : Prop := {
  request_roundtrip a r b : request_to_vec a r = Some b -> request_from_slice a b = Some r;
  result_roundtrip a r b : result_to_vec a r = Some b -> result_from_slice a b = Some r;
  message_roundtrip m b : message_to_vec m = Some b -> message_from_slice b = Some m
}.

(** [From<pot::Error> for Error]; what [pot] says of the error is not kept. *)
Definition pot_error : CoreError := CoreOther (lit "pot") [].
(** [From<StorageError>]: the variants of a storage are those of the same enum. *)
Definition core_of_storage (e : StorageError) : CoreError :=
  match e with StorageCore e => e | StorageFaulted f => CoreStorage f end.

End Networking.
