(* ===== verification/Server.v ===== *)
(** * The server: connected clients and the handlers of requests

    [bonsaidb-server]: [server/connected_client.rs], [dispatch.rs], [api.rs],
    [config.rs] and the parts of [server.rs] that keep the clients and process
    their requests.

    The state is that of the storage, of the relay of its subscribers, the
    contents of the databases, and the clients.  A [ConnectedClient] is a shared
    reference: a request holds one while it is processed, also after the client
    has been removed from the map of clients.  The clients are kept in a list,
    and the map holds their positions.

    What the databases do is an argument, one record of operations per open
    database: its documents and views, and its key-value store.  [RemoteLaws]
    puts the local databases of [Connection] there. *)

From Stdlib Require Import ZArith Lia String.
From stdpp Require Import base list option numbers gmap.
From S2P Require Import Prelude Bytes Utf8 Timestamp Numeric Key Range Time Nebari Document Names KeyValue Changes Schema Permissions View Query Transaction Tasks Vault Connection Admin Storage PubSub Networking.

Local Open Scope Z_scope.

(** ** Databases *)

(** What a server asks of an open database: [AsyncLowLevelConnection],
    [AsyncConnection] and [AsyncKeyValue]. *)
Record DatabaseOps `{Nebari} `{Actionable} (St K : Type) := MkDatabaseOps {
  do_connection : LowLevelConnection St;
  do_query_by_name_with_docs : ViewName -> option SerializedQueryKey -> Sort -> option Z -> AccessPolicy ->
    stm St CoreError MappedSerializedDocuments;
  do_list_executed_transactions : option Z -> option Z -> stm St CoreError (list Executed);
  do_last_transaction_id : stm St CoreError (option Z);
  do_compact_collection_by_name : CollectionName -> stm St CoreError unit;
  do_compact_key_value_store : stm St CoreError unit;
  do_compact : stm St CoreError unit;
  do_execute_key_operation : KeyOperation -> stm K CoreError Output
}.
Arguments do_connection {_ _ St K} _.
Arguments do_query_by_name_with_docs {_ _ St K} _.
Arguments do_list_executed_transactions {_ _ St K} _.
Arguments do_last_transaction_id {_ _ St K} _.
Arguments do_compact_collection_by_name {_ _ St K} _.
Arguments do_compact_key_value_store {_ _ St K} _.
Arguments do_compact {_ _ St K} _.
Arguments do_execute_key_operation {_ _ St K} _.

(** ** Clients *)

Inductive Transport := Bonsai | WebSocket.
Record ClientSession `{Actionable} := MkClientSession { cls_session : Session; cls_subscribers : gmap Z Subscriber }.
Arguments MkClientSession {_} _ _.
(** [Data] of [connected_client.rs]; [cc_responses] is what has been sent to
    [response_sender], [cc_receiving] whether anyone receives it. *)
Record ConnectedClient `{Actionable} := MkConnectedClient {
  cc_id : Z;
  cc_sessions : gmap (option Z) ClientSession;
  cc_address : str;
  cc_transport : Transport;
  cc_responses : list (option Z * ApiName * bytes);
  cc_receiving : bool;
  cc_connected : bool
}.
Arguments MkConnectedClient {_} _ _ _ _ _ _ _.
(** The task of [forward_notifications_for]: it is spawned with the id of a
    session, which it looks up when it starts; the messages of the subscriber
    it has forwarded are the first [fw_next]. *)
Record Forwarder `{Actionable} := MkForwarder {
  fw_client : nat;
  fw_session : option Z + option Session;
  fw_subscriber : Subscriber;
  fw_next : nat
}.
Arguments MkForwarder {_} _ _ _ _.

(** What the backend of a server is told. *)
Inductive BackendEvent `{Actionable} :=
| ClientConnected (client : nat)
| ClientSessionEnded (session : Session) (client : nat) (disconnecting : bool)
| ClientDisconnected (client : nat).

Record Server `{Actionable} (St K R : Type) := MkServer {
  sv_data : Data St;
  sv_relay : R;
  sv_contents : str -> St * K;
  sv_clients : gmap Z nat;
  sv_heap : list ConnectedClient;
  sv_client_id_counter : Z;
  sv_forwarders : list Forwarder;
  sv_events : list BackendEvent
}.
Arguments MkServer {_ St K R} _ _ _ _ _ _ _ _.
Arguments sv_data {_ St K R} _.
Arguments sv_relay {_ St K R} _.
Arguments sv_contents {_ St K R} _ _.
Arguments sv_clients {_ St K R} _.
Arguments sv_heap {_ St K R} _.
Arguments sv_client_id_counter {_ St K R} _.
Arguments sv_forwarders {_ St K R} _.
Arguments sv_events {_ St K R} _.

Section Client.
Context `{Actionable}.
Implicit Types c : ConnectedClient.

Definition with_cc_sessions (m : gmap (option Z) ClientSession) c : ConnectedClient :=
  MkConnectedClient (cc_id c) m (cc_address c) (cc_transport c) (cc_responses c) (cc_receiving c) (cc_connected c).
Definition set_disconnected c : ConnectedClient :=
  MkConnectedClient (cc_id c) (cc_sessions c) (cc_address c) (cc_transport c) (cc_responses c) (cc_receiving c) false.
Definition logged_in_as (session : Session) c : ConnectedClient :=
  with_cc_sessions (<[session_id session := MkClientSession session ∅]> (cc_sessions c)) c.
(** [log_out]: the session that was removed. *)
Definition log_out (session : Z) c : option ClientSession * ConnectedClient :=
  (cc_sessions c !! Some session, with_cc_sessions (delete (Some session) (cc_sessions c)) c).
Definition client_session c (session_id : option Z) : option Session := cls_session <$> cc_sessions c !! session_id.
Definition all_sessions c : list Session := (fun p => cls_session p.2) <$> map_to_list (cc_sessions c).
(** [OwnedClient::new]. *)
Definition owned_client_new (id : Z) (address : str) (transport : Transport) (default_session : Session) : ConnectedClient :=
  MkConnectedClient id {[ None := MkClientSession default_session ∅ ]} address transport [] true true.
(** [send]: whether anyone receives it. *)
Definition client_send (session : option Session) (name : ApiName) (encoded : bytes) c : bool * ConnectedClient :=
  if cc_receiving c
  then (true, MkConnectedClient (cc_id c) (cc_sessions c) (cc_address c) (cc_transport c)
         (cc_responses c ++ [(session ≫= session_id, name, encoded)]) true (cc_connected c))
  else (false, c).
End Client.

Section Server.
Context `{Nebari} `{Actionable} `{!AdminFormats} `{Blake3} `{PasswordHasher} `{!StorageIO} `{Profile} `{!ApiFormats}.
Context {St K R : Type} `{!LowLevelConnection St} `{!Relay R}.
Context (ops : OpenDatabase -> DatabaseOps St K) (new_contents : St * K).
Abbreviation serverm := (stm (Server St K R) CoreError).
Implicit Types s : Server St K R.

Definition with_heap (heap : list ConnectedClient) s : Server St K R :=
  MkServer (sv_data s) (sv_relay s) (sv_contents s) (sv_clients s) heap (sv_client_id_counter s) (sv_forwarders s) (sv_events s).
Definition with_clients (clients : gmap Z nat) s : Server St K R :=
  MkServer (sv_data s) (sv_relay s) (sv_contents s) clients (sv_heap s) (sv_client_id_counter s) (sv_forwarders s) (sv_events s).
Definition with_counter (n : Z) s : Server St K R :=
  MkServer (sv_data s) (sv_relay s) (sv_contents s) (sv_clients s) (sv_heap s) n (sv_forwarders s) (sv_events s).
Definition with_forwarders (l : list Forwarder) s : Server St K R :=
  MkServer (sv_data s) (sv_relay s) (sv_contents s) (sv_clients s) (sv_heap s) (sv_client_id_counter s) l (sv_events s).
Definition with_events (l : list BackendEvent) s : Server St K R :=
  MkServer (sv_data s) (sv_relay s) (sv_contents s) (sv_clients s) (sv_heap s) (sv_client_id_counter s) (sv_forwarders s) l.
Definition with_contents (m : str -> St * K) s : Server St K R :=
  MkServer (sv_data s) (sv_relay s) m (sv_clients s) (sv_heap s) (sv_client_id_counter s) (sv_forwarders s) (sv_events s).
Definition on_client (client : nat) (f : ConnectedClient -> ConnectedClient) s : Server St K R := with_heap (alter f client (sv_heap s)) s.

(** The contents of a database are those of its directory: they are gone with
    it. *)
Definition with_data (d : Data St) (r : R) s : Server St K R :=
  MkServer d r (fun n => if decide (n ∈ folders (sv_data s) /\ n ∉ folders d) then new_contents else sv_contents s n)
    (sv_clients s) (sv_heap s) (sv_client_id_counter s) (sv_forwarders s) (sv_events s).
Definition on_storage {A} (m : stm (Data St) StorageError A) : serverm A := fun s =>
  let '(r, d) := m (sv_data s) in (map_err core_of_storage r, with_data d (sv_relay s) s).
Definition on_pubsub {A} (m : stm (Data St * R) StorageError A) : serverm A := fun s =>
  let '(r, (d, relay)) := m (sv_data s, sv_relay s) in (map_err core_of_storage r, with_data d relay s).

(** The documents of the administration database are those the storage uses. *)
Definition contents_of (name : str) s : St * K :=
  (if decide (name = ADMIN_DATABASE_NAME) then admin_state (sv_data s) else (sv_contents s name).1, (sv_contents s name).2).
Definition set_contents (name : str) (c : St * K) s : Server St K R :=
  MkServer (if decide (name = ADMIN_DATABASE_NAME) then with_admin c.1 (sv_data s) else sv_data s) (sv_relay s)
    (fun n => if decide (n = name) then c else sv_contents s n)
    (sv_clients s) (sv_heap s) (sv_client_id_counter s) (sv_forwarders s) (sv_events s).
Definition in_documents {A} (db : OpenDatabase) (m : stm St CoreError A) : serverm A := fun s =>
  let '(r, c) := m (contents_of (od_name db) s).1 in (r, set_contents (od_name db) (c, (contents_of (od_name db) s).2) s).
Definition in_keys {A} (db : OpenDatabase) (m : stm K CoreError A) : serverm A := fun s =>
  let '(r, k) := m (contents_of (od_name db) s).2 in (r, set_contents (od_name db) ((contents_of (od_name db) s).1, k) s).

(** ** Handlers *)

Record HandlerSession := MkHandlerSession { hs_client : nat; hs_as_client : Storage }.
Implicit Types h : HandlerSession.

(** [session.as_client.session().and_then(|session| session.id)]. *)
Definition hs_session_id h : option Z := effective_session (hs_as_client h) ≫= session_id.
Definition hs_database h (name : str) : serverm OpenDatabase := on_storage (database_without_schema name (Some (hs_as_client h)) None).

Definition handle_create_database h (r : CreateDatabaseReq) : serverm unit :=
  on_storage (create_database_with_schema (hs_as_client h) (rq_new_name r) (rq_new_schema r) (rq_only_if_needed r)).
Definition handle_delete_database h (name : str) : serverm unit := on_storage (delete_database (hs_as_client h) name).
Definition handle_list_databases h (_ : unit) : serverm (list (str * SchemaName)) := on_storage (list_databases (hs_as_client h)).
Definition handle_list_available_schemas h (_ : unit) : serverm (list SchemaSummary) :=
  schematics ← on_storage (list_available_schemas (hs_as_client h)); mret (schema_summary <$> schematics).
Definition handle_create_user h (username : str) : serverm Z := on_storage (create_user (hs_as_client h) username).
Definition handle_delete_user h (user : NamedReference Z) : serverm unit := on_storage (delete_user (hs_as_client h) user).
Definition handle_set_user_password (env : Ambient) h (r : SetUserPasswordReq) : serverm unit :=
  on_storage (set_user_password (hs_as_client h) (random_salt env) (rq_password_user r) (rq_password r)).

(** The storage of the new session is dropped when the handler returns. *)
Definition enter_session h (authenticated : Storage) : serverm Session :=
  new_session ← st_lift (unwrap (effective_session authenticated));
  st_modify (on_client (hs_client h) (logged_in_as new_session));;
  st_modify (fun s => with_data (drop_storage authenticated (sv_data s)) (sv_relay s) s);;
  mret new_session.
Definition handle_authenticate (env : Ambient) h (a : Authentication) : serverm Session :=
  authenticated ← on_storage (authenticate env (hs_as_client h) a); enter_session h authenticated.
Definition handle_assume_identity h (i : IdentityReference) : serverm Session :=
  authenticated ← on_storage (assume_identity (hs_as_client h) i); enter_session h authenticated.

(** Subscribers are dropped with the session that holds them. *)
Definition drop_subscribers (subs : list Subscriber) s : Server St K R :=
  foldr (fun sub s => let '(d, r) := drop_subscriber sub (sv_data s, sv_relay s) in with_data d r s) s subs.
Definition handle_log_out_session h (session : Z) : serverm unit := fun s =>
  match sv_heap s !! hs_client h with
  | Some c =>
      let '(logged_out, c) := log_out session c in
      let s := on_client (hs_client h) (fun _ => c) s in
      (Ok tt, match logged_out with
              | Some cs => with_events (sv_events s ++ [ClientSessionEnded (cls_session cs) (hs_client h) false])
                             (drop_subscribers (map_to_list (cls_subscribers cs)).*2 s)
              | None => s
              end)
  | None => (Panic, s)
  end.

Definition handle_alter_user_permission_group_membership h (r : AlterMembershipReq) : serverm unit :=
  if rq_should_be_member r then on_storage (add_permission_group_to_user (hs_as_client h) (rq_user r) (rq_group r))
  else on_storage (remove_permission_group_from_user (hs_as_client h) (rq_user r) (rq_group r)).
Definition handle_alter_user_role_membership h (r : AlterMembershipReq) : serverm unit :=
  if rq_should_be_member r then on_storage (add_role_to_user (hs_as_client h) (rq_user r) (rq_group r))
  else on_storage (remove_role_from_user (hs_as_client h) (rq_user r) (rq_group r)).

Definition conn_of (db : OpenDatabase) : LowLevelConnection St := do_connection (ops db).

Definition handle_get h (r : GetReq) : serverm (option Doc) :=
  db ← hs_database h (rq_get_database r);
  in_documents db (ll_get_from_collection (LowLevelConnection := conn_of db) (rq_get_id r) (rq_get_collection r)).
Definition handle_get_multiple h (r : GetMultipleReq) : serverm (list Doc) :=
  db ← hs_database h (rq_multi_database r);
  in_documents db (ll_get_multiple_from_collection (LowLevelConnection := conn_of db) (rq_multi_ids r) (rq_multi_collection r)).
Definition handle_list h (r : ListReq) : serverm (list Doc) :=
  db ← hs_database h (rq_list_database r);
  in_documents db (ll_list_from_collection (LowLevelConnection := conn_of db) (rq_list_ids r) (rq_list_order r) (rq_list_limit r) (rq_list_collection r)).
Definition handle_list_headers h (r : ListReq) : serverm (list Header) :=
  db ← hs_database h (rq_list_database r);
  in_documents db (ll_list_headers_from_collection (LowLevelConnection := conn_of db) (rq_list_ids r) (rq_list_order r) (rq_list_limit r) (rq_list_collection r)).
Definition handle_count h (r : CountReq) : serverm Z :=
  db ← hs_database h (rq_count_database r);
  in_documents db (ll_count_from_collection (LowLevelConnection := conn_of db) (rq_count_ids r) (rq_count_collection r)).
Definition handle_query h (r : QueryReq) : serverm (list MapSerialized) :=
  db ← hs_database h (rq_query_database r);
  in_documents db (ll_query_by_name (LowLevelConnection := conn_of db) (rq_query_view r) (rq_query_key r) (rq_query_order r)
    (rq_query_limit r) (rq_query_access_policy r)).
Definition handle_query_with_docs h (r : QueryReq) : serverm MappedSerializedDocuments :=
  db ← hs_database h (rq_query_database r);
  in_documents db (do_query_by_name_with_docs (ops db) (rq_query_view r) (rq_query_key r) (rq_query_order r)
    (rq_query_limit r) (rq_query_access_policy r)).
Definition handle_reduce h (r : ReduceReq) : serverm bytes :=
  db ← hs_database h (rq_reduce_database r);
  in_documents db (ll_reduce_by_name (LowLevelConnection := conn_of db) (rq_reduce_view r) (rq_reduce_key r) (rq_reduce_access_policy r)).
Definition handle_reduce_grouped h (r : ReduceReq) : serverm (list MappedSerializedValue) :=
  db ← hs_database h (rq_reduce_database r);
  in_documents db (ll_reduce_grouped_by_name (LowLevelConnection := conn_of db) (rq_reduce_view r) (rq_reduce_key r) (rq_reduce_access_policy r)).
Definition handle_apply_transaction h (r : ApplyTransactionReq) : serverm (list OperationResult) :=
  db ← hs_database h (rq_apply_database r);
  in_documents db (ll_apply_transaction (LowLevelConnection := conn_of db) (rq_transaction r)).
Definition handle_delete_docs h (r : ReduceReq) : serverm Z :=
  db ← hs_database h (rq_reduce_database r);
  in_documents db (ll_delete_docs_by_name (LowLevelConnection := conn_of db) (rq_reduce_view r) (rq_reduce_key r) (rq_reduce_access_policy r)).
Definition handle_list_executed_transactions h (r : ListExecutedReq) : serverm (list Executed) :=
  db ← hs_database h (rq_executed_database r);
  in_documents db (do_list_executed_transactions (ops db) (rq_starting_id r) (rq_result_limit r)).
Definition handle_last_transaction_id h (name : str) : serverm (option Z) :=
  db ← hs_database h name; in_documents db (do_last_transaction_id (ops db)).
Definition handle_execute_key_operation h (r : ExecuteKeyOperationReq) : serverm Output :=
  db ← hs_database h (rq_kv_database r); in_keys db (do_execute_key_operation (ops db) (rq_op r)).
Definition handle_compact_collection h (r : CompactCollectionReq) : serverm unit :=
  db ← hs_database h (rq_compact_database r); in_documents db (do_compact_collection_by_name (ops db) (rq_compact_name r)).
Definition handle_compact_key_value_store h (name : str) : serverm unit :=
  db ← hs_database h name; in_documents db (do_compact_key_value_store (ops db)).
Definition handle_compact h (name : str) : serverm unit :=
  db ← hs_database h name; in_documents db (do_compact (ops db)).

(** ** Subscribers of clients *)

(** A subscriber of a session that is not there is dropped. *)
Definition client_register_subscriber (client : nat) (subscriber : Subscriber) (session_id : option Z) s : Server St K R :=
  match sv_heap s !! client ≫= fun c => cc_sessions c !! session_id with
  | Some cs =>
      let cs' := MkClientSession (cls_session cs) (<[sub_id subscriber := subscriber]> (cls_subscribers cs)) in
      let s := on_client client (fun c => with_cc_sessions (<[session_id := cs']> (cc_sessions c)) c) s in
      with_forwarders (sv_forwarders s ++ [MkForwarder client (inl session_id) subscriber 0]) s
  | None => drop_subscribers [subscriber] s
  end.
Definition handle_create_subscriber h (name : str) : serverm Z :=
  db ← hs_database h name;
  subscriber ← on_pubsub (create_subscriber db);
  st_modify (client_register_subscriber (hs_client h) subscriber (hs_session_id h));;
  mret (sub_id subscriber).

Definition invalid_subscriber : CoreError := CoreOther (lit "bonsaidb-server pubsub") (lit "invalid subscriber id").
Definition invalid_session : CoreError := CoreOther (lit "bonsaidb-server auth") (lit "invalid session id").
(** The subscriber of a session of a client. *)
Definition find_subscriber (client : nat) (subscriber_id : Z) (session_id : option Z) s : res CoreError Subscriber :=
  c ← unwrap (sv_heap s !! client);
  match cc_sessions c !! session_id with
  | Some cs => ok_or invalid_subscriber (cls_subscribers cs !! subscriber_id)
  | None => Err invalid_session
  end.
Definition subscribe_by_id (client : nat) (subscriber_id : Z) (topic : bytes) (check_session_id : option Z) : serverm unit :=
  s ← st_get;
  subscriber ← st_lift (find_subscriber client subscriber_id check_session_id s);
  on_pubsub (subscribe_to_bytes subscriber topic).
Definition unsubscribe_by_id (client : nat) (subscriber_id : Z) (topic : bytes) (check_session_id : option Z) : serverm unit :=
  s ← st_get;
  subscriber ← st_lift (find_subscriber client subscriber_id check_session_id s);
  on_pubsub (unsubscribe_from_bytes subscriber topic).
Definition unregister_subscriber_by_id (client : nat) (subscriber_id : Z) (check_session_id : option Z) : serverm unit :=
  s ← st_get;
  subscriber ← st_lift (find_subscriber client subscriber_id check_session_id s);
  st_modify (on_client client (fun c => with_cc_sessions
    (alter (fun cs => MkClientSession (cls_session cs) (delete subscriber_id (cls_subscribers cs))) check_session_id (cc_sessions c)) c));;
  st_modify (drop_subscribers [subscriber]).

Definition handle_subscribe_to h (r : SubscribeToReq) : serverm unit :=
  subscribe_by_id (hs_client h) (rq_subscriber_id r) (rq_sub_topic r) (hs_session_id h).
Definition handle_unsubscribe_from h (r : SubscribeToReq) : serverm unit :=
  unsubscribe_by_id (hs_client h) (rq_subscriber_id r) (rq_sub_topic r) (hs_session_id h).
Definition handle_unregister_subscriber h (r : UnregisterSubscriberReq) : serverm unit :=
  unregister_subscriber_by_id (hs_client h) (rq_unreg_subscriber_id r) (hs_session_id h).
Definition handle_publish h (r : PublishReq) : serverm unit :=
  db ← hs_database h (rq_publish_database r); on_pubsub (publish_bytes db (rq_publish_topic r) (rq_publish_payload r)).
Definition handle_publish_to_all h (r : PublishToAllReq) : serverm unit :=
  db ← hs_database h (rq_all_database r); on_pubsub (publish_bytes_to_all db (rq_all_topics r) (rq_all_payload r)).

(** ** Dispatching *)

(** [ServerDispatcher]. *)
Definition handle (env : Ambient) (a : api) : HandlerSession -> request a -> serverm (response a) :=
  match a with
  | ApiCreateDatabase => handle_create_database
  | ApiDeleteDatabase => handle_delete_database
  | ApiListDatabases => handle_list_databases
  | ApiListAvailableSchemas => handle_list_available_schemas
  | ApiCreateUser => handle_create_user
  | ApiDeleteUser => handle_delete_user
  | ApiSetUserPassword => handle_set_user_password env
  | ApiAuthenticate => handle_authenticate env
  | ApiAssumeIdentity => handle_assume_identity
  | ApiLogOutSession => handle_log_out_session
  | ApiAlterUserPermissionGroupMembership => handle_alter_user_permission_group_membership
  | ApiAlterUserRoleMembership => handle_alter_user_role_membership
  | ApiGet => handle_get
  | ApiGetMultiple => handle_get_multiple
  | ApiList => handle_list
  | ApiListHeaders => handle_list_headers
  | ApiCount => handle_count
  | ApiQuery => handle_query
  | ApiQueryWithDocs => handle_query_with_docs
  | ApiReduce => handle_reduce
  | ApiReduceGrouped => handle_reduce_grouped
  | ApiDeleteDocs => handle_delete_docs
  | ApiApplyTransaction => handle_apply_transaction
  | ApiListExecutedTransactions => handle_list_executed_transactions
  | ApiLastTransactionId => handle_last_transaction_id
  | ApiCreateSubscriber => handle_create_subscriber
  | ApiPublish => handle_publish
  | ApiPublishToAll => handle_publish_to_all
  | ApiSubscribeTo => handle_subscribe_to
  | ApiUnsubscribeFrom => handle_unsubscribe_from
  | ApiUnregisterSubscriber => handle_unregister_subscriber
  | ApiExecuteKeyOperation => handle_execute_key_operation
  | ApiCompactCollection => handle_compact_collection
  | ApiCompactKeyValueStore => handle_compact_key_value_store
  | ApiCompact => handle_compact
  end.

(** [HandlerError]; the handlers above return errors of the server only. *)
Inductive HandlerError := HandlerApi (e : CoreError) | HandlerServer (e : CoreError).
Definition AnyHandler := Ambient -> HandlerSession -> bytes -> serverm bytes.

(** [AnyWrapper::handle]. *)
Definition any_wrapper (a : api) (handler : Ambient -> HandlerSession -> request a -> stm (Server St K R) HandlerError (response a))
    : AnyHandler := fun env h bs =>
  r ← st_lift (ok_or pot_error (request_from_slice a bs));
  result ← (fun s => match handler env h r s with
                     | (Ok response, s) => (Ok (inl response), s)
                     | (Err (HandlerApi e), s) => (Ok (inr e), s)
                     | (Err (HandlerServer e), s) => (Err e, s)
                     | (Panic, s) => (Panic, s)
                     end);
  st_lift (ok_or pot_error (result_to_vec a result)).
Definition server_dispatcher (a : api) (env : Ambient) h (r : request a) : stm (Server St K R) HandlerError (response a) := fun s =>
  let '(result, s) := handle env a h r s in (map_err HandlerServer result, s).

(** [register_custom_api]. *)
Definition register_custom_api (name : ApiName) (handler : AnyHandler) (apis : gmap ApiName AnyHandler) : gmap ApiName AnyHandler :=
  <[name := handler]> apis.
Definition register_api_handlers (apis : gmap ApiName AnyHandler) : gmap ApiName AnyHandler :=
  foldl (fun apis a => register_custom_api (api_name a) (any_wrapper a (server_dispatcher a)) apis) apis all_apis.

Context (custom_apis : gmap ApiName AnyHandler) (default_session : Session).

Definition dispatch_api_request (env : Ambient) h (name : ApiName) (request : bytes) : serverm bytes :=
  match custom_apis !! name with
  | Some dispatcher => dispatcher env h request
  | None => st_lift (Err (CoreApiNotFound name))
  end.

(** ** Workers *)

(** The body of the loop of a worker of [open]: the result sent, and a panic
    that ends the worker.  The storage of the client is dropped at the end. *)
Definition act_as (env : Ambient) (client : nat) (r : Payload) (storage : Storage) : serverm bytes := fun s =>
  let '(result, s) :=
    (bs ← st_lift (match py_value r with inl bs => Ok bs | inr _ => Panic end);
     dispatch_api_request env (MkHandlerSession client storage) (py_name r) bs) s in
  (result, with_data (drop_storage storage (sv_data s)) (sv_relay s) s).
Definition worker_handle (env : Ambient) (client : nat) (session : Session) (r : Payload) : serverm bytes :=
  storage ← on_storage (assume_session unauthenticated session); act_as env client r storage.

(** The session [handle_request_through_worker] looks up. *)
Definition request_session (client : nat) (r : Payload) s : Session :=
  default default_session (sv_heap s !! client ≫= fun c => client_session c (py_session_id r)).
(** The response of [handle_client_requests] to a request. *)
Definition response_payload (r : Payload) (result : bytes + CoreError) : Payload :=
  MkPayload (py_session_id r) (py_id r) (py_name r) result.

(** ** Clients that come and go *)

(** The id of a new client: [CONNECTED_CLIENT_ID_COUNTER.fetch_add] until it is
    vacant. *)
Fixpoint vacant_client_id (fuel : nat) (clients : gmap Z nat) (counter : Z) : option (Z * Z) :=
  match fuel with
  | O => None
  | S fuel =>
      let next := wrapping_add u32 counter 1 in
      if decide (clients !! counter = None) then Some (counter, next) else vacant_client_id fuel clients next
  end.

(** [disconnect_client], when the [OwnedClient] is dropped. *)
Definition disconnect_client (id : Z) s : Server St K R :=
  match sv_clients s !! id with
  | Some client =>
      let s := on_client client set_disconnected (with_clients (delete id (sv_clients s)) s) in
      let sessions := match sv_heap s !! client with Some c => all_sessions c | None => [] end in
      with_events (sv_events s ++ ((fun session => ClientSessionEnded session client true) <$> sessions) ++ [ClientDisconnected client]) s
  | None => s
  end.

Inductive ConnectionHandling := Accept | Reject.
(** [initialize_client]; the answer of the backend's [client_connected] is an
    argument.  A client that is rejected is dropped, which disconnects it. *)
Definition initialize_client (transport : Transport) (address : str) (handling : res CoreError ConnectionHandling)
    : serverm (option nat) := fun s =>
  if is_ok (check_permission (Some default_session) bonsaidb_resource_name (ServerAct Connect)) then
    match vacant_client_id (S (size (sv_clients s))) (sv_clients s) (sv_client_id_counter s) with
    | Some (id, counter) =>
        let client := length (sv_heap s) in
        let s := with_events (sv_events s ++ [ClientConnected client])
                   (with_counter counter (with_clients (<[id := client]> (sv_clients s))
                      (with_heap (sv_heap s ++ [owned_client_new id address transport default_session]) s))) in
        match handling with
        | Ok Accept => (Ok (Some client), s)
        | _ => (Ok None, disconnect_client id s)
        end
    | None => (Panic, s)
    end
  else (Ok None, s).

(** [broadcast]: the clients are visited in no particular order; each has its
    own channel. *)
Definition broadcast (name : ApiName) (encoded : option bytes) s : Server St K R :=
  match encoded with
  | Some encoded => with_heap (imap (fun i c => if decide (i ∈ (map_to_list (sv_clients s)).*2) then (client_send None name encoded c).2 else c) (sv_heap s)) s
  | None => s
  end.

(** [forward_notifications_for]: the task looks up its session, or sends the
    next message of the subscriber; a message that cannot be sent ends it. *)
Definition forward_next (f : Forwarder) s : option (Server St K R * option Forwarder) :=
  match fw_session f with
  | inl session_id =>
      let session := sv_heap s !! fw_client f ≫= fun c => cls_session <$> cc_sessions c !! session_id in
      Some (s, Some (MkForwarder (fw_client f) (inr session) (fw_subscriber f) (fw_next f)))
  | inr session =>
      message ← messages (fw_subscriber f) (sv_relay s) !! fw_next f;
      match message_to_vec (inl (MkMessageReceived (sub_id (fw_subscriber f)) message.1 message.2)), sv_heap s !! fw_client f with
      | Some encoded, Some c =>
          let '(sent, c) := client_send session message_received_name encoded c in
          Some (on_client (fw_client f) (fun _ => c) s,
                if sent : bool then Some (MkForwarder (fw_client f) (inr session) (fw_subscriber f) (S (fw_next f))) else None)
      | _, _ => Some (s, None)
      end
  end.
End Server.
