(* ===== verification/ServerTheorems.v ===== *)
(** * What a server does to the sessions of its clients

    The handlers leave the sessions of other clients alone, and change those of
    the client they act for only by logging in, with the session of the
    response, and by logging out.  A client holds the unauthenticated session of
    the server and sessions under their own ids.  Registered handlers are found
    under the names of their requests, and there is an id for every client. *)

From Stdlib Require Import ZArith Lia String.
From stdpp Require Import base list option numbers gmap sets.
From S2P Require Import Prelude Bytes Utf8 Timestamp Numeric Key Range Time Nebari Document Names KeyValue Changes Schema Permissions View Query Transaction Tasks Vault Connection Admin Storage PubSub Networking Server.

Local Open Scope Z_scope.

Section ServerTheorems.
Context `{Nebari} `{Actionable} `{!AdminFormats} `{Blake3} `{PasswordHasher} `{!StorageIO} `{Profile} `{!ApiFormats}.
Context {St K R : Type} `{!LowLevelConnection St} `{!Relay R}.
Context (ops : OpenDatabase -> DatabaseOps St K) (new_contents : St * K).
Abbreviation serverm := (stm (Server St K R) CoreError).
Abbreviation storagem := (stm (Data St) StorageError).
Implicit Types (s : Server St K R) (h : HandlerSession).

(** ** Handlers that leave the sessions alone *)

(** The sessions every client holds. *)
Definition held (c : ConnectedClient) : gmap (option Z) Session := cls_session <$> cc_sessions c.
Definition clients_of s : list (gmap (option Z) Session) := held <$> sv_heap s.
Definition same_clients {E A} (m : stm (Server St K R) E A) : Prop := forall s r s', m s = (r, s') -> clients_of s' = clients_of s.

Lemma same_bind {E A B} (m : stm (Server St K R) E A) (f : A -> stm (Server St K R) E B) :
  same_clients m -> (forall a, same_clients (f a)) -> same_clients (m ≫= f).
Proof.
  intros Hm Hf s r s' Hrun. unfold mbind, stm_bind in Hrun. destruct (m s) as [r1 s1] eqn:E1. apply Hm in E1.
  destruct r1; [by rewrite (Hf _ _ _ _ Hrun)|by injection Hrun as <- <-..].
Qed.
Lemma same_ret {E A} (a : A) : same_clients (E := E) (mret a).
Proof. by intros s r s' [= <- <-]. Qed.
Lemma same_lift {E A} (m : res E A) : same_clients (st_lift m).
Proof. by intros s r s' [= <- <-]. Qed.
Lemma same_get {E} : same_clients (E := E) st_get.
Proof. by intros s r s' [= <- <-]. Qed.
Lemma same_modify {E} f : (forall s, clients_of (f s) = clients_of s) -> same_clients (E := E) (st_modify f).
Proof. by intros Hf s r s' [= <- <-]. Qed.
Lemma same_on_storage {A} (m : storagem A) : same_clients (on_storage (K := K) (R := R) new_contents m).
Proof. intros s r s' Hrun. unfold on_storage in Hrun. destruct (m (sv_data s)). by injection Hrun as <- <-. Qed.
Lemma same_on_pubsub {A} (m : stm (Data St * R) StorageError A) : same_clients (on_pubsub (K := K) new_contents m).
Proof. intros s r s' Hrun. unfold on_pubsub in Hrun. destruct (m (sv_data s, sv_relay s)) as [x [d relay]]. by injection Hrun as <- <-. Qed.
Lemma same_in_documents {A} db (m : stm St CoreError A) : same_clients (in_documents (R := R) (K := K) db m).
Proof. intros s r s' Hrun. unfold in_documents in Hrun. destruct (m _). by injection Hrun as <- <-. Qed.
Lemma same_in_keys {A} db (m : stm K CoreError A) : same_clients (in_keys (R := R) (St := St) db m).
Proof. intros s r s' Hrun. unfold in_keys in Hrun. destruct (m _). by injection Hrun as <- <-. Qed.

Lemma clients_on_client client f s :
  (forall c, held (f c) = held c) -> clients_of (on_client client f s) = clients_of s.
Proof.
  intros Hf. unfold clients_of, on_client. cbn [sv_heap with_heap]. apply list_eq. intros i. rewrite !list_lookup_fmap.
  destruct (decide (client = i)) as [->|Hne]; [rewrite list_lookup_alter_eq|by rewrite list_lookup_alter_ne].
  destruct (sv_heap s !! i); [|done]. cbn. by rewrite Hf.
Qed.
Lemma clients_of_alter client f g s :
  (forall c, held (f c) = g (held c)) -> clients_of (on_client client f s) = alter g client (clients_of s).
Proof.
  intros Hf. unfold clients_of, on_client. cbn [sv_heap with_heap]. apply list_eq. intros i. rewrite !list_lookup_fmap.
  destruct (decide (client = i)) as [->|Hne].
  - rewrite !list_lookup_alter_eq, list_lookup_fmap. destruct (sv_heap s !! i); [|done]. cbn. by rewrite Hf.
  - rewrite !list_lookup_alter_ne, list_lookup_fmap by done. done.
Qed.

Lemma drop_subscribers_clients subs s : sv_heap (drop_subscribers new_contents subs s) = sv_heap s.
Proof. unfold drop_subscribers. induction subs as [|sub subs IH]; [done|]. exact IH. Qed.
Lemma register_subscriber_clients client sub i s :
  clients_of (client_register_subscriber new_contents client sub i s) = clients_of s.
Proof.
  unfold client_register_subscriber. destruct (sv_heap s !! client) as [c|] eqn:Hc; cbn [mbind option_bind]; [|done].
  destruct (cc_sessions c !! i) as [cs|] eqn:Hcs; [|done].
  unfold clients_of. cbn [with_forwarders sv_heap on_client with_heap]. apply list_eq. intros j. rewrite !list_lookup_fmap.
  destruct (decide (client = j)) as [->|Hne]; [rewrite list_lookup_alter_eq, Hc|by rewrite list_lookup_alter_ne]. cbn. f_equal.
  unfold held. cbn [cc_sessions with_cc_sessions]. rewrite fmap_insert. cbn. apply insert_id. by rewrite lookup_fmap, Hcs.
Qed.
Lemma drop_one_clients sub s : clients_of (drop_subscribers new_contents [sub] s) = clients_of s.
Proof. unfold clients_of. by rewrite drop_subscribers_clients. Qed.
Lemma without_subscriber_clients client id i s :
  clients_of (on_client client (fun c => with_cc_sessions
    (alter (fun cs => MkClientSession (cls_session cs) (delete id (cls_subscribers cs))) i (cc_sessions c)) c) s) = clients_of s.
Proof.
  apply clients_on_client. intros c. unfold held. cbn [cc_sessions with_cc_sessions]. apply map_eq. intros k. rewrite !lookup_fmap.
  destruct (decide (i = k)) as [->|Hne]; [|by rewrite lookup_alter_ne]. rewrite lookup_alter_eq. by destruct (cc_sessions c !! k).
Qed.

Create HintDb clients.
#[local] Hint Resolve same_ret same_lift same_get same_on_storage same_on_pubsub same_in_documents same_in_keys
  register_subscriber_clients drop_one_clients without_subscriber_clients : clients.
(** Walks through a handler. *)
Ltac same_clients :=
  repeat first
    [ solve [auto with clients]
    | apply same_bind; [|intros ?]
    | apply same_modify; intros ?
    | case_match ].

(** ** What handlers do to sessions *)

(** The session a handler returns to its client, and the one it ends. *)
Definition granted (a : api) : res CoreError (response a) -> option Session :=
  match a with
  | ApiAuthenticate | ApiAssumeIdentity => fun r => res_ok r
  | _ => fun _ => None
  end.
Definition ended (a : api) : request a -> option Z :=
  match a with
  | ApiLogOutSession => fun session => Some session
  | _ => fun _ => None
  end.
Definition after_handler (a : api) (client : nat) (r : request a) (result : res CoreError (response a))
    (l : list (gmap (option Z) Session)) : list (gmap (option Z) Session) :=
  match granted a result, ended a r with
  | Some session, _ => alter <[session_id session := session]> client l
  | None, Some id => alter (delete (Some id)) client l
  | None, None => l
  end.

Lemma enter_session_clients h st s r s' :
  enter_session new_contents h st s = (r, s') ->
  clients_of s' = match res_ok r with
                  | Some x => alter <[session_id x := x]> (hs_client h) (clients_of s)
                  | None => clients_of s
                  end.
Proof.
  unfold enter_session. destruct (effective_session st) as [x|]; [|by intros [= <- <-]]. intros [= <- <-]. cbn [res_ok].
  change (clients_of (on_client (hs_client h) (logged_in_as x) s) = alter <[session_id x := x]> (hs_client h) (clients_of s)).
  apply clients_of_alter. intros c. unfold held, logged_in_as. cbn. by rewrite fmap_insert.
Qed.
Lemma authenticated_clients h (m : storagem Storage) s r s' :
  (st ← on_storage new_contents m; enter_session new_contents h st) s = (r, s') ->
  clients_of s' = match res_ok r with
                  | Some x => alter <[session_id x := x]> (hs_client h) (clients_of s)
                  | None => clients_of s
                  end.
Proof.
  intros Hrun. unfold mbind, stm_bind in Hrun. destruct (on_storage new_contents m s) as [r1 s1] eqn:E1. apply same_on_storage in E1.
  destruct r1 as [st|e|]; [|by injection Hrun as <- <-..]. rewrite <- E1. by apply enter_session_clients in Hrun.
Qed.
Lemma log_out_clients h id s r s' :
  handle_log_out_session new_contents h id s = (r, s') -> clients_of s' = alter (delete (Some id)) (hs_client h) (clients_of s).
Proof.
  unfold handle_log_out_session. destruct (sv_heap s !! hs_client h) as [c|] eqn:Hc; cycle 1.
  { intros [= <- <-]. symmetry. apply list_eq. intros j. destruct (decide (hs_client h = j)) as [<-|]; [|by rewrite list_lookup_alter_ne].
    rewrite list_lookup_alter_eq. unfold clients_of. by rewrite list_lookup_fmap, Hc. }
  cbn [log_out]. intros [= <- <-].
  assert (clients_of (on_client (hs_client h) (fun _ => with_cc_sessions (delete (Some id) (cc_sessions c)) c) s) =
          alter (delete (Some id)) (hs_client h) (clients_of s)) as Hout.
  { unfold clients_of, on_client. cbn [sv_heap with_heap]. apply list_eq. intros j. rewrite list_lookup_fmap.
    destruct (decide (hs_client h = j)) as [<-|Hne]; [|by rewrite !list_lookup_alter_ne, list_lookup_fmap].
    rewrite !list_lookup_alter_eq, list_lookup_fmap, Hc. cbn. f_equal. unfold held. cbn. by rewrite fmap_delete. }
  destruct (cc_sessions c !! Some id) as [cs|]; [|done]. unfold clients_of. cbn [with_events sv_heap]. by rewrite drop_subscribers_clients.
Qed.

(** A handler leaves the sessions of all clients alone, but for the client it
    acts for: it holds the session that was returned to it, or no longer the one
    it has logged out of. *)
Lemma handler_sessions env a h (r : request a) s result s' :
  handle ops new_contents env a h r s = (result, s') -> clients_of s' = after_handler a (hs_client h) r result (clients_of s).
Proof.
  intros Hrun. unfold after_handler. destruct a; cbn [handle granted ended request response] in *;
    try (by apply authenticated_clients in Hrun; destruct (res_ok result)); try by apply log_out_clients in Hrun.
  all: revert s result s' Hrun; match goal with |- forall s r' s', ?m s = (r', s') -> _ => change (same_clients m) end.
  all: unfold handle_create_database, handle_delete_database, handle_list_databases, handle_list_available_schemas, handle_create_user,
    handle_delete_user, handle_set_user_password, handle_alter_user_permission_group_membership, handle_alter_user_role_membership,
    handle_get, handle_get_multiple, handle_list, handle_list_headers, handle_count, handle_query, handle_query_with_docs,
    handle_reduce, handle_reduce_grouped, handle_delete_docs, handle_apply_transaction, handle_list_executed_transactions,
    handle_last_transaction_id, handle_create_subscriber, handle_publish, handle_publish_to_all, handle_subscribe_to,
    handle_unsubscribe_from, handle_unregister_subscriber, handle_execute_key_operation, handle_compact_collection,
    handle_compact_key_value_store, handle_compact, hs_database, subscribe_by_id, unsubscribe_by_id, unregister_subscriber_by_id.
  all: same_clients.
Qed.

(** ** Registered handlers *)

Abbreviation AnyH := (AnyHandler (St := St) (K := K) (R := R)).
Definition builtin (a : api) : AnyH := any_wrapper a (server_dispatcher ops new_contents a).

Lemma registered_lookup l (m : gmap ApiName AnyH) name :
  foldl (fun apis a => register_custom_api (api_name a) (builtin a) apis) m l !! name =
    match filter (fun a => api_name a = name) (reverse l) with a :: _ => Some (builtin a) | [] => m !! name end.
Proof.
  revert m. induction l as [|b l IH]; intros m; [done|]. cbn [foldl]. rewrite IH, reverse_cons, filter_app, filter_cons.
  destruct (filter (fun a => api_name a = name) (reverse l)) as [|c l'] eqn:E; [|done]. cbn [app]. unfold register_custom_api.
  case_decide as Hb; [rewrite Hb; by rewrite lookup_insert_eq|by rewrite lookup_insert_ne].
Qed.
(** Requests reach their handlers, whatever the backend has registered. *)
Lemma dispatch_registered (apis : gmap ApiName AnyH) a :
  register_api_handlers ops new_contents apis !! api_name a = Some (builtin a).
Proof.
  unfold register_api_handlers. change (foldl _ apis all_apis) with (foldl (fun apis a => register_custom_api (api_name a) (builtin a) apis) apis all_apis).
  rewrite registered_lookup. destruct (filter (fun b => api_name b = api_name a) (reverse all_apis)) as [|b l] eqn:E.
  - assert (a ∈ filter (fun b => api_name b = api_name a) (reverse all_apis)) as Hin.
    { apply list_elem_of_filter. split; [done|]. rewrite elem_of_reverse. apply elem_of_all_apis. }
    rewrite E in Hin. by apply not_elem_of_nil in Hin.
  - assert (b ∈ filter (fun b => api_name b = api_name a) (reverse all_apis)) as [Hb _]%list_elem_of_filter by (rewrite E; left).
    by apply api_name_inj in Hb as ->.
Qed.
Lemma dispatch_builtin (apis : gmap ApiName AnyH) env h a bs :
  dispatch_api_request (register_api_handlers ops new_contents apis) env h (api_name a) bs = builtin a env h bs.
Proof.
  unfold dispatch_api_request. replace (register_api_handlers ops new_contents apis !! api_name a) with (Some (builtin a)); [done|].
  symmetry. apply dispatch_registered.
Qed.
Lemma registered_only name dispatcher :
  register_api_handlers ops new_contents ∅ !! name = Some dispatcher -> exists a, name = api_name a /\ dispatcher = builtin a.
Proof.
  unfold register_api_handlers. change (foldl _ ∅ all_apis) with (foldl (fun apis a => register_custom_api (api_name a) (builtin a) apis) ∅ all_apis).
  rewrite registered_lookup. destruct (filter (fun b => api_name b = name) (reverse all_apis)) as [|b l] eqn:E; [by rewrite lookup_empty|].
  intros [= <-]. exists b. split; [|done].
  assert (b ∈ filter (fun b => api_name b = name) (reverse all_apis)) as [Hb _]%list_elem_of_filter by (rewrite E; left). done.
Qed.

(** The result of a request is that of its handler. *)
Definition encoded_result (a : api) (result : res CoreError (response a)) : res CoreError bytes :=
  response ← result; ok_or pot_error (result_to_vec a (inl response)).
Lemma builtin_run env a h bs r s :
  request_from_slice a bs = Some r ->
  builtin a env h bs s = (encoded_result a (handle ops new_contents env a h r s).1, (handle ops new_contents env a h r s).2).
Proof.
  intros Hr. unfold builtin, any_wrapper, mbind, stm_bind, st_lift. rewrite Hr. cbn [ok_or]. unfold server_dispatcher.
  destruct (handle ops new_contents env a h r s) as [[x|e|] s1]; done.
Qed.
Lemma builtin_undecodable env a h bs s : request_from_slice a bs = None -> builtin a env h bs s = (Err pot_error, s).
Proof. intros Hr. unfold builtin, any_wrapper, mbind, stm_bind, st_lift. by rewrite Hr. Qed.

(** ** Sessions are granted *)

(** The result of a request of a client returns a session to it. *)
Definition granted_by (p : Payload) (result : res CoreError bytes) (x : Session) : Prop :=
  exists a (r : response a), py_name p = api_name a /\ granted a (Ok r) = Some x /\ result = ok_or pot_error (result_to_vec a (inl r)).

Definition holds (l : list (gmap (option Z) Session)) (client : nat) (i : option Z) (x : Session) : Prop :=
  exists m, l !! client = Some m /\ m !! i = Some x.
Lemma granted_Ok a result x : granted a result = Some x -> exists r, result = Ok r /\ granted a (Ok r) = Some x.
Proof. destruct a; cbn; try done; (destruct result; [|done..]; eauto). Qed.
Lemma after_handler_holds a client (r : request a) result l j i x :
  holds (after_handler a client r result l) j i x ->
  holds l j i x \/ (j = client /\ granted a result = Some x /\ i = session_id x).
Proof.
  unfold after_handler. intros (m & Hj & Hm). destruct (granted a result) as [x0|] eqn:Hg; [|destruct (ended a r) as [i0|]; [|left; by exists m]].
  - destruct (decide (client = j)) as [<-|]; [|rewrite list_lookup_alter_ne in Hj by done; left; by exists m].
    rewrite list_lookup_alter_eq in Hj. apply fmap_Some in Hj as (m0 & Hm0 & ->).
    apply lookup_insert_Some in Hm as [[<- <-]|[_ Hm]]; [by right|left; by exists m0].
  - left. destruct (decide (client = j)) as [<-|]; [|rewrite list_lookup_alter_ne in Hj by done; by exists m].
    rewrite list_lookup_alter_eq in Hj. apply fmap_Some in Hj as (m0 & Hm0 & ->). apply lookup_delete_Some in Hm as [_ Hm]. by exists m0.
Qed.

Abbreviation worker := (worker_handle new_contents (register_api_handlers ops new_contents ∅)).
(** What handling a request does to the sessions of clients is what its handler
    does. *)
Lemma worker_clients env client session p s result s' :
  worker env client session p s = (result, s') ->
  clients_of s' = clients_of s \/
  exists a r hr, py_name p = api_name a /\ result = encoded_result a hr /\ clients_of s' = after_handler a client r hr (clients_of s).
Proof.
  intros Hrun. unfold worker_handle, mbind, stm_bind in Hrun. destruct (on_storage new_contents (assume_session unauthenticated session) s) as [r1 s1] eqn:E1.
  apply same_on_storage in E1. rewrite <- E1. destruct r1 as [st|e|]; [|injection Hrun as <- <-; by left..].
  unfold act_as in Hrun. destruct (py_value p) as [bs|e]; cycle 1. { injection Hrun as <- <-. by left. }
  rewrite (stm_bind_Ok (st_lift (Ok bs)) _ s1 bs s1) in Hrun by done. unfold dispatch_api_request in Hrun.
  destruct (register_api_handlers ops new_contents ∅ !! py_name p) as [dispatcher|] eqn:Hd; cycle 1. { injection Hrun as <- <-. by left. }
  apply registered_only in Hd as (a & Hname & ->). destruct (request_from_slice a bs) as [r|] eqn:Hr; cycle 1.
  { rewrite builtin_undecodable in Hrun by done. injection Hrun as <- <-. by left. }
  rewrite (builtin_run _ _ _ _ _ _ Hr) in Hrun. destruct (handle ops new_contents env a (MkHandlerSession client st) r s1) as [hr s2] eqn:Hh.
  injection Hrun as <- <-. apply handler_sessions in Hh. right. exists a, r, hr. done.
Qed.
(** What a client holds after a request was handled it held before, or it is the
    session returned to it. *)
Lemma worker_sessions env client session p s result s' j i x :
  worker env client session p s = (result, s') -> holds (clients_of s') j i x ->
  holds (clients_of s) j i x \/ (j = client /\ granted_by p result x /\ i = session_id x).
Proof.
  intros [Hs|(a & r & hr & Hname & -> & Hs)]%worker_clients; rewrite Hs; [by left|].
  intros [Hx|(-> & Hg & ->)]%after_handler_holds; [by left|]. right. split_and!; [done| |done].
  apply granted_Ok in Hg as (resp & -> & Hg). by exists a, resp.
Qed.
Lemma worker_heap env client session p s result s' :
  worker env client session p s = (result, s') -> length (sv_heap s') = length (sv_heap s).
Proof.
  intros Hrun. apply worker_clients in Hrun. rewrite <- !(length_fmap held). fold (clients_of s') (clients_of s).
  destruct Hrun as [->|(a & r & hr & _ & _ & ->)]; [done|]. unfold after_handler.
  destruct (granted a hr), (ended a r); rewrite ?length_alter; done.
Qed.

(** ** Clients that come and go *)

Context (default_session : Session).
Lemma request_session_cases client p s :
  request_session default_session client p s = default_session \/
  holds (clients_of s) client (py_session_id p) (request_session default_session client p s).
Proof.
  unfold request_session, client_session. destruct (sv_heap s !! client) as [c|] eqn:Hc; [|by left]. cbn [mbind option_bind].
  destruct (cc_sessions c !! py_session_id p) as [cs|] eqn:Hcs; [|by left]. right. exists (held c). unfold clients_of, held.
  by rewrite list_lookup_fmap, Hc, lookup_fmap, Hcs.
Qed.
Lemma disconnect_client_clients id s : clients_of (disconnect_client id s) = clients_of s.
Proof.
  unfold disconnect_client. destruct (sv_clients s !! id) as [n|]; [|done].
  change (clients_of (on_client n set_disconnected (with_clients (delete id (sv_clients s)) s)) = clients_of s). by rewrite clients_on_client.
Qed.
Lemma initialize_client_clients transport address handling s o s' :
  initialize_client default_session transport address handling s = (Ok o, s') ->
  (o = None /\ clients_of s' = clients_of s) \/
  ((o = None \/ o = Some (length (sv_heap s))) /\ clients_of s' = clients_of s ++ [{[None := default_session]}]).
Proof.
  unfold initialize_client. destruct (is_ok _); [|intros [= <- <-]; by left]. destruct (vacant_client_id _ _ _) as [[id n]|]; [|done].
  assert (forall s1 : Server St K R, sv_heap s1 = sv_heap s ++ [owned_client_new id address transport default_session] ->
    clients_of s1 = clients_of s ++ [{[None := default_session]}]) as Hnew.
  { intros s1 Hs1. unfold clients_of. by rewrite Hs1, fmap_app. }
  intros Hrun. right. destruct handling as [[]|e|]; injection Hrun as <- <-; (split; [auto|]); rewrite ?disconnect_client_clients; by apply Hnew.
Qed.
Lemma forward_next_clients f s s' f' : forward_next f s = Some (s', f') -> clients_of s' = clients_of s.
Proof.
  unfold forward_next. destruct (fw_session f) as [i|session]; [by intros [= <- <-]|].
  destruct (messages (fw_subscriber f) (sv_relay s) !! fw_next f) as [m|]; [|done]. cbn [mbind option_bind].
  destruct (message_to_vec _) as [b|]; [|by intros [= <- <-]]. destruct (sv_heap s !! fw_client f) as [c|] eqn:Hc; [|by intros [= <- <-]].
  destruct (client_send session message_received_name b c) as [sent c'] eqn:Hsend. intros [= <- _].
  assert (held c' = held c) as Hh by (unfold client_send in Hsend; destruct (cc_receiving c); injection Hsend as <- <-; done).
  unfold clients_of, on_client. cbn [sv_heap with_heap]. apply list_eq. intros k. rewrite !list_lookup_fmap.
  destruct (decide (fw_client f = k)) as [<-|Hne]; [|by rewrite list_lookup_alter_ne]. rewrite list_lookup_alter_eq, Hc. cbn. by rewrite Hh.
Qed.
Lemma clients_of_heap s s' : clients_of s' = clients_of s -> length (sv_heap s') = length (sv_heap s).
Proof. intros Hs. apply (f_equal length) in Hs. unfold clients_of in Hs. by rewrite !length_fmap in Hs. Qed.

(** ** Ids of clients *)

Lemma wrapping_succ_u32 x : 0 <= x < 2 ^ 32 -> wrapping_add u32 x 1 = (x + 1) `mod` 2 ^ 32.
Proof. intros Hx. unfold wrapping_add, wrap. simpl. done. Qed.
Lemma vacant_client_id_tried fuel (m : gmap Z nat) counter :
  0 <= counter < 2 ^ 32 ->
  match vacant_client_id fuel m counter with
  | Some (id, next) => m !! id = None /\ 0 <= id < 2 ^ 32 /\ next = wrapping_add u32 id 1
  | None => forall i, 0 <= i < Z.of_nat fuel -> is_Some (m !! ((counter + i) `mod` 2 ^ 32))
  end.
Proof.
  revert counter. induction fuel as [|fuel IH]; intros counter Hc; cbn [vacant_client_id]; [intros i Hi; lia|].
  case_decide as Hv; [done|]. rewrite wrapping_succ_u32 by done. pose proof (Z.mod_pos_bound (counter + 1) (2 ^ 32) ltac:(lia)) as Hb. specialize (IH _ Hb).
  destruct (vacant_client_id fuel m _) as [[]|]; [done|]. intros i Hi. destruct (decide (i = 0)) as [->|].
  - rewrite Z.add_0_r, Z.mod_small by done. destruct (m !! counter); [by eexists|done].
  - specialize (IH (i - 1) ltac:(lia)). rewrite Zplus_mod_idemp_l in IH. by replace (counter + 1 + (i - 1)) with (counter + i) in IH by lia.
Qed.

(** Giving a client an id ends: while fewer than 2^32 are connected, one that no
    client has is found within one attempt more than there are clients. *)
Theorem client_id_found (m : gmap Z nat) counter :
  0 <= counter < 2 ^ 32 -> Z.of_nat (size m) < 2 ^ 32 ->
  exists id, vacant_client_id (S (size m)) m counter = Some (id, wrapping_add u32 id 1) /\ m !! id = None.
Proof.
  intros Hc Hsize. pose proof (vacant_client_id_tried (S (size m)) m counter Hc) as Ht.
  destruct (vacant_client_id (S (size m)) m counter) as [[id next]|]; [destruct Ht as (Ht & _ & ->); by exists id|].
  exfalso. set (tried := (fun i => (counter + Z.of_nat i) `mod` 2 ^ 32) <$> seq 0 (S (size m))).
  assert (NoDup tried) as Hnd.
  { apply NoDup_fmap_2_strong; [|apply NoDup_seq]. intros i j Hi%elem_of_seq Hj%elem_of_seq Heq.
    replace (counter + Z.of_nat i) with (counter - 1 + (Z.of_nat i + 1)) in Heq by lia.
    replace (counter + Z.of_nat j) with (counter - 1 + (Z.of_nat j + 1)) in Heq by lia. apply mod_inj_range in Heq; lia. }
  assert (list_to_set tried ⊆ dom m) as Hsub.
  { intros x Hx%elem_of_list_to_set. apply list_elem_of_fmap in Hx as (i & -> & Hi%elem_of_seq). apply elem_of_dom, Ht. lia. }
  apply subseteq_size in Hsub. rewrite size_list_to_set in Hsub by done. rewrite size_dom in Hsub. unfold tried in Hsub.
  rewrite length_fmap, length_seq in Hsub. lia.
Qed.
End ServerTheorems.
