(* ===== verification/ServerLoop.v ===== *)
(** * Requests of clients in a running server

    The tasks of [bonsaidb-server/src/server.rs] as a step relation: clients
    connect and send payloads, the loop of [handle_client_requests] hands them to
    the workers of [open] through one queue, the workers handle them, the results
    become payloads and the payloads are written to the streams.
    [server/shutdown.rs] is the state the tasks watch.

    A worker handles a request in one step; tasks interleave between steps.  A
    worker that panics is gone, with the request it was handling.

    Theorems: a request is handled with the rights of a session that was granted
    to the client that sent it, or with those of everyone; responses answer the
    requests of the client they are sent to, once each; a client has no more
    requests in process than the limit. *)

From Stdlib Require Import ZArith Lia String.
From stdpp Require Import base list option numbers gmap sets.
From S2P Require Import Prelude Bytes Utf8 Timestamp Numeric Key Range Time Nebari Document Names KeyValue Changes Schema Permissions View Query Transaction Tasks Vault Connection Admin Storage PubSub Networking Server ServerTheorems.

Local Open Scope Z_scope.

(** ** Shutdown *)

Inductive ShutdownState := Running | GracefulShutdown | Shutdown.
(** [Shutdown]: the state, whether new watchers are given out, and how many
    watch. *)
Record ShutdownHandle := MkShutdownHandle { sd_state : ShutdownState; sd_watchable : bool; sd_watchers : nat }.
Definition shutdown_new : ShutdownHandle := MkShutdownHandle Running true 0.
Definition watcher (h : ShutdownHandle) : option ShutdownHandle :=
  if sd_watchable h then Some (MkShutdownHandle (sd_state h) true (S (sd_watchers h))) else None.
Definition stop_watching (h : ShutdownHandle) : ShutdownHandle := MkShutdownHandle (sd_state h) false (sd_watchers h).
(** A value is sent if anyone receives it: without watchers it is not stored. *)
Definition send_state (st : ShutdownState) (h : ShutdownHandle) : bool * ShutdownHandle :=
  match sd_watchers h with
  | O => (false, h)
  | _ => (true, MkShutdownHandle st (sd_watchable h) (sd_watchers h))
  end.
Definition shutdown (h : ShutdownHandle) : ShutdownHandle := (send_state Shutdown (stop_watching h)).2.
(** [graceful_shutdown]: [closed] is whether the watchers were gone in time. *)
Definition graceful_shutdown (closed : bool) (h : ShutdownHandle) : ShutdownHandle :=
  let '(sent, h) := send_state GracefulShutdown (stop_watching h) in
  if sent && negb closed then shutdown h else h.
Definition should_shutdown (h : ShutdownHandle) : bool := match sd_state h with Shutdown => true | _ => false end.

(** ** State *)

Record Job `{Nebari} `{Actionable} := MkJob { jb_client : nat; jb_session : Session; jb_request : Payload }.
Arguments MkJob {_ _} _ _ _.
(** The connection of a client: the channel of requests, the requests counted
    by [requests_in_queue], whether the loop has counted one it waits for, and
    whether the loop and the task that writes run. *)
Record Conn `{Nebari} `{Actionable} := MkConn {
  cn_requests : list Payload;
  cn_in_queue : Z;
  cn_waiting : bool;
  cn_looping : bool;
  cn_writing : bool
}.
Arguments MkConn {_ _} _ _ _ _ _.
(** [lp_handled] records every request that was handled, with its result. *)
Record Loop `{Nebari} `{Actionable} (St K R : Type) := MkLoop {
  lp_server : Server St K R;
  lp_workers : nat;
  lp_jobs : list Job;
  lp_results : list (Job * (bytes + CoreError));
  lp_lost : list Job;
  lp_conns : gmap nat Conn;
  lp_outgoing : list (nat * Payload);
  lp_sent : list (nat * Payload);
  lp_shutdown : ShutdownState;
  lp_handled : list (Job * (bytes + CoreError))
}.
Arguments MkLoop {_ _ St K R} _ _ _ _ _ _ _ _ _ _.
Arguments lp_server {_ _ St K R} _.
Arguments lp_workers {_ _ St K R} _.
Arguments lp_jobs {_ _ St K R} _.
Arguments lp_results {_ _ St K R} _.
Arguments lp_lost {_ _ St K R} _.
Arguments lp_conns {_ _ St K R} _.
Arguments lp_outgoing {_ _ St K R} _.
Arguments lp_sent {_ _ St K R} _.
Arguments lp_shutdown {_ _ St K R} _.
Arguments lp_handled {_ _ St K R} _.

Section Loop.
Context `{Nebari} `{Actionable} `{!AdminFormats} `{Blake3} `{PasswordHasher} `{!StorageIO} `{Profile} `{!ApiFormats}.
Context {St K R : Type} `{!LowLevelConnection St} `{!Relay R}.
Context (ops : OpenDatabase -> DatabaseOps St K) (new_contents : St * K) (default_session : Session) (limit : Z).
Abbreviation Loop := (Loop St K R).
Abbreviation worker := (worker_handle new_contents (register_api_handlers (R := R) ops new_contents ∅)).
Abbreviation session_of := (request_session (St := St) (K := K) (R := R) default_session).
Implicit Types (l : Loop) (s : Server St K R) (j : nat) (c : Conn) (p : Payload).

Definition new_conn : Conn := MkConn [] 0 false true true.
Definition answer (r : Job * (bytes + CoreError)) : nat * Payload := (jb_client r.1, response_payload (jb_request r.1) r.2).
Definition released c : Conn := MkConn (cn_requests c) (cn_in_queue c - 1) (cn_waiting c) (cn_looping c) (cn_writing c).

Definition with_server s (conns : gmap nat Conn) l : Loop :=
  MkLoop s (lp_workers l) (lp_jobs l) (lp_results l) (lp_lost l) conns (lp_outgoing l) (lp_sent l) (lp_shutdown l) (lp_handled l).
Definition set_conn j c l : Loop := with_server (lp_server l) (<[j := c]> (lp_conns l)) l.

Inductive step : Loop -> Loop -> Prop :=
(** [initialize_client]. *)
| step_connect l transport address handling client s' :
    initialize_client default_session transport address handling (lp_server l) = (Ok (Some client), s') ->
    step l (with_server s' (<[client := new_conn]> (lp_conns l)) l)
| step_refuse l transport address handling s' :
    initialize_client default_session transport address handling (lp_server l) = (Ok None, s') ->
    step l (with_server s' (lp_conns l) l)
(** A payload is read from the stream, when the channel has room. *)
| step_receive l j c p :
    lp_conns l !! j = Some c -> cn_looping c = true -> Z.of_nat (length (cn_requests c)) < limit ->
    step l (set_conn j (MkConn (cn_requests c ++ [p]) (cn_in_queue c) (cn_waiting c) true (cn_writing c)) l)
(** [handle_client_requests] counts a request, if the limit is not reached. *)
| step_reserve l j c :
    lp_conns l !! j = Some c -> cn_looping c = true -> cn_waiting c = false -> cn_in_queue c <> limit ->
    step l (set_conn j (MkConn (cn_requests c) (cn_in_queue c + 1) true true (cn_writing c)) l)
(** It receives the request and hands it to the workers. *)
| step_take l j c p rest :
    lp_conns l !! j = Some c -> cn_looping c = true -> cn_waiting c = true -> cn_requests c = p :: rest -> lp_workers l <> O ->
    step l (MkLoop (lp_server l) (lp_workers l) (lp_jobs l ++ [MkJob j (session_of j p (lp_server l)) p]) (lp_results l) (lp_lost l)
              (<[j := MkConn rest (cn_in_queue c) false true (cn_writing c)]> (lp_conns l))
              (lp_outgoing l) (lp_sent l) (lp_shutdown l) (lp_handled l))
(** Without workers the queue is closed, and the loop panics. *)
| step_take_closed l j c p rest :
    lp_conns l !! j = Some c -> cn_looping c = true -> cn_waiting c = true -> cn_requests c = p :: rest -> lp_workers l = O ->
    step l (set_conn j (MkConn rest (cn_in_queue c) true false (cn_writing c)) l)
(** A worker handles a request. *)
| step_work l env job rest result s' :
    lp_jobs l = job :: rest -> lp_workers l <> O ->
    worker env (jb_client job) (jb_session job) (jb_request job) (lp_server l) = (to_res result, s') ->
    step l (MkLoop s' (lp_workers l) rest (lp_results l ++ [(job, result)]) (lp_lost l) (lp_conns l)
              (lp_outgoing l) (lp_sent l) (lp_shutdown l) (lp_handled l ++ [(job, result)]))
| step_panic l env job rest s' :
    lp_jobs l = job :: rest -> lp_workers l <> O ->
    worker env (jb_client job) (jb_session job) (jb_request job) (lp_server l) = (Panic, s') ->
    step l (MkLoop s' (pred (lp_workers l)) rest (lp_results l) (lp_lost l ++ [job]) (lp_conns l)
              (lp_outgoing l) (lp_sent l) (lp_shutdown l) (lp_handled l))
(** The callback of a request, in a task of its own. *)
| step_respond l before r after c :
    lp_results l = before ++ r :: after -> lp_conns l !! jb_client r.1 = Some c ->
    step l (MkLoop (lp_server l) (lp_workers l) (lp_jobs l) (before ++ after) (lp_lost l)
              (<[jb_client r.1 := released c]> (lp_conns l)) (lp_outgoing l ++ [answer r]) (lp_sent l) (lp_shutdown l) (lp_handled l))
(** A payload is written to the stream of its client. *)
| step_write l before x after c :
    lp_outgoing l = before ++ x :: after -> lp_conns l !! x.1 = Some c -> cn_writing c = true ->
    step l (MkLoop (lp_server l) (lp_workers l) (lp_jobs l) (lp_results l) (lp_lost l) (lp_conns l)
              (before ++ after) (lp_sent l ++ [x]) (lp_shutdown l) (lp_handled l))
(** The task of a subscriber starts, or forwards a message to its client. *)
| step_forward l before f after s' f' :
    sv_forwarders (lp_server l) = before ++ f :: after -> forward_next f (lp_server l) = Some (s', f') ->
    step l (with_server (with_forwarders (before ++ option_list f' ++ after) s') (lp_conns l) l)
(** The server is shut down; the tasks notice, in any order. *)
| step_shutdown l st :
    step l (MkLoop (lp_server l) (lp_workers l) (lp_jobs l) (lp_results l) (lp_lost l) (lp_conns l)
              (lp_outgoing l) (lp_sent l) st (lp_handled l))
| step_stop_looping l j c :
    lp_conns l !! j = Some c -> lp_shutdown l <> Running ->
    step l (set_conn j (MkConn (cn_requests c) (cn_in_queue c) (cn_waiting c) false (cn_writing c)) l)
(** The task that writes ends: on shutdown, or when the stream refuses a payload. *)
| step_stop_writing l j c :
    lp_conns l !! j = Some c ->
    step l (set_conn j (MkConn (cn_requests c) (cn_in_queue c) (cn_waiting c) (cn_looping c) false) l)
(** The stream ends, and with the loop the client; what was answered is still
    written. *)
| step_disconnect l j c id :
    lp_conns l !! j = Some c -> sv_clients (lp_server l) !! id = Some j ->
    step l (with_server (disconnect_client id (lp_server l))
              (<[j := MkConn (cn_requests c) (cn_in_queue c) (cn_waiting c) false (cn_writing c)]> (lp_conns l)) l).

(** A server that has been opened, without clients. *)
Definition initial (s : Server St K R) (workers : nat) : Loop := MkLoop s workers [] [] [] ∅ [] [] Running [].

Inductive reachable (l0 : Loop) : Loop -> Prop :=
| reachable_refl : reachable l0 l0
| reachable_step l l' : reachable l0 l -> step l l' -> reachable l0 l'.

(** ** Invariant *)

(** A session that was returned to a client. *)
Definition granted_to l j (x : Session) : Prop :=
  exists job result, (job, result) ∈ lp_handled l /\ jb_client job = j /\ granted_by (jb_request job) (to_res result) x.
Definition entitled l j (x : Session) : Prop := x = default_session \/ granted_to l j x.

Definition of_client j (jobs : list Job) : Z := Z.of_nat (length (filter (fun job => jb_client job = j) jobs)).
Definition in_process l j : Z := of_client j (lp_jobs l) + of_client j (lp_results l).*1 + of_client j (lp_lost l).

(** The result is one a worker gives for the request, for the client that sent
    it and with the session it was queued with. *)
Definition handled_by_worker (job : Job) (result : bytes + CoreError) : Prop :=
  exists env s s', worker env (jb_client job) (jb_session job) (jb_request job) s = (to_res result, s').
(** The answer to a request: to the client that sent it, with the session id,
    the id and the name of the request, and the result. *)
Definition expected_answer (r : Job * (bytes + CoreError)) : nat * Payload :=
  (jb_client r.1, MkPayload (py_session_id (jb_request r.1)) (py_id (jb_request r.1)) (py_name (jb_request r.1)) r.2).

Record loop_ok l : Prop := {
  lo_counted j c : lp_conns l !! j = Some c ->
    cn_in_queue c = Z.b2z (cn_waiting c) + in_process l j /\ cn_in_queue c <= limit;
  lo_connected j : lp_conns l !! j = None -> in_process l j = 0;
  lo_fresh j : is_Some (lp_conns l !! j) -> (j < length (sv_heap (lp_server l)))%nat;
  lo_jobs job : job ∈ lp_jobs l -> entitled l (jb_client job) (jb_session job);
  lo_held j i x : holds (clients_of (lp_server l)) j i x -> entitled l j x;
  lo_answers : answer <$> lp_handled l ≡ₚ lp_sent l ++ lp_outgoing l ++ (answer <$> lp_results l);
  lo_handled job result : (job, result) ∈ lp_handled l -> handled_by_worker job result
}.

Lemma of_client_app j (a b : list Job) : of_client j (a ++ b) = of_client j a + of_client j b.
Proof. unfold of_client. rewrite filter_app, length_app. lia. Qed.
Lemma of_client_cons j job (a : list Job) : of_client j (job :: a) = (if decide (jb_client job = j) then 1 else 0) + of_client j a.
Proof. unfold of_client. rewrite filter_cons. case_decide; cbn [length]; lia. Qed.
Lemma of_client_pos j (a : list Job) : 0 <= of_client j a.
Proof. unfold of_client. lia. Qed.
Lemma entitled_handled l l' j x : (forall y, y ∈ lp_handled l -> y ∈ lp_handled l') -> entitled l j x -> entitled l' j x.
Proof. intros Hh [->|(job & result & Hin & Hr)]; [by left|]. right. exists job, result. auto. Qed.
Lemma in_process_app l j :
  of_client j (lp_jobs l) + of_client j (lp_results l).*1 + of_client j (lp_lost l) = in_process l j.
Proof. done. Qed.

Lemma initial_ok s workers : sv_heap s = [] -> loop_ok (initial s workers).
Proof.
  intros Hs. split; cbn.
  - intros j c. by rewrite lookup_empty.
  - done.
  - intros j. rewrite lookup_empty. by intros [].
  - intros job Hjob. by apply not_elem_of_nil in Hjob.
  - intros j i x (m & Hm & _). unfold clients_of in Hm. by rewrite Hs in Hm.
  - done.
  - intros job result Hin. by apply not_elem_of_nil in Hin.
Qed.

(** Steps that only change the connection of a client. *)
Lemma set_conn_ok j c c' l :
  loop_ok l -> lp_conns l !! j = Some c -> cn_in_queue c' - Z.b2z (cn_waiting c') = cn_in_queue c - Z.b2z (cn_waiting c) ->
  cn_in_queue c' <= limit -> loop_ok (set_conn j c' l).
Proof.
  intros [Hcount Hconn Hfresh Hjobs Hheld Hans Hdone] Hc Hq Hl. split; cbn; [| | |done|done|done|done].
  - intros k d [[<- <-]|[_ Hd]]%lookup_insert_Some; [|by apply Hcount]. destruct (Hcount j c Hc). change (in_process (set_conn j c' l) j) with (in_process l j). lia.
  - intros k [Hk _]%lookup_insert_None. by apply Hconn.
  - intros k Hk. apply Hfresh. rewrite lookup_insert_is_Some in Hk. destruct Hk as [<-|[_ ?]]; [by eexists|done].
Qed.
(** Steps that change the server but no session. *)
Lemma with_server_ok s' l :
  loop_ok l -> clients_of s' = clients_of (lp_server l) -> loop_ok (with_server s' (lp_conns l) l).
Proof.
  intros [Hcount Hconn Hfresh Hjobs Hheld Hans Hdone] Hs. split; cbn; [done|done| |done| |done|done].
  - intros k Hk. rewrite (clients_of_heap _ _ Hs). by apply Hfresh.
  - rewrite Hs. apply Hheld.
Qed.
(** A client has connected. *)
Lemma connected_ok s' conns l :
  loop_ok l -> clients_of s' = clients_of (lp_server l) ++ [{[None := default_session]}] ->
  conns = lp_conns l \/ conns = <[length (sv_heap (lp_server l)) := new_conn]> (lp_conns l) -> 0 <= limit ->
  loop_ok (with_server s' conns l).
Proof.
  intros [Hcount Hconn Hfresh Hjobs Hheld Hans Hdone] Hs Hconns Hl. set (n := length (sv_heap (lp_server l))) in *.
  assert (length (sv_heap s') = S n) as Hlen.
  { rewrite <- (length_fmap held). fold (clients_of s'). rewrite Hs, length_app. unfold clients_of. rewrite length_fmap. cbn. lia. }
  assert (lp_conns l !! n = None) as Hn. { destruct (lp_conns l !! n) eqn:E; [|done]. assert (n < n)%nat by (apply Hfresh; by eexists). lia. }
  split; cbn; [| | |done| |done|done].
  - intros j c Hc. change (in_process (with_server s' conns l) j) with (in_process l j).
    destruct Hconns as [->| ->]; [by apply Hcount|]. apply lookup_insert_Some in Hc as [[<- <-]|[_ Hc]]; [|by apply Hcount].
    rewrite (Hconn _ Hn). cbn. lia.
  - intros j Hj. apply Hconn. destruct Hconns as [->| ->]; [done|]. by apply lookup_insert_None in Hj as [].
  - intros j Hj. rewrite Hlen. destruct Hconns as [->| ->]; [by apply Nat.lt_lt_succ_r, Hfresh|].
    rewrite lookup_insert_is_Some in Hj. destruct Hj as [<-|[_ Hj]]; [lia|]. apply Nat.lt_lt_succ_r, Hfresh, Hj.
  - intros j i x (m & Hm & Hx). rewrite Hs in Hm. apply lookup_app_Some in Hm as [Hm|[_ Hm]]; [apply (Hheld j i x); by exists m|].
    apply list_lookup_singleton_Some in Hm as [_ <-]. apply lookup_singleton_Some in Hx as [_ <-]. by left.
Qed.

Lemma take_ok l j c p rest :
  loop_ok l -> lp_conns l !! j = Some c -> cn_waiting c = true ->
  loop_ok (MkLoop (lp_server l) (lp_workers l) (lp_jobs l ++ [MkJob j (session_of j p (lp_server l)) p]) (lp_results l) (lp_lost l)
              (<[j := MkConn rest (cn_in_queue c) false true (cn_writing c)]> (lp_conns l))
              (lp_outgoing l) (lp_sent l) (lp_shutdown l) (lp_handled l)).
Proof.
  intros [Hcount Hconn Hfresh Hjobs Hheld Hans Hdone] Hc Hw. destruct (Hcount j c Hc) as [Hq Hl]. rewrite Hw in Hq. cbn in Hq.
  split; unfold in_process; cbn [lp_conns lp_jobs lp_results lp_lost lp_server lp_handled lp_sent lp_outgoing].
  - intros k d Hd. rewrite of_client_app, of_client_cons. cbn [jb_client]. unfold of_client at 2. cbn [filter list_filter length].
    apply lookup_insert_Some in Hd as [[<- <-]|[Hne Hd]]; cbn [cn_in_queue cn_waiting Z.b2z].
    + rewrite decide_True by done. unfold in_process in Hq. split; [|done]. cbn. lia.
    + rewrite decide_False by done. destruct (Hcount k d Hd) as [Hq' Hl']. unfold in_process in Hq'. split; [|done]. cbn. lia.
  - intros k [Hk Hne]%lookup_insert_None. rewrite of_client_app, of_client_cons. cbn [jb_client]. rewrite decide_False by done.
    pose proof (Hconn k Hk) as Hp. unfold in_process in Hp. unfold of_client at 2. cbn. lia.
  - intros k Hk. apply Hfresh. rewrite lookup_insert_is_Some in Hk. destruct Hk as [<-|[_ ?]]; [by eexists|done].
  - intros job [Hjob|Hjob%list_elem_of_singleton]%elem_of_app; [by apply (Hjobs job)|]. subst job. cbn [jb_client jb_session].
    destruct (request_session_cases default_session j p (lp_server l)) as [->|Hx]; [by left|]. by eapply (Hheld j).
  - apply Hheld.
  - done.
  - done.
Qed.

Lemma work_ok l env job rest result s' :
  loop_ok l -> lp_jobs l = job :: rest ->
  worker env (jb_client job) (jb_session job) (jb_request job) (lp_server l) = (to_res result, s') ->
  loop_ok (MkLoop s' (lp_workers l) rest (lp_results l ++ [(job, result)]) (lp_lost l) (lp_conns l)
              (lp_outgoing l) (lp_sent l) (lp_shutdown l) (lp_handled l ++ [(job, result)])).
Proof.
  intros [Hcount Hconn Hfresh Hjobs Hheld Hans Hdone] Hj Hrun. set (l' := MkLoop s' _ _ _ _ _ _ _ _ _).
  assert (forall k, in_process l' k = in_process l k) as Hp.
  { intros k. unfold in_process. cbn [l' lp_jobs lp_results lp_lost]. rewrite Hj, of_client_cons, fmap_app, of_client_app. cbn [fmap list_fmap fst].
    rewrite of_client_cons. unfold of_client at 3. cbn. lia. }
  assert (forall k x, entitled l k x -> entitled l' k x) as Hent. { intros k x. apply entitled_handled. intros y Hy. apply elem_of_app. by left. }
  split; cbn [l' lp_conns lp_jobs lp_server lp_sent lp_outgoing lp_handled lp_results].
  - intros k d Hd. rewrite Hp. by apply Hcount.
  - intros k Hk. rewrite Hp. by apply Hconn.
  - intros k Hk. rewrite (worker_heap _ _ _ _ _ _ _ _ _ Hrun). by apply Hfresh.
  - intros job' Hin. apply Hent, Hjobs. rewrite Hj. by right.
  - intros k i x Hx. destruct (worker_sessions _ _ _ _ _ _ _ _ _ _ _ _ Hrun Hx) as [Hx'|(-> & Hg & _)]; [by eapply Hent, Hheld|].
    right. exists job, result. split_and!; [|done|done]. apply elem_of_app. right. left.
  - rewrite !fmap_app, !app_assoc. apply Permutation_app; [|done]. by rewrite <- app_assoc.
  - intros job' result' [Hin|Hin%list_elem_of_singleton]%elem_of_app; [by apply Hdone|].
    injection Hin as -> ->. by exists env, (lp_server l), s'.
Qed.

Lemma panic_ok l env job rest s' :
  loop_ok l -> lp_jobs l = job :: rest ->
  worker env (jb_client job) (jb_session job) (jb_request job) (lp_server l) = (Panic, s') ->
  loop_ok (MkLoop s' (pred (lp_workers l)) rest (lp_results l) (lp_lost l ++ [job]) (lp_conns l)
              (lp_outgoing l) (lp_sent l) (lp_shutdown l) (lp_handled l)).
Proof.
  intros [Hcount Hconn Hfresh Hjobs Hheld Hans Hdone] Hj Hrun. set (l' := MkLoop s' _ _ _ _ _ _ _ _ _).
  assert (forall k, in_process l' k = in_process l k) as Hp.
  { intros k. unfold in_process. cbn [l' lp_jobs lp_results lp_lost]. rewrite Hj, of_client_cons, of_client_app, of_client_cons.
    unfold of_client at 4. cbn. lia. }
  split; cbn [l' lp_conns lp_jobs lp_server lp_sent lp_outgoing lp_handled lp_results].
  - intros k d Hd. rewrite Hp. by apply Hcount.
  - intros k Hk. rewrite Hp. by apply Hconn.
  - intros k Hk. rewrite (worker_heap _ _ _ _ _ _ _ _ _ Hrun). by apply Hfresh.
  - intros job' Hin. apply Hjobs. rewrite Hj. by right.
  - intros k i x Hx. destruct (worker_sessions _ _ _ _ _ _ _ _ _ _ _ _ Hrun Hx) as [Hx'|(-> & Hg & _)]; [by eapply Hheld|].
    destruct Hg as (a & r & _ & _ & Hr). by destruct (result_to_vec a (inl r)).
  - done.
  - done.
Qed.

Lemma respond_ok l before r after c :
  loop_ok l -> lp_results l = before ++ r :: after -> lp_conns l !! jb_client r.1 = Some c ->
  loop_ok (MkLoop (lp_server l) (lp_workers l) (lp_jobs l) (before ++ after) (lp_lost l)
              (<[jb_client r.1 := released c]> (lp_conns l)) (lp_outgoing l ++ [answer r]) (lp_sent l) (lp_shutdown l) (lp_handled l)).
Proof.
  intros [Hcount Hconn Hfresh Hjobs Hheld Hans Hdone] Hr Hc. set (l' := MkLoop _ _ _ _ _ _ _ _ _ _).
  assert (forall k, in_process l' k = in_process l k - (if decide (jb_client r.1 = k) then 1 else 0)) as Hp.
  { intros k. unfold in_process. cbn [l' lp_jobs lp_results lp_lost]. rewrite Hr, !fmap_app, !of_client_app, fmap_cons, of_client_cons. lia. }
  split; cbn [l' lp_conns lp_jobs lp_server lp_sent lp_outgoing lp_handled lp_results]; [| | |done|done| |done].
  - intros k d Hd. rewrite Hp. apply lookup_insert_Some in Hd as [[<- <-]|[Hne Hd]].
    + rewrite decide_True by done. destruct (Hcount _ _ Hc) as [Hq Hl]. cbn. lia.
    + rewrite decide_False by done. destruct (Hcount _ _ Hd) as [Hq Hl]. lia.
  - intros k [Hk Hne]%lookup_insert_None. rewrite Hp, decide_False by done. rewrite (Hconn k Hk). lia.
  - intros k Hk. apply Hfresh. rewrite lookup_insert_is_Some in Hk. destruct Hk as [<-|[_ ?]]; [by eexists|done].
  - rewrite Hans, Hr. apply Permutation_app_head. rewrite !fmap_app, fmap_cons, <- app_assoc. apply Permutation_app_head. cbn [app].
    by rewrite Permutation_middle.
Qed.
Lemma response_write_ok l before x after :
  loop_ok l -> lp_outgoing l = before ++ x :: after ->
  loop_ok (MkLoop (lp_server l) (lp_workers l) (lp_jobs l) (lp_results l) (lp_lost l) (lp_conns l)
              (before ++ after) (lp_sent l ++ [x]) (lp_shutdown l) (lp_handled l)).
Proof.
  intros [Hcount Hconn Hfresh Hjobs Hheld Hans Hdone] Hx. split; cbn; [done..| |done].
  rewrite Hans, Hx, <- !app_assoc. apply Permutation_app_head. cbn. symmetry. apply Permutation_middle.
Qed.

Lemma step_ok l l' : 0 <= limit -> loop_ok l -> step l l' -> loop_ok l'.
Proof.
  intros Hlim Hok Hstep. destruct Hstep as [l tr addr hd client s' Hrun|l tr addr hd s' Hrun|l j c p Hc _ _|l j c Hc _ Hw Hne|l j c p rest Hc _ Hw Hreq _|
    l j c p rest Hc _ Hw Hreq _|l env job rest result s' Hj _ Hrun|l env job rest s' Hj _ Hrun|l before r after c Hr Hc|l before x after c Hx _ _|
    l before f after s' f' _ Hf|l st|l j c Hc _|l j c Hc|l j c id Hc _].
  - apply initialize_client_clients in Hrun as [[? _]|[[?|[= ->]] Hs]]; [done|done|]. apply connected_ok; [done|done|by right|done].
  - apply initialize_client_clients in Hrun as [[_ Hs]|[_ Hs]]; [by apply with_server_ok|]. apply connected_ok; [done|done|by left|done].
  - destruct (lo_counted _ Hok j c Hc). by eapply set_conn_ok.
  - destruct (lo_counted _ Hok j c Hc). eapply set_conn_ok; [done|done|cbn [cn_in_queue cn_waiting]..]; rewrite ?Hw; cbn; lia.
  - by apply take_ok.
  - destruct (lo_counted _ Hok j c Hc). eapply set_conn_ok; [done|done|cbn [cn_in_queue cn_waiting]..]; by rewrite ?Hw.
  - by eapply work_ok.
  - by eapply panic_ok.
  - by eapply respond_ok.
  - by apply response_write_ok.
  - apply with_server_ok; [done|]. exact (forward_next_clients _ _ _ _ Hf).
  - by destruct Hok.
  - destruct (lo_counted _ Hok j c Hc). by eapply set_conn_ok.
  - destruct (lo_counted _ Hok j c Hc). by eapply set_conn_ok.
  - destruct (lo_counted _ Hok j c Hc). change (loop_ok (set_conn j (MkConn (cn_requests c) (cn_in_queue c) (cn_waiting c) false (cn_writing c))
      (with_server (disconnect_client id (lp_server l)) (lp_conns l) l))). eapply set_conn_ok; [|done|done|done].
    apply with_server_ok; [done|]. apply disconnect_client_clients.
Qed.
Lemma reachable_ok s workers l : 0 <= limit -> sv_heap s = [] -> reachable (initial s workers) l -> loop_ok l.
Proof. intros Hlim Hs Hr. induction Hr as [|l l' _ IH Hstep]; [by apply initial_ok|by eapply step_ok]. Qed.

(** ** Theorems *)

(** C10: A request is handled with the rights of a session of the client that sent
    it: the one every client starts with, or one that a request of this client
    has returned to it.  No client acts with the session of another, whatever
    ids it sends. *)
Theorem requests_run_as_granted s workers l job :
  0 <= limit -> sv_heap s = [] -> reachable (initial s workers) l -> job ∈ lp_jobs l ->
  jb_session job = default_session \/
  exists job' result, (job', result) ∈ lp_handled l /\ jb_client job' = jb_client job /\
    granted_by (jb_request job') (to_res result) (jb_session job).
Proof. intros Hlim Hs Hr Hin. by apply (lo_jobs _ (reachable_ok _ _ _ Hlim Hs Hr)). Qed.

(** C18: every request that was handled is answered once.  The payloads written to
    the streams, those that wait to be written and those still to be sent by the
    callback of a finished request are together, each once, the expected answers
    to the requests that were handled: addressed to the client that sent the
    request, with the session id, the id and the name of the request, and with
    the result a worker gave for the request of this client. *)
Theorem responses_exact s workers l :
  0 <= limit -> sv_heap s = [] -> reachable (initial s workers) l ->
  expected_answer <$> lp_handled l ≡ₚ lp_sent l ++ lp_outgoing l ++ (expected_answer <$> lp_results l) /\
  forall job result, (job, result) ∈ lp_handled l -> handled_by_worker job result.
Proof.
  intros Hlim Hs Hr. destruct (reachable_ok _ _ _ Hlim Hs Hr) as [_ _ _ _ _ Hans Hdone]. split; [|done].
  assert (forall rs, expected_answer <$> rs = answer <$> rs) as Heq by (intros rs; by apply list_fmap_ext).
  by rewrite !Heq.
Qed.

(** C33: A client has at most as many requests in process as the limit allows. *)
Theorem simultaneous_requests_bounded s workers l j c :
  0 <= limit -> sv_heap s = [] -> reachable (initial s workers) l -> lp_conns l !! j = Some c ->
  of_client j (lp_jobs l) + of_client j (lp_results l).*1 <= cn_in_queue c <= limit.
Proof.
  intros Hlim Hs Hr Hc. destruct (lo_counted _ (reachable_ok _ _ _ Hlim Hs Hr) j c Hc) as [Hq Hl]. unfold in_process in Hq.
  pose proof (of_client_pos j (lp_lost l)). destruct (cn_waiting c); cbn in Hq; lia.
Qed.

(** ** Workers that are gone *)

(** Without workers no request is handled any more. *)
Lemma no_workers l l' : lp_workers l = O -> reachable l l' -> lp_workers l' = O /\ lp_handled l' = lp_handled l.
Proof.
  intros Hw Hr. induction Hr as [|l1 l2 _ [IHw IHh] Hstep]; [done|]. destruct Hstep; cbn in *; try done; congruence.
Qed.

Lemma reachable_trans l1 l2 l3 : reachable l1 l2 -> reachable l2 l3 -> reachable l1 l3.
Proof. intros H12 H23. induction H23; [done|by eapply reachable_step]. Qed.

(** What the next error payload of a client needs to end a worker. *)
Record can_end l j (n : nat) : Prop := {
  ce_workers : lp_workers l = n;
  ce_jobs : lp_jobs l = [];
  ce_conn : exists c, lp_conns l !! j = Some c /\ cn_looping c = true /\ cn_waiting c = false /\ cn_requests c = [] /\
    0 <= cn_in_queue c /\ cn_in_queue c + Z.of_nat n <= limit
}.
Lemma error_payload_ends_worker (env : Ambient) l j n p e :
  can_end l j (S n) -> py_value p = inr e -> session_id default_session = None -> session_of j p (lp_server l) = default_session ->
  exists l', reachable l l' /\ can_end l' j n /\ sv_heap (lp_server l') = sv_heap (lp_server l).
Proof.
  intros [Hw Hj (c & Hc & Hloop & Hwait & Hreq & Hpos & Hq)] Hp Hid Hsession. set (s := lp_server l) in *.
  set (c1 := MkConn [p] (cn_in_queue c) false true (cn_writing c)). set (l1 := set_conn j c1 l).
  set (c2 := MkConn [p] (cn_in_queue c + 1) true true (cn_writing c)). set (l2 := set_conn j c2 l1).
  assert (step l l1) as H1'. { pose proof (step_receive l j c p Hc Hloop) as Hs. rewrite Hreq, Hwait in Hs. apply Hs. cbn. lia. }
  assert (step l1 l2) as H2'. { refine (step_reserve l1 j c1 _ eq_refl eq_refl _); [cbn; by rewrite lookup_insert_eq|cbn; lia]. }
  set (c3 := MkConn [] (cn_in_queue c + 1) false true (cn_writing c)).
  set (l3 := MkLoop s (S n) [MkJob j default_session p] (lp_results l) (lp_lost l) (<[j := c3]> (lp_conns l2)) (lp_outgoing l) (lp_sent l) (lp_shutdown l) (lp_handled l)).
  assert (step l2 l3) as H3'.
  { pose proof (step_take l2 j c2 p [] ltac:(cbn; by rewrite lookup_insert_eq) eq_refl eq_refl eq_refl) as Hs.
    cbn [l2 l1 set_conn with_server lp_workers lp_jobs lp_server] in Hs. rewrite Hj, Hw in Hs. fold s in Hs. rewrite Hsession in Hs. by apply Hs. }
  pose (st := MkStorage None (Some default_session)). pose (s' := with_data new_contents (sv_data s) (sv_relay s) s).
  assert (on_storage (K := K) new_contents (assume_session unauthenticated default_session) s = (Ok st, s')) as Hassume.
  { unfold on_storage, assume_session. cbn [st_authentication unauthenticated]. by rewrite Hid. }
  assert (worker env j default_session p s = (Panic, with_data new_contents (sv_data s') (sv_relay s') s')) as Hwork.
  { unfold worker_handle. rewrite (stm_bind_Ok _ _ _ _ _ Hassume). unfold act_as. by rewrite Hp. }
  pose proof (step_panic l3 env (MkJob j default_session p) [] _ eq_refl ltac:(done) Hwork) as H4'.
  eexists. split; [eapply reachable_step; [eapply reachable_step; [eapply reachable_step; [eapply reachable_step; [apply reachable_refl|exact H1']|exact H2']|exact H3']|exact H4']|].
  split; [|done]. split; [done|done|]. exists c3. split_and!; [cbn; by rewrite lookup_insert_eq|done|done|done|cbn; lia|cbn; lia].
Qed.

(** A client that may connect can end all workers: a payload that carries an
    error ends the worker that takes it, and no request is answered after the
    last one. *)
Theorem error_payloads_end_workers (env : Ambient) l j n p e :
  can_end l j n -> py_value p = inr e -> session_id default_session = None -> session_of j p (lp_server l) = default_session ->
  exists l', reachable l l' /\ lp_workers l' = O /\ forall l'', reachable l' l'' -> lp_handled l'' = lp_handled l'.
Proof.
  revert l. induction n as [|n IH]; intros l Hl Hp Hid Hs.
  - exists l. split_and!; [apply reachable_refl|by destruct Hl|]. intros l'' Hr. by apply no_workers in Hr as [_ ?]; [|destruct Hl].
  - destruct (error_payload_ends_worker env l j n p e Hl Hp Hid Hs) as (l1 & Hr1 & Hl1 & Hheap).
    destruct (IH l1 Hl1 Hp Hid) as (l2 & Hr2 & Hl2). { unfold request_session in *. by rewrite Hheap. }
    exists l2. split; [by eapply reachable_trans|done].
Qed.
End Loop.
