(* ===== verification/Client.v ===== *)
(** * The worker of a client

    [bonsaidb-client/src/client.rs] and the loops of [client/quic_worker.rs] and
    [client/tungstenite_worker.rs]: requests wait in a channel, are sent with an
    id, are outstanding until a payload with this id is received, and are
    answered with an error when the connection is lost.

    The two transports are one step relation with the steps they differ in.  The
    stream is arbitrary: it may fail at any time and deliver any payload.  Every
    request has a responder, a channel for one answer; a responder that is
    dropped gives its receiver an error, which is an answer here.

    Theorems: every request is in exactly one place, and answered at most once,
    with the value of a payload that carries its id; when the worker is idle
    nothing is left unanswered. *)

From Stdlib Require Import ZArith Lia String.
From stdpp Require Import base list option numbers gmap sets.
From S2P Require Import Prelude Bytes Utf8 Nebari Names Permissions Query Networking.

Local Open Scope Z_scope.

(** [Error::disconnected], [request_timeout] and [connect_timeout], as the
    errors of [bonsaidb_core] they become. *)
Definition disconnected `{Nebari} `{Actionable} : CoreError := CoreNetworking Disconnected.
Definition request_timeout `{Nebari} `{Actionable} : CoreError := CoreNetworking RequestTimeout.
Definition connect_timeout `{Nebari} `{Actionable} : CoreError := CoreNetworking ConnectTimeout.

(** ** State *)

Record PendingRequest `{Nebari} `{Actionable} := MkPendingRequest { pr_request : Payload; pr_responder : nat }.
Arguments MkPendingRequest {_ _} _ _.
(** Where the loop is: waiting for a request, with the error the next one is
    answered with; connected, with the initial request sent but not yet
    outstanding; connected, and whether responses are still read; or ended. *)
Inductive Worker `{Nebari} `{Actionable} :=
| Idle (pending_error : option CoreError)
| Opening (initial_request : PendingRequest)
| Connected (outstanding_requests : gmap Z PendingRequest) (reading : bool)
| Ended.
(** The channel of a subscriber: what was sent, and whether it is received. *)
Record SubscriberChannel := MkSubscriberChannel { sc_messages : list (bytes * bytes); sc_receiving : bool }.
(** [Data]; [cl_answers] is what the responders were sent, [cl_received] the
    payloads that were received. *)
Record ClientState `{Nebari} `{Actionable} := MkClientState {
  cl_request_id : Z;
  cl_responders : nat;
  cl_queue : list PendingRequest;
  cl_worker : Worker;
  cl_connection_counter : Z;
  cl_subscribers : gmap Z SubscriberChannel;
  cl_answers : list (PendingRequest * (bytes + CoreError));
  cl_received : list Payload
}.
Arguments MkClientState {_ _} _ _ _ _ _ _ _ _.

Inductive ClientTransport := Quic | Tungstenite.

Section Client.
Context `{Nebari} `{Actionable} `{!ApiFormats}.
Implicit Types (st : ClientState) (r : PendingRequest) (p : Payload).

Definition request_id_of r : Z := default 0 (py_id (pr_request r)).

(** ** Requests *)

(** [send_request_without_confirmation]: the responder to wait for. *)
Definition send_request_without_confirmation (session : option Z) (name : ApiName) (bs : bytes) : stm ClientState CoreError nat := fun st =>
  let id := cl_request_id st in
  let next := wrapping_add u32 id 1 in
  match cl_worker st with
  | Ended => (Err disconnected, MkClientState next (cl_responders st) (cl_queue st) Ended (cl_connection_counter st)
                                  (cl_subscribers st) (cl_answers st) (cl_received st))
  | worker =>
      (Ok (cl_responders st),
       MkClientState next (S (cl_responders st))
         (cl_queue st ++ [MkPendingRequest (MkPayload session (Some id) name (inl bs)) (cl_responders st)]) worker
         (cl_connection_counter st) (cl_subscribers st) (cl_answers st) (cl_received st))
  end.
(** What a caller that waits gets: the answer of its responder, or a timeout. *)
Definition receive_answer (responder : nat) st : res CoreError bytes :=
  match list_find (fun x => pr_responder x.1 = responder) (cl_answers st) with
  | Some (_, (_, value)) => to_res value
  | None => Err request_timeout
  end.

(** ** Subscribers *)

Definition register_subscriber (id : Z) (m : gmap Z SubscriberChannel) : gmap Z SubscriberChannel := <[id := MkSubscriberChannel [] true]> m.
Definition unregister_subscriber (id : Z) (m : gmap Z SubscriberChannel) : gmap Z SubscriberChannel := delete id m.
(** The callback of [MessageReceived] of [new_from_parts]. *)
Definition message_callback (message : MessageReceived) (m : gmap Z SubscriberChannel) : gmap Z SubscriberChannel :=
  match m !! mr_subscriber_id message with
  | Some ch =>
      if sc_receiving ch
      then <[mr_subscriber_id message := MkSubscriberChannel (sc_messages ch ++ [(mr_topic message, mr_payload message)]) true]> m
      else delete (mr_subscriber_id message) m
  | None => m
  end.
(** [ApiCallback::response_received]; [None] is a panic. *)
Definition response_received (bs : bytes) (m : gmap Z SubscriberChannel) : option (gmap Z SubscriberChannel) :=
  match message_from_slice bs with
  | Some (inl message) => Some (message_callback message m)
  | Some (inr _) => None
  | None => Some m
  end.

(** ** Responses *)

(** [process_response_payload]: the request it answers, and what remains. *)
Definition process_response_payload p (outstanding : gmap Z PendingRequest) : option PendingRequest * gmap Z PendingRequest :=
  match py_id p with
  | Some id => (outstanding !! id, delete id outstanding)
  | None => (None, outstanding)
  end.
(** A payload without an id is for a callback. *)
Definition run_callback p (m : gmap Z SubscriberChannel) : option (gmap Z SubscriberChannel) :=
  match py_id p, py_value p with
  | None, inl bs => if decide (py_name p = message_received_name) then response_received bs m else Some m
  | _, _ => Some m
  end.

(** [disconnect_pending_requests]: the requests, in the order they are drained,
    with their answers, and the error that is left. *)
Definition disconnect_pending_requests (drained : list PendingRequest) (pending_error : CoreError)
    : list (PendingRequest * (bytes + CoreError)) * option CoreError :=
  match drained with
  | [] => ([], Some pending_error)
  | r :: drained => ((r, inr pending_error) :: ((fun r => (r, inr disconnected)) <$> drained), None)
  end.

(** ** Steps *)

Definition with_worker (queue : list PendingRequest) (w : Worker) (answers : list (PendingRequest * (bytes + CoreError))) st : ClientState :=
  MkClientState (cl_request_id st) (cl_responders st) queue w (cl_connection_counter st) (cl_subscribers st) (cl_answers st ++ answers) (cl_received st).
Definition count_connection st : ClientState :=
  MkClientState (cl_request_id st) (cl_responders st) (cl_queue st) (cl_worker st) (wrapping_add u32 (cl_connection_counter st) 1)
    (cl_subscribers st) (cl_answers st) (cl_received st).
Definition receive p (m : gmap Z SubscriberChannel) st : ClientState :=
  MkClientState (cl_request_id st) (cl_responders st) (cl_queue st) (cl_worker st) (cl_connection_counter st) m (cl_answers st) (cl_received st ++ [p]).
Definition set_subscribers (m : gmap Z SubscriberChannel) st : ClientState :=
  MkClientState (cl_request_id st) (cl_responders st) (cl_queue st) (cl_worker st) (cl_connection_counter st) m (cl_answers st) (cl_received st).
(** A connection is lost with an error. *)
Definition disconnect (drained : list PendingRequest) (e : CoreError) (queue : list PendingRequest)
    (before : list (PendingRequest * (bytes + CoreError))) st : ClientState :=
  let '(answers, pending_error) := disconnect_pending_requests drained e in
  with_worker queue (Idle pending_error) (before ++ answers) st.

Inductive cstep (t : ClientTransport) : ClientState -> ClientState -> Prop :=
| cstep_submit st session name bs responder st' :
    send_request_without_confirmation session name bs st = (Ok responder, st') -> cstep t st st'
(** The subscribers change: a client registers or unregisters one, or drops its
    receiver. *)
| cstep_subscribers st m : cstep t st (set_subscribers m st)
(** The error of the last connection is replayed to the next request. *)
| cstep_replay st e r rest :
    cl_worker st = Idle (Some e) -> cl_queue st = r :: rest -> cstep t st (with_worker rest (Idle None) [(r, inr e)] st)
(** The connection, or sending the initial request, fails. *)
| cstep_refused st e r rest :
    cl_worker st = Idle None -> cl_queue st = r :: rest -> cstep t st (with_worker rest (Idle None) [(r, inr e)] (count_connection st))
(** The initial request is sent.  Over QUIC it becomes outstanding only later. *)
| cstep_open_quic st r rest :
    t = Quic -> cl_worker st = Idle None -> cl_queue st = r :: rest -> cstep t st (with_worker rest (Opening r) [] (count_connection st))
| cstep_opened st r :
    cl_worker st = Opening r -> cstep t st (with_worker (cl_queue st) (Connected {[request_id_of r := r]} true) [] st)
| cstep_open_locked st r rest :
    t = Tungstenite -> cl_worker st = Idle None -> cl_queue st = r :: rest ->
    cstep t st (with_worker rest (Connected {[request_id_of r := r]} true) [] (count_connection st))
(** A request is sent; one that is outstanding under the same id is dropped. *)
| cstep_send st out reading r rest :
    cl_worker st = Connected out reading -> cl_queue st = r :: rest ->
    cstep t st (with_worker rest (Connected (<[request_id_of r := r]> out) reading)
                  ((fun old => (old, inr disconnected)) <$> option_list (out !! request_id_of r)) st)
(** Sending fails: the request is dropped. *)
| cstep_send_fails st out reading e r rest drained :
    cl_worker st = Connected out reading -> cl_queue st = r :: rest -> drained ≡ₚ (map_to_list out).*2 ->
    cstep t st (disconnect drained e rest [(r, inr disconnected)] st)
(** A payload is received. *)
| cstep_response st out p m answered out' :
    cl_worker st = Connected out true -> run_callback p (cl_subscribers st) = Some m -> process_response_payload p out = (answered, out') ->
    cstep t st (with_worker (cl_queue st) (Connected out' true) ((fun r => (r, py_value p)) <$> option_list answered) (receive p m st))
| cstep_response_opening st r p m :
    cl_worker st = Opening r -> run_callback p (cl_subscribers st) = Some m -> cstep t st (receive p m st)
(** Reading fails, or over QUIC a callback panics in the task that reads. *)
| cstep_stream_fails st out e drained :
    cl_worker st = Connected out true -> drained ≡ₚ (map_to_list out).*2 -> cstep t st (disconnect drained e (cl_queue st) [] st)
(** A callback panics while a response is processed in the task of a websocket:
    the task ends with it and drops its channel and the outstanding requests. *)
| cstep_task_panics st out p drained :
    t = Tungstenite -> cl_worker st = Connected out true -> run_callback p (cl_subscribers st) = None ->
    drained ≡ₚ (map_to_list out).*2 ->
    cstep t st (with_worker [] Ended ((fun r => (r, inr disconnected)) <$> cl_queue st ++ drained) st)
(** The stream of a websocket ends: no response is read any more. *)
| cstep_stream_ends st out :
    t = Tungstenite -> cl_worker st = Connected out true -> cstep t st (with_worker (cl_queue st) (Connected out false) [] st)
(** The initial request of a websocket cannot be serialized: the loop ends, and
    drops the channel. *)
| cstep_loop_ends st r rest :
    t = Tungstenite -> cl_worker st = Idle None -> cl_queue st = r :: rest ->
    cstep t st (with_worker [] Ended ((fun r => (r, inr disconnected)) <$> r :: rest) (count_connection st)).

Definition client_initial : ClientState := MkClientState 0 0 [] (Idle None) 0 ∅ [] [].
Inductive client_reachable (t : ClientTransport) : ClientState -> Prop :=
| client_reachable_initial : client_reachable t client_initial
| client_reachable_step st st' : client_reachable t st -> cstep t st st' -> client_reachable t st'.

(** ** Sessions *)

Record ClientHandle := MkClientHandle { ch_session : Session; ch_connection_id : Z }.
Definition session_is_current (c : ClientHandle) st : bool :=
  bool_decide (session_id (ch_session c) = None) || (cl_connection_counter st =? ch_connection_id c).
(** [HasSession for AsyncClient]. *)
Definition handle_session (c : ClientHandle) st : option Session := if session_is_current c st then Some (ch_session c) else None.
(** [Drop for AsyncClient]; [references] are those to the session. *)
Definition drop_client (references : nat) (c : ClientHandle) st : ClientState :=
  if session_is_current c st && (references =? 1)%nat then
    match session_id (ch_session c) with
    | Some id =>
        match request_to_vec ApiLogOutSession id with
        | Some bs => (send_request_without_confirmation (Some id) (api_name ApiLogOutSession) bs st).2
        | None => st
        end
    | None => st
    end
  else st.

(** ** Invariant *)

Definition in_flight (w : Worker) : list PendingRequest :=
  match w with
  | Opening r => [r]
  | Connected out _ => (map_to_list out).*2
  | Idle _ | Ended => []
  end.
Definition responders (l : list PendingRequest) : list nat := pr_responder <$> l.

Record client_ok st : Prop := {
  ck_places : seq 0 (cl_responders st) ≡ₚ responders (cl_queue st ++ in_flight (cl_worker st) ++ (cl_answers st).*1);
  ck_ids r : r ∈ cl_queue st ++ in_flight (cl_worker st) -> is_Some (py_id (pr_request r));
  ck_outstanding out reading id r : cl_worker st = Connected out reading -> out !! id = Some r -> py_id (pr_request r) = Some id;
  ck_values r bs : (r, inl bs) ∈ cl_answers st -> exists p, p ∈ cl_received st /\ py_id p = py_id (pr_request r) /\ py_value p = inl bs
}.

Lemma initial_client_ok : client_ok client_initial.
Proof. split; cbn; [done|..]; set_solver. Qed.

Lemma outstanding_delete (out : gmap Z PendingRequest) id r :
  out !! id = Some r -> (map_to_list out).*2 ≡ₚ r :: (map_to_list (delete id out)).*2.
Proof. intros Hr. by rewrite <- (map_to_list_delete out id r Hr). Qed.
Lemma outstanding_insert (out : gmap Z PendingRequest) id r :
  r :: (map_to_list out).*2 ≡ₚ (map_to_list (<[id := r]> out)).*2 ++ option_list (out !! id).
Proof.
  rewrite <- insert_delete_eq, map_to_list_insert by apply lookup_delete_eq. cbn. apply Permutation_skip.
  destruct (out !! id) as [old|] eqn:Hold; cbn [option_list].
  - by rewrite (outstanding_delete _ _ _ Hold), Permutation_cons_append.
  - by rewrite delete_id, app_nil_r.
Qed.

(** A step moves requests from one place to another. *)
Lemma with_worker_ok queue w ans st :
  client_ok st -> cl_queue st ++ in_flight (cl_worker st) ≡ₚ queue ++ in_flight w ++ ans.*1 ->
  (forall out reading id r, w = Connected out reading -> out !! id = Some r -> py_id (pr_request r) = Some id) ->
  (forall r bs, (r, inl bs) ∈ ans -> exists p, p ∈ cl_received st /\ py_id p = py_id (pr_request r) /\ py_value p = inl bs) ->
  client_ok (with_worker queue w ans st).
Proof.
  intros [Hplaces Hids Hout Hval] Hperm Hw Hans. split; cbn [with_worker cl_responders cl_queue cl_worker cl_answers cl_received].
  - rewrite Hplaces. unfold responders. apply fmap_Permutation. rewrite app_assoc, Hperm, fmap_app, <- !app_assoc.
    do 2 apply Permutation_app_head. apply Permutation_app_comm.
  - intros r Hr. apply Hids. rewrite Hperm, app_assoc. apply elem_of_app. by left.
  - done.
  - intros r bs [Hr|Hr]%elem_of_app; [by apply Hval|by apply Hans].
Qed.
Lemma answered_requests (l : list PendingRequest) (v : bytes + CoreError) : ((fun x => (x, v)) <$> l).*1 = l.
Proof. induction l; cbn; congruence. Qed.
Lemma no_values (l : list PendingRequest) (e : CoreError) r (bs : bytes) (P : Prop) :
  (r, inl bs) ∈ ((fun x => (x, inr e)) <$> l) -> P.
Proof. intros (x & Hx & _)%list_elem_of_fmap. done. Qed.
Lemma count_connection_ok st : client_ok st -> client_ok (count_connection st).
Proof. by intros []. Qed.
Lemma receive_ok p m st : client_ok st -> client_ok (receive p m st).
Proof.
  intros [Hplaces Hids Hout Hval]. split; [done|done|done|]. intros r bs Hr. destruct (Hval r bs Hr) as (p' & Hp' & ?). exists p'. split; [|done].
  apply elem_of_app. by left.
Qed.
Lemma disconnect_ok drained e queue before (dropped : list PendingRequest) st :
  client_ok st -> before = (fun r => (r, inr disconnected)) <$> dropped ->
  cl_queue st ++ in_flight (cl_worker st) ≡ₚ queue ++ drained ++ dropped -> client_ok (disconnect drained e queue before st).
Proof.
  intros Hok -> Hperm. unfold disconnect. destruct (disconnect_pending_requests drained e) as [answers err] eqn:E.
  assert (answers.*1 = drained /\ forall r bs, (r, inl bs) ∉ answers) as [Hd Hv].
  { destruct drained as [|r drained]; injection E as <- <-; [split; [done|by intros r bs ?%not_elem_of_nil]|]. split.
    - cbn. by rewrite answered_requests.
    - intros x bs [?|Hx]%elem_of_cons; [done|]. by eapply no_values. }
  apply with_worker_ok; [done| |done|].
  - rewrite Hperm. cbn [in_flight app]. rewrite fmap_app, Hd, answered_requests. apply Permutation_app_head, Permutation_app_comm.
  - intros r bs [Hr|Hr]%elem_of_app; [by eapply no_values|by destruct (Hv r bs)].
Qed.

Lemma singleton_connected r out reading id r' :
  is_Some (py_id (pr_request r)) -> Connected {[request_id_of r := r]} true = Connected out reading -> out !! id = Some r' ->
  py_id (pr_request r') = Some id.
Proof.
  intros [i Hi] [= <- <-] [<- <-]%lookup_singleton_Some. unfold request_id_of. by rewrite Hi.
Qed.

Lemma cstep_ok t st st' : client_ok st -> cstep t st st' -> client_ok st'.
Proof.
  intros Hok Hstep. destruct Hstep as [st session name bs n st' Hsend|st m|st e r rest Hw Hq|st e r rest Hw Hq|st r rest _ Hw Hq|st r Hw|
    st r rest _ Hw Hq|st out reading r rest Hw Hq|st out reading e r rest drained Hw Hq Hd|st out p m answered out' Hw _ Hp|st r p m Hw _|
    st out e drained Hw Hd|st out p drained _ Hw _ Hd|st out _ Hw|st r rest _ Hw Hq].
  - unfold send_request_without_confirmation in Hsend. destruct Hok as [Hplaces Hids Hout Hval].
    assert (cl_worker st <> Ended) as Hne by (intros E; rewrite E in Hsend; discriminate).
    assert (st' = MkClientState (wrapping_add u32 (cl_request_id st) 1) (S (cl_responders st))
      (cl_queue st ++ [MkPendingRequest (MkPayload session (Some (cl_request_id st)) name (inl bs)) (cl_responders st)]) (cl_worker st)
      (cl_connection_counter st) (cl_subscribers st) (cl_answers st) (cl_received st)) as ->
      by (destruct (cl_worker st); [by injection Hsend..|done]).
    clear Hsend. split; cbn [cl_responders cl_queue cl_worker cl_answers cl_received]; [| |done|done].
    + rewrite seq_S, Hplaces. unfold responders. rewrite !fmap_app. cbn. rewrite <- !app_assoc. apply Permutation_app_head.
      rewrite app_assoc. symmetry. apply Permutation_cons_append.
    + intros r. rewrite <- app_assoc. intros [Hr|[->|Hr]%elem_of_cons]%elem_of_app; [|by eexists|]; apply Hids, elem_of_app; auto.
  - by destruct Hok.
  - apply with_worker_ok; [done| |done|by intros ? ? ?%list_elem_of_singleton]. rewrite Hq, Hw. cbn. by rewrite app_nil_r, Permutation_cons_append.
  - apply with_worker_ok; [by apply count_connection_ok| |done|by intros ? ? ?%list_elem_of_singleton].
    cbn [count_connection cl_queue cl_worker]. rewrite Hq, Hw. cbn. by rewrite app_nil_r, Permutation_cons_append.
  - apply with_worker_ok; [by apply count_connection_ok| |done|by intros ? ? ?%not_elem_of_nil].
    cbn [count_connection cl_queue cl_worker]. rewrite Hq, Hw. cbn. by rewrite app_nil_r, Permutation_cons_append.
  - apply with_worker_ok; [done| | |by intros ? ? ?%not_elem_of_nil].
    + rewrite Hw. cbn [in_flight]. by rewrite map_to_list_singleton, app_nil_r.
    + intros out reading id r'. apply singleton_connected, (ck_ids _ Hok). rewrite Hw. apply elem_of_app. right. left.
  - apply with_worker_ok; [by apply count_connection_ok| | |by intros ? ? ?%not_elem_of_nil]; cbn [count_connection cl_queue cl_worker].
    + rewrite Hq, Hw. cbn [in_flight]. rewrite map_to_list_singleton, !app_nil_r. cbn. by rewrite Permutation_cons_append.
    + intros out reading id r'. apply singleton_connected, (ck_ids _ Hok). rewrite Hq. left.
  - apply with_worker_ok; [done| | |intros ? ?; apply no_values].
    + rewrite Hq, Hw. cbn [in_flight]. rewrite answered_requests, <- outstanding_insert. cbn. apply Permutation_middle.
    + intros out1 reading1 id r' [= <- <-] [[<- <-]|[_ Hr']]%lookup_insert_Some; [|by eapply ck_outstanding].
      destruct (ck_ids _ Hok r) as [i Hi]; [rewrite Hq; left|]. unfold request_id_of. by rewrite Hi.
  - apply (disconnect_ok _ _ _ _ [r]); [done|done|]. rewrite Hq, Hw, Hd. cbn [in_flight app].
    rewrite app_assoc. by rewrite Permutation_cons_append.
  - unfold process_response_payload in Hp. destruct (py_id p) as [id|] eqn:Hid; injection Hp as <- <-.
    + apply with_worker_ok; [by apply receive_ok| | |]; cbn [receive cl_queue cl_worker cl_received].
      * rewrite Hw. cbn [in_flight]. rewrite answered_requests. apply Permutation_app_head.
        destruct (out !! id) as [r|] eqn:Hr; cbn [option_list]; [by rewrite (outstanding_delete _ _ _ Hr), Permutation_cons_append|].
        by rewrite delete_id, app_nil_r.
      * intros out1 reading1 id1 r' [= <- <-] [_ Hr']%lookup_delete_Some. by eapply ck_outstanding.
      * intros r bs (x & [= -> Hv] & Hx)%list_elem_of_fmap. exists p. split_and!; [apply elem_of_app; right; left| |done].
        destruct (out !! id) as [r'|] eqn:Hr; [|by apply not_elem_of_nil in Hx]. apply list_elem_of_singleton in Hx as ->.
        by rewrite (ck_outstanding _ Hok out true id r' Hw Hr).
    + apply with_worker_ok; [by apply receive_ok| | |by intros ? ? ?%not_elem_of_nil]; cbn [receive cl_queue cl_worker cl_received].
      * rewrite Hw. cbn. by rewrite app_nil_r.
      * intros out1 reading1 id1 r' [= <- <-] Hr'. by eapply ck_outstanding.
  - by apply receive_ok.
  - apply (disconnect_ok _ _ _ _ []); [done|done|]. rewrite Hw, Hd. cbn [in_flight]. by rewrite app_nil_r.
  - apply with_worker_ok; [done| |done|intros ? ?; apply no_values]. rewrite Hw, answered_requests, Hd. done.
  - apply with_worker_ok; [done| | |by intros ? ? ?%not_elem_of_nil].
    + rewrite Hw. cbn. by rewrite app_nil_r.
    + intros out1 reading1 id1 r' [= <- <-] Hr'. by eapply ck_outstanding.
  - apply with_worker_ok; [by apply count_connection_ok| |done|intros ? ?; apply no_values]. cbn [count_connection cl_queue cl_worker].
    rewrite Hq, Hw. cbn [in_flight app]. by rewrite answered_requests, app_nil_r.
Qed.
Lemma client_reachable_ok t st : client_reachable t st -> client_ok st.
Proof. intros Hr. induction Hr as [|st st' _ IH Hstep]; [apply initial_client_ok|by eapply cstep_ok]. Qed.

(** ** Theorems *)

(** C16: whatever the server and the network do, a request is answered at most once,
    and it is answered with bytes only if a payload with the id of this request
    was received with them. *)
Theorem answered_at_most_once t st :
  client_reachable t st ->
  NoDup (pr_responder <$> (cl_answers st).*1) /\
  forall r bs, (r, inl bs) ∈ cl_answers st -> exists p, p ∈ cl_received st /\ py_id p = py_id (pr_request r) /\ py_value p = inl bs.
Proof.
  intros Hr%client_reachable_ok. split; [|apply (ck_values _ Hr)]. pose proof (NoDup_seq 0 (cl_responders st)) as Hnd.
  rewrite (ck_places _ Hr) in Hnd. unfold responders in Hnd. rewrite !fmap_app in Hnd.
  apply NoDup_app in Hnd as (_ & _ & Hnd). by apply NoDup_app in Hnd as (_ & _ & Hnd).
Qed.

(** C17: no request is forgotten: when the worker waits for requests and there are
    none, every request that was ever sent has been answered, also those that
    were outstanding when a connection was lost. *)
Theorem idle_answered t st e responder :
  client_reachable t st -> cl_worker st = Idle e -> cl_queue st = [] -> (responder < cl_responders st)%nat ->
  exists r value, (r, value) ∈ cl_answers st /\ pr_responder r = responder.
Proof.
  intros Hr%client_reachable_ok Hw Hq Hn. assert (responder ∈ seq 0 (cl_responders st)) as Hin by (apply elem_of_seq; lia).
  rewrite (ck_places _ Hr), Hw, Hq in Hin. cbn in Hin. apply list_elem_of_fmap in Hin as (r & -> & Hin).
  apply list_elem_of_fmap in Hin as ([r' value] & -> & Hin). by exists r', value.
Qed.
End Client.
