(* ===== verification/Remote.v ===== *)
(** * Remote storages and databases

    The methods of [AsyncClient] ([bonsaidb-client/src/client.rs]), of
    [AsyncRemoteDatabase] ([client/remote_database.rs]) and of its subscribers
    and keys: each sends one request and returns what it is answered.

    How a request is sent is an argument; [exchange] composes it from the worker
    of a client and the server of [Server]. *)

From Stdlib Require Import ZArith Lia String.
From stdpp Require Import base list option numbers gmap sets.
From S2P Require Import Prelude Bytes Utf8 Timestamp Numeric Key Range Time Nebari Document Names KeyValue Changes Schema Permissions View Query Transaction Tasks Vault Connection Admin Storage PubSub Networking Server Client.

Local Open Scope Z_scope.

Section Api.
Context `{Nebari} `{Actionable} `{!ApiFormats} {N : Type}.
(** [send_request]: a session, a name and the bytes of a request. *)
Context (send_request : option Z -> ApiName -> bytes -> stm N CoreError bytes).
(** The session of the client. *)
Context (session : option Z).
Abbreviation clientm := (stm N CoreError).

(** [send_api_request]; errors of the api and of the client are one enum here. *)
Definition send_api_request (a : api) (r : request a) : clientm (response a) :=
  bs ← st_lift (ok_or pot_error (request_to_vec a r));
  response ← send_request session (api_name a) bs;
  result ← st_lift (ok_or pot_error (result_from_slice a response));
  st_lift (to_res result).

(** ** [AsyncStorageConnection for AsyncClient] *)

Definition client_create_database_with_schema (name : str) (schema : SchemaName) (only_if_needed : bool) : clientm unit :=
  send_api_request ApiCreateDatabase (MkCreateDatabaseReq name schema only_if_needed).
Definition client_delete_database (name : str) : clientm unit := send_api_request ApiDeleteDatabase name.
Definition client_list_databases : clientm (list (str * SchemaName)) := send_api_request ApiListDatabases tt.
Definition client_list_available_schemas : clientm (list SchemaSummary) := send_api_request ApiListAvailableSchemas tt.
Definition client_create_user (username : str) : clientm Z := send_api_request ApiCreateUser username.
Definition client_delete_user (user : NamedReference Z) : clientm unit := send_api_request ApiDeleteUser user.
Definition client_set_user_password (user : NamedReference Z) (password : str) : clientm unit :=
  send_api_request ApiSetUserPassword (MkSetUserPasswordReq user password).
(** The handle of the new session remembers the connection, whose number is
    [counter]. *)
Definition client_authenticate (counter : N -> Z) (a : Authentication) : clientm ClientHandle :=
  session ← send_api_request ApiAuthenticate a; n ← st_get; mret (MkClientHandle session (counter n)).
Definition client_assume_identity (counter : N -> Z) (i : IdentityReference) : clientm ClientHandle :=
  session ← send_api_request ApiAssumeIdentity i; n ← st_get; mret (MkClientHandle session (counter n)).
Definition client_add_permission_group_to_user (user group : NamedReference Z) : clientm unit :=
  send_api_request ApiAlterUserPermissionGroupMembership (MkAlterMembershipReq user group true).
Definition client_remove_permission_group_from_user (user group : NamedReference Z) : clientm unit :=
  send_api_request ApiAlterUserPermissionGroupMembership (MkAlterMembershipReq user group false).
Definition client_add_role_to_user (user role : NamedReference Z) : clientm unit :=
  send_api_request ApiAlterUserRoleMembership (MkAlterMembershipReq user role true).
Definition client_remove_role_from_user (user role : NamedReference Z) : clientm unit :=
  send_api_request ApiAlterUserRoleMembership (MkAlterMembershipReq user role false).

(** ** [AsyncRemoteDatabase] *)

Context (database : str).

Definition remote_list_executed_transactions (starting_id result_limit : option Z) : clientm (list Executed) :=
  send_api_request ApiListExecutedTransactions (MkListExecutedReq database starting_id result_limit).
Definition remote_last_transaction_id : clientm (option Z) := send_api_request ApiLastTransactionId database.
Definition remote_compact : clientm unit := send_api_request ApiCompact database.
Definition remote_compact_key_value_store : clientm unit := send_api_request ApiCompactKeyValueStore database.
Definition remote_apply_transaction (transaction : list Operation) : clientm (list OperationResult) :=
  send_api_request ApiApplyTransaction (MkApplyTransactionReq database transaction).
Definition remote_get_from_collection (id : bytes) (collection : CollectionName) : clientm (option Doc) :=
  send_api_request ApiGet (MkGetReq database collection id).
Definition remote_get_multiple_from_collection (ids : list bytes) (collection : CollectionName) : clientm (list Doc) :=
  send_api_request ApiGetMultiple (MkGetMultipleReq database collection ids).
Definition remote_list_from_collection (ids : Range bytes) (order : Sort) (limit : option Z) (collection : CollectionName) : clientm (list Doc) :=
  send_api_request ApiList (MkListReq database collection ids order limit).
Definition remote_list_headers_from_collection (ids : Range bytes) (order : Sort) (limit : option Z) (collection : CollectionName)
    : clientm (list Header) :=
  send_api_request ApiListHeaders (MkListReq database collection ids order limit).
Definition remote_count_from_collection (ids : Range bytes) (collection : CollectionName) : clientm Z :=
  send_api_request ApiCount (MkCountReq database collection ids).
Definition remote_compact_collection_by_name (collection : CollectionName) : clientm unit :=
  send_api_request ApiCompactCollection (MkCompactCollectionReq database collection).
Definition remote_query_by_name (view : ViewName) (key : option SerializedQueryKey) (order : Sort) (limit : option Z)
    (access_policy : AccessPolicy) : clientm (list MapSerialized) :=
  send_api_request ApiQuery (MkQueryReq database view key order limit access_policy).
Definition remote_query_by_name_with_docs (view : ViewName) (key : option SerializedQueryKey) (order : Sort) (limit : option Z)
    (access_policy : AccessPolicy) : clientm MappedSerializedDocuments :=
  send_api_request ApiQueryWithDocs (MkQueryReq database view key order limit access_policy).
Definition remote_reduce_by_name (view : ViewName) (key : option SerializedQueryKey) (access_policy : AccessPolicy) : clientm bytes :=
  send_api_request ApiReduce (MkReduceReq database view key access_policy).
Definition remote_reduce_grouped_by_name (view : ViewName) (key : option SerializedQueryKey) (access_policy : AccessPolicy)
    : clientm (list MappedSerializedValue) :=
  send_api_request ApiReduceGrouped (MkReduceReq database view key access_policy).
Definition remote_delete_docs_by_name (view : ViewName) (key : option SerializedQueryKey) (access_policy : AccessPolicy) : clientm Z :=
  send_api_request ApiDeleteDocs (MkReduceReq database view key access_policy).
Definition remote_execute_key_operation (op : KeyOperation) : clientm Output :=
  send_api_request ApiExecuteKeyOperation (MkExecuteKeyOperationReq database op).

(** [AsyncLowLevelConnection for AsyncRemoteDatabase]. *)
Definition remote_connection (schematic : Schematic) : LowLevelConnection N := {|
  ll_schematic := schematic;
  ll_apply_transaction := remote_apply_transaction;
  ll_get_from_collection := remote_get_from_collection;
  ll_get_multiple_from_collection := remote_get_multiple_from_collection;
  ll_list_from_collection := remote_list_from_collection;
  ll_list_headers_from_collection := remote_list_headers_from_collection;
  ll_count_from_collection := remote_count_from_collection;
  ll_query_by_name := remote_query_by_name;
  ll_reduce_by_name := remote_reduce_by_name;
  ll_reduce_grouped_by_name := remote_reduce_grouped_by_name;
  ll_delete_docs_by_name := remote_delete_docs_by_name |}.

(** ** Subscribers *)

(** [on_subscribers] changes the map of subscribers of the client. *)
Context (on_subscribers : (gmap Z SubscriberChannel -> gmap Z SubscriberChannel) -> N -> N).

Record RemoteSubscriber := MkRemoteSubscriber { rs_database : str; rs_id : Z }.
Definition remote_create_subscriber : clientm RemoteSubscriber :=
  subscriber_id ← send_api_request ApiCreateSubscriber database;
  st_modify (on_subscribers (Client.register_subscriber subscriber_id));;
  mret (MkRemoteSubscriber database subscriber_id).
Definition remote_publish_bytes (topic payload : bytes) : clientm unit :=
  send_api_request ApiPublish (MkPublishReq database topic payload).
Definition remote_publish_bytes_to_all (topics : list bytes) (payload : bytes) : clientm unit :=
  send_api_request ApiPublishToAll (MkPublishToAllReq database topics payload).
Definition remote_subscribe_to_bytes (sub : RemoteSubscriber) (topic : bytes) : clientm unit :=
  send_api_request ApiSubscribeTo (MkSubscribeToReq (rs_database sub) (rs_id sub) topic).
Definition remote_unsubscribe_from_bytes (sub : RemoteSubscriber) (topic : bytes) : clientm unit :=
  send_api_request ApiUnsubscribeFrom (MkSubscribeToReq (rs_database sub) (rs_id sub) topic).
(** [unregister_subscriber_async]: the answer is ignored. *)
Definition remote_unregister_subscriber (sub : RemoteSubscriber) : clientm unit := fun n =>
  let '(_, n) := send_api_request ApiUnregisterSubscriber (MkUnregisterSubscriberReq (rs_database sub) (rs_id sub)) n in
  (Ok tt, on_subscribers (Client.unregister_subscriber (rs_id sub)) n).
End Api.

(** ** A client and a server *)

Section Exchange.
Context `{Nebari} `{Actionable} `{!AdminFormats} `{Blake3} `{PasswordHasher} `{!StorageIO} `{Profile} `{!ApiFormats}.
Context {St K R : Type} `{!LowLevelConnection St} `{!Relay R}.
Context (ops : OpenDatabase -> DatabaseOps St K) (new_contents : St * K) (default_session : Session).
Abbreviation Link := (ClientState * Server St K R)%type.

(** What the server answers a payload of a client with; nothing if the worker
    panics. *)
Definition serve (env : Ambient) (client : nat) (p : Payload) (s : Server St K R) : option Payload * Server St K R :=
  match worker_handle new_contents (register_api_handlers ops new_contents ∅) env client (request_session default_session client p s) p s with
  | (Ok bs, s) => (Some (response_payload p (inl bs)), s)
  | (Err e, s) => (Some (response_payload p (inr e)), s)
  | (Panic, s) => (None, s)
  end.
(** The worker of the client sends the request it has queued. *)
Definition send_queued (c : ClientState) : ClientState :=
  match cl_worker c, cl_queue c with
  | Connected out reading, r :: rest =>
      with_worker rest (Connected (<[request_id_of r := r]> out) reading)
        ((fun old => (old, inr disconnected)) <$> option_list (out !! request_id_of r)) c
  | _, _ => c
  end.
(** It processes a payload. *)
Definition process_payload (p : Payload) (c : ClientState) : ClientState :=
  match cl_worker c, run_callback p (cl_subscribers c) with
  | Connected out true, Some m =>
      let '(answered, out') := process_response_payload p out in
      with_worker (cl_queue c) (Connected out' true) ((fun r => (r, py_value p)) <$> option_list answered) (receive p m c)
  | _, _ => c
  end.
(** [send_request] when nothing else happens: the request is queued and sent, the
    server handles it, and the client receives the response. *)
Definition exchange (env : Ambient) (client : nat) (session : option Z) (name : ApiName) (bs : bytes) : stm Link CoreError bytes := fun l =>
  match send_request_without_confirmation session name bs l.1 with
  | (Ok responder, c) =>
      let c := send_queued c in
      let '(response, s) := serve env client (MkPayload session (Some (cl_request_id l.1)) name (inl bs)) l.2 in
      let c := match response with Some p => process_payload p c | None => c end in
      (receive_answer responder c, (c, s))
  | (Err e, c) => (Err e, (c, l.2))
  | (Panic, c) => (Panic, (c, l.2))
  end.
Definition on_link_subscribers (f : gmap Z SubscriberChannel -> gmap Z SubscriberChannel) (l : Link) : Link :=
  (set_subscribers (f (cl_subscribers l.1)) l.1, l.2).
End Exchange.
