(* ===== verification/RemoteLaws.v ===== *)
(** * Remote databases behave like local ones

    A call of a client over an established connection returns what the handler
    returns on the server, with the rights of the session the client sent.  What
    such a request does to the state of the server gives the laws of
    [ConnectionTheorems] for the connection of a client to a database whose
    connection on the server keeps them.  With them every theorem on typed
    collections, views and entries holds for remote databases too. *)

From Stdlib Require Import ZArith Lia String.
From stdpp Require Import base list option numbers gmap sets.
From S2P Require Import Prelude Bytes Utf8 Digits Timestamp Numeric Key KeyLaws Range Time Nebari Document Names KeyValue Changes Schema Permissions View Query Integrity Jobs Transaction Tasks StoreDemo ViewBatch TransactionLaws TransactionSpec QueryLaws TasksLaws TasksTheorems Vault Connection ConnectionTheorems DatabaseLaws Admin Storage StorageSessions PubSub Networking Server ServerTheorems Client Remote.

Local Open Scope Z_scope.

Section RemoteTheorems.
Context `{Nebari} `{Actionable} `{!AdminFormats} `{Blake3} `{PasswordHasher} `{!StorageIO} `{Profile} `{!ApiFormats}.
Context {St K R : Type} `{!LowLevelConnection St} `{!Relay R}.
Context (ops : OpenDatabase -> DatabaseOps St K) (new_contents : St * K) (default_session : Session).
Abbreviation Link := (ClientState * Server St K R)%type.
Implicit Types (c : ClientState) (s : Server St K R) (d : Data St).

(** ** The client's part *)

(** Connected, and nothing waits to be sent. *)
Record link_ok c : Prop := {
  lk_client : client_ok c;
  lk_queue : cl_queue c = [];
  lk_worker : exists out, cl_worker c = Connected out true
}.

(** Sending and receiving are steps of the worker. *)
Lemma send_queued_step t c out reading r rest :
  cl_worker c = Connected out reading -> cl_queue c = r :: rest -> cstep t c (send_queued c).
Proof. intros Hw Hq. unfold send_queued. rewrite Hw, Hq. by apply cstep_send. Qed.
Lemma process_payload_step t c out p m :
  cl_worker c = Connected out true -> run_callback p (cl_subscribers c) = Some m -> cstep t c (process_payload p c).
Proof.
  intros Hw Hm. unfold process_payload. rewrite Hw, Hm. destruct (process_response_payload p out) as [answered out'] eqn:Hp. by eapply cstep_response.
Qed.

Lemma find_new (l : list (PendingRequest * (bytes + CoreError))) x :
  (forall y, y ∈ l -> pr_responder y.1 <> pr_responder x.1) ->
  list_find (fun y => pr_responder y.1 = pr_responder x.1) (l ++ [x]) = Some (length l, x).
Proof.
  intros Hl. apply list_find_Some. split_and!; [by rewrite lookup_app_r, Nat.sub_diag by lia|done|].
  intros j y Hj Hlt. rewrite lookup_app_l in Hj by done. apply Hl. by eapply list_elem_of_lookup_2.
Qed.

(** The caller gets the value the server has answered with. *)
Lemma exchange_run env client session name bs c s :
  link_ok c ->
  let p := MkPayload session (Some (cl_request_id c)) name (inl bs) in
  let '(response, s') := serve ops new_contents default_session env client p s in
  exists c', link_ok c' /\ exchange ops new_contents default_session env client session name bs (c, s) =
    (match response with Some q => to_res (py_value q) | None => Err request_timeout end, (c', s')).
Proof.
  intros [Hok Hq (out & Hw)] p. destruct (serve ops new_contents default_session env client p s) as [response s'] eqn:Hserve.
  unfold exchange. cbn [fst snd].
  destruct (send_request_without_confirmation session name bs c) as [sent c1] eqn:Hsend.
  assert (client_ok c1) as Hok1.
  { destruct sent as [n|e|]; [by eapply (cstep_ok Quic); [|eapply cstep_submit]|..];
      unfold send_request_without_confirmation in Hsend; rewrite Hw in Hsend; discriminate. }
  unfold send_request_without_confirmation in Hsend. rewrite Hw, Hq in Hsend. cbn [app] in Hsend.
  set (r := MkPendingRequest p (cl_responders c)) in *. fold p in Hsend. fold r in Hsend. injection Hsend as <- Hc1.
  fold p. rewrite Hserve.
  assert (cl_worker c1 = Connected out true) as Hw1 by (by subst c1). assert (cl_queue c1 = [r]) as Hq1 by (by subst c1).
  pose proof (cstep_ok Quic _ _ Hok1 (send_queued_step Quic c1 out true r [] Hw1 Hq1)) as Hok2.
  set (c2 := send_queued c1) in *.
  assert (cl_worker c2 = Connected (<[cl_request_id c := r]> out) true) as Hw2 by (unfold c2, send_queued; by rewrite Hw1, Hq1).
  assert (cl_queue c2 = []) as Hq2 by (unfold c2, send_queued; by rewrite Hw1, Hq1).
  assert (forall y, y ∈ cl_answers c2 -> pr_responder y.1 <> pr_responder r) as Hnew.
  { intros y Hy Heq. pose proof (NoDup_seq 0 (cl_responders c2)) as Hnd. rewrite (ck_places _ Hok2), Hw2, Hq2 in Hnd. cbn [in_flight app] in Hnd.
    unfold responders in Hnd. rewrite fmap_app in Hnd. apply NoDup_app in Hnd as (_ & Hdis & _). apply (Hdis (pr_responder r)).
    - apply list_elem_of_fmap. exists r. split; [done|]. apply list_elem_of_fmap. exists (cl_request_id c, r). split; [done|].
      apply elem_of_map_to_list, lookup_insert_eq.
    - apply list_elem_of_fmap. exists y.1. split; [done|]. apply list_elem_of_fmap. by exists y. }
  destruct response as [q|]; cycle 1.
  { exists c2. split; [split; [done|done|by eexists]|]. do 2 f_equal. unfold receive_answer.
    assert (list_find (fun x => pr_responder x.1 = cl_responders c) (cl_answers c2) = None) as ->; [|done].
    apply list_find_None, Forall_forall. intros y Hy. by apply Hnew. }
  assert (py_id q = Some (cl_request_id c)) as Hid.
  { unfold serve in Hserve. destruct (worker_handle _ _ _ _ _ _ _) as [[]]; [by injection Hserve as <- _..|done]. }
  assert (run_callback q (cl_subscribers c2) = Some (cl_subscribers c2)) as Hcb by (unfold run_callback; by rewrite Hid).
  pose proof (cstep_ok Quic _ _ Hok2 (process_payload_step Quic c2 _ q _ Hw2 Hcb)) as Hok3.
  assert (process_payload q c2 = with_worker [] (Connected (delete (cl_request_id c) (<[cl_request_id c := r]> out)) true)
    [(r, py_value q)] (receive q (cl_subscribers c2) c2)) as Hc3.
  { unfold process_payload. rewrite Hw2, Hcb, Hq2. unfold process_response_payload. by rewrite Hid, lookup_insert_eq. }
  rewrite Hc3 in *. eexists. split; [split; [exact Hok3|done|by eexists]|]. do 2 f_equal. unfold receive_answer.
  cbn [with_worker receive cl_answers]. pose proof (find_new (cl_answers c2) (r, py_value q) Hnew) as Hf. cbn [fst pr_responder r] in Hf. by rewrite Hf.
Qed.

(** ** The whole call *)

Definition delivered {A} (r : res CoreError A) : res CoreError A := match r with Panic => Err request_timeout | _ => r end.
(** The state after a request: the storage of the client is dropped. *)
Definition finished (st : Storage) s : Server St K R := with_data new_contents (drop_storage st (sv_data s)) (sv_relay s) s.
Definition payload_of (session : option Z) (name : ApiName) : Payload := MkPayload session None name (inl []).

Context `{!ApiFormatLaws}.
Abbreviation call := (fun env client session => send_api_request (exchange ops new_contents default_session env client) session).

(** C12: A call over an established connection does on the server what the handler
    of the request does for the session the client names, and returns what the
    handler returns, errors included; a handler that panics leaves the caller
    waiting until it times out. *)
Theorem remote_call_local env client session a (r : request a) c s bs st s1 result s2 :
  link_ok c -> request_to_vec a r = Some bs ->
  on_storage new_contents (assume_session unauthenticated (request_session default_session client (payload_of session (api_name a)) s)) s = (Ok st, s1) ->
  handle ops new_contents env a (MkHandlerSession client st) r s1 = (result, s2) ->
  (forall x, result = Ok x -> is_Some (result_to_vec a (inl x))) ->
  exists c', link_ok c' /\ call env client session a r (c, s) = (delivered result, (c', finished st s2)).
Proof.
  intros Hc Hbs Hst Hh Henc. unfold send_api_request.
  rewrite (stm_bind_Ok (st_lift _) _ (c, s) bs (c, s)) by (unfold st_lift; by rewrite Hbs).
  pose proof (exchange_run env client session (api_name a) bs c s Hc) as Hrun. cbn zeta in Hrun. set (p := MkPayload _ _ _ _) in Hrun.
  unfold serve in Hrun. change (request_session default_session client p s)
    with (request_session default_session client (payload_of session (api_name a)) s) in Hrun.
  unfold worker_handle in Hrun. rewrite (stm_bind_Ok _ _ _ _ _ Hst) in Hrun. unfold act_as in Hrun. cbn [py_value p] in Hrun.
  rewrite (stm_bind_Ok (st_lift (Ok bs)) _ s1 bs s1) in Hrun by done. change (py_name p) with (api_name a) in Hrun.
  rewrite dispatch_builtin, (builtin_run _ _ _ _ _ _ _ _ (request_roundtrip _ _ _ Hbs)), Hh in Hrun. cbn [fst snd] in Hrun.
  fold (finished st s2) in Hrun. destruct result as [x|e|]; cbn [encoded_result mbind res_bind] in Hrun.
  - destruct (Henc x eq_refl) as [b Hb]. rewrite Hb in Hrun. cbn [ok_or] in Hrun. destruct Hrun as (c' & Hc' & Hrun). exists c'. split; [done|].
    cbn [py_value response_payload to_res] in Hrun. rewrite (stm_bind_Ok _ _ _ _ _ Hrun). unfold mbind, stm_bind, st_lift.
    by rewrite (result_roundtrip _ _ _ Hb).
  - destruct Hrun as (c' & Hc' & Hrun). exists c'. split; [done|]. cbn [py_value response_payload to_res] in Hrun. by rewrite (stm_bind_Err _ _ _ _ _ Hrun).
  - destruct Hrun as (c' & Hc' & Hrun). exists c'. split; [done|]. by rewrite (stm_bind_Err _ _ _ _ _ Hrun).
Qed.
End RemoteTheorems.

Section RemoteLaws.
Context `{Nebari} `{Actionable} `{!AdminFormats} `{Blake3} `{PasswordHasher} `{!StorageIO} `{Profile} `{!ApiFormats}.
Context {St K R : Type} `{!LowLevelConnection St} `{!Relay R}.
Context (ops : OpenDatabase -> DatabaseOps St K) (new_contents : St * K) (default_session : Session).
Abbreviation Link := (ClientState * Server St K R)%type.
Implicit Types (c : ClientState) (s : Server St K R) (d : Data St).

(** A client, the session it names, and a database with the session it is
    opened with. *)
Context (client : nat) (session : option Z) (name : str) (schema : SchemaName) (effective : Session).
Definition served_database : OpenDatabase := MkOpenDatabase name schema (Some effective).
Definition sent_session s : Session := request_session default_session client (payload_of session message_received_name) s.

(** The session the client names can be assumed, with these rights. *)
Definition acts_with (x : Session) d : Prop :=
  match session_id x with
  | None => x = effective
  | Some id => id ∈ registered d /\ exists a, authenticated d !! id = Some a /\
      effective = MkSession (session_id (as_session a)) (authentication (as_session a)) (permissions_merged [permissions x; permissions (as_session a)])
  end.
Record served s : Prop := {
  se_name : available_databases (sv_data s) !! name = Some schema;
  se_schema : is_Some (schemas (sv_data s) !! schema);
  se_open : name ∈ open_names (sv_data s) \/ open_error name = None;
  se_acts : acts_with (sent_session s) (sv_data s)
}.

(** ** What a request leaves alone *)

Record same_data d d' : Prop := {
  sd_available : available_databases d' = available_databases d;
  sd_schemas : schemas d' = schemas d;
  sd_open : open_names d ⊆ open_names d';
  sd_folders : folders d ⊆ folders d';
  sd_registered : registered d' = registered d
}.
Lemma same_data_refl d : same_data d d.
Proof. by split. Qed.
Lemma same_data_trans d1 d2 d3 : same_data d1 d2 -> same_data d2 d3 -> same_data d1 d3.
Proof. intros [] []. split; try congruence; by etrans. Qed.
Lemma with_data_contents d r s n :
  same_data (sv_data s) d -> admin_state d = admin_state (sv_data s) -> contents_of n (with_data new_contents d r s) = contents_of n s.
Proof.
  intros Hd Ha. unfold contents_of. cbn [with_data sv_data sv_contents]. rewrite Ha, (decide_False (P := n ∈ folders (sv_data s) /\ n ∉ folders d)); [done|].
  intros [Hin Hout]. by apply Hout, (sd_folders _ _ Hd).
Qed.
Lemma set_contents_same n x s :
  contents_of n (set_contents n x s) = x /\ same_data (sv_data s) (sv_data (set_contents n x s)) /\
  authenticated (sv_data (set_contents n x s)) = authenticated (sv_data s).
Proof.
  unfold contents_of, set_contents. cbn [sv_data sv_contents]. rewrite (decide_True (P := n = n)) by done.
  destruct x as [x k]. destruct (decide (n = ADMIN_DATABASE_NAME)); (split; [done|split; [by split|done]]).
Qed.

(** The storage a worker makes for a session, and what dropping it undoes. *)
Lemma assume_run x d :
  acts_with x d -> exists st d1, assume_session unauthenticated x d = (Ok st, d1) /\ effective_session st = Some effective /\
    same_data d d1 /\ admin_state d1 = admin_state d /\
    (forall d2, same_data d1 d2 -> authenticated d2 = authenticated d1 ->
       same_data d2 (drop_storage st d2) /\ admin_state (drop_storage st d2) = admin_state d2 /\
       authenticated (drop_storage st d2) = authenticated d).
Proof.
  unfold acts_with, assume_session. cbn [st_authentication unauthenticated]. destruct (session_id x) as [id|].
  - intros (Hr & a & Ha & ->). exists (MkStorage (Some id) (Some (MkSession (session_id (as_session a)) (authentication (as_session a))
      (permissions_merged [permissions x; permissions (as_session a)])))), (set_storages S id d). split_and!; [|done|by split|done|].
    { unfold mbind, stm_bind, st_get. rewrite decide_True by done. rewrite Ha. done. }
    intros d2 Hd2 Hau. unfold drop_storage. cbn [st_authentication]. unfold release.
    assert (authenticated (set_storages Nat.pred id d2) = authenticated d) as Hback.
    { cbn. rewrite Hau. cbn. apply map_eq. intros k. destruct (decide (k = id)) as [->|]; [|by rewrite !lookup_alter_ne].
      rewrite !lookup_alter_eq, Ha. by destruct a. }
    rewrite Hback, Ha, decide_False; [by split_and!|].
    intros [_ Hn]. apply Hn. change (id ∈ registered d2). rewrite (sd_registered _ _ Hd2). done.
  - intros ->. exists (MkStorage None (Some effective)), d. split_and!; [done|done|apply same_data_refl|done|].
    intros d2 _ Hau. split_and!; [apply same_data_refl|done|done].
Qed.
Lemma open_run d st :
  available_databases d !! name = Some schema -> is_Some (schemas d !! schema) -> name ∈ open_names d \/ open_error name = None ->
  effective_session st = Some effective ->
  exists d1, database_without_schema name (Some st) None d = (Ok served_database, d1) /\ same_data d d1 /\
    authenticated d1 = authenticated d /\ admin_state d1 = admin_state d.
Proof.
  intros Hn [sch Hs] Ho He. unfold database_without_schema. rewrite (stm_bind_Ok st_get _ d d d) by done.
  rewrite (stm_bind_Ok (st_lift _) _ d schema d) by (unfold st_lift; by rewrite Hn). rewrite (stm_bind_Ok (st_lift (Ok tt)) _ d tt d) by done. rewrite Hs.
  unfold open_roots, mbind, stm_bind. case_decide as Hin.
  - exists d. split_and!; [|apply same_data_refl|done|done]. unfold served_database. cbn. by rewrite He.
  - destruct Ho as [?|Ho]; [done|]. rewrite Ho. eexists. split_and!; [unfold served_database; cbn; by rewrite He| |done|done].
    split; cbn; (done || set_solver).
Qed.

(** A request to the database: its documents become those its connection leaves,
    and it can be asked again. *)
Lemma database_request {A} (m : OpenDatabase -> stm St CoreError A) s res x' :
  served s -> m served_database (contents_of name s).1 = (res, x') ->
  exists st s1 s2, on_storage new_contents (assume_session unauthenticated (sent_session s)) s = (Ok st, s1) /\
    (db ← hs_database new_contents (MkHandlerSession client st) name; in_documents db (m db)) s1 = (res, s2) /\
    served (finished new_contents st s2) /\ (contents_of name (finished new_contents st s2)).1 = x'.
Proof.
  intros [Hn Hs Ho Hacts] Hm. destruct (assume_run _ _ Hacts) as (st & d1 & Hst & Heff & Hd1 & Ha1 & Hdrop).
  set (s1 := with_data new_contents d1 (sv_relay s) s).
  assert (on_storage new_contents (assume_session unauthenticated (sent_session s)) s = (Ok st, s1)) as Hst1 by (unfold on_storage; by rewrite Hst).
  destruct (open_run d1 st) as (d2 & Hopen & Hd2 & Hau2 & Ha2); [by rewrite (sd_available _ _ Hd1)|by rewrite (sd_schemas _ _ Hd1)| |done|].
  { destruct Ho; [left; by apply (sd_open _ _ Hd1)|by right]. }
  set (s2 := with_data new_contents d2 (sv_relay s1) s1).
  assert (hs_database new_contents (MkHandlerSession client st) name s1 = (Ok served_database, s2)) as Hdb.
  { unfold hs_database, on_storage. cbn [hs_as_client]. change (sv_data s1) with d1. by rewrite Hopen. }
  assert (contents_of name s2 = contents_of name s) as Hc2.
  { unfold s2. rewrite with_data_contents by done. unfold s1. by rewrite with_data_contents. }
  set (s3 := set_contents name (x', (contents_of name s2).2) s2).
  destruct (set_contents_same name (x', (contents_of name s2).2) s2) as (Hc3 & Hd3 & Hau3). fold s3 in Hc3, Hd3, Hau3. change (sv_data s2) with d2 in Hd3, Hau3.
  destruct (Hdrop (sv_data s3)) as (Hd4 & Ha4 & Hau4); [by eapply same_data_trans|by rewrite Hau3|].
  exists st, s1, s3. split_and!; [done| | |].
  - rewrite (stm_bind_Ok _ _ _ _ _ Hdb). unfold in_documents. cbn [served_database od_name]. fold served_database. by rewrite Hc2, Hm, <- Hc2.
  - assert (same_data (sv_data s) (sv_data (finished new_contents st s3))) as Hall.
    { eapply same_data_trans; [exact Hd1|]. eapply same_data_trans; [exact Hd2|]. eapply same_data_trans; [exact Hd3|exact Hd4]. }
    split; [by rewrite (sd_available _ _ Hall)|by rewrite (sd_schemas _ _ Hall)| |].
    + destruct Ho; [left; by apply (sd_open _ _ Hall)|by right].
    + change (sent_session (finished new_contents st s3)) with (sent_session s). unfold acts_with. rewrite (sd_registered _ _ Hall).
      change (authenticated (sv_data (finished new_contents st s3))) with (authenticated (drop_storage st (sv_data s3))). by rewrite Hau4.
  - unfold finished. rewrite with_data_contents by done. by rewrite Hc3.
Qed.

(** ** The laws *)

(** The requests the laws are about, and that they and their responses can be
    serialized. *)
Definition document_apis : list api := [ApiApplyTransaction; ApiGet; ApiGetMultiple; ApiList; ApiQuery].
Class DocumentFormats : Prop := document_formats a :
  a ∈ document_apis -> (forall r : request a, is_Some (request_to_vec a r)) /\ (forall x : response a, is_Some (result_to_vec a (inl x))).

Context `{!ApiFormatLaws} `{!DocumentFormats} (env : Ambient).
Abbreviation link_call := (send_api_request (exchange ops new_contents default_session env client) session).

Lemma remote_request a (r : request a) (m : OpenDatabase -> stm St CoreError (response a)) c s res x' :
  a ∈ document_apis -> (forall h, handle ops new_contents env a h r = (db ← hs_database new_contents h name; in_documents db (m db))) ->
  link_ok c -> served s -> m served_database (contents_of name s).1 = (res, x') ->
  exists c' s', link_call a r (c, s) = (delivered res, (c', s')) /\ link_ok c' /\ served s' /\ (contents_of name s').1 = x'.
Proof.
  intros Ha Hh Hc Hs Hm. destruct (document_formats a Ha) as [Hreq Hres]. destruct (Hreq r) as [bs Hbs].
  destruct (database_request m s res x' Hs Hm) as (st & s1 & s2 & Hst & Hrun & Hs' & Hx'). rewrite <- Hh in Hrun.
  destruct (remote_call_local ops new_contents default_session env client session a r c s bs st s1 res s2 Hc Hbs Hst Hrun) as (c' & Hc' & Hcall);
    [intros x _; apply Hres|].
  by exists c', (finished new_contents st s2).
Qed.

Context (conn_ok : St -> Prop) (documents : St -> Database).
Abbreviation local_connection := (conn_of ops served_database).
Context {Hdigest : Digest} {Hlaws : @ConnectionLaws _ _ St local_connection Hdigest conn_ok documents}.

Definition remote : LowLevelConnection Link :=
  remote_connection (exchange ops new_contents default_session env client) session name (ll_schematic (LowLevelConnection := local_connection)).
Definition remote_ok (l : Link) : Prop := link_ok l.1 /\ served l.2 /\ conn_ok (contents_of name l.2).1.
Definition remote_documents (l : Link) : Database := documents (contents_of name l.2).1.

(** What a request returned, and the local call it stands for. *)
Lemma remote_run a (r : request a) (m : OpenDatabase -> stm St CoreError (response a)) l res l' :
  a ∈ document_apis -> (forall h, handle ops new_contents env a h r = (db ← hs_database new_contents h name; in_documents db (m db))) ->
  remote_ok l -> link_call a r l = (res, l') ->
  exists local x', m served_database (contents_of name l.2).1 = (local, x') /\ res = delivered local /\
    link_ok l'.1 /\ served l'.2 /\ (contents_of name l'.2).1 = x'.
Proof.
  destruct l as [c s]. intros Ha Hh (Hc & Hs & Hok) Hrun. destruct (m served_database (contents_of name s).1) as [local x'] eqn:Hm.
  destruct (remote_request a r m c s local x' Ha Hh Hc Hs Hm) as (c' & s' & Hcall & Hc' & Hs' & Hx'). rewrite Hcall in Hrun. injection Hrun as <- <-.
  by exists local, x'.
Qed.

(** A remote database keeps the laws of a connection. *)
#[export] Instance remote_laws : @ConnectionLaws _ _ Link remote Hdigest remote_ok remote_documents.
Proof.
  split.
  - intros tx l r l' Hok Hrun.
    destruct (remote_run ApiApplyTransaction (MkApplyTransactionReq name tx) (fun db => ll_apply_transaction (LowLevelConnection := conn_of ops db) tx)
      l r l' ltac:(set_solver) ltac:(done) Hok Hrun) as (local & x' & Hm & -> & Hc' & Hs' & Hx').
    destruct Hok as (_ & _ & Hok). destruct (law_apply _ _ _ _ Hok Hm) as [Hok' Hr]. unfold remote_documents. rewrite Hx'.
    split; [by split_and!; rewrite ?Hx'|]. destruct local; [done|done|by split].
  - intros d c l r l' Hok Hwf Hrun.
    destruct (remote_run ApiGet (MkGetReq name c d) (fun db => ll_get_from_collection (LowLevelConnection := conn_of ops db) d c)
      l r l' ltac:(set_solver) ltac:(done) Hok Hrun) as (local & x' & Hm & -> & Hc' & Hs' & Hx').
    destruct Hok as (_ & _ & Hok). destruct (law_get _ _ _ _ _ Hok Hwf Hm) as (Hok' & Hsame & Hr & He). unfold remote_documents. rewrite Hx'.
    split; [by split_and!; rewrite ?Hx'|]. split; [done|]. destruct local; [by split; [|done]|by split|by split].
  - intros ids c l r l' Hok Hwf Hrun.
    destruct (remote_run ApiGetMultiple (MkGetMultipleReq name c ids) (fun db => ll_get_multiple_from_collection (LowLevelConnection := conn_of ops db) ids c)
      l r l' ltac:(set_solver) ltac:(done) Hok Hrun) as (local & x' & Hm & -> & Hc' & Hs' & Hx').
    destruct Hok as (_ & _ & Hok). destruct (law_get_multiple _ _ _ _ _ Hok Hwf Hm) as (Hok' & Hsame & Hr). unfold remote_documents. rewrite Hx'.
    split; [by split_and!; rewrite ?Hx'|]. split; [done|]. by destruct local.
  - intros c l r l' Hok Hwf Hrun.
    destruct (remote_run ApiList (MkListReq name c from_range_full Ascending None)
      (fun db => ll_list_from_collection (LowLevelConnection := conn_of ops db) from_range_full Ascending None c)
      l r l' ltac:(set_solver) ltac:(done) Hok Hrun) as (local & x' & Hm & -> & Hc' & Hs' & Hx').
    destruct Hok as (_ & _ & Hok). destruct (law_list _ _ _ _ Hok Hwf Hm) as (Hok' & Hsame & Hr). unfold remote_documents. rewrite Hx'.
    split; [by split_and!; rewrite ?Hx'|]. split; [done|]. by destruct local.
  - intros vn v key order l r l' Hok Hv Hwf Hrun. change (view_by_name (@ll_schematic _ _ St local_connection) vn = Ok v) in Hv.
    destruct (remote_run ApiQuery (MkQueryReq name vn key order None UpdateBefore)
      (fun db => ll_query_by_name (LowLevelConnection := conn_of ops db) vn key order None UpdateBefore)
      l r l' ltac:(set_solver) ltac:(done) Hok Hrun) as (local & x' & Hm & -> & Hc' & Hs' & Hx').
    destruct Hok as (_ & _ & Hok). destruct (law_query _ _ _ _ _ _ _ Hok Hv Hwf Hm) as (Hok' & Hsame & Hr). unfold remote_documents. rewrite Hx'.
    split; [by split_and!; rewrite ?Hx'|]. split; [done|]. by destruct local.
  - intros c l d doc (_ & _ & Hok) Hwf Hd. exact (@law_ids _ _ St local_connection Hdigest conn_ok documents Hlaws _ _ _ _ Hok Hwf Hd).
Qed.

(** C9: A remote database keeps the laws of a connection: over an established
    connection, applying a transaction, reading documents and querying views
    return what the laws say of the documents the database has on the server,
    whatever the server has been asked before; and each leaves the connection
    established and the database served. *)
Theorem remote_database_laws : @ConnectionLaws _ _ Link remote Hdigest remote_ok remote_documents.
Proof. apply remote_laws. Qed.
End RemoteLaws.

(** The database behind the server is a local one: what a client asks of its
    documents over the network keeps the laws, with the jobs of the views run
    on the server. *)
Section RemoteDatabase.
Context `{NebariLaws} `{DocumentCodec} `{!DocumentCodecLaws _} `{ViewCodec} `{!ViewCodecLaws _} `{VersionCodec} `{!VersionCodecLaws _}
  `{Digest} `{ChangesCodec} `{Actionable}.
Context `{!AdminFormats} `{Blake3} `{PasswordHasher} `{!StorageIO} `{Profile} `{!ApiFormats} `{!ApiFormatLaws} `{!DocumentFormats} {K R : Type} `{!LowLevelConnection World} `{!Relay R}.
Context (schedule : list MapResult -> list MapResult) (Hsched : forall l, schedule l ≡ₚ l).
Context (schema : Schematic) (Hschema : schema_wf schema).
Context (Hnamed : forall c v, v ∈ views_in_collection schema c -> collection (view_name v) = c).
Context (ops : OpenDatabase -> DatabaseOps World K) (new_contents : World * K) (default_session : Session).
Context (client : nat) (session : option Z) (name : str) (schema_name : SchemaName) (effective : Session) (env : Ambient) (fuel : nat).
Context (Hops : do_connection (ops (served_database name schema_name effective)) = database_connection schedule schema name (Some effective) (S fuel)).

Corollary remote_local_laws :
  @ConnectionLaws _ _ _ (remote (R := R) ops new_contents default_session client session name schema_name effective env) _
    (remote_ok default_session client session name schema_name effective (connection_ok schema name))
    (remote_documents name documents_of).
Proof.
  assert (@ConnectionLaws _ _ _ (conn_of ops (served_database name schema_name effective)) _ (connection_ok schema name) documents_of) as Hlaws
    by (unfold conn_of; rewrite Hops; by apply local_database_laws).
  apply remote_laws; assumption.
Qed.
End RemoteDatabase.
