(* ===== verification/NetworkExamples.v ===== *)
(** * A concrete client and server

    Formats for requests and responses, a server with one database and a client
    connected to it, and the theorems on them at concrete states. *)

From Stdlib Require Import ZArith Lia String.
From stdpp Require Import base list option numbers gmap sets.
From S2P Require Import Prelude Bytes Utf8 Digits Timestamp Numeric Key KeyLaws Range Time Nebari Document Names KeyValue Changes Schema Permissions View Query Integrity Jobs Transaction Tasks StoreDemo ViewBatch TransactionLaws TransactionSpec QueryLaws TasksLaws TasksTheorems Vault Connection ConnectionTheorems Admin Storage StorageSessions StorageExamples PubSub Networking Server ServerTheorems ServerLoop Client Remote RemoteLaws.

Local Open Scope Z_scope.

Module NetworkDemo.
Import MemNebari StoreDemo StorageDemo.
#[local] Instance debug : Profile := true.
#[local] Existing Instances demo_formats demo_blake3 demo_hasher demo_io admin_connection PubSubExamples.fun_relay.

(** ** Formats *)

Section Formats.
Context `{Countable A}.
#[local] Instance Bound_eq_dec : EqDecision (Bound A).
Proof. solve_decision. Defined.
#[local] Instance Bound_countable : Countable (Bound A).
Proof.
  apply (inj_countable' (fun b => match b with Unbounded => inl tt | Included v => inr (inl v) | Excluded v => inr (inr v) end)
           (fun x => match x with inl _ => Unbounded | inr (inl v) => Included v | inr (inr v) => Excluded v end)). by intros [].
Defined.
#[local] Instance Range_eq_dec : EqDecision (Range A).
Proof. solve_decision. Defined.
#[local] Instance Range_countable : Countable (Range A).
Proof. apply (inj_countable' (fun r => (range_start r, range_end r)) (fun p => MkRange p.1 p.2)). by intros []. Defined.
#[local] Instance QueryKey_eq_dec : EqDecision (QueryKey A).
Proof. solve_decision. Defined.
#[local] Instance QueryKey_countable : Countable (QueryKey A).
Proof.
  apply (inj_countable' (fun k => match k with Matches v => inl v | InRange r => inr (inl r) | Multiple l => inr (inr l) end)
           (fun x => match x with inl v => Matches v | inr (inl r) => InRange r | inr (inr l) => Multiple l end)). by intros [].
Defined.
End Formats.
#[local] Existing Instances Bound_eq_dec Bound_countable Range_eq_dec Range_countable QueryKey_eq_dec QueryKey_countable.

#[local] Instance Sort_eq_dec : EqDecision Sort.
Proof. solve_decision. Defined.
#[local] Instance Sort_countable : Countable Sort.
Proof.
  apply (inj_countable' (fun s => match s with Ascending => true | Descending => false end) (fun b : bool => if b then Ascending else Descending)).
  by intros [].
Defined.
#[local] Instance AccessPolicy_eq_dec : EqDecision AccessPolicy.
Proof. solve_decision. Defined.
#[local] Instance AccessPolicy_countable : Countable AccessPolicy.
Proof.
  apply (inj_countable' (fun p => match p with UpdateBefore => Some true | UpdateAfter => Some false | NoUpdate => None end)
           (fun o => match o with Some true => UpdateBefore | Some false => UpdateAfter | None => NoUpdate end)). by intros [].
Defined.
#[local] Instance Command_eq_dec : EqDecision Transaction.Command.
Proof. solve_decision. Defined.
#[local] Instance Command_countable : Countable Transaction.Command.
Proof.
  apply (inj_countable'
    (fun c => match c with
              | Transaction.Insert d b => inl (inl (d, b)) | Transaction.Update h b => inl (inr (h, b))
              | Transaction.Overwrite d b => inr (inl (d, b)) | Transaction.Delete h => inr (inr (inl h)) | Transaction.Check d r => inr (inr (inr (d, r)))
              end)
    (fun x => match x with
              | inl (inl (d, b)) => Transaction.Insert d b | inl (inr (h, b)) => Transaction.Update h b
              | inr (inl (d, b)) => Transaction.Overwrite d b | inr (inr (inl h)) => Transaction.Delete h | inr (inr (inr (d, r))) => Transaction.Check d r
              end)). by intros [].
Defined.
#[local] Instance Operation_eq_dec : EqDecision Operation.
Proof. solve_decision. Defined.
#[local] Instance Operation_countable : Countable Operation.
Proof. apply (inj_countable' (fun o => (op_collection o, Transaction.command o)) (fun p => MkOperation p.1 p.2)). by intros []. Defined.
#[local] Instance OperationResult_eq_dec : EqDecision OperationResult.
Proof. solve_decision. Defined.
#[local] Instance OperationResult_countable : Countable OperationResult.
Proof.
  apply (inj_countable' (fun r => match r with Success => inl tt | DocumentUpdated c h => inr (inl (c, h)) | DocumentDeleted c d => inr (inr (c, d)) end)
    (fun x => match x with inl _ => Success | inr (inl (c, h)) => DocumentUpdated c h | inr (inr (c, d)) => DocumentDeleted c d end)). by intros [].
Defined.
#[local] Instance MapSerialized_eq_dec : EqDecision MapSerialized.
Proof. solve_decision. Defined.
#[local] Instance MapSerialized_countable : Countable MapSerialized.
Proof. apply (inj_countable' (fun m => (ms_source m, ms_key m, ms_value m)) (fun p => MkMapSerialized p.1.1 p.1.2 p.2)). by intros []. Defined.

(** Errors are not serialized. *)
Definition pack_ok {A} `{Countable A} (r : A + CoreError) : option bytes := match r with inl x => pack x | inr _ => None end.
Definition unpack_ok {A} `{Countable A} (bs : bytes) : option (A + CoreError) := inl <$> unpack bs.
Lemma unpack_pack_ok {A} `{Countable A} (r : A + CoreError) b : pack_ok r = Some b -> unpack_ok b = Some r.
Proof. destruct r as [x|]; [|done]. intros Hx%unpack_pack. unfold unpack_ok. by rewrite Hx. Qed.

Definition demo_request_to_vec (a : api) : request a -> option bytes :=
  match a with
  | ApiApplyTransaction => fun r => pack (rq_apply_database r, rq_transaction r)
  | ApiGet => fun r => pack (rq_get_database r, rq_get_collection r, rq_get_id r)
  | ApiGetMultiple => fun r => pack (rq_multi_database r, rq_multi_collection r, rq_multi_ids r)
  | ApiList => fun r => pack (rq_list_database r, rq_list_collection r, rq_list_ids r, rq_list_order r, rq_list_limit r)
  | ApiQuery => fun r => pack (rq_query_database r, rq_query_view r, rq_query_key r, rq_query_order r, rq_query_limit r, rq_query_access_policy r)
  | ApiListDatabases => fun _ => Some []
  | _ => fun _ => None
  end.
Definition demo_request_from_slice (a : api) : bytes -> option (request a) :=
  match a with
  | ApiApplyTransaction => fun bs => '(n, ops) ← unpack bs; Some (MkApplyTransactionReq n ops)
  | ApiGet => fun bs => '(n, c, d) ← unpack bs; Some (MkGetReq n c d)
  | ApiGetMultiple => fun bs => '(n, c, ids) ← unpack bs; Some (MkGetMultipleReq n c ids)
  | ApiList => fun bs => '(n, c, ids, order, limit) ← unpack bs; Some (MkListReq n c ids order limit)
  | ApiQuery => fun bs => '(n, v, k, order, limit, policy) ← unpack bs; Some (MkQueryReq n v k order limit policy)
  | ApiListDatabases => fun _ => Some tt
  | _ => fun _ => None
  end.
Definition demo_result_to_vec (a : api) : response a + CoreError -> option bytes :=
  match a with
  | ApiApplyTransaction => fun r => pack_ok (A := list OperationResult) r
  | ApiGet => fun r => pack_ok (A := option Doc) r
  | ApiGetMultiple | ApiList => fun r => pack_ok (A := list Doc) r
  | ApiQuery => fun r => pack_ok (A := list MapSerialized) r
  | ApiListDatabases => fun r => pack_ok (A := list (str * SchemaName)) r
  | _ => fun _ => None
  end.
Definition demo_result_from_slice (a : api) : bytes -> option (response a + CoreError) :=
  match a with
  | ApiApplyTransaction => fun bs => unpack_ok (A := list OperationResult) bs
  | ApiGet => fun bs => unpack_ok (A := option Doc) bs
  | ApiGetMultiple | ApiList => fun bs => unpack_ok (A := list Doc) bs
  | ApiQuery => fun bs => unpack_ok (A := list MapSerialized) bs
  | ApiListDatabases => fun bs => unpack_ok (A := list (str * SchemaName)) bs
  | _ => fun _ => None
  end.

#[local] Instance demo_api_formats : ApiFormats := {|
  request_to_vec := demo_request_to_vec; request_from_slice := demo_request_from_slice;
  result_to_vec := demo_result_to_vec; result_from_slice := demo_result_from_slice;
  message_to_vec m := match m with inl m => pack (mr_subscriber_id m, mr_topic m, mr_payload m) | inr _ => None end;
  message_from_slice bs := '(s, t, p) ← unpack bs; Some (inl (MkMessageReceived s t p)) |}.
#[local] Instance demo_api_format_laws : ApiFormatLaws.
Proof.
  split.
  - intros [] r b; try done; cbn; destruct r; intros Hb; try (apply unpack_pack in Hb; rewrite Hb); done.
  - intros [] r b; try done; cbn; intros Hb; by apply unpack_pack_ok in Hb.
  - intros [[]|] b; [|done]. cbn. intros Hb. apply unpack_pack in Hb. by rewrite Hb.
Qed.
#[local] Instance demo_document_formats : DocumentFormats.
Proof. intros a Ha. unfold document_apis in Ha. repeat (apply elem_of_cons in Ha as [->|Ha]; [split; by eexists|]). by apply not_elem_of_nil in Ha. Qed.

(** ** A server *)

(** Everyone may do everything. *)
Definition everyone : Session := MkSession None AuthNone (fun _ => true).
Definition demo_ops (db : OpenDatabase) : DatabaseOps Database unit := {|
  do_connection := reference_connection demo_schema;
  do_query_by_name_with_docs _ _ _ _ _ := fun D => (Panic, D);
  do_list_executed_transactions _ _ := fun D => (Ok [], D);
  do_last_transaction_id := fun D => (Ok None, D);
  do_compact_collection_by_name _ := fun D => (Ok tt, D);
  do_compact_key_value_store := fun D => (Ok tt, D);
  do_compact := fun D => (Ok tt, D);
  do_execute_key_operation _ := fun k => (Ok (OValue None), k) |}.
Definition one_note : Database := set_documents nothing notes {[ to_be_bytes u64 1 := document_new (to_be_bytes u64 1) [7; 8] ]}.
Lemma server_note_ids : ids_match one_note.
Proof.
  intros c d doc. unfold one_note, set_documents. case_decide; [|unfold nothing; by rewrite lookup_empty].
  intros [<- <-]%lookup_singleton_Some. done.
Qed.
Definition no_contents : Database * unit := (nothing, tt).
Definition demo_server : Server Database unit PubSubExamples.FunRelay :=
  MkServer opened_a PubSubExamples.empty_relay (fun _ => (one_note, tt)) ∅ [] 0 [] [].
Definition address : str := lit "127.0.0.1".
Definition demo_env : Ambient := MkAmbient 0 0 [] [].

(** ** A client connects and reads a document *)

Definition get_note : Payload :=
  MkPayload None (Some 0) (api_name ApiGet) (inl (default [] (demo_request_to_vec ApiGet (MkGetReq name_a notes (to_be_bytes u64 1))))).
Abbreviation demo_step := (step (R := PubSubExamples.FunRelay) demo_ops no_contents everyone 16).
Abbreviation demo_reachable := (reachable (R := PubSubExamples.FunRelay) demo_ops no_contents everyone 16).

Definition start : Loop Database unit PubSubExamples.FunRelay := initial demo_server 2.
Definition welcome := initialize_client (R := PubSubExamples.FunRelay) everyone Bonsai address (Ok Accept) demo_server.
Lemma welcome_runs : welcome = (Ok (Some 0%nat), welcome.2).
Proof. reflexivity. Qed.

(** The loop with a connected client, a request of which is received, counted
    and queued. *)
Definition connected : Loop Database unit PubSubExamples.FunRelay := with_server welcome.2 (<[0%nat := new_conn]> (lp_conns start)) start.
Definition received := set_conn 0 (MkConn [get_note] 0 false true true) connected.
Definition reserved := set_conn 0 (MkConn [get_note] 1 true true true) received.
Definition job : Job := MkJob 0%nat (request_session everyone 0 get_note welcome.2) get_note.
Definition queued_job : Loop Database unit PubSubExamples.FunRelay :=
  MkLoop welcome.2 2 [job] [] [] (<[0%nat := MkConn [] 1 false true true]> (lp_conns reserved)) [] [] Running [].

Lemma connected_reachable : demo_reachable start connected.
Proof. eapply reachable_step; [apply reachable_refl|]. exact (step_connect demo_ops no_contents everyone 16 start Bonsai address (Ok Accept) 0 _ welcome_runs). Qed.
Lemma queued_reachable : demo_reachable start queued_job.
Proof.
  eapply reachable_step; [eapply reachable_step; [eapply reachable_step; [apply connected_reachable|]|]|].
  - by apply (step_receive demo_ops no_contents everyone 16 connected 0 new_conn get_note).
  - by apply (step_reserve demo_ops no_contents everyone 16 received 0 (MkConn [get_note] 0 false true true)).
  - by apply (step_take demo_ops no_contents everyone 16 reserved 0 (MkConn [get_note] 1 true true true) get_note []).
Qed.

Lemma requests_run_as_granted_witness :
  jb_session job = everyone \/
  exists job' result, (job', result) ∈ lp_handled queued_job /\ jb_client job' = 0%nat /\ granted_by (jb_request job') (to_res result) (jb_session job).
Proof.
  exact (requests_run_as_granted demo_ops no_contents everyone 16 demo_server 2 queued_job job ltac:(lia) eq_refl queued_reachable ltac:(left)).
Defined.
Lemma simultaneous_requests_bounded_witness :
  of_client 0 (lp_jobs queued_job) = 1 /\ of_client 0 (lp_jobs queued_job) + of_client 0 (lp_results queued_job).*1 <= 1 <= 16.
Proof.
  split; [reflexivity|].
  exact (simultaneous_requests_bounded demo_ops no_contents everyone 16 demo_server 2 queued_job 0 (MkConn [] 1 false true true)
    ltac:(lia) eq_refl queued_reachable eq_refl).
Defined.

(** A worker reads the document, and its response is written. *)
Definition worked := worker_handle no_contents (register_api_handlers (R := PubSubExamples.FunRelay) demo_ops no_contents ∅) demo_env 0 (jb_session job) get_note welcome.2.
Definition note_bytes : bytes := default [] (demo_result_to_vec ApiGet (inl (Some (document_new (to_be_bytes u64 1) [7; 8])))).
Lemma worked_runs : worked = (Ok note_bytes, worked.2).
Proof. rewrite (surjective_pairing worked) at 1. f_equal. Qed.

Definition handled_job : Job * (bytes + CoreError) := (job, inl note_bytes).
Definition worked_loop : Loop Database unit PubSubExamples.FunRelay :=
  MkLoop worked.2 2 [] [handled_job] [] (lp_conns queued_job) [] [] Running [handled_job].
Definition responded : Loop Database unit PubSubExamples.FunRelay :=
  MkLoop worked.2 2 [] [] [] (<[0%nat := new_conn]> (lp_conns queued_job)) [ServerLoop.answer handled_job] [] Running [handled_job].
Definition written : Loop Database unit PubSubExamples.FunRelay :=
  MkLoop worked.2 2 [] [] [] (lp_conns responded) [] [ServerLoop.answer handled_job] Running [handled_job].
Lemma written_reachable : demo_reachable start written.
Proof.
  eapply reachable_step; [eapply reachable_step; [eapply reachable_step; [apply queued_reachable|]|]|].
  - exact (step_work demo_ops no_contents everyone 16 queued_job demo_env job [] (inl note_bytes) worked.2 eq_refl ltac:(done) worked_runs).
  - exact (step_respond demo_ops no_contents everyone 16 worked_loop [] handled_job [] (MkConn [] 1 false true true) eq_refl eq_refl).
  - exact (step_write demo_ops no_contents everyone 16 responded [] (ServerLoop.answer handled_job) [] new_conn eq_refl eq_refl eq_refl).
Qed.
Lemma responses_exact_witness :
  lp_sent written = [(0%nat, MkPayload None (Some 0) (api_name ApiGet) (inl note_bytes))] /\
  expected_answer <$> [handled_job] ≡ₚ lp_sent written /\
  handled_by_worker demo_ops no_contents job (inl note_bytes).
Proof.
  split; [reflexivity|].
  destruct (responses_exact demo_ops no_contents everyone 16 demo_server 2 written ltac:(lia) eq_refl written_reachable) as [Hans Hdone].
  split; [exact Hans|]. apply Hdone. left.
Defined.

(** ** A client that sends errors *)

Definition broken : Payload := MkPayload None (Some 0) (api_name ApiGet) (inr request_timeout).
Lemma connected_can_end : can_end 16 connected 0 2.
Proof. split; [done|done|]. exists new_conn. split_and!; done || lia. Qed.
Lemma error_payloads_end_workers_witness :
  exists l', demo_reachable connected l' /\ lp_workers l' = O /\ forall l'', demo_reachable l' l'' -> lp_handled l'' = lp_handled l'.
Proof.
  exact (error_payloads_end_workers demo_ops no_contents everyone 16 demo_env connected 0 2 broken request_timeout connected_can_end eq_refl eq_refl eq_refl).
Defined.

(** ** Calls over a connection *)

Definition linked : ClientState := MkClientState 0 0 [] (Client.Connected ∅ true) 1 ∅ [] [].
Lemma linked_ok : link_ok linked.
Proof.
  split; [|done|by eexists]. split; cbn; [done|..].
  - intros r Hr. rewrite map_to_list_empty in Hr. by apply not_elem_of_nil in Hr.
  - intros out reading id r [= <- <-] Hr. by rewrite lookup_empty in Hr.
  - by intros r bs ?%not_elem_of_nil.
Qed.
Definition get_request : request ApiGet := MkGetReq name_a notes (to_be_bytes u64 1).
Definition assumed := on_storage (K := unit) (R := PubSubExamples.FunRelay) no_contents
  (assume_session unauthenticated (request_session everyone 0 (payload_of None (api_name ApiGet)) welcome.2)) welcome.2.
Definition guest : Storage := MkStorage None (Some everyone).
Lemma assumed_runs : assumed = (Ok guest, assumed.2).
Proof. reflexivity. Qed.
Definition got := handle (R := PubSubExamples.FunRelay) demo_ops no_contents demo_env ApiGet (MkHandlerSession 0 guest) get_request assumed.2.
Lemma got_runs : got = (Ok (Some (document_new (to_be_bytes u64 1) [7; 8])), got.2).
Proof. rewrite (surjective_pairing got) at 1. f_equal. Qed.
Lemma remote_call_local_witness :
  exists c', link_ok c' /\ send_api_request (exchange demo_ops no_contents everyone demo_env 0) None ApiGet get_request (linked, welcome.2) =
    (Ok (Some (document_new (to_be_bytes u64 1) [7; 8])), (c', RemoteLaws.finished no_contents guest got.2)).
Proof.
  exact (remote_call_local demo_ops no_contents everyone demo_env 0 None ApiGet get_request linked welcome.2 _ guest assumed.2
    (Ok (Some (document_new (to_be_bytes u64 1) [7; 8]))) got.2 linked_ok eq_refl assumed_runs got_runs ltac:(intros x _; by eexists)).
Defined.

(** ** The laws of a remote database *)

Definition demo_link : ClientState * Server Database unit PubSubExamples.FunRelay := (linked, welcome.2).
Lemma demo_served : served everyone 0 None name_a notes everyone welcome.2.
Proof. split; [done|by eexists|by right|done]. Qed.
Definition demo_remote_ok : ClientState * Server Database unit PubSubExamples.FunRelay -> Prop :=
  remote_ok everyone 0 None name_a notes everyone ids_match.
Lemma demo_remote_starts : demo_remote_ok demo_link.
Proof. split_and!; [apply linked_ok|apply demo_served|apply server_note_ids]. Qed.
Definition demo_documents_of (l : ClientState * Server Database unit PubSubExamples.FunRelay) : Database :=
  remote_documents name_a (fun D => D) l.
Definition demo_remote : LowLevelConnection (ClientState * Server Database unit PubSubExamples.FunRelay) :=
  remote demo_ops no_contents everyone 0 None name_a notes everyone demo_env.

Lemma demo_remote_laws : @ConnectionLaws _ _ _ (conn_of demo_ops (served_database name_a notes everyone)) demo_digest ids_match (fun D => D).
Proof. exact (reference_laws demo_schema). Qed.

Lemma notes_well_formed : qualified_wf notes.
Proof. split; done. Qed.
(** The document of the server is found over the connection. *)
Definition remote_get := ll_get_from_collection (LowLevelConnection := demo_remote) (to_be_bytes u64 1) notes demo_link.
Lemma remote_database_laws_witness :
  demo_remote_ok remote_get.2 /\ forall o, remote_get.1 = Ok o -> o = Some (document_new (to_be_bytes u64 1) [7; 8]).
Proof.
  destruct (@law_get _ _ _ _ _ _ _
    (remote_database_laws demo_ops no_contents everyone 0 None name_a notes everyone demo_env ids_match (fun D => D) (Hlaws := demo_remote_laws))
    (to_be_bytes u64 1) notes demo_link remote_get.1 remote_get.2 demo_remote_starts notes_well_formed (surjective_pairing _)) as (Hok & _ & Hget & _).
  split; [exact Hok|]. intros o Ho. rewrite (Hget o Ho). reflexivity.
Defined.

(** ** Runs of a client *)

Definition asked := send_request_without_confirmation None (api_name ApiListDatabases) [] client_initial.
Definition ask : PendingRequest := MkPendingRequest (MkPayload None (Some 0) (api_name ApiListDatabases) (inl [])) 0.
Definition reply : Payload := MkPayload None (Some 0) (api_name ApiListDatabases) (inl [7]).
Lemma asked_reachable t : client_reachable t asked.2.
Proof. eapply client_reachable_step; [apply client_reachable_initial|]. by apply (cstep_submit t client_initial None (api_name ApiListDatabases) [] 0). Qed.
Definition sent (reading : bool) : ClientState := MkClientState 1 1 [] (Client.Connected {[0 := ask]} reading) 1 ∅ [] [].
Lemma sent_reachable : client_reachable Tungstenite (sent true).
Proof. eapply client_reachable_step; [apply (asked_reachable Tungstenite)|]. by apply (cstep_open_locked Tungstenite asked.2 ask []). Qed.

(** The request is answered, and then the connection is lost. *)
Definition replied : ClientState := MkClientState 1 1 [] (Client.Connected ∅ true) 1 ∅ [(ask, inl [7])] [reply].
Lemma replied_reachable : client_reachable Tungstenite replied.
Proof. eapply client_reachable_step; [apply sent_reachable|]. by apply (cstep_response Tungstenite (sent true) {[0 := ask]} reply ∅ (Some ask) ∅). Qed.
Lemma answered_at_most_once_witness :
  (exists p, p ∈ cl_received replied /\ py_id p = Some 0 /\ py_value p = inl [7]) /\ NoDup (pr_responder <$> (cl_answers replied).*1).
Proof.
  split; [|exact (proj1 (answered_at_most_once Tungstenite replied replied_reachable))].
  exact (proj2 (answered_at_most_once Tungstenite replied replied_reachable) ask [7] ltac:(left)).
Defined.

(** The connection is lost before the request is answered. *)
Definition lost : ClientState := MkClientState 1 1 [] (Idle None) 1 ∅ [(ask, inr disconnected)] [].
Lemma lost_reachable : client_reachable Tungstenite lost.
Proof.
  eapply client_reachable_step; [apply sent_reachable|].
  by apply (cstep_stream_fails Tungstenite (sent true) {[0 := ask]} disconnected [ask]).
Qed.
Lemma idle_answered_witness : exists r value, (r, value) ∈ cl_answers lost /\ pr_responder r = 0%nat.
Proof. exact (idle_answered Tungstenite lost None 0 lost_reachable eq_refl eq_refl ltac:(cbn; lia)). Defined.

(** ** What the workers of a client lose *)

(** Over QUIC a response that arrives before the request it answers has become
    outstanding is dropped: the caller waits although it was answered. *)
Lemma early_response_lost :
  exists st, client_reachable Quic st /\ reply ∈ cl_received st /\ cl_worker st = Client.Connected {[0 := ask]} true /\ cl_answers st = [].
Proof.
  eexists. split; [|].
  - eapply client_reachable_step; [eapply client_reachable_step; [eapply client_reachable_step; [apply (asked_reachable Quic)|]|]|].
    + by apply (cstep_open_quic Quic asked.2 ask []).
    + by apply (cstep_response_opening Quic _ ask reply ∅).
    + by apply (cstep_opened Quic _ ask).
  - split_and!; [left|done|done].
Qed.
(** After the stream of a websocket has ended nothing is received any more, and
    what is outstanding is answered only when sending another request fails. *)
Lemma ended_stream_unanswered st : cl_worker st = Client.Connected {[0 := ask]} false -> cl_queue st = [] ->
  forall st', cstep Tungstenite st st' -> cl_answers st' = cl_answers st /\ cl_worker st' = cl_worker st.
Proof.
  intros Hw Hq st' Hstep. destruct Hstep; try congruence; try done.
  unfold send_request_without_confirmation in *. rewrite Hw in *. by simplify_eq/=.
Qed.
(** A session the server does not know is treated as no session at all. *)
Lemma unknown_session_is_default : request_session everyone 0 (MkPayload (Some 5) (Some 0) (api_name ApiGet) (inl [])) welcome.2 = everyone.
Proof. reflexivity. Qed.
End NetworkDemo.
