(* ===== verification/FilePaths.v ===== *)
(** * Paths of files and the keys they are listed by

    The paths of [bonsaidb-files/src/direct.rs] and the keys of the view
    [ByPath] in [schema/file.rs]: a file is stored under its containing path
    and its name; listing a path queries a range of keys whose bounds are
    encoded by hand. *)

From Stdlib Require Import ZArith Lia String.
From stdpp Require Import base list option numbers gmap.
From S2P Require Import Prelude Bytes Utf8 Key KeyLaws CompositeKey CompositeKeyLaws Range Nebari.

Local Open Scope Z_scope.

Definition slash : Z := 47.
Definition ends_with_slash (s : str) : bool := bool_decide (last s = Some slash).
Definition starts_with_slash (s : str) : bool := bool_decide (head s = Some slash).
(** [if path.bytes().last() != Some(b'/') { path.push('/') }] *)
Definition force_slash (s : str) : str := if ends_with_slash s then s else s ++ [slash].

(** [str::rsplit_once('/')]. *)
Fixpoint rsplit_slash (s : str) : option (str * str) :=
  match s with
  | [] => None
  | c :: s =>
      match rsplit_slash s with
      | Some (a, b) => Some (c :: a, b)
      | None => if c =? slash then Some ([], s) else None
      end
  end.

(** ** [FileBuilder] *)

(** The path and the name [FileBuilder::new] takes from its argument. *)
Definition builder_new {E} (name_or_path : str) : res E (option str * str) :=
  if starts_with_slash name_or_path then
    let name_or_path :=
      if ends_with_slash name_or_path && (1 <? blen (as_bytes name_or_path))
      then take (length name_or_path - 1) name_or_path else name_or_path in
    '(path, name) ← unwrap (rsplit_slash name_or_path);
    let path := if bool_decide (path = []) || bool_decide (path = [slash]) then None else Some path in
    Ok (path, name)
  else Ok (None, name_or_path).

(** ** [File] *)

Definition containing_path (path : option str) : str := default [slash] path.
Definition full_path (path : option str) (name : str) : str :=
  let containing_path := containing_path path in
  (if ends_with_slash containing_path then containing_path else containing_path ++ [slash]) ++ name.

(** The path and the name [create_file] stores; the names it refuses are
    reported before. *)
Definition invalid_name (name : str) : bool := existsb (fun c => c =? slash) name || bool_decide (name = []).
Definition created_path (path : option str) : option str := force_slash <$> path.

(** The path and the name of the document [update_document_for_move] makes. *)
Definition moved {E} (new_path : str) (name : str) : res E (option str * str) :=
  '(path, name) ← unwrap
    (if ends_with_slash new_path then
       Some (if 1 <? blen (as_bytes new_path) then Some new_path else None, name)
     else
       (fun '(path, name) => (if bool_decide (path = []) then None else Some path, name)) <$> rsplit_slash new_path);
  Ok (option_map force_slash path, name).

(** ** [FileKey] *)

Inductive FileKey :=
| Full (path name : str)
| ExactPath (start end_ : FileKey)
| ExactPathPart (path : str) (start : bool)
| RecursivePath (start end_ : FileKey)
| RecursivePathPart (path : str) (start : bool).

(** [next_string_sequence] of [bonsaidb-utils]. *)
Definition next_string_sequence {E} (s : str) : res E str :=
  next ← string_prefix_loop (as_bytes s) (rev s);
  Ok (default [] next).

Definition file_key_as_ord_bytes (k : FileKey) : res KeyError bytes :=
  match k with
  | Full path name =>
      enc ← encode key_cow_str path (encoder_new EscapeNullBytes);
      enc ← encode key_cow_str name enc;
      Ok (encoder_finish enc)
  | ExactPathPart path start =>
      Ok (as_bytes path ++ (if ends_with_slash path then [] else [slash]) ++ [if start then 0 else 1])
  | RecursivePathPart path start =>
      path ← (if start : bool then Ok path else next_string_sequence path);
      enc ← encode key_cow_str path (encoder_new EscapeNullBytes);
      Ok (encoder_finish enc)
  | ExactPath _ _ | RecursivePath _ _ => Panic
  end.

Definition file_key_from_ord_bytes `{Profile} (src : ByteSource) : res KeyError FileKey :=
  let '(decoder, path) := decode key_string (decoder_new EscapeNullBytes src) in
  path ← path;
  let '(decoder, name) := decode key_string decoder in
  name ← name;
  decoder_finish decoder;;
  Ok (Full path name).

Definition to_prefix_range {E} (k : FileKey) : res E (Range FileKey) :=
  match k with
  | ExactPath start end_ | RecursivePath start end_ => Ok (MkRange (Included start) (Excluded end_))
  | _ => Panic
  end.

(** [OwnedFileKey] as a key.  The type has no [Ord]; its values are ordered by path and name here. *)
Definition file_key_cmp (a b : FileKey) : comparison :=
  match a, b with
  | Full p n, Full q m => cmp_then (bytes_cmp (as_bytes p) (as_bytes q)) (bytes_cmp (as_bytes n) (as_bytes m))
  | _, _ => Eq
  end.
Definition key_file `{Profile} : key_ty := {|
  k_type := FileKey; k_wf k := match k with Full p n => is_str p = true /\ is_str n = true | _ => False end;
  k_cmp := file_key_cmp;
  LENGTH := None;
  describe := [visit_composite (KStruct "bonsaidb_files::schema::file::FileKey") 2; visit_type KString; visit_type KString];
  as_ord_bytes := file_key_as_ord_bytes;
  CAN_OWN_BYTES := false;
  from_ord_bytes := file_key_from_ord_bytes;
  first_value := default_first_value; next_value := default_next_value |}.
(** The serialized range [with_key_prefix(key)] queries. *)
Definition listing_range `{Profile} (k : FileKey) : res KeyError (Range bytes) :=
  r ← to_prefix_range k;
  range_as_ord_bytes key_file r.

(** The key of a document in the view [ByPath]. *)
Definition by_path_key (path : option str) (name : str) : FileKey := Full (default [slash] path) name.
(** [convert_mappings_to_documents]: the path and name of a key. *)
Definition key_path_name (k : FileKey) : option (option str * str) :=
  match k with
  | Full path name => Some (if bool_decide (path = [slash]) then None else Some path, name)
  | _ => None
  end.

(** The key [File::find] looks up. *)
Definition find_key (path : str) : option FileKey :=
  match path with
  | [] => None
  | _ =>
      let path := if ends_with_slash path then take (length path - 1) path else path in
      Some match rsplit_slash path with
           | Some (dir, name) => Full (dir ++ [slash]) name
           | None => Full [slash] path
           end
  end.

Definition list_key (path : str) : FileKey := ExactPath (ExactPathPart path true) (ExactPathPart path false).
Definition list_recursive_key (path : str) : FileKey := RecursivePath (RecursivePathPart path true) (RecursivePathPart path false).
