(* ===== verification/FilePathsTheorems.v ===== *)
(** * What the keys of files select

    The encoded bounds of a listing select exactly the files of the path, the
    recursive bounds the files below it; the key of a file is the one its path
    is looked up by. *)

From Stdlib Require Import ZArith Lia String.
From stdpp Require Import base list option numbers gmap.
From S2P Require Import Prelude Bytes Utf8 Key KeyLaws CompositeKey CompositeKeyLaws Range Nebari KeyTheorems FilePaths.

Local Open Scope Z_scope.

(** ** Paths *)

(** A path or a name without a null character. *)
Definition null_free (s : str) : bool := is_str s && negb (existsb (fun c => c =? 0) s).

Lemma null_free_str s : null_free s = true -> is_str s = true.
Proof. unfold null_free. by intros [? _]%andb_prop. Qed.
Lemma null_free_app s t : null_free (s ++ t) = null_free s && null_free t.
Proof.
  unfold null_free, is_str. rewrite forallb_app, existsb_app.
  by destruct (forallb is_char s), (forallb is_char t), (existsb _ s), (existsb _ t).
Qed.

Lemma encode_char_null c : is_char c = true -> c <> 0 -> existsb (fun b => b =? 0) (encode_char c) = false.
Proof.
  rewrite is_char_spec. intros Hc Hn.
  utf8_cases c; cbn [existsb]; rewrite !(proj2 (Z.eqb_neq _ 0)) by zdm; done.
Qed.
Lemma null_free_bytes s : null_free s = true -> existsb (fun b => b =? 0) (as_bytes s) = false.
Proof.
  unfold null_free, is_str. induction s as [|c s IH]; [done|]. cbn [forallb existsb as_bytes].
  intros [[Hc Hs]%andb_prop Hn]%andb_prop. apply negb_true_iff, orb_false_iff in Hn as [Hc0 Hn].
  apply Z.eqb_neq in Hc0. rewrite existsb_app, encode_char_null by done. simpl. apply IH.
  by rewrite Hs, Hn.
Qed.

Lemma force_slash_ends s : exists d, force_slash s = d ++ [slash].
Proof.
  unfold force_slash, ends_with_slash. case_bool_decide as Hl; [|by exists s].
  apply last_Some in Hl as [d ->]. by exists d.
Qed.
Lemma force_slash_null_free s : null_free s = true -> null_free (force_slash s) = true.
Proof. intros Hs. unfold force_slash. destruct (ends_with_slash s); [done|]. by rewrite null_free_app, Hs. Qed.

(** ** The bytes of a key *)

(** The key of a file: its path, a null byte, its name, a null byte, the two lengths. *)
Lemma full_key_layout q n k :
  null_free q = true -> null_free n = true -> file_key_as_ord_bytes (Full q n) = Ok k ->
  k = as_bytes q ++ 0 :: as_bytes n ++ 0 :: length_bytes (blen (as_bytes n)) ++ length_bytes (blen (as_bytes q)).
Proof.
  intros Hq Hn. cbn [file_key_as_ord_bytes]. intros Hk.
  apply bind_Ok_inv in Hk as (e1 & H1 & Hk). apply encode_content in H1 as (c & (x & Hx & Hc) & ->).
  apply bind_Ok_inv in Hk as (e2 & H2 & Hk). apply encode_content in H2 as (d & (y & Hy & Hd) & ->).
  simpl in Hx, Hy. change (is_none (LENGTH key_cow_str)) with true in Hc, Hd. destruct Hc as [Hc _], Hd as [Hd _].
  injection Hx as <-. injection Hy as <-.
  rewrite handle_nulls_escape, null_encode_id in Hc by (by apply null_free_bytes). injection Hc as <-.
  rewrite handle_nulls_escape, null_encode_id in Hd by (by apply null_free_bytes). injection Hd as <-.
  injection Hk as <-. unfold encoder_finish, terminator, field_lengths. simpl.
  by rewrite <- !app_assoc.
Qed.

(** ** Listing a path *)

(** Between a path ended by 0 and the path ended by 1 lie exactly the keys of the path. *)
Lemma exact_range P Q r :
  bytes_ok P -> bytes_ok Q -> existsb (fun b => b =? 0) P = false -> existsb (fun b => b =? 0) Q = false ->
  range_contains bytes_cmp (MkRange (Included (P ++ [0])) (Excluded (P ++ [1]))) (Q ++ 0 :: r) = bool_decide (Q = P).
Proof.
  unfold range_contains. simpl. intros HP. revert Q. induction HP as [|a P Ha HP IH]; intros Q HQ NP NQ.
  - destruct HQ as [|b Q Hb HQ]; [by destruct r|]. unfold byte_ok in Hb. cbn [existsb] in NQ.
    apply orb_false_iff in NQ as [Hb0%Z.eqb_neq _]. rewrite bool_decide_false by done. cbn [app].
    rewrite !bytes_cmp_cons. rewrite (proj2 (Z.compare_lt_iff 0 b)) by lia. cbn [cmp_then andb].
    destruct (Z.compare_spec b 1); cbn [cmp_then]; [by destruct Q|lia|done].
  - unfold byte_ok in Ha. cbn [existsb] in NP. apply orb_false_iff in NP as [Ha0%Z.eqb_neq NP].
    destruct HQ as [|b Q Hb HQ]; cbn [app].
    { rewrite bytes_cmp_head_gt by lia. by rewrite bool_decide_false. }
    cbn [existsb] in NQ. apply orb_false_iff in NQ as [Hb0%Z.eqb_neq NQ].
    rewrite !bytes_cmp_cons. destruct (Z.compare_spec a b) as [<-|Hlt|Hgt]; cbn [cmp_then].
    + rewrite Z.compare_refl. cbn [cmp_then]. rewrite IH by done. apply bool_decide_ext. naive_solver.
    + rewrite (proj2 (Z.compare_gt_iff b a)) by done. rewrite bool_decide_false by naive_solver lia. done.
    + rewrite bool_decide_false by naive_solver lia. done.
Qed.

Lemma list_range_eq `{Profile} p :
  listing_range (list_key p) = Ok (MkRange (Included (as_bytes (force_slash p) ++ [0])) (Excluded (as_bytes (force_slash p) ++ [1]))).
Proof.
  unfold listing_range, list_key, range_as_ord_bytes, force_slash. cbn. destruct (ends_with_slash p); cbn; [done|].
  rewrite as_bytes_app. by rewrite <- !app_assoc.
Qed.

(** Listing a path selects a file exactly when the file was stored under
    that path, whether or not the path is given with its last slash; no file
    of a directory below it, or of one whose name continues it, is listed. *)
Theorem list_selects `{Profile} p q n k :
  null_free p = true -> null_free q = true -> null_free n = true ->
  file_key_as_ord_bytes (Full q n) = Ok k ->
  exists r, listing_range (list_key p) = Ok r /\
    range_contains bytes_cmp r k = bool_decide (q = force_slash p).
Proof.
  intros Hp Hq Hn Hk. eexists. split; [apply list_range_eq|].
  rewrite (full_key_layout _ _ _ Hq Hn Hk).
  pose proof (force_slash_null_free _ Hp) as Hf. pose proof (null_free_str _ Hf). pose proof (null_free_str _ Hq).
  rewrite exact_range by auto using as_bytes_ok, null_free_bytes.
  apply bool_decide_ext. split; [|by intros ->]. by apply as_bytes_inj.
Qed.

(** ** Listing a path recursively *)

Definition str_key_bytes (s : str) : bytes := as_bytes s ++ 0 :: length_bytes (blen (as_bytes s)).

Lemma recursive_part_eq s (start : bool) path k :
  (if start then path = s else next_string_sequence (E:=KeyError) path = Ok s) -> null_free s = true ->
  file_key_as_ord_bytes (RecursivePathPart path start) = Ok k -> k = str_key_bytes s.
Proof.
  intros Hs Hn Hk. cbn [file_key_as_ord_bytes] in Hk.
  apply bind_Ok_inv in Hk as (s' & Hs' & Hk). assert (s' = s) as -> by (destruct start; congruence).
  apply bind_Ok_inv in Hk as (e1 & H1 & Hk). apply encode_content in H1 as (c & (x & Hx & Hc) & ->).
  simpl in Hx. change (is_none (LENGTH key_cow_str)) with true in Hc. destruct Hc as [Hc _]. injection Hx as <-.
  rewrite handle_nulls_escape, null_encode_id in Hc by (by apply null_free_bytes). injection Hc as <-.
  injection Hk as <-. unfold encoder_finish, terminator, field_lengths, str_key_bytes. simpl. by rewrite <- !app_assoc.
Qed.

Lemma str_key_cmp p q r :
  null_free p = true -> null_free q = true ->
  bytes_cmp (str_key_bytes p) (as_bytes q ++ 0 :: r) =
    cmp_then (bytes_cmp p q) (bytes_cmp (length_bytes (blen (as_bytes p))) r).
Proof.
  intros Hp Hq. pose proof (null_free_str _ Hp). pose proof (null_free_str _ Hq).
  unfold str_key_bytes.
  rewrite (delimited_cmp false) by auto using as_bytes_ok, null_free_separated, null_free_bytes.
  by rewrite as_bytes_cmp.
Qed.
Lemma str_key_cmp_r p q r :
  null_free p = true -> null_free q = true ->
  bytes_cmp (as_bytes q ++ 0 :: r) (str_key_bytes p) =
    cmp_then (bytes_cmp q p) (bytes_cmp r (length_bytes (blen (as_bytes p)))).
Proof.
  intros Hp Hq. pose proof (null_free_str _ Hp). pose proof (null_free_str _ Hq).
  unfold str_key_bytes.
  rewrite (delimited_cmp false) by auto using as_bytes_ok, null_free_separated, null_free_bytes.
  by rewrite as_bytes_cmp.
Qed.

Lemma next_string_sequence_eq {E} p :
  is_str p = true -> next_string_sequence (E:=E) p = Ok (default [] (next_front next_char p)).
Proof.
  intros Hp. unfold next_string_sequence. pose proof (string_prefix_loop_ok (E:=E) (rev p) []) as Hl.
  rewrite rev_involutive, app_nil_r in Hl. rewrite Hl by done. simpl. by rewrite next_rev_front.
Qed.

Lemma next_front_str p e : is_str p = true -> next_front next_char p = Some e -> is_str e = true.
Proof.
  rewrite !is_str_forall. intros Hp. revert e.
  induction Hp as [|c p Hc Hp IH]; intros e; cbn [next_front]; [done|].
  destruct (next_front next_char p) as [e'|]; [intros [= <-]; constructor; auto|].
  destruct (next_char c) as [n|] eqn:Hn; [|done]. intros [= <-]. repeat constructor.
  by eapply next_char_is_char.
Qed.
Lemma next_front_null_free p e : null_free p = true -> next_front next_char p = Some e -> null_free e = true.
Proof.
  intros Hp He. pose proof (next_front_str p e (null_free_str _ Hp) He) as Hs.
  unfold null_free in *. rewrite Hs. apply andb_prop in Hp as [Hc Hp]. apply negb_true_iff in Hp.
  simpl. apply negb_true_iff. clear Hs. revert e He. induction p as [|c p IH]; intros e; cbn [next_front]; [done|].
  cbn [is_str forallb existsb] in *. apply andb_prop in Hc as [Hc Hs]. apply orb_false_iff in Hp as [Hc0 Hp].
  destruct (next_front next_char p) as [e'|].
  - intros [= <-]. cbn [existsb]. rewrite Hc0. by apply IH.
  - destruct (next_char c) as [n|] eqn:Hn; [|done]. intros [= <-]. cbn [existsb].
    pose proof (char_successor c c Hc Hc) as Hsu. rewrite Hn in Hsu. apply is_char_spec in Hc.
    rewrite (proj2 (Z.eqb_neq n 0)) by lia. done.
Qed.

(** Whether a listing that starts at the key of [p] reaches a file of the path
    [p] itself: the name is compared with the byte that follows the path in the
    bound, which is the path's length. *)
Definition reached (p n : str) : bool :=
  match bytes_cmp (length_bytes (blen (as_bytes p)))
          (as_bytes n ++ 0 :: length_bytes (blen (as_bytes n)) ++ length_bytes (blen (as_bytes p))) with
  | Gt => false | _ => true end.

(** Listing a path recursively selects a file of another path exactly when
    that path starts with the listed one, and a file of the path itself exactly
    when its name does not sort before the length of the path; [e], the
    successor of [p], is not the path of a file. *)
Theorem recursive_selects `{Profile} p e q n k r :
  null_free p = true -> null_free q = true -> null_free n = true ->
  next_front next_char p = Some e -> q <> e ->
  file_key_as_ord_bytes (Full q n) = Ok k -> listing_range (list_recursive_key p) = Ok r ->
  range_contains bytes_cmp r k = if decide (q = p) then reached p n else bool_decide (p `prefix_of` q).
Proof.
  intros Hp Hq Hn He Hqe Hk Hr. pose proof (null_free_str _ Hp) as Sp. pose proof (null_free_str _ Hq) as Sq.
  pose proof (next_front_null_free _ _ Hp He) as Hen.
  assert (r = MkRange (Included (str_key_bytes p)) (Excluded (str_key_bytes e))) as ->.
  { unfold listing_range, list_recursive_key, range_as_ord_bytes in Hr.
    cbn [to_prefix_range bound_as_ord_bytes range_start range_end as_ord_bytes key_file] in Hr.
    apply bind_Ok_inv in Hr as (r' & Hr' & Hr). injection Hr' as <-.
    apply bind_Ok_inv in Hr as (a & Ha & Hr). apply bind_Ok_inv in Ha as (ka & Ha & [= <-]).
    apply bind_Ok_inv in Hr as (b & Hb & Hr). apply bind_Ok_inv in Hb as (kb & Hb & [= <-]). injection Hr as <-.
    rewrite (recursive_part_eq p true p ka) by done.
    by rewrite (recursive_part_eq e false p kb) by (rewrite ?next_string_sequence_eq, ?He; done). }
  rewrite (full_key_layout _ _ _ Hq Hn Hk). unfold range_contains. cbn [above below range_start range_end].
  rewrite str_key_cmp, str_key_cmp_r by done.
  pose proof (prefix_range_spec _ _ p q char_successor (proj1 (is_str_forall p) Sp) (proj1 (is_str_forall q) Sq)) as Hspec.
  unfold range_contains, prefix_range in Hspec. rewrite He in Hspec. cbn [above below range_start range_end] in Hspec.
  assert (bytes_cmp q e <> Eq) by (by rewrite bytes_cmp_eq).
  destruct (decide (q = p)) as [->|Hqp].
  - rewrite bool_decide_true in Hspec by done. rewrite bytes_cmp_refl in *. cbn [cmp_then andb] in *. unfold reached.
    destruct (bytes_cmp p e); try done. by rewrite andb_true_r.
  - rewrite <- Hspec. assert (bytes_cmp p q <> Eq) by (rewrite bytes_cmp_eq; congruence).
    by destruct (bytes_cmp p q), (bytes_cmp q e).
Qed.

(** ** Where a created or moved file is found *)

(** No directory of the path is unnamed. *)
Fixpoint double_slash (s : str) : bool :=
  match s with
  | c :: (d :: _) as s => (c =? slash) && (d =? slash) || double_slash s
  | _ => false
  end.
(** The absolute path a name or path stands for. *)
Definition absolute (p : str) : str :=
  let p := if ends_with_slash p then take (length p - 1) p else p in
  if starts_with_slash p then p else slash :: p.

Lemma rsplit_slash_spec s :
  match rsplit_slash s with
  | Some (a, b) => s = a ++ slash :: b /\ existsb (fun c => c =? slash) b = false
  | None => existsb (fun c => c =? slash) s = false
  end.
Proof.
  induction s as [|c s IH]; [done|]. cbn [rsplit_slash]. destruct (rsplit_slash s) as [[a b]|].
  - destruct IH as [-> IH]. done.
  - destruct (Z.eqb_spec c slash) as [->|Hc]; [done|]. cbn [existsb]. rewrite IH.
    by rewrite (proj2 (Z.eqb_neq c slash)).
Qed.

Lemma rsplit_slash_app a b :
  existsb (fun c => c =? slash) b = false -> rsplit_slash (a ++ slash :: b) = Some (a, b).
Proof.
  intros Hb. assert (rsplit_slash b = None) as Hn.
  { pose proof (rsplit_slash_spec b) as H. destruct (rsplit_slash b) as [[x y]|]; [|done].
    destruct H as [-> _]. by rewrite existsb_app in Hb; simpl in Hb; rewrite orb_true_r in Hb. }
  induction a as [|c a IH]; cbn [app rsplit_slash]; [by rewrite Hn, Z.eqb_refl|]. by rewrite IH.
Qed.

Lemma double_slash_app s t : double_slash (s ++ t) = false -> double_slash s = false /\ double_slash t = false.
Proof.
  induction s as [|c s IH]; [done|]. destruct s as [|d s]; simpl.
  - destruct t; [done|]. by intros [_ ?]%orb_false_iff.
  - intros [H1 H2]%orb_false_iff. apply IH in H2 as [? ?]. simpl in *. by rewrite H1.
Qed.
Lemma double_slash_parent a b : double_slash (a ++ slash :: b) = false -> ends_with_slash a = false.
Proof.
  unfold ends_with_slash. case_bool_decide as Hl; [|done]. apply last_Some in Hl as [d ->].
  rewrite <- app_assoc. intros [_ H]%double_slash_app. done.
Qed.

(** The parent of a path: the path [FileBuilder::new] and [create_file] store
    stands for it. *)
Lemma stored_parent d :
  ends_with_slash d = false ->
  default [slash] (created_path (if bool_decide (d = []) || bool_decide (d = [slash]) then None else Some d)) = d ++ [slash].
Proof.
  intros Hd. case_bool_decide; [by subst|]. case_bool_decide; [by subst|]. simpl. unfold force_slash. by rewrite Hd.
Qed.

Lemma full_path_key path name :
  match created_path path with None => True | Some p => ends_with_slash p = true end ->
  full_path (created_path path) name = default [slash] (created_path path) ++ name.
Proof. unfold full_path, containing_path. destruct (created_path path) as [p|]; simpl; [by intros ->|done]. Qed.

Lemma force_slash_ends_with s : ends_with_slash (force_slash s) = true.
Proof. destruct (force_slash_ends s) as [d ->]. unfold ends_with_slash. by rewrite last_snoc, bool_decide_true. Qed.

Lemma trailing_slash p : ends_with_slash p = true -> p = take (length p - 1) p ++ [slash].
Proof.
  unfold ends_with_slash. intros Hl%bool_decide_eq_true. apply last_Some in Hl as [d ->].
  rewrite length_app. simpl. by rewrite take_app_length' by lia.
Qed.

Lemma ends_with_app a b : b <> [] -> ends_with_slash (a ++ b) = ends_with_slash b.
Proof. destruct b as [|c b _] using rev_ind; [done|]. intros _. unfold ends_with_slash. by rewrite app_assoc, !last_snoc. Qed.
Lemma name_no_end name : existsb (fun c => c =? slash) name = false -> ends_with_slash name = false.
Proof.
  unfold ends_with_slash. intros Hn. case_bool_decide as Hl; [|done]. apply last_Some in Hl as [d ->].
  rewrite existsb_app in Hn. simpl in Hn. by rewrite orb_true_r in Hn.
Qed.
Lemma find_key_split d name :
  existsb (fun c => c =? slash) name = false -> name <> [] ->
  find_key (d ++ slash :: name) = Some (Full (d ++ [slash]) name).
Proof.
  intros Hn Hne. unfold find_key. destruct (d ++ slash :: name) as [|c s] eqn:Es; [by destruct d|]. rewrite <- Es.
  replace (ends_with_slash (d ++ slash :: name)) with false.
  - by rewrite rsplit_slash_app.
  - change (slash :: name) with ([slash] ++ name). rewrite app_assoc, ends_with_app by done. by rewrite name_no_end.
Qed.

Lemma as_bytes_longer s : (length s <= length (as_bytes s))%nat.
Proof.
  induction s as [|c s IH]; [done|]. cbn [as_bytes]. rewrite length_app. simpl.
  assert (1 <= length (encode_char c))%nat; [|lia]. utf8_cases c; simpl; lia.
Qed.

(** The paths that are split at a slash: the absolute path, without its last slash. *)
Lemma builder_split {E} p path name :
  starts_with_slash p = true -> builder_new (E:=E) p = Ok (path, name) -> name <> [] ->
  exists d, absolute p = d ++ slash :: name /\ existsb (fun c => c =? slash) name = false /\
    (exists t, p = (d ++ slash :: name) ++ t) /\ find_key p = find_key (d ++ slash :: name) /\
    path = if bool_decide (d = []) || bool_decide (d = [slash]) then None else Some d.
Proof.
  intros Hs. unfold builder_new. rewrite Hs.
  set (p' := if ends_with_slash p && _ then _ else p).
  destruct p as [|c t]; [done|].
  destruct (rsplit_slash p') as [[d n]|] eqn:Er; [|done]. cbn [unwrap mbind res_bind]. intros [= <- <-] Hn.
  pose proof (rsplit_slash_spec p') as Hsp. rewrite Er in Hsp. destruct Hsp as [Hp' Hx].
  assert (ends_with_slash p' = false) as Hep'.
  { rewrite Hp'. change (slash :: n) with ([slash] ++ n). rewrite app_assoc, ends_with_app by done. by apply name_no_end. }
  assert (p' = if ends_with_slash (c :: t) then take (length (c :: t) - 1) (c :: t) else c :: t) as Ep'.
  { unfold p' in *. destruct (ends_with_slash (c :: t)) eqn:Ee; [|done]. cbn [andb] in *.
    destruct (1 <? blen _) eqn:Eb; [done|]. exfalso. by rewrite Ee in Hep'. }
  exists d. split_and!; [|done| | |done].
  - unfold absolute. rewrite <- Ep', Hp'. destruct d as [|x d]; [done|].
    assert (x = slash) as ->; [|done]. unfold starts_with_slash in Hs. apply bool_decide_eq_true in Hs. injection Hs as Hc.
    assert (exists u, c :: t = p' ++ u) as [u Hu].
    { rewrite Ep'. destruct (ends_with_slash (c :: t)); [|by exists []; rewrite app_nil_r]. eexists. symmetry. apply take_drop. }
    rewrite Hp' in Hu. injection Hu as -> _. done.
  - rewrite <- Hp', Ep'. destruct (ends_with_slash (c :: t)); [|by exists []; rewrite app_nil_r].
    eexists. symmetry. apply take_drop.
  - rewrite find_key_split by done. unfold find_key. rewrite <- Ep', Er. done.
Qed.

(** A file created from a name or path is stored under the key its path is
    looked up by, and reports the absolute path it was created from, when no
    directory of the path is unnamed. *)
Theorem created_file_found {E} p path name :
  builder_new (E:=E) p = Ok (path, name) -> invalid_name name = false -> double_slash p = false ->
  find_key p = Some (by_path_key (created_path path) name) /\ full_path (created_path path) name = absolute p.
Proof.
  intros Hb [Hx Hn%bool_decide_eq_false]%orb_false_iff Hd. destruct (starts_with_slash p) eqn:Hs.
  - destruct (builder_split p path name Hs Hb Hn) as (d & -> & _ & [t ->] & -> & ->).
    apply double_slash_app in Hd as [Hd _]. apply double_slash_parent in Hd.
    rewrite find_key_split by done. unfold by_path_key. rewrite stored_parent by done. split; [done|].
    rewrite full_path_key, stored_parent by (done || by destruct (bool_decide _ || _); simpl; rewrite ?force_slash_ends_with).
    by rewrite <- app_assoc.
  - unfold builder_new in Hb. rewrite Hs in Hb. injection Hb as <- <-.
    unfold find_key, by_path_key, full_path, containing_path, absolute. simpl.
    rewrite (name_no_end _ Hx), Hs. destruct p as [|c t]; [done|]. split; [|done].
    pose proof (rsplit_slash_spec (c :: t)) as Hsp. destruct (rsplit_slash (c :: t)) as [[a b]|]; [|done].
    destruct Hsp as [Hsp _]. rewrite Hsp, existsb_app in Hx. simpl in Hx. by rewrite orb_true_r in Hx.
Qed.

(** A moved file is found at the path it was moved to: the path itself, or the
    directory and the name it had. *)
Theorem moved_file_found {E} new_path name path' name' :
  starts_with_slash new_path = true -> double_slash new_path = false -> invalid_name name = false ->
  moved (E:=E) new_path name = Ok (path', name') -> name' <> [] ->
  find_key (if ends_with_slash new_path then new_path ++ name else new_path) = Some (by_path_key path' name').
Proof.
  intros Hs Hd [Hx Hn%bool_decide_eq_false]%orb_false_iff. unfold moved.
  destruct (ends_with_slash new_path) eqn:He.
  - cbn [unwrap mbind res_bind]. intros [= <- <-] _. pose proof (trailing_slash _ He) as Ht.
    rewrite Ht at 1. rewrite <- app_assoc. cbn [app]. rewrite find_key_split, <- Ht by done. unfold by_path_key.
    destruct (1 <? blen (as_bytes new_path)) eqn:Hl; simpl.
    + unfold force_slash. by rewrite He.
    + pose proof (as_bytes_longer new_path). apply Z.ltb_ge in Hl. unfold blen in Hl.
      destruct new_path as [|c [|? ?]]; [done| |simpl in *; lia].
      apply bool_decide_eq_true in Hs. by injection Hs as ->.
  - pose proof (rsplit_slash_spec new_path) as Hsp. destruct (rsplit_slash new_path) as [[d n]|]; [|done].
    destruct Hsp as [-> Hx']. cbn [fmap option_fmap option_map unwrap mbind res_bind]. intros [= <- <-] Hn'.
    rewrite find_key_split by done. apply double_slash_parent in Hd. unfold by_path_key.
    case_bool_decide; [by subst|]. simpl. unfold force_slash. by rewrite Hd.
Qed.

(** ** The encoding of a key *)

Lemma full_key_composite path name :
  file_key_as_ord_bytes (Full path name) = composite_as_ord_bytes EscapeNullBytes [key_string; key_string] (path, (name, tt)).
Proof.
  unfold composite_as_ord_bytes. cbn [file_key_as_ord_bytes encode_fields fst snd].
  change (encode key_cow_str) with (encode key_string). destruct (encode key_string path _) as [e1| |]; [|done..].
  cbn [mbind res_bind]. by destruct (encode key_string name e1).
Qed.

Lemma from_key_composite `{Profile} src path name :
  composite_from_ord_bytes EscapeNullBytes [key_string; key_string] src = Ok (path, (name, tt)) ->
  file_key_from_ord_bytes src = Ok (Full path name).
Proof.
  unfold composite_from_ord_bytes, file_key_from_ord_bytes. cbn [decode_fields].
  destruct (decode key_string (decoder_new EscapeNullBytes src)) as [dec [v| |]]; cbn [mbind res_bind]; [|done..].
  destruct (decode key_string dec) as [dec' [w| |]]; cbn [mbind res_bind]; [|done..].
  destruct (decoder_finish dec') as [[]| |]; cbn [mbind res_bind]; [|done..]. by intros [= -> ->].
Qed.

Lemma file_key_fields `{Profile} : KeyRoundTrip (key_tuple [key_string; key_string]).
Proof.
  assert (CompositeField (key_tuple [key_string; key_string])) by (apply key_tuple_field, ordered_composite; solve_fields).
  apply _.
Qed.

(** A file's key is read back as it was written. *)
#[export] Instance key_file_roundtrip `{Profile} : KeyRoundTrip key_file.
Proof.
  split; cbn [k_wf as_ord_bytes from_ord_bytes key_file].
  - intros [p n| | | |] bs; [|done..]. intros [Hp Hn]. rewrite full_key_composite.
    by apply (@key_bytes_ok _ file_key_fields (p, (n, tt))).
  - intros [p n| | | |] bs src; [|done..]. intros [Hp Hn]. rewrite full_key_composite. intros He Ha Hs.
    apply from_key_composite.
    by apply (@key_roundtrip _ file_key_fields (p, (n, tt)) bs).
Qed.

(** ** Concrete paths *)

Module PathExamples.

#[local] Instance debug_build : Profile := true.
Definition chars (s : string) : str := (fun c => Z.of_N (Ascii.N_of_ascii c)) <$> String.list_ascii_of_string s.

Lemma list_selects_witness :
  exists k r, file_key_as_ord_bytes (Full (chars "/a/") (chars "x")) = Ok k /\
    listing_range (list_key (chars "/a")) = Ok r /\ range_contains bytes_cmp r k = true.
Proof.
  eexists. destruct (list_selects (chars "/a") (chars "/a/") (chars "x") _ eq_refl eq_refl eq_refl eq_refl) as (r & Hr & Hc).
  exists r. split; [vm_compute; reflexivity|]. split; [exact Hr|exact Hc].
Defined.

(** A null character in a path: the bounds of a listing are not escaped as keys
    are, and a file in [/a/<null>x/] is listed as one of [/a]. *)
Lemma null_path_listed :
  exists k r, file_key_as_ord_bytes (Full (chars "/a/" ++ 0 :: chars "x/") (chars "f")) = Ok k /\
    listing_range (list_key (chars "/a")) = Ok r /\ range_contains bytes_cmp r k = true /\
    chars "/a/" ++ 0 :: chars "x/" <> force_slash (chars "/a").
Proof.
  eexists _, _. split; [vm_compute; reflexivity|]. split; [apply list_range_eq|]. split; [vm_compute; reflexivity|done].
Qed.

Lemma recursive_selects_witness :
  exists k r, file_key_as_ord_bytes (Full (chars "/a/b/") (chars "x")) = Ok k /\
    listing_range (list_recursive_key (chars "/a")) = Ok r /\ range_contains bytes_cmp r k = true.
Proof.
  eexists _, _. split; [vm_compute; reflexivity|]. split; [vm_compute; reflexivity|].
  rewrite (recursive_selects (chars "/a") (chars "/b") (chars "/a/b/") (chars "x")); vm_compute; reflexivity || done.
Defined.

(** A file directly in a directory whose path has 50 bytes is not listed below the
    directory when its name starts with a digit. *)
Definition long_path : str := chars "/users/0123456789abcdef0123456789abcdef/documents/".
Lemma recursive_misses_file :
  length long_path = 50%nat /\ long_path `prefix_of` full_path (Some long_path) (chars "1.txt") /\
  (k ← file_key_as_ord_bytes (by_path_key (Some long_path) (chars "1.txt"));
   r ← listing_range (list_recursive_key long_path);
   Ok (range_contains bytes_cmp r k)) = Ok false /\
  (k ← file_key_as_ord_bytes (by_path_key (Some long_path) (chars "a.txt"));
   r ← listing_range (list_recursive_key long_path);
   Ok (range_contains bytes_cmp r k)) = Ok true.
Proof. split; [reflexivity|]. split; [by exists (chars "1.txt")|]. split; vm_compute; reflexivity. Qed.
(** No file is listed below the empty path. *)
Lemma recursive_empty_path :
  (k ← file_key_as_ord_bytes (by_path_key None (chars "a"));
   r ← listing_range (list_recursive_key []);
   Ok (range_contains bytes_cmp r k)) = Ok false.
Proof. vm_compute. reflexivity. Qed.

Lemma created_file_found_witness :
  find_key (chars "/a/b") = Some (Full (chars "/a/") (chars "b")) /\ full_path (Some (chars "/a/")) (chars "b") = chars "/a/b".
Proof. apply (created_file_found (E:=KeyError) (chars "/a/b") (Some (chars "/a")) (chars "b")); vm_compute; reflexivity. Defined.
Lemma moved_file_found_witness : find_key (chars "/b/f") = Some (Full (chars "/b/") (chars "f")).
Proof.
  apply (moved_file_found (E:=KeyError) (chars "/b/") (chars "f") (Some (chars "/b/")) (chars "f"));
    vm_compute; reflexivity || done.
Defined.

(** A file created at a path with an unnamed directory is not found there. *)
Lemma unnamed_directory_not_found :
  builder_new (E:=KeyError) (chars "//a") = Ok (None, chars "a") /\
  by_path_key (created_path None) (chars "a") = Full (chars "/") (chars "a") /\
  find_key (chars "//a") = Some (Full (chars "//") (chars "a")).
Proof. split_and!; vm_compute; reflexivity. Qed.
End PathExamples.
