(* ===== verification/FileContents.v ===== *)
(** * Reading and writing the contents of a file

    [bonsaidb-files/src/direct.rs] and [schema/block.rs]: a file is a sequence
    of blocks.  [Contents] is a cursor over the blocks that loads some of them
    at a time, with [Read], [Seek] and [Iterator]; [BufferedAppend] collects
    what is written and appends it in one transaction.  Loading blocks and
    appending are functions of the database, parameters here; [Files] defines
    them and [FilesTheorems] instantiates them. *)

From Stdlib Require Import ZArith Lia.
From stdpp Require Import base list option numbers gmap.
From S2P Require Import Prelude Bytes Schema.

Local Open Scope Z_scope.

(** ** Blocks *)

(** [CollectionHeader<u64>]. *)
Record BlockHeader := MkBlockHeader { bh_id : Z; bh_revision : Revision }.
Record BlockInfo := MkBlockInfo { bi_offset : Z; bi_length : nat; bi_timestamp : Z; bi_header : BlockHeader }.
Record LoadedBlock := MkLoadedBlock { lb_index : nat; lb_contents : bytes }.

(** The offsets [Block::for_file] assigns. *)
Fixpoint assign_offsets (offset : Z) (blocks : list BlockInfo) : list BlockInfo :=
  match blocks with
  | [] => []
  | b :: blocks =>
      MkBlockInfo offset (bi_length b) (bi_timestamp b) (bi_header b)
        :: assign_offsets (offset + Z.of_nat (bi_length b)) blocks
  end.

(** ** [Contents] *)

Record Contents := MkContents {
  blocks : list BlockInfo;
  loaded : list LoadedBlock;
  current_block : nat;
  offset : nat;
  buffer_size : nat
}.

(** [File::contents], [Clone] and [with_buffer_size]. *)
Definition contents_new (BLOCK_SIZE : nat) (blocks : list BlockInfo) : Contents :=
  MkContents blocks [] 0 0 (BLOCK_SIZE * 10).
Definition contents_clone (c : Contents) : Contents :=
  MkContents (blocks c) [] (current_block c) (offset c) (buffer_size c).
Definition with_buffer_size (size_in_bytes : nat) (c : Contents) : Contents :=
  MkContents (blocks c) (loaded c) (current_block c) (offset c) size_in_bytes.

Definition contents_len (c : Contents) : Z :=
  match last (blocks c) with Some b => bi_offset b + Z.of_nat (bi_length b) | None => 0 end.
Definition contents_is_empty (c : Contents) : bool :=
  match blocks c with
  | [] => true
  | [b] => bool_decide (bi_length b = 0%nat)
  | _ => false
  end.
Definition contents_last_appended_at (c : Contents) : option Z := bi_timestamp <$> last (blocks c).

(** The loop of [next_blocks] over the blocks from [index] on. *)
Fixpoint last_requested (buffer_size requesting_size last_block index : nat) (bs : list BlockInfo) : nat :=
  match bs with
  | [] => last_block
  | b :: bs =>
      let size_if_requested := (bi_length b + requesting_size)%nat in
      if (buffer_size <? size_if_requested)%nat then last_block
      else last_requested buffer_size size_if_requested index (S index) bs
  end.
(** [&self.blocks[self.current_block..=last_block]] *)
Definition next_blocks {E} (c : Contents) : res E (list Z) :=
  let cur := current_block c in
  let last_block := last_requested (buffer_size c) 0 cur cur (drop cur (blocks c)) in
  if (last_block <? length (blocks c))%nat
  then Ok ((fun b => bh_id (bi_header b)) <$> take (S last_block - cur) (drop cur (blocks c)))
  else Panic.

(** Whether more blocks are to be loaded; otherwise the end is reached. *)
Definition need_blocks (c : Contents) : bool :=
  let is_last_block := (S (current_block c) =? length (blocks c))%nat in
  (current_block c <? length (blocks c))%nat ||
  (is_last_block && match last (blocks c) with Some b => (offset c <? bi_length b)%nat | None => false end).

(** [&block.contents[self.offset..]] *)
Definition from_offset {E} (offset : nat) (b : bytes) : res E bytes :=
  if (offset <=? length b)%nat then Ok (drop offset b) else Panic.

(** The inner loop of [non_blocking_read]: what the callback of [read] copies
    to a buffer of [n] bytes, and the loaded blocks, the offset and the current
    block that are left. *)
Fixpoint drain {E} (n : nat) (loaded : list LoadedBlock) (offset current_block : nat)
    : res E (bytes * list LoadedBlock * nat * nat) :=
  match loaded with
  | [] => Ok ([], [], offset, current_block)
  | b :: rest =>
      s ← from_offset offset (lb_contents b);
      let copied := take n s in
      if (0 <? length copied)%nat then Ok (copied, loaded, (offset + length copied)%nat, current_block)
      else drain n rest 0 (S current_block)
  end.

Inductive ReadResult := NeedBlocks | ReadBytes (bs : bytes) | Eof.

(** [non_blocking_read]: when the inner loop ends without a byte, no block is
    loaded and the outer loop returns what it returns at first. *)
Definition non_blocking_read {E} (n : nat) (c : Contents) : res E (ReadResult * Contents) :=
  let stopped c := (if need_blocks c then NeedBlocks else Eof, c) in
  match loaded c with
  | b :: _ =>
      if (lb_index b =? current_block c)%nat then
        '(copied, loaded, offset, current_block) ← drain n (loaded c) (offset c) (current_block c);
        let c := MkContents (blocks c) loaded current_block offset (buffer_size c) in
        if (0 <? length copied)%nat then Ok (ReadBytes copied, c) else Ok (stopped c)
      else Ok (stopped c)
  | [] => Ok (stopped c)
  end.

(** [non_blocking_read_block] *)
Definition non_blocking_read_block {E} (c : Contents) : res E (ReadResult * Contents) :=
  let rest := tail (loaded c) in
  let c' := MkContents (blocks c) rest (current_block c) (offset c) (buffer_size c) in
  let stopped := (if need_blocks c' then NeedBlocks else Eof, c') in
  match loaded c with
  | b :: _ =>
      if (lb_index b =? current_block c)%nat then
        s ← (if (0 <? offset c)%nat then from_offset (offset c) (lb_contents b) else Ok (lb_contents b));
        Ok (ReadBytes s, MkContents (blocks c) rest (S (current_block c)) 0 (buffer_size c))
      else Ok stopped
  | [] => Ok stopped
  end.

Section Load.
Context {E : Type}.
(** [Block::load]: the contents of the blocks found, by id. *)
Context (load : list Z -> res E (list (Z * bytes))).

Definition load_blocks (c : Contents) : res E Contents :=
  ids ← next_blocks c;
  found ← load ids;
  Ok (MkContents (blocks c) (imap (fun i b => MkLoadedBlock (current_block c + i) b.2) found)
        (current_block c) (offset c) (buffer_size c)).

(** [Read::read] of a buffer of [n] bytes: the bytes read.  [None] stands for
    more than [fuel] rounds of the loop. *)
Fixpoint read (fuel n : nat) (c : Contents) : option (res E (bytes * Contents)) :=
  match fuel with
  | O => None
  | S fuel =>
      match non_blocking_read n c with
      | Ok (ReadBytes bs, c) => Some (Ok (bs, c))
      | Ok (Eof, c) => Some (Ok ([], c))
      | Ok (NeedBlocks, c) =>
          match load_blocks c with
          | Ok c => read fuel n c
          | Err e => Some (Err e)
          | Panic => Some Panic
          end
      | Err e => Some (Err e)
      | Panic => Some Panic
      end
  end.

(** [Iterator::next] *)
Fixpoint next_block (fuel : nat) (c : Contents) : option (res E (option bytes * Contents)) :=
  match fuel with
  | O => None
  | S fuel =>
      match non_blocking_read_block c with
      | Ok (ReadBytes bs, c) => Some (Ok (Some bs, c))
      | Ok (Eof, c) => Some (Ok (None, c))
      | Ok (NeedBlocks, c) =>
          match load_blocks c with
          | Ok c => next_block fuel c
          | Err e => Some (Err e)
          | Panic => Some Panic
          end
      | Err e => Some (Err e)
      | Panic => Some Panic
      end
  end.

(** [Read::read_to_end]: reads until nothing is read.  The sizes of the buffers
    are those the standard library chooses. *)
Fixpoint read_to_end (fuel rounds : nat) (sizes : nat -> nat) (c : Contents) : option (res E (bytes * Contents)) :=
  match rounds with
  | O => None
  | S rounds =>
      match read fuel (sizes rounds) c with
      | Some (Ok ([], c)) => Some (Ok ([], c))
      | Some (Ok (bs, c)) =>
          match read_to_end fuel rounds sizes c with
          | Some (Ok (rest, c)) => Some (Ok (bs ++ rest, c))
          | o => o
          end
      | o => o
      end
  end.
(** [into_vec] and [to_vec] *)
Definition into_vec (fuel rounds : nat) (sizes : nat -> nat) (c : Contents) : option (res E bytes) :=
  match read_to_end fuel rounds sizes c with
  | Some (Ok (bs, _)) => Some (Ok bs)
  | Some (Err e) => Some (Err e)
  | Some Panic => Some Panic
  | None => None
  end.
Definition to_vec (fuel rounds : nat) (sizes : nat -> nat) (c : Contents) : option (res E bytes) :=
  into_vec fuel rounds sizes (contents_clone c).
End Load.

(** ** [Seek] *)

Inductive SeekFrom := SeekStart (offset : Z) | SeekEnd (from_end : Z) | SeekCurrent (from_current : Z).

Fixpoint find_block (index : nat) (seek_to : Z) (bs : list BlockInfo) : option (nat * BlockInfo) :=
  match bs with
  | [] => None
  | b :: bs =>
      if seek_to <? bi_offset b + Z.of_nat (bi_length b) then Some (index, b) else find_block (S index) seek_to bs
  end.

Definition seek_position `{Profile} {E} (pos : SeekFrom) (c : Contents) : res E (option Z) :=
  match pos with
  | SeekStart offset => Ok (Some offset)
  | SeekEnd from_end =>
      if from_end <? 0 then p ← op_sub u64 (contents_len c) (Z.min (int_max i64) (Z.abs from_end)); Ok (Some p)
      else Ok (Some (contents_len c))
  | SeekCurrent from_current =>
      match blocks c with
      | [] => Ok None
      | _ =>
          b ← unwrap (blocks c !! current_block c);
          position ← unwrap (try_from_int i64 (bi_offset b + Z.of_nat (offset c)));
          sum ← op_add i64 position from_current;
          p ← unwrap (try_from_int u64 sum);
          Ok (Some p)
      end
  end.

Definition seek `{Profile} {E} (pos : SeekFrom) (c : Contents) : res E (Z * Contents) :=
  let at_ cur off := MkContents (blocks c) (loaded c) cur off (buffer_size c) in
  seek_to ← seek_position pos c;
  match seek_to with
  | None => Ok (0, c)
  | Some seek_to =>
      match find_block 0 seek_to (blocks c) with
      | Some (index, block) =>
          off ← op_sub u64 seek_to (bi_offset block);
          Ok (seek_to, at_ index (Z.to_nat off))
      | None =>
          match last (blocks c) with
          | Some last_block =>
              Ok (bi_offset last_block + Z.of_nat (bi_length last_block),
                  at_ (length (blocks c) - 1)%nat (bi_length last_block))
          | None => Ok (0, at_ 0%nat 0%nat)
          end
      end
  end.

(** ** Truncating *)

Inductive Truncate := RemovingStart | RemovingEnd.

Definition total_length (bs : list BlockInfo) : Z := foldr (fun b n => Z.of_nat (bi_length b) + n) 0 bs.

(** The loop of [create_truncate_transaction]: the blocks to delete, in order.
    Each round removes a block. *)
Fixpoint truncate_loop (fuel : nat) (from : Truncate) (bytes_to_remove : Z) (bs : list BlockInfo) : list BlockInfo :=
  match fuel with
  | O => []
  | S fuel =>
      if (0 <? bytes_to_remove) && negb (bool_decide (bs = [])) then
        match (match from with RemovingStart => head bs | RemovingEnd => last bs end) with
        | Some b =>
            let block_length := Z.of_nat (bi_length b) in
            if block_length <=? bytes_to_remove then
              b :: truncate_loop fuel from (bytes_to_remove - block_length)
                     (match from with RemovingStart => tail bs | RemovingEnd => take (length bs - 1) bs end)
            else []
        | None => []
        end
      else []
  end.
Definition truncated_blocks (bs : list BlockInfo) (new_length : Z) (from : Truncate) : list BlockInfo :=
  if new_length <=? total_length bs
  then truncate_loop (length bs) from (total_length bs - new_length) bs
  else [].

(** ** [BufferedAppend] *)

Record BufferedAppend := MkBufferedAppend { buffer : bytes; capacity : nat }.
Definition append_buffered : BufferedAppend := MkBufferedAppend [] 0.
Definition ONE_MEGABYTE : nat := 1024 * 1024.

Section Append.
Context {S E : Type}.
(** [File::append] *)
Context (append : bytes -> stm S E unit).
Abbreviation appendm := (stm (BufferedAppend * S) E).

Definition flush : appendm unit := fun bs =>
  match append (buffer bs.1) bs.2 with
  | (Ok _, s) => (Ok tt, (MkBufferedAppend [] (capacity bs.1), s))
  | (Err e, s) => (Err e, (bs.1, s))
  | (Panic, s) => (Panic, (bs.1, s))
  end.

Definition set_buffer_size (new_capacity : nat) : appendm unit :=
  bs ← st_get;
  (if (0 <? capacity bs.1)%nat then flush else mret tt);;
  st_modify (fun bs => (MkBufferedAppend [] new_capacity, bs.2)).

Definition write (BLOCK_SIZE : nat) (data : bytes) : appendm nat :=
  bs ← st_get;
  (if (capacity bs.1 =? 0)%nat
   then st_modify (fun bs => (MkBufferedAppend (buffer bs.1) (ONE_MEGABYTE / BLOCK_SIZE * BLOCK_SIZE), bs.2))
   else if (capacity bs.1 =? length (buffer bs.1))%nat then flush
   else mret tt);;
  bs ← st_get;
  match data with
  | [] => mret 0%nat
  | _ =>
      let bytes_to_write := Nat.min (length data) (capacity bs.1 - length (buffer bs.1)) in
      st_put (MkBufferedAppend (buffer bs.1 ++ take bytes_to_write data) (capacity bs.1), bs.2);;
      mret bytes_to_write
  end.

(** [Drop]: the result of flushing is ignored. *)
Definition drop_append : appendm unit := fun bs => (Ok tt, (flush bs).2).
End Append.
