(* ===== verification/FileContentsTheorems.v ===== *)
(** * Reading gives back what was written

    A cursor over the blocks of a file returns the bytes of the file in order,
    whatever the sizes of the buffers and of the blocks loaded at a time;
    seeking moves it to the position asked for; truncating removes whole blocks
    at one end; and buffered writes append exactly what was accepted. *)

From Stdlib Require Import ZArith Lia.
From stdpp Require Import base list option numbers gmap.
From S2P Require Import Prelude Bytes Schema FileContents.

Local Open Scope Z_scope.

(** The blocks [bs] describe a file of the chunks [cs]. *)
Record describes (bs : list BlockInfo) (cs : list bytes) : Prop := {
  desc_lengths : Forall2 (fun b ch => bi_length b = length ch) bs cs;
  desc_offsets i b : bs !! i = Some b -> bi_offset b = Z.of_nat (length (concat (take i cs)))
}.

Lemma assign_offsets_lookup z bs i b :
  assign_offsets z bs !! i = Some b ->
  exists b0, bs !! i = Some b0 /\ bi_length b = bi_length b0 /\ bi_header b = bi_header b0 /\
    bi_offset b = z + Z.of_nat (sum_list (bi_length <$> take i bs)).
Proof.
  revert z i. induction bs as [|b0 bs IH]; intros z [|i]; simpl; try done.
  - intros [= <-]. exists b0. simpl. split_and!; [done..|lia].
  - intros (b1 & ? & ? & ? & ->)%IH. exists b1. split_and!; [done..|]. change (list_fmap BlockInfo nat bi_length (take i bs)) with (bi_length <$> take i bs). lia.
Qed.

Lemma assign_offsets_lengths z bs : bi_length <$> assign_offsets z bs = bi_length <$> bs.
Proof. revert z. induction bs as [|b bs IH]; intros z; simpl; [done|]. by rewrite IH. Qed.

Lemma concat_length (cs : list bytes) : length (concat cs) = sum_list (length <$> cs).
Proof. induction cs as [|c cs IH]; [done|]. simpl. by rewrite length_app, IH. Qed.

(** The blocks [Block::for_file] returns. *)
Lemma assign_offsets_describes bs cs :
  Forall2 (fun b ch => bi_length b = length ch) bs cs -> describes (assign_offsets 0 bs) cs.
Proof.
  intros Hl. assert (bi_length <$> bs = length <$> cs) as He by (by apply list_eq_Forall2, Forall2_fmap).
  split.
  - apply Forall2_fmap, list_eq_Forall2. by rewrite assign_offsets_lengths.
  - intros i b (b0 & Hb & _ & _ & ->)%assign_offsets_lookup. rewrite concat_length, !fmap_take, He, Z.add_0_l. done.
Qed.

Section Reading.
Context {E : Type} (load : list Z -> res E (list (Z * bytes))).
Context (bs : list BlockInfo) (cs : list bytes) (Hdesc : describes bs cs).

Abbreviation block_ids l := ((fun b => bh_id (bi_header b)) <$> l).

(** Every block is still stored. *)
Context (Hload : forall i k, load (block_ids (take k (drop i bs))) = Ok (zip (block_ids (take k (drop i bs))) (take k (drop i cs)))).

Lemma same_length : length bs = length cs.
Proof. apply (Forall2_length _ _ _ (desc_lengths _ _ Hdesc)). Qed.

(** The loaded blocks are some of the chunks, in order. *)
Definition loaded_at (j : nat) (l : list bytes) : list LoadedBlock := imap (fun i ch => MkLoadedBlock (j + i) ch) l.

Record cursor_ok (c : Contents) : Prop := {
  co_blocks : blocks c = bs;
  co_current : (current_block c <= length cs)%nat;
  co_offset : (offset c <= length (default [] (cs !! current_block c)))%nat;
  co_loaded : exists j k, loaded c = loaded_at j (take k (drop j cs))
}.

(** The bytes from the position of the cursor on. *)
Definition remaining (c : Contents) : bytes := drop (offset c) (concat (drop (current_block c) cs)).

Lemma loaded_at_cons j ch l : loaded_at j (ch :: l) = MkLoadedBlock j ch :: loaded_at (S j) l.
Proof.
  unfold loaded_at. simpl. rewrite Nat.add_0_r. f_equal. apply imap_ext. intros i x _. simpl. by rewrite Nat.add_succ_r.
Qed.

(** Draining consecutive chunks [l] that start at the current block. *)
Lemma drain_ok n l off cur :
  (0 < n)%nat -> (off <= length (default [] (head l)))%nat ->
  exists copied l' off' cur',
    drain (E := E) n (loaded_at cur l) off cur = Ok (copied, loaded_at cur' l', off', cur') /\
    (length copied <= n)%nat /\
    drop off (concat l) = copied ++ drop off' (concat l') /\
    (off' <= length (default [] (head l')))%nat /\
    (exists pre, l = pre ++ l' /\ cur' = (cur + length pre)%nat) /\
    (copied = [] -> l' = [] /\ off' = 0%nat \/ l = []).
Proof.
  intros Hn. revert off cur. induction l as [|ch l IH]; intros off cur Hoff.
  { simpl in Hoff. assert (off = 0%nat) as -> by lia. exists [], [], 0%nat, cur. split_and!; simpl; try done; try lia; [exists []; split; [done|simpl; lia]|by right]. }
  simpl in Hoff. rewrite loaded_at_cons. cbn [drain lb_contents]. unfold from_offset.
  rewrite (proj2 (Nat.leb_le _ _)) by lia. cbn [mbind res_bind]. destruct (Nat.ltb_spec 0 (length (take n (drop off ch)))) as [Hc|Hc].
  - exists (take n (drop off ch)), (ch :: l), (off + length (take n (drop off ch)))%nat, cur.
    rewrite loaded_at_cons. split_and!; [done|rewrite length_take; lia| | | |].
    + simpl. rewrite !drop_app_le by (rewrite ?length_take, ?length_drop; lia).
      rewrite app_assoc. f_equal. rewrite <- (take_drop n (drop off ch)) at 1. f_equal.
      rewrite drop_drop, length_take, length_drop. destruct (decide (n <= length ch - off)%nat) as [Hle|Hle].
      * by rewrite Nat.min_l by lia.
      * rewrite Nat.min_r by lia. rewrite !drop_ge by lia. done.
    + simpl. rewrite length_take, length_drop. lia.
    + exists []. split; [done|simpl; lia].
    + intros He. rewrite He in Hc. simpl in Hc. lia.
  - assert (drop off ch = []) as Hnil.
    { rewrite length_take, length_drop in Hc. apply drop_ge. lia. }
    destruct (IH 0%nat (S cur)) as (copied & l' & off' & cur' & Hrun & Hlen & Happ & Hoff' & (pre & Hl & Hcur) & He).
    { destruct l; simpl; lia. }
    exists copied, l', off', cur'. split_and!; [done|done| |done|exists (ch :: pre); split; [by rewrite Hl|simpl; lia]|].
    + simpl. rewrite drop_app_le by lia. rewrite Hnil. done.
    + intros Hcp. left. destruct (He Hcp) as [|Hl0]; [done|]. subst l.
      destruct pre; [|done]. destruct l'; [|done]. split; [done|]. simpl in Hoff'. lia.
Qed.

Lemma head_drop_lookup {A} i (l : list A) : head (drop i l) = l !! i.
Proof. revert i. induction l as [|x l IH]; intros [|i]; simpl; [done..|apply IH]. Qed.

Lemma head_le_concat (l : list bytes) : (length (default [] (head l)) <= length (concat l))%nat.
Proof. destruct l; simpl; [lia|]. rewrite length_app. lia. Qed.

Lemma concat_drop_take j k : concat (drop j cs) = concat (take k (drop j cs)) ++ concat (drop (j + k) cs).
Proof. rewrite <- concat_app. f_equal. by rewrite <- drop_drop, take_drop. Qed.

(** At the end of the file nothing remains; elsewhere blocks are needed. *)
Lemma need_blocks_iff c :
  blocks c = bs -> (current_block c <= length cs)%nat ->
  need_blocks c = bool_decide (current_block c < length cs)%nat.
Proof.
  intros Hb Hc. unfold need_blocks. rewrite Hb, same_length. destruct (Nat.ltb_spec (current_block c) (length cs)).
  - by rewrite bool_decide_true by lia.
  - rewrite bool_decide_false by lia. rewrite (proj2 (Nat.eqb_neq _ _)) by lia. done.
Qed.

Lemma at_end c : (current_block c = length cs)%nat -> remaining c = [].
Proof. intros Hc. unfold remaining. rewrite Hc, drop_all. by destruct (offset c). Qed.

(** The first loaded block is the current one. *)
Definition fresh (c : Contents) : Prop := exists k, (0 < k)%nat /\ loaded c = loaded_at (current_block c) (take k (drop (current_block c) cs)).

Lemma last_requested_bounds size r lst index l :
  (lst <= index)%nat ->
  let m := last_requested size r lst index l in (lst <= m)%nat /\ (m = lst \/ (m < index + length l)%nat).
Proof.
  revert r lst index. induction l as [|b l IH]; intros r lst index Hle; simpl; [lia|].
  destruct (_ <? _)%nat; [lia|]. destruct (IH (bi_length b + r)%nat index (S index)) as [? [?|?]]; simpl in *; lia.
Qed.

Lemma load_blocks_ok c :
  cursor_ok c -> (current_block c < length cs)%nat ->
  exists c', load_blocks load c = Ok c' /\ cursor_ok c' /\ fresh c' /\
    current_block c' = current_block c /\ offset c' = offset c /\ buffer_size c' = buffer_size c.
Proof.
  intros [Hb Hc Ho Hl] Hlt. unfold load_blocks, next_blocks. rewrite Hb.
  pose proof (last_requested_bounds (buffer_size c) 0 (current_block c) (current_block c) (drop (current_block c) bs) ltac:(lia)) as [Hge Hlast].
  rewrite length_drop, same_length in Hlast. rewrite (proj2 (Nat.ltb_lt _ _)) by (rewrite same_length; lia).
  cbn [mbind res_bind]. rewrite Hload. cbn [mbind res_bind].
  eexists. split; [done|]. set (k := (S _ - current_block c)%nat).
  assert ((imap (fun i b => MkLoadedBlock (current_block c + i) b.2)
      (zip (block_ids (take k (drop (current_block c) bs))) (take k (drop (current_block c) cs)))) =
      loaded_at (current_block c) (take k (drop (current_block c) cs))) as ->.
  { unfold loaded_at. rewrite <- (snd_zip (block_ids (take k (drop (current_block c) bs))) (take k (drop (current_block c) cs))) at 2.
    - by rewrite imap_fmap.
    - rewrite length_fmap, !length_take, !length_drop, same_length. lia. }
  split_and!; try done.
  - split; [done|done|done|]. by exists (current_block c), k.
  - exists k. split; [lia|done].
Qed.

(** Draining the loaded blocks moves the cursor over what it copies. *)
Lemma drain_moves n k cur off :
  (0 < n)%nat -> (0 < k)%nat -> (cur <= length cs)%nat -> (off <= length (default [] (cs !! cur)))%nat ->
  exists copied k' off' cur',
    drain (E := E) n (loaded_at cur (take k (drop cur cs))) off cur =
      Ok (copied, loaded_at cur' (take k' (drop cur' cs)), off', cur') /\
    (length copied <= n)%nat /\ (cur <= cur' <= length cs)%nat /\
    (off' <= length (default [] (cs !! cur')))%nat /\
    drop off (concat (drop cur cs)) = copied ++ drop off' (concat (drop cur' cs)) /\
    (copied = [] -> (cur < length cs)%nat -> (cur < cur')%nat).
Proof.
  intros Hn Hk Hcur Hoff.
  assert (head (take k (drop cur cs)) = cs !! cur) as Hhead.
  { rewrite <- head_drop_lookup. destruct k; [lia|]. by destruct (drop cur cs). }
  destruct (drain_ok n (take k (drop cur cs)) off cur Hn) as (copied & l' & off' & cur' & Hrun & Hlen & Happ & Hoff' & (pre & Hl & ->) & He).
  { by rewrite Hhead. }
  assert (length pre + length l' <= length cs - cur)%nat as Hlens.
  { rewrite <- length_app, <- Hl, length_take, length_drop. lia. }
  assert (l' = take (length l') (drop (cur + length pre) cs)) as Hl'.
  { rewrite <- drop_drop. rewrite <- (take_drop k (drop cur cs)) at 1. rewrite Hl, <- app_assoc, drop_app_length, take_app_length. done. }
  assert (concat (drop cur cs) = concat (take k (drop cur cs)) ++ concat (drop (cur + k) cs)) as Hsplit by apply concat_drop_take.
  exists copied, (length l'), off', (cur + length pre)%nat. rewrite <- Hl'. split_and!; [done|done|lia|lia| | |].
  - destruct l' as [|x l']; [simpl in Hoff'; lia|]. rewrite <- head_drop_lookup.
    destruct (drop (cur + length pre) cs); [done|]. injection Hl' as -> _. done.
  - rewrite Hsplit, drop_app_le by (transitivity (length (default [] (head (take k (drop cur cs))))); [by rewrite Hhead|apply head_le_concat]).
    rewrite Happ, <- app_assoc. f_equal. rewrite (concat_drop_take (cur + length pre) (length l')), <- Hl'.
    rewrite drop_app_le by (etrans; [exact Hoff'|apply head_le_concat]). f_equal. f_equal.
    assert (length pre + length l' = k `min` (length cs - cur))%nat as Hk' by (rewrite <- length_app, <- Hl, length_take, length_drop; done).
    destruct (decide (k <= length cs - cur)%nat); [f_equal; lia|]. rewrite !drop_ge by lia. done.
  - intros Hcp Hlt. destruct (He Hcp) as [[-> _]|Hnil].
    + rewrite app_nil_r in Hl. assert (length (take k (drop cur cs)) = length pre) as Hp by by rewrite Hl.
      rewrite length_take, length_drop in Hp. lia.
    + apply (f_equal length) in Hnil. rewrite length_take, length_drop in Hnil. simpl in Hnil. lia.
Qed.

(** What a call that does not load blocks returns.  When the first loaded block
    is the current one and nothing is read, the cursor has moved to another
    block. *)
Definition read_post (n : nat) (c : Contents) (r : ReadResult) (c' : Contents) : Prop :=
  match r with
  | ReadBytes b => b <> [] /\ (length b <= n)%nat /\ remaining c = b ++ remaining c'
  | Eof => remaining c = [] /\ remaining c' = []
  | NeedBlocks =>
      remaining c = remaining c' /\ (current_block c' < length cs)%nat /\
      (fresh c -> (current_block c < current_block c')%nat)
  end.

Lemma stopped_post n c c' :
  cursor_ok c' -> remaining c = remaining c' -> (current_block c <= current_block c')%nat ->
  ((current_block c < length cs)%nat -> fresh c -> (current_block c < current_block c')%nat) ->
  read_post n c (if need_blocks c' then NeedBlocks else Eof) c'.
Proof.
  intros [Hb' Hc' Ho' Hl'] Hr Hle Hf. rewrite need_blocks_iff by done. case_bool_decide.
  - split_and!; [done|done|]. intros ?. destruct (decide (current_block c < length cs)%nat); [auto|lia].
  - split; [rewrite Hr|]; apply at_end; lia.
Qed.

(** A cursor that is not over its loaded blocks is not [fresh]. *)
Lemma not_fresh c : (current_block c < length cs)%nat -> (forall b, head (loaded c) = Some b -> lb_index b <> current_block c) -> ~ fresh c.
Proof.
  intros Hlt Hh (k & Hk & Hl). rewrite Hl in Hh. destruct k; [lia|].
  destruct (drop (current_block c) cs) as [|ch l] eqn:Hd; [apply (f_equal length) in Hd; rewrite length_drop in Hd; simpl in Hd; lia|].
  simpl in Hh. eapply Hh; [done|simpl; lia].
Qed.

Lemma non_blocking_read_ok n c :
  (0 < n)%nat -> cursor_ok c ->
  exists r c', non_blocking_read (E := E) n c = Ok (r, c') /\ cursor_ok c' /\
    (current_block c <= current_block c')%nat /\ read_post n c r c'.
Proof.
  intros Hn Hok. pose proof Hok as [Hb Hc Ho (j & k & Hl)].
  assert (Hnf : (forall b, head (loaded c) = Some b -> lb_index b <> current_block c) ->
    exists r c', Ok (E := E) (if need_blocks c then NeedBlocks else Eof, c) = Ok (r, c') /\ cursor_ok c' /\
      (current_block c <= current_block c')%nat /\ read_post n c r c').
  { intros Hh. eexists _, c. split_and!; [done|done|done|]. apply stopped_post; [done..|]. intros Hlt Hf. by apply not_fresh in Hf. }
  unfold non_blocking_read. rewrite Hl. destruct (take k (drop j cs)) as [|ch l] eqn:Htake.
  { apply Hnf. by rewrite Hl. }
  rewrite loaded_at_cons. cbn [lb_index]. destruct (Nat.eqb_spec j (current_block c)) as [->|Hne]; last first.
  { apply Hnf. rewrite Hl, loaded_at_cons. by intros ? [= <-]. }
  rewrite <- loaded_at_cons, <- Htake.
  destruct (drain_moves n k (current_block c) (offset c) Hn) as (copied & k' & off' & cur' & -> & Hlen & Hcur & Hoff' & Hrem & Hmv); [by destruct k; [|lia]|done|done|].
  cbn [mbind res_bind]. set (c' := MkContents _ _ _ _ _). assert (cursor_ok c') as Hok' by (split; [done|simpl; lia|done|by exists cur', k']).
  destruct (Nat.ltb_spec 0 (length copied)) as [Hcp|Hcp].
  - exists (ReadBytes copied), c'. unfold read_post. split_and!; [done|done|simpl; lia| |done|done]. by destruct copied; simpl in Hcp; [lia|].
  - destruct copied; [|simpl in Hcp; lia]. eexists _, c'. split; [done|]. split; [done|]. split; [simpl; lia|]. apply stopped_post; [done|done|simpl; lia|]. simpl. auto.
Qed.

(** [Read::read]: one more round than there are blocks left is enough when the
    current block is loaded, two otherwise. *)
Lemma read_ok fuel n c :
  (0 < n)%nat -> cursor_ok c ->
  (length cs - current_block c + 2 <= fuel)%nat \/ fresh c /\ (length cs - current_block c + 1 <= fuel)%nat ->
  exists b c', read load fuel n c = Some (Ok (b, c')) /\ cursor_ok c' /\ (length b <= n)%nat /\
    (current_block c <= current_block c')%nat /\
    remaining c = b ++ remaining c' /\ (b = [] -> remaining c = []).
Proof.
  intros Hn. revert c. induction fuel as [|fuel IH]; intros c Hok Hfuel; [lia|]. cbn [read].
  destruct (non_blocking_read_ok n c Hn Hok) as (r & c' & -> & Hok' & Hle & Hr). destruct r as [|b|].
  - destruct Hr as (Hr & Hlt & Hf). destruct (load_blocks_ok c' Hok' Hlt) as (c'' & -> & Hok'' & Hfr & Hcur & Hoff & _).
    assert (remaining c' = remaining c'') as Hr'' by (unfold remaining; by rewrite Hcur, Hoff).
    destruct (IH c'' Hok'') as (b & c3 & -> & Hok3 & Hlen & Hcur3 & Hr3 & He3).
    { right. split; [done|]. rewrite Hcur. destruct Hfuel as [|[Hfc ?]]; [lia|]. specialize (Hf Hfc). lia. }
    exists b, c3. rewrite Hr, Hr''. split_and!; [done|done|done|lia|done|done].
  - destruct Hr as (Hne & Hlen & Hr). exists b, c'. by split_and!.
  - destruct Hr as [Hr Hr']. exists [], c'. rewrite Hr, Hr'. split_and!; [done|done|simpl; lia|done|done|done].
Qed.

(** The bytes that are left bound the number of reads. *)
Lemma read_to_end_ok fuel rounds sizes c :
  (forall i, 0 < sizes i)%nat -> cursor_ok c ->
  (length cs + 2 <= fuel)%nat -> (length (remaining c) < rounds)%nat ->
  exists c', read_to_end load fuel rounds sizes c = Some (Ok (remaining c, c')) /\ cursor_ok c' /\ remaining c' = [].
Proof.
  intros Hs. revert c. induction rounds as [|rounds IH]; intros c Hok Hfuel Hrounds; [lia|]. cbn [read_to_end].
  destruct (read_ok fuel (sizes rounds) c (Hs rounds) Hok ltac:(lia)) as (b & c' & -> & Hok' & _ & _ & Hr & He).
  destruct b as [|x b].
  - exists c'. rewrite Hr in He. specialize (He eq_refl). by rewrite Hr, He.
  - rewrite Hr in Hrounds |- *. rewrite length_app in Hrounds. simpl in Hrounds.
    destruct (IH c' Hok' Hfuel ltac:(lia)) as (c'' & -> & ? & ?). by exists c''.
Qed.

(** The first of the loaded blocks and the others. *)
Lemma loaded_head c b l :
  cursor_ok c -> loaded c = b :: l ->
  exists k, cs !! lb_index b = Some (lb_contents b) /\ l = loaded_at (S (lb_index b)) (take k (drop (S (lb_index b)) cs)).
Proof.
  intros [_ _ _ (j & k & Hl)] Hcons. rewrite Hl in Hcons. destruct k as [|k]; [done|].
  destruct (cs !! j) as [ch|] eqn:Hch; last first.
  { apply lookup_ge_None in Hch. by rewrite drop_ge in Hcons. }
  rewrite (drop_S _ _ _ Hch) in Hcons. cbn [take] in Hcons. rewrite loaded_at_cons in Hcons. simplify_eq. by exists k.
Qed.

Lemma cursor_ok_tail c : cursor_ok c -> cursor_ok (MkContents (blocks c) (tail (loaded c)) (current_block c) (offset c) (buffer_size c)).
Proof.
  intros Hok. pose proof Hok as [Hb Hc Ho Hl]. split; [done..|]. simpl. destruct (loaded c) as [|b l] eqn:Hld; [by exists 0%nat, 0%nat|].
  destruct (loaded_head c b l Hok Hld) as (k & _ & ->). by eexists _, _.
Qed.

Definition read_block_post (c : Contents) (r : ReadResult) (c' : Contents) : Prop :=
  match r with
  | ReadBytes b => current_block c' = S (current_block c) /\ remaining c = b ++ remaining c'
  | Eof => remaining c = []
  | NeedBlocks => current_block c' = current_block c /\ (current_block c' < length cs)%nat /\ remaining c = remaining c' /\ ~ fresh c
  end.

Lemma non_blocking_read_block_ok c :
  cursor_ok c -> exists r c', non_blocking_read_block (E := E) c = Ok (r, c') /\ cursor_ok c' /\ read_block_post c r c'.
Proof.
  intros Hok. pose proof Hok as [Hb Hc Ho _]. pose proof (cursor_ok_tail c Hok) as Hok'. unfold non_blocking_read_block.
  assert (Hnf : (forall b, head (loaded c) = Some b -> lb_index b <> current_block c) -> forall c',
    cursor_ok c' -> current_block c' = current_block c -> offset c' = offset c ->
    exists r c'', Ok (E := E) (if need_blocks c' then NeedBlocks else Eof, c') = Ok (r, c'') /\ cursor_ok c'' /\ read_block_post c r c'').
  { intros Hh c' Hc' Hcur Hoff. eexists _, _. split; [done|]. split; [done|]. rewrite need_blocks_iff by apply Hc'. rewrite Hcur. case_bool_decide.
    - split_and!; [done|lia|unfold remaining; by rewrite Hcur, Hoff|by apply not_fresh].
    - apply at_end. lia. }
  destruct (loaded c) as [|b l] eqn:Hld; [by apply Hnf|].
  destruct (Nat.eqb_spec (lb_index b) (current_block c)) as [He|He]; [|apply Hnf; [by intros ? [= <-]|done..]].
  destruct (loaded_head c b l Hok Hld) as (k & Hch & ->). rewrite He in Hch |- *. rewrite Hch in Ho. simpl in Ho.
  eassert ((if (0 <? offset c)%nat then from_offset (E := E) (offset c) (lb_contents b) else Ok (lb_contents b)) = Ok (drop (offset c) (lb_contents b))) as ->.
  { unfold from_offset. destruct (Nat.ltb_spec 0 (offset c)); [by rewrite (proj2 (Nat.leb_le _ _)) by lia|]. by replace (offset c) with 0%nat by lia. }
  cbn [mbind res_bind]. eexists _, _. split; [done|]. apply lookup_lt_Some in Hch as Hlt. split; [|split; [done|]].
  - split; simpl; [done|lia|lia|]. by eexists _, k.
  - unfold remaining. simpl. rewrite (drop_S _ _ _ Hch). simpl. by rewrite drop_app_le, drop_0 by lia.
Qed.

(** [Iterator::next] returns what is left of the current block. *)
Lemma next_block_ok fuel c :
  cursor_ok c -> (2 <= fuel)%nat ->
  exists r c', next_block load fuel c = Some (Ok (r, c')) /\ cursor_ok c' /\
    match r with
    | Some b => current_block c' = S (current_block c) /\ remaining c = b ++ remaining c'
    | None => remaining c = []
    end.
Proof.
  intros Hok Hfuel. destruct fuel as [|[|fuel]]; [lia..|]. cbn [next_block].
  destruct (non_blocking_read_block_ok c Hok) as (r & c1 & -> & Hok1 & Hr). destruct r as [|b|]; [|by eexists _, _..].
  destruct Hr as (Hcur & Hlt & Hrem & _). destruct (load_blocks_ok c1 Hok1 Hlt) as (c2 & -> & Hok2 & Hf & Hcur2 & Hoff2 & _).
  destruct (non_blocking_read_block_ok c2 Hok2) as (r & c3 & -> & Hok3 & Hr3).
  assert (remaining c = remaining c2) as -> by (rewrite Hrem; unfold remaining; by rewrite Hcur2, Hoff2).
  destruct r as [|b|]; [by destruct Hr3 as (_ & _ & _ & [])| |]; eexists _, c3; (split; [done|]); (split; [done|]); [|done].
  destruct Hr3. by rewrite <- Hcur, <- Hcur2.
Qed.

(** *** Seeking *)

Lemma contents_len_ok c : blocks c = bs -> contents_len c = Z.of_nat (length (concat cs)).
Proof.
  intros Hb. unfold contents_len. rewrite Hb, last_lookup. pose proof same_length as Hsame.
  destruct (bs !! pred (length bs)) as [b|] eqn:Hl; last first.
  - apply lookup_ge_None in Hl. assert (length cs = 0)%nat as Hz by lia. by apply nil_length_inv in Hz as ->.
  - rewrite (desc_offsets _ _ Hdesc _ _ Hl). destruct (Forall2_lookup_l _ _ _ _ _ (desc_lengths _ _ Hdesc) Hl) as (ch & Hch & ->).
    rewrite Hsame in Hch |- *. rewrite <- Nat2Z.inj_add, <- length_app. do 2 f_equal.
    pose proof (f_equal (@concat _) (take_drop_middle cs _ ch Hch)) as Hm. pose proof (lookup_lt_Some _ _ _ Hch).
    rewrite concat_app, drop_ge in Hm by lia. simpl in Hm. by rewrite app_nil_r in Hm.
Qed.

Lemma find_block_ok k z p (l : list BlockInfo) (ls : list bytes) :
  Forall2 (fun b ch => bi_length b = length ch) l ls ->
  (forall i b, l !! i = Some b -> bi_offset b = z + Z.of_nat (length (concat (take i ls)))) -> z <= p ->
  match find_block k p l with
  | Some (i, b) => exists m, i = (k + m)%nat /\ l !! m = Some b /\ bi_offset b <= p < bi_offset b + Z.of_nat (bi_length b) /\
      drop (Z.to_nat (p - z)) (concat ls) = drop (Z.to_nat (p - bi_offset b)) (concat (drop m ls))
  | None => z + Z.of_nat (length (concat ls)) <= p
  end.
Proof.
  intros Hall. revert k z. induction Hall as [|b ch l ls Hb Hall IH]; intros k z Ho Hp; simpl; [lia|].
  pose proof (Ho 0%nat b eq_refl) as Hb0. simpl in Hb0. rewrite Z.add_0_r in Hb0.
  destruct (Z.ltb_spec p (bi_offset b + Z.of_nat (bi_length b))) as [Hlt|Hge].
  { exists 0%nat. split_and!; [lia|done|lia|lia|]. by rewrite Hb0. }
  specialize (IH (S k) (z + Z.of_nat (length ch))). rewrite Hb in Hge. destruct (find_block (S k) p l) as [[i b']|].
  - destruct IH as (m & -> & Hl & Hr & Hd); [|lia|].
    { intros i0 b'' Hl. rewrite (Ho (S i0) b'' Hl). cbn [take concat]. rewrite length_app. lia. }
    exists (S m). split_and!; [lia|done|lia|lia|]. rewrite drop_app_ge by lia. simpl. rewrite <- Hd. f_equal. lia.
  - rewrite length_app. assert (z + Z.of_nat (length ch) + Z.of_nat (length (concat ls)) <= p); [|lia].
    apply IH; [|lia]. intros i b'' Hl. rewrite (Ho (S i) b'' Hl). cbn [take concat]. rewrite length_app. lia.
Qed.

(** Seeking to a position leaves the cursor there, or at the end. *)
Lemma seek_ok `{Profile} pos p c :
  cursor_ok c -> seek_position (E := E) pos c = Ok (Some p) -> 0 <= p <= int_max u64 ->
  exists c', seek pos c = Ok (E := E) (Z.min p (Z.of_nat (length (concat cs))), c') /\ cursor_ok c' /\
    remaining c' = drop (Z.to_nat p) (concat cs).
Proof.
  intros [Hb Hc Ho Hl] Hpos Hp. unfold seek. rewrite Hpos. cbn [mbind res_bind]. rewrite Hb.
  pose proof (find_block_ok 0 0 p bs cs (desc_lengths _ _ Hdesc) (fun i b H => desc_offsets _ _ Hdesc i b H) ltac:(lia)) as Hf.
  destruct (find_block 0 p bs) as [[i b]|].
  - destruct Hf as (m & -> & Hbm & Hr & Hd). rewrite Z.sub_0_r in Hd.
    pose proof (desc_offsets _ _ Hdesc _ _ Hbm) as Hoff. destruct (Forall2_lookup_l _ _ _ _ _ (desc_lengths _ _ Hdesc) Hbm) as (ch & Hch & Hlen).
    pose proof (lookup_lt_Some _ _ _ Hch). rewrite op_sub_ok by (apply in_range_spec; change (int_min u64) with 0; lia). cbn [mbind res_bind].
    eexists. split; [repeat f_equal; symmetry; apply Z.min_l|].
    + assert (length (concat (take m cs)) + length ch <= length (concat cs))%nat; [|lia].
      pose proof (f_equal (fun l => length (concat l)) (take_drop_middle cs _ ch Hch)) as Hm. simpl in Hm.
      rewrite concat_app, length_app in Hm. simpl in Hm. rewrite length_app in Hm. lia.
    + split; [|by rewrite Hd]. split; simpl; [done|lia| |done]. rewrite Hch. simpl. lia.
  - destruct (last bs) as [b|] eqn:Hlast.
    + rewrite last_lookup in Hlast. destruct (Forall2_lookup_l _ _ _ _ _ (desc_lengths _ _ Hdesc) Hlast) as (ch & Hch & Hlen).
      pose proof (contents_len_ok (MkContents bs [] 0 0 0) eq_refl) as Hcl. unfold contents_len in Hcl. cbn [blocks] in Hcl.
      rewrite last_lookup, Hlast in Hcl. rewrite Hcl. pose proof (lookup_lt_Some _ _ _ Hch). pose proof same_length.
      eexists. split; [repeat f_equal; lia|]. replace (length bs - 1)%nat with (pred (length bs)) by lia. split.
      * split; simpl; [done|lia| |done]. rewrite Hch. simpl. lia.
      * unfold remaining. simpl. rewrite (drop_S _ _ _ Hch), drop_ge with (l := cs) by lia. simpl.
        rewrite !drop_ge; [done|lia|rewrite length_app; simpl; lia].
    + apply last_None in Hlast. pose proof same_length as Hs. rewrite Hlast in Hs. symmetry in Hs. apply nil_length_inv in Hs as Hcs.
      eexists. rewrite Hcs. split; [repeat f_equal; simpl; lia|]. split; [split; simpl; try done; rewrite ?Hcs; simpl; lia|].
      unfold remaining. rewrite Hcs. simpl. by destruct (Z.to_nat p).
Qed.

(** The cursor [File::contents] returns. *)
Lemma contents_new_ok BLOCK_SIZE : cursor_ok (contents_new BLOCK_SIZE bs) /\ remaining (contents_new BLOCK_SIZE bs) = concat cs.
Proof. split; [|done]. split; simpl; [done|lia|lia|by exists 0%nat, 0%nat]. Qed.

(** Seeking and reading: after seeking to a position of a file, reading to
    the end returns the bytes of the file from that position on, in order,
    whatever the sizes of the blocks, of the buffers and of the groups of
    blocks loaded at a time; a position behind the end is the end.  The reads
    end after at most one round for each block left and two more. *)
Theorem seek_then_read `{Profile} pos p c fuel rounds sizes :
  cursor_ok c -> seek_position (E := E) pos c = Ok (Some p) -> 0 <= p <= int_max u64 ->
  (forall i, 0 < sizes i)%nat -> (length cs + 2 <= fuel)%nat -> (length (concat cs) < rounds)%nat ->
  exists c' c'', seek pos c = Ok (E := E) (Z.min p (Z.of_nat (length (concat cs))), c') /\
    read_to_end load fuel rounds sizes c' = Some (Ok (drop (Z.to_nat p) (concat cs), c'')) /\ cursor_ok c''.
Proof.
  intros Hok Hpos Hp Hs Hf Hr. destruct (seek_ok pos p c Hok Hpos Hp) as (c' & -> & Hok' & Hrem).
  destruct (read_to_end_ok fuel rounds sizes c' Hs Hok' Hf) as (c'' & Hrun & Hok'' & _).
  { rewrite Hrem, length_drop. lia. }
  exists c', c''. by rewrite <- Hrem.
Qed.
End Reading.

(** ** Truncating *)

Lemma total_length_app l1 l2 : total_length (l1 ++ l2) = total_length l1 + total_length l2.
Proof. unfold total_length. induction l1 as [|b l1 IH]; simpl; [done|]. rewrite IH. lia. Qed.
Lemma total_length_nonneg l : 0 <= total_length l.
Proof. unfold total_length. induction l as [|b l IH]; simpl; lia. Qed.

(** The file that is left after the removed blocks are deleted. *)
Definition kept_after (from : Truncate) (removed kept : list BlockInfo) : list BlockInfo :=
  match from with RemovingStart => removed ++ kept | RemovingEnd => kept ++ reverse removed end.

(** The loop removes blocks at one end; what is left is at least the length
    asked for and exceeds it by less than its block at that end. *)
Lemma truncate_loop_ok fuel from n bs :
  0 <= n <= total_length bs -> (length bs <= fuel)%nat ->
  exists kept, bs = kept_after from (truncate_loop fuel from (total_length bs - n) bs) kept /\
    n <= total_length kept /\
    (total_length kept = n \/
     exists b, match from with RemovingStart => head kept | RemovingEnd => last kept end = Some b /\
       total_length kept < n + Z.of_nat (bi_length b)).
Proof.
  revert bs. induction fuel as [|fuel IH]; intros bs Hn Hfuel.
  { destruct bs; [|simpl in Hfuel; lia]. exists []. simpl in *. split_and!; [by destruct from|lia|]. left. simpl. lia. }
  cbn [truncate_loop]. destruct (Z.ltb_spec 0 (total_length bs - n)) as [Hpos|Hpos]; last first.
  { exists bs. split_and!; [destruct from; simpl; by rewrite ?app_nil_r|lia|left; lia]. }
  destruct (decide (bs = [])) as [->|Hne]; [simpl in Hpos; lia|]. rewrite bool_decide_false by done. simpl negb.
  assert (exists b rest, match from with RemovingStart => head bs | RemovingEnd => last bs end = Some b /\
    match from with RemovingStart => tail bs | RemovingEnd => take (length bs - 1) bs end = rest /\
    bs = match from with RemovingStart => b :: rest | RemovingEnd => rest ++ [b] end) as (b & rest & -> & -> & Hbs).
  { destruct from; [destruct bs; [done|by eexists _, _]|]. destruct (exists_last Hne) as (rest & b & ->).
    exists b, rest. rewrite last_snoc, length_app, Nat.add_sub, take_app_length. done. }
  assert (total_length bs = Z.of_nat (bi_length b) + total_length rest) as Htot.
  { rewrite Hbs. destruct from; [done|]. rewrite total_length_app. simpl. lia. }
  assert (length bs = S (length rest)) as Hlen by (rewrite Hbs; destruct from; [done|rewrite length_app; simpl; lia]).
  cbn [andb]. destruct (Z.leb_spec (Z.of_nat (bi_length b)) (total_length bs - n)) as [Hle|Hgt].
  - replace (total_length bs - n - Z.of_nat (bi_length b)) with (total_length rest - n) by lia.
    destruct (IH rest) as (kept & Hrest & Hk); [lia|lia|]. exists kept. split; [|done]. rewrite Hbs. destruct from; simpl in *.
    + by rewrite <- Hrest.
    + by rewrite reverse_cons, app_assoc, <- Hrest.
  - exists bs. split_and!; [destruct from; simpl; by rewrite ?app_nil_r|lia|]. right. exists b. split; [|lia].
    rewrite Hbs. destruct from; [done|]. by rewrite last_snoc.
Qed.

(** Truncating a file removes whole blocks at the end that was asked for,
    and leaves at least the length asked for and less than a block more; a
    file truncated to length 0 is empty.  A file that is shorter than the new
    length is left alone. *)
Theorem truncate_leaves_length BLOCK_SIZE from n bs :
  (0 < BLOCK_SIZE)%nat -> Forall (fun b => (bi_length b <= BLOCK_SIZE)%nat) bs -> 0 <= n ->
  exists kept, bs = kept_after from (truncated_blocks bs n from) kept /\
    (n <= total_length bs -> n <= total_length kept < n + Z.of_nat BLOCK_SIZE) /\
    (n = 0 -> total_length kept = 0) /\
    (total_length bs < n -> kept = bs).
Proof.
  intros Hsize Hall Hn. unfold truncated_blocks. pose proof (total_length_nonneg bs).
  destruct (Z.leb_spec n (total_length bs)) as [Hle|Hlt].
  - destruct (truncate_loop_ok (length bs) from n bs) as (kept & Hbs & Hge & Hlen); [lia..|]. exists kept. split; [done|].
    assert (forall b, match from with RemovingStart => head kept | RemovingEnd => last kept end = Some b ->
      (bi_length b <= BLOCK_SIZE)%nat /\ Z.of_nat (bi_length b) <= total_length kept) as Hb.
    { intros b Hb. assert (b ∈ kept) as Hin.
      { destruct from; [destruct kept; [done|]; injection Hb as ->; left|]. rewrite last_lookup in Hb. by eapply list_elem_of_lookup_2. }
      split.
      - rewrite Forall_forall in Hall. apply Hall. rewrite Hbs. clear -Hin. destruct from; simpl; rewrite elem_of_app; auto.
      - apply list_elem_of_split in Hin as (l1 & l2 & ->). rewrite total_length_app. simpl.
        pose proof (total_length_nonneg l1). pose proof (total_length_nonneg l2). unfold total_length in *. lia. }
    split_and!; [| |lia].
    + intros _. destruct Hlen as [->|(b & Hb1 & ?)]; [lia|]. destruct (Hb b Hb1). lia.
    + intros ->. destruct Hlen as [|(b & Hb1 & ?)]; [done|]. destruct (Hb b Hb1). lia.
  - exists bs. split_and!; [destruct from; simpl; by rewrite ?app_nil_r|lia|lia|done].
Qed.

(** ** Buffered writes *)

Section Appending.
Context {S E : Type} (append : bytes -> stm S E unit) (stored : S -> bytes).
(** Appending adds the data to what is stored, or fails and changes nothing. *)
Context (Happend : forall data s, stored (append data s).2 = stored s ++ (if is_ok (append data s).1 then data else [])).

(** What is stored and what is to be written. *)
Definition accepted (bs : BufferedAppend * S) : bytes := stored bs.2 ++ buffer bs.1.
Definition buffer_ok (ba : BufferedAppend) : Prop := (length (buffer ba) <= capacity ba)%nat.

Lemma flush_ok bs r bs' :
  flush append bs = (r, bs') ->
  accepted bs' = accepted bs /\ (buffer_ok bs.1 -> buffer_ok bs'.1) /\ capacity bs'.1 = capacity bs.1 /\
  (r = Ok tt -> buffer bs'.1 = [] /\ stored bs'.2 = accepted bs).
Proof.
  unfold flush, accepted, buffer_ok. pose proof (Happend (buffer bs.1) bs.2) as Ha.
  destruct (append (buffer bs.1) bs.2) as [[[]|e|] s']; intros [= <- <-]; simpl in *; rewrite Ha, ?app_nil_r; split_and!; try done; lia.
Qed.

Lemma write_ok BLOCK_SIZE data bs r bs' :
  write append BLOCK_SIZE data bs = (r, bs') -> buffer_ok bs.1 ->
  buffer_ok bs'.1 /\
  match r with
  | Ok n => accepted bs' = accepted bs ++ take n data /\ (n <= length data)%nat /\
      ((0 < BLOCK_SIZE <= ONE_MEGABYTE)%nat -> data <> [] -> (0 < n)%nat)
  | _ => accepted bs' = accepted bs
  end.
Proof.
  unfold write. intros Hrun Hok. rewrite (stm_bind_Ok st_get _ bs bs bs) in Hrun by done.
  set (prepare := if (capacity bs.1 =? 0)%nat then _ else _) in Hrun.
  destruct (prepare bs) as [r1 bs1] eqn:Hp. rewrite (stm_bind_run _ _ _ _ _ Hp) in Hrun.
  assert (accepted bs1 = accepted bs /\ buffer_ok bs1.1 /\
    (r1 = Ok tt -> (0 < BLOCK_SIZE <= ONE_MEGABYTE)%nat -> (length (buffer bs1.1) < capacity bs1.1)%nat)) as (Hacc & Hok1 & Hroom).
  { unfold prepare in Hp. clear Hrun. unfold buffer_ok in *. destruct (Nat.eqb_spec (capacity bs.1) 0) as [Hc|Hc].
    - injection Hp as <- <-. simpl. split_and!; [done|lia|]. intros _ Hsize.
      assert (0 < ONE_MEGABYTE / BLOCK_SIZE)%nat by (apply Nat.div_str_pos; lia). nia.
    - destruct (Nat.eqb_spec (capacity bs.1) (length (buffer bs.1))) as [Hfull|Hfull].
      + apply flush_ok in Hp as (? & Hk & Hcap & Hb). split; [done|]. split; [by apply Hk|]. intros Hr _. destruct (Hb Hr) as [-> _]. simpl. lia.
      + injection Hp as <- <-. split_and!; [done|done|]. intros _ _. lia. }
  rewrite <- Hacc. clear Hp prepare Hacc. destruct r1 as [[]|e|]; [|by injection Hrun as <- <-..].
  rewrite (stm_bind_Ok st_get _ bs1 bs1 bs1) in Hrun by done. specialize (Hroom eq_refl). destruct data as [|x data].
  { injection Hrun as <- <-. split; [done|]. split_and!; [by rewrite app_nil_r|done|done]. }
  assert (0 < length (x :: data))%nat as Hx by (simpl; lia). revert Hrun Hx. generalize (x :: data). clear x data. intros data Hrun Hx.
  rewrite (stm_bind_Ok (st_put _) _ bs1 tt _) in Hrun by reflexivity. injection Hrun as <- <-. unfold buffer_ok, accepted in *. cbn [buffer capacity fst snd].
  rewrite length_app, length_take. split; [lia|]. split_and!; [by rewrite app_assoc|lia|]. intros Hsize _. specialize (Hroom Hsize). lia.
Qed.

(** A sequence of writes, with the numbers of bytes they accept; it stops at an
    error. *)
Fixpoint write_each (BLOCK_SIZE : nat) (datas : list bytes) : stm (BufferedAppend * S) E (list nat) :=
  match datas with
  | [] => mret []
  | data :: datas => n ← write append BLOCK_SIZE data; ns ← write_each BLOCK_SIZE datas; mret (n :: ns)
  end.

(** Buffered writes append exactly the bytes they accept, in order and
    whatever the size of the buffer.  Nothing is written before the buffer is
    full; flushing and dropping the writer writes the rest.  When a write
    fails, what was accepted before is still in the buffer or stored. *)
Theorem buffered_writes_exact BLOCK_SIZE datas ba s :
  buffer_ok ba ->
  match write_each BLOCK_SIZE datas (ba, s) with
  | (Ok ns, bs') =>
      accepted bs' = accepted (ba, s) ++ concat (zip_with take ns datas) /\ length ns = length datas /\
      ((flush append bs').1 = Ok tt -> stored (drop_append append bs').2.2 = accepted (ba, s) ++ concat (zip_with take ns datas))
  | (_, bs') => exists k ns, accepted bs' = accepted (ba, s) ++ concat (zip_with take ns (take k datas))
  end.
Proof.
  intros Hok. enough (match write_each BLOCK_SIZE datas (ba, s) with
  | (Ok ns, bs') => accepted bs' = accepted (ba, s) ++ concat (zip_with take ns datas) /\ length ns = length datas
  | (_, bs') => exists k ns, accepted bs' = accepted (ba, s) ++ concat (zip_with take ns (take k datas))
  end) as Hw.
  { destruct (write_each BLOCK_SIZE datas (ba, s)) as [[ns|e|] bs']; [|done..]. destruct Hw as [Hacc Hlen]. split_and!; [done..|].
    intros Hf. unfold drop_append. destruct (flush append bs') as [r bs''] eqn:Hfl. simpl in *. apply flush_ok in Hfl as (_ & _ & _ & Hs).
    by rewrite <- Hacc, (proj2 (Hs Hf)). }
  revert ba s Hok. induction datas as [|data datas IH]; intros ba s Hok; cbn [write_each].
  { split; [by rewrite app_nil_r|done]. }
  destruct (write append BLOCK_SIZE data (ba, s)) as [r [ba1 s1]] eqn:Hrun. rewrite (stm_bind_run _ _ _ _ _ Hrun).
  apply write_ok in Hrun as [Hok1 Hr]; [|done]. destruct r as [n|e|]; [|by exists 0%nat, []; rewrite app_nil_r..].
  destruct Hr as (Hacc & _ & _). specialize (IH ba1 s1 Hok1). destruct (write_each BLOCK_SIZE datas (ba1, s1)) as [[ns|e|] bs'] eqn:Hrest; rewrite (stm_bind_run _ _ _ _ _ Hrest).
  - destruct IH as [IH Hlen]. simpl. split; [by rewrite IH, Hacc, <- app_assoc|by rewrite Hlen].
  - destruct IH as (k & ns & IH). exists (1 + k)%nat, (n :: ns). simpl. by rewrite IH, Hacc, <- app_assoc.
  - destruct IH as (k & ns & IH). exists (1 + k)%nat, (n :: ns). simpl. by rewrite IH, Hacc, <- app_assoc.
Qed.
End Appending.

(** ** Cases outside of the theorems *)

(** When the blocks of an open file have been deleted, reading never returns:
    every round asks for the blocks again. *)
Lemma read_deleted_file_loops {E} (load : list Z -> res E (list (Z * bytes))) c fuel n :
  (forall ids, load ids = Ok []) -> loaded c = [] -> (current_block c < length (blocks c))%nat ->
  read load fuel n c = None.
Proof.
  intros Hload. revert c. induction fuel as [|fuel IH]; intros c Hl Hc; [done|]. cbn [read]. unfold non_blocking_read. rewrite Hl.
  unfold need_blocks. rewrite (proj2 (Nat.ltb_lt _ _) Hc). simpl. unfold load_blocks, next_blocks.
  pose proof (last_requested_bounds (buffer_size c) 0 (current_block c) (current_block c) (drop (current_block c) (blocks c)) ltac:(lia)) as [_ Hlast].
  rewrite length_drop in Hlast. rewrite (proj2 (Nat.ltb_lt _ _)) by lia. cbn [mbind res_bind]. rewrite Hload. simpl. by apply IH.
Qed.

Module FileExamples.

Definition chunks : list bytes := [[1; 2]; [3]; []; [4; 5; 6]].
Definition info (id : Z) (ch : bytes) : BlockInfo := MkBlockInfo 0 (length ch) id (MkBlockHeader id (MkRevision 0 [])).
Definition infos : list BlockInfo := assign_offsets 0 (zip_with info [10; 11; 12; 20] chunks).
Definition stored_blocks (ids : list Z) : res unit (list (Z * bytes)) :=
  Ok (omap (fun d => (fun ch => (d, ch)) <$> (list_to_map (zip [10; 11; 12; 20] chunks) : gmap Z bytes) !! d) ids).
#[local] Instance debug_profile : Profile := true.

Lemma infos_describe : describes infos chunks.
Proof. apply assign_offsets_describes. repeat constructor. Qed.

Lemma stored_blocks_ok i k :
  stored_blocks ((fun b => bh_id (bi_header b)) <$> take k (drop i infos)) =
  Ok (zip ((fun b => bh_id (bi_header b)) <$> take k (drop i infos)) (take k (drop i chunks))).
Proof.
  destruct i as [|[|[|[|i]]]]; destruct k as [|[|[|[|k]]]]; simpl; rewrite ?drop_nil, ?take_nil; vm_compute; reflexivity.
Qed.

Definition opened : Contents := with_buffer_size 3 (contents_new 2 infos).
Lemma opened_ok : cursor_ok infos chunks opened.
Proof. split; simpl; [done|lia|lia|by exists 0%nat, 0%nat]. Qed.

Lemma seek_then_read_witness :
  exists c' c'', seek (SeekEnd (-4)) opened = Ok (E := unit) (2, c') /\
    read_to_end stored_blocks 6 7 (fun i => S i) c' = Some (Ok ([3; 4; 5; 6], c'')) /\ cursor_ok infos chunks c''.
Proof.
  exact (seek_then_read stored_blocks infos chunks infos_describe stored_blocks_ok (SeekEnd (-4)) 2 opened 6 7 (fun i => S i)
    opened_ok eq_refl ltac:(vm_compute; split; discriminate) ltac:(intros i; simpl; lia) ltac:(vm_compute; lia) ltac:(vm_compute; lia)).
Defined.

Lemma truncate_leaves_length_witness :
  exists kept, infos = kept_after RemovingStart (truncated_blocks infos 4 RemovingStart) kept /\
    (4 <= total_length infos -> 4 <= total_length kept < 4 + Z.of_nat 3) /\
    (4 = 0 -> total_length kept = 0) /\ (total_length infos < 4 -> kept = infos).
Proof. apply truncate_leaves_length; [lia|repeat constructor; simpl; lia|lia]. Defined.

(** A store that refuses to grow beyond five bytes. *)
Definition append_to (data : bytes) : stm bytes unit unit := fun s =>
  if (length (s ++ data) <=? 5)%nat then (Ok tt, s ++ data) else (Err tt, s).
Lemma append_to_ok data s : (append_to data s).2 = s ++ (if is_ok (append_to data s).1 then data else []).
Proof. unfold append_to. destruct (_ <=? _)%nat; simpl; by rewrite ?app_nil_r. Qed.

Lemma buffered_writes_exact_witness :
  match write_each append_to 2 [[1; 2; 3]; [4; 5]] (MkBufferedAppend [] 4, []) with
  | (Ok ns, bs') =>
      accepted (fun s => s) bs' = concat (zip_with take ns [[1; 2; 3]; [4; 5]]) /\ length ns = 2%nat /\
      ((flush append_to bs').1 = Ok tt -> (drop_append append_to bs').2.2 = concat (zip_with take ns [[1; 2; 3]; [4; 5]]))
  | (_, bs') => exists k ns, accepted (fun s => s) bs' = concat (zip_with take ns (take k [[1; 2; 3]; [4; 5]]))
  end.
Proof.
  apply (buffered_writes_exact append_to (fun s => s) append_to_ok 2 [[1; 2; 3]; [4; 5]] (MkBufferedAppend [] 4) []). unfold buffer_ok. simpl. lia.
Defined.

(** Reading into an empty buffer skips the rest of the file. *)
Lemma empty_read_skips :
  match read stored_blocks 6 0 opened with
  | Some (Ok (bs, c)) => bs = [] /\ match read stored_blocks 6 4 c with Some (Ok (bs, _)) => bs = [] | _ => False end
  | _ => False
  end.
Proof. vm_compute. done. Qed.

(** Seeking relative to the current position panics once the end is reached. *)
Lemma seek_current_at_end_panics :
  match read_to_end stored_blocks 6 7 (fun _ => 4%nat) opened with
  | Some (Ok (_, c)) => seek (SeekCurrent 0) c = Panic (E := unit)
  | _ => False
  end.
Proof. vm_compute. done. Qed.

(** Seeking before the start panics or, without overflow checks, goes to the end. *)
Lemma seek_before_start :
  seek (H := true) (SeekEnd (-7)) opened = Panic (E := unit) /\
  match seek (E := unit) (H := false) (SeekEnd (-7)) opened with Ok (p, _) => p = 6 | _ => False end.
Proof. vm_compute. done. Qed.

(** With blocks of more than a megabyte nothing can be written without setting
    a buffer size. *)
Lemma large_blocks_refuse_writes s :
  (write append_to (2 * ONE_MEGABYTE) [1] (append_buffered, s)).1 = Ok 0%nat.
Proof.
  unfold write. rewrite (stm_bind_Ok st_get _ _ _ _) by reflexivity. cbn [fst capacity append_buffered Nat.eqb].
  rewrite (Nat.div_small ONE_MEGABYTE); [done|]. assert (0 < ONE_MEGABYTE)%nat by (unfold ONE_MEGABYTE; lia). lia.
Qed.

End FileExamples.
