(* ===== verification/Files.v ===== *)
(** * Files stored in a database

    [bonsaidb-files]: the collections [File] and [Block] of [schema/file.rs] and
    [schema/block.rs] with their views, the operations on files of [direct.rs]
    and those of the trait [FileConfig] in [lib.rs], over any connection.

    The serialized forms of a file and of the values of the views are the
    serializer's, parameters of a configuration.  The time of an append is an
    argument. *)

From Stdlib Require Import ZArith Lia.
From stdpp Require Import base list option numbers gmap sorting.
From S2P Require Import Prelude Bytes Utf8 Key KeyLaws CompositeKey CompositeKeyLaws Range Nebari Document Names Changes Schema Permissions View Query Integrity Jobs Transaction Tasks Connection FilePaths FileContents.

Local Open Scope Z_scope.

(** ** The collections *)

Record StoredFile (M : Type) := MkStoredFile { f_path : option str; f_name : str; f_created_at : Z; f_metadata : M }.
Arguments MkStoredFile {M} _ _ _ _.
Arguments f_path {M} _.
Arguments f_name {M} _.
Arguments f_created_at {M} _.
Arguments f_metadata {M} _.

Record BlockAppendInfo := MkBlockAppendInfo { ai_length : Z; ai_timestamp : option Z }.
Record Statistics := MkStatistics { total_bytes : Z; file_count : Z; st_last_appended_at : option Z }.

(** [FileConfig], with the formats of the values it stores and the [TypeId]s of
    the two views. *)
Record FileConfig := MkFileConfig {
  Metadata : Type;
  BLOCK_SIZE : nat;
  files_name : CollectionName;
  blocks_name : CollectionName;
  by_path_id : TypeId;
  by_file_id : TypeId;
  file_serialize : StoredFile Metadata -> option bytes;
  file_deserialize : bytes -> option (StoredFile Metadata);
  entry_serialize : Z * Metadata -> option bytes;
  entry_deserialize : bytes -> option (Z * Metadata);
  info_serialize : BlockAppendInfo -> option bytes;
  info_deserialize : bytes -> option BlockAppendInfo
}.

Inductive FilesError `{Nebari} `{Actionable} :=
| FilesDatabase (e : CoreError)
| InvalidName
| InvalidPath
| AlreadyExists
| FileDeleted.

Section Files.
Context `{Nebari} `{Actionable} `{Profile} {St : Type} `{!LowLevelConnection St} (F : FileConfig).
Abbreviation connm := (stm St CoreError).
Abbreviation filesm := (stm St FilesError).

(** [From<bonsaidb_core::Error> for Error], and the [?] that applies it. *)
Definition files_error (e : CoreError) : FilesError :=
  match e with
  | CoreDb (UniqueKeyViolation _ _ _) => AlreadyExists
  | other => FilesDatabase other
  end.
Definition in_files {A} (m : connm A) : filesm A := fun s => let '(r, s) := m s in (map_err files_error r, s).

Definition file_collection : CollectionTy :=
  MkCollectionTy (files_name F) key_u32 (StoredFile (Metadata F)) (file_serialize F) (file_deserialize F) (fun _ => None).
(** A block is not serialized: its documents are read and written as bytes. *)
Definition block_collection : CollectionTy :=
  MkCollectionTy (blocks_name F) key_u64 bytes Some Some (fun _ => None).
Definition by_path : ViewTy := MkViewTy (by_path_id F) file_collection key_file (Z * Metadata F) (entry_deserialize F).
Definition by_file : ViewTy := MkViewTy (by_file_id F) block_collection key_u32 BlockAppendInfo (info_deserialize F).
Abbreviation FileDoc := (CollectionDocument file_collection).
Definition file_of (d : FileDoc) : StoredFile (Metadata F) := cd_contents d.
Definition file_id (d : FileDoc) : Z := ch_id (cd_header d).

(** ** The views *)

Definition in_view {E A} (m : res E A) : res ViewError A := map_err (fun _ => ViewFailure 0) m.
Definition view_value {A} (o : option A) : res ViewError A := ok_or (ViewFailure 0) o.

Definition by_path_map (doc : Doc) : res ViewError (list Mapping) :=
  d ← in_view (collection_document_try_from file_collection doc);
  key ← in_view (as_ord_bytes key_file (by_path_key (f_path (file_of d)) (f_name (file_of d))));
  value ← view_value (entry_serialize F (f_created_at (file_of d), f_metadata (file_of d)));
  Ok [MkMapping (header doc) key value].

(** The file, the time and the length of a block, from its last twelve bytes. *)
Definition block_info (contents : bytes) : res ViewError (Z * BlockAppendInfo) :=
  timestamp_offset ← op_sub usize (blen contents) 8;
  file_id_offset ← op_sub usize timestamp_offset 4;
  file_id ← slice contents file_id_offset timestamp_offset;
  timestamp ← slice contents timestamp_offset (blen contents);
  Ok (from_be_bytes u32 file_id, MkBlockAppendInfo file_id_offset (Some (from_be_bytes i64 timestamp))).
Definition by_file_map (doc : Doc) : res ViewError (list Mapping) :=
  '(file_id, info) ← block_info (contents doc);
  key ← in_view (as_ord_bytes key_u32 file_id);
  value ← view_value (info_serialize F info);
  Ok [MkMapping (header doc) key value].

(** [Iterator::sum] of [u64], and [Iterator::max]. *)
Fixpoint sum_u64 {E} (acc : Z) (l : list Z) : res E Z :=
  match l with
  | [] => Ok acc
  | x :: l => acc ← op_add u64 acc x; sum_u64 acc l
  end.
Definition iter_max (l : list Z) : option Z :=
  match l with
  | [] => None
  | x :: l => Some (fold_left Z.max l x)
  end.
Definition by_file_reduce (mappings : list BlockAppendInfo) : res ViewError BlockAppendInfo :=
  length ← sum_u64 0 (ai_length <$> mappings);
  Ok (MkBlockAppendInfo length (iter_max (omap ai_timestamp mappings))).

(** ** [Block] *)

Definition block_bytes (chunk : bytes) (file_id now : Z) : bytes :=
  chunk ++ to_be_bytes u32 file_id ++ to_be_bytes i64 now.
Definition chunks_of {E} (data : bytes) : res E (list bytes) :=
  if (BLOCK_SIZE F =? 0)%nat then Panic else Ok (chunks (BLOCK_SIZE F) data).

(** [Block::append]. *)
Definition block_append (now : Z) (data : bytes) (file_id : Z) : connm unit :=
  match data with
  | [] => mret tt
  | _ =>
      did ← st_lift (document_id_new key_u32 file_id);
      parts ← st_lift (chunks_of data);
      _ ← ll_apply_transaction (op_check_exists (files_name F) did ::
            ((fun chunk => op_insert (blocks_name F) None (block_bytes chunk file_id now)) <$> parts));
      mret tt
  end.

(** [Vec::truncate]. *)
Definition block_contents {E} (contents : bytes) : res E bytes :=
  a ← op_sub usize (blen contents) 4;
  n ← op_sub usize a 8;
  Ok (take (Z.to_nat n) contents).
Definition loaded_block (doc : Doc) : res CoreError (Z * bytes) :=
  contents ← block_contents (contents doc);
  d ← document_id_deserialize key_u64 (id (header doc));
  Ok (d, contents).
(** [Block::load]. *)
Definition block_load (ids : list Z) : connm (list (Z * bytes)) :=
  docs ← conn_get_multiple (blocks_name F) key_u64 ids;
  found ← st_lift (collect loaded_block docs);
  mret (btree_collect Z.compare found).

(** [Block::for_file]. *)
Definition to_block_info (m : CollectionMap Z BlockAppendInfo Z) : res CoreError BlockInfo :=
  timestamp ← unwrap (ai_timestamp (cm_value m));
  Ok (MkBlockInfo 0 (Z.to_nat (ai_length (cm_value m))) timestamp
        (MkBlockHeader (ch_id (cm_source m)) (ch_revision (cm_source m)))).
Definition block_le (a b : BlockInfo) : Prop := bh_id (bi_header a) <= bh_id (bi_header b).
#[export] Instance block_le_dec a b : Decision (block_le a b).
Proof. unfold block_le. apply _. Defined.
Definition for_file (file_id : Z) : connm (list BlockInfo) :=
  mappings ← view_query by_file (with_key (K := k_type (vt_key by_file)) file_id view_new);
  bs ← st_lift (collect to_block_info mappings);
  mret (assign_offsets 0 (merge_sort block_le bs)).

Definition summary_for_file (file_id : Z) : connm BlockAppendInfo :=
  view_reduced by_file (with_key (K := k_type (vt_key by_file)) file_id view_new).
Definition summary_for_ids (ids : list Z) : connm BlockAppendInfo :=
  view_reduced by_file (with_keys (K := k_type (vt_key by_file)) ids view_new).
Definition delete_for_file (file_id : Z) : connm unit :=
  _ ← view_delete_docs by_file (with_key (K := k_type (vt_key by_file)) file_id view_new);
  mret tt.

(** ** [File] *)

(** [convert_mappings_to_documents]. *)
Definition mapping_document (m : CollectionMap FileKey (Z * Metadata F) Z) : option FileDoc :=
  '(path, name) ← key_path_name (cm_key m);
  Some (MkCollectionDocument (C := file_collection) (cm_source m) (MkStoredFile path name (cm_value m).1 (cm_value m).2)).
Definition convert_mappings_to_documents (ms : list (CollectionMap FileKey (Z * Metadata F) Z)) : list FileDoc :=
  omap mapping_document ms.

Definition create_file (now : Z) (path : option str) (name : str) (contents : bytes) (metadata : Metadata F) : filesm FileDoc :=
  if invalid_name name then st_lift (Err InvalidName)
  else
    file ← in_files (sc_push file_collection (MkStoredFile (created_path path) name now metadata));
    in_files (block_append now contents (file_id file));;
    mret file.

Definition find (path : str) : filesm (option FileDoc) :=
  match find_key path with
  | None => st_lift (Err InvalidPath)
  | Some key =>
      ms ← in_files (view_query by_path (with_key (K := k_type (vt_key by_path)) key view_new));
      mret (head (convert_mappings_to_documents ms))
  end.

(** [with_key_prefix] of a listing. *)
Definition with_listing (key : FileKey) : res CoreError (ViewBuilder (k_type (vt_key by_path))) :=
  range ← to_prefix_range key;
  Ok (with_key_range (K := k_type (vt_key by_path)) range view_new).
Definition list_by_key (key : FileKey) : connm (list FileDoc) :=
  b ← st_lift (with_listing key);
  ms ← view_query by_path b;
  mret (convert_mappings_to_documents ms).
Definition list_path_contents (path : str) : connm (list FileDoc) := list_by_key (list_key path).
Definition list_recursive_path_contents (path : str) : connm (list FileDoc) := list_by_key (list_recursive_key path).
Definition summarize_recursive_path_contents (path : str) : connm Statistics :=
  b ← st_lift (with_listing (list_recursive_key path));
  ms ← view_query by_path b;
  let ids := (fun m => ch_id (cm_source m)) <$> ms in
  append_info ← summary_for_ids ids;
  mret (MkStatistics (ai_length append_info) (Z.of_nat (length ids)) (ai_timestamp append_info)).

(** The transaction of [create_truncate_transaction]: one deletion for each
    block that is removed. *)
Definition delete_block (b : BlockInfo) : res CoreError Operation :=
  match header_try_from key_u64 (MkCollectionHeader (bh_id (bi_header b)) (bh_revision (bi_header b))) with
  | Ok h => Ok (op_delete (blocks_name F) h)
  | _ => Panic
  end.
Definition create_truncate_transaction (bs : list BlockInfo) (new_length : Z) (from : Truncate) : res CoreError (list Operation) :=
  collect delete_block (truncated_blocks bs new_length from).
Definition truncate (file : FileDoc) (new_length : Z) (from : Truncate) : connm unit :=
  bs ← for_file (file_id file);
  tx ← st_lift (create_truncate_transaction bs new_length from);
  _ ← ll_apply_transaction tx;
  mret tt.

(** ** [direct::File]

    The handle of a file is its document; a method on [&mut self] returns the
    document it leaves. *)

Definition file_get (d : Z) : connm (option FileDoc) := sc_get file_collection d.
Definition children (file : FileDoc) : connm (list FileDoc) :=
  list_path_contents (full_path (f_path (file_of file)) (f_name (file_of file))).
Definition set_location (file : FileDoc) (path : option str) (name : str) : FileDoc :=
  MkCollectionDocument (C := file_collection) (cd_header file)
    (MkStoredFile path name (f_created_at (file_of file)) (f_metadata (file_of file))).
Definition move_to (file : FileDoc) (new_path : str) : filesm FileDoc :=
  if starts_with_slash new_path then
    '(path, name) ← st_lift (moved new_path (f_name (file_of file)));
    in_files (cd_update (set_location file path name))
  else st_lift (Err InvalidPath).
Definition rename (file : FileDoc) (new_name : str) : filesm FileDoc :=
  if existsb (fun c => c =? slash) new_name then st_lift (Err InvalidName)
  else in_files (cd_update (set_location file (f_path (file_of file)) new_name)).
Definition file_delete (file : FileDoc) : filesm unit :=
  in_files (delete_for_file (file_id file));;
  in_files (cd_delete file).
Definition file_len (file : FileDoc) : connm Z :=
  metadata ← summary_for_file (file_id file);
  mret (ai_length metadata).
Definition file_is_empty (file : FileDoc) : connm bool :=
  n ← file_len file;
  mret (n =? 0).
Definition last_appended_at (file : FileDoc) : connm (option Z) :=
  metadata ← summary_for_file (file_id file);
  mret (ai_timestamp metadata).
Definition file_contents (file : FileDoc) : connm Contents :=
  bs ← for_file (file_id file);
  mret (contents_new (BLOCK_SIZE F) bs).
Definition append (now : Z) (file : FileDoc) (data : bytes) : connm unit := block_append now data (file_id file).
Definition update_metadata (file : FileDoc) : connm FileDoc := cd_update file.

(** [FileBuilder::create]. *)
Definition build_create (now : Z) (name_or_path : str) (contents : bytes) (metadata : Metadata F) : filesm FileDoc :=
  '(path, name) ← st_lift (builder_new name_or_path);
  create_file now path name contents metadata.

(** ** The provided methods of [FileConfig] *)

Definition load_or_create_with_metadata (now : Z) (path : str) (metadata : Metadata F) (expect_present : bool) : filesm FileDoc :=
  present ← (if expect_present then find path else mret None);
  match present with
  | Some file => mret file
  | None => fun s =>
      match build_create now path [] metadata s with
      | (Err AlreadyExists, s) =>
          match find path s with
          | (Ok (Some file), s) => (Ok file, s)
          | (Ok None, s) => (Err FileDeleted, s)
          | (Err e, s) => (Err e, s)
          | (Panic, s) => (Panic, s)
          end
      | other => other
      end
  end.
Definition delete_path (path : str) : filesm bool :=
  file ← find path;
  match file with
  | Some file => file_delete file;; mret true
  | None => mret false
  end.
Definition stats : connm Statistics := summarize_recursive_path_contents [slash].

End Files.
