(* ===== verification/FilesTheorems.v ===== *)
(** * What stored files hold

    The bytes of a file as the blocks of a database hold them, over any
    connection that keeps the laws of [ConnectionTheorems]: appending adds the
    bytes to the end of that file only, and reading the contents of a file
    returns its bytes. *)

From Stdlib Require Import ZArith Lia Sorting.Sorted.
From stdpp Require Import base list option numbers gmap sorting.
From S2P Require Import Prelude Bytes Utf8 Key KeyLaws CompositeKey CompositeKeyLaws Range Nebari Document Names Changes Schema Permissions View Query Integrity Jobs Transaction Tasks StoreDemo ViewBatch ViewTheorems TransactionLaws TransactionSpec QueryLaws TasksLaws TasksTheorems Connection ConnectionTheorems FilePaths FilePathsTheorems FileContents FileContentsTheorems Files.

Local Open Scope Z_scope.

(** ** Sorted lists *)

Lemma sorted_elements_unique {A} (R : A -> A -> Prop) l1 l2 :
  (forall x y, R x y -> R y x -> False) ->
  StronglySorted R l1 -> StronglySorted R l2 -> (forall x, x ∈ l1 <-> x ∈ l2) -> l1 = l2.
Proof.
  intros Hasym H1. revert l2. induction H1 as [|x l1 H1 IH Hf1]; intros l2 H2 He.
  { destruct l2 as [|y l2]; [done|]. exfalso. apply (elem_of_nil y), He. left. }
  destruct H2 as [|y l2 H2 Hf2]; [exfalso; apply (elem_of_nil x), He; left|].
  rewrite List.Forall_forall in Hf1, Hf2. setoid_rewrite <- list_elem_of_In in Hf1. setoid_rewrite <- list_elem_of_In in Hf2.
  assert (x = y) as <-.
  { assert (x ∈ y :: l2) as [Hx|Hx]%elem_of_cons by (apply He; left); [done|].
    assert (y ∈ x :: l1) as [Hy|Hy]%elem_of_cons by (apply He; left); [done|]. exfalso. eauto. }
  f_equal. apply IH; [done|]. intros z. split; intros Hz.
  - assert (z ∈ x :: l2) as [->|?]%elem_of_cons by (apply He; by right); [|done]. exfalso. eauto.
  - assert (z ∈ x :: l1) as [->|?]%elem_of_cons by (apply He; by right); [|done]. exfalso. eauto.
Qed.

Lemma StronglySorted_filter {A} (R : A -> A -> Prop) (P : A -> Prop) `{!forall x, Decision (P x)} l :
  StronglySorted R l -> StronglySorted R (filter P l).
Proof.
  induction 1 as [|x l Hs IH Hf]; [constructor|]. rewrite filter_cons. case_decide; [|done]. constructor; [done|].
  rewrite List.Forall_forall in Hf |- *. intros y Hy%list_elem_of_In. apply Hf, list_elem_of_In.
  by apply list_elem_of_filter in Hy as [_ Hy].
Qed.

(** A pair with a greater key is the last one. *)
Lemma sorted_pairs_snoc {A} (m : gmap bytes A) d x :
  (forall k, is_Some (m !! k) -> bytes_cmp k d = Lt) -> sorted_pairs (<[d := x]> m) = sorted_pairs m ++ [(d, x)].
Proof.
  intros Hd. assert (m !! d = None) as Hnone.
  { destruct (m !! d) eqn:E; [|done]. specialize (Hd d ltac:(by rewrite E)). by rewrite bytes_cmp_refl in Hd. }
  apply sorted_pairs_unique; [apply sorted_pairs_sorted| |].
  - rewrite fmap_app. pose proof (sorted_pairs_sorted m) as Hs.
    assert (forall k, k ∈ (sorted_pairs m).*1 -> bytes_cmp k d = Lt) as Hk.
    { intros k ([k' v] & -> & Hin%sorted_pairs_elem)%list_elem_of_fmap. apply Hd. simpl. by rewrite Hin. }
    induction Hs as [|k l Hs IH Hf]; simpl; [by repeat constructor|]. constructor.
    + apply IH. intros k' Hk'. apply Hk. by right.
    + apply List.Forall_app. split; [done|]. constructor; [|constructor]. apply Hk. left.
  - intros [k v]. rewrite elem_of_app, list_elem_of_singleton, !sorted_pairs_elem, lookup_insert_Some. naive_solver congruence.
Qed.

(** ** The bytes of a file *)

(** A block document: the chunk, the file and the time. *)
Definition block_chunk (contents : bytes) : bytes := take (length contents - 12) contents.
Definition block_file (contents : bytes) : Z := from_be_bytes u32 (take 4 (drop (length contents - 12) contents)).
Definition block_time (contents : bytes) : Z := from_be_bytes i64 (drop (length contents - 8) contents).

Lemma block_bytes_parts chunk f now :
  in_range u32 f = true ->
  block_chunk (block_bytes chunk f now) = chunk /\ block_file (block_bytes chunk f now) = f.
Proof.
  intros Hf. unfold block_chunk, block_file, block_bytes. rewrite !length_app, !to_be_bytes_length. change (int_bytes u32) with 4%nat. change (int_bytes i64) with 8%nat.
  replace (length chunk + (4 + 8) - 12)%nat with (length chunk) by lia. rewrite take_app_length, drop_app_length. split; [done|].
  rewrite take_app_length' by (by rewrite to_be_bytes_length). by rewrite from_to_be_bytes.
Qed.

Definition file_pairs (f : Z) (D : Docs) : list (bytes * Doc) :=
  filter (fun p => block_file (contents p.2) = f) (sorted_pairs D).
(** The bytes of the file [f]: the chunks of its blocks in the order of their ids. *)
Definition file_bytes (f : Z) (D : Docs) : bytes := concat ((fun p => block_chunk (contents p.2)) <$> file_pairs f D).

(** The block of a later id is the end of its file. *)
Lemma file_bytes_insert f D d doc :
  (forall k, is_Some (D !! k) -> bytes_cmp k d = Lt) ->
  file_bytes f (<[d := doc]> D) =
    file_bytes f D ++ (if decide (block_file (contents doc) = f) then block_chunk (contents doc) else []).
Proof.
  intros Hd. unfold file_bytes, file_pairs. rewrite sorted_pairs_snoc by done. rewrite filter_app, fmap_app, concat_app. f_equal.
  rewrite filter_cons, filter_nil. simpl. case_decide; [|done]. simpl. by rewrite app_nil_r.
Qed.

Lemma sorted_last {A} (R : A -> A -> Prop) l m x : StronglySorted R l -> last l = Some m -> x ∈ l -> x = m \/ R x m.
Proof.
  induction 1 as [|y l Hs IH Hf]; [done|]. destruct l as [|z l]; [intros [= <-] ->%list_elem_of_singleton; by left|].
  rewrite last_cons_cons. intros Hm [->|Hx]%elem_of_cons; [|by apply IH]. right. rewrite List.Forall_forall in Hf.
  apply Hf, list_elem_of_In. rewrite last_lookup in Hm. by eapply list_elem_of_lookup_2.
Qed.

#[export] Instance block_le_trans : Transitive block_le.
Proof. intros a b c. unfold block_le. lia. Qed.
#[export] Instance block_le_total : Total block_le.
Proof. intros a b. unfold block_le. lia. Qed.

#[export] Instance block_key_generated : GeneratedKey key_u64.
Proof. split; [apply _..|]. by intros x [= <-]. Qed.


Section Stored.
Context `{Nebari} `{Actionable} `{Digest} `{Profile} {St : Type} `{!LowLevelConnection St}
  (conn_ok : St -> Prop) (documents : St -> Database) `{!ConnectionLaws conn_ok documents}.
Context (F : FileConfig) (Hfiles : qualified_wf (files_name F)) (Hblocks : qualified_wf (blocks_name F))
  (Hnames : files_name F <> blocks_name F) (Hgen : collection_id_generators ll_schematic !! blocks_name F = Some key_u64)
  (Hsize : (0 < BLOCK_SIZE F)%nat) (Hmax : Z.of_nat (BLOCK_SIZE F) + 12 <= int_max isize).

Abbreviation blocks_of s := (documents s (blocks_name F)).
Abbreviation block_type := (block_collection F).

(** The blocks collection holds blocks, under the ids it generates. *)
Record blocks_ok (D : Docs) : Prop := {
  bo_ids : typed_ids block_type D;
  bo_length d doc : D !! d = Some doc -> 12 <= blen (contents doc) <= int_max isize
}.

(** ** Appending *)

Lemma next_block_id D d :
  typed_ids block_type D -> spec_next_id ll_schematic (blocks_name F) D = Ok d ->
  (exists v, k_wf key_u64 v /\ as_ord_bytes key_u64 v = Ok d /\ blen d <= MAX_LENGTH) /\
  forall k, is_Some (D !! k) -> bytes_cmp k d = Lt.
Proof.
  intros Hids Hn. split; [by apply (spec_next_id_typed block_type Hgen D)|].
  intros k [doc Hk]. unfold spec_next_id, next_id_for_collection in Hn. rewrite Hgen in Hn.
  apply bind_Ok_inv in Hn as (last & Hlast & Hn). apply map_err_Ok_inv in Hn. cbn [ok_or mbind res_bind] in Hn.
  assert (k ∈ btree_set_iter (dom D)) as Hin by (apply elem_of_btree_set_iter, elem_of_dom; eauto).
  destruct (list.last (btree_set_iter (dom D))) as [m|] eqn:Hm; [|by apply last_None in Hm; rewrite Hm in Hin; apply elem_of_nil in Hin].
  apply bind_Ok_inv in Hlast as (m' & Hm' & [= <-]). apply map_err_Ok_inv in Hm'. unfold document_id_try_from in Hm'.
  destruct (_ <=? _); [|done]. injection Hm' as <-.
  assert (is_Some (D !! m)) as [docm HDm].
  { apply elem_of_dom, elem_of_btree_set_iter. rewrite last_lookup in Hm. by eapply list_elem_of_lookup_2. }
  destruct (Hids m ltac:(eauto)) as (vm & Hvm & Hem & Hlm).
  assert (bytes_cmp m d = Lt) as Hmd.
  { unfold next_id in Hn. apply bind_Ok_inv in Hn as (start & Hstart & Hn). apply bind_Ok_inv in Hn as (next & Hnext & Hn).
    apply bind_Ok_inv in Hn as (bs & Hbs & Hn). apply map_err_Ok_inv in Hstart, Hnext, Hbs, Hn. unfold document_id_try_from in Hn.
    destruct (_ <=? _); [|done]. injection Hn as <-. cbn [cl_key block_collection] in *.
    rewrite (key_roundtrip vm m (Borrowed m) Hvm Hem (id_alloc m Hlm) eq_refl) in Hstart. injection Hstart as <-.
    destruct (key_next_greater vm next Hvm Hnext) as [Hwn Hlt].
    by rewrite (key_ordered (k:=key_u64) vm next m bs Hvm Hwn Hem Hbs). }
  destruct (sorted_last bytes_lt _ m k (btree_set_iter_sorted (dom D)) Hm Hin) as [->|Hkm]; [done|].
  by eapply bytes_cmp_trans.
Qed.

Abbreviation insert_blocks f now parts := ((fun chunk => op_insert (blocks_name F) None (block_bytes chunk f now)) <$> parts).

Lemma insert_blocks_spec f now parts D results D' :
  in_range u32 f = true -> Forall (fun chunk => (length chunk <= BLOCK_SIZE F)%nat) parts -> blocks_ok (D (blocks_name F)) ->
  spec_operations ll_schematic (insert_blocks f now parts) D = Ok (results, D') ->
  blocks_ok (D' (blocks_name F)) /\ (forall c, c <> blocks_name F -> D' c = D c) /\
  forall g, file_bytes g (D' (blocks_name F)) = file_bytes g (D (blocks_name F)) ++ (if decide (f = g) then concat parts else []).
Proof.
  intros Hf Hparts. revert D results. induction Hparts as [|chunk parts Hc Hparts IH]; intros D results HD Hrun; simpl in Hrun.
  { injection Hrun as _ <-. split_and!; [done|done|]. intros g. case_decide; by rewrite app_nil_r. }
  apply bind_Ok_inv in Hrun as ([result M] & Hcmd & Hrun). apply bind_Ok_inv in Hrun as ([rest D1] & Hrun & [= _ <-]).
  apply bind_Ok_inv in Hcmd as (d & Hd & Hcmd). destruct (D (blocks_name F) !! d); [done|]. unfold spec_create in Hcmd. injection Hcmd as _ <-.
  destruct (next_block_id _ d (bo_ids _ HD) Hd) as [Htyped Hgt]. apply IH in Hrun as (HD' & Hother & Hbytes).
  - unfold set_documents in *. split_and!; [done| |].
    + intros c Hne. rewrite Hother by done. by rewrite decide_False.
    + intros g. rewrite Hbytes, decide_True by done. rewrite file_bytes_insert by done.
      cbn [document_new contents]. destruct (block_bytes_parts chunk f now Hf) as [-> ->].
      rewrite <- app_assoc. by destruct (decide (f = g)).
  - unfold set_documents. rewrite decide_True by done. split.
    + intros k [doc [[<- <-]|[Hne Hk]]%lookup_insert_Some]; [done|]. apply (bo_ids _ HD). eauto.
    + intros k doc [[<- <-]|[Hne Hk]]%lookup_insert_Some; [|by eapply bo_length]. cbn [document_new contents].
      unfold block_bytes, blen. rewrite !length_app, !to_be_bytes_length. change (int_bytes u32) with 4%nat. change (int_bytes i64) with 8%nat. lia.
Qed.

Lemma chunks_fuel_bounded {A} fuel n (l : list A) : Forall (fun c => length c <= n)%nat (chunks_fuel fuel n l).
Proof. revert l. induction fuel as [|fuel IH]; intros [|x l]; constructor; [rewrite length_take; lia|apply IH]. Qed.

(** Appending to a file: all of the data or none of it; no other file changes. *)
Lemma append_result now data f s r s' :
  in_range u32 f = true -> conn_ok s -> blocks_ok (blocks_of s) -> block_append F now data f s = (r, s') ->
  conn_ok s' /\ blocks_ok (blocks_of s') /\ (forall c, qualified_wf c -> c <> blocks_name F -> documents s' c = documents s c) /\
  (forall g, file_bytes g (blocks_of s') =
     file_bytes g (blocks_of s) ++ (match r with Ok _ => if decide (f = g) then data else [] | _ => [] end)) /\
  (r = Ok tt -> data <> [] -> exists did, document_id_new key_u32 f = Ok did /\ is_Some (documents s (files_name F) !! did)).
Proof.
  intros Hf Hok HD Hrun. unfold block_append in Hrun. destruct data as [|b data].
  { injection Hrun as <- <-. split_and!; [done|done|done| |done]. intros g. case_decide; by rewrite app_nil_r. }
  set (whole := b :: data) in *. destruct (document_id_new key_u32 f) as [did| |] eqn:Hdid; [|injection Hrun as <- <-; split_and!; [done|done|done|intros; by rewrite app_nil_r|done]..].
  rewrite (stm_bind_Ok (st_lift (Ok did)) _ s did s) in Hrun by done. unfold chunks_of in Hrun.
  rewrite (proj2 (Nat.eqb_neq _ 0)) in Hrun by lia. rewrite (stm_bind_Ok (st_lift (Ok (chunks (BLOCK_SIZE F) whole))) _ s (chunks (BLOCK_SIZE F) whole) s) in Hrun by done.
  destruct (ll_apply_transaction (op_check_exists (files_name F) did :: insert_blocks f now (chunks (BLOCK_SIZE F) whole)) s) as [r1 s1] eqn:Happly. rewrite (stm_bind_run _ _ _ _ _ Happly) in Hrun.
  apply law_apply in Happly as [Hok1 Hr1]; [|done]. destruct r1 as [results|e|].
  - injection Hrun as <- <-. destruct Hr1 as (D' & Hspec & Hdocs). cbn [spec_operations op_check_exists op_collection command] in Hspec.
    apply bind_Ok_inv in Hspec as ([res0 M] & Hcheck & Hspec). apply bind_Ok_inv in Hspec as ([rest D1] & Hspec & [= _ <-]).
    cbn [spec_command] in Hcheck. destruct (documents s (files_name F) !! did) as [doc|] eqn:Hdoc; [|done].
    rewrite bool_decide_true in Hcheck by done. cbn [orb] in Hcheck. injection Hcheck as _ <-.
    apply insert_blocks_spec in Hspec as (HD' & Hother & Hbytes); [|done|apply chunks_fuel_bounded|unfold set_documents; by rewrite decide_False].
    rewrite concat_chunks in Hbytes by done. rewrite !Hdocs by done. unfold set_documents in *. split_and!; [done|done| | |].
    + intros c Hc Hne. rewrite Hdocs, Hother by done.
      clear Hbytes Hother. case_decide as Hc'; [by rewrite Hc'|done].
    + intros g. rewrite Hbytes. by rewrite decide_False.
    + intros _ _. exists did. by rewrite Hdoc.
  - injection Hrun as <- <-. destruct Hr1 as [Hsame _]. rewrite Hsame by done. split_and!; [done|done|intros; by rewrite Hsame|intros; by rewrite app_nil_r|done].
  - injection Hrun as <- <-. rewrite Hr1 by done. split_and!; [done|done|intros; by rewrite Hr1|intros; by rewrite app_nil_r|done].
Qed.

(** ** Reading *)

Context (v : View) (Hview : views ll_schematic !! by_file_id F = Some v) (Hname : view_by_name ll_schematic (view_name v) = Ok v)
  (Hmap : view_map v = by_file_map F) (Hcollection : view_collection v = blocks_name F).
(** The values of the view are read as they were written. *)
Context (Hinfo : forall i, exists b, info_serialize F i = Some b /\ info_deserialize F b = Some i).

Definition info_of (contents : bytes) : BlockAppendInfo := MkBlockAppendInfo (blen contents - 12) (Some (block_time contents)).
Definition pair_info (p : bytes * Doc) : BlockInfo :=
  MkBlockInfo 0 (length (block_chunk (contents p.2))) (block_time (contents p.2))
    (MkBlockHeader (from_be_bytes u64 p.1) (revision (header p.2))).

Lemma sub_usize {E} x y : 0 <= y <= x -> x <= int_max isize -> op_sub (E:=E) usize x y = Ok (x - y).
Proof.
  intros Hy Hx. unfold op_sub. assert (in_range usize (x - y) = true) as ->; [|done].
  apply in_range_spec. change (int_min usize) with 0. change (int_max usize) with (2 ^ 64 - 1). change (int_max isize) with (2 ^ 63 - 1) in Hx. lia.
Qed.

Lemma slice_within {E} bs a b : 0 <= a <= b -> b <= blen bs -> slice (E:=E) bs a b = Ok (take (Z.to_nat (b - a)) (drop (Z.to_nat a) bs)).
Proof. intros Ha Hb. unfold slice. by rewrite (proj2 (Z.leb_le 0 a)), (proj2 (Z.leb_le a b)), (proj2 (Z.leb_le b _)) by lia. Qed.

Lemma block_info_ok bs : 12 <= blen bs <= int_max isize -> block_info bs = Ok (block_file bs, info_of bs).
Proof.
  intros Hl. unfold block_info. rewrite sub_usize by lia. cbn [mbind res_bind]. rewrite sub_usize by lia. cbn [mbind res_bind].
  rewrite !slice_within by lia. cbn [mbind res_bind].
  unfold block_file, info_of, block_time, blen in *.
  replace (Z.to_nat (Z.of_nat (length bs) - 8 - 4)) with (length bs - 12)%nat by lia.
  replace (Z.to_nat (Z.of_nat (length bs) - 8 - (Z.of_nat (length bs) - 8 - 4))) with 4%nat by lia.
  replace (Z.to_nat (Z.of_nat (length bs) - 8)) with (length bs - 8)%nat by lia.
  replace (Z.to_nat (Z.of_nat (length bs) - (Z.of_nat (length bs) - 8))) with 8%nat by lia.
  rewrite (take_ge (drop (length bs - 8) bs)) by (rewrite length_drop; lia).
  replace (Z.of_nat (length bs) - 8 - 4) with (Z.of_nat (length bs) - 12) by lia. done.
Qed.

Lemma block_file_range bs : in_range u32 (block_file bs) = true.
Proof. apply wrap_in_range. done. Qed.

(** The entry of the view for a block. *)
Lemma block_indexed f doc rev value :
  in_range u32 f = true -> 12 <= blen (contents doc) <= int_max isize ->
  doc_indexed v (Some doc) (to_be_bytes u32 f) = Some (rev, value) <->
  block_file (contents doc) = f /\ rev = revision (header doc) /\ info_serialize F (info_of (contents doc)) = Some value.
Proof.
  intros Hf Hl. unfold doc_indexed, doc_output. rewrite Hmap. unfold by_file_map. rewrite block_info_ok by done. cbn [mbind res_bind].
  unfold in_view. cbn [as_ord_bytes key_u32 key_primitive map_err mbind res_bind].
  destruct (Hinfo (info_of (contents doc))) as (b & Hb & _). rewrite Hb. cbn [view_value ok_or mbind res_bind].
  unfold emitted. rewrite filter_cons, filter_nil. cbn [map_key].
  case_decide as Hk; simpl.
  - apply (f_equal (from_be_bytes u32)) in Hk. rewrite !from_to_be_bytes in Hk by (done || apply block_file_range). naive_solver.
  - split; [done|]. intros [<- _]. done.
Qed.

Lemma typed_block_id D d : typed_ids block_type D -> is_Some (D !! d) ->
  exists i, in_range u64 i = true /\ d = to_be_bytes u64 i /\ from_be_bytes u64 d = i /\ blen d <= MAX_LENGTH.
Proof.
  intros Hids Hd. destruct (Hids d Hd) as (i & Hi & Hd' & Hl). simpl in Hi, Hd'. injection Hd' as <-. exists i.
  split_and!; [done|done|by apply from_to_be_bytes|done].
Qed.

(** A selected mapping is a block of the file. *)
Lemma mapping_block f D m b :
  in_range u32 f = true -> blocks_ok D ->
  (exists doc, D !! id (ms_source m) = Some doc /\ block_file (contents doc) = f /\ revision (ms_source m) = revision (header doc) /\
     info_serialize F (info_of (contents doc)) = Some (ms_value m)) ->
  ms_key m = to_be_bytes u32 f ->
  (tm ← deserialize_mapping (by_file F) m; to_block_info tm) = Ok b ->
  exists doc, D !! id (ms_source m) = Some doc /\ block_file (contents doc) = f /\ b = pair_info (id (ms_source m), doc).
Proof.
  intros Hf HD (doc & Hdoc & Hfile & Hrev & Hval) Hk Hb. exists doc. split_and!; [done|done|].
  destruct (typed_block_id D (id (ms_source m)) (bo_ids _ HD) ltac:(eauto)) as (i & Hi & Hid & Hfrom & Hl).
  destruct (Hinfo (info_of (contents doc))) as (b' & Hb' & Hdes). rewrite Hval in Hb'. injection Hb' as <-.
  unfold deserialize_mapping, collection_header_try_from, document_id_deserialize, vt_from_slice in Hb.
  cbn [by_file vt_key vt_deserialize vt_collection block_collection cl_key] in Hb.
  assert (from_ord_bytes key_u32 (Borrowed (ms_key m)) = Ok f) as Ek by (by apply key_primitive_decode).
  assert (from_ord_bytes key_u64 (Borrowed (id (ms_source m))) = Ok i) as Ei by (by apply key_primitive_decode).
  rewrite Ek, Hdes, Ei in Hb.
  cbn [map_err ok_or mbind res_bind to_block_info] in Hb. unfold to_block_info in Hb. simpl in Hb. injection Hb as <-.
  unfold pair_info. cbn [fst snd]. rewrite Hfrom, Hrev. f_equal. unfold block_chunk. rewrite length_take. pose proof (bo_length _ HD _ _ Hdoc).
  unfold blen in *. lia.
Qed.

Definition info_lt (a b : BlockInfo) : Prop := bh_id (bi_header a) < bh_id (bi_header b).

Lemma info_lt_sorted l : StronglySorted block_le l -> NoDup ((fun b => bh_id (bi_header b)) <$> l) -> StronglySorted info_lt l.
Proof.
  induction 1 as [|b l Hs IH Hf]; [constructor|]. rewrite fmap_cons, NoDup_cons. intros [Hb Hn]. constructor; [by apply IH|].
  rewrite List.Forall_forall in Hf |- *. intros b' Hb'. pose proof (Hf b' Hb') as Hle. unfold block_le, info_lt in *.
  assert (bh_id (bi_header b) <> bh_id (bi_header b')); [|lia]. intros Heq. apply Hb. rewrite Heq.
  by apply (list_elem_of_fmap_2 (fun b => bh_id (bi_header b))), list_elem_of_In.
Qed.

(** The pairs in the order of their ids. *)
Lemma file_pairs_lt f D : StronglySorted (fun p q : bytes * Doc => bytes_lt p.1 q.1) (file_pairs f D).
Proof.
  apply StronglySorted_filter. pose proof (sorted_pairs_sorted D) as Hs. induction (sorted_pairs D) as [|p l IH]; [constructor|].
  simpl in Hs. inversion Hs as [|? ? Hs' Hf]; subst. constructor; [by apply IH|]. rewrite List.Forall_forall in Hf |- *.
  intros q Hq. apply Hf, list_elem_of_In, list_elem_of_fmap_2. by apply list_elem_of_In.
Qed.
Lemma file_pairs_elem f D d doc : (d, doc) ∈ file_pairs f D <-> D !! d = Some doc /\ block_file (contents doc) = f.
Proof. unfold file_pairs. rewrite list_elem_of_filter, sorted_pairs_elem. simpl. tauto. Qed.

Lemma StronglySorted_fmap {A B} (R : A -> A -> Prop) (S : B -> B -> Prop) (g : A -> B) l :
  (forall x y, x ∈ l -> y ∈ l -> R x y -> S (g x) (g y)) -> StronglySorted R l -> StronglySorted S (g <$> l).
Proof.
  intros Hg. induction 1 as [|x l Hs IH Hf]; [constructor|]. simpl. constructor.
  - apply IH. intros y z Hy Hz. apply Hg; by right.
  - rewrite List.Forall_forall in Hf |- *. intros y Hy%list_elem_of_In. apply list_elem_of_fmap in Hy as (z & -> & Hz).
    apply Hg; [left|by right|]. apply Hf. by apply list_elem_of_In.
Qed.

Lemma id_order D d e : typed_ids block_type D -> is_Some (D !! d) -> is_Some (D !! e) ->
  bytes_lt d e -> from_be_bytes u64 d < from_be_bytes u64 e.
Proof.
  intros Hids Hd He Hlt. destruct (typed_block_id D d Hids Hd) as (i & Hi & -> & Hfi & _), (typed_block_id D e Hids He) as (j & Hj & -> & Hfj & _).
  rewrite Hfi, Hfj. unfold bytes_lt in Hlt. rewrite to_be_bytes_cmp in Hlt by done. by apply Z.compare_lt_iff.
Qed.

Lemma file_infos_sorted f D : typed_ids block_type D -> StronglySorted info_lt (pair_info <$> file_pairs f D).
Proof.
  intros Hids. eapply StronglySorted_fmap; [|apply file_pairs_lt]. intros [d doc] [e doc'] [Hd _]%file_pairs_elem [He _]%file_pairs_elem Hlt.
  unfold info_lt, pair_info. simpl. by eapply id_order; eauto.
Qed.

(** The mappings a query for the file returns. *)
Lemma query_blocks f D ms :
  in_range u32 f = true -> blocks_ok D -> NoDup ms ->
  (forall d rev k value, MkMapSerialized (MkHeader d rev) k value ∈ ms <->
     key_selected (Some (Matches (to_be_bytes u32 f))) k /\ doc_indexed v (D !! d) k = Some (rev, value)) ->
  (forall m, m ∈ ms -> ms_key m = to_be_bytes u32 f /\ exists doc, D !! id (ms_source m) = Some doc /\ block_file (contents doc) = f /\
     revision (ms_source m) = revision (header doc) /\ info_serialize F (info_of (contents doc)) = Some (ms_value m)) /\
  (forall d doc, D !! d = Some doc -> block_file (contents doc) = f -> exists m, m ∈ ms /\ id (ms_source m) = d) /\
  NoDup ((fun m => id (ms_source m)) <$> ms).
Proof.
  intros Hf HD Hnd Hms.
  assert (forall m, m ∈ ms -> ms_key m = to_be_bytes u32 f /\ exists doc, D !! id (ms_source m) = Some doc /\ block_file (contents doc) = f /\
     revision (ms_source m) = revision (header doc) /\ info_serialize F (info_of (contents doc)) = Some (ms_value m)) as Helem.
  { intros [[d rev] k value] Hm. apply Hms in Hm as [Hk Hix]. simpl in Hk. subst k. split; [done|].
    destruct (D !! d) as [doc|] eqn:Hdoc; [|done]. apply block_indexed in Hix; [|done|by eapply bo_length]. exists doc. simpl. naive_solver. }
  split_and!; [done| |].
  - intros d doc Hdoc Hfile. destruct (Hinfo (info_of (contents doc))) as (b & Hb & _).
    exists (MkMapSerialized (MkHeader d (revision (header doc))) (to_be_bytes u32 f) b). split; [|done]. apply Hms. split; [done|].
    rewrite Hdoc. apply block_indexed; [done|by eapply bo_length|done].
  - apply NoDup_fmap_2_strong; [|done]. intros [[d rev] k value] [[d' rev'] k' value'] Hm Hm' Heq. simpl in Heq. subst d'.
    destruct (Helem _ Hm) as (Hk & doc & Hdoc & _ & Hrev & Hv), (Helem _ Hm') as (Hk' & doc' & Hdoc' & _ & Hrev' & Hv'). simpl in *. congruence.
Qed.

Lemma mapped_blocks f D ms tms bs :
  in_range u32 f = true -> blocks_ok D ->
  (forall m, m ∈ ms -> ms_key m = to_be_bytes u32 f /\ exists doc, D !! id (ms_source m) = Some doc /\ block_file (contents doc) = f /\
     revision (ms_source m) = revision (header doc) /\ info_serialize F (info_of (contents doc)) = Some (ms_value m)) ->
  collect (deserialize_mapping (by_file F)) ms = Ok tms -> collect to_block_info tms = Ok bs ->
  Forall2 (fun m b => exists doc, (id (ms_source m), doc) ∈ file_pairs f D /\ b = pair_info (id (ms_source m), doc)) ms bs.
Proof.
  intros Hf HD Helem Htms%collect_Ok_iff. revert bs. induction Htms as [|m tm ms tms Hm Htms IH]; intros bs Hbs%collect_Ok_iff.
  - inversion Hbs. constructor.
  - inversion Hbs as [|? b ? bs' Hb Hbs' E1 E2]; subst. constructor.
    + destruct (Helem m ltac:(left)) as [Hk Hdoc]. destruct (mapping_block f D m b Hf HD Hdoc Hk) as (doc & ? & ? & ->).
      { by rewrite Hm. }
      exists doc. by rewrite file_pairs_elem.
    + apply IH; [|by apply collect_Ok_iff]. intros m' Hm'. apply Helem. by right.
Qed.


(** The blocks of a file have different ids. *)
Lemma mapped_ids_NoDup f D ms bs :
  typed_ids block_type D -> NoDup ((fun m => id (ms_source m)) <$> ms) ->
  Forall2 (fun m b => exists doc, (id (ms_source m), doc) ∈ file_pairs f D /\ b = pair_info (id (ms_source m), doc)) ms bs ->
  NoDup ((fun b => bh_id (bi_header b)) <$> bs).
Proof.
  intros Hids Hn Hall. induction Hall as [|m b ms bs (doc & Hp & ->) Hall IH]; [constructor|]. apply NoDup_cons in Hn as [Hm Hn]. apply NoDup_cons.
  split; [|by apply IH]. intros (b' & Heq & Hb')%list_elem_of_fmap.
  destruct (Forall2_elem_r _ _ _ _ Hall Hb') as (m' & Hm' & doc' & Hp' & ->). simpl in Heq.
  apply file_pairs_elem in Hp as [Hd _], Hp' as [Hd' _].
  destruct (typed_block_id D _ Hids (mk_is_Some _ _ Hd)) as (i & _ & Ei & Hi & _).
  destruct (typed_block_id D _ Hids (mk_is_Some _ _ Hd')) as (j & _ & Ej & Hj & _).
  apply Hm, list_elem_of_fmap. exists m'. split; [|done]. congruence.
Qed.

Lemma for_file_ok f s r s' :
  in_range u32 f = true -> conn_ok s -> blocks_ok (blocks_of s) -> for_file F f s = (r, s') ->
  conn_ok s' /\ (forall c, qualified_wf c -> documents s' c = documents s c) /\
  (forall bs, r = Ok bs -> bs = assign_offsets 0 (pair_info <$> file_pairs f (blocks_of s))).
Proof.
  intros Hf Hok HD Hrun. unfold for_file in Hrun.
  destruct (view_query (by_file F) (with_key (K := k_type (vt_key (by_file F))) f view_new) s) as [r0 s0] eqn:Hquery.
  rewrite (stm_bind_run _ _ _ _ _ Hquery) in Hrun. unfold view_query in Hquery.
  rewrite (conn_query_run (by_file F) _ (Some (Matches (to_be_bytes u32 f))) v) in Hquery by (done || by unfold schematic_view; simpl; rewrite Hview).
  cbn [with_key set_vb_key view_new vb_sort vb_limit vb_access_policy] in Hquery.
  destruct (ll_query_by_name (view_name v) (Some (Matches (to_be_bytes u32 f))) Ascending None UpdateBefore s) as [r1 s1] eqn:Hq.
  injection Hquery as Hr0 <-. apply law_query with (v := v) in Hq as (Hok1 & Hsame & Hres); [|done|done|by rewrite Hcollection].
  assert (s' = s1 /\ forall bs, r = Ok bs -> exists ms tms bs0, r1 = Ok ms /\ collect (deserialize_mapping (by_file F)) ms = Ok tms /\
    collect to_block_info tms = Ok bs0 /\ bs = assign_offsets 0 (merge_sort block_le bs0)) as [-> Hr].
  { destruct r0 as [tms| |]; [|by injection Hrun as <- <-..]. apply bind_Ok_inv in Hr0 as (ms & -> & Htms).
    unfold mbind, stm_bind, st_lift in Hrun. destruct (collect to_block_info tms) as [bs0| |] eqn:Hbs0; [|by injection Hrun as <- <-..].
    injection Hrun as <- <-. split; [done|]. intros bs [= <-]. by exists ms, tms, bs0. }
  split_and!; [done|done|]. intros bs Hbs. destruct (Hr bs Hbs) as (ms & tms & bs0 & -> & Htms & Hbs0 & ->).
  destruct (Hres ms eq_refl) as [Hnd Hms]. rewrite Hcollection in Hms.
  destruct (query_blocks f (blocks_of s) ms Hf HD (Hnd I) Hms) as (Helem & Hall & Hids). f_equal.
  pose proof (mapped_blocks f (blocks_of s) ms tms bs0 Hf HD Helem Htms Hbs0) as Hpairs.
  apply (sorted_elements_unique info_lt).
  - unfold info_lt. intros; lia.
  - apply info_lt_sorted; [apply StronglySorted_merge_sort; apply _|]. rewrite merge_sort_Permutation.
    by apply (mapped_ids_NoDup f (blocks_of s) ms); [apply bo_ids|..].
  - by apply file_infos_sorted, bo_ids.
  - intros b. rewrite merge_sort_Permutation. split.
    + intros (m & Hm & doc & Hp & ->)%(Forall2_elem_r _ _ _ _ Hpairs). by apply list_elem_of_fmap_2.
    + intros ([d doc] & -> & Hp)%list_elem_of_fmap. apply file_pairs_elem in Hp as [Hdoc Hfile].
      destruct (Hall d doc Hdoc Hfile) as (m & Hm & <-).
      destruct (Forall2_elem_l _ _ _ _ Hpairs Hm) as (b & Hb & doc' & [Hdoc' _]%file_pairs_elem & ->).
      rewrite Hdoc in Hdoc'. by injection Hdoc' as <-.
Qed.

(** ** Loading blocks *)

Lemma btree_insert_elem {A} k (a : A) l p :
  StronglySorted (fun x y : Z * A => x.1 < y.1) l ->
  p ∈ btree_insert Z.compare k a l <-> p = (k, a) \/ p ∈ l /\ p.1 <> k.
Proof.
  induction 1 as [|[k' a'] l Hs IH Hf]; cbn [btree_insert].
  { rewrite list_elem_of_singleton, elem_of_nil. naive_solver. }
  rewrite List.Forall_forall in Hf. setoid_rewrite <- list_elem_of_In in Hf. simpl in Hf.
  destruct (Z.compare_spec k k') as [<-|Hlt|Hgt]; rewrite !elem_of_cons.
  - split; [intros [->|Hp]; [by left|]; right; split; [by right|]; specialize (Hf p Hp); lia|]. intros [->|[[->|Hp] Hne]]; simpl in *; [by left|done|by right].
  - split; [intros [->|[->|Hp]]; [by left|right; simpl; split; [by left|lia]|]; right; split; [by right|]; specialize (Hf p Hp); simpl in *; lia|]. naive_solver.
  - rewrite IH. split; [intros [->|[->|[Hp Hne]]]; [right; simpl; split; [by left|lia]|by left|right; split; [by right|done]]|]. naive_solver.
Qed.
Lemma btree_insert_sorted {A} k (a : A) l :
  StronglySorted (fun x y : Z * A => x.1 < y.1) l -> StronglySorted (fun x y : Z * A => x.1 < y.1) (btree_insert Z.compare k a l).
Proof.
  induction 1 as [|[k' a'] l Hs IH Hf]; cbn [btree_insert]; [by repeat constructor|].
  pose proof Hf as Hf'. rewrite List.Forall_forall in Hf'. simpl in Hf'.
  destruct (Z.compare_spec k k') as [<-|Hlt|Hgt].
  - by constructor.
  - constructor; [by constructor|]. constructor; [done|]. apply List.Forall_forall. intros p Hp. specialize (Hf' p Hp). simpl. lia.
  - constructor; [done|]. apply List.Forall_forall. intros p Hp%list_elem_of_In. apply btree_insert_elem in Hp as [->|[Hp _]]; [done| |done].
    by apply Hf', list_elem_of_In.
Qed.

(** Collecting pairs of which no two have the same key and different values. *)
Lemma btree_collect_elem {A} (l : list (Z * A)) :
  (forall k a b, (k, a) ∈ l -> (k, b) ∈ l -> a = b) ->
  StronglySorted (fun x y : Z * A => x.1 < y.1) (btree_collect Z.compare l) /\ forall p, p ∈ btree_collect Z.compare l <-> p ∈ l.
Proof.
  unfold btree_collect. induction l as [|[k a] l IH] using rev_ind; intros Hfun.
  { split; [constructor|done]. }
  rewrite fold_left_app. simpl. destruct IH as [Hs He].
  { intros k' x y Hx Hy. apply (Hfun k'); apply elem_of_app; by left. }
  split; [by apply btree_insert_sorted|]. intros [k' b]. rewrite btree_insert_elem, He, elem_of_app, list_elem_of_singleton by done. simpl.
  split; [naive_solver|]. intros [Hin|[= -> ->]]; [|by left]. destruct (decide (k' = k)) as [->|Hne]; [|by right]. left. f_equal.
  apply (Hfun k); apply elem_of_app; [by left|]. right. by apply list_elem_of_singleton.
Qed.

Definition pair_id (p : bytes * Doc) : Z := from_be_bytes u64 p.1.
Definition pair_chunk (p : bytes * Doc) : bytes := block_chunk (contents p.2).

Lemma loaded_block_ok D d doc :
  blocks_ok D -> D !! d = Some doc -> id (header doc) = d -> loaded_block doc = Ok (from_be_bytes u64 d, block_chunk (contents doc)).
Proof.
  intros HD Hd Hid. pose proof (bo_length _ HD _ _ Hd) as Hl. destruct (typed_block_id _ d (bo_ids _ HD) (mk_is_Some _ _ Hd)) as (i & Hi & Ed & Hfrom & _).
  unfold loaded_block, block_contents. rewrite sub_usize by lia. cbn [mbind res_bind]. rewrite sub_usize by lia. cbn [mbind res_bind].
  unfold document_id_deserialize. rewrite Hid.
  assert (from_ord_bytes key_u64 (Borrowed d) = Ok i) as -> by (by apply key_primitive_decode). simpl. rewrite Hfrom. unfold block_chunk, blen.
  by replace (Z.to_nat (Z.of_nat (length (contents doc)) - 4 - 8)) with (length (contents doc) - 12)%nat by lia.
Qed.
Lemma zip_fmap {A B C} (f : A -> B) (g : A -> C) l : zip (f <$> l) (g <$> l) = (fun x => (f x, g x)) <$> l.
Proof. induction l as [|x l IH]; [done|]. simpl. f_equal. exact IH. Qed.

(** The documents of the blocks can be read: the storage does not fail. *)
Definition readable (s : St) : Prop :=
  forall ids, exists ds, (ll_get_multiple_from_collection ids (blocks_name F) s).1 = Ok ds.

(** Loading some of the blocks, given in the order of their ids. *)
Lemma block_load_ok D s l :
  conn_ok s -> blocks_of s = D -> blocks_ok D -> readable s -> (forall p, p ∈ l -> D !! p.1 = Some p.2) ->
  StronglySorted (fun p q : bytes * Doc => bytes_lt p.1 q.1) l ->
  (block_load F (pair_id <$> l) s).1 = Ok (zip (pair_id <$> l) (pair_chunk <$> l)).
Proof.
  intros Hok <- HD Hread Hl Hsorted. unfold block_load, conn_get_multiple.
  assert (collect (document_id_new key_u64) (pair_id <$> l) = Ok l.*1) as Hids.
  { apply collect_Ok_iff. apply Forall2_fmap. apply Forall_Forall2_diag, Forall_forall. intros [d doc] Hp. specialize (Hl _ Hp). simpl in Hl |- *.
    destruct (typed_block_id _ d (bo_ids _ HD) (mk_is_Some _ _ Hl)) as (i & Hi & Hd & Hfrom & Hlen). apply document_id_new_Ok. unfold pair_id. simpl. by rewrite Hfrom, Hd in *. }
  rewrite Hids. clear Hids. unfold mbind, stm_bind, st_lift. destruct (Hread l.*1) as [ds Hds].
  destruct (ll_get_multiple_from_collection l.*1 (blocks_name F) s) as [r s1] eqn:Hget. simpl in Hds. subst r.
  apply law_get_multiple in Hget as (_ & _ & Hds); [|done|done]. specialize (Hds ds eq_refl).
  assert (forall doc, doc ∈ ds -> exists d, (d, doc) ∈ l /\ loaded_block doc = Ok (pair_id (d, doc), pair_chunk (d, doc)) /\ id (header doc) = d) as Hdoc.
  { intros doc (d & ([d' doc'] & -> & Hp)%list_elem_of_fmap & Hd)%Hds. pose proof (Hl _ Hp) as Hp'. simpl in *. rewrite Hd in Hp'. injection Hp' as <-.
    pose proof (law_ids (blocks_name F) s d' doc Hok Hblocks Hd). exists d'. split_and!; [done| |done]. by apply (loaded_block_ok (blocks_of s)). }
  set (ps := (fun doc => (pair_id (id (header doc), doc), pair_chunk (id (header doc), doc))) <$> ds).
  assert (collect loaded_block ds = Ok ps) as Hps.
  { apply collect_total. intros doc Hin. destruct (Hdoc doc Hin) as (d & _ & -> & ->). done. }
  rewrite Hps. unfold mret, stm_ret. simpl. f_equal.
  assert (forall x, x ∈ ps <-> exists p, p ∈ l /\ x = (pair_id p, pair_chunk p)) as Hin.
  { apply collect_Ok_iff in Hps. intros x. split.
    - intros (doc & Hdoc' & Hx)%(Forall2_elem_r _ _ _ _ Hps). destruct (Hdoc doc Hdoc') as (d & Hp & Hload & _). exists (d, doc). split; [done|]. congruence.
    - intros ([d doc] & Hp & ->). assert (doc ∈ ds) as Hd by (apply Hds; exists d; split; [by apply (list_elem_of_fmap_2' fst _ _ _ Hp)|by apply (Hl _ Hp)]).
      destruct (Forall2_elem_l _ _ _ _ Hps Hd) as (x & Hx & Hload). rewrite (loaded_block_ok (blocks_of s) d doc HD (Hl _ Hp)) in Hload; [by injection Hload as <-|].
      by apply (law_ids (blocks_name F) s), (Hl _ Hp). }
  destruct (btree_collect_elem ps) as [Hs He].
  { intros k a b ([d doc] & Hp & [= -> ->])%Hin ([d' doc'] & Hp' & [= Hk ->])%Hin. apply Hl in Hp, Hp'. simpl in *.
    destruct (typed_block_id _ d (bo_ids _ HD) (mk_is_Some _ _ Hp)) as (i & _ & Ei & Hi & _).
    destruct (typed_block_id _ d' (bo_ids _ HD) (mk_is_Some _ _ Hp')) as (j & _ & Ej & Hj & _). unfold pair_id in Hk. simpl in Hk. congruence. }
  rewrite zip_fmap. apply (sorted_elements_unique (fun x y : Z * bytes => x.1 < y.1)); [intros; lia|done| |].
  - eapply StronglySorted_fmap; [|exact Hsorted]. intros p q Hp Hq Hlt. simpl. unfold pair_id.
    by apply (id_order (blocks_of s)); [apply bo_ids|rewrite Hl; eauto..|].
  - intros x. rewrite He, Hin, list_elem_of_fmap. naive_solver.
Qed.

(** ** The contents of a file *)

Lemma assign_offsets_ids z bs :
  (fun b => bh_id (bi_header b)) <$> assign_offsets z bs = (fun b => bh_id (bi_header b)) <$> bs.
Proof. revert z. induction bs as [|b bs IH]; intros z; simpl; [done|]. f_equal. apply IH. Qed.

Lemma take_drop_elem {A} i k (l : list A) x : x ∈ take k (drop i l) -> x ∈ l.
Proof. intros Hx. rewrite <- (take_drop i l). apply elem_of_app. right. rewrite <- (take_drop k (drop i l)). apply elem_of_app. by left. Qed.
Lemma StronglySorted_take_drop {A} (R : A -> A -> Prop) i k l : StronglySorted R l -> StronglySorted R (take k (drop i l)).
Proof.
  intros Hs. assert (StronglySorted R (drop i l)) as Hd.
  { revert i. induction Hs as [|x l Hs IH Hf]; intros [|i]; simpl; [constructor..|by constructor|apply IH]. }
  revert k. induction Hd as [|x l' Hs' IH Hf]; intros [|k]; simpl; [constructor..|]. constructor; [apply IH|].
  rewrite List.Forall_forall in Hf |- *. intros y Hy. apply Hf, list_elem_of_In. apply list_elem_of_In in Hy.
  rewrite <- (take_drop k l'). apply elem_of_app. by left.
Qed.

(** What a cursor over a file stands for: the conditions of [FileContentsTheorems]. *)
Lemma file_contents_ok file s c s' :
  in_range u32 (file_id F file) = true -> conn_ok s -> blocks_ok (blocks_of s) -> file_contents F file s = (Ok c, s') ->
  readable s' ->
  let bs := assign_offsets 0 (pair_info <$> file_pairs (file_id F file) (blocks_of s)) in
  let cs := pair_chunk <$> file_pairs (file_id F file) (blocks_of s) in
  conn_ok s' /\ (forall c', qualified_wf c' -> documents s' c' = documents s c') /\
  c = contents_new (BLOCK_SIZE F) bs /\ describes bs cs /\ concat cs = file_bytes (file_id F file) (blocks_of s) /\
  (forall i k, (block_load F ((fun b => bh_id (bi_header b)) <$> take k (drop i bs)) s').1 =
     Ok (zip ((fun b => bh_id (bi_header b)) <$> take k (drop i bs)) (take k (drop i cs)))).
Proof.
  intros Hf Hok HD Hrun Hread bs cs. unfold file_contents in Hrun.
  apply stm_bind_Ok_inv in Hrun as (bs' & s1 & Hff & Hrun). injection Hrun as <- <-. apply for_file_ok in Hff as (Hok1 & Hsame & Hbs); [|done..].
  rewrite (Hbs _ eq_refl). fold bs. split_and!; [done|done|done| |done|].
  - apply assign_offsets_describes, Forall2_fmap, Forall_Forall2_diag, Forall_forall. by intros p _.
  - intros i k. set (l := take k (drop i (file_pairs (file_id F file) (blocks_of s)))).
    assert ((fun b => bh_id (bi_header b)) <$> take k (drop i bs) = pair_id <$> l) as Hids.
    { unfold bs, l. rewrite fmap_take, fmap_drop, assign_offsets_ids, fmap_take, fmap_drop. do 2 f_equal. by rewrite <- list_fmap_compose. }
    assert (take k (drop i cs) = pair_chunk <$> l) as -> by (unfold cs, l; by rewrite fmap_take, fmap_drop).
    rewrite Hids. apply (block_load_ok (blocks_of s) s1 l); [done|by apply Hsame|done|done| |].
    + intros [d doc] Hp%take_drop_elem. by apply file_pairs_elem in Hp as [? _].
    + apply StronglySorted_take_drop, file_pairs_lt.
Qed.

(** C14: what is appended to a file is read back from its contents: after an
    append that succeeds, reading the contents of the file to the end returns
    the bytes the file had, followed by the data, however the data was divided
    into blocks and whatever the sizes of the buffers; the length reported is
    the number of these bytes, the bytes of every other file are those they
    were, and a file that is not stored cannot be appended to. *)
Theorem append_then_read now data file s s1 c s2 fuel rounds sizes :
  in_range u32 (file_id F file) = true -> conn_ok s -> blocks_ok (blocks_of s) ->
  append F now file data s = (Ok tt, s1) -> file_contents F file s1 = (Ok c, s2) -> readable s2 ->
  (forall i, 0 < sizes i)%nat -> (length (blocks c) + 2 <= fuel)%nat ->
  (length (file_bytes (file_id F file) (blocks_of s)) + length data < rounds)%nat ->
  into_vec (fun ids => (block_load F ids s2).1) fuel rounds sizes c =
    Some (Ok (file_bytes (file_id F file) (blocks_of s) ++ data)) /\
  contents_len c = Z.of_nat (length (file_bytes (file_id F file) (blocks_of s) ++ data)) /\
  (forall g, g <> file_id F file -> file_bytes g (blocks_of s2) = file_bytes g (blocks_of s)) /\
  (data <> [] -> exists did, document_id_new key_u32 (file_id F file) = Ok did /\ is_Some (documents s (files_name F) !! did)).
Proof.
  intros Hf Hok HD Happ Hcon Hread Hs Hfuel Hrounds. unfold append in Happ.
  apply append_result in Happ as (Hok1 & HD1 & _ & Hbytes & Hexists); [|done..].
  destruct (file_contents_ok file s1 c s2 Hf Hok1 HD1 Hcon Hread) as (Hok2 & Hsame & -> & Hdesc & Hconcat & Hload).
  rewrite Hbytes, decide_True in Hconcat by done. set (bs := assign_offsets 0 _) in *. set (cs := pair_chunk <$> _) in *.
  destruct (contents_new_ok bs cs (BLOCK_SIZE F)) as [Hcur Hrem].
  destruct (read_to_end_ok (fun ids => (block_load F ids s2).1) bs cs Hdesc Hload fuel rounds sizes (contents_new (BLOCK_SIZE F) bs) Hs Hcur) as (c' & Hrun & _).
  { simpl in Hfuel. by rewrite <- (Forall2_length _ _ _ (desc_lengths _ _ Hdesc)). }
  { rewrite Hrem, Hconcat, length_app. lia. }
  rewrite Hrem, Hconcat in Hrun. split_and!; [by unfold into_vec; rewrite Hrun| | |by apply Hexists].
  - rewrite <- Hconcat. by apply (contents_len_ok (fun ids => (block_load F ids s2).1) bs cs Hdesc Hload).
  - intros g Hg. rewrite (Hsame _ Hblocks), Hbytes, decide_False, app_nil_r by done. done.
Qed.
End Stored.
