(* ===== verification/FilesLookup.v ===== *)
(** * Which files are found and listed

    The files a query of the view [ByPath] returns, over any connection that
    keeps the laws of [ConnectionTheorems]: listing a path returns exactly the
    stored files of that path, and looking a path up returns the file stored
    there. *)

From Stdlib Require Import ZArith Lia Sorting.Sorted.
From stdpp Require Import base list option numbers gmap sorting.
From S2P Require Import Prelude Bytes Utf8 Key KeyLaws CompositeKey CompositeKeyLaws Range Nebari Document Names Changes Schema Permissions View Query Integrity Jobs Transaction Tasks StoreDemo ViewBatch ViewTheorems TransactionLaws TransactionSpec QueryLaws TasksLaws TasksTheorems Connection ConnectionTheorems FilePaths FilePathsTheorems FileContents FileContentsTheorems Files FilesTheorems.

Local Open Scope Z_scope.

Section Lookup.
Context `{Nebari} `{Actionable} `{Digest} `{Profile} {St : Type} `{!LowLevelConnection St}
  (conn_ok : St -> Prop) (documents : St -> Database) `{!ConnectionLaws conn_ok documents}.
Context (F : FileConfig) (Hfiles : qualified_wf (files_name F)).
Context (w : View) (Hview : views ll_schematic !! by_path_id F = Some w) (Hname : view_by_name ll_schematic (view_name w) = Ok w)
  (Hmap : view_map w = by_path_map F) (Hcollection : view_collection w = files_name F).
Context (Hentry : forall e, exists b, entry_serialize F e = Some b /\ entry_deserialize F b = Some e).

Abbreviation files_of s := (documents s (files_name F)).
Abbreviation file_type := (file_collection F).
Abbreviation FileDoc := (CollectionDocument file_type).

Definition key_of (d : FileDoc) : FileKey := by_path_key (f_path (file_of F d)) (f_name (file_of F d)).

(** The files collection holds files, under the ids it generates; their paths
    and names can be encoded, and the path of the root is left out. *)
Record files_ok (D : Docs) : Prop := {
  fo_stored did doc : D !! did = Some doc -> exists d k, collection_document_try_from file_type doc = Ok d /\
    f_path (file_of F d) <> Some [slash] /\
    null_free (containing_path (f_path (file_of F d))) = true /\ null_free (f_name (file_of F d)) = true /\
    file_key_as_ord_bytes (key_of d) = Ok k /\ alloc_ok k
}.

(** The mapping of a file in the view, and the file made of it. *)
Lemma file_indexed doc d kd k rev value :
  collection_document_try_from file_type doc = Ok d -> file_key_as_ord_bytes (key_of d) = Ok kd ->
  doc_indexed w (Some doc) k = Some (rev, value) <->
  k = kd /\ rev = revision (header doc) /\ entry_serialize F (f_created_at (file_of F d), f_metadata (file_of F d)) = Some value.
Proof.
  intros Hd Hkd. unfold doc_indexed, doc_output. rewrite Hmap. unfold by_path_map, in_view. rewrite Hd. cbn [map_err mbind res_bind].
  change (as_ord_bytes key_file (by_path_key (f_path (file_of F d)) (f_name (file_of F d)))) with (file_key_as_ord_bytes (key_of d)).
  rewrite Hkd. cbn [map_err mbind res_bind].
  destruct (Hentry (f_created_at (file_of F d), f_metadata (file_of F d))) as (b & Hb & _). rewrite Hb. cbn [view_value ok_or mbind res_bind].
  unfold emitted. rewrite filter_cons, filter_nil. cbn [map_key]. case_decide as Hk; simpl; naive_solver.
Qed.

Lemma mapping_file doc d kd m :
  collection_document_try_from file_type doc = Ok d -> f_path (file_of F d) <> Some [slash] ->
  null_free (containing_path (f_path (file_of F d))) = true -> null_free (f_name (file_of F d)) = true ->
  file_key_as_ord_bytes (key_of d) = Ok kd -> alloc_ok kd ->
  entry_serialize F (f_created_at (file_of F d), f_metadata (file_of F d)) = Some (ms_value m) ->
  ms_source m = header doc -> ms_key m = kd ->
  exists tm, deserialize_mapping (by_path F) m = Ok tm /\ mapping_document F tm = Some d.
Proof.
  intros Hd Hroot Hp Hn Hkd Ha Hval Hsrc Hk. unfold deserialize_mapping. cbn [by_path vt_key vt_collection].
  rewrite (key_roundtrip (k:=key_file) (key_of d) kd (Borrowed (ms_key m))); [|by split; apply null_free_str|done|done|done].
  destruct (Hentry (f_created_at (file_of F d), f_metadata (file_of F d))) as (b & Hb & Hdes). rewrite Hval in Hb. injection Hb as <-.
  unfold vt_from_slice. cbn [by_path vt_deserialize]. rewrite Hdes. cbn [map_err ok_or mbind res_bind].
  unfold collection_document_try_from in Hd. apply bind_Ok_inv in Hd as (file & Hfile & Hd). apply bind_Ok_inv in Hd as (h & Hh & [= <-]).
  rewrite Hsrc, Hh. eexists. split; [reflexivity|]. unfold mapping_document, key_of, by_path_key, file_of in *. simpl in *.
  destruct file as [[p|] n t md]; simpl in *; [|done]. rewrite bool_decide_false by congruence. done.
Qed.

(** The files a query returns are those whose key it selects. *)
Lemma files_query key sk s tms s' :
  conn_ok s -> files_ok (files_of s) -> serialized key_file key = Ok sk ->
  view_query (by_path F) (set_vb_key (K := k_type (vt_key (by_path F))) key view_new) s = (Ok tms, s') ->
  conn_ok s' /\ (forall c, qualified_wf c -> documents s' c = documents s c) /\
  forall d, d ∈ convert_mappings_to_documents F tms <->
    exists did doc k, files_of s !! did = Some doc /\ collection_document_try_from file_type doc = Ok d /\
      file_key_as_ord_bytes (key_of d) = Ok k /\ key_selected (Some sk) k.
Proof.
  intros Hok HD Hsk Hrun. unfold view_query in Hrun.
  rewrite (conn_query_run (by_path F) _ (Some sk) w) in Hrun; [|by unfold schematic_view; simpl; rewrite Hview|].
  2: { unfold serialized_key. simpl. by rewrite Hsk. }
  cbn [set_vb_key view_new vb_sort vb_limit vb_access_policy] in Hrun.
  destruct (ll_query_by_name (view_name w) (Some sk) Ascending None UpdateBefore s) as [r1 s1] eqn:Hq. injection Hrun as Hr <-.
  apply law_query with (v := w) in Hq as (Hok1 & Hsame & Hres); [|done|done|by rewrite Hcollection].
  split_and!; [done|done|]. apply bind_Ok_inv in Hr as (ms & -> & Htms). destruct (Hres ms eq_refl) as [_ Hms]. rewrite Hcollection in Hms.
  assert (forall m, m ∈ ms -> exists did doc d, files_of s !! did = Some doc /\ collection_document_try_from file_type doc = Ok d /\
    file_key_as_ord_bytes (key_of d) = Ok (ms_key m) /\ key_selected (Some sk) (ms_key m) /\
    exists tm, deserialize_mapping (by_path F) m = Ok tm /\ mapping_document F tm = Some d) as Hm.
  { intros [[did rev] k value] Hm. apply Hms in Hm as [Hsel Hix]. destruct (files_of s !! did) as [doc|] eqn:Hdoc; [|done].
    destruct (fo_stored _ HD did doc Hdoc) as (d & kd & Hd & Hroot & Hp & Hn & Hkd & Ha).
    destruct (proj1 (file_indexed doc d kd _ _ _ Hd Hkd) Hix) as (-> & -> & Hval). exists did, doc, d. split_and!; [done..|].
    eapply mapping_file; try done. simpl. rewrite <- (law_ids _ _ _ _ Hok Hfiles Hdoc). by destruct (header doc). }
  apply collect_Ok_iff in Htms. intros d. unfold convert_mappings_to_documents. rewrite list_elem_of_omap. split.
  - intros (tm & Htm & Hd). destruct (Forall2_elem_r _ _ _ _ Htms Htm) as (m & Hm' & Hdes).
    destruct (Hm m Hm') as (did & doc & d' & ? & ? & ? & ? & tm' & Hdes' & Hd'). rewrite Hdes in Hdes'. injection Hdes' as <-.
    rewrite Hd in Hd'. injection Hd' as <-. by exists did, doc, (ms_key m).
  - intros (did & doc & k & Hdoc & Hd & Hk & Hsel). destruct (fo_stored _ HD did doc Hdoc) as (d' & kd & Hd' & Hroot & Hp & Hn & Hkd & Ha).
    rewrite Hd in Hd'. injection Hd' as <-. rewrite Hk in Hkd. injection Hkd as <-.
    destruct (Hentry (f_created_at (file_of F d), f_metadata (file_of F d))) as (value & Hval & _).
    set (m := MkMapSerialized (MkHeader did (revision (header doc))) k value).
    assert (m ∈ ms) as Hin by (apply Hms; split; [done|]; rewrite Hdoc; by apply (file_indexed doc d k)).
    destruct (Forall2_elem_l _ _ _ _ Htms Hin) as (tm & Htm & Hdes). exists tm. split; [done|].
    destruct (mapping_file doc d k m) as (tm' & Hdes' & <-); try done.
    { simpl. rewrite <- (law_ids _ _ _ _ Hok Hfiles Hdoc). by destruct (header doc). }
    rewrite Hdes in Hdes'. by injection Hdes' as <-.
Qed.

(** C28: listing a path returns exactly the stored files whose containing path
    is that path, with their paths, names, times and metadata, whether or not
    the path is given with its last slash.  The path that is listed and the paths
    and names of all stored files must be free of null characters, since the
    bounds of a listing are not escaped (a file in [/a/<null>x/] would be listed
    as one of [/a]); and no file is stored with the path [/], which is that of
    a file without a path. *)
Theorem listing_exact p s files s' :
  conn_ok s -> files_ok (files_of s) -> null_free p = true -> list_path_contents F p s = (Ok files, s') ->
  forall d, d ∈ files <-> exists did doc, files_of s !! did = Some doc /\ collection_document_try_from file_type doc = Ok d /\
    containing_path (f_path (file_of F d)) = force_slash p.
Proof.
  intros Hok HD Hp Hrun d. unfold list_path_contents, list_by_key, with_listing in Hrun.
  set (range := MkRange (Included (ExactPathPart p true)) (Excluded (ExactPathPart p false))).
  rewrite (stm_bind_Ok _ _ s (set_vb_key (K := k_type (vt_key (by_path F))) (InRange range) view_new) s) in Hrun by done.
  apply stm_bind_Ok_inv in Hrun as (tms & s1 & Hq & [= <- <-]).
  apply (files_query (InRange range) (InRange (MkRange (Included (as_bytes (force_slash p) ++ [0])) (Excluded (as_bytes (force_slash p) ++ [1])))))
    in Hq as (_ & _ & Hd); [|done|done|]; last first.
  { pose proof (list_range_eq p) as Hr. unfold listing_range, list_key in Hr. cbn [to_prefix_range mbind res_bind] in Hr. fold range in Hr.
    cbn [serialized]. by rewrite Hr. }
  rewrite Hd. clear Hd. split.
  - intros (did & doc & k & Hdoc & Htry & Hk & Hsel). exists did, doc. split_and!; [done|done|].
    destruct (fo_stored _ HD did doc Hdoc) as (d' & kd & Htry' & _ & Hpd & Hnd & _). rewrite Htry in Htry'. injection Htry' as <-.
    destruct (list_selects p _ _ k Hp Hpd Hnd Hk) as (r & Hr & Hcon). rewrite list_range_eq in Hr. injection Hr as <-.
    cbn [key_selected] in Hsel. rewrite Hcon in Hsel. by apply bool_decide_eq_true in Hsel.
  - intros (did & doc & Hdoc & Htry & Hpath).
    destruct (fo_stored _ HD did doc Hdoc) as (d' & kd & Htry' & _ & Hpd & Hnd & Hkd & _). rewrite Htry in Htry'. injection Htry' as <-.
    exists did, doc, kd. split_and!; [done..|]. destruct (list_selects p _ _ kd Hp Hpd Hnd Hkd) as (r & Hr & Hcon).
    rewrite list_range_eq in Hr. injection Hr as <-. cbn [key_selected]. rewrite Hcon. by apply bool_decide_eq_true.
Qed.

Lemma path_str_app a b : is_str (a ++ b) = true <-> is_str a = true /\ is_str b = true.
Proof. rewrite !is_str_forall. apply Forall_app. Qed.

Lemma find_key_wf path key : is_str path = true -> find_key path = Some key -> k_wf key_file key.
Proof.
  intros Hp. unfold find_key. destruct path as [|c t]; [done|]. set (q := if ends_with_slash (c :: t) then _ else c :: t). intros [= <-].
  assert (is_str q = true) as Hq.
  { unfold q. destruct (ends_with_slash (c :: t)); [|done]. rewrite <- (take_drop (length (c :: t) - 1) (c :: t)) in Hp.
    by apply path_str_app in Hp as [? _]. }
  pose proof (rsplit_slash_spec q) as Hs. destruct (rsplit_slash q) as [[a b]|]; [|by split].
  destruct Hs as [Hs _]. rewrite Hs in Hq. apply path_str_app in Hq as [Ha Hb]. split; [by apply path_str_app|].
  change (slash :: b) with ([slash] ++ b) in Hb. by apply path_str_app in Hb as [_ ?].
Qed.

(** The encodings of two keys differ. *)
Lemma file_key_inj a b k :
  k_wf key_file a -> k_wf key_file b -> file_key_as_ord_bytes a = Ok k -> file_key_as_ord_bytes b = Ok k -> alloc_ok k -> a = b.
Proof.
  intros Ha Hb Hka Hkb Hk. pose proof (key_roundtrip (k:=key_file) a k (Borrowed k) Ha Hka Hk eq_refl) as E.
  rewrite (key_roundtrip (k:=key_file) b k (Borrowed k) Hb Hkb Hk eq_refl) in E. by injection E.
Qed.

(** Looking a path up returns a stored file whose key is that of the path,
    and nothing only when there is none; an empty path is an error. *)
Theorem find_exact path s r s' :
  conn_ok s -> files_ok (files_of s) -> null_free path = true -> find F path s = (r, s') ->
  (path = [] -> r = Err InvalidPath) /\
  forall o key, r = Ok o -> find_key path = Some key ->
    match o with
    | Some d => exists did doc, files_of s !! did = Some doc /\ collection_document_try_from file_type doc = Ok d /\ key_of d = key
    | None => forall did doc d, files_of s !! did = Some doc -> collection_document_try_from file_type doc = Ok d -> key_of d <> key
    end.
Proof.
  intros Hok HD Hp Hrun. unfold find in Hrun. split; [intros ->; by injection Hrun as <- <-|].
  intros o key -> Hkey. rewrite Hkey in Hrun. apply stm_bind_Ok_inv in Hrun as (tms & s1 & Hq & [= <- <-]).
  unfold in_files in Hq. destruct (view_query _ _ s) as [r1 s2] eqn:Hv in Hq. injection Hq as Hr ->. apply map_err_Ok_inv in Hr as ->.
  destruct (file_key_as_ord_bytes key) as [k|e|] eqn:Hk.
  2,3: by unfold view_query, conn_query, schematic_view in Hv; cbn in Hv; rewrite Hview in Hv; cbn in Hv; rewrite Hk in Hv.
  apply (files_query (Matches key) (Matches k)) in Hv as (_ & _ & Hd); [|done|done|by simpl; rewrite Hk].
  pose proof (find_key_wf path key (null_free_str _ Hp) Hkey) as Hwf.
  destruct (convert_mappings_to_documents F tms) as [|d ds]; simpl.
  - intros did doc d Hdoc Hd' Heq. destruct ((fun e => not_elem_of_nil d (proj2 (Hd d) e))). exists did, doc, k. split_and!; [done|done|by rewrite Heq|done].
  - destruct (proj1 (Hd d) ltac:(left)) as (did & doc & kd & Hdoc & Htry & Hkd & Hsel). exists did, doc. split_and!; [done|done|].
    destruct (fo_stored _ HD did doc Hdoc) as (d' & kd' & Htry' & _ & Hpd & Hnd & Hkd' & Ha). rewrite Htry in Htry'. injection Htry' as <-.
    rewrite Hkd in Hkd'. injection Hkd' as <-. simpl in Hsel. subst kd.
    apply (file_key_inj (key_of d) key k); [by split; apply null_free_str|done..].
Qed.
End Lookup.
