(* ===== verification/FilesExamples.v ===== *)
(** * A concrete configuration of files

    Blocks of two bytes, in the specification as a connection; the theorems on
    files at concrete states of it. *)

From Stdlib Require Import ZArith Lia String.
From stdpp Require Import base list option numbers gmap sorting.
From S2P Require Import Prelude Bytes Utf8 Key KeyLaws CompositeKey Range Nebari Document Names Changes Schema Permissions View Query Integrity Jobs Transaction Tasks StoreDemo ViewBatch TransactionLaws TransactionSpec QueryLaws TasksLaws TasksTheorems Connection ConnectionTheorems FilePaths FilePathsTheorems FileContents FileContentsTheorems Files FilesTheorems FilesLookup.

Local Open Scope Z_scope.

Module FilesDemo.
Import MemNebari StoreDemo PathExamples.
#[local] Instance debug : Profile := true.

(** The formats: sequences with their lengths. *)
Definition sized (s : str) : bytes := Z.of_nat (length s) :: s.
Definition unsized (bs : bytes) : option (str * bytes) :=
  match bs with n :: bs => Some (take (Z.to_nat n) bs, drop (Z.to_nat n) bs) | [] => None end.
Definition write_file (f : StoredFile unit) : option bytes :=
  Some (match f_path f with Some p => 1 :: sized p | None => [0] end ++ sized (f_name f) ++ [f_created_at f]).
Definition read_file (bs : bytes) : option (StoredFile unit) :=
  '(path, bs) ← match bs with
                | 1 :: bs => '(p, bs) ← unsized bs; Some (Some p, bs)
                | 0 :: bs => Some (None, bs)
                | _ => None
                end;
  '(name, bs) ← unsized bs;
  match bs with [t] => Some (MkStoredFile path name t ()) | _ => None end.
Definition write_info (i : BlockAppendInfo) : option bytes :=
  Some (ai_length i :: match ai_timestamp i with Some t => [t] | None => [] end).
Definition read_info (bs : bytes) : option BlockAppendInfo :=
  match bs with
  | [n; t] => Some (MkBlockAppendInfo n (Some t))
  | [n] => Some (MkBlockAppendInfo n None)
  | _ => None
  end.

Definition config : FileConfig := {|
  Metadata := unit; BLOCK_SIZE := 2;
  files_name := qualified_new (lit "bonsaidb") (lit "files"); blocks_name := qualified_new (lit "bonsaidb") (lit "blocks");
  by_path_id := 10; by_file_id := 11;
  file_serialize := write_file; file_deserialize := read_file;
  entry_serialize e := Some [e.1]; entry_deserialize bs := match bs with [t] => Some (t, ()) | _ => None end;
  info_serialize := write_info; info_deserialize := read_info |}.

Definition by_path_view : View :=
  MkView (MkViewName (files_name config) (name_from (lit "by-path"))) (files_name config) 3 Unique (by_path_map config)
    (fun _ _ => Err ReduceUnimplemented).
Definition by_file_view : View :=
  MkView (MkViewName (blocks_name config) (name_from (lit "by-file"))) (blocks_name config) 2 Lazy (by_file_map config)
    (fun ms _ => infos ← view_value (mapM (fun m => read_info m.2) ms); i ← by_file_reduce infos; view_value (write_info i)).
Definition files_schema : Schematic :=
  (define_collections
     [MkCollection 20 (files_name config) None key_u32 [(10, by_path_view)];
      MkCollection 21 (blocks_name config) None key_u64 [(11, by_file_view)]] (schematic_new (files_name config))).2.

#[local] Instance files_connection : LowLevelConnection Database := reference_connection files_schema.
#[local] Instance files_connection_laws : ConnectionLaws ids_match (fun D => D) := reference_laws files_schema.

Lemma config_info i : exists b, info_serialize config i = Some b /\ info_deserialize config b = Some i.
Proof. destruct i as [n [t|]]; by eexists. Qed.
Lemma config_entry e : exists b, entry_serialize config e = Some b /\ entry_deserialize config b = Some e.
Proof. destruct e as [t []]. by eexists. Qed.

Lemma config_files_wf : qualified_wf (files_name config).
Proof. done. Qed.
Lemma config_blocks_wf : qualified_wf (blocks_name config).
Proof. done. Qed.
Lemma config_names : files_name config <> blocks_name config.
Proof. done. Qed.
Lemma config_size : (0 < BLOCK_SIZE config)%nat /\ Z.of_nat (BLOCK_SIZE config) + 12 <= int_max isize.
Proof. split; [simpl; lia|vm_compute; congruence]. Qed.

Lemma config_generator : collection_id_generators ll_schematic !! blocks_name config = Some key_u64.
Proof. reflexivity. Qed.
Lemma config_by_file : views ll_schematic !! by_file_id config = Some by_file_view /\
  view_by_name ll_schematic (view_name by_file_view) = Ok by_file_view.
Proof. split; reflexivity. Qed.
Lemma config_by_path : views ll_schematic !! by_path_id config = Some by_path_view /\
  view_by_name ll_schematic (view_name by_path_view) = Ok by_path_view.
Proof. split; reflexivity. Qed.

(** One file, [/a/x]. *)
Definition empty : Database := fun _ => ∅.
Definition file_bytes_x : bytes := [1; 3; 47; 97; 47; 1; 120; 5].
Definition stored : Database :=
  set_documents empty (files_name config) {[ to_be_bytes u32 1 := document_new (to_be_bytes u32 1) file_bytes_x ]}.
Definition handle : CollectionDocument (file_collection config) :=
  MkCollectionDocument (C := file_collection config) (MkCollectionHeader 1 (revision_new file_bytes_x))
    (MkStoredFile (Some (chars "/a/")) (chars "x") 5 ()).
Lemma made_ok : (build_create config 5 (chars "/a/x") [] () empty).1 = Ok handle.
Proof. reflexivity. Qed.
Lemma made_stored : (build_create config 5 (chars "/a/x") [] () empty).2 (files_name config) = stored (files_name config).
Proof. reflexivity. Qed.

Lemma stored_ids : ids_match stored.
Proof.
  intros c d doc. unfold stored, set_documents. case_decide; [|unfold empty; by rewrite lookup_empty].
  intros [<- <-]%lookup_singleton_Some. done.
Qed.
Lemma stored_blocks : blocks_ok config (stored (blocks_name config)).
Proof.
  assert (stored (blocks_name config) = ∅) as -> by reflexivity.
  split; [intros d [doc Hd]|intros d doc Hd]; by rewrite lookup_empty in Hd.
Qed.
Lemma stored_files : files_ok config (stored (files_name config)).
Proof.
  split. intros did doc. unfold stored, set_documents. rewrite decide_True by done. intros [<- <-]%lookup_singleton_Some.
  exists handle, [47; 97; 47; 0; 120; 0; 1; 3]. split_and!; reflexivity || done.
Qed.

Definition appended := append config 7 handle [1; 2; 3; 4; 5] stored.
Definition reopened := file_contents config handle appended.2.
Definition reader : Contents := default (contents_new 0 []) (res_ok reopened.1).
Lemma append_runs : appended = (Ok tt, appended.2).
Proof. rewrite (surjective_pairing appended) at 1. f_equal. Qed.
Lemma reopen_runs : reopened = (Ok reader, reopened.2).
Proof. rewrite (surjective_pairing reopened) at 1. f_equal. Qed.

Lemma append_then_read_witness :
  into_vec (fun ids => (block_load config ids reopened.2).1) 5 6 (fun _ => 3%nat) reader = Some (Ok [1; 2; 3; 4; 5]) /\
  contents_len reader = 5.
Proof.
  destruct (append_then_read ids_match (fun D => D) config config_blocks_wf config_names config_generator (proj1 config_size) (proj2 config_size)
    by_file_view (proj1 config_by_file) (proj2 config_by_file) eq_refl eq_refl config_info 7 [1; 2; 3; 4; 5] handle stored appended.2 reader reopened.2 5 6 (fun _ => 3%nat))
    as (Hread & Hlen & _);
    [done|apply stored_ids|apply stored_blocks|apply append_runs|apply reopen_runs|by intros ids; eexists|lia|vm_compute; lia|vm_compute; lia|].
  split; [exact Hread|exact Hlen].
Defined.

Definition listed := list_path_contents config (chars "/a") stored.
Lemma list_runs : listed = (Ok [handle], listed.2).
Proof. rewrite (surjective_pairing listed) at 1. f_equal. Qed.
Lemma path_null_free : null_free (chars "/a") = true /\ null_free (chars "/a/x/") = true.
Proof. split; reflexivity. Qed.

Lemma listing_exact_witness :
  listed.1 = Ok [handle] /\ containing_path (f_path (file_of config handle)) = chars "/a/" /\
  forall d, d ∈ [handle] <-> exists did doc, stored (files_name config) !! did = Some doc /\
    collection_document_try_from (file_collection config) doc = Ok d /\ containing_path (f_path (file_of config d)) = chars "/a/".
Proof.
  split; [reflexivity|]. split; [reflexivity|]. change (chars "/a/") with (force_slash (chars "/a")).
  exact (listing_exact ids_match (fun D => D) config config_files_wf by_path_view (proj1 config_by_path) (proj2 config_by_path) eq_refl eq_refl config_entry
    (chars "/a") stored [handle] listed.2 stored_ids stored_files (proj1 path_null_free) list_runs).
Defined.

Definition looked_up := find config (chars "/a/x/") stored.
Lemma find_runs : looked_up = (Ok (Some handle), looked_up.2).
Proof. rewrite (surjective_pairing looked_up) at 1. f_equal. Qed.
Lemma path_key : find_key (chars "/a/x/") = Some (Full (chars "/a/") (chars "x")).
Proof. reflexivity. Qed.

Lemma find_exact_witness :
  exists did doc, stored (files_name config) !! did = Some doc /\ key_of config handle = Full (chars "/a/") (chars "x").
Proof.
  destruct (proj2 (find_exact ids_match (fun D => D) config config_files_wf by_path_view (proj1 config_by_path) (proj2 config_by_path) eq_refl eq_refl config_entry
    (chars "/a/x/") stored (Ok (Some handle)) looked_up.2 stored_ids stored_files (proj2 path_null_free) find_runs)
    (Some handle) (Full (chars "/a/") (chars "x")) eq_refl path_key) as (did & doc & Hdoc & _ & Hkey).
  exists did, doc. split; [exact Hdoc|exact Hkey].
Defined.
End FilesDemo.
